(* ===== verification/_CoqProject ===== *)
-Q . S2P
Prelude.v
BlockHash.v
Md5.v
Hmac.v
Sha1.v
Md5Pool.v
Heap.v
RadiusPacket.v
RadiusSign.v
RadiusPassword.v
UtilTime.v
Uint128.v
Rand.v
Lst.v
LstView.v
LstRing.v
LstMove.v
LstBucket.v
LstDelete.v
LstPartition.v
LstExpand.v
LstOps.v
LstSpec.v
PriorityQueue.v
Timer.v
TimerInv.v
TimerArm.v
TimerRun.v
TimerSpec.v
Retry.v
Queues.v
RingBuffer.v
Message.v
MessageRings.v
MessageInv.v
MessageGc.v
MessageAlloc.v
MessageSpec.v
AtomicQueue.v
BfdPacket.v
BfdSession.v
BfdAuth.v
BfdProtocol.v
BfdHandshake.v
RadiusId.v
Connection.v
ConnectionSpec.v
ConnectionLife.v
HashTable.v
HashBits.v
HashChain.v
HashInv.v
HashOps.v
HashSpec.v
HashMap.v
HashIter.v
BaseN.v
BaseNSpec.v
Rb.v
RbShape.v
RbMirror.v
RbBalance.v
RbSearch.v
RbInsert.v
RbDelete.v
RbSplice.v
RbTree.v
RbIter.v
RbSpec.v
