(* ===== verification/Prelude.v ===== *)
(** * Verification of FreeRADIUS

    FreeRADIUS is a server for RADIUS and related protocols, written in C. Packets
    come in through listeners (src/listen), go from network threads to worker
    threads (src/lib/io), are checked, verified and decoded by the protocol
    libraries (src/protocols), drive a policy (src/lib/unlang, src/process) that
    calls modules (src/modules), and an answer is encoded, signed and sent. Beneath
    are utility libraries (src/lib/util): digests, containers, queues, time and
    random numbers. This library models a part of each layer whose behaviour is
    decided by code under src/ alone, and proves it correct.

    ** How the code is modelled

    A function of C is a function of Rocq with the same name. Words are integers
    ([Z]) with their wrap-around written out ([u8] to [u64], [s64]), bytes are [Z]
    below 256, buffers are lists of bytes, and a structure is a [Record] whose
    assignments are updates ([s <| field := v |>]). A function that may fail the
    way C does, by an access outside an array or an assertion, returns an
    [option]; so does a loop, whose fuel is a number that theorems show to be
    enough, so that no theorem says only what holds if a loop ends. Code outside
    src/ is an argument: the allocator (addresses or failures), random bytes of
    the system, the clock, the network.

    ** Digests and what is built on them

    - Prelude: notations, machine integers, lists of bytes, record updates.
    - BlockHash: the digest interface ([DigestOps] and its laws [DigestLaws]) and
      block buffering that MD5, SHA-1 share.
    - Md5: src/lib/util/md5.c. Feeding a message in any pieces gives the digest of
      RFC 1321 of the whole ([md5_streaming_correct]), as long as the bit counter
      carries as it should, which it does not always ([md5_count_carry_lost]).
    - Sha1: src/lib/util/sha1.c and hmac_sha1.c, in the same way.
    - Hmac: src/lib/util/hmac_md5.c and chap.c against RFC 2104 and RFC 1994.
    - Md5Pool: the thread-local list of contexts of md5.c: a context from the list
      is fresh, whatever was freed to it.

    ** RADIUS

    - RadiusPacket: src/protocols/radius/base.c. [fr_radius_ok] accepts exactly the
      well-formed packets; the fuel of its loops is the length of the packet.
    - RadiusSign: a packet that was signed verifies, a packet that verifies is one
      that signing would produce, what [fr_radius_ok] accepted makes no bad
      access in [fr_radius_verify].
    - RadiusPassword: the hiding of User-Password and Tunnel-Password of encode.c
      and decode.c, in place, and that decoding undoes encoding.
    - RadiusId: id.c and id.h, the identifiers of outstanding packets. Any calls
      behave as on one queue of free identifiers per packet code; what happens
      when none is left.

    ** BFD

    - BfdPacket: src/protocols/bfd. BfdSession: every function of
      src/listen/bfd/session.c on the state of a session, with its two timers.
    - BfdAuth: what a session signs its peer accepts.
    - BfdProtocol: a received packet has the effect of RFC 5880 section 6.8.6, where
      the code follows it; the jitter of the transmission interval.
    - BfdHandshake: two sessions come up by exchanging three packets.

    ** Containers and queues

    - Heap: src/lib/util/heap.c, an array whose elements know their index, refines a
      set with extraction of a minimum, for every pattern of allocation failures.
    - Lst, LstView, LstRing, LstMove, LstBucket, LstDelete, LstPartition, LstExpand,
      LstOps, LstSpec: src/lib/util/lst.c, a priority queue in a ring that pivots
      divide into buckets. Lst is the code, with the fields in which elements store
      their index. LstView is the ring as a list of places with at most one of them
      empty, and the order around the pivots; LstRing ties it to the array; LstMove,
      LstBucket and LstDelete move the empty place through the buckets; LstPartition
      is Hoare's loop; LstExpand creates and doubles the ring; LstOps and LstSpec
      are the operations. Any sequence of calls behaves as on a set with a least
      element ([lst_is_priority_queue]), unless an element is extracted that
      compares equal to another ([lst_extract_equal_loses]). The loops of a
      partition and the descent to the least element have the number of elements
      as fuel, the other descents the depth of the stack.
    - Rb, RbShape, RbMirror, RbBalance, RbSearch, RbInsert, RbDelete, RbSplice,
      RbTree, RbIter, RbSpec: src/lib/util/rb.c. Rb is the code, on a memory of
      nodes. RbShape says when memory holds a tree, by a subtree and its context,
      and that a rotation of the pointers is one of the tree; RbMirror gives the
      mirror image of every lemma. RbBalance, RbInsert and RbDelete are the
      red-black invariant and the loops that restore it, RbSearch and RbSplice the
      search and the removal of nodes. RbTree, RbIter and RbSpec conclude: any
      sequence of calls behaves as on a sorted list, searches are logarithmic,
      iterators see every element once, also while elements are deleted.
    - HashTable, HashBits, HashChain, HashInv, HashOps, HashSpec, HashMap, HashIter:
      src/lib/util/hash.c. HashTable is the code, on a memory of entries. HashBits
      is about reversed words and the ancestors of a bucket; HashChain about chains
      in memory and the loop that splits one; HashInv is the invariant that says in
      which chain an entry is, and that [fr_hash_table_fixup] keeps it; HashOps and
      HashSpec are the operations. HashMap and HashIter conclude: any sequence of
      calls behaves as on a map where hashes do not collide, what happens where
      they do, iterating and freeing meet every element once. Walks along a chain
      have the number of entries as fuel, and a bucket has at most 32 ancestors.
    - Queues: src/lib/util/fifo.c and fring.c. RingBuffer: src/lib/io/ring_buffer.c
      as a queue of blocks. AtomicQueue: src/lib/io/atomic_queue.c as steps of
      threads that interleave at every access to shared memory, linearizable.
    - Message, MessageRings, MessageInv, MessageGc, MessageAlloc, MessageSpec:
      src/lib/io/message.c, messages whose headers and data are blocks of ring
      buffers. Message is the code, with rings and messages by number and offset;
      MessageRings is about the arrays of rings; MessageInv the invariant, over
      the queue of all messages; MessageGc and MessageAlloc are the collection and
      the allocation. MessageSpec concludes: no call of a user fails, the rings
      hold what the messages hold ([message_set_safe]), with one message ring no
      two messages share data ([message_data_exclusive]) and with two they can
      ([message_data_shared]). Cleaning a ring has its bytes in use as fuel.

    ** Timers

    - PriorityQueue: the interface ([PriorityQueue], [PriorityQueueLaws]) through
      which timers use a priority queue, with the tree of Lst as its instance.
    - Timer, TimerInv, TimerArm, TimerRun, TimerSpec: src/lib/util/timer.c, for lists
      of timers that are kept in a tree and have no parent list. Timer is the code
      over any priority queue, with the memory of the timers and the variables of
      their clients; what a callback calls is a parameter. TimerInv is the
      invariant, TimerArm arming and the calls of a callback, TimerRun the loop,
      whose fuel is the number of timers in the tree. TimerSpec concludes, for the
      tree: a run fires what is due and ends ([timer_run_fires_due]), no call reads
      a timer that was freed ([timer_list_safe]), and freeing a list frees what is in
      its tree ([timer_list_free_all]); after disarming one of two timers with the
      same time a run may not end ([timer_disarm_equal_hangs]).

    ** Connections

    - Connection: src/lib/server/connection.c, the state machine that opens, closes
      and reopens a handle through callbacks and tells watchers about it. Each
      function is written over [call], which runs the others, and [exec] ties the
      knot; the fuel bounds the depth of calls and the length of a list of
      watchers. A run that fails an assertion or touches freed memory is a value
      of [outcome]. Callbacks may do anything the interface offers.
    - ConnectionSpec: deferred signals, with any callbacks: after one has halted
      the connection none is processed any more.
    - ConnectionLife: callbacks that only return. Every sequence of signals, timers
      and descriptor events that the connection may be given comes to rest with
      the handle, the timer and the flags right ([connection_lifecycle]), and
      which signals it must not be given ([connection_refused]).

    ** Text

    - BaseN, BaseNSpec: src/lib/util/base16.c, base32.c and base64.c. The encoders
      write the text of RFC 4648 in each alphabet, defined on the bits of the
      message; the decoders read it back; which characters the tables accept.

    ** Time, numbers, retransmission

    - UtilTime: src/lib/util/time.h. Uint128: uint128.h. Rand: rand.c and isaac.c.
    - Retry: retry.c against RFC 5080: every delay, and that a retransmission with a
      bound ends.

    ** Assumptions

    Allocation of a node in a red-black tree or of an entry in a hash table returns
    an address that is not in use, and so does that of a timer, of which there are
    fewer than 2^30; comparison functions are orders ([CmpLaws], [LstOrder], and the
    order of the heap); counters of elements stay below their width; there is
    memory for the stack of a tree. What is taken out of a tree or a timer list is
    the least element or compares equal to no other. Users of a message set allocate
    what they reserved before the next call. Threads see a sequentially
    consistent memory. Hosts are little-endian where the code lays structures over
    bytes. Calls to OpenSSL are not modelled, the branches without it are.

    ** Not modelled

    Dictionaries, value boxes and pairs, and with them the attribute encoders and
    decoders of all protocols, templates, the policy language and the modules; the
    configuration files; the event loop, sockets and buffered I/O; timer lists with a
    parent, ordered and shared ones; the threads around the queues; TLS, databases
    and other libraries; the other containers (tries, min-max heaps); programs and
    tests. They depend on
    graphs of dictionary objects and on libraries that are not part of the
    sources, or are input and output. *)

From Stdlib Require Export ZArith Lia Bool.
From stdpp Require Export base tactics decidable option list list_numbers numbers.

#[global] Open Scope Z_scope.

(** * Notations *)

Declare Scope cint_scope.
Delimit Scope cint_scope with cint.

(** Bitwise operators of C on the integers that represent machine words. *)
Notation "x &z y" := (Z.land x y) (at level 40, left associativity) : cint_scope.
Notation "x |z y" := (Z.lor x y) (at level 50, left associativity) : cint_scope.
Notation "x ^z y" := (Z.lxor x y) (at level 48, left associativity) : cint_scope.
#[global] Open Scope cint_scope.

(** * Machine integers

    A [w]-bit unsigned C integer is a [Z] in [0, 2^w); every operation that can
    leave the range writes its reduction out with one of the functions below. *)

Definition wrapu (w x : Z) : Z := x mod 2 ^ w.
Definition u8 (x : Z) : Z := x mod 256.
Definition u16 (x : Z) : Z := x mod 65536.
Definition u32 (x : Z) : Z := x mod 4294967296.
Definition u64 (x : Z) : Z := x mod 18446744073709551616.

(** Conversion to a signed 64-bit integer (two's complement). *)
Definition s64 (x : Z) : Z := (x + 9223372036854775808) mod 18446744073709551616 - 9223372036854775808.

Definition UINT8_MAX : Z := 255.
Definition UINT16_MAX : Z := 65535.
Definition UINT_MAX : Z := 4294967295.
Definition UINT64_MAX : Z := 18446744073709551615.
Definition INT64_MAX : Z := 9223372036854775807.
Definition INT64_MIN : Z := -9223372036854775808.

(** The range of each width as a predicate. *)
Definition is_u8 (x : Z) : Prop := 0 <= x < 256.
Definition is_u16 (x : Z) : Prop := 0 <= x < 65536.
Definition is_u32 (x : Z) : Prop := 0 <= x < 4294967296.
Definition is_u64 (x : Z) : Prop := 0 <= x < 18446744073709551616.
Definition is_s64 (x : Z) : Prop := INT64_MIN <= x <= INT64_MAX.

(** 32-bit arithmetic as the hash code uses it. *)
Definition add32 (x y : Z) : Z := u32 (x + y).
Definition shl32 (x s : Z) : Z := u32 (Z.shiftl x s).
Definition not32 (x : Z) : Z := UINT_MAX - x.
Definition rol32 (x s : Z) : Z := shl32 x s |z Z.shiftr x (32 - s).

Notation "x +32 y" := (add32 x y) (at level 50, left associativity) : cint_scope.

(** * Bytes and byte buffers *)

Abbreviation bytes := (list Z).
Definition is_bytes (l : bytes) : Prop := Forall is_u8 l.

(** [l[i]] for an index known to be in range; 0 stands for an index that the
    caller's range invariant excludes. *)
Definition get (l : bytes) (i : nat) : Z := nth i l 0.

(** [memcpy(buf + off, src, length src)] for a destination that has room: the
    bytes before and after the written range are kept. *)
Definition splice {A} (buf : list A) (off : nat) (src : list A) : list A :=
  take off buf ++ src ++ drop (off + length src) buf.

(** * Updating a field of a record *)

(** [eta] rebuilds a record from its fields. From it, [upd] finds the function
    that changes one field: [s <| f := v |>] is [s] with [v] in its field [f]. *)
Class Eta (R : Type) := eta : R -> R.
Class Upd {R T : Type} (proj : R -> T) := upd : T -> R -> R.

Ltac solve_upd R proj :=
  intros ?v ?r;
  match goal with
  | v : _, r : R |- _ =>
      let e := constr:(eta (R := R) r) in
      let e := eval hnf in e in
      let p := eval pattern (proj r) in e in
      match p with ?g _ => let t := eval cbv beta in (g v) in exact t end
  end.

#[export] Hint Extern 1 (@Upd ?R ?T ?proj) => (unfold Upd; solve_upd R proj) : typeclass_instances.

Notation "s <| f := v |>" := (upd (proj := f) v s) (at level 1, left associativity, format "s  <| f  :=  v |>").

(** * Tactics *)

Ltac simpl_bool :=
  repeat match goal with
  | H : (_ && _)%bool = true |- _ => apply andb_true_iff in H; destruct H
  | H : (_ || _)%bool = false |- _ => apply orb_false_iff in H; destruct H
  | H : negb _ = true |- _ => apply negb_true_iff in H
  | H : negb _ = false |- _ => apply negb_false_iff in H
  | H : (_ <=? _)%Z = true |- _ => apply Z.leb_le in H
  | H : (_ <=? _)%Z = false |- _ => apply Z.leb_gt in H
  | H : (_ <? _)%Z = true |- _ => apply Z.ltb_lt in H
  | H : (_ <? _)%Z = false |- _ => apply Z.ltb_ge in H
  | H : (_ =? _)%Z = true |- _ => apply Z.eqb_eq in H
  | H : (_ =? _)%Z = false |- _ => apply Z.eqb_neq in H
  | H : (_ <=? _)%nat = true |- _ => apply Nat.leb_le in H
  | H : (_ <=? _)%nat = false |- _ => apply Nat.leb_gt in H
  | H : (_ <? _)%nat = true |- _ => apply Nat.ltb_lt in H
  | H : (_ <? _)%nat = false |- _ => apply Nat.ltb_ge in H
  | H : (_ =? _)%nat = true |- _ => apply Nat.eqb_eq in H
  | H : (_ =? _)%nat = false |- _ => apply Nat.eqb_neq in H
  end.

(** Case analysis on the condition of the first [if] of the goal, with the
    boolean comparison turned into an arithmetic fact. *)
Ltac case_if :=
  match goal with
  | |- context [if ?b then _ else _] => destruct b eqn:?; simpl_bool
  end.

Ltac case_if_in H :=
  match type of H with
  | context [if ?b then _ else _] => destruct b eqn:?; simpl_bool
  end.

(** * Ranges *)

Lemma u8_range x : is_u8 (u8 x).
Proof. apply Z.mod_pos_bound; lia. Qed.
Lemma u16_range x : is_u16 (u16 x).
Proof. apply Z.mod_pos_bound; lia. Qed.
Lemma u32_range x : is_u32 (u32 x).
Proof. apply Z.mod_pos_bound; lia. Qed.
Lemma u64_range x : is_u64 (u64 x).
Proof. apply Z.mod_pos_bound; lia. Qed.
Lemma s64_range x : is_s64 (s64 x).
Proof.
  unfold is_s64, s64, INT64_MIN, INT64_MAX.
  pose proof (Z.mod_pos_bound (x + 9223372036854775808) 18446744073709551616 eq_refl). lia.
Qed.

Lemma u8_id x : is_u8 x -> u8 x = x.
Proof. apply Z.mod_small. Qed.
Lemma u16_id x : is_u16 x -> u16 x = x.
Proof. apply Z.mod_small. Qed.
Lemma u32_id x : is_u32 x -> u32 x = x.
Proof. apply Z.mod_small. Qed.
Lemma u64_id x : is_u64 x -> u64 x = x.
Proof. apply Z.mod_small. Qed.
Lemma s64_id x : is_s64 x -> s64 x = x.
Proof. unfold is_s64, s64, INT64_MIN, INT64_MAX. intros. rewrite Z.mod_small; lia. Qed.

Create HintDb crange.
#[export] Hint Resolve u8_range u16_range u32_range u64_range s64_range : crange.

(** * Bit-level reasoning *)

Lemma testbit_u32 x i : 0 <= i -> Z.testbit (u32 x) i = (i <? 32) && Z.testbit x i.
Proof.
  intros Hi. change (u32 x) with (x mod 2 ^ 32).
  destruct (Z.ltb_spec i 32); simpl.
  - by rewrite Z.mod_pow2_bits_low.
  - by rewrite Z.mod_pow2_bits_high by lia.
Qed.

Lemma testbit_above w x i : 0 <= x < 2 ^ w -> 0 <= w <= i -> Z.testbit x i = false.
Proof.
  intros Hx Hi. rewrite <- (Z.mod_small x (2 ^ w)) by done.
  by apply Z.mod_pow2_bits_high.
Qed.

(** Two words of the same width are equal when their low bits are. *)
Lemma word_ext w x y :
  0 <= x < 2 ^ w -> 0 <= y < 2 ^ w -> 0 <= w ->
  (forall i, 0 <= i < w -> Z.testbit x i = Z.testbit y i) -> x = y.
Proof.
  intros Hx Hy Hw H. apply Z.bits_inj_iff'. intros i Hi.
  destruct (Z.lt_ge_cases i w); [by apply H|].
  by rewrite !(testbit_above w) by lia.
Qed.

Lemma range_of_bits w x :
  0 <= w -> 0 <= x -> (forall i, w <= i -> Z.testbit x i = false) -> 0 <= x < 2 ^ w.
Proof.
  intros Hw Hx Hb. enough (x = x mod 2 ^ w) as ->.
  { apply Z.mod_pos_bound. lia. }
  apply Z.bits_inj_iff'. intros i Hi. destruct (Z.lt_ge_cases i w).
  - by rewrite Z.mod_pow2_bits_low.
  - rewrite Z.mod_pow2_bits_high by lia. by apply Hb.
Qed.

(** The bitwise operators stay within a width. *)
Lemma lor_range w x y : 0 <= w -> 0 <= x < 2 ^ w -> 0 <= y < 2 ^ w -> 0 <= Z.lor x y < 2 ^ w.
Proof.
  intros Hw Hx Hy. apply range_of_bits; [done|apply Z.lor_nonneg; lia|].
  intros i Hi. by rewrite Z.lor_spec, !(testbit_above w) by lia.
Qed.

Lemma lxor_range w x y : 0 <= w -> 0 <= x < 2 ^ w -> 0 <= y < 2 ^ w -> 0 <= Z.lxor x y < 2 ^ w.
Proof.
  intros Hw Hx Hy. apply range_of_bits; [done|apply Z.lxor_nonneg; lia|].
  intros i Hi. by rewrite Z.lxor_spec, !(testbit_above w) by lia.
Qed.

Lemma land_range w x y : 0 <= w -> 0 <= x -> 0 <= y < 2 ^ w -> 0 <= Z.land x y < 2 ^ w.
Proof.
  intros Hw Hx Hy. apply range_of_bits; [done|apply Z.land_nonneg; lia|].
  intros i Hi. by rewrite Z.land_spec, (testbit_above w y), andb_false_r by lia.
Qed.

Lemma shiftr_range w x s : 0 <= s -> 0 <= w -> 0 <= x < 2 ^ (w + s) -> 0 <= Z.shiftr x s < 2 ^ w.
Proof.
  intros Hs Hw Hx. apply range_of_bits; [done|apply Z.shiftr_nonneg; lia|].
  intros i Hi. rewrite Z.shiftr_spec by lia. apply (testbit_above (w + s)); lia.
Qed.

Lemma is_u8_lxor x y : is_u8 x -> is_u8 y -> is_u8 (x ^z y).
Proof. apply (lxor_range 8); lia. Qed.

(** * Lists as C arrays *)

Lemma length_splice {A} (buf : list A) off src :
  (off + length src <= length buf)%nat -> length (splice buf off src) = length buf.
Proof. intros. unfold splice. rewrite !length_app, length_take, length_drop. lia. Qed.

(** Goals about the lengths of spliced buffers. *)
Ltac splice_len :=
  rewrite ?length_replicate; repeat (rewrite length_splice by splice_len); rewrite ?length_replicate; cbn [length]; lia.

Lemma take_splice {A} (buf : list A) off src :
  (off <= length buf)%nat -> take (off + length src) (splice buf off src) = take off buf ++ src.
Proof.
  intros. unfold splice. rewrite app_assoc.
  rewrite take_app_length'; [done|]. rewrite length_app, length_take. lia.
Qed.

Lemma take_splice_le {A} (buf : list A) off src n :
  (n <= off <= length buf)%nat -> take n (splice buf off src) = take n buf.
Proof.
  intros. unfold splice. rewrite take_app_le by (rewrite length_take; lia). rewrite take_take. f_equal. lia.
Qed.

Lemma splice_full {A} (buf : list A) off src :
  (off <= length buf)%nat -> (off + length src = length buf)%nat ->
  splice buf off src = take off buf ++ src.
Proof.
  intros. unfold splice. rewrite drop_ge by lia. by rewrite app_nil_r.
Qed.

Lemma lookup_splice {A} (buf : list A) off src i :
  (off + length src <= length buf)%nat ->
  splice buf off src !! i =
  if decide (off <= i < off + length src)%nat then src !! (i - off)%nat else buf !! i.
Proof.
  intros Hl. unfold splice. destruct (decide (i < off)%nat) as [Hi|Hi].
  - rewrite decide_False by lia. rewrite lookup_app_l by (rewrite length_take; lia).
    by rewrite lookup_take_lt.
  - rewrite lookup_app_r by (rewrite length_take; lia). rewrite length_take, Nat.min_l by lia.
    destruct (decide (i < off + length src)%nat) as [Hj|Hj].
    + rewrite decide_True by lia. by rewrite lookup_app_l by lia.
    + rewrite decide_False by lia. rewrite lookup_app_r by lia. rewrite lookup_drop. f_equal. lia.
Qed.

(** Two buffers that splices build are equal when their bytes are. *)
Ltac splice_ext :=
  apply list_eq; intros ?i;
  repeat rewrite lookup_splice by (rewrite ?length_splice; rewrite ?length_splice; lia);
  repeat case_decide; try done; try lia; try (f_equal; lia).

Lemma splice_nil {A} (buf : list A) off : splice buf off [] = buf.
Proof. unfold splice. rewrite Nat.add_0_r, app_nil_l. apply take_drop. Qed.

Lemma splice_overwrite {A} (buf : list A) off s1 s2 :
  (off + length s1 <= length buf)%nat -> length s1 = length s2 ->
  splice (splice buf off s1) off s2 = splice buf off s2.
Proof. intros. splice_ext. Qed.

Lemma splice_comm {A} (buf : list A) o1 s1 o2 s2 :
  (o1 + length s1 <= o2)%nat -> (o2 + length s2 <= length buf)%nat ->
  splice (splice buf o1 s1) o2 s2 = splice (splice buf o2 s2) o1 s1.
Proof. intros. splice_ext. Qed.

Lemma splice_self {A} (buf : list A) off n :
  (off + n <= length buf)%nat -> splice buf off (take n (drop off buf)) = buf.
Proof.
  intros. unfold splice. rewrite length_take, length_drop, Nat.min_l by lia.
  rewrite <- drop_drop, take_drop. apply take_drop.
Qed.

(** Reading back what was written. *)
Lemma slice_splice {A} (buf : list A) off src n :
  (off + length src <= length buf)%nat -> length src = n ->
  take n (drop off (splice buf off src)) = src.
Proof.
  intros Hl <-. unfold splice. rewrite drop_app_length' by (rewrite length_take; lia).
  by rewrite take_app_length.
Qed.

Lemma slice_splice_ne {A} (buf : list A) off src o n :
  (off + length src <= length buf)%nat -> (o + n <= off)%nat \/ (off + length src <= o)%nat ->
  take n (drop o (splice buf off src)) = take n (drop o buf).
Proof.
  intros Hl Hd. apply list_eq. intros i. destruct (decide (i < n)%nat) as [Hi|Hi].
  - rewrite !lookup_take_lt, !lookup_drop, lookup_splice by lia. rewrite decide_False by lia. done.
  - rewrite !lookup_take_ge by lia. done.
Qed.

(** Deciding that a concrete buffer holds bytes. *)
Lemma is_bytes_check l : forallb (fun x => (0 <=? x) && (x <? 256)) l = true -> is_bytes l.
Proof.
  induction l as [|x l IH]; cbn; intros H; [constructor|]. simpl_bool. constructor; [done|by apply IH].
Qed.

Lemma is_bytes_app l k : is_bytes (l ++ k) <-> is_bytes l /\ is_bytes k.
Proof. apply Forall_app. Qed.

Lemma is_bytes_take n l : is_bytes l -> is_bytes (take n l).
Proof. apply Forall_take. Qed.

Lemma is_bytes_drop n l : is_bytes l -> is_bytes (drop n l).
Proof. apply Forall_drop. Qed.

#[export] Hint Resolve is_bytes_take is_bytes_drop : crange.
