(* ===== verification/BlockHash.v ===== *)
(** Merkle-Damgard hashing, independent of the compression function: what it
    means to have absorbed a message in 64-byte blocks, the lemmas that say
    absorption is independent of how the message is cut, and the interface
    (function-pointer table) through which the server uses a digest. *)

From S2P Require Import Prelude.

(** * Absorbing 64-byte blocks *)

Section Absorb.
Context {St : Type} (compress : St -> bytes -> St).

Fixpoint absorb_n (n : nat) (st : St) (l : bytes) : St :=
  match n with
  | O => st
  | S n => absorb_n n (compress st (take 64 l)) (drop 64 l)
  end.

(** The state after all complete blocks of [l]; [tail l] is what is left. *)
Definition absorb (st : St) (l : bytes) : St := absorb_n (length l / 64) st l.
Definition tail (l : bytes) : bytes := drop (64 * (length l / 64)) l.

Lemma div64_step n : (64 <= n)%nat -> (n / 64 = S ((n - 64) / 64))%nat.
Proof.
  intros. replace n with (n - 64 + 1 * 64)%nat at 1 by lia.
  rewrite Nat.div_add by lia. lia.
Qed.

Lemma absorb_short st l : (length l < 64)%nat -> absorb st l = st.
Proof. intros. unfold absorb. by rewrite Nat.div_small. Qed.

Lemma absorb_step st l :
  (64 <= length l)%nat -> absorb st l = absorb (compress st (take 64 l)) (drop 64 l).
Proof. intros. unfold absorb. rewrite div64_step by done. simpl. by rewrite length_drop. Qed.

Lemma tail_short l : (length l < 64)%nat -> tail l = l.
Proof. intros. unfold tail. by rewrite Nat.div_small, Nat.mul_0_r, drop_0. Qed.

Lemma tail_step l : (64 <= length l)%nat -> tail l = tail (drop 64 l).
Proof.
  intros. unfold tail. rewrite div64_step, length_drop by done.
  rewrite drop_drop. f_equal. lia.
Qed.

(** Induction by dropping one block at a time. *)
Lemma block_ind (P : bytes -> Prop) :
  (forall l, (length l < 64)%nat -> P l) ->
  (forall l, (64 <= length l)%nat -> P (drop 64 l) -> P l) ->
  forall l, P l.
Proof.
  intros Hs Hl.
  assert (forall n l, (length l <= n)%nat -> P l) as H; [|intros l; by apply (H (length l))].
  induction n as [|n IHn]; intros l Hn.
  - apply Hs. lia.
  - destruct (Nat.lt_ge_cases (length l) 64); [by apply Hs|].
    apply Hl; [done|]. apply IHn. rewrite length_drop. lia.
Qed.

Lemma length_tail l : length (tail l) = (length l mod 64)%nat.
Proof.
  unfold tail. rewrite length_drop, (Nat.div_mod_eq (length l) 64) at 1. lia.
Qed.

Lemma absorb_app l1 : forall st l2,
  absorb st (l1 ++ l2) = absorb (absorb st l1) (tail l1 ++ l2).
Proof.
  induction l1 as [l1 Hs|l1 Hl IH] using block_ind; intros st l2.
  - by rewrite (absorb_short st l1), tail_short.
  - rewrite (absorb_step _ (l1 ++ l2)) by (rewrite length_app; lia).
    rewrite take_app_le, drop_app_le by lia.
    by rewrite IH, (absorb_step st l1), (tail_step l1).
Qed.

Lemma tail_app l1 : forall l2, tail (l1 ++ l2) = tail (tail l1 ++ l2).
Proof.
  induction l1 as [l1 Hs|l1 Hl IH] using block_ind; intros l2.
  - by rewrite (tail_short l1).
  - rewrite (tail_step (l1 ++ l2)) by (rewrite length_app; lia).
    rewrite drop_app_le by lia. by rewrite IH, (tail_step l1).
Qed.

(** ** A chaining state with a 64-byte input buffer

    [buffered st0 st buf m]: starting from [st0], the message [m] has been
    ingested; [st] has absorbed its complete blocks, and the first
    [length m mod 64] bytes of [buf] are its tail.  The rest of [buf] is
    whatever earlier writes left there. *)
Definition buffered (st0 st : St) (buf : bytes) (m : bytes) : Prop :=
  st = absorb st0 m /\ length buf = 64%nat /\ take (length m mod 64) buf = tail m.

Lemma mod64_lt n : (n mod 64 < 64)%nat.
Proof. apply Nat.mod_upper_bound. lia. Qed.

Lemma length_tail_lt l : (length (tail l) < 64)%nat.
Proof. rewrite length_tail. apply mod64_lt. Qed.

Lemma take_mod_tail buf m l :
  (length m mod 64 <= length buf)%nat -> (length (tail m) + length l < 64)%nat ->
  take (length (m ++ l) mod 64) (splice buf (length m mod 64) l) =
  take (length m mod 64) buf ++ l.
Proof.
  intros Hb Hl. rewrite length_tail in Hl.
  replace (length (m ++ l) mod 64)%nat with (length m mod 64 + length l)%nat.
  - by apply take_splice.
  - rewrite length_app, <- Nat.Div0.add_mod_idemp_l. symmetry. by apply Nat.mod_small.
Qed.

(** The input fits in the room left in the buffer. *)
Lemma buffered_short st0 st buf m l :
  buffered st0 st buf m -> (length m mod 64 + length l < 64)%nat ->
  buffered st0 st (splice buf (length m mod 64) l) (m ++ l).
Proof.
  intros (Hst & Hb & Ht) Hl. pose proof (mod64_lt (length m)).
  rewrite <- length_tail in Hl. split; [|split].
  - by rewrite absorb_app, absorb_short by (rewrite length_app; done).
  - rewrite length_splice; [done|]. rewrite length_tail in Hl. lia.
  - rewrite take_mod_tail by lia. rewrite Ht, tail_app.
    rewrite (tail_short (tail m ++ l)) by (rewrite length_app; done). done.
Qed.

(** The buffer is empty: complete blocks are taken from the input directly. *)
Lemma buffered_direct st0 st buf m l :
  buffered st0 st buf m -> (length m mod 64 = 0)%nat ->
  buffered st0 (absorb st l) (splice buf 0 (tail l)) (m ++ l).
Proof.
  intros (Hst & Hb & Ht) Hm. pose proof (length_tail_lt l).
  assert (tail m = []) as Hnil by (apply length_zero_iff_nil; by rewrite length_tail).
  split; [|split].
  - by rewrite absorb_app, Hnil, Hst.
  - rewrite length_splice; [done|]. lia.
  - rewrite tail_app, Hnil. cbn [app].
    rewrite length_app, <- Nat.Div0.add_mod_idemp_l, Hm, Nat.add_0_l.
    rewrite <- length_tail. rewrite <- (Nat.add_0_l (length (tail l))), take_splice by lia.
    by rewrite take_0.
Qed.

(** The input completes the block in the buffer. *)
Lemma buffered_fill st0 st buf m l :
  buffered st0 st buf m -> let h := (length m mod 64)%nat in
  (64 - h <= length l)%nat ->
  let buf' := splice buf h (take (64 - h) l) in
  buffered st0 (compress st buf') buf' (m ++ take (64 - h) l).
Proof.
  intros (Hst & Hb & Ht) h Hl buf'. pose proof (mod64_lt (length m)). fold h in H, Ht.
  assert (Hlen : length (take (64 - h) l) = (64 - h)%nat) by (rewrite length_take; lia).
  assert (Hbuf' : buf' = tail m ++ take (64 - h) l).
  { unfold buf'. rewrite splice_full, Ht by lia. done. }
  assert (H64 : length (tail m ++ take (64 - h) l) = 64%nat).
  { rewrite length_app, length_tail, Hlen. fold h. lia. }
  split; [|split].
  - rewrite absorb_app, absorb_step, (take_ge _ 64), (drop_ge _ 64) by lia.
    rewrite absorb_short by (simpl; lia). by rewrite Hbuf', Hst.
  - by rewrite Hbuf'.
  - rewrite tail_app, tail_step, drop_ge, tail_short by (simpl; lia).
    replace (length (m ++ take (64 - h) l) mod 64)%nat with 0%nat; [done|].
    rewrite length_app, Hlen, <- Nat.Div0.add_mod_idemp_l. fold h.
    replace (h + (64 - h))%nat with 64%nat by lia. done.
Qed.

(** The [while (len >= 64)] loop of a hash's update function. *)
Fixpoint block_loop (fuel : nat) (st : St) (l : bytes) : St * bytes :=
  match fuel with
  | O => (st, l)
  | S fuel =>
      if (64 <=? length l)%nat then block_loop fuel (compress st (take 64 l)) (drop 64 l)
      else (st, l)
  end.

(** [length l] iterations are enough for the loop to reach its exit. *)
Lemma block_loop_spec fuel : forall st l,
  (length l <= fuel)%nat -> block_loop fuel st l = (absorb st l, tail l).
Proof.
  induction fuel as [|fuel IH]; intros st l Hf; cbn [block_loop].
  - by rewrite absorb_short, tail_short by lia.
  - case_if.
    + rewrite IH by (rewrite length_drop; lia). by rewrite (absorb_step st l), (tail_step l).
    + by rewrite absorb_short, tail_short.
Qed.
End Absorb.

(** * The digest interface

    The server calls its digests through a table of function pointers
    ([fr_md5_ctx_reset], [fr_md5_update], [fr_md5_final], ... of
    src/lib/util/md5.c), behind which stands either the local code or the
    system's crypto library.  [DigestOps] is the table, [DigestLaws] is what
    its users rely on: a context stands for the message it has ingested, and
    finalising yields the digest of that message.  Contexts are values here,
    so copying one ([fr_md5_ctx_copy]) is sharing the value. *)

Class DigestOps (Ctx : Type) := {
  ctx_alloc : Ctx;                              (* a context fresh from the allocator *)
  ctx_reset : Ctx -> Ctx;
  ctx_update : Ctx -> bytes -> Ctx;
  ctx_final : Ctx -> bytes * Ctx;
}.

Class DigestLaws (Ctx : Type) `{DigestOps Ctx} := {
  digest : bytes -> bytes;                      (* the hash function computed *)
  digest_len : nat;
  digest_max : Z;                               (* message sizes the laws cover *)
  ctx_holds : Ctx -> bytes -> Prop;             (* the context has ingested this message *)
  ctx_alloc_holds : ctx_holds ctx_alloc [];
  ctx_reset_holds c : ctx_holds (ctx_reset c) [];
  ctx_update_holds c m l :
    ctx_holds c m -> Z.of_nat (length m + length l) < digest_max ->
    ctx_holds (ctx_update c l) (m ++ l);
  ctx_final_digest c m :
    ctx_holds c m -> Z.of_nat (length m) < digest_max -> fst (ctx_final c) = digest m;
  digest_length m : length (digest m) = digest_len;
  digest_bytes m : is_bytes (digest m);
}.

(** Ingesting a list of chunks one after the other. *)
Definition ctx_updates {Ctx} `{DigestOps Ctx} (c : Ctx) (ls : list bytes) : Ctx :=
  fold_left ctx_update ls c.

Lemma ctx_updates_holds {Ctx} `{DigestLaws Ctx} ls : forall c m,
  ctx_holds c m -> Z.of_nat (length m + length (concat ls)) < digest_max ->
  ctx_holds (ctx_updates c ls) (m ++ concat ls).
Proof.
  induction ls as [|l ls IH]; intros c m Hc Hl; simpl in *.
  - by rewrite app_nil_r.
  - rewrite length_app in Hl. rewrite app_assoc. apply IH.
    + apply ctx_update_holds; [done|lia].
    + rewrite length_app. lia.
Qed.

(** However the message is cut, the digest is that of the whole message. *)
Lemma ctx_chunks_digest {Ctx} `{DigestLaws Ctx} c ls :
  ctx_holds c [] -> Z.of_nat (length (concat ls)) < digest_max ->
  fst (ctx_final (ctx_updates c ls)) = digest (concat ls).
Proof.
  intros Hc Hl. apply ctx_final_digest; [|done]. by apply (ctx_updates_holds ls c []).
Qed.
