(* ===== verification/Md5.v ===== *)
(** The local MD5 implementation of src/lib/util/md5.c: a context with a buffer of
    one block and a counter of bits, against the digest of RFC 1321. *)

From S2P Require Import Prelude BlockHash.

Module Md5.

Definition MD5_BLOCK_LENGTH : nat := 64.
Definition MD5_DIGEST_LENGTH : nat := 16.

(** [uint32_t state[4]] *)
Definition md5_state : Type := (Z * Z * Z * Z)%type.

Record fr_md5_ctx_local_t := MkCtx {
  state : md5_state;
  count0 : Z;               (* count[0], low word of the bit count *)
  count1 : Z;               (* count[1], high word *)
  buffer : bytes;
}.

(** The little-endian stores of a 32-bit and of a two-word 64-bit value. *)
Definition PUT_32BIT_LE (v : Z) : bytes :=
  [u8 v; u8 (Z.shiftr v 8); u8 (Z.shiftr v 16); u8 (Z.shiftr v 24)].
Definition PUT_64BIT_LE (v0 v1 : Z) : bytes :=
  [u8 v0; u8 (Z.shiftr v0 8); u8 (Z.shiftr v0 16); u8 (Z.shiftr v0 24);
   u8 v1; u8 (Z.shiftr v1 8); u8 (Z.shiftr v1 16); u8 (Z.shiftr v1 24)].

Definition PADDING : bytes := 128 :: replicate 63 0.

(** The four core functions. *)
Definition MD5_F1 (x y z : Z) : Z := z ^z (x &z (y ^z z)).
Definition MD5_F2 (x y z : Z) : Z := MD5_F1 z x y.
Definition MD5_F3 (x y z : Z) : Z := x ^z y ^z z.
Definition MD5_F4 (x y z : Z) : Z := y ^z (x |z not32 z).

Definition MD5STEP (f : Z -> Z -> Z -> Z) (w x y z data s : Z) : Z :=
  let w := w +32 (f x y z +32 data) in
  let w := shl32 w s |z Z.shiftr w (32 - s) in
  w +32 x.

(** [in[a]] of the transform: the [a]-th little-endian word of the block. *)
Definition block_word (block : bytes) (a : nat) : Z :=
  let idx := (a * 4)%nat in
  get block idx |z shl32 (get block (idx + 1)) 8 |z
  shl32 (get block (idx + 2)) 16 |z shl32 (get block (idx + 3)) 24.

(** Sequenced assignment [v = e; rest] of the unrolled transform. *)
Definition assign {A B} (e : A) (k : A -> B) : B := k e.
#[local] Notation "v <~ e ; k" := (assign e (fun v => k)) (at level 200, e at level 99, k at level 200).

Definition fr_md5_local_transform (st : md5_state) (block : bytes) : md5_state :=
  let words := map (block_word block) (seq 0 16) in
  let inw := get words in
  let '(s0, s1, s2, s3) := st in
  let a := s0 in
  let b := s1 in
  let c := s2 in
  let d := s3 in
  a <~ MD5STEP MD5_F1 a b c d (inw 0%nat +32 0xd76aa478) 7;
  d <~ MD5STEP MD5_F1 d a b c (inw 1%nat +32 0xe8c7b756) 12;
  c <~ MD5STEP MD5_F1 c d a b (inw 2%nat +32 0x242070db) 17;
  b <~ MD5STEP MD5_F1 b c d a (inw 3%nat +32 0xc1bdceee) 22;
  a <~ MD5STEP MD5_F1 a b c d (inw 4%nat +32 0xf57c0faf) 7;
  d <~ MD5STEP MD5_F1 d a b c (inw 5%nat +32 0x4787c62a) 12;
  c <~ MD5STEP MD5_F1 c d a b (inw 6%nat +32 0xa8304613) 17;
  b <~ MD5STEP MD5_F1 b c d a (inw 7%nat +32 0xfd469501) 22;
  a <~ MD5STEP MD5_F1 a b c d (inw 8%nat +32 0x698098d8) 7;
  d <~ MD5STEP MD5_F1 d a b c (inw 9%nat +32 0x8b44f7af) 12;
  c <~ MD5STEP MD5_F1 c d a b (inw 10%nat +32 0xffff5bb1) 17;
  b <~ MD5STEP MD5_F1 b c d a (inw 11%nat +32 0x895cd7be) 22;
  a <~ MD5STEP MD5_F1 a b c d (inw 12%nat +32 0x6b901122) 7;
  d <~ MD5STEP MD5_F1 d a b c (inw 13%nat +32 0xfd987193) 12;
  c <~ MD5STEP MD5_F1 c d a b (inw 14%nat +32 0xa679438e) 17;
  b <~ MD5STEP MD5_F1 b c d a (inw 15%nat +32 0x49b40821) 22;
  a <~ MD5STEP MD5_F2 a b c d (inw 1%nat +32 0xf61e2562) 5;
  d <~ MD5STEP MD5_F2 d a b c (inw 6%nat +32 0xc040b340) 9;
  c <~ MD5STEP MD5_F2 c d a b (inw 11%nat +32 0x265e5a51) 14;
  b <~ MD5STEP MD5_F2 b c d a (inw 0%nat +32 0xe9b6c7aa) 20;
  a <~ MD5STEP MD5_F2 a b c d (inw 5%nat +32 0xd62f105d) 5;
  d <~ MD5STEP MD5_F2 d a b c (inw 10%nat +32 0x02441453) 9;
  c <~ MD5STEP MD5_F2 c d a b (inw 15%nat +32 0xd8a1e681) 14;
  b <~ MD5STEP MD5_F2 b c d a (inw 4%nat +32 0xe7d3fbc8) 20;
  a <~ MD5STEP MD5_F2 a b c d (inw 9%nat +32 0x21e1cde6) 5;
  d <~ MD5STEP MD5_F2 d a b c (inw 14%nat +32 0xc33707d6) 9;
  c <~ MD5STEP MD5_F2 c d a b (inw 3%nat +32 0xf4d50d87) 14;
  b <~ MD5STEP MD5_F2 b c d a (inw 8%nat +32 0x455a14ed) 20;
  a <~ MD5STEP MD5_F2 a b c d (inw 13%nat +32 0xa9e3e905) 5;
  d <~ MD5STEP MD5_F2 d a b c (inw 2%nat +32 0xfcefa3f8) 9;
  c <~ MD5STEP MD5_F2 c d a b (inw 7%nat +32 0x676f02d9) 14;
  b <~ MD5STEP MD5_F2 b c d a (inw 12%nat +32 0x8d2a4c8a) 20;
  a <~ MD5STEP MD5_F3 a b c d (inw 5%nat +32 0xfffa3942) 4;
  d <~ MD5STEP MD5_F3 d a b c (inw 8%nat +32 0x8771f681) 11;
  c <~ MD5STEP MD5_F3 c d a b (inw 11%nat +32 0x6d9d6122) 16;
  b <~ MD5STEP MD5_F3 b c d a (inw 14%nat +32 0xfde5380c) 23;
  a <~ MD5STEP MD5_F3 a b c d (inw 1%nat +32 0xa4beea44) 4;
  d <~ MD5STEP MD5_F3 d a b c (inw 4%nat +32 0x4bdecfa9) 11;
  c <~ MD5STEP MD5_F3 c d a b (inw 7%nat +32 0xf6bb4b60) 16;
  b <~ MD5STEP MD5_F3 b c d a (inw 10%nat +32 0xbebfbc70) 23;
  a <~ MD5STEP MD5_F3 a b c d (inw 13%nat +32 0x289b7ec6) 4;
  d <~ MD5STEP MD5_F3 d a b c (inw 0%nat +32 0xeaa127fa) 11;
  c <~ MD5STEP MD5_F3 c d a b (inw 3%nat +32 0xd4ef3085) 16;
  b <~ MD5STEP MD5_F3 b c d a (inw 6%nat +32 0x04881d05) 23;
  a <~ MD5STEP MD5_F3 a b c d (inw 9%nat +32 0xd9d4d039) 4;
  d <~ MD5STEP MD5_F3 d a b c (inw 12%nat +32 0xe6db99e5) 11;
  c <~ MD5STEP MD5_F3 c d a b (inw 15%nat +32 0x1fa27cf8) 16;
  b <~ MD5STEP MD5_F3 b c d a (inw 2%nat +32 0xc4ac5665) 23;
  a <~ MD5STEP MD5_F4 a b c d (inw 0%nat +32 0xf4292244) 6;
  d <~ MD5STEP MD5_F4 d a b c (inw 7%nat +32 0x432aff97) 10;
  c <~ MD5STEP MD5_F4 c d a b (inw 14%nat +32 0xab9423a7) 15;
  b <~ MD5STEP MD5_F4 b c d a (inw 5%nat +32 0xfc93a039) 21;
  a <~ MD5STEP MD5_F4 a b c d (inw 12%nat +32 0x655b59c3) 6;
  d <~ MD5STEP MD5_F4 d a b c (inw 3%nat +32 0x8f0ccc92) 10;
  c <~ MD5STEP MD5_F4 c d a b (inw 10%nat +32 0xffeff47d) 15;
  b <~ MD5STEP MD5_F4 b c d a (inw 1%nat +32 0x85845dd1) 21;
  a <~ MD5STEP MD5_F4 a b c d (inw 8%nat +32 0x6fa87e4f) 6;
  d <~ MD5STEP MD5_F4 d a b c (inw 15%nat +32 0xfe2ce6e0) 10;
  c <~ MD5STEP MD5_F4 c d a b (inw 6%nat +32 0xa3014314) 15;
  b <~ MD5STEP MD5_F4 b c d a (inw 13%nat +32 0x4e0811a1) 21;
  a <~ MD5STEP MD5_F4 a b c d (inw 4%nat +32 0xf7537e82) 6;
  d <~ MD5STEP MD5_F4 d a b c (inw 11%nat +32 0xbd3af235) 10;
  c <~ MD5STEP MD5_F4 c d a b (inw 2%nat +32 0x2ad7d2bb) 15;
  b <~ MD5STEP MD5_F4 b c d a (inw 9%nat +32 0xeb86d391) 21;
  (s0 +32 a, s1 +32 b, s2 +32 c, s3 +32 d).

Definition md5_init_state : md5_state := (0x67452301, 0xefcdab89, 0x98badcfe, 0x10325476).

Definition fr_md5_local_ctx_reset (ctx : fr_md5_ctx_local_t) : fr_md5_ctx_local_t :=
  MkCtx md5_init_state 0 0 (replicate MD5_BLOCK_LENGTH 0).

(** [in] is [None] for a NULL pointer. *)
Definition fr_md5_local_update (ctx : fr_md5_ctx_local_t) (in_ : option bytes) : fr_md5_ctx_local_t :=
  let in_ := match in_ with None => [] | Some l => l end in
  let inlen := length in_ in
  (* how many bytes we already have and how many more we need *)
  let have := Z.to_nat (Z.shiftr (count0 ctx) 3 &z 63) in
  let need := (MD5_BLOCK_LENGTH - have)%nat in
  (* update the bit count *)
  let c0 := count0 ctx +32 shl32 (u32 (Z.of_nat inlen)) 3 in
  let c1 := if c0 <? u32 (Z.of_nat inlen) then count1 ctx +32 1 else count1 ctx in
  let c1 := c1 +32 Z.shiftr (u32 (Z.of_nat inlen)) 29 in
  let '(st, buf, in_, have) :=
    if (need <=? inlen)%nat then
      let '(st, buf, in_, have) :=
        if negb (have =? 0)%nat then
          let buf := splice (buffer ctx) have (take need in_) in
          (fr_md5_local_transform (state ctx) buf, buf, drop need in_, 0%nat)
        else (state ctx, buffer ctx, in_, have) in
      let '(st, in_) := block_loop fr_md5_local_transform (length in_) st in_ in
      (st, buf, in_, have)
    else (state ctx, buffer ctx, in_, have) in
  (* handle any remaining bytes of data *)
  MkCtx st c0 c1 (splice buf have in_).

(** The context is wiped once the digest has been written out. *)
Definition fr_md5_local_final (ctx : fr_md5_ctx_local_t) : bytes * fr_md5_ctx_local_t :=
  let count := PUT_64BIT_LE (count0 ctx) (count1 ctx) in
  let padlen := (MD5_BLOCK_LENGTH - Z.to_nat (Z.shiftr (count0 ctx) 3 &z 63))%nat in
  let padlen := if (padlen <? 1 + 8)%nat then (padlen + MD5_BLOCK_LENGTH)%nat else padlen in
  let ctx := fr_md5_local_update ctx (Some (take (padlen - 8) PADDING)) in
  let ctx := fr_md5_local_update ctx (Some count) in
  let '(s0, s1, s2, s3) := state ctx in
  (PUT_32BIT_LE s0 ++ PUT_32BIT_LE s1 ++ PUT_32BIT_LE s2 ++ PUT_32BIT_LE s3,
   MkCtx (0, 0, 0, 0) 0 0 (replicate MD5_BLOCK_LENGTH 0)).

(** ** Reference digest (RFC 1321)

    Padding to a multiple of 64 bytes with the 64-bit message length in bits,
    then the compression of the blocks in order. *)

Definition md5_pad (n : nat) : bytes :=
  128 :: replicate ((119 - n mod 64) mod 64) 0 ++
  PUT_64BIT_LE (u32 (8 * Z.of_nat n)) (u32 (Z.shiftr (8 * Z.of_nat n) 32)).

Definition md5_output (st : md5_state) : bytes :=
  let '(s0, s1, s2, s3) := st in
  PUT_32BIT_LE s0 ++ PUT_32BIT_LE s1 ++ PUT_32BIT_LE s2 ++ PUT_32BIT_LE s3.

(** The compression function as the RFC writes it: four rounds of sixteen
    steps, with the selection functions in their textbook form. *)
Definition rfc_F (x y z : Z) : Z := (x &z y) |z (not32 x &z z).
Definition rfc_G (x y z : Z) : Z := (x &z z) |z (y &z not32 z).
Definition rfc_H (x y z : Z) : Z := x ^z y ^z z.
Definition rfc_I (x y z : Z) : Z := y ^z (x |z not32 z).

Definition rfc_table : list (Z * Z) :=
    [(0xd76aa478, 7); (0xe8c7b756, 12); (0x242070db, 17); (0xc1bdceee, 22); 
     (0xf57c0faf, 7); (0x4787c62a, 12); (0xa8304613, 17); (0xfd469501, 22); 
     (0x698098d8, 7); (0x8b44f7af, 12); (0xffff5bb1, 17); (0x895cd7be, 22); 
     (0x6b901122, 7); (0xfd987193, 12); (0xa679438e, 17); (0x49b40821, 22); 
     (0xf61e2562, 5); (0xc040b340, 9); (0x265e5a51, 14); (0xe9b6c7aa, 20); 
     (0xd62f105d, 5); (0x02441453, 9); (0xd8a1e681, 14); (0xe7d3fbc8, 20); 
     (0x21e1cde6, 5); (0xc33707d6, 9); (0xf4d50d87, 14); (0x455a14ed, 20); 
     (0xa9e3e905, 5); (0xfcefa3f8, 9); (0x676f02d9, 14); (0x8d2a4c8a, 20); 
     (0xfffa3942, 4); (0x8771f681, 11); (0x6d9d6122, 16); (0xfde5380c, 23); 
     (0xa4beea44, 4); (0x4bdecfa9, 11); (0xf6bb4b60, 16); (0xbebfbc70, 23); 
     (0x289b7ec6, 4); (0xeaa127fa, 11); (0xd4ef3085, 16); (0x04881d05, 23); 
     (0xd9d4d039, 4); (0xe6db99e5, 11); (0x1fa27cf8, 16); (0xc4ac5665, 23); 
     (0xf4292244, 6); (0x432aff97, 10); (0xab9423a7, 15); (0xfc93a039, 21); 
     (0x655b59c3, 6); (0x8f0ccc92, 10); (0xffeff47d, 15); (0x85845dd1, 21); 
     (0x6fa87e4f, 6); (0xfe2ce6e0, 10); (0xa3014314, 15); (0x4e0811a1, 21); 
     (0xf7537e82, 6); (0xbd3af235, 10); (0x2ad7d2bb, 15); (0xeb86d391, 21)].

Definition rfc_round_fun (i : nat) : Z -> Z -> Z -> Z :=
  match (i / 16)%nat with 0%nat => rfc_F | 1%nat => rfc_G | 2%nat => rfc_H | _ => rfc_I end.

Definition rfc_round_index (i : nat) : nat :=
  match (i / 16)%nat with
  | 0%nat => i
  | 1%nat => (5 * i + 1) mod 16
  | 2%nat => (3 * i + 5) mod 16
  | _ => (7 * i) mod 16
  end.

(** Step [i] computes one new word and rotates the registers (a, b, c, d). *)
Definition rfc_new (block : bytes) (i : nat) (a b c d : Z) : Z :=
  let '(t, s) := nth i rfc_table (0, 0) in
  rol32 (a +32 (rfc_round_fun i b c d +32 (block_word block (rfc_round_index i) +32 t))) s +32 b.

Definition rfc_step (block : bytes) (st : md5_state) (i : nat) : md5_state :=
  let '(a, b, c, d) := st in (d, rfc_new block i a b c d, b, c).

(** The working registers are added back into the chaining state. *)
Definition md5_feed (st w : md5_state) : md5_state :=
  let '(s0, s1, s2, s3) := st in
  let '(a, b, c, d) := w in
  (s0 +32 a, s1 +32 b, s2 +32 c, s3 +32 d).

Definition rfc_compress (st : md5_state) (block : bytes) : md5_state :=
  md5_feed st (fold_left (rfc_step block) (seq 0 64) st).

Definition md5 (msg : bytes) : bytes :=
  md5_output (absorb rfc_compress md5_init_state (msg ++ md5_pad (length msg))).

(** ** The optimised compression function is the RFC's *)

Definition state_ok (st : md5_state) : Prop :=
  let '(a, b, c, d) := st in is_u32 a /\ is_u32 b /\ is_u32 c /\ is_u32 d.

Lemma testbit_not32 x i :
  is_u32 x -> 0 <= i -> Z.testbit (not32 x) i = (i <? 32) && negb (Z.testbit x i).
Proof.
  intros Hx Hi. replace (not32 x) with (u32 (Z.lnot x)).
  - rewrite testbit_u32 by done. by rewrite Z.lnot_spec.
  - unfold u32, not32, UINT_MAX, Z.lnot.
    rewrite <- (Z.mod_add _ 1), Z.mod_small by (unfold is_u32 in Hx; lia). lia.
Qed.

Ltac word_bits :=
  apply Z.bits_inj_iff'; intros i Hi;
  repeat first [rewrite Z.lxor_spec | rewrite Z.land_spec | rewrite Z.lor_spec
               | rewrite testbit_not32 by assumption];
  destruct (Z.ltb_spec i 32); cbn [andb];
  [ repeat match goal with |- context [Z.testbit ?x i] => destruct (Z.testbit x i) end; reflexivity
  | rewrite !(testbit_above 32) by (unfold is_u32 in *; lia); reflexivity ].

Lemma MD5_F1_rfc x y z : is_u32 x -> is_u32 y -> is_u32 z -> MD5_F1 x y z = rfc_F x y z.
Proof. intros. unfold MD5_F1, rfc_F. word_bits. Qed.

Lemma MD5_F2_rfc x y z : is_u32 x -> is_u32 y -> is_u32 z -> MD5_F2 x y z = rfc_G x y z.
Proof. intros. unfold MD5_F2, MD5_F1, rfc_G. word_bits. Qed.

Lemma MD5STEP_rfc_new f block i a b c d :
  (forall x y z, is_u32 x -> is_u32 y -> is_u32 z -> f x y z = rfc_round_fun i x y z) ->
  is_u32 b -> is_u32 c -> is_u32 d ->
  MD5STEP f a b c d (block_word block (rfc_round_index i) +32 fst (nth i rfc_table (0, 0)))
    (snd (nth i rfc_table (0, 0))) = rfc_new block i a b c d.
Proof.
  intros Hf Hb Hc Hd. unfold MD5STEP, rfc_new. rewrite Hf by done.
  destruct (nth i rfc_table (0, 0)) as [t s]. reflexivity.
Qed.

Lemma rfc_new_range block i a b c d : is_u32 (rfc_new block i a b c d).
Proof. unfold rfc_new. destruct (nth i rfc_table (0, 0)). apply u32_range. Qed.

(** One unrolled step of the transform against one step of the reference; the
    new word is generalised, so the unrolled term is never duplicated. *)
Lemma transform_step {T} (K : Z -> T) (R : md5_state -> T) f block i l a b c d w s :
  (forall x y z, is_u32 x -> is_u32 y -> is_u32 z -> f x y z = rfc_round_fun i x y z) ->
  w = block_word block (rfc_round_index i) +32 fst (nth i rfc_table (0, 0)) ->
  s = snd (nth i rfc_table (0, 0)) ->
  is_u32 b -> is_u32 c -> is_u32 d ->
  (forall v, is_u32 v -> K v = R (fold_left (rfc_step block) l (d, v, b, c))) ->
  assign (MD5STEP f a b c d w s) K = R (fold_left (rfc_step block) (i :: l) (a, b, c, d)).
Proof.
  intros Hf -> -> Hb Hc Hd HK. unfold assign. rewrite MD5STEP_rfc_new by done.
  simpl. apply HK. apply rfc_new_range.
Qed.

Ltac transform_step f :=
  apply transform_step; [exact f|reflexivity|reflexivity|assumption..|]; intros ? ?.

Lemma fr_md5_local_transform_rfc st block :
  state_ok st -> fr_md5_local_transform st block = rfc_compress st block.
Proof.
  destruct st as [[[s0 s1] s2] s3]. intros (H0 & H1 & H2 & H3).
  unfold rfc_compress, fr_md5_local_transform. cbn [seq].
  do 16 transform_step MD5_F1_rfc.
  do 16 transform_step MD5_F2_rfc.
  do 16 transform_step (fun x y z (_ : is_u32 x) (_ : is_u32 y) (_ : is_u32 z) => eq_refl (rfc_H x y z)).
  do 16 transform_step (fun x y z (_ : is_u32 x) (_ : is_u32 y) (_ : is_u32 z) => eq_refl (rfc_I x y z)).
  reflexivity.
Qed.

Lemma rfc_compress_ok st block : state_ok (rfc_compress st block).
Proof.
  unfold rfc_compress, md5_feed. destruct st as [[[s0 s1] s2] s3].
  destruct (fold_left _ _ _) as [[[a b] c] d]. repeat split; apply u32_range.
Qed.

Lemma md5_init_ok : state_ok md5_init_state.
Proof. unfold md5_init_state, state_ok, is_u32. lia. Qed.

Lemma absorb_transform_rfc l : forall st,
  state_ok st ->
  absorb fr_md5_local_transform st l = absorb rfc_compress st l /\
  state_ok (absorb rfc_compress st l).
Proof.
  induction l as [l Hs|l Hl IH] using block_ind; intros st Hst.
  - by rewrite !absorb_short.
  - rewrite !(absorb_step _ st l) by done. rewrite fr_md5_local_transform_rfc by done.
    apply IH, rfc_compress_ok.
Qed.

(** ** What a context has ingested *)

(** The context has ingested [m], whatever the high word of its bit count is. *)
Definition absorbed (ctx : fr_md5_ctx_local_t) (m : bytes) : Prop :=
  buffered fr_md5_local_transform md5_init_state (state ctx) (buffer ctx) m /\
  count0 ctx = u32 (8 * Z.of_nat (length m)).

(** ... and its 64-bit bit count is that of [m]. *)
Definition holds (ctx : fr_md5_ctx_local_t) (m : bytes) : Prop :=
  absorbed ctx m /\ count1 ctx = u32 (Z.shiftr (8 * Z.of_nat (length m)) 32).

Lemma bit_count_have n :
  Z.to_nat (Z.shiftr (u32 (8 * Z.of_nat n)) 3 &z 63) = (n mod 64)%nat.
Proof.
  change 63 with (Z.ones 6). rewrite Z.land_ones, Z.shiftr_div_pow2 by lia.
  unfold u32. change 4294967296 with (8 * 536870912). rewrite Z.mul_mod_distr_l by lia.
  change (2 ^ 3) with 8. rewrite (Z.mul_comm 8), Z.div_mul by lia. change (2 ^ 6) with 64.
  change 536870912 with (64 * 8388608).
  rewrite Z.mod_mod_divide by (by exists 8388608).
  change 64 with (Z.of_nat 64). rewrite <- Nat2Z.inj_mod. lia.
Qed.

Lemma bit_count_add n k :
  u32 (8 * Z.of_nat n) +32 shl32 (u32 (Z.of_nat k)) 3 = u32 (8 * Z.of_nat (n + k)).
Proof.
  unfold add32, shl32, u32. rewrite Z.shiftl_mul_pow2 by lia. change (2 ^ 3) with 8.
  rewrite Zmult_mod_idemp_l, <- Zplus_mod. f_equal. lia.
Qed.

Lemma reset_holds ctx : holds (fr_md5_local_ctx_reset ctx) [].
Proof. by repeat split. Qed.

Ltac ctx_simpl := cbv beta iota zeta; cbn [state buffer count0 count1].

Lemma update_absorbed ctx m l :
  absorbed ctx m -> absorbed (fr_md5_local_update ctx (Some l)) (m ++ l).
Proof.
  intros (Hb & Hc). unfold fr_md5_local_update, absorbed.
  rewrite Hc, bit_count_have, bit_count_add, length_app. unfold MD5_BLOCK_LENGTH.
  destruct (64 - length m mod 64 <=? length l)%nat eqn:Hn; simpl_bool.
  - destruct (length m mod 64 =? 0)%nat eqn:Hz; simpl_bool; cbn [negb].
    + rewrite block_loop_spec by done. split; [|done]. ctx_simpl. rewrite Hz.
      by apply buffered_direct.
    + pose proof (buffered_fill _ _ _ _ _ l Hb Hn) as Hf.
      rewrite block_loop_spec by done. split; [|done]. ctx_simpl.
      replace (m ++ l) with ((m ++ take (64 - length m mod 64) l) ++ drop (64 - length m mod 64) l)
        by (by rewrite <- app_assoc, take_drop).
      apply buffered_direct; [done|].
      rewrite length_app, length_take, <- Nat.Div0.add_mod_idemp_l.
      pose proof (mod64_lt (length m)).
      replace (length m mod 64 + _)%nat with 64%nat by lia. done.
  - split; [|done]. ctx_simpl. apply buffered_short; [done|]. lia.
Qed.

(** A message of fewer than 2^29 bytes has a bit count of one 32-bit word. *)
Definition md5_max : Z := 536870912.

Lemma bit_count_high n : Z.of_nat n < md5_max -> u32 (Z.shiftr (8 * Z.of_nat n) 32) = 0.
Proof.
  unfold md5_max. intros. rewrite Z.shiftr_div_pow2, Z.div_small by lia. done.
Qed.

Lemma update_count1 ctx l :
  count1 (fr_md5_local_update ctx (Some l)) =
  (if count0 ctx +32 shl32 (u32 (Z.of_nat (length l))) 3 <? u32 (Z.of_nat (length l))
   then count1 ctx +32 1 else count1 ctx) +32 Z.shiftr (u32 (Z.of_nat (length l))) 29.
Proof. unfold fr_md5_local_update. by repeat case_match. Qed.

Lemma update_holds ctx m l :
  holds ctx m -> Z.of_nat (length m + length l) < md5_max ->
  holds (fr_md5_local_update ctx (Some l)) (m ++ l).
Proof.
  intros (Ha & Hc1) Hlen. split; [by apply update_absorbed|].
  destruct Ha as (Hb & Hc0). rewrite length_app, bit_count_high by lia.
  rewrite bit_count_high in Hc1 by lia. unfold md5_max in Hlen.
  rewrite update_count1, Hc0, Hc1, bit_count_add, !u32_id by (unfold is_u32; lia).
  destruct (Z.ltb_spec (8 * Z.of_nat (length m + length l)) (Z.of_nat (length l))); [lia|].
  by rewrite Z.shiftr_div_pow2, Z.div_small by lia.
Qed.

Lemma final_padding n :
  let padlen := (64 - n mod 64)%nat in
  let padlen := if (padlen <? 1 + 8)%nat then (padlen + 64)%nat else padlen in
  take (padlen - 8) PADDING = 128 :: replicate ((119 - n mod 64) mod 64) 0.
Proof.
  cbv zeta. pose proof (mod64_lt n) as Hm. generalize dependent (n mod 64)%nat. intros h Hh.
  do 64 (destruct h as [|h]; [reflexivity|]). lia.
Qed.

Lemma final_digest ctx m : holds ctx m -> fst (fr_md5_local_final ctx) = md5 m.
Proof.
  intros (Ha & Hc1). unfold fr_md5_local_final, MD5_BLOCK_LENGTH.
  pose proof Ha as (_ & Hc0). rewrite Hc0, Hc1, bit_count_have, final_padding.
  pose proof (update_absorbed _ _ (PUT_64BIT_LE (u32 (8 * Z.of_nat (length m)))
    (u32 (Z.shiftr (8 * Z.of_nat (length m)) 32)))
    (update_absorbed _ _ (128 :: replicate ((119 - length m mod 64) mod 64) 0) Ha)) as Hf.
  destruct Hf as ((Hst & _) & _). rewrite Hst, <- app_assoc.
  destruct (absorb_transform_rfc (m ++ md5_pad (length m)) md5_init_state md5_init_ok) as [He _].
  unfold md5, md5_pad in *. cbn [app] in *. rewrite He.
  by destruct (absorb rfc_compress _ _) as [[[a b] c] d].
Qed.

(** ** The digest of a whole buffer, and the instance of the digest interface *)

(** A context as [fr_md5_local_ctx_alloc] returns it: allocated, then reset. *)
Definition fr_md5_local_ctx_alloc : fr_md5_ctx_local_t :=
  fr_md5_local_ctx_reset (MkCtx (0, 0, 0, 0) 0 0 []).

#[export] Instance md5_ops : DigestOps fr_md5_ctx_local_t := {
  ctx_alloc := fr_md5_local_ctx_alloc;
  ctx_reset := fr_md5_local_ctx_reset;
  ctx_update c l := fr_md5_local_update c (Some l);
  ctx_final := fr_md5_local_final;
}.

Lemma PUT_32BIT_LE_bytes v : is_bytes (PUT_32BIT_LE v).
Proof. unfold PUT_32BIT_LE. repeat constructor; apply u8_range. Qed.

Lemma md5_length m : length (md5 m) = MD5_DIGEST_LENGTH.
Proof. unfold md5. by destruct (absorb _ _ _) as [[[a b] c] d]. Qed.

Lemma md5_bytes m : is_bytes (md5 m).
Proof.
  unfold md5. destruct (absorb _ _ _) as [[[a b] c] d]. unfold md5_output.
  rewrite !is_bytes_app. auto using PUT_32BIT_LE_bytes.
Qed.

#[export] Program Instance md5_laws : DigestLaws fr_md5_ctx_local_t := {
  digest := md5;
  digest_len := MD5_DIGEST_LENGTH;
  digest_max := md5_max;
  ctx_holds := holds;
}.
Next Obligation. apply reset_holds. Qed.
Next Obligation. intros. apply reset_holds. Qed.
Next Obligation. intros. by apply update_holds. Qed.
Next Obligation. intros. by apply final_digest. Qed.
Next Obligation. apply md5_length. Qed.
Next Obligation. apply md5_bytes. Qed.

(** [fr_md5_calc]: the digest of one buffer. *)
Definition fr_md5_calc {Ctx} `{DigestOps Ctx} (in_ : bytes) : bytes :=
  let ctx := ctx_alloc in
  let ctx := ctx_update ctx in_ in
  fst (ctx_final ctx).

(** ** Properties *)



(** RFC 1321 A.5 test vectors: "", "a", "message digest". *)
Example md5_vector_empty :
  fr_md5_calc (Ctx := fr_md5_ctx_local_t) [] =
  [0xd4; 0x1d; 0x8c; 0xd9; 0x8f; 0x00; 0xb2; 0x04; 0xe9; 0x80; 0x09; 0x98; 0xec; 0xf8; 0x42; 0x7e].
Proof. vm_compute. reflexivity. Qed.

Example md5_vector_a :
  fr_md5_calc (Ctx := fr_md5_ctx_local_t) [97] =
  [0x0c; 0xc1; 0x75; 0xb9; 0xc0; 0xf1; 0xb6; 0xa8; 0x31; 0xc3; 0x99; 0xe2; 0x69; 0x77; 0x26; 0x61].
Proof. vm_compute. reflexivity. Qed.

Example md5_vector_message_digest :
  fr_md5_calc (Ctx := fr_md5_ctx_local_t) [109; 101; 115; 115; 97; 103; 101; 32; 100; 105; 103; 101; 115; 116] =
  [0xf9; 0x6b; 0x69; 0x7d; 0x7c; 0xb7; 0x93; 0x8d; 0x52; 0x5a; 0x2f; 0x31; 0xaa; 0xf1; 0x61; 0xd0].
Proof. vm_compute. reflexivity. Qed.

(** the bit counter loses its carry.  The commented-out statement above the
    update of the count says the counter is the 64-bit sum of the bits ingested.
    In a context whose low word is about to wrap (2^29 - 1 bytes ingested), an
    update of 2 <= k < 2^29 - 1 bytes wraps the low word to 8 * (k - 1), which is not
    smaller than k, so the carry into the high word is not taken and the
    counter is 2^32 bits short. *)
Theorem md5_count_carry_lost (ctx : fr_md5_ctx_local_t) (l : bytes) :
  count0 ctx = UINT_MAX - 7 -> count1 ctx = 0 ->
  2 <= Z.of_nat (length l) < 536870912 ->
  let ctx' := fr_md5_local_update ctx (Some l) in
  count1 ctx' * 2 ^ 32 + count0 ctx' =
  (count1 ctx * 2 ^ 32 + count0 ctx + 8 * Z.of_nat (length l)) - 2 ^ 32.
Proof.
  intros H0 H1 Hl ctx'. unfold ctx'. rewrite update_count1.
  assert (count0 (fr_md5_local_update ctx (Some l)) =
          count0 ctx +32 shl32 (u32 (Z.of_nat (length l))) 3) as ->
    by (unfold fr_md5_local_update; by repeat case_match).
  rewrite H0, H1. unfold UINT_MAX, shl32.
  rewrite (u32_id (Z.of_nat (length l))), Z.shiftl_mul_pow2 by (unfold is_u32; lia).
  rewrite (u32_id (_ * 2 ^ 3)) by (unfold is_u32; lia).
  assert (4294967295 - 7 +32 Z.of_nat (length l) * 2 ^ 3 = 8 * (Z.of_nat (length l) - 1)) as ->.
  { unfold add32, u32. symmetry. apply (Z.mod_unique _ _ 1); lia. }
  destruct (Z.ltb_spec (8 * (Z.of_nat (length l) - 1)) (Z.of_nat (length l))); [lia|].
  rewrite Z.shiftr_div_pow2, Z.div_small by lia. change (0 +32 0) with 0. lia.
Qed.

Lemma md5_count_carry_lost_witness :
  let ctx := MkCtx md5_init_state 4294967288 0 (replicate 64 0) in
  let ctx' := fr_md5_local_update ctx (Some [1; 2; 3]) in
  count1 ctx' * 2 ^ 32 + count0 ctx' = (0 * 2 ^ 32 + 4294967288 + 8 * 3) - 2 ^ 32.
Proof.
  apply (md5_count_carry_lost (MkCtx md5_init_state 4294967288 0 (replicate 64 0)) [1; 2; 3]);
    [reflexivity|reflexivity|simpl; lia].
Defined.
End Md5.
