(* ===== verification/Hmac.v ===== *)
(** The keyed users of the digest interface in src/lib/util: HMAC-MD5
    (hmac_md5.c, the branch built without the system crypto library) and the
    CHAP response (chap.c).  They are modelled and proved over any digest that
    implements the function-pointer table of BlockHash. *)

From S2P Require Import Prelude BlockHash Md5.

Section Keyed.
Context {Ctx : Type} `{Hops : DigestOps Ctx}.

(** [for (i = 0; i < n; i++) pad[i] ^= v] *)
Definition xor_prefix (n : nat) (v : Z) (pad : bytes) : bytes :=
  map (fun x => x ^z v) (take n pad) ++ drop n pad.

Definition fr_hmac_md5 (in_ key : bytes) : bytes :=
  let ctx := ctx_alloc in
  (* if key is longer than 64 bytes reset it to key=MD5(key) *)
  let '(key, ctx) :=
    if (64 <? length key)%nat then
      let ctx := ctx_update ctx key in
      let '(tk, ctx) := ctx_final ctx in
      let ctx := ctx_reset ctx in
      (take 16 tk, ctx)
    else (key, ctx) in
  (* start out by storing key in pads *)
  let k_ipad := splice (replicate 65 0) 0 key in
  let k_opad := splice (replicate 65 0) 0 key in
  (* XOR key with ipad and opad values *)
  let k_ipad := xor_prefix 64 0x36 k_ipad in
  let k_opad := xor_prefix 64 0x5c k_opad in
  (* perform inner MD5 *)
  let ctx := ctx_update ctx (take 64 k_ipad) in
  let ctx := ctx_update ctx in_ in
  let '(digest, ctx) := ctx_final ctx in
  (* perform outer MD5 *)
  let ctx := ctx_reset ctx in
  let ctx := ctx_update ctx (take 64 k_opad) in
  let ctx := ctx_update ctx (take 16 digest) in
  let '(digest, ctx) := ctx_final ctx in
  digest.

(** [out] is the 17-byte response: the identifier and the digest. *)
Definition fr_chap_encode (id : Z) (challenge password : bytes) : bytes :=
  let md5_ctx := ctx_alloc in
  let md5_ctx := ctx_update md5_ctx [id] in
  let md5_ctx := ctx_update md5_ctx password in
  let md5_ctx := ctx_update md5_ctx challenge in
  id :: fst (ctx_final md5_ctx).

Context `{Hlaws : !DigestLaws Ctx}.

(** RFC 2104 over the hash [H] with 64-byte blocks. *)
Definition hmac (H : bytes -> bytes) (key msg : bytes) : bytes :=
  let k := if (64 <? length key)%nat then H key else key in
  let k := k ++ replicate (64 - length k) 0 in
  H (map (fun x => x ^z 0x5c) k ++ H (map (fun x => x ^z 0x36) k ++ msg)).

Lemma pad_key v key :
  (length key <= 64)%nat ->
  take 64 (xor_prefix 64 v (splice (replicate 65 0) 0 key)) =
  map (fun x => x ^z v) (key ++ replicate (64 - length key) 0).
Proof.
  intros Hk. unfold xor_prefix.
  assert (take 64 (splice (replicate 65 0) 0 key) = key ++ replicate (64 - length key) 0) as ->.
  { unfold splice. rewrite take_0, app_nil_l, Nat.add_0_l, drop_replicate.
    rewrite take_app_ge by lia. rewrite take_replicate. do 2 f_equal. lia. }
  rewrite take_app_length'; [done|].
  rewrite length_map, length_app, length_replicate. lia.
Qed.

Lemma two_updates_digest c l k :
  ctx_holds c [] -> Z.of_nat (length l + length k) < digest_max ->
  fst (ctx_final (ctx_update (ctx_update c l) k)) = digest (l ++ k).
Proof.
  intros Hc Hl. pose proof (ctx_chunks_digest c [l; k] Hc) as Hd.
  simpl in Hd. rewrite app_nil_r, length_app in Hd. by apply Hd.
Qed.

Lemma one_update_digest c l :
  ctx_holds c [] -> Z.of_nat (length l) < digest_max ->
  fst (ctx_final (ctx_update c l)) = digest l.
Proof.
  intros Hc Hl. apply ctx_final_digest; [|done].
  by apply (ctx_update_holds c [] l).
Qed.

(** The two passes over a key of at most 64 bytes. *)
Lemma hmac_passes c k msg :
  digest_len = 16%nat -> 80 < digest_max -> Z.of_nat (64 + length msg) < digest_max ->
  (length k <= 64)%nat -> ctx_holds c [] ->
  (let k_ipad := xor_prefix 64 0x36 (splice (replicate 65 0) 0 k) in
   let k_opad := xor_prefix 64 0x5c (splice (replicate 65 0) 0 k) in
   let '(d, c) := ctx_final (ctx_update (ctx_update c (take 64 k_ipad)) msg) in
   let '(d, c) := ctx_final (ctx_update (ctx_update (ctx_reset c) (take 64 k_opad)) (take 16 d)) in d)
  = let k := k ++ replicate (64 - length k) 0 in
    digest (map (fun x => x ^z 0x5c) k ++ digest (map (fun x => x ^z 0x36) k ++ msg)).
Proof.
  intros H16 Hmax Hm Hlen Hc. cbv zeta. rewrite !pad_key by done.
  assert (Hpad : forall v, length (map (fun x => x ^z v) (k ++ replicate (64 - length k) 0)) = 64%nat).
  { intros v. rewrite length_map, length_app, length_replicate. lia. }
  pose proof (two_updates_digest c (map (fun x => x ^z 0x36) (k ++ replicate (64 - length k) 0)) msg) as Hd.
  destruct (ctx_final _) as [d c'] eqn:Ed. cbn [fst] in Hd. rewrite Hd by (rewrite ?Hpad; done).
  rewrite take_ge by (rewrite digest_length; lia).
  pose proof (two_updates_digest (ctx_reset c')
    (map (fun x => x ^z 0x5c) (k ++ replicate (64 - length k) 0))
    (digest (map (fun x => x ^z 0x36) (k ++ replicate (64 - length k) 0) ++ msg))) as Hd2.
  destruct (ctx_final _) as [d2 c2] eqn:Ed2. cbn [fst] in Hd2. apply Hd2.
  - apply ctx_reset_holds.
  - rewrite Hpad, digest_length, H16. done.
Qed.

Lemma fr_hmac_md5_hmac key msg :
  digest_len = 16%nat ->
  80 < digest_max -> Z.of_nat (length key) < digest_max ->
  Z.of_nat (64 + length msg) < digest_max ->
  fr_hmac_md5 msg key = hmac digest key msg.
Proof.
  intros H16 Hmax Hk Hm. unfold fr_hmac_md5, hmac.
  destruct (64 <? length key)%nat eqn:E; simpl_bool.
  - pose proof (one_update_digest ctx_alloc key ctx_alloc_holds Hk) as Hd.
    destruct (ctx_final (ctx_update ctx_alloc key)) as [tk c] eqn:Ef. cbn [fst] in Hd. subst tk.
    rewrite (take_ge (digest key)) by (rewrite digest_length; lia).
    apply hmac_passes; try done; try apply ctx_reset_holds. rewrite digest_length; lia.
  - apply hmac_passes; try done; try apply ctx_alloc_holds.
Qed.

(** C37: over any 16-byte digest, fr_hmac_md5 returns the RFC 2104
    HMAC of the message under the key, long keys hashed first included; the
    context is reused between the passes without leaking state. *)
Theorem fr_hmac_md5_rfc2104 key msg :
  digest_len = 16%nat ->
  80 < digest_max -> Z.of_nat (length key) < digest_max ->
  Z.of_nat (64 + length msg) < digest_max ->
  fr_hmac_md5 msg key = hmac digest key msg.
Proof. exact (fr_hmac_md5_hmac key msg). Qed.

(** the CHAP response is the identifier followed by the digest of the
    identifier, the password and the challenge (RFC 1994). *)
Theorem fr_chap_encode_rfc1994 id challenge password :
  Z.of_nat (1 + length password + length challenge) < digest_max ->
  fr_chap_encode id challenge password = id :: digest (id :: password ++ challenge).
Proof.
  intros Hl. unfold fr_chap_encode. f_equal.
  pose proof (ctx_chunks_digest ctx_alloc [[id]; password; challenge] ctx_alloc_holds) as Hd.
  cbn [ctx_updates fold_left concat] in Hd. rewrite app_nil_r in Hd. apply Hd.
  cbn [app length]. rewrite length_app. lia.
Qed.
End Keyed.

(** RFC 2104, second test case: key "Jefe". *)
Lemma fr_hmac_md5_rfc2104_witness :
  fr_hmac_md5 (Hops := Md5.md5_ops) [0x77;0x68;0x61;0x74;0x20;0x64;0x6f;0x20;0x79;0x61;0x20;0x77;0x61;0x6e;0x74;0x20;0x66;0x6f;0x72;0x20;0x6e;0x6f;0x74;0x68;0x69;0x6e;0x67;0x3f] [0x4a;0x65;0x66;0x65]
  = [0x75;0x0c;0x78;0x3e;0x6a;0xb0;0xb5;0x03;0xea;0xa8;0x6e;0x31;0x0a;0x5d;0xb7;0x38].
Proof.
  rewrite (fr_hmac_md5_rfc2104 (Hlaws := Md5.md5_laws)) by done.
  vm_compute. reflexivity.
Defined.

Lemma fr_chap_encode_rfc1994_witness :
  fr_chap_encode (Hops := Md5.md5_ops) 7 [1;2;3] [0x61]
  = 7 :: Md5.md5 [7;0x61;1;2;3].
Proof.
  rewrite (fr_chap_encode_rfc1994 (Hlaws := Md5.md5_laws)) by done.
  reflexivity.
Defined.
