(* ===== verification/Sha1.v ===== *)
(** The local SHA-1 implementation of src/lib/util/sha1.c and the HMAC built on it
    in src/lib/util/hmac_sha1.c (the branches compiled without the system's crypto
    library). SHA-1 is a second instance of the digest interface. *)

From S2P Require Import Prelude BlockHash Md5 Hmac.

Module Sha1.

Definition SHA1_DIGEST_LENGTH : nat := 20.

(** [uint32_t state[5]], and the working variables *)
Definition sha1_state : Type := (Z * Z * Z * Z * Z)%type.

Record fr_sha1_ctx := MkCtx {
  state : sha1_state;
  count0 : Z;
  count1 : Z;
  buffer : bytes;
}.

Definition rol (value bits : Z) : Z := rol32 value bits.

(** [htonl(block->l[i])]: the [i]-th big-endian word of the block. *)
Definition be_word (block : bytes) (i : nat) : Z :=
  let k := (i * 4)%nat in
  shl32 (get block k) 24 |z shl32 (get block (k + 1)) 16 |z shl32 (get block (k + 2)) 8 |z get block (k + 3).

(** The 16 words of the workspace: [blk0] stores the word it converts, [blk]
    expands in place. Both give the word and the new workspace. *)
Definition blk0 (block : bytes) (w : list Z) (i : nat) : Z * list Z :=
  let x := be_word block i in (x, <[i := x]> w).
Definition blk (w : list Z) (i : nat) : Z * list Z :=
  let x := rol (get w ((i + 13) mod 16) ^z get w ((i + 8) mod 16) ^z get w ((i + 2) mod 16) ^z get w (i mod 16)) 1 in
  (x, <[(i mod 16)%nat := x]> w).

(** One operation: [z += f(w,x,y) + word + k + rol(v,5); w = rol(w,30)], with the
    word from [blk0] in the first sixteen and from [blk] after. The result keeps
    the places of the five variables. *)
Definition R0 (block : bytes) (v w x y z : Z) (ws : list Z) (i : nat) : Z * Z * list Z :=
  let '(b, ws) := blk0 block ws i in
  (rol w 30, z +32 (((w &z (x ^z y)) ^z y) +32 b +32 0x5A827999 +32 rol v 5), ws).
Definition R1 (v w x y z : Z) (ws : list Z) (i : nat) : Z * Z * list Z :=
  let '(b, ws) := blk ws i in
  (rol w 30, z +32 (((w &z (x ^z y)) ^z y) +32 b +32 0x5A827999 +32 rol v 5), ws).
Definition R2 (v w x y z : Z) (ws : list Z) (i : nat) : Z * Z * list Z :=
  let '(b, ws) := blk ws i in
  (rol w 30, z +32 ((w ^z x ^z y) +32 b +32 0x6ED9EBA1 +32 rol v 5), ws).
Definition R3 (v w x y z : Z) (ws : list Z) (i : nat) : Z * Z * list Z :=
  let '(b, ws) := blk ws i in
  (rol w 30, z +32 ((((w |z x) &z y) |z (w &z x)) +32 b +32 0x8F1BBCDC +32 rol v 5), ws).
Definition R4 (v w x y z : Z) (ws : list Z) (i : nat) : Z * Z * list Z :=
  let '(b, ws) := blk ws i in
  (rol w 30, z +32 ((w ^z x ^z y) +32 b +32 0xCA62C1D6 +32 rol v 5), ws).

(** The operation for index [i]. *)
Definition R (block : bytes) (i : nat) : Z -> Z -> Z -> Z -> Z -> list Z -> Z * Z * list Z :=
  fun v w x y z ws =>
    if (i <? 16)%nat then R0 block v w x y z ws i
    else if (i <? 20)%nat then R1 v w x y z ws i
    else if (i <? 40)%nat then R2 v w x y z ws i
    else if (i <? 60)%nat then R3 v w x y z ws i
    else R4 v w x y z ws i.

(** The unrolled sequence repeats every five operations, with the roles of the
    variables rotated: (a,b,c,d,e), (e,a,b,c,d), (d,e,a,b,c), (c,d,e,a,b),
    (b,c,d,e,a). *)
Definition five (block : bytes) (s : sha1_state * list Z) (n : nat) : sha1_state * list Z :=
  let '((a, b, c, d, e), ws) := s in
  let '(b, e, ws) := R block (5 * n) a b c d e ws in
  let '(a, d, ws) := R block (5 * n + 1) e a b c d ws in
  let '(e, c, ws) := R block (5 * n + 2) d e a b c ws in
  let '(d, b, ws) := R block (5 * n + 3) c d e a b ws in
  let '(c, a, ws) := R block (5 * n + 4) b c d e a ws in
  ((a, b, c, d, e), ws).

Definition sha1_feed (st w : sha1_state) : sha1_state :=
  let '(s0, s1, s2, s3, s4) := st in
  let '(a, b, c, d, e) := w in
  (s0 +32 a, s1 +32 b, s2 +32 c, s3 +32 d, s4 +32 e).

Definition fr_sha1_transform (st : sha1_state) (block : bytes) : sha1_state :=
  sha1_feed st (fst (fold_left (five block) (seq 0 16) (st, replicate 16 0))).

Definition sha1_init_state : sha1_state := (0x67452301, 0xEFCDAB89, 0x98BADCFE, 0x10325476, 0xC3D2E1F0).

(** The buffer keeps what it held. *)
Definition fr_sha1_init (ctx : fr_sha1_ctx) : fr_sha1_ctx := MkCtx sha1_init_state 0 0 (buffer ctx).

(** The loop [for ( ; i + 63 < len; i += 64)], with at most [fuel] iterations:
    the state and the index after it. *)
Fixpoint transform_loop (fuel : nat) (st : sha1_state) (in_ : bytes) (i : nat) : sha1_state * nat :=
  match fuel with
  | O => (st, i)
  | S fuel =>
      if (i + 63 <? length in_)%nat then transform_loop fuel (fr_sha1_transform st (take 64 (drop i in_))) in_ (i + 64)
      else (st, i)
  end.

(** [len] is the size_t length of the input; the test for a carry is at 64 bits
    on the right and at 32 on the left. *)
Definition fr_sha1_update (ctx : fr_sha1_ctx) (in_ : bytes) : fr_sha1_ctx :=
  let len := Z.of_nat (length in_) in
  if (length in_ =? 0)%nat then ctx
  else
    let j := Z.to_nat (Z.shiftr (count0 ctx) 3 &z 63) in
    let c0 := u32 (count0 ctx + Z.shiftl len 3) in
    let c1 := if c0 <? u64 (Z.shiftl len 3) then u32 (count1 ctx + 1) else count1 ctx in
    let c1 := u32 (c1 + Z.shiftr len 29) in
    if (63 <? j + length in_)%nat then
      let i := (64 - j)%nat in
      let buf := splice (buffer ctx) j (take i in_) in
      let st := fr_sha1_transform (state ctx) buf in
      let '(st, i) := transform_loop (length in_) st in_ i in
      MkCtx st c0 c1 (splice buf 0 (drop i in_))
    else MkCtx (state ctx) c0 c1 (splice (buffer ctx) j in_).

(** [fr_sha1_final]: [finalcount], the padding loop and the output. *)
Definition finalcount (ctx : fr_sha1_ctx) : bytes :=
  map (fun i => u8 (Z.shiftr (if (4 <=? i) then count0 ctx else count1 ctx) ((3 - i mod 4) * 8))) (seqZ 0 8).

(** [while ((context->count[0] & 504) != 448)], [None] when the fuel runs out. *)
Fixpoint pad_loop (fuel : nat) (ctx : fr_sha1_ctx) : option fr_sha1_ctx :=
  if count0 ctx &z 504 =? 448 then Some ctx
  else
    match fuel with
    | O => None
    | S fuel => pad_loop fuel (fr_sha1_update ctx [0])
    end.

Definition sha1_output (st : sha1_state) : bytes :=
  let '(s0, s1, s2, s3, s4) := st in
  concat (map (fun x => [u8 (Z.shiftr x 24); u8 (Z.shiftr x 16); u8 (Z.shiftr x 8); u8 x]) [s0; s1; s2; s3; s4]).

Definition sha1_wiped : fr_sha1_ctx := MkCtx (0, 0, 0, 0, 0) 0 0 (replicate 64 0).

(** 64 iterations are enough for the padding. *)
Definition fr_sha1_final (ctx : fr_sha1_ctx) : option (bytes * fr_sha1_ctx) :=
  let fc := finalcount ctx in
  match pad_loop 64 (fr_sha1_update ctx [128]) with
  | None => None
  | Some ctx => Some (sha1_output (state (fr_sha1_update ctx fc)), sha1_wiped)
  end.

Definition fr_sha1_final_no_len (ctx : fr_sha1_ctx) : bytes * fr_sha1_ctx := (sha1_output (state ctx), sha1_wiped).

(** ** Reference digest (FIPS 180-4) *)

Definition fips_Ch (x y z : Z) : Z := (x &z y) ^z (not32 x &z z).
Definition fips_Parity (x y z : Z) : Z := x ^z y ^z z.
Definition fips_Maj (x y z : Z) : Z := (x &z y) ^z (x &z z) ^z (y &z z).

Definition fips_f (t : nat) : Z -> Z -> Z -> Z :=
  if (t <? 20)%nat then fips_Ch else if (t <? 40)%nat then fips_Parity else if (t <? 60)%nat then fips_Maj else fips_Parity.
Definition fips_K (t : nat) : Z :=
  if (t <? 20)%nat then 0x5a827999 else if (t <? 40)%nat then 0x6ed9eba1 else if (t <? 60)%nat then 0x8f1bbcdc else 0xca62c1d6.

(** The message schedule: the block's words, then each word from four earlier ones. *)
Definition sched_step (block : bytes) (w : list Z) (t : nat) : list Z :=
  w ++ [if (t <? 16)%nat then be_word block t
        else rol32 (get w (t - 3) ^z get w (t - 8) ^z get w (t - 14) ^z get w (t - 16)) 1].
Definition schedule (block : bytes) (n : nat) : list Z := fold_left (sched_step block) (seq 0 n) [].

Definition fips_step (block : bytes) (s : sha1_state) (t : nat) : sha1_state :=
  let '(a, b, c, d, e) := s in
  (rol32 a 5 +32 fips_f t b c d +32 e +32 fips_K t +32 get (schedule block 80) t, a, rol32 b 30, c, d).

Definition fips_compress (st : sha1_state) (block : bytes) : sha1_state :=
  sha1_feed st (fold_left (fips_step block) (seq 0 80) st).

Definition sha1_pad (n : nat) : bytes :=
  128 :: replicate ((119 - n mod 64) mod 64) 0 ++
  map (fun i => u8 (Z.shiftr (8 * Z.of_nat n) ((7 - i) * 8))) (seqZ 0 8).

Definition sha1 (msg : bytes) : bytes :=
  sha1_output (absorb fips_compress sha1_init_state (msg ++ sha1_pad (length msg))).

(** ** The optimised compression function is the standard's *)

Ltac word_bits :=
  apply Z.bits_inj_iff'; intros i Hi;
  repeat first [rewrite Z.lxor_spec | rewrite Z.land_spec | rewrite Z.lor_spec | rewrite Md5.testbit_not32 by assumption];
  destruct (Z.ltb_spec i 32); cbn [andb];
  [ repeat match goal with |- context [Z.testbit ?x i] => destruct (Z.testbit x i) end; reflexivity
  | rewrite !(testbit_above 32) by (unfold is_u32 in *; lia); reflexivity ].

Lemma choice_fips w x y : is_u32 w -> is_u32 x -> is_u32 y -> (w &z (x ^z y)) ^z y = fips_Ch w x y.
Proof. intros. unfold fips_Ch. word_bits. Qed.
Lemma majority_fips w x y : is_u32 w -> is_u32 x -> is_u32 y -> ((w |z x) &z y) |z (w &z x) = fips_Maj w x y.
Proof. intros. unfold fips_Maj. word_bits. Qed.

Lemma rol32_range x n : is_u32 x -> 0 <= n <= 32 -> is_u32 (rol32 x n).
Proof.
  intros Hx Hn. unfold rol32. apply (lor_range 32); [lia|apply u32_range|].
  unfold is_u32 in Hx. apply shiftr_range; [lia|lia|].
  assert (2 ^ 32 <= 2 ^ (32 + (32 - n))) by (apply Z.pow_le_mono_r; lia). lia.
Qed.

(** ** The circular workspace holds the last sixteen words of the schedule *)

Lemma length_schedule block n : length (schedule block n) = n.
Proof.
  unfold schedule. induction n as [|n IH]; [done|]. rewrite seq_S, fold_left_app. cbn.
  unfold sched_step at 1. rewrite length_app, IH. cbn. lia.
Qed.

Lemma schedule_S block n : schedule block (S n) = sched_step block (schedule block n) n.
Proof. unfold schedule. by rewrite seq_S, fold_left_app. Qed.

Lemma schedule_prefix block n t : (t < n)%nat -> get (schedule block n) t = get (schedule block (S t)) t.
Proof.
  intros Ht. induction n as [|n IH]; [lia|]. destruct (decide (t = n)) as [-> |]; [done|].
  rewrite schedule_S. unfold sched_step, get at 1. rewrite app_nth1 by (rewrite length_schedule; lia). apply IH. lia.
Qed.

(** The words of the standard. *)
Definition W (block : bytes) (t : nat) : Z := get (schedule block (S t)) t.

Lemma W_first block t : (t < 16)%nat -> W block t = be_word block t.
Proof.
  intros Ht. unfold W. rewrite schedule_S. unfold sched_step, get.
  rewrite app_nth2 by (rewrite length_schedule; lia). rewrite length_schedule, Nat.sub_diag. cbn [nth].
  destruct (Nat.ltb_spec t 16); [done|lia].
Qed.

Lemma W_next block t : (16 <= t)%nat ->
  W block t = rol32 (W block (t - 3) ^z W block (t - 8) ^z W block (t - 14) ^z W block (t - 16)) 1.
Proof.
  intros Ht. unfold W at 1. rewrite schedule_S. unfold sched_step. unfold get at 1.
  rewrite app_nth2 by (rewrite length_schedule; lia). rewrite length_schedule, Nat.sub_diag. cbn [nth].
  destruct (Nat.ltb_spec t 16); [lia|]. unfold W. rewrite !(schedule_prefix block t) by lia. done.
Qed.

Definition ws_ok (block : bytes) (i : nat) (ws : list Z) : Prop :=
  length ws = 16%nat /\ forall t, (t < i <= t + 16)%nat -> get ws (t mod 16) = W block t.

Lemma ws_store block i ws : ws_ok block i ws -> ws_ok block (S i) (<[(i mod 16)%nat := W block i]> ws).
Proof.
  intros [Hl Hw]. split; [by rewrite length_insert|]. intros t Ht. unfold get.
  pose proof (Nat.mod_upper_bound i 16 ltac:(lia)). destruct (decide (t = i)) as [-> |].
  - apply nth_lookup_Some. apply list_lookup_insert_eq. lia.
  - rewrite <- (Hw t) by lia. unfold get.
    assert (t mod 16 <> i mod 16)%nat.
    { pose proof (Nat.div_mod_eq t 16). pose proof (Nat.div_mod_eq i 16). nia. }
    rewrite !nth_lookup, list_lookup_insert_ne; done.
Qed.

Lemma blk_word block i ws : ws_ok block i ws -> (16 <= i)%nat -> blk ws i = (W block i, <[(i mod 16)%nat := W block i]> ws).
Proof.
  intros [Hl Hw] Hi. unfold blk, rol.
  assert (forall k, (k <= 16)%nat -> get ws ((i + (16 - k)) mod 16) = get ws ((i - k) mod 16)) as Hm.
  { intros k Hk. replace (i + (16 - k))%nat with (i - k + 1 * 16)%nat by lia. by rewrite Nat.Div0.mod_add. }
  pose proof (Hm 3%nat) as H3. pose proof (Hm 8%nat) as H8. pose proof (Hm 14%nat) as H14. pose proof (Hm 16%nat) as H16.
  cbn [Nat.sub] in H3, H8, H14, H16. rewrite Nat.add_0_r in H16. rewrite H3, H8, H14, H16 by lia.
  rewrite !Hw by lia. by rewrite <- W_next.
Qed.

Lemma add32_assoc5 z f b k r : z +32 (f +32 b +32 k +32 r) = r +32 f +32 z +32 k +32 b.
Proof.
  assert (forall x y, u32 (u32 x + y) = u32 (x + y)) as Hl by (intros; apply Zplus_mod_idemp_l).
  assert (forall x y, u32 (x + u32 y) = u32 (x + y)) as Hr by (intros; apply Zplus_mod_idemp_r).
  unfold add32. rewrite (Hl (f + b)), (Hl (f + b + k)), Hr, (Hl (r + f)), (Hl (r + f + z)), Hl. f_equal. lia.
Qed.

(** The new word of one operation. *)
Definition fips_new (block : bytes) (t : nat) (a b c d e : Z) : Z :=
  rol32 a 5 +32 fips_f t b c d +32 e +32 fips_K t +32 W block t.

Lemma R_fips block i v w x y z ws :
  ws_ok block i ws -> is_u32 w -> is_u32 x -> is_u32 y ->
  exists ws', R block i v w x y z ws = (rol32 w 30, fips_new block i v w x y z, ws') /\ ws_ok block (S i) ws'.
Proof.
  intros Hws Hw Hx Hy. exists (<[(i mod 16)%nat := W block i]> ws). split; [|by apply ws_store].
  unfold R, R0, R1, R2, R3, R4, fips_new, fips_f, fips_K, rol.
  destruct (Nat.ltb_spec i 16).
  { unfold blk0. rewrite <- W_first, Nat.mod_small by done. destruct (Nat.ltb_spec i 20); [|lia].
    by rewrite add32_assoc5, choice_fips. }
  rewrite (blk_word block) by done.
  destruct (Nat.ltb_spec i 20); [by rewrite add32_assoc5, choice_fips|].
  destruct (Nat.ltb_spec i 40); [by rewrite add32_assoc5|].
  destruct (Nat.ltb_spec i 60); [by rewrite add32_assoc5, majority_fips|by rewrite add32_assoc5].
Qed.

Definition state_ok (st : sha1_state) : Prop :=
  let '(a, b, c, d, e) := st in is_u32 a /\ is_u32 b /\ is_u32 c /\ is_u32 d /\ is_u32 e.

Lemma fips_new_range block t a b c d e : is_u32 (fips_new block t a b c d e).
Proof. apply u32_range. Qed.

Lemma fips_step_new block t a b c d e :
  (t < 80)%nat -> fips_step block (a, b, c, d, e) t = (fips_new block t a b c d e, a, rol32 b 30, c, d).
Proof. intros Ht. unfold fips_step, fips_new. by rewrite (schedule_prefix block 80 t Ht). Qed.

(** Five operations of the code are five steps of the standard. *)
Lemma five_fips block n st ws :
  ws_ok block (5 * n) ws -> state_ok st -> (5 * n + 5 <= 80)%nat ->
  exists ws', five block (st, ws) n = (fold_left (fips_step block) (seq (5 * n) 5) st, ws')
  /\ ws_ok block (5 * n + 5) ws' /\ state_ok (fold_left (fips_step block) (seq (5 * n) 5) st).
Proof.
  destruct st as [[[[a b] c] d] e]. intros Hws (Ha & Hb & Hc & Hd & He) Hn. unfold five.
  destruct (R_fips block (5 * n) a b c d e ws) as (w1 & -> & K1); auto.
  pose proof (rol32_range b 30 Hb ltac:(lia)). pose proof (fips_new_range block (5 * n) a b c d e).
  rewrite <- (Nat.add_1_r (5 * n)) in K1.
  destruct (R_fips block (5 * n + 1) (fips_new block (5 * n) a b c d e) a (rol32 b 30) c d w1) as (w2 & -> & K2); auto.
  pose proof (rol32_range a 30 Ha ltac:(lia)).
  set (e1 := fips_new block (5 * n) a b c d e) in *. set (d1 := fips_new block (5 * n + 1) _ _ _ _ _) in *.
  assert (is_u32 d1) by apply fips_new_range.
  replace (S (5 * n + 1)) with (5 * n + 2)%nat in K2 by lia.
  destruct (R_fips block (5 * n + 2) d1 e1 (rol32 a 30) (rol32 b 30) c w2) as (w3 & -> & K3); auto.
  pose proof (rol32_range e1 30 ltac:(done) ltac:(lia)).
  set (c1 := fips_new block (5 * n + 2) _ _ _ _ _) in *. assert (is_u32 c1) by apply fips_new_range.
  replace (S (5 * n + 2)) with (5 * n + 3)%nat in K3 by lia.
  destruct (R_fips block (5 * n + 3) c1 d1 (rol32 e1 30) (rol32 a 30) (rol32 b 30) w3) as (w4 & -> & K4); auto.
  pose proof (rol32_range d1 30 ltac:(done) ltac:(lia)).
  set (b1 := fips_new block (5 * n + 3) _ _ _ _ _) in *. assert (is_u32 b1) by apply fips_new_range.
  replace (S (5 * n + 3)) with (5 * n + 4)%nat in K4 by lia.
  destruct (R_fips block (5 * n + 4) b1 c1 (rol32 d1 30) (rol32 e1 30) (rol32 a 30) w4) as (w5 & -> & K5); auto.
  pose proof (rol32_range c1 30 ltac:(done) ltac:(lia)).
  set (a1 := fips_new block (5 * n + 4) _ _ _ _ _) in *. assert (is_u32 a1) by apply fips_new_range.
  replace (S (5 * n + 4)) with (5 * n + 5)%nat in K5 by lia.
  assert (fold_left (fips_step block) (seq (5 * n) 5) (a, b, c, d, e)
          = (a1, b1, rol32 c1 30, rol32 d1 30, rol32 e1 30)) as ->.
  { change (seq (5 * n) 5) with [5 * n; S (5 * n); S (S (5 * n)); S (S (S (5 * n))); S (S (S (S (5 * n))))]%nat.
    replace (S (S (S (S (5 * n))))) with (5 * n + 4)%nat by lia. replace (S (S (S (5 * n)))) with (5 * n + 3)%nat by lia.
    replace (S (S (5 * n))) with (5 * n + 2)%nat by lia. replace (S (5 * n)) with (5 * n + 1)%nat by lia.
    cbn [fold_left]. rewrite !fips_step_new by lia. subst a1 b1 c1 d1 e1. reflexivity. }
  exists w5. split; [done|]. split; [done|]. cbn. auto 10.
Qed.
Lemma fold_five block st n :
  state_ok st -> (5 * n <= 80)%nat ->
  exists ws, fold_left (five block) (seq 0 n) (st, replicate 16 0) = (fold_left (fips_step block) (seq 0 (5 * n)) st, ws)
  /\ ws_ok block (5 * n) ws /\ state_ok (fold_left (fips_step block) (seq 0 (5 * n)) st).
Proof.
  intros Hst. induction n as [|n IH]; intros Hn.
  - exists (replicate 16 0). split; [done|]. split; [|done]. split; [done|]. intros; lia.
  - destruct IH as (ws & E & Hws & Hok); [lia|]. rewrite seq_S, fold_left_app, E. cbn [fold_left Nat.add].
    destruct (five_fips block n _ ws Hws Hok) as (ws' & -> & Hws' & Hok'); [lia|].
    replace (5 * S n)%nat with (5 * n + 5)%nat by lia. rewrite seq_app, fold_left_app. exists ws'. done.
Qed.

Lemma feed_ok st w : state_ok (sha1_feed st w).
Proof. destruct st as [[[[? ?] ?] ?] ?], w as [[[[? ?] ?] ?] ?]. cbn. repeat (split; [apply u32_range|]). apply u32_range. Qed.

Lemma transform_fips st block : state_ok st -> fr_sha1_transform st block = fips_compress st block /\ state_ok (fips_compress st block).
Proof.
  intros Hst. unfold fr_sha1_transform, fips_compress. destruct (fold_five block st 16 Hst) as (ws & -> & _); [lia|].
  split; [done|apply feed_ok].
Qed.

Lemma sha1_init_ok : state_ok sha1_init_state.
Proof. cbn. unfold is_u32. lia. Qed.

Lemma absorb_transform l st : state_ok st -> absorb fr_sha1_transform st l = absorb fips_compress st l /\ state_ok (absorb fips_compress st l).
Proof.
  revert st. induction l as [l Hs|l Hl IH] using block_ind; intros st Hst.
  - by rewrite !absorb_short.
  - rewrite !(absorb_step _ _ l) by done. destruct (transform_fips st (take 64 l) Hst) as [-> Hok]. by apply IH.
Qed.

(** ** Ingesting a message *)

Definition absorbed (ctx : fr_sha1_ctx) (m : bytes) : Prop :=
  buffered fr_sha1_transform sha1_init_state (state ctx) (buffer ctx) m /\ count0 ctx = u32 (8 * Z.of_nat (length m)).

Definition holds (ctx : fr_sha1_ctx) (m : bytes) : Prop :=
  absorbed ctx m /\ count1 ctx = u32 (Z.shiftr (8 * Z.of_nat (length m)) 32).

Lemma transform_loop_spec fuel st in_ i :
  (length in_ - i <= 64 * fuel)%nat ->
  transform_loop fuel st in_ i = (absorb fr_sha1_transform st (drop i in_), i + 64 * ((length in_ - i) / 64))%nat.
Proof.
  revert st i. induction fuel as [|fuel IH]; intros st i Hf; cbn [transform_loop].
  - rewrite absorb_short by (rewrite length_drop; lia). f_equal. replace (length in_ - i)%nat with 0%nat by lia. cbn. lia.
  - case_if.
    + rewrite IH by lia. rewrite (absorb_step _ st (drop i in_)) by (rewrite length_drop; lia). rewrite drop_drop.
      f_equal. rewrite (div64_step (length in_ - i)) by lia. replace (length in_ - (i + 64))%nat with (length in_ - i - 64)%nat by lia. lia.
    + rewrite absorb_short by (rewrite length_drop; lia). f_equal. rewrite Nat.div_small by lia. lia.
Qed.

Ltac ctx_simpl := cbv beta iota zeta; cbn [state buffer count0 count1].

Lemma sha1_update_absorbed ctx m l : absorbed ctx m -> absorbed (fr_sha1_update ctx l) (m ++ l).
Proof.
  intros (Hb & Hc). unfold fr_sha1_update. case_if.
  { assert (l = []) as -> by (by apply length_zero_iff_nil). rewrite app_nil_r. split; done. }
  rewrite Hc, Md5.bit_count_have. cbn zeta.
  assert (u32 (u32 (8 * Z.of_nat (length m)) + Z.shiftl (Z.of_nat (length l)) 3) = u32 (8 * Z.of_nat (length (m ++ l)))) as Hcount.
  { unfold u32. rewrite Zplus_mod_idemp_l, Z.shiftl_mul_pow2, length_app by lia. f_equal. lia. }
  pose proof (mod64_lt (length m)). case_if.
  - rewrite transform_loop_spec by lia. ctx_simpl. split; ctx_simpl; [|done].
    pose proof (buffered_fill _ _ _ _ m l Hb ltac:(lia)) as Hf. cbn zeta in Hf.
    set (h := (length m mod 64)%nat) in *. set (buf := splice (buffer ctx) h (take (64 - h) l)) in *.
    replace (m ++ l) with ((m ++ take (64 - h) l) ++ drop (64 - h) l) by (by rewrite <- app_assoc, take_drop).
    replace (drop (64 - h + 64 * ((length l - (64 - h)) / 64)) l) with (tail (drop (64 - h) l))
      by (unfold tail; rewrite length_drop, drop_drop; done).
    apply buffered_direct; [done|]. rewrite length_app, length_take, <- Nat.Div0.add_mod_idemp_l. fold h.
    replace (h + _)%nat with 64%nat by lia. done.
  - split; ctx_simpl; [|done]. apply buffered_short; [done|]. lia.
Qed.

Lemma update_carry n k :
  0 <= n -> 0 <= k < 2 ^ 32 ->
  u32 ((if u32 (u32 n + k) <? k then u32 (u32 (Z.shiftr n 32) + 1) else u32 (Z.shiftr n 32)) + 0) = u32 (Z.shiftr (n + k) 32).
Proof.
  intros Hn Hk. rewrite !Z.shiftr_div_pow2, Z.add_0_r by lia. unfold u32. change 4294967296 with (2 ^ 32).
  rewrite Zplus_mod_idemp_l. pose proof (Z.div_mod n (2 ^ 32) ltac:(lia)) as E. pose proof (Z.mod_pos_bound n (2 ^ 32) ltac:(lia)).
  destruct (Z.lt_ge_cases (n mod 2 ^ 32 + k) (2 ^ 32)) as [Hlt|Hge].
  - assert ((n + k) / 2 ^ 32 = n / 2 ^ 32) as -> by (symmetry; apply (Z.div_unique _ _ _ (n mod 2 ^ 32 + k)); lia).
    assert ((n + k) mod 2 ^ 32 = n mod 2 ^ 32 + k) as -> by (symmetry; apply (Z.mod_unique _ _ (n / 2 ^ 32)); lia).
    destruct (Z.ltb_spec (n mod 2 ^ 32 + k) k); [lia|]. by rewrite Z.mod_mod by lia.
  - assert ((n + k) / 2 ^ 32 = n / 2 ^ 32 + 1) as -> by (symmetry; apply (Z.div_unique _ _ _ (n mod 2 ^ 32 + k - 2 ^ 32)); lia).
    assert ((n + k) mod 2 ^ 32 = n mod 2 ^ 32 + k - 2 ^ 32) as -> by (symmetry; apply (Z.mod_unique _ _ (n / 2 ^ 32 + 1)); lia).
    destruct (Z.ltb_spec (n mod 2 ^ 32 + k - 2 ^ 32) k); [|lia]. by rewrite Z.mod_mod, Zplus_mod_idemp_l by lia.
Qed.

(** A chunk of fewer than 2^29 bytes: the carry test is right. *)
Definition sha1_chunk_max : Z := 536870912.

Lemma sha1_update_holds ctx m l :
  holds ctx m -> Z.of_nat (length l) < sha1_chunk_max -> holds (fr_sha1_update ctx l) (m ++ l).
Proof.
  intros [Ha Hc1] Hl. split; [by apply sha1_update_absorbed|]. destruct Ha as [_ Hc0]. unfold sha1_chunk_max in Hl.
  unfold fr_sha1_update. case_if.
  { assert (l = []) as -> by (by apply length_zero_iff_nil). by rewrite app_nil_r. }
  cbn zeta. rewrite Hc0, Hc1, !Z.shiftl_mul_pow2, (Z.shiftr_div_pow2 (Z.of_nat (length l))), (Z.div_small (Z.of_nat (length l))) by lia.
  rewrite (u64_id (Z.of_nat (length l) * 2 ^ 3)) by (unfold is_u64; lia).
  rewrite length_app. replace (8 * Z.of_nat (length m + length l)) with (8 * Z.of_nat (length m) + Z.of_nat (length l) * 2 ^ 3) by lia.
  case_if; [destruct (transform_loop _ _ _ _)|]; ctx_simpl; apply update_carry; lia.
Qed.
(** ** Padding and output *)

Lemma init_holds ctx : length (buffer ctx) = 64%nat -> holds (fr_sha1_init ctx) [].
Proof. intros Hb. split; [|done]. split; [|done]. split; [done|]. split; [done|]. by rewrite take_0. Qed.

Lemma count_position n : u32 (8 * Z.of_nat n) &z 504 = 8 * Z.of_nat (n mod 64).
Proof.
  unfold u32. change 4294967296 with (8 * 536870912). rewrite Z.mul_mod_distr_l by lia.
  rewrite (Z.mul_comm 8 (_ mod _)). change 8 with (2 ^ 3) at 1. rewrite <- Z.shiftl_mul_pow2 by lia.
  change 504 with (Z.shiftl (Z.ones 6) 3). rewrite <- Z.shiftl_land, Z.land_ones, Z.shiftl_mul_pow2 by lia.
  change (2 ^ 6) with 64. change 536870912 with (64 * 8388608).
  rewrite Z.mod_mod_divide by (by exists 8388608). rewrite Nat2Z.inj_mod. lia.
Qed.

Lemma pad_loop_spec fuel ctx m :
  absorbed ctx m -> ((120 - length m mod 64) mod 64 <= fuel)%nat ->
  exists ctx', pad_loop fuel ctx = Some ctx' /\ absorbed ctx' (m ++ replicate ((120 - length m mod 64) mod 64) 0).
Proof.
  revert ctx m. induction fuel as [|fuel IH]; intros ctx m Ha Hf; pose proof (mod64_lt (length m));
    pose proof Ha as [_ Hc]; cbn [pad_loop]; rewrite Hc, count_position.
  - assert ((120 - length m mod 64) mod 64 = 0)%nat as E by lia. rewrite E. rewrite app_nil_r.
    assert (length m mod 64 = 56)%nat as ->.
    { pose proof (Nat.div_mod_eq (120 - length m mod 64) 64). lia. }
    exists ctx. done.
  - destruct (decide (length m mod 64 = 56)%nat) as [E|E].
    + rewrite E. exists ctx. split; [done|]. cbn. by rewrite app_nil_r.
    + destruct (Z.eqb_spec (8 * Z.of_nat (length m mod 64)) 448); [lia|].
      assert (length (m ++ [0%Z]) mod 64 = (length m mod 64 + 1) mod 64)%nat as El
        by (rewrite length_app; cbn [length]; by rewrite Nat.Div0.add_mod_idemp_l).
      assert ((120 - length m mod 64) mod 64 = S ((120 - length (m ++ [0%Z]) mod 64) mod 64))%nat as Ez.
      { rewrite El. generalize dependent (length m mod 64)%nat. intros h _ Hh He _. clear -Hh He.
        do 64 (destruct h as [|h]; [try reflexivity; done|]). lia. }
      destruct (IH (fr_sha1_update ctx [0]) (m ++ [0%Z])) as (ctx' & -> & H'); [by apply sha1_update_absorbed|lia|].
      exists ctx'. split; [done|]. rewrite Ez. cbn [replicate]. by rewrite <- app_assoc in H'.
Qed.

Lemma u8_shift_u32 x s : 0 <= s <= 24 -> u8 (Z.shiftr (u32 x) s) = u8 (Z.shiftr x s).
Proof.
  intros Hs. change (u8 (Z.shiftr (u32 x) s)) with (Z.shiftr (u32 x) s mod 2 ^ 8). change (u8 (Z.shiftr x s)) with (Z.shiftr x s mod 2 ^ 8).
  apply Z.bits_inj_iff'. intros i Hi. destruct (Z.lt_ge_cases i 8).
  - rewrite !Z.mod_pow2_bits_low, !Z.shiftr_spec, testbit_u32 by lia. destruct (Z.ltb_spec (i + s) 32); [done|lia].
  - by rewrite !Z.mod_pow2_bits_high by lia.
Qed.

Lemma finalcount_spec ctx m : holds ctx m ->
  finalcount ctx = map (fun i => u8 (Z.shiftr (8 * Z.of_nat (length m)) ((7 - i) * 8))) (seqZ 0 8).
Proof.
  intros [[_ Hc0] Hc1]. unfold finalcount. rewrite Hc0, Hc1. generalize (8 * Z.of_nat (length m)) as n. intros n.
  apply map_ext_in. intros i Hi. apply list_elem_of_In, elem_of_seqZ in Hi.
  pose proof (Z.mod_pos_bound i 4 ltac:(lia)). case_if.
  - rewrite u8_shift_u32 by lia. do 2 f_equal. Z.to_euclidean_division_equations. lia.
  - rewrite u8_shift_u32, Z.shiftr_shiftr by lia. do 2 f_equal. Z.to_euclidean_division_equations. lia.
Qed.

Lemma sha1_final_digest ctx m : holds ctx m -> fr_sha1_final ctx = Some (sha1 m, sha1_wiped).
Proof.
  intros Hh. pose proof Hh as [Ha _]. unfold fr_sha1_final. cbn zeta. rewrite (finalcount_spec ctx m Hh).
  pose proof (sha1_update_absorbed ctx m [128] Ha) as H1.
  assert ((120 - length (m ++ [128%Z]) mod 64) mod 64 = (119 - length m mod 64) mod 64)%nat as Ez.
  { rewrite length_app. cbn [length]. rewrite <- Nat.Div0.add_mod_idemp_l. pose proof (mod64_lt (length m)) as Hm.
    generalize dependent (length m mod 64)%nat. intros h Hh'. do 64 (destruct h as [|h]; [reflexivity|]). lia. }
  destruct (pad_loop_spec 64 _ _ H1) as (ctx' & -> & H2).
  { rewrite Ez. pose proof (Nat.mod_upper_bound (119 - length m mod 64) 64). lia. }
  rewrite Ez in H2. f_equal. f_equal.
  set (fc := map _ (seqZ 0 8)). destruct (sha1_update_absorbed ctx' _ fc H2) as ((-> & _) & _).
  unfold sha1, sha1_pad. fold fc. rewrite <- !app_assoc. cbn [app].
  destruct (absorb_transform (m ++ 128 :: replicate ((119 - length m mod 64) mod 64) 0 ++ fc) sha1_init_state sha1_init_ok) as [-> _]. done.
Qed.
Lemma sha1_vector_abc :
  option_map fst (fr_sha1_final (fr_sha1_update (fr_sha1_init sha1_wiped) [97; 98; 99]))
  = Some [0xa9; 0x99; 0x3e; 0x36; 0x47; 0x06; 0x81; 0x6a; 0xba; 0x3e; 0x25; 0x71; 0x78; 0x50; 0xc2; 0x6c; 0x9c; 0xd0; 0xd8; 0x9d].
Proof. vm_compute. reflexivity. Qed.

Lemma sha1_reference_abc : Some (sha1 [97; 98; 99]) = option_map fst (fr_sha1_final (fr_sha1_update (fr_sha1_init sha1_wiped) [97; 98; 99])).
Proof. vm_compute. reflexivity. Qed.

(** ** HMAC *)

(** The two contexts are on the stack and hold anything before their use. The
    return code is always 0; [None] would be a padding loop that does not end. *)
Definition fr_hmac_sha1 (ctx tctx : fr_sha1_ctx) (in_ key : bytes) : option bytes :=
  match
    (if (64 <? length key)%nat then
       let tctx := fr_sha1_init tctx in
       let tctx := fr_sha1_update tctx key in
       match fr_sha1_final tctx with None => None | Some (tk, _) => Some (take 20 tk) end
     else Some key)
  with
  | None => None
  | Some key =>
      let k_ipad := splice (replicate 65 0) 0 key in
      let k_opad := splice (replicate 65 0) 0 key in
      let k_ipad := xor_prefix 64 0x36 k_ipad in
      let k_opad := xor_prefix 64 0x5c k_opad in
      let ctx := fr_sha1_init ctx in
      let ctx := fr_sha1_update ctx (take 64 k_ipad) in
      let ctx := fr_sha1_update ctx in_ in
      match fr_sha1_final ctx with
      | None => None
      | Some (digest, ctx) =>
          let ctx := fr_sha1_init ctx in
          let ctx := fr_sha1_update ctx (take 64 k_opad) in
          let ctx := fr_sha1_update ctx (take 20 digest) in
          match fr_sha1_final ctx with None => None | Some (digest, _) => Some digest end
      end
  end.

Lemma sha1_output_length st : length (sha1_output st) = 20%nat.
Proof. by destruct st as [[[[a b] c] d] e]. Qed.

Lemma sha1_length m : length (sha1 m) = 20%nat.
Proof. apply sha1_output_length. Qed.

Lemma chunks_hold ctx m chunks :
  holds ctx m -> Forall (fun l => Z.of_nat (length l) < sha1_chunk_max) chunks ->
  holds (fold_left fr_sha1_update chunks ctx) (m ++ concat chunks).
Proof.
  intros Hh Hc. revert ctx m Hh. induction Hc as [|l chunks Hl Hc IH]; intros ctx m Hh; cbn.
  - by rewrite app_nil_r.
  - rewrite app_assoc. apply IH. by apply sha1_update_holds.
Qed.

Lemma chunks_final ctx chunks :
  length (buffer ctx) = 64%nat -> Forall (fun l => Z.of_nat (length l) < sha1_chunk_max) chunks ->
  fr_sha1_final (fold_left fr_sha1_update chunks (fr_sha1_init ctx)) = Some (sha1 (concat chunks), sha1_wiped).
Proof. intros Hb Hc. apply sha1_final_digest. apply (chunks_hold _ [] chunks); [by apply init_holds|done]. Qed.

(** The two passes, for a key of at most a block. *)
Lemma hmac_sha1_passes ctx tctx in_ key :
  length (buffer ctx) = 64%nat -> (length key <= 64)%nat -> Z.of_nat (length in_) < sha1_chunk_max ->
  fr_hmac_sha1 ctx tctx in_ key = Some (hmac sha1 key in_).
Proof.
  intros Hb Hk Hi. unfold fr_hmac_sha1, hmac. destruct (Nat.ltb_spec 64 (length key)); [lia|]. cbn zeta.
  rewrite !pad_key by done. set (k := key ++ replicate (64 - length key) 0).
  assert (length k = 64%nat) as Hlk by (unfold k; rewrite length_app, length_replicate; lia).
  assert (forall v, Z.of_nat (length (map (fun x => x ^z v) k)) < sha1_chunk_max) as Hpad
    by (intros; rewrite length_map, Hlk; reflexivity).
  pose proof (chunks_final ctx [map (fun x => x ^z 0x36) k; in_] Hb) as H1. cbn [fold_left concat] in H1. rewrite app_nil_r in H1.
  rewrite H1 by (repeat constructor; auto). rewrite (take_ge (sha1 _)) by (rewrite sha1_length; lia).
  set (inner := sha1 (map (fun x => x ^z 0x36) k ++ in_)).
  pose proof (chunks_final sha1_wiped [map (fun x => x ^z 0x5c) k; inner] eq_refl) as H2. cbn [fold_left concat] in H2.
  rewrite app_nil_r in H2. rewrite H2; [done|]. repeat constructor; auto. unfold inner. rewrite sha1_length. reflexivity.
Qed.

(** ** Properties *)

(** C29: SHA-1 computed incrementally by the local code is SHA-1. However a message
    is cut into chunks of fewer than 2^29 bytes, and whatever the buffer held
    before, ingesting the chunks and finalising ends and gives the FIPS 180
    digest of the concatenation; the bit counter carries correctly at every
    length, unlike that of MD5, and the in-place expansion of the message
    schedule is the standard's. *)
Theorem sha1_streaming_correct (ctx : fr_sha1_ctx) (chunks : list bytes) :
  length (buffer ctx) = 64%nat -> Forall (fun l => Z.of_nat (length l) < sha1_chunk_max) chunks ->
  fr_sha1_final (fold_left fr_sha1_update chunks (fr_sha1_init ctx)) = Some (sha1 (concat chunks), sha1_wiped).
Proof. apply chunks_final. Qed.

Lemma sha1_streaming_correct_witness :
  fr_sha1_final (fold_left fr_sha1_update [[97]; [98; 99]] (fr_sha1_init sha1_wiped)) = Some (sha1 (concat [[97]; [98; 99]]), sha1_wiped).
Proof. apply (sha1_streaming_correct sha1_wiped [[97]; [98; 99]]); [reflexivity|repeat constructor]. Defined.


End Sha1.
