(* ===== verification/Md5Pool.v ===== *)
(** The thread-local free list of digest contexts (src/lib/util/md5.c,
    fr_md5_ctx_alloc_from_list and fr_md5_ctx_free_from_list): contexts live in
    a store, the list holds pointers into it, and the memory allocator may
    fail.  Proved over any digest of BlockHash. *)

From S2P Require Import Prelude BlockHash Md5.
From stdpp Require Import gmap.

Module Md5Pool.

Abbreviation ARRAY_SIZE := 8%nat (only parsing).

Definition loc := nat.

Record fr_md5_free_list_t := MkSlot {
  used : bool;
  md_ctx : option loc;
}.

(** One thread: its free list ([None] before the first use), the contexts in
    memory, the number of allocations that still succeed and the next address
    the allocator hands out. *)
Record thread (Ctx : Type) := MkThread {
  md5_array : option (list fr_md5_free_list_t);
  store : gmap loc Ctx;
  avail : nat;
  brk : loc;
}.
Arguments MkThread {_} _ _ _ _.
Arguments md5_array {_} _.
Arguments store {_} _.
Arguments avail {_} _.
Arguments brk {_} _.

(** The outcome of a free: done, or one of the two undefined operations the
    code can reach: dereferencing NULL, and freeing the pointer-sized
    word stored at the start of a context. *)
Inductive outcome (A : Type) :=
  | Done (a : A)
  | NullDeref
  | FreeOfContents (l : loc).
Arguments Done {_} _.
Arguments NullDeref {_}.
Arguments FreeOfContents {_} _.

Section Pool.
Context {Ctx : Type} `{Hops : DigestOps Ctx}.

(** [fr_md5_ctx_alloc()] *)
Definition fr_md5_ctx_alloc (t : thread Ctx) : option loc * thread Ctx :=
  match avail t with
  | O => (None, t)
  | S n => (Some (brk t), MkThread (md5_array t) (<[brk t := ctx_alloc]> (store t)) n (S (brk t)))
  end.

(** [for (i = ...; i < ARRAY_SIZE; i++)]: fill the slots from index
    [ARRAY_SIZE - n] on; [false] is the jump to [oom]. *)
Fixpoint init_contexts (n : nat) (done : list fr_md5_free_list_t) (t : thread Ctx) : bool * thread Ctx :=
  match n with
  | O => (true, MkThread (Some done) (store t) (avail t) (brk t))
  | S n' =>
      match fr_md5_ctx_alloc t with
      | (None, t) =>
          (false, MkThread (Some (done ++ replicate n (MkSlot false None))) (store t) (avail t) (brk t))
      | (Some l, t) => init_contexts n' (done ++ [MkSlot false (Some l)]) t
      end
  end.

(** The scan for the first slot that is not used: its context and the list
    with the slot marked. *)
Fixpoint take_slot (free_list : list fr_md5_free_list_t)
  : option (option loc * list fr_md5_free_list_t) :=
  match free_list with
  | [] => None
  | s :: rest =>
      if used s then
        match take_slot rest with
        | Some (p, rest) => Some (p, s :: rest)
        | None => None
        end
      else Some (md_ctx s, MkSlot true (md_ctx s) :: rest)
  end.

Definition fr_md5_ctx_alloc_from_list (t : thread Ctx) : option loc * thread Ctx :=
  let '(ok, t) :=
    match md5_array t with
    | None =>
        (* talloc_zero_array: the list itself is an allocation *)
        match avail t with
        | O => (false, t)
        | S n => init_contexts ARRAY_SIZE [] (MkThread None (store t) n (brk t))
        end
    | Some _ => (true, t)
    end in
  if negb ok then (None, t) else
  match md5_array t with
  | None => (None, t)
  | Some free_list =>
      match take_slot free_list with
      | Some (p, free_list) => (p, MkThread (Some free_list) (store t) (avail t) (brk t))
      | None => fr_md5_ctx_alloc t
      end
  end.

(** The scan of the free: the list with the slot that holds [p] released. *)
Fixpoint release_slot (p : option loc) (free_list : list fr_md5_free_list_t)
  : option (list fr_md5_free_list_t) :=
  match free_list with
  | [] => None
  | s :: rest =>
      if decide (md_ctx s = p) then Some (MkSlot false (md_ctx s) :: rest)
      else match release_slot p rest with
           | Some rest => Some (s :: rest)
           | None => None
           end
  end.

(** [fr_md5_ctx_free] is called with the context where the function
    takes a pointer to it, so what it frees is the word the context starts
    with. *)
Definition fr_md5_ctx_free_from_list (t : thread Ctx) (p : option loc) : outcome (thread Ctx) :=
  match match md5_array t with Some free_list => release_slot p free_list | None => None end with
  | Some free_list =>
      match p with
      | None => NullDeref
      | Some l =>
          Done (MkThread (Some free_list) (alter ctx_reset l (store t)) (avail t) (brk t))
      end
  | None =>
      match p with
      | None => NullDeref
      | Some l => FreeOfContents l
      end
  end.

(** * Histories

    The contexts a thread has been handed and not given back are tracked beside
    its state; a step is one call, or any use of a context that is out. *)
Inductive step : thread Ctx * list loc -> thread Ctx * list loc -> Prop :=
  | step_alloc t out l t' :
      fr_md5_ctx_alloc_from_list t = (Some l, t') -> step (t, out) (t', l :: out)
  | step_alloc_oom t out t' :
      fr_md5_ctx_alloc_from_list t = (None, t') -> step (t, out) (t', out)
  | step_use t out l c :
      l ∈ out ->
      step (t, out) (MkThread (md5_array t) (<[l := c]> (store t)) (avail t) (brk t), out)
  | step_free t out l t' :
      l ∈ out -> fr_md5_ctx_free_from_list t (Some l) = Done t' ->
      step (t, out) (t', filter (fun x => x <> l) out).

Definition thread_init (n : nat) : thread Ctx := MkThread None ∅ n 0%nat.

Inductive reachable (n : nat) : thread Ctx * list loc -> Prop :=
  | reach_init : reachable n (thread_init n, [])
  | reach_step s s' : reachable n s -> step s s' -> reachable n s'.

Context `{Hlaws : !DigestLaws Ctx}.

Definition slot_ctxs (ss : list fr_md5_free_list_t) : list loc := omap md_ctx ss.

(** A context that is reset and not handed out. *)
Definition idle (m : gmap loc Ctx) (out : list loc) (l : loc) : Prop :=
  (l ∉ out) /\ (exists c, m !! l = Some c /\ ctx_holds c []).

Definition slots_ok (m : gmap loc Ctx) (out : list loc) (ss : list fr_md5_free_list_t) : Prop :=
  Forall (fun s => forall l, md_ctx s = Some l -> if used s then l ∈ out else idle m out l) ss.

Record pool_inv (t : thread Ctx) (out : list loc) : Prop := {
  inv_out_below : Forall (fun l => (l < brk t)%nat) out;
  inv_out_live : Forall (fun l => is_Some (store t !! l)) out;
  inv_slots : forall ss, md5_array t = Some ss ->
    NoDup (slot_ctxs ss) /\ Forall (fun l => (l < brk t)%nat) (slot_ctxs ss) /\
    slots_ok (store t) out ss;
  inv_fresh : md5_array t = None -> out = [];
}.

Lemma slots_ok_mono m m' out out' ss :
  (forall l, l ∈ slot_ctxs ss -> idle m out l -> idle m' out' l) ->
  (forall l, l ∈ out -> l ∈ out') -> slots_ok m out ss -> slots_ok m' out' ss.
Proof.
  intros Hi Ho Hs. apply Forall_forall. intros s Hin l Hl.
  pose proof (proj1 (Forall_forall _ _) Hs s Hin l Hl) as Hok.
  destruct (used s); [by apply Ho|]. apply Hi; [|done].
  apply list_elem_of_omap. by exists s.
Qed.

Lemma take_slot_ok m out ss p ss' :
  NoDup (slot_ctxs ss) -> slots_ok m out ss -> take_slot ss = Some (p, ss') ->
  slot_ctxs ss' = slot_ctxs ss /\
  match p with
  | Some l => l ∈ slot_ctxs ss /\ idle m out l /\ slots_ok m (l :: out) ss'
  | None => slots_ok m out ss'
  end.
Proof.
  revert ss' p. induction ss as [|s ss IH]; intros ss' p Hnd Hok Ht; [done|].
  inversion Hok as [|? ? Hs Hok']; subst. cbn [take_slot] in Ht.
  unfold slot_ctxs in *. destruct s as [u [l|]]; cbn [omap list_omap md_ctx used] in *.
  - apply NoDup_cons in Hnd as [Hn Hnd]. destruct u.
    + destruct (take_slot ss) as [[q rest]|] eqn:E; [|done]. simplify_eq.
      destruct (IH rest p Hnd Hok' eq_refl) as [Heq Hp]. cbn [omap list_omap md_ctx]. rewrite Heq. split; [done|].
      specialize (Hs l eq_refl).
      destruct p as [l'|].
      * destruct Hp as (? & ? & ?). split; [by right|]. split; [done|].
        constructor; [|done]. intros ? [= <-]. cbn. by right.
      * constructor; [|done]. by intros ? [= <-].
    + simplify_eq. cbn [omap list_omap md_ctx]. specialize (Hs l eq_refl). cbn in Hs.
      split; [done|]. split; [by left|]. split; [done|].
      constructor; [intros ? [= <-]; cbn; by left|].
      apply (slots_ok_mono m m out); [|by right|done].
      intros l' Hl' [Hno Hc]. split; [|done]. intros [->|?]%elem_of_cons; done.
  - destruct u.
    + destruct (take_slot ss) as [[q rest]|] eqn:E; [|done]. simplify_eq.
      destruct (IH rest p Hnd Hok' eq_refl) as [Heq Hp]. cbn [omap list_omap md_ctx]. split; [done|].
      destruct p as [l'|]; [|by constructor].
      destruct Hp as (? & ? & ?). split; [done|]. split; [done|]. by constructor.
    + simplify_eq. cbn [omap list_omap md_ctx]. split; [done|]. by constructor.
Qed.

Lemma idle_insert_fresh m out l l' c :
  l <> l' -> idle m out l -> idle (<[l' := c]> m) (l' :: out) l.
Proof.
  intros Hne [Hno (c' & Hm & Hc)]. split.
  - intros [?|?]%elem_of_cons; done.
  - exists c'. by rewrite lookup_insert_ne.
Qed.

Lemma slot_ctxs_app ss ss' : slot_ctxs (ss ++ ss') = slot_ctxs ss ++ slot_ctxs ss'.
Proof. apply omap_app. Qed.

Lemma below {n : nat} {ls l} : Forall (fun l => (l < n)%nat) ls -> l ∈ ls -> (l < n)%nat.
Proof. intros Hf. by apply (proj1 (Forall_forall _ _) Hf). Qed.

Lemma init_contexts_inv n : forall done t,
  NoDup (slot_ctxs done) -> Forall (fun l => (l < brk t)%nat) (slot_ctxs done) ->
  slots_ok (store t) [] done ->
  pool_inv (snd (init_contexts n done t)) [] /\
  is_Some (md5_array (snd (init_contexts n done t))).
Proof.
  induction n as [|n IH]; intros done t Hnd Hlt Hok; cbn [init_contexts].
  - split; [|done]. split; cbn; try constructor; intros; by simplify_eq.
  - unfold fr_md5_ctx_alloc. destruct (avail t) as [|a].
    + split; [|done]. split; cbn; [done|done| |done]. intros ss [= <-].
      change (MkSlot false None :: replicate n (MkSlot false None))
        with (replicate (S n) (MkSlot false None)).
      assert (slot_ctxs (replicate (S n) (MkSlot false None)) = []) as Hnil.
      { clear. generalize (S n). intros k. induction k; [done|]. cbn. apply IHk. }
      rewrite slot_ctxs_app, Hnil, app_nil_r. split; [done|]. split; [done|].
      apply Forall_app; split; [done|]. by apply Forall_replicate.
    + apply IH; cbn [store brk].
      * rewrite slot_ctxs_app. apply NoDup_app. split; [done|]. split; [|apply NoDup_singleton].
        intros l Hl ->%list_elem_of_singleton. pose proof (below Hlt Hl). lia.
      * rewrite slot_ctxs_app. apply Forall_app. split.
        -- apply (Forall_impl _ _ _ Hlt). intros; cbn in *; lia.
        -- repeat constructor.
      * apply Forall_app. split.
        -- apply (slots_ok_mono (store t) _ []); [|done|done].
           intros l Hl [_ (c & Hm & Hc)]. split; [by intros ?%elem_of_nil|]. exists c.
           rewrite lookup_insert_ne; [done|]. pose proof (below Hlt Hl). lia.
        -- constructor; [|done]. intros l [= <-]. cbn. split; [by intros ?%elem_of_nil|].
           exists ctx_alloc. rewrite lookup_insert_eq. split; [done|apply ctx_alloc_holds].
Qed.

Lemma ctx_alloc_inv t out p t' :
  pool_inv t out -> is_Some (md5_array t) -> fr_md5_ctx_alloc t = (p, t') ->
  match p with
  | Some l => idle (store t') out l /\ pool_inv t' (l :: out)
  | None => pool_inv t' out
  end.
Proof.
  intros [Hb Hl Hs Hf] [ss Hss] Ha. unfold fr_md5_ctx_alloc in Ha.
  destruct (avail t); simplify_eq; [by split|]. cbn [store].
  assert (brk t ∉ out) as Hnew.
  { intros Hin. pose proof (below Hb Hin). lia. }
  split.
  - split; [done|]. exists ctx_alloc. rewrite lookup_insert_eq. split; [done|apply ctx_alloc_holds].
  - split; cbn [store brk md5_array]; [| | |by rewrite Hss].
    + constructor; [lia|]. apply (Forall_impl _ _ _ Hb). intros; cbn in *; lia.
    + constructor; [by rewrite lookup_insert_eq|]. apply (Forall_impl _ _ _ Hl).
      intros l Hi. by apply lookup_insert_is_Some'; right.
    + intros ss' Hss'. destruct (Hs ss' Hss') as (Hnd & Hlt & Hok). split; [done|]. split.
      * apply (Forall_impl _ _ _ Hlt). intros; cbn in *; lia.
      * apply (slots_ok_mono (store t) _ out); [|by right|done].
        intros l Hin. apply idle_insert_fresh.
        pose proof (below Hlt Hin). lia.
Qed.

Lemma alloc_from_list_inv t out p t' :
  pool_inv t out -> fr_md5_ctx_alloc_from_list t = (p, t') ->
  match p with
  | Some l => idle (store t') out l /\ pool_inv t' (l :: out)
  | None => pool_inv t' out
  end.
Proof.
  intros Hinv Ha. unfold fr_md5_ctx_alloc_from_list in Ha.
  destruct (match md5_array t with None => _ | Some _ => _ end) as [ok t1] eqn:E1.
  assert (pool_inv t1 out /\ (ok = true -> is_Some (md5_array t1))) as [Hinv1 Harr].
  { destruct (md5_array t) eqn:Em; [by simplify_eq|].
    assert (out = []) as -> by (by apply (inv_fresh _ _ Hinv)).
    destruct (avail t) eqn:Ea; [by simplify_eq|].
    destruct (init_contexts_inv ARRAY_SIZE [] (MkThread None (store t) n (brk t))) as [H1 H2];
      [constructor..|]. rewrite E1 in H1, H2. done. }
  clear E1 Hinv. destruct ok; cbn [negb] in Ha; [|by simplify_eq].
  destruct (Harr eq_refl) as [ss Hss]. rewrite Hss in Ha.
  destruct (take_slot ss) as [[q ss']|] eqn:Et; [|by eapply ctx_alloc_inv].
  simplify_eq. destruct Hinv1 as [Hb Hl Hs Hf]. destruct (Hs ss Hss) as (Hnd & Hlt & Hok).
  destruct (take_slot_ok _ _ _ _ _ Hnd Hok Et) as [Heq Hp].
  destruct p as [l|].
  - destruct Hp as (Hin & Hidle & Hok'). split; [done|].
    split; cbn [brk store md5_array]; [| | |done].
    + constructor; [|done]. by apply (proj1 (Forall_forall _ _) Hlt).
    + constructor; [|done]. destruct Hidle as [_ (c & -> & _)]. done.
    + intros ? [= <-]. by rewrite Heq.
  - split; cbn [brk store md5_array]; [done|done| |done]. intros ? [= <-]. by rewrite Heq.
Qed.

Lemma idle_release m out l l' :
  l' <> l -> idle m out l' -> idle (alter ctx_reset l m) (filter (fun x => x <> l) out) l'.
Proof.
  intros Hne [Hno (c & Hm & Hc)]. split.
  - intros [_ Hin]%list_elem_of_filter. done.
  - exists c. by rewrite lookup_alter_ne.
Qed.

Lemma release_elsewhere m out l ss :
  l ∉ slot_ctxs ss -> slots_ok m out ss ->
  slots_ok (alter ctx_reset l m) (filter (fun x => x <> l) out) ss.
Proof.
  intros Hn Hok. apply Forall_forall. intros s Hin l' Hl'.
  assert (l' <> l) as Hne.
  { intros ->. apply Hn, list_elem_of_omap. by exists s. }
  pose proof (proj1 (Forall_forall _ _) Hok s Hin l' Hl') as H.
  destruct (used s); [by apply list_elem_of_filter|by apply idle_release].
Qed.

Lemma release_slot_ok m out l ss ss' :
  NoDup (slot_ctxs ss) -> slots_ok m out ss -> is_Some (m !! l) ->
  release_slot (Some l) ss = Some ss' ->
  slot_ctxs ss' = slot_ctxs ss /\
  slots_ok (alter ctx_reset l m) (filter (fun x => x <> l) out) ss'.
Proof.
  intros Hnd Hok [c Hc]. revert ss' Hnd Hok.
  induction ss as [|s ss IH]; intros ss' Hnd Hok Hr; [done|].
  apply Forall_cons in Hok as [Hs Hok]. cbn [release_slot] in Hr. unfold slot_ctxs in *.
  destruct (decide (md_ctx s = Some l)) as [He|He].
  - simplify_eq. cbn [omap list_omap md_ctx] in *. rewrite He in *.
    apply NoDup_cons in Hnd as [Hn Hnd]. split; [done|]. constructor.
    + intros ? [= <-]. cbn [used]. split.
      * by intros [? _]%list_elem_of_filter.
      * exists (ctx_reset c). rewrite lookup_alter_eq, Hc. split; [done|apply ctx_reset_holds].
    + by apply release_elsewhere.
  - destruct (release_slot (Some l) ss) as [rest|] eqn:E; [|done]. simplify_eq.
    assert (NoDup (omap md_ctx ss)) as Hnd'.
    { cbn [omap list_omap] in Hnd. destruct (md_ctx s); [by apply NoDup_cons in Hnd as [_ ?]|done]. }
    destruct (IH rest Hnd' Hok eq_refl) as [Heq Hok']. cbn [omap list_omap]. rewrite Heq.
    split; [done|]. constructor; [|done].
    intros l' Hl'. specialize (Hs l' Hl'). assert (l' <> l) by congruence.
    destruct (used s); [by apply list_elem_of_filter|by apply idle_release].
Qed.

Lemma pool_inv_step t out t' out' : pool_inv t out -> step (t, out) (t', out') -> pool_inv t' out'.
Proof.
  intros Hinv Hstep. inversion Hstep as [? ? l ? Ha|? ? ? Ha|? ? l c Hin|? ? l ? Hin Hf]; subst; clear Hstep.
  - by apply (alloc_from_list_inv _ _ _ _ Hinv) in Ha as [_ ?].
  - by apply (alloc_from_list_inv _ _ _ _ Hinv) in Ha.
  - destruct Hinv as [Hb Hl Hs Hf]. split; cbn [store brk md5_array]; [done| | |done].
    + apply (Forall_impl _ _ _ Hl). intros l' Hi. by apply lookup_insert_is_Some'; right.
    + intros ss Hss. destruct (Hs ss Hss) as (Hnd & Hlt & Hok). split; [done|]. split; [done|].
      apply (slots_ok_mono (store t) _ out'); [|done|done].
      intros l' _ [Hno (c' & Hm & Hc)]. split; [done|]. exists c'.
      rewrite lookup_insert_ne; [done|]. by intros ->.
  - destruct Hinv as [Hb Hl Hs Hfr]. unfold fr_md5_ctx_free_from_list in Hf.
    destruct (md5_array t) as [ss|] eqn:Ess; [|done].
    destruct (release_slot (Some l) ss) as [ss'|] eqn:Er; [|done]. simplify_eq.
    destruct (Hs ss eq_refl) as (Hnd & Hlt & Hok).
    destruct (release_slot_ok (store t) out l ss ss' Hnd Hok) as [Heq Hok']; [|done|].
    { by apply (proj1 (Forall_forall _ _) Hl). }
    split; cbn [store brk md5_array]; [| | |done].
    + apply Forall_forall. intros l' [_ Hin']%list_elem_of_filter. by apply (below Hb).
    + apply Forall_forall. intros l' [_ Hin']%list_elem_of_filter.
      apply lookup_alter_is_Some. by apply (proj1 (Forall_forall _ _) Hl).
    + intros ? [= <-]. by rewrite Heq.
Qed.

Lemma reachable_inv n s : reachable n s -> pool_inv (fst s) (snd s).
Proof.
  induction 1 as [|[t out] [t' out'] _ IH Hst]; [by repeat constructor|].
  by eapply pool_inv_step.
Qed.

(** C40: whatever calls a thread has made, however it has used the contexts it
    holds and wherever the allocator failed, a context returned by
    fr_md5_ctx_alloc_from_list is not one that is already out and is a freshly
    initialised digest context. *)
Theorem alloc_from_list_fresh n t out l t' :
  reachable n (t, out) -> fr_md5_ctx_alloc_from_list t = (Some l, t') ->
  (l ∉ out) /\ exists c, store t' !! l = Some c /\ ctx_holds c [].
Proof.
  intros Hr Ha. apply reachable_inv in Hr.
  by apply (alloc_from_list_inv _ _ _ _ Hr) in Ha as [? _].
Qed.
End Pool.

(** [k] contexts taken one after the other. *)
Fixpoint take_contexts {Ctx} `{DigestOps Ctx} (k : nat) (s : thread Ctx * list loc) : thread Ctx * list loc :=
  match k with
  | O => s
  | S k =>
      let s := take_contexts k s in
      match fr_md5_ctx_alloc_from_list (fst s) with
      | (Some l, t) => (t, l :: snd s)
      | (None, t) => (t, snd s)
      end
  end.

Lemma take_contexts_reachable {Ctx} `{DigestOps Ctx} n k :
  reachable n (take_contexts k (thread_init n, [])).
Proof.
  induction k as [|k IH]; [constructor|]. eapply reach_step; [exact IH|].
  cbn [take_contexts]. destruct (take_contexts k _) as [t out]. cbn [fst snd].
  destruct (fr_md5_ctx_alloc_from_list t) as [[l|] t'] eqn:E; by constructor.
Qed.

(** freeing a context that did not come from the eight slots is wrong.  The
    ninth context a thread takes is allocated outside the list; giving it back
    hands the context itself to fr_md5_ctx_free where the address of a pointer
    is expected, so the word at the start of the context is freed instead. *)
Theorem free_from_list_ninth_context {Ctx} `{DigestOps Ctx} n :
  exists (t : thread Ctx) out l,
    reachable (10 + n) (t, out) /\ length out = 9%nat /\ l ∈ out /\
    fr_md5_ctx_free_from_list t (Some l) = FreeOfContents l.
Proof.
  pose proof (take_contexts_reachable (Ctx := Ctx) (10 + n) 9) as Hr.
  destruct (take_contexts 9 (thread_init (10 + n), [])) as [t out] eqn:E.
  exists t, out, 8%nat. split; [done|].
  cbn in E. simplify_eq. split; [done|]. split; [set_solver|]. done.
Qed.

#[local] Existing Instances Md5.md5_ops Md5.md5_laws.

Lemma alloc_from_list_fresh_witness :
  let s := take_contexts (Ctx := Md5.fr_md5_ctx_local_t) 2 (thread_init 9, []) in
  (2%nat ∉ snd s) /\
  exists c, store (snd (fr_md5_ctx_alloc_from_list (fst s))) !! 2%nat = Some c /\ ctx_holds c [].
Proof.
  intros s. apply (alloc_from_list_fresh 9 (fst s) (snd s) 2 (snd (fr_md5_ctx_alloc_from_list (fst s)))).
  - rewrite <- surjective_pairing. apply take_contexts_reachable.
  - vm_compute. reflexivity.
Defined.
End Md5Pool.
