(* ===== verification/Heap.v ===== *)
(** The binary heap of src/lib/util/heap.c and heap.h: an array of pointers
    addressed from 1, with the position of every element stored back in the
    element.  Every read and write of the array is checked against the memory
    that is allocated at that moment, so that a result of [None] is an access
    the C code must not make; the theorems show that none happens, that the
    order and the back pointers are kept, and that the heap implements a set
    with extraction of a minimum. *)

From stdpp Require Import functions.
From S2P Require Import Prelude.

Module Heap.

Definition INITIAL_CAPACITY : nat := 2048.
Abbreviation FR_HEAP_INDEX_INVALID := 0%nat (only parsing).

(** An object the heap points to. *)
Definition ptr := nat.

(** One word of the array: not written yet, the marker in element 0, or a
    pointer to an object. *)
Inductive cell :=
  | Uninit
  | Sentinel
  | Ptr (d : ptr).

Record fr_heap_t := MkHeap {
  size : nat;
  min : nat;
  num_elements : nat;
  p : list cell;
}.

(** The index field of every object: what [h->offset] locates. *)
Abbreviation indexes := (ptr -> nat).

(** [unsigned int] arithmetic. *)
Definition uint (x : nat) : nat := Z.to_nat (u32 (Z.of_nat x)).

Definition HEAP_PARENT (x : nat) : nat := Nat.div2 x.
Definition HEAP_LEFT (x : nat) : nat := uint (2 * x).
Definition HEAP_RIGHT (x : nat) : nat := uint (2 * x + 1).

(** [h->p[i]], read as a pointer to an object, and [h->p[i] = d]. *)
Definition read (h : fr_heap_t) (i : nat) : option ptr :=
  match p h !! i with
  | Some (Ptr d) => Some d
  | _ => None
  end.

Definition write (h : fr_heap_t) (i : nat) (d : ptr) : option fr_heap_t :=
  if (i <? length (p h))%nat
  then Some (MkHeap (size h) (min h) (num_elements h) (<[i := Ptr d]> (p h)))
  else None.

Definition index_get (ix : indexes) (data : ptr) : nat := ix data.
Definition index_set (ix : indexes) (data : ptr) (idx : nat) : indexes := <[data := idx]> ix.

Definition OFFSET_SET (h : fr_heap_t) (ix : indexes) (i : nat) : option indexes :=
  d ← read h i; Some (index_set ix d i).
Definition OFFSET_RESET (h : fr_heap_t) (ix : indexes) (i : nat) : option indexes :=
  d ← read h i; Some (index_set ix d 0%nat).

Definition fr_heap_entry_inserted (heap_idx : nat) : bool :=
  negb (heap_idx =? FR_HEAP_INDEX_INVALID)%nat.

(** [None] is a failed allocation. *)
Definition fr_heap_alloc (mem : bool) (init : nat) : option fr_heap_t :=
  let init := if (init =? 0)%nat then INITIAL_CAPACITY else init in
  if negb mem then None
  else Some (MkHeap init init 0 (Sentinel :: replicate init Uninit)).

(** [talloc_realloc] of the structure to [n_size + 1] pointers: the common
    prefix is kept and the rest of a larger array is not initialised.  [mem]
    says whether the memory is there. *)
Definition realloc_heap (mem : bool) (h : fr_heap_t) (n_size : nat) : option fr_heap_t :=
  if negb mem then None
  else Some (MkHeap n_size (min h) (num_elements h)
               (take (n_size + 1) (p h) ++ replicate (n_size + 1 - length (p h)) Uninit)).

Section WithCmp.
Variable cmp : ptr -> ptr -> Z.

(** The loop of [fr_heap_bubble] and the store after it. *)
Fixpoint bubble_loop (fuel : nat) (h : fr_heap_t) (ix : indexes) (child : nat)
  : option (fr_heap_t * indexes) :=
  if (1 <? child)%nat then
    match fuel with
    | O => None
    | S fuel =>
        let parent := HEAP_PARENT child in
        dp ← read h parent;
        dc ← read h child;
        if cmp dp dc <? 0 then ix ← OFFSET_SET h ix child; Some (h, ix)
        else
          h ← write h child dp;
          h ← write h parent dc;
          ix ← OFFSET_SET h ix child;
          bubble_loop fuel h ix parent
    end
  else ix ← OFFSET_SET h ix child; Some (h, ix).

Definition fr_heap_bubble (h : fr_heap_t) (ix : indexes) (child : nat) : option (fr_heap_t * indexes) :=
  if (child =? FR_HEAP_INDEX_INVALID)%nat then Some (h, ix)
  else bubble_loop child h ix child.

(** The result code, and the heap and the objects after the call. *)
Definition fr_heap_insert (mem : bool) (h : fr_heap_t) (ix : indexes) (data : ptr)
  : option (Z * fr_heap_t * indexes) :=
  let child := index_get ix data in
  if fr_heap_entry_inserted child then Some (-1, h, ix) else
  let child := uint (num_elements h + 1) in
  let grown :=
    if (size h <? child)%nat then
      let sz := Z.of_nat (size h) in
      if UINT_MAX - sz <? sz then
        if sz =? UINT_MAX then None else realloc_heap mem h (Z.to_nat UINT_MAX)
      else realloc_heap mem h (uint (size h * 2))
    else Some h in
  match grown with
  | None => Some (-1, h, ix)
  | Some h =>
      h ← write h child data;
      let h := MkHeap (size h) (min h) (uint (num_elements h + 1)) (p h) in
      '(h, ix) ← fr_heap_bubble h ix child;
      Some (0, h, ix)
  end.

(** The loop of [fr_heap_extract]: move the hole at [parent] down to a leaf,
    always promoting the smaller child. *)
Fixpoint extract_loop (fuel : nat) (h : fr_heap_t) (ix : indexes) (max parent child : nat)
  : option (fr_heap_t * indexes * nat) :=
  if (child <=? max)%nat then
    match fuel with
    | O => None
    | S fuel =>
        right ← (if negb (child =? max)%nat then
                   dr ← read h (uint (child + 1));
                   dl ← read h child;
                   Some (cmp dr dl <? 0)
                 else Some false);
        let child := if (right : bool) then uint (child + 1) else child in
        d ← read h child;
        h ← write h parent d;
        ix ← OFFSET_SET h ix parent;
        extract_loop fuel h ix max child (HEAP_LEFT child)
    end
  else Some (h, ix, parent).

(** [ROUND_UP_DIV(_x, _y)] of src/lib/util/math.h in unsigned arithmetic *)
Definition ROUND_UP_DIV (x y : nat) : nat := (1 + Nat.div (Z.to_nat (u32 (Z.of_nat x - 1))) y)%nat.

Definition fr_heap_extract (mem : bool) (h : fr_heap_t) (ix : indexes) (data : ptr)
  : option (Z * fr_heap_t * indexes) :=
  let parent := index_get ix data in
  if ((parent =? 0) || (num_elements h <? parent))%nat then Some (-1, h, ix) else
  dp ← read h parent;
  if negb (data =? dp)%nat then Some (-1, h, ix) else
  let max := num_elements h in
  let child := HEAP_LEFT parent in
  ix ← OFFSET_RESET h ix parent;
  '(h, ix, parent) ← extract_loop max h ix max parent child;
  let h := MkHeap (size h) (min h) (num_elements h - 1) (p h) in
  let h :=
    if (uint (num_elements h * 2) <? size h)%nat then
      let n_size := ROUND_UP_DIV (size h) 2 in
      if (min h <? n_size)%nat then
        match realloc_heap mem h n_size with
        | Some h' => h'
        | None => h
        end
      else h
    else h in
  if negb (parent =? max)%nat then
    d ← read h max;
    h ← write h parent d;
    '(h, ix) ← fr_heap_bubble h ix parent;
    Some (0, h, ix)
  else Some (0, h, ix).

(** The popped element, [None] inside for NULL. *)
Definition fr_heap_pop (mem : bool) (h : fr_heap_t) (ix : indexes)
  : option (option ptr * fr_heap_t * indexes) :=
  if (num_elements h =? 0)%nat then Some (None, h, ix) else
  data ← read h 1;
  '(rcode, h, ix) ← fr_heap_extract mem h ix data;
  if rcode <? 0 then Some (None, h, ix) else Some (Some data, h, ix).
End WithCmp.

(** The accessors of the header and the iterator; the outer [option] is the
    memory access, the inner one the NULL result. *)
Definition fr_heap_peek (h : fr_heap_t) : option (option ptr) :=
  if (num_elements h =? 0)%nat then Some None else Some <$> read h 1.

Definition fr_heap_peek_at (h : fr_heap_t) (idx : nat) : option (option cell) :=
  if (num_elements h <? idx)%nat then Some None else Some <$> p h !! idx.

Definition fr_heap_peek_tail (h : fr_heap_t) : option (option ptr) :=
  if (num_elements h =? 0)%nat then Some None else Some <$> read h (num_elements h).

Definition fr_heap_iter_init (h : fr_heap_t) : option (option ptr * nat) :=
  if (num_elements h =? 0)%nat then Some (None, 1%nat)
  else d ← read h 1; Some (Some d, 1%nat).

Definition fr_heap_iter_next (h : fr_heap_t) (iter : nat) : option (option ptr * nat) :=
  if (num_elements h <? uint (iter + 1))%nat then Some (None, iter)
  else d ← read h (uint (iter + 1)); Some (Some d, uint (iter + 1)).

(** [fr_heap_foreach]: the elements visited. *)
Fixpoint foreach_from (fuel : nat) (h : fr_heap_t) (cur : option ptr * nat) : option (list ptr) :=
  match fuel, cur with
  | _, (None, _) => Some []
  | O, _ => None
  | S fuel, (Some d, iter) =>
      next ← fr_heap_iter_next h iter;
      rest ← foreach_from fuel h next;
      Some (d :: rest)
  end.

Definition fr_heap_foreach (h : fr_heap_t) : option (list ptr) :=
  cur ← fr_heap_iter_init h;
  foreach_from (S (num_elements h)) h cur.

(** [fr_heap_verify]: [Some false] is a failed assertion. *)
Fixpoint verify_indexes (n i : nat) (h : fr_heap_t) (ix : indexes) : option bool :=
  match n with
  | O => Some true
  | S n =>
      data ← read h i;
      if negb (index_get ix data =? i)%nat then Some false else verify_indexes n (i + 1) h ix
  end.

Fixpoint verify_order (cmp : ptr -> ptr -> Z) (fuel i : nat) (h : fr_heap_t) : option bool :=
  match fuel with
  | O => None
  | S fuel =>
      if (num_elements h <? HEAP_LEFT i)%nat then Some true else
      d ← read h i;
      l ← read h (HEAP_LEFT i);
      if negb (cmp d l <=? 0) then Some false else
      if (num_elements h <? HEAP_RIGHT i)%nat then Some true else
      r ← read h (HEAP_RIGHT i);
      if negb (cmp d r <=? 0) then Some false else
      verify_order cmp fuel (uint (i + 1)) h
  end.

Definition fr_heap_verify (cmp : ptr -> ptr -> Z) (h : fr_heap_t) (ix : indexes) : option bool :=
  if negb (num_elements h <=? size h)%nat then Some false else
  match p h !! 0%nat with
  | Some Sentinel =>
      ok ← verify_indexes (num_elements h) 1 h ix;
      if negb ok then Some false else verify_order cmp (num_elements h + 1) 1 h
  | Some _ => Some false
  | None => None
  end.

(** * The array as a function of the index *)

Lemma uint_id x : Z.of_nat x < 4294967296 -> uint x = x.
Proof. intros. unfold uint. rewrite u32_id by (unfold is_u32; lia). lia. Qed.

Lemma parent_bounds x : (2 * HEAP_PARENT x <= x <= 2 * HEAP_PARENT x + 1)%nat.
Proof.
  unfold HEAP_PARENT. rewrite (Nat.div2_odd x) at 2 3. destruct (Nat.odd x); simpl; lia.
Qed.

(** Arithmetic on indexes: the parents that occur become linear facts. *)
Ltac index_lia :=
  repeat match goal with
  | |- context [HEAP_PARENT ?x] =>
      lazymatch goal with H : (2 * HEAP_PARENT x <= _)%nat /\ _ |- _ => fail | _ => idtac end;
      pose proof (parent_bounds x)
  | _ : context [HEAP_PARENT ?x] |- _ =>
      lazymatch goal with H : (2 * HEAP_PARENT x <= _ <= _)%nat |- _ => fail | _ => idtac end;
      pose proof (parent_bounds x)
  end; lia.

Definition upd (h : fr_heap_t) (i : nat) (d : ptr) : fr_heap_t :=
  MkHeap (size h) (min h) (num_elements h) (<[i := Ptr d]> (p h)).

Lemma write_upd h i d : (i < length (p h))%nat -> write h i d = Some (upd h i d).
Proof. intros Hi. unfold write. by rewrite (proj2 (Nat.ltb_lt _ _) Hi). Qed.

Lemma read_upd h i d j :
  (i < length (p h))%nat -> read (upd h i d) j = if decide (j = i) then Some d else read h j.
Proof.
  intros Hi. unfold read, upd; cbn [p]. destruct (decide (j = i)) as [->|Hne].
  - by rewrite list_lookup_insert_eq.
  - by rewrite list_lookup_insert_ne.
Qed.

Lemma length_upd h i d : length (p (upd h i d)) = length (p h).
Proof. apply length_insert. Qed.

Lemma offset_set_eq h ix i d : read h i = Some d -> OFFSET_SET h ix i = Some (index_set ix d i).
Proof. intros Hr. unfold OFFSET_SET. by rewrite Hr. Qed.

(** What no operation on elements changes. *)
Definition same_shape (h h' : fr_heap_t) : Prop :=
  size h' = size h /\ min h' = min h /\ num_elements h' = num_elements h /\
  length (p h') = length (p h) /\ p h' !! 0%nat = p h !! 0%nat.

Lemma same_shape_refl h : same_shape h h.
Proof. done. Qed.

Lemma same_shape_upd h h' i d : same_shape h h' -> (0 < i)%nat -> same_shape h (upd h' i d).
Proof.
  intros (?&?&?&?&?) Hi. unfold same_shape, upd; cbn [size min num_elements p].
  rewrite length_insert, list_lookup_insert_ne by lia. done.
Qed.

Lemma same_shape_trans h h' h'' : same_shape h h' -> same_shape h' h'' -> same_shape h h''.
Proof. unfold same_shape. intros (->&->&->&->&->) ?. done. Qed.

(** * Invariants *)

(** All positions of 1..[n] but [hole] hold an element whose index field is its
    position, and every element but [x] whose index field is set is there. *)
Record placed (h : fr_heap_t) (ix : indexes) (n hole : nat) (x : ptr) : Prop := {
  placed_at i : (1 <= i <= n)%nat -> i <> hole -> exists d, read h i = Some d /\ ix d = i /\ d <> x;
  placed_ix d : d <> x -> ix d <> 0%nat ->
    (1 <= ix d <= n)%nat /\ ix d <> hole /\ read h (ix d) = Some d;
}.

Section Order.
Variable cmp : ptr -> ptr -> Z.

(** The comparators callers pass order all elements. *)
Class HeapOrder : Prop := {
  cmp_flip a b : 0 <= cmp a b -> cmp b a <= 0;
  cmp_trans a b c : cmp a b <= 0 -> cmp b c <= 0 -> cmp a c <= 0;
}.
Context {Hcmp : HeapOrder}.

(** The element at [j] is not before the one at [i]. *)
Definition ordered (h : fr_heap_t) (i j : nat) : Prop :=
  forall d e, read h i = Some d -> read h j = Some e -> cmp d e <= 0.

(** Heap order, except between [c] and its parent; the children of [c] are
    after its parent. *)
Record order_above (h : fr_heap_t) (n c : nat) : Prop := {
  above_order i : (2 <= i <= n)%nat -> i <> c -> ordered h (HEAP_PARENT i) i;
  above_bypass j : (2 <= c)%nat -> (j <= n)%nat -> HEAP_PARENT j = c -> ordered h (HEAP_PARENT c) j;
}.

(** Heap order around a hole at [c]. *)
Record order_hole (h : fr_heap_t) (n c : nat) : Prop := {
  hole_order i : (2 <= i <= n)%nat -> i <> c -> HEAP_PARENT i <> c -> ordered h (HEAP_PARENT i) i;
  hole_bypass j : (2 <= c)%nat -> (j <= n)%nat -> HEAP_PARENT j = c -> ordered h (HEAP_PARENT c) j;
}.

Record heap_inv (h : fr_heap_t) (ix : indexes) : Prop := {
  inv_alloc : length (p h) = S (size h);
  inv_num : (num_elements h <= size h)%nat;
  inv_size : (1 <= size h)%nat /\ Z.of_nat (size h) < 2147483648;
  inv_sentinel : p h !! 0%nat = Some Sentinel;
  inv_at i : (1 <= i <= num_elements h)%nat -> exists d, read h i = Some d /\ ix d = i;
  inv_ix d : ix d <> 0%nat -> (1 <= ix d <= num_elements h)%nat /\ read h (ix d) = Some d;
  inv_order i : (2 <= i <= num_elements h)%nat -> ordered h (HEAP_PARENT i) i;
}.

(** * Bubbling up *)

Lemma index_set_eq ix d i : index_set ix d i d = i.
Proof. unfold index_set. apply fn_lookup_insert. Qed.
Lemma index_set_ne ix d i e : e <> d -> index_set ix d i e = ix e.
Proof. intros. by apply fn_lookup_insert_ne. Qed.

Lemma placed_swap h ix n c x dp :
  placed h ix n c x -> (2 <= c <= n)%nat -> (n < length (p h))%nat ->
  read h (HEAP_PARENT c) = Some dp ->
  placed (upd (upd h c dp) (HEAP_PARENT c) x) (index_set ix dp c) n (HEAP_PARENT c) x.
Proof.
  intros [Hat Hix] Hc Hlen Hdp.
  assert (1 <= HEAP_PARENT c < c)%nat as Hp by index_lia.
  destruct (Hat (HEAP_PARENT c)) as (dp' & Hdp' & Hixp & Hne); [lia|lia|]. simplify_eq.
  assert (forall j, read (upd (upd h c dp) (HEAP_PARENT c) x) j =
    if decide (j = HEAP_PARENT c) then Some x else if decide (j = c) then Some dp else read h j) as Hr.
  { intros j. rewrite !read_upd by (rewrite ?length_upd; lia). done. }
  split.
  - intros i Hi Hni. rewrite Hr, decide_False by done. destruct (decide (i = c)) as [->|Hic].
    + exists dp. by rewrite index_set_eq.
    + destruct (Hat i Hi Hic) as (d & Hd & Hixd & Hdx). exists d.
      rewrite index_set_ne; [done|]. intros ->. congruence.
  - intros d Hdx. destruct (decide (d = dp)) as [->|Hd].
    + rewrite index_set_eq. intros _. rewrite Hr.
      rewrite decide_False, decide_True by lia. repeat split; lia.
    + rewrite index_set_ne by done. intros Hd0. destruct (Hix d Hdx Hd0) as (? & ? & Hrd).
      assert (ix d <> HEAP_PARENT c) by (intros He; rewrite He in Hrd; congruence).
      rewrite Hr, !decide_False by done. done.
Qed.

Lemma order_swap h n c x dp :
  order_above h n c -> (2 <= c <= n)%nat -> (n < length (p h))%nat ->
  read h c = Some x -> read h (HEAP_PARENT c) = Some dp -> cmp x dp <= 0 ->
  order_above (upd (upd h c dp) (HEAP_PARENT c) x) n (HEAP_PARENT c).
Proof.
  intros [Hord Hby] Hc Hlen Hx Hdp Hle.
  assert (1 <= HEAP_PARENT c < c)%nat as Hp by index_lia.
  assert (forall j, read (upd (upd h c dp) (HEAP_PARENT c) x) j =
    if decide (j = HEAP_PARENT c) then Some x else if decide (j = c) then Some dp else read h j) as Hr.
  { intros j. rewrite !read_upd by (rewrite ?length_upd; lia). done. }
  assert (forall i e, (2 <= i <= n)%nat -> HEAP_PARENT i = HEAP_PARENT c -> i <> c ->
    read h i = Some e -> cmp dp e <= 0) as Hsib.
  { intros i e Hi Hpi Hic He. apply (Hord i Hi Hic); [by rewrite Hpi|done]. }
  split.
  - intros i Hi Hni d e. rewrite !Hr.
    destruct (decide (HEAP_PARENT i = HEAP_PARENT c)) as [Hpi|Hpi].
    + intros [= <-]. rewrite decide_False by index_lia.
      destruct (decide (i = c)) as [->|Hic]; [by intros [= <-]|].
      intros He. apply (cmp_trans _ dp); [done|]. by apply (Hsib i).
    + rewrite (decide_False (P := i = HEAP_PARENT c)) by done.
      rewrite (decide_False (P := i = c)) by congruence.
      destruct (decide (HEAP_PARENT i = c)) as [Hpc|Hpc].
      * intros [= <-] He. by apply (Hby i); [lia|lia|done| |].
      * intros Hd He. apply (Hord i); [done|congruence|done|done].
  - intros j Hc2 Hj Hpj d e. rewrite !Hr, !decide_False by index_lia. intros Hd.
    assert (cmp d dp <= 0) as Hddp by (apply (Hord (HEAP_PARENT c)); [lia|lia|done|done]).
    destruct (decide (j = c)) as [->|Hjc].
    + by intros [= <-].
    + intros He.
      apply (cmp_trans _ dp); [done|]. apply (Hsib j); [index_lia|done..].
Qed.

(** The state in which bubbling leaves the array. *)
Record settled (h : fr_heap_t) (ix : indexes) (n : nat) : Prop := {
  settled_at i : (1 <= i <= n)%nat -> exists d, read h i = Some d /\ ix d = i;
  settled_ix d : ix d <> 0%nat -> (1 <= ix d <= n)%nat /\ read h (ix d) = Some d;
  settled_order i : (2 <= i <= n)%nat -> ordered h (HEAP_PARENT i) i;
}.

Lemma placed_settled h ix n c x :
  placed h ix n c x -> (1 <= c <= n)%nat -> read h c = Some x ->
  (forall i, (2 <= i <= n)%nat -> ordered h (HEAP_PARENT i) i) ->
  settled h (index_set ix x c) n.
Proof.
  intros [Hat Hix] Hc Hx Hord. split; [| |done].
  - intros i Hi. destruct (decide (i = c)) as [->|Hic].
    + exists x. by rewrite index_set_eq.
    + destruct (Hat i Hi Hic) as (d & ? & ? & ?). exists d. by rewrite index_set_ne.
  - intros d. destruct (decide (d = x)) as [->|Hd].
    + by rewrite index_set_eq.
    + rewrite index_set_ne by done. intros Hd0. by destruct (Hix d Hd Hd0) as (? & ? & ?).
Qed.

Lemma bubble_loop_spec fuel : forall h ix c x n,
  (c <= fuel)%nat -> (1 <= c <= n)%nat -> (n < length (p h))%nat ->
  read h c = Some x -> placed h ix n c x -> order_above h n c ->
  exists h' ix', bubble_loop cmp fuel h ix c = Some (h', ix') /\
    same_shape h h' /\ settled h' ix' n /\ forall d, ix' d <> 0%nat <-> d = x \/ ix d <> 0%nat.
Proof.
  induction fuel as [|fuel IH]; intros h ix c x n Hf Hc Hlen Hx Hpl Hord; [lia|].
  assert (forall ix0, (forall d, index_set ix0 x c d <> 0%nat <-> d = x \/ ix0 d <> 0%nat)) as Hdom.
  { intros ix0 d. destruct (decide (d = x)) as [->|Hd].
    - rewrite index_set_eq. split; [by left|lia].
    - rewrite index_set_ne by done. split; [by right|by intros [?|?]]. }
  cbn [bubble_loop]. destruct (1 <? c)%nat eqn:E1; simpl_bool.
  2:{ rewrite (offset_set_eq _ _ _ _ Hx). exists h, (index_set ix x c). split; [done|].
      split; [apply same_shape_refl|]. split; [|done].
      apply placed_settled; [done..|]. intros i Hi. apply (above_order _ _ _ Hord); lia. }
  assert (1 <= HEAP_PARENT c < c)%nat as Hp by index_lia.
  destruct (placed_at _ _ _ _ _ Hpl (HEAP_PARENT c)) as (dp & Hdp & Hixp & Hne); [lia|lia|].
  rewrite Hdp, Hx. cbn [mbind option_bind]. destruct (cmp dp x <? 0) eqn:Ec; simpl_bool.
  - rewrite (offset_set_eq _ _ _ _ Hx). exists h, (index_set ix x c). split; [done|].
    split; [apply same_shape_refl|]. split; [|done].
    apply placed_settled; [done..|]. intros i Hi. destruct (decide (i = c)) as [->|Hic].
    + intros d e Hd He. simplify_eq. lia.
    + by apply (above_order _ _ _ Hord).
  - rewrite write_upd by lia. cbn [mbind option_bind].
    rewrite write_upd by (rewrite length_upd; lia). cbn [mbind option_bind].
    rewrite (offset_set_eq _ _ c dp).
    2:{ rewrite !read_upd, decide_False, decide_True by (rewrite ?length_upd; lia). done. }
    cbn [mbind option_bind].
    edestruct (IH (upd (upd h c dp) (HEAP_PARENT c) x) (index_set ix dp c) (HEAP_PARENT c) x n)
      as (h' & ix' & He & Hsh & Hset & Hd).
    + lia.
    + lia.
    + by rewrite !length_upd.
    + rewrite read_upd, decide_True by (rewrite ?length_upd; lia). done.
    + apply placed_swap; (done || lia).
    + apply order_swap; try (done || lia). by apply cmp_flip.
    + exists h', ix'. split; [done|]. split.
      { eapply same_shape_trans; [|done]. repeat apply same_shape_upd; try lia. apply same_shape_refl. }
      split; [done|]. intros d. rewrite Hd. destruct (decide (d = dp)) as [->|?].
      * rewrite index_set_eq. split; intros _; right; lia.
      * by rewrite index_set_ne.
Qed.

(** * Moving a hole down *)

Lemma placed_hole_step h ix n hole x c d :
  placed h ix n hole x -> (1 <= hole)%nat -> (hole < c <= n)%nat -> (n < length (p h))%nat ->
  read h c = Some d -> placed (upd h hole d) (index_set ix d hole) n c x.
Proof.
  intros [Hat Hix] Hh Hc Hlen Hd.
  destruct (Hat c) as (d' & Hd' & Hixd & Hdx); [lia|lia|].
  assert (d' = d) as -> by congruence.
  assert (forall j, read (upd h hole d) j = if decide (j = hole) then Some d else read h j) as Hr
    by (intros; apply read_upd; lia).
  split.
  - intros i Hi Hic. rewrite Hr. destruct (decide (i = hole)) as [->|Hih].
    + exists d. by rewrite index_set_eq.
    + destruct (Hat i Hi Hih) as (e & He & Hixe & Hex). exists e.
      rewrite index_set_ne; [done|]. congruence.
  - intros e Hex. destruct (decide (e = d)) as [->|Hed].
    + rewrite index_set_eq. intros _. rewrite Hr, decide_True by done. repeat split; lia.
    + rewrite index_set_ne by done. intros He0. destruct (Hix e Hex He0) as (? & ? & He).
      rewrite Hr, decide_False by done. repeat split; try done; try lia. congruence.
Qed.

Lemma order_hole_step h n hole c d :
  order_hole h n hole -> (1 <= hole)%nat -> (2 <= c <= n)%nat -> HEAP_PARENT c = hole ->
  (n < length (p h))%nat -> read h c = Some d ->
  (forall j, (j <= n)%nat -> HEAP_PARENT j = hole -> ordered h c j) ->
  order_hole (upd h hole d) n c.
Proof.
  intros [Hord Hby] Hh Hc Hpc Hlen Hd Hsib.
  assert (forall j, read (upd h hole d) j = if decide (j = hole) then Some d else read h j) as Hr
    by (intros; apply read_upd; index_lia).
  split.
  - intros i Hi Hic Hpi a b. rewrite !Hr. destruct (decide (i = hole)) as [->|Hih].
    + rewrite decide_False by index_lia. intros Ha [= <-]. by apply (Hby c); [lia|lia|done| |].
    + destruct (decide (HEAP_PARENT i = hole)) as [Hpih|Hpih].
      * intros [= <-] Hb. by apply (Hsib i); [lia|done| |].
      * intros Ha Hb. by apply (Hord i).
  - intros j _ Hj Hpj a b. rewrite !Hr, Hpc, decide_True by done.
    rewrite decide_False by index_lia. intros [= <-] Hb.
    apply (Hord j); [index_lia|index_lia|index_lia|by rewrite Hpj|done].
Qed.

(** The child the loop promotes is not after its sibling. *)
Lemma choose_child h ix n hole x :
  placed h ix n hole x -> (1 <= hole)%nat -> (2 * hole <= n)%nat -> Z.of_nat n < 2147483648 ->
  exists right : bool,
    (if negb (2 * hole =? n)%nat then
       dr ← read h (uint (2 * hole + 1)); dl ← read h (2 * hole)%nat; Some (cmp dr dl <? 0)
     else Some false) = Some right /\
    let c := if right then uint (2 * hole + 1) else (2 * hole)%nat in
    HEAP_PARENT c = hole /\ (2 <= c <= n)%nat /\
    forall j, (j <= n)%nat -> HEAP_PARENT j = hole -> ordered h c j.
Proof.
  intros [Hat _] Hh Hn Hbig.
  destruct (Hat (2 * hole)%nat) as (dl & Hdl & _); [lia|lia|].
  assert (forall j, HEAP_PARENT j = hole -> j = (2 * hole)%nat \/ j = (2 * hole + 1)%nat) as Hkids
    by (intros; index_lia).
  assert (HEAP_PARENT (2 * hole) = hole /\ HEAP_PARENT (2 * hole + 1) = hole) as [Hl Hr]
    by index_lia.
  assert (forall i d, read h i = Some d -> ordered h i i) as Hrefl.
  { intros i d Hd a b Ha Hb. simplify_eq. destruct (Z.le_gt_cases (cmp d d) 0); [done|].
    apply cmp_flip. lia. }
  destruct (2 * hole =? n)%nat eqn:E; simpl_bool; cbn [negb].
  - exists false. split; [done|]. cbv zeta. split; [done|]. split; [lia|].
    intros j Hj Hpj. destruct (Hkids j Hpj) as [-> | ->]; [by eapply Hrefl|lia].
  - rewrite uint_id by lia. destruct (Hat (2 * hole + 1)%nat) as (dr & Hdr & _); [lia|lia|].
    rewrite Hdr, Hdl. cbn [mbind option_bind]. exists (cmp dr dl <? 0). split; [done|].
    destruct (cmp dr dl <? 0) eqn:Ec; simpl_bool; cbv zeta.
    + split; [done|]. split; [lia|]. intros j Hj Hpj.
      destruct (Hkids j Hpj) as [-> | ->]; [|by eapply Hrefl]. intros a b Ha Hb. simplify_eq. lia.
    + split; [done|]. split; [lia|]. intros j Hj Hpj.
      destruct (Hkids j Hpj) as [-> | ->]; [by eapply Hrefl|]. intros a b Ha Hb. simplify_eq.
      by apply cmp_flip.
Qed.

Lemma extract_loop_spec fuel : forall h ix n hole x,
  (n - hole <= fuel)%nat -> (1 <= hole <= n)%nat -> (n < length (p h))%nat ->
  Z.of_nat n < 2147483648 -> ix x = 0%nat ->
  placed h ix n hole x -> order_hole h n hole ->
  exists h' ix' hole',
    extract_loop cmp fuel h ix n hole (HEAP_LEFT hole) = Some (h', ix', hole') /\
    same_shape h h' /\ (1 <= hole' <= n)%nat /\ (n < 2 * hole')%nat /\
    placed h' ix' n hole' x /\ order_hole h' n hole' /\
    ix' x = 0%nat /\ forall d, ix' d <> 0%nat <-> ix d <> 0%nat.
Proof.
  induction fuel as [|fuel IH]; intros h ix n hole x Hf Hh Hlen Hbig Hx Hpl Hord;
    unfold HEAP_LEFT; rewrite uint_id by lia; cbn [extract_loop];
    destruct (2 * hole <=? n)%nat eqn:E; simpl_bool; [lia| | |];
    [exists h, ix, hole; split_and!; (done || lia)| |
     exists h, ix, hole; split_and!; (done || lia)].
  destruct (choose_child h ix n hole x) as (right & Hright & Hpc & Hc & Hsib); [done|lia|lia|done|].
  rewrite Hright.
  cbn [mbind option_bind].
  set (c := if right then uint (2 * hole + 1) else (2 * hole)%nat) in *. clearbody c.
  assert (hole < c)%nat by index_lia.
  destruct (placed_at _ _ _ _ _ Hpl c) as (d & Hd & Hixd & Hdx); [lia|lia|].
  rewrite Hd. cbn [mbind option_bind]. rewrite write_upd by lia. cbn [mbind option_bind].
  rewrite (offset_set_eq _ _ hole d) by (by rewrite read_upd, decide_True by lia).
  cbn [mbind option_bind].
  destruct (IH (upd h hole d) (index_set ix d hole) n c x) 
    as (h' & ix' & hole' & Hl & Hsh & Hb & Hleaf & Hpl' & Hord' & Hx' & Hdom);
    [lia|lia|by rewrite length_upd|done|by rewrite index_set_ne| | |].
  - apply placed_hole_step; done || lia.
  - apply order_hole_step; done || lia.
  - rewrite Hl. exists h', ix', hole'. split; [done|]. split.
    { eapply same_shape_trans; [|done]. apply same_shape_upd; [apply same_shape_refl|lia]. }
    split; [done|]. split; [done|]. split; [done|]. split; [done|]. split; [done|].
    intros e. rewrite Hdom. destruct (decide (e = d)) as [->|?].
    + rewrite index_set_eq. lia.
    + by rewrite index_set_ne.
Qed.

(** * The operations *)

Lemma read_realloc mem h h' n i :
  realloc_heap mem h n = Some h' -> (i <= n)%nat -> (i < length (p h))%nat -> read h' i = read h i.
Proof.
  unfold realloc_heap. destruct mem; [|done]. intros [= <-] Hi Hl. unfold read; cbn [p].
  rewrite lookup_app_l by (rewrite length_take; lia). by rewrite lookup_take_lt by lia.
Qed.

Lemma realloc_shape mem h h' n :
  realloc_heap mem h n = Some h' -> (0 < length (p h))%nat ->
  size h' = n /\ min h' = min h /\ num_elements h' = num_elements h /\
  length (p h') = S n /\ p h' !! 0%nat = p h !! 0%nat.
Proof.
  unfold realloc_heap. destruct mem; [|done]. intros [= <-] Hl. cbn [size min num_elements p].
  rewrite length_app, length_take, length_replicate. split_and!; try done; [lia|].
  rewrite lookup_app_l by (rewrite length_take; lia). by rewrite lookup_take_lt by lia.
Qed.

(** The invariant only depends on the elements that are in use. *)
Lemma heap_inv_intro h ix :
  length (p h) = S (size h) -> (num_elements h <= size h)%nat ->
  (1 <= size h)%nat -> Z.of_nat (size h) < 2147483648 -> p h !! 0%nat = Some Sentinel ->
  settled h ix (num_elements h) -> heap_inv h ix.
Proof. intros ? ? ? ? ? []. by split. Qed.

Lemma parent_below i n : (2 <= i <= n)%nat -> (1 <= HEAP_PARENT i <= n)%nat.
Proof. intros. index_lia. Qed.

(** Room for one more element: the heap as it is, or a larger copy. *)
Lemma grow_spec mem h ix :
  heap_inv h ix -> Z.of_nat (num_elements h) < 1073741824 ->
  let grown :=
    if (size h <? uint (num_elements h + 1))%nat then
      let sz := Z.of_nat (size h) in
      if UINT_MAX - sz <? sz then
        if sz =? UINT_MAX then None else realloc_heap mem h (Z.to_nat UINT_MAX)
      else realloc_heap mem h (uint (size h * 2))
    else Some h in
  match grown with
  | None => mem = false
  | Some h' => heap_inv h' ix /\ num_elements h' = num_elements h /\ (num_elements h < size h')%nat
  end.
Proof.
  intros Hinv Hnum. pose proof Hinv as [Hal Hn Hsz Hsent Hat Hix Hord]. cbv zeta.
  rewrite (uint_id (num_elements h + 1)) by lia.
  destruct (size h <? num_elements h + 1)%nat eqn:E1; simpl_bool; [|split_and!; try done; lia].
  unfold UINT_MAX. rewrite (proj2 (Z.ltb_ge _ _)) by lia. rewrite uint_id by lia.
  destruct (realloc_heap mem h (size h * 2)) as [h'|] eqn:Er.
  2:{ unfold realloc_heap in Er. by destruct mem. }
  destruct (realloc_shape _ _ _ _ Er) as (Hs' & _ & Hn' & Hl' & H0'); [lia|].
  assert (forall i, (i <= num_elements h)%nat -> read h' i = read h i) as Hr.
  { intros i Hi. apply (read_realloc _ _ _ _ _ Er); lia. }
  split; [|lia]. split; rewrite ?Hs', ?Hn', ?H0'; try (done || lia).
  - intros i Hi. rewrite Hr by lia. by apply Hat.
  - intros d Hd. destruct (Hix d Hd). by rewrite Hr by lia.
  - intros i Hi a b. pose proof (parent_below i _ Hi). rewrite !Hr by lia. by apply Hord.
Qed.

Lemma insert_spec mem h ix data :
  heap_inv h ix -> Z.of_nat (num_elements h) < 1073741824 -> ix data = 0%nat ->
  exists r h' ix', fr_heap_insert cmp mem h ix data = Some (r, h', ix') /\ heap_inv h' ix' /\
    (r = 0 /\ num_elements h' = S (num_elements h) /\
       (forall d, ix' d <> 0%nat <-> d = data \/ ix d <> 0%nat) \/
     r = -1 /\ mem = false /\ h' = h /\ ix' = ix).
Proof.
  intros Hinv Hnum Hd. unfold fr_heap_insert, index_get, fr_heap_entry_inserted.
  rewrite Hd. cbn [negb Nat.eqb]. cbv zeta.
  pose proof (grow_spec mem h ix Hinv Hnum) as Hg. cbv zeta in Hg.
  destruct (if (size h <? _)%nat then _ else _) as [h1|].
  2:{ exists (-1), h, ix. split; [done|]. split; [done|]. by right. }
  destruct Hg as (Hinv1 & Hn1 & Hroom). destruct Hinv1 as [Hal Hn Hsz Hsent Hat Hix Hord].
  rewrite (uint_id (num_elements h + 1)) by lia.
  rewrite write_upd by lia. cbn [mbind option_bind].
  set (h2 := MkHeap _ _ _ _).
  assert (forall j, read h2 j = if decide (j = num_elements h + 1)%nat then Some data else read h1 j) as Hr.
  { intros j. unfold h2. rewrite <- (read_upd h1) by lia. done. }
  unfold fr_heap_bubble. rewrite (proj2 (Nat.eqb_neq _ _)) by lia.
  assert (num_elements h2 = S (num_elements h)) as Hn2.
  { cbn. rewrite Hn1, uint_id by lia. lia. }
  destruct (bubble_loop_spec (num_elements h + 1) h2 ix (num_elements h + 1) data (num_elements h + 1))
    as (h3 & ix3 & Hb & (Hs3 & _ & Hn3 & Hl3 & H03) & Hset & Hdom).
  - lia.
  - lia.
  - unfold h2; cbn [p]. rewrite length_upd. lia.
  - by rewrite Hr, decide_True.
  - split.
    + intros i Hi Hne. rewrite Hr, decide_False by done. destruct (Hat i) as (d & ? & ?); [lia|].
      exists d. split_and!; try done. intros ->. lia.
    + intros d Hne Hd0. destruct (Hix d Hd0) as [? ?]. rewrite Hr, decide_False by lia.
      split_and!; done || lia.
  - split.
    + intros i Hi Hne a b. pose proof (parent_below i _ Hi).
      assert (HEAP_PARENT i <> num_elements h + 1)%nat by index_lia.
      rewrite !Hr, !decide_False by lia. apply Hord. lia.
    + intros j H2 Hj Hpj. index_lia.
  - rewrite Hb. cbn [mbind option_bind]. exists 0, h3, ix3. split; [done|]. split.
    + apply heap_inv_intro; rewrite ?Hl3, ?Hs3, ?Hn3, ?H03, ?Hn2; unfold h2; cbn [p size upd];
        rewrite ?length_insert; try (done || lia).
      * rewrite list_lookup_insert_ne by lia. done.
      * by replace (S (num_elements h)) with (num_elements h + 1)%nat by lia.
    + left. split_and!; [done|lia|done].
Qed.

(** Shrinking keeps one element more than are counted, the last one that is
    still to be moved. *)
Lemma shrink_spec mem h :
  length (p h) = S (size h) -> (num_elements h + 1 <= size h)%nat -> Z.of_nat (size h) < 2147483648 ->
  let h' :=
    if (uint (num_elements h * 2) <? size h)%nat then
      let n_size := ROUND_UP_DIV (size h) 2 in
      if (min h <? n_size)%nat then
        match realloc_heap mem h n_size with
        | Some h' => h'
        | None => h
        end
      else h
    else h in
  length (p h') = S (size h') /\ (num_elements h + 1 <= size h')%nat /\
  Z.of_nat (size h') < 2147483648 /\ num_elements h' = num_elements h /\
  p h' !! 0%nat = p h !! 0%nat /\
  forall i, (i <= num_elements h + 1)%nat -> read h' i = read h i.
Proof.
  intros Hal Hn Hsz. cbv zeta. rewrite uint_id by lia.
  destruct (_ * 2 <? size h)%nat eqn:E1; simpl_bool; [|done].
  destruct (min h <? _)%nat eqn:E2; simpl_bool; [|done].
  assert (ROUND_UP_DIV (size h) 2 = 1 + (size h - 1) / 2)%nat as Hd.
  { unfold ROUND_UP_DIV. rewrite u32_id by (unfold is_u32; lia). do 2 f_equal. lia. }
  rewrite Hd in *. clear Hd.
  pose proof (Nat.div_mod (size h - 1) 2). pose proof (Nat.mod_upper_bound (size h - 1) 2).
  destruct (realloc_heap mem h _) as [h'|] eqn:Er; [|done].
  destruct (realloc_shape _ _ _ _ Er) as (Hs' & _ & Hn' & Hl' & H0'); [lia|].
  split_and!; [lia|lia|lia|lia|done|].
  intros i Hi. apply (read_realloc _ _ _ _ _ Er); lia.
Qed.

(** The hole ended at the last position: nothing has to be moved. *)
Lemma hole_last_settled h1 ix1 h3 x n :
  placed h1 ix1 (S n) (S n) x -> order_hole h1 (S n) (S n) -> ix1 x = 0%nat ->
  (forall i, (i <= S n)%nat -> read h3 i = read h1 i) -> settled h3 ix1 n.
Proof.
  intros Hpl Hord Hx Hr. split.
  - intros i Hi. destruct (placed_at _ _ _ _ _ Hpl i) as (d & ? & ? & ?); [lia|lia|].
    exists d. by rewrite Hr by lia.
  - intros d Hd0. assert (d <> x) by congruence.
    destruct (placed_ix _ _ _ _ _ Hpl d) as (? & ? & ?); [done|done|]. rewrite Hr by lia.
    split; [lia|done].
  - intros i Hi a b. pose proof (parent_below i _ Hi). rewrite !Hr by lia.
    apply (hole_order _ _ _ Hord); index_lia.
Qed.

(** The hole ended before the last position: the last element [y] moves into
    it and bubbles up. *)
Lemma hole_refill_spec h1 ix1 h3 x n hole :
  placed h1 ix1 (S n) hole x -> order_hole h1 (S n) hole -> ix1 x = 0%nat ->
  (1 <= hole <= n)%nat -> (S n < 2 * hole)%nat -> (S n < length (p h3))%nat ->
  (forall i, (i <= S n)%nat -> read h3 i = read h1 i) ->
  exists y h4 ix4, read h3 (S n) = Some y /\
    fr_heap_bubble cmp (upd h3 hole y) ix1 hole = Some (h4, ix4) /\ same_shape h3 h4 /\
    settled h4 ix4 n /\ forall d, ix4 d <> 0%nat <-> ix1 d <> 0%nat.
Proof.
  intros Hpl Hord Hx Hh Hleaf Hlen Hr.
  destruct (placed_at _ _ _ _ _ Hpl (S n)) as (y & Hy & Hixy & Hyx); [lia|lia|].
  exists y. unfold fr_heap_bubble.
  rewrite (proj2 (Nat.eqb_neq _ _)) by lia.
  assert (forall j, (j <= S n)%nat -> read (upd h3 hole y) j = if decide (j = hole) then Some y else read h1 j) as Hru.
  { intros j Hj. rewrite read_upd by lia. destruct (decide (j = hole)); [done|by apply Hr]. }
  destruct (bubble_loop_spec hole (upd h3 hole y) ix1 hole y n) as (h4 & ix4 & Hb & Hsh & Hset & Hdom);
    [lia|lia|rewrite length_upd; lia|by rewrite Hru, decide_True by lia| | |].
  - split.
    + intros i Hi Hne. rewrite Hru, decide_False by lia.
      destruct (placed_at _ _ _ _ _ Hpl i) as (d & ? & ? & ?); [lia|lia|].
      exists d. split_and!; try done. intros ->. lia.
    + intros d Hne Hd0. assert (d <> x) by congruence.
      destruct (placed_ix _ _ _ _ _ Hpl d) as (? & ? & Hrd); [done|done|].
      assert (ix1 d <> S n) by congruence. rewrite Hru, decide_False by lia.
      split_and!; done || lia.
  - split.
    + intros i Hi Hne a b. pose proof (parent_below i _ Hi).
      assert (HEAP_PARENT i <> hole) by index_lia.
      rewrite !Hru, !decide_False by lia. apply (hole_order _ _ _ Hord); done || lia.
    + intros j H2 Hj Hpj. index_lia.
  - exists h4, ix4. split; [by rewrite Hr by lia|]. split; [done|]. split.
    { eapply same_shape_trans; [|done]. apply same_shape_upd; [apply same_shape_refl|lia]. }
    split; [done|]. intros d. rewrite Hdom. split; [|by right]. intros [-> |?]; [lia|done].
Qed.

(** Taking an element out leaves a hole where it was. *)
Lemma remove_hole h ix data :
  heap_inv h ix -> ix data <> 0%nat ->
  placed h (index_set ix data 0) (num_elements h) (ix data) data /\
  order_hole h (num_elements h) (ix data).
Proof.
  intros [Hal Hn Hsz Hsent Hat Hix Hord] Hd. destruct (Hix data Hd) as [Hpos Hread]. split; split.
  - intros i Hi Hne. destruct (Hat i) as (d & Hrd & Hixd); [lia|]. exists d.
    assert (d <> data) by congruence. by rewrite index_set_ne.
  - intros d Hne. rewrite index_set_ne by done. intros Hd0. destruct (Hix d Hd0) as [? Hrd].
    split_and!; try (done || lia). congruence.
  - intros i Hi _ _. by apply Hord.
  - intros j H2 Hj Hpj a b Ha Hb.
    apply (cmp_trans _ data); [by apply (Hord (ix data)); [lia| |]|].
    apply (Hord j); [index_lia| |done]. by rewrite Hpj.
Qed.

Lemma extract_spec mem h ix data :
  heap_inv h ix -> ix data <> 0%nat ->
  exists h' ix', fr_heap_extract cmp mem h ix data = Some (0, h', ix') /\ heap_inv h' ix' /\
    S (num_elements h') = num_elements h /\
    forall d, ix' d <> 0%nat <-> ix d <> 0%nat /\ d <> data.
Proof.
  intros Hinv Hd. destruct (remove_hole h ix data Hinv Hd) as [Hpl0 Hord0].
  destruct Hinv as [Hal Hn Hsz Hsent Hat Hix Hord]. destruct (Hix data Hd) as [Hpos Hread].
  unfold fr_heap_extract, index_get. rewrite (proj2 (Nat.eqb_neq _ _)) by done.
  rewrite (proj2 (Nat.ltb_ge _ _)) by lia. cbn [orb]. rewrite Hread. cbn [mbind option_bind].
  rewrite Nat.eqb_refl. cbn [negb]. unfold OFFSET_RESET. rewrite Hread. cbn [mbind option_bind]. cbv zeta.
  assert (forall d, index_set ix data 0 d <> 0%nat <-> ix d <> 0%nat /\ d <> data) as Hdom0.
  { intros d. destruct (decide (d = data)) as [->|?].
    - rewrite index_set_eq. split; [lia|by intros [_ ?]].
    - rewrite index_set_ne by done. split; [done|by intros [? _]]. }
  destruct (num_elements h) as [|n] eqn:En; [lia|].
  destruct (extract_loop_spec (S n) h (index_set ix data 0) (S n) (ix data) data)
    as (h1 & ix1 & hole & Hl & (Hs1 & Hm1 & Hn1 & Hl1 & H01) & Hhole & Hleaf & Hpl & Horder & Hx & Hdom);
    [lia|lia|lia|lia|apply index_set_eq|done|done|].
  rewrite Hl. cbn [mbind option_bind].
  set (h2 := MkHeap (size h1) (min h1) _ (p h1)).
  assert (num_elements h2 = n) as Hn2 by (unfold h2; cbn [num_elements]; lia).
  assert (size h2 = size h1 /\ p h2 = p h1) as [Hs2 Hp2] by done.
  pose proof (shrink_spec mem h2) as Hsh. cbv zeta in Hsh.
  set (h3 := if (uint (num_elements h2 * 2) <? size h2)%nat then _ else _) in *.
  destruct Hsh as (Hl3 & Hroom & Hsz3 & Hn3 & H03 & Hr3); [rewrite Hp2; lia|lia|lia|].
  assert (forall i, (i <= S n)%nat -> read h3 i = read h1 i) as Hr.
  { intros i Hi. rewrite Hr3 by lia. done. }
  rewrite Hp2, H01, Hsent in H03. clearbody h3. clear Hr3.
  destruct (hole =? S n)%nat eqn:Eh; simpl_bool; cbn [negb].
  - subst hole. exists h3, ix1. split; [done|]. split; [|split; [lia|intros d; by rewrite Hdom]].
    apply heap_inv_intro; try (done || lia). rewrite Hn3, Hn2. by eapply hole_last_settled.
  - destruct (hole_refill_spec h1 ix1 h3 data n hole) as (y & h4 & ix4 & Hy & Hb & (Hs4 & _ & Hn4 & Hl4 & H04) & Hset & Hdom4);
      try (done || lia).
    rewrite Hy. cbn [mbind option_bind]. rewrite write_upd by lia. cbn [mbind option_bind].
    rewrite Hb. cbn [mbind option_bind]. exists h4, ix4. split; [done|].
    split; [|split; [lia|intros d; by rewrite Hdom4, Hdom]].
    apply heap_inv_intro; try lia; [congruence|]. by rewrite Hn4, Hn3, Hn2.
Qed.

Lemma root_minimum h ix m :
  heap_inv h ix -> read h 1 = Some m -> forall d, ix d <> 0%nat -> cmp m d <= 0.
Proof.
  intros [Hal Hn Hsz Hsent Hat Hix Hord] Hm.
  assert (forall i d, (1 <= i <= num_elements h)%nat -> read h i = Some d -> cmp m d <= 0) as Hall.
  { intros i. induction (lt_wf i) as [i _ IH]. intros d Hi Hd.
    destruct (decide (i = 1)%nat) as [->|Hi1].
    - simplify_eq. destruct (Z.le_gt_cases (cmp m m) 0); [done|]. apply cmp_flip. lia.
    - pose proof (parent_below i (num_elements h)) as Hp.
      destruct (Hat (HEAP_PARENT i)) as (e & He & _); [lia|].
      apply (cmp_trans _ e); [apply (IH (HEAP_PARENT i)); [index_lia|lia|done]|].
      by apply (Hord i); [lia| |]. }
  intros d Hd. destruct (Hix d Hd). by apply (Hall (ix d)).
Qed.

Lemma empty_iff h ix : heap_inv h ix -> num_elements h = 0%nat <-> forall d, ix d = 0%nat.
Proof.
  intros [Hal Hn Hsz Hsent Hat Hix Hord]. split.
  - intros H0 d. destruct (decide (ix d = 0%nat)) as [?|Hd]; [done|]. destruct (Hix d Hd). lia.
  - intros Hall. destruct (num_elements h) as [|n] eqn:E; [done|].
    destruct (Hat 1%nat) as (d & _ & Hd); [lia|]. by rewrite Hall in Hd.
Qed.

Lemma pop_spec mem h ix :
  heap_inv h ix -> num_elements h <> 0%nat ->
  exists m h' ix', fr_heap_pop cmp mem h ix = Some (Some m, h', ix') /\ heap_inv h' ix' /\
    S (num_elements h') = num_elements h /\
    ix m <> 0%nat /\ (forall d, ix d <> 0%nat -> cmp m d <= 0) /\
    forall d, ix' d <> 0%nat <-> ix d <> 0%nat /\ d <> m.
Proof.
  intros Hinv Hn. destruct (inv_at _ _ Hinv 1%nat) as (m & Hm & Hixm); [lia|].
  assert (ix m <> 0%nat) as Hm0 by lia.
  destruct (extract_spec mem h ix m Hinv Hm0) as (h' & ix' & He & Hinv' & Hn' & Hdom).
  exists m, h', ix'. unfold fr_heap_pop. rewrite (proj2 (Nat.eqb_neq _ _) Hn), Hm.
  cbn [mbind option_bind]. rewrite He. split_and!; try done. by eapply root_minimum.
Qed.

(** * Refinement of a set with extraction of a minimum *)

Inductive op :=
  | Insert (mem : bool) (d : ptr)
  | Extract (mem : bool) (d : ptr)
  | Pop (mem : bool).

Inductive reply :=
  | Code (r : Z)
  | Item (d : option ptr).

Definition exec (o : op) (h : fr_heap_t) (ix : indexes) : option (reply * fr_heap_t * indexes) :=
  match o with
  | Insert mem d => '(r, h, ix) ← fr_heap_insert cmp mem h ix d; Some (Code r, h, ix)
  | Extract mem d => '(r, h, ix) ← fr_heap_extract cmp mem h ix d; Some (Code r, h, ix)
  | Pop mem => '(r, h, ix) ← fr_heap_pop cmp mem h ix; Some (Item r, h, ix)
  end.

(** What the header promises, on the set of elements that are in the heap. *)
Inductive spec_step (S : ptr -> Prop) : op -> reply -> (ptr -> Prop) -> Prop :=
  | spec_insert mem d S' :
      ~ S d -> (forall e, S' e <-> e = d \/ S e) -> spec_step S (Insert mem d) (Code 0) S'
  | spec_insert_oom d S' :
      ~ S d -> (forall e, S' e <-> S e) -> spec_step S (Insert false d) (Code (-1)) S'
  | spec_insert_twice mem d S' :
      S d -> (forall e, S' e <-> S e) -> spec_step S (Insert mem d) (Code (-1)) S'
  | spec_extract mem d S' :
      S d -> (forall e, S' e <-> S e /\ e <> d) -> spec_step S (Extract mem d) (Code 0) S'
  | spec_extract_absent mem d S' :
      ~ S d -> (forall e, S' e <-> S e) -> spec_step S (Extract mem d) (Code (-1)) S'
  | spec_pop mem m S' :
      S m -> (forall e, S e -> cmp m e <= 0) -> (forall e, S' e <-> S e /\ e <> m) ->
      spec_step S (Pop mem) (Item (Some m)) S'
  | spec_pop_empty mem S' :
      (forall e, ~ S e) -> (forall e, S' e <-> S e) -> spec_step S (Pop mem) (Item None) S'.

Definition inserted (ix : indexes) (d : ptr) : Prop := ix d <> 0%nat.

Lemma exec_refines o h ix :
  heap_inv h ix -> Z.of_nat (num_elements h) < 1073741824 ->
  exists r h' ix', exec o h ix = Some (r, h', ix') /\ heap_inv h' ix' /\
    (num_elements h' <= S (num_elements h))%nat /\ spec_step (inserted ix) o r (inserted ix').
Proof.
  intros Hinv Hn. destruct o as [mem d|mem d|mem]; cbn [exec].
  - destruct (decide (ix d = 0%nat)) as [Hd|Hd].
    + destruct (insert_spec mem h ix d Hinv Hn Hd) as (r & h' & ix' & -> & Hinv' & [(-> & Hn' & Hdom)|(-> & -> & -> & ->)]);
        eexists _, _, _; (split; [done|]); (split; [done|]); (split; [lia|]).
      * by apply spec_insert; [intros ?|].
      * by apply spec_insert_oom; [intros ?|].
    + exists (Code (-1)), h, ix. unfold fr_heap_insert, fr_heap_entry_inserted, index_get.
      rewrite (proj2 (Nat.eqb_neq _ _) Hd). split_and!; [done|done|lia|]. by apply spec_insert_twice.
  - destruct (decide (ix d = 0%nat)) as [Hd|Hd].
    + exists (Code (-1)), h, ix. unfold fr_heap_extract, index_get. rewrite Hd.
      split_and!; [done|done|lia|]. by apply spec_extract_absent; [intros ?|].
    + destruct (extract_spec mem h ix d Hinv Hd) as (h' & ix' & -> & Hinv' & Hn' & Hdom).
      eexists _, _, _. split; [done|]. split_and!; [done|lia|]. by apply spec_extract.
  - destruct (decide (num_elements h = 0%nat)) as [H0|H0].
    + exists (Item None), h, ix. unfold fr_heap_pop. rewrite H0. split_and!; [done|done|lia|].
      apply spec_pop_empty; [|done]. intros e He. apply He. by apply (empty_iff h ix Hinv).
    + destruct (pop_spec mem h ix Hinv H0) as (m & h' & ix' & -> & Hinv' & Hn' & Hm & Hmin & Hdom).
      eexists _, _, _. split; [done|]. split_and!; [done|lia|]. by apply spec_pop.
Qed.

Fixpoint run (os : list op) (h : fr_heap_t) (ix : indexes) : option (list reply * fr_heap_t * indexes) :=
  match os with
  | [] => Some ([], h, ix)
  | o :: os =>
      '(r, h, ix) ← exec o h ix;
      '(rs, h, ix) ← run os h ix;
      Some (r :: rs, h, ix)
  end.

Inductive spec_run (S : ptr -> Prop) : list op -> list reply -> (ptr -> Prop) -> Prop :=
  | spec_run_nil S' : (forall e, S' e <-> S e) -> spec_run S [] [] S'
  | spec_run_cons o os r rs S1 S' :
      spec_step S o r S1 -> spec_run S1 os rs S' -> spec_run S (o :: os) (r :: rs) S'.

Lemma run_refines os : forall h ix,
  heap_inv h ix -> Z.of_nat (num_elements h + length os) < 1073741824 ->
  exists rs h' ix', run os h ix = Some (rs, h', ix') /\ heap_inv h' ix' /\
    spec_run (inserted ix) os rs (inserted ix').
Proof.
  induction os as [|o os IH]; intros h ix Hinv Hlen; cbn [run].
  - exists [], h, ix. split_and!; [done|done|by constructor].
  - cbn [length] in Hlen.
    destruct (exec_refines o h ix Hinv) as (r & h1 & ix1 & -> & Hinv1 & Hn1 & Hs); [lia|].
    destruct (IH h1 ix1 Hinv1) as (rs & h2 & ix2 & Hr & Hinv2 & Hs2); [lia|].
    cbn [mbind option_bind]. rewrite Hr. exists (r :: rs), h2, ix2.
    split_and!; [done|done|by econstructor].
Qed.

Lemma alloc_inv mem init h :
  Z.of_nat init < 2147483648 -> fr_heap_alloc mem init = Some h ->
  heap_inv h (fun _ => 0%nat) /\ num_elements h = 0%nat.
Proof.
  unfold fr_heap_alloc, INITIAL_CAPACITY. intros Hi Ha. destruct mem; cbn [negb] in Ha; [|done].
  injection Ha as <-. split; [|done].
  apply heap_inv_intro; cbn [p size num_elements length]; rewrite ?length_replicate; try done; try lia;
    try (destruct (init =? 0)%nat eqn:E; simpl_bool; lia).
  split; intros; lia.
Qed.

(** * The consistency check and the iterator *)

Lemma verify_indexes_ok n : forall i h ix,
  (forall j, (i <= j < i + n)%nat -> exists d, read h j = Some d /\ ix d = j) ->
  verify_indexes n i h ix = Some true.
Proof.
  induction n as [|n IH]; intros i h ix Hat; [done|]. cbn [verify_indexes].
  destruct (Hat i) as (d & Hd & Hi); [lia|]. rewrite Hd. cbn [mbind option_bind].
  unfold index_get. rewrite Hi, Nat.eqb_refl. cbn [negb]. apply IH.
  intros j Hj. apply Hat. lia.
Qed.

Lemma verify_order_ok fuel : forall i h ix,
  heap_inv h ix -> (1 <= i)%nat -> (num_elements h + 1 <= i + fuel - 1)%nat ->
  (2 * i <= num_elements h + 2)%nat -> (0 < fuel)%nat ->
  verify_order cmp fuel i h = Some true.
Proof.
  induction fuel as [|fuel IH]; intros i h ix Hinv Hi Hf Hle H0; [lia|].
  pose proof Hinv as [Hal Hn Hsz Hsent Hat Hix Hord]. cbn [verify_order].
  unfold HEAP_LEFT, HEAP_RIGHT. rewrite !uint_id by lia.
  destruct (num_elements h <? 2 * i)%nat eqn:E1; simpl_bool; [done|].
  destruct (Hat i) as (d & Hd & _); [lia|]. destruct (Hat (2 * i)%nat) as (l & Hl & _); [lia|].
  rewrite Hd, Hl. cbn [mbind option_bind].
  assert (HEAP_PARENT (2 * i) = i /\ HEAP_PARENT (2 * i + 1) = i) as [Hp1 Hp2] by index_lia.
  rewrite (proj2 (Z.leb_le _ _)) by (apply (Hord (2 * i)%nat); [lia|by rewrite Hp1|done]). cbn [negb].
  destruct (num_elements h <? 2 * i + 1)%nat eqn:E2; simpl_bool; [done|].
  destruct (Hat (2 * i + 1)%nat) as (r & Hr & _); [lia|]. rewrite Hr. cbn [mbind option_bind].
  rewrite (proj2 (Z.leb_le _ _)) by (apply (Hord (2 * i + 1)%nat); [lia|by rewrite Hp2|done]). cbn [negb].
  rewrite ?uint_id by lia. apply (IH _ _ ix); done || lia.
Qed.

Lemma verify_ok h ix : heap_inv h ix -> fr_heap_verify cmp h ix = Some true.
Proof.
  intros Hinv. pose proof Hinv as [Hal Hn Hsz Hsent Hat Hix Hord]. unfold fr_heap_verify.
  rewrite (proj2 (Nat.leb_le _ _) Hn), Hsent. cbn [negb].
  rewrite verify_indexes_ok by (intros; apply Hat; lia). cbn [mbind option_bind negb].
  apply (verify_order_ok _ _ _ ix); done || lia.
Qed.

Lemma foreach_from_spec fuel : forall i h ix d,
  heap_inv h ix -> (1 <= i <= num_elements h)%nat -> (num_elements h < i + fuel)%nat ->
  read h i = Some d ->
  exists l, foreach_from fuel h (Some d, i) = Some l /\
    length l = (num_elements h - i + 1)%nat /\
    forall k e, l !! k = Some e -> read h (i + k) = Some e.
Proof.
  induction fuel as [|fuel IH]; intros i h ix d Hinv Hi Hf Hd; [lia|].
  pose proof Hinv as [Hal Hn Hsz Hsent Hat Hix Hord]. cbn [foreach_from].
  unfold fr_heap_iter_next. rewrite uint_id by lia.
  destruct (num_elements h <? i + 1)%nat eqn:E; simpl_bool.
  - exists [d]. cbn [mbind option_bind]. destruct fuel; cbn [foreach_from mbind option_bind];
      (split; [done|]); (split; [cbn [length]; lia|]); intros [|k] e; cbn; intros; simplify_eq;
      by rewrite Nat.add_0_r.
  - destruct (Hat (i + 1)%nat) as (d' & Hd' & _); [lia|]. rewrite Hd'. cbn [mbind option_bind].
    destruct (IH (i + 1)%nat h ix d' Hinv) as (l & -> & Hlen & Hl); [lia|lia|done|].
    exists (d :: l). split; [done|]. split; [cbn [length]; lia|].
    intros [|k] e; cbn [lookup list_lookup]; intros He.
    + simplify_eq. by rewrite Nat.add_0_r.
    + replace (i + S k)%nat with (i + 1 + k)%nat by lia. by apply Hl.
Qed.

Lemma foreach_spec h ix :
  heap_inv h ix ->
  exists l, fr_heap_foreach h = Some l /\ NoDup l /\ forall d, d ∈ l <-> inserted ix d.
Proof.
  intros Hinv. pose proof Hinv as [Hal Hn Hsz Hsent Hat Hix Hord].
  unfold fr_heap_foreach, fr_heap_iter_init.
  destruct (num_elements h =? 0)%nat eqn:E; simpl_bool.
  - exists []. split; [done|]. split; [constructor|]. intros d.
    split; [by intros ?%elem_of_nil|]. intros Hd. exfalso. apply Hd. by apply (empty_iff h ix Hinv).
  - destruct (Hat 1%nat) as (d1 & Hd1 & _); [lia|]. rewrite Hd1. cbn [mbind option_bind].
    destruct (foreach_from_spec (S (num_elements h)) 1 h ix d1 Hinv) as (l & Hl & Hlen & Hget); [lia|lia|done|].
    exists l. split; [done|]. split.
    + apply NoDup_alt. intros i j e Hi Hj. apply Hget in Hi as Hi', Hj as Hj'.
      apply lookup_lt_Some in Hi, Hj.
      destruct (Hat (1 + i)%nat) as (a & ? & ?); [lia|]. destruct (Hat (1 + j)%nat) as (b & ? & ?); [lia|].
      assert (a = e /\ b = e) as [-> ->] by (split; congruence). lia.
    + intros d. rewrite list_elem_of_lookup. split.
      * intros [k Hk]. pose proof (Hget _ _ Hk) as Hr. apply lookup_lt_Some in Hk.
        destruct (Hat (1 + k)%nat) as (e & He & Hie); [lia|].
        assert (e = d) as -> by congruence. unfold inserted. lia.
      * intros Hd. destruct (Hix d Hd) as [Hb Hr].
        destruct (lookup_lt_is_Some_2 l (ix d - 1)) as [e He]; [lia|].
        exists (ix d - 1)%nat. rewrite He. f_equal. apply Hget in He.
        replace (1 + (ix d - 1))%nat with (ix d) in He by lia. congruence.
Qed.

(** C4: a heap from fr_heap_alloc implements a set with extraction of a
    minimum.  For every sequence of inserts, extracts and pops, with every
    pattern of allocation failures, the code makes no access outside the array
    it has allocated and never reads an entry that was not written, and the
    replies are those of the specification: an element goes in once and comes
    out once, a pop returns an element no other element precedes, and only
    growing can fail. *)
Theorem heap_refines_set mem init h os :
  Z.of_nat init < 2147483648 -> Z.of_nat (length os) < 1073741824 ->
  fr_heap_alloc mem init = Some h ->
  exists rs h' ix', run os h (fun _ => 0%nat) = Some (rs, h', ix') /\
    spec_run (fun d => inserted (fun _ => 0%nat) d) os rs (inserted ix').
Proof.
  intros Hi Hl Ha. apply alloc_inv in Ha as [Hinv Hn]; [|done].
  destruct (run_refines os h _ Hinv) as (rs & h' & ix' & ? & ? & ?); [lia|]. by exists rs, h', ix'.
Qed.

(** in every state a sequence of operations reaches, fr_heap_verify passes
    all its assertions and iterating over the heap visits each inserted element
    exactly once. *)
Theorem heap_verify_foreach mem init h os rs h' ix' :
  Z.of_nat init < 2147483648 -> Z.of_nat (length os) < 1073741824 ->
  fr_heap_alloc mem init = Some h -> run os h (fun _ => 0%nat) = Some (rs, h', ix') ->
  fr_heap_verify cmp h' ix' = Some true /\
  exists l, fr_heap_foreach h' = Some l /\ NoDup l /\ forall d, d ∈ l <-> inserted ix' d.
Proof.
  intros Hi Hl Ha Hr. apply alloc_inv in Ha as [Hinv Hn]; [|done].
  destruct (run_refines os h _ Hinv) as (rs2 & h2 & ix2 & Hr2 & Hinv2 & _); [lia|].
  rewrite Hr in Hr2. simplify_eq. split; [by apply verify_ok|by apply foreach_spec].
Qed.
End Order.

(** Witnesses: objects ordered by their address, a heap that has to grow from
    two entries and shrinks again. *)
Definition cmp_address (a b : ptr) : Z := Z.sgn (Z.of_nat a - Z.of_nat b).

#[local] Instance cmp_address_order : HeapOrder cmp_address.
Proof. split; unfold cmp_address; intros; lia. Qed.

Definition sample_ops : list op :=
  [Insert true 5%nat; Insert true 3%nat; Insert false 4%nat; Insert true 9%nat; Insert true 3%nat;
   Pop true; Extract true 9%nat; Pop true; Pop true].

Lemma heap_refines_set_witness :
  exists rs h' ix', run cmp_address sample_ops (MkHeap 2 2 0 [Sentinel; Uninit; Uninit]) (fun _ => 0%nat) = Some (rs, h', ix') /\
    spec_run cmp_address (fun d => inserted (fun _ => 0%nat) d) sample_ops rs (inserted ix').
Proof. by apply (heap_refines_set cmp_address true 2). Defined.

Lemma heap_verify_foreach_witness :
  exists rs h' ix', run cmp_address (take 5 sample_ops) (MkHeap 2 2 0 [Sentinel; Uninit; Uninit]) (fun _ => 0%nat) = Some (rs, h', ix') /\
    fr_heap_verify cmp_address h' ix' = Some true /\
    exists l, fr_heap_foreach h' = Some l /\ NoDup l /\ forall d, d ∈ l <-> inserted ix' d.
Proof.
  eexists _, _, _. split; [vm_compute; reflexivity|].
  by eapply (heap_verify_foreach cmp_address true 2 (MkHeap 2 2 0 [Sentinel; Uninit; Uninit]) (take 5 sample_ops)).
Defined.
End Heap.
