(* ===== verification/RadiusPacket.v ===== *)
(** The packet layer of src/protocols/radius/base.c: validation, signing and
    verification of RADIUS packets, the table of allowed replies and the
    checks at the start of decoding.  A packet is the buffer the functions are
    given; an access outside it has the result [None].  Digests go through the
    interface of BlockHash. *)

From S2P Require Import Prelude BlockHash Md5 Hmac.

Module RadiusPacket.

Abbreviation RADIUS_HEADER_LENGTH := 20%nat (only parsing).
Abbreviation RADIUS_AUTH_VECTOR_LENGTH := 16%nat (only parsing).
Abbreviation MAX_PACKET_LEN := 4096%Z (only parsing).

(** [fr_radius_packet_code_t] *)
Abbreviation FR_RADIUS_CODE_ACCESS_REQUEST := 1 (only parsing).
Abbreviation FR_RADIUS_CODE_ACCESS_ACCEPT := 2 (only parsing).
Abbreviation FR_RADIUS_CODE_ACCESS_REJECT := 3 (only parsing).
Abbreviation FR_RADIUS_CODE_ACCOUNTING_REQUEST := 4 (only parsing).
Abbreviation FR_RADIUS_CODE_ACCOUNTING_RESPONSE := 5 (only parsing).
Abbreviation FR_RADIUS_CODE_ACCESS_CHALLENGE := 11 (only parsing).
Abbreviation FR_RADIUS_CODE_STATUS_SERVER := 12 (only parsing).
Abbreviation FR_RADIUS_CODE_DISCONNECT_REQUEST := 40 (only parsing).
Abbreviation FR_RADIUS_CODE_DISCONNECT_ACK := 41 (only parsing).
Abbreviation FR_RADIUS_CODE_DISCONNECT_NAK := 42 (only parsing).
Abbreviation FR_RADIUS_CODE_COA_REQUEST := 43 (only parsing).
Abbreviation FR_RADIUS_CODE_COA_ACK := 44 (only parsing).
Abbreviation FR_RADIUS_CODE_COA_NAK := 45 (only parsing).
Abbreviation FR_RADIUS_CODE_PROTOCOL_ERROR := 52 (only parsing).
Abbreviation FR_RADIUS_CODE_MAX := 53%Z (only parsing).

(** Attribute numbers of the dictionary that the packet layer names. *)
Definition FR_PROXY_STATE : Z := 33.
Definition FR_EAP_MESSAGE : Z := 79.
Definition FR_MESSAGE_AUTHENTICATOR : Z := 80.

(** [fr_radius_decode_fail_t] *)
Inductive fr_radius_decode_fail_t :=
  | DECODE_FAIL_NONE
  | DECODE_FAIL_MIN_LENGTH_PACKET
  | DECODE_FAIL_MAX_LENGTH_PACKET
  | DECODE_FAIL_MIN_LENGTH_FIELD
  | DECODE_FAIL_MIN_LENGTH_MISMATCH
  | DECODE_FAIL_HEADER_OVERFLOW
  | DECODE_FAIL_UNKNOWN_PACKET_CODE
  | DECODE_FAIL_INVALID_ATTRIBUTE
  | DECODE_FAIL_ATTRIBUTE_TOO_SHORT
  | DECODE_FAIL_ATTRIBUTE_OVERFLOW
  | DECODE_FAIL_MA_INVALID_LENGTH
  | DECODE_FAIL_ATTRIBUTE_UNDERFLOW
  | DECODE_FAIL_TOO_MANY_ATTRIBUTES
  | DECODE_FAIL_MA_MISSING
  | DECODE_FAIL_MA_INVALID
  | DECODE_FAIL_VERIFY
  | DECODE_FAIL_UNKNOWN.

#[global] Instance fail_eq_dec : EqDecision fr_radius_decode_fail_t.
Proof. solve_decision. Defined.

(** [fr_nbo_to_uint16(packet + off)] *)
Definition fr_nbo_to_uint16 (packet : bytes) (off : nat) : option nat :=
  hi ← packet !! off;
  lo ← packet !! (off + 1)%nat;
  Some (Z.to_nat (hi * 256 + lo)).

(** [memcpy(packet + off, src, ...)] and reading [n] bytes at [packet + off]. *)
Definition store (packet : bytes) (off : nat) (src : bytes) : option bytes :=
  if (off + length src <=? length packet)%nat then Some (splice packet off src) else None.

Definition load (packet : bytes) (off n : nat) : option bytes :=
  if (off + n <=? length packet)%nat then Some (take n (drop off packet)) else None.

(** ** fr_radius_ok *)

(** The values the attribute loop ends with. *)
Record walk := MkWalk {
  w_attr : nat;
  w_num_attributes : Z;
  w_seen_ma : bool;
  w_require_ma : bool;
}.

Fixpoint ok_loop (fuel : nat) (packet : bytes) (end_ : nat) (w : walk)
  : option (fr_radius_decode_fail_t + walk) :=
  let attr := w_attr w in
  if (attr <? end_)%nat then
    match fuel with
    | O => None
    | S fuel =>
        if (end_ - attr <? 2)%nat then Some (inl DECODE_FAIL_HEADER_OVERFLOW) else
        a0 ← packet !! attr;
        if a0 =? 0 then Some (inl DECODE_FAIL_INVALID_ATTRIBUTE) else
        a1 ← packet !! (attr + 1)%nat;
        if a1 <? 2 then Some (inl DECODE_FAIL_ATTRIBUTE_TOO_SHORT) else
        if (end_ <? attr + Z.to_nat a1)%nat then Some (inl DECODE_FAIL_ATTRIBUTE_OVERFLOW) else
        let next seen req :=
          ok_loop fuel packet end_
            (MkWalk (attr + Z.to_nat a1) (u32 (w_num_attributes w + 1)) seen req) in
        if a0 =? FR_EAP_MESSAGE then next (w_seen_ma w) true
        else if a0 =? FR_MESSAGE_AUTHENTICATOR then
          if negb (a1 =? 2 + Z.of_nat RADIUS_AUTH_VECTOR_LENGTH)
          then Some (inl DECODE_FAIL_MA_INVALID_LENGTH)
          else next true (w_require_ma w)
        else next (w_seen_ma w) (w_require_ma w)
    end
  else Some (inr w).

(** The reason, and the packet length as the function leaves it. *)
Definition fr_radius_ok (packet : bytes) (packet_len : nat) (max_attributes : Z)
    (require_message_authenticator : bool) : option (fr_radius_decode_fail_t * nat) :=
  if (packet_len <? RADIUS_HEADER_LENGTH)%nat then Some (DECODE_FAIL_MIN_LENGTH_PACKET, packet_len) else
  totallen ← fr_nbo_to_uint16 packet 2;
  code ← packet !! 0%nat;
  if (code =? 0) || (FR_RADIUS_CODE_MAX <=? code)
  then Some (DECODE_FAIL_UNKNOWN_PACKET_CODE, packet_len) else
  let require_ma :=
    if code =? FR_RADIUS_CODE_STATUS_SERVER then true
    else if (code =? FR_RADIUS_CODE_ACCESS_REQUEST) || (code =? FR_RADIUS_CODE_ACCESS_ACCEPT) ||
            (code =? FR_RADIUS_CODE_ACCESS_CHALLENGE) || (code =? FR_RADIUS_CODE_ACCESS_REJECT)
    then require_message_authenticator
    else false in
  if (totallen <? RADIUS_HEADER_LENGTH)%nat then Some (DECODE_FAIL_MIN_LENGTH_FIELD, packet_len) else
  if (packet_len <? totallen)%nat then Some (DECODE_FAIL_MIN_LENGTH_MISMATCH, packet_len) else
  let packet_len := if (totallen <? packet_len)%nat then totallen else packet_len in
  walked ← ok_loop packet_len packet packet_len (MkWalk RADIUS_HEADER_LENGTH 0 false require_ma);
  match walked with
  | inl failure => Some (failure, packet_len)
  | inr w =>
      if negb (w_attr w =? packet_len)%nat then Some (DECODE_FAIL_ATTRIBUTE_UNDERFLOW, packet_len) else
      if (0 <? max_attributes) && (max_attributes <? w_num_attributes w)
      then Some (DECODE_FAIL_TOO_MANY_ATTRIBUTES, packet_len) else
      if w_require_ma w && negb (w_seen_ma w) then Some (DECODE_FAIL_MA_MISSING, packet_len) else
      Some (DECODE_FAIL_NONE, packet_len)
  end.

(** ** fr_radius_sign *)

Inductive scan :=
  | ScanInvalid                 (* an attribute that does not fit *)
  | ScanTooSmall                (* a Message-Authenticator shorter than 18 *)
  | ScanEnd                     (* no Message-Authenticator *)
  | ScanFound (msg : nat).

#[global] Instance scan_eq_dec : EqDecision scan.
Proof. solve_decision. Defined.

Fixpoint sign_scan (fuel : nat) (packet : bytes) (end_ msg : nat) : option scan :=
  if (msg <? end_)%nat then
    match fuel with
    | O => None
    | S fuel =>
        if (end_ - msg <? 2)%nat then Some ScanInvalid else
        m0 ← packet !! msg;
        m1 ← packet !! (msg + 1)%nat;
        if negb (m0 =? FR_MESSAGE_AUTHENTICATOR) then
          if m1 <? 2 then Some ScanInvalid else
          if (end_ <? msg + Z.to_nat m1)%nat then Some ScanInvalid else
          sign_scan fuel packet end_ (msg + Z.to_nat m1)
        else if m1 <? 18 then Some ScanTooSmall
        else Some (ScanFound msg)
    end
  else Some ScanEnd.

Definition is_request_signed (code : Z) : bool :=
  (code =? FR_RADIUS_CODE_ACCOUNTING_REQUEST) || (code =? FR_RADIUS_CODE_DISCONNECT_REQUEST) ||
  (code =? FR_RADIUS_CODE_COA_REQUEST).

Definition is_reply_signed (code : Z) : bool :=
  (code =? FR_RADIUS_CODE_ACCESS_ACCEPT) || (code =? FR_RADIUS_CODE_ACCESS_REJECT) ||
  (code =? FR_RADIUS_CODE_ACCESS_CHALLENGE) || (code =? FR_RADIUS_CODE_ACCOUNTING_RESPONSE) ||
  (code =? FR_RADIUS_CODE_DISCONNECT_ACK) || (code =? FR_RADIUS_CODE_DISCONNECT_NAK) ||
  (code =? FR_RADIUS_CODE_COA_ACK) || (code =? FR_RADIUS_CODE_COA_NAK).

Definition is_random_vector (code : Z) : bool :=
  (code =? FR_RADIUS_CODE_ACCESS_REQUEST) || (code =? FR_RADIUS_CODE_STATUS_SERVER).

(** Where the switch on the packet code goes: on with this packet, out with
    0 or out with -1. *)
Inductive step :=
  | Continue (packet : bytes)
  | Return0
  | ReturnError.

(** The switch before the Message-Authenticator is computed. *)
Definition ma_vector (code : Z) (vector : option bytes) (packet : bytes) : option step :=
  if is_request_signed code then Continue <$> store packet 4 (replicate 16 0)
  else if is_reply_signed code then
    match vector with
    | None => Some ReturnError
    | Some v => Continue <$> store packet 4 (take 16 v)
    end
  else if is_random_vector code then Some (Continue packet)
  else Some ReturnError.

(** The switch that initialises the request authenticator. *)
Definition auth_vector (code : Z) (vector : option bytes) (packet : bytes) : option step :=
  if is_request_signed code then Continue <$> store packet 4 (replicate 16 0)
  else if is_reply_signed code || (code =? FR_RADIUS_CODE_PROTOCOL_ERROR) then
    match vector with
    | None => Some ReturnError
    | Some v => Continue <$> store packet 4 (take 16 v)
    end
  else if is_random_vector code then Some Return0
  else Some ReturnError.

Section Signed.
Context {Ctx : Type} `{Hops : DigestOps Ctx}.

(** [MD5(packet + secret)] written over the authenticator. *)
Definition sign_authenticator (packet : bytes) (packet_len : nat) (secret : bytes) : option bytes :=
  data ← load packet 0 packet_len;
  let md5_ctx := ctx_alloc in
  let md5_ctx := ctx_update md5_ctx data in
  let md5_ctx := ctx_update md5_ctx secret in
  store packet 4 (fst (ctx_final md5_ctx)).

(** The result code and the packet after the call. *)
Definition fr_radius_sign (packet : bytes) (vector : option bytes) (secret : bytes)
  : option (Z * bytes) :=
  packet_len ← fr_nbo_to_uint16 packet 2;
  if negb (Z.of_nat (length secret) <=? UINT16_MAX) then Some (-1, packet) else
  if (packet_len <? RADIUS_HEADER_LENGTH)%nat then Some (-1, packet) else
  code ← packet !! 0%nat;
  scanned ← sign_scan packet_len packet packet_len RADIUS_HEADER_LENGTH;
  with_ma ←
    match scanned with
    | ScanInvalid | ScanTooSmall => Some ReturnError
    | ScanEnd => Some (Continue packet)
    | ScanFound msg =>
        st ← ma_vector code vector packet;
        match st with
        | Continue packet =>
            packet ← store packet (msg + 2) (replicate 16 0);
            data ← load packet 0 packet_len;
            Continue <$> store packet (msg + 2) (fr_hmac_md5 data secret)
        | out => Some out
        end
    end;
  match with_ma with
  | ReturnError => Some (-1, packet)
  | Return0 => Some (0, packet)
  | Continue packet =>
      st ← auth_vector code vector packet;
      match st with
      | ReturnError => Some (-1, packet)
      | Return0 => Some (0, packet)
      | Continue packet =>
          packet ← sign_authenticator packet packet_len secret;
          Some (0, packet)
      end
  end.

(** ** fr_radius_verify *)

(** The loop of fr_radius_verify, which also notes a Proxy-State it passes. *)
Fixpoint verify_scan (fuel : nat) (packet : bytes) (end_ : nat) (limit_proxy_state : bool)
    (msg : nat) (found_proxy_state : bool) : option (scan * bool) :=
  if (msg <? end_)%nat then
    match fuel with
    | O => None
    | S fuel =>
        if (end_ - msg <? 2)%nat then Some (ScanInvalid, found_proxy_state) else
        m0 ← packet !! msg;
        m1 ← packet !! (msg + 1)%nat;
        if negb (m0 =? FR_MESSAGE_AUTHENTICATOR) then
          if m1 <? 2 then Some (ScanInvalid, found_proxy_state) else
          let found_proxy_state :=
            if limit_proxy_state && (m0 =? FR_PROXY_STATE) then true else found_proxy_state in
          if (end_ <? msg + Z.to_nat m1)%nat then Some (ScanInvalid, found_proxy_state) else
          verify_scan fuel packet end_ limit_proxy_state (msg + Z.to_nat m1) found_proxy_state
        else if m1 <? 18 then Some (ScanTooSmall, found_proxy_state)
        else Some (ScanFound msg, found_proxy_state)
    end
  else Some (ScanEnd, found_proxy_state).

(** [fr_digest_cmp] of src/lib/util/misc.c *)
Definition fr_digest_cmp (a b : bytes) : Z :=
  fold_left (fun result '(x, y) => result |z (x ^z y)) (zip a b) 0.

(** The policy on Access-Request packets. *)
Definition ma_policy (code : Z) (require_message_authenticator limit_proxy_state
    found_proxy_state found_message_authenticator : bool) : bool :=
  negb (code =? FR_RADIUS_CODE_ACCESS_REQUEST) ||
  (negb (limit_proxy_state && found_proxy_state && negb found_message_authenticator) &&
   negb (require_message_authenticator && negb found_message_authenticator)).

(** The failure (or [DECODE_FAIL_NONE] for a return value of 0) and the packet
    after the call. *)
Definition fr_radius_verify (packet : bytes) (vector : option bytes) (secret : bytes)
    (require_message_authenticator limit_proxy_state : bool)
  : option (fr_radius_decode_fail_t * bytes) :=
  packet_len ← fr_nbo_to_uint16 packet 2;
  if (packet_len <? RADIUS_HEADER_LENGTH)%nat then Some (DECODE_FAIL_MIN_LENGTH_PACKET, packet) else
  code ← packet !! 0%nat;
  if (code =? 0) || (FR_RADIUS_CODE_MAX <=? code)
  then Some (DECODE_FAIL_UNKNOWN_PACKET_CODE, packet) else
  request_authenticator ← load packet 4 RADIUS_AUTH_VECTOR_LENGTH;
  '(scanned, found_proxy_state) ←
    verify_scan packet_len packet packet_len limit_proxy_state RADIUS_HEADER_LENGTH false;
  match scanned with
  | ScanInvalid => Some (DECODE_FAIL_INVALID_ATTRIBUTE, packet)
  | ScanTooSmall => Some (DECODE_FAIL_MA_INVALID_LENGTH, packet)
  | _ =>
      message_authenticator ←
        match scanned with
        | ScanFound msg => (fun m => Some (msg, m)) <$> load packet (msg + 2) RADIUS_AUTH_VECTOR_LENGTH
        | _ => Some None
        end;
      let found_message_authenticator := match scanned with ScanFound _ => true | _ => false end in
      if negb (ma_policy code require_message_authenticator limit_proxy_state
                 found_proxy_state found_message_authenticator)
      then Some (DECODE_FAIL_MA_MISSING, packet) else
      '(rcode, packet) ← fr_radius_sign packet vector secret;
      if rcode <? 0 then Some (DECODE_FAIL_VERIFY, packet) else
      ma_ok ←
        match message_authenticator with
        | Some (msg, ma) =>
            computed ← load packet (msg + 2) RADIUS_AUTH_VECTOR_LENGTH;
            Some (fr_digest_cmp ma computed =? 0)
        | None => Some true
        end;
      if negb ma_ok then
        packet ← match message_authenticator with
                 | Some (msg, ma) => store packet (msg + 2) ma
                 | None => Some packet
                 end;
        packet ← store packet 4 request_authenticator;
        Some (DECODE_FAIL_MA_INVALID, packet)
      else
      code ← packet !! 0%nat;
      if is_random_vector code then Some (DECODE_FAIL_NONE, packet) else
      computed ← load packet 4 RADIUS_AUTH_VECTOR_LENGTH;
      if negb (fr_digest_cmp request_authenticator computed =? 0) then
        packet ← store packet 4 request_authenticator;
        Some (DECODE_FAIL_VERIFY, packet)
      else Some (DECODE_FAIL_NONE, packet)
  end.

(** ** Ascend-Send-Secret *)

(** The 16 bytes appended to the output; the secret's length excludes the
    terminating NUL. *)
Definition fr_radius_ascend_secret (in_ secret vector : bytes) : bytes :=
  let md5_ctx := ctx_alloc in
  let md5_ctx := ctx_update md5_ctx (take 16 vector) in
  let md5_ctx := ctx_update md5_ctx secret in
  let digest := fst (ctx_final md5_ctx) in
  let inlen := if (16 <? length in_)%nat then 16%nat else length in_ in
  zip_with Z.lxor (take inlen digest) (take inlen in_) ++ drop inlen digest.
End Signed.

(** ** Packet codes *)

Definition allowed_replies (code : Z) : Z :=
  if code =? FR_RADIUS_CODE_ACCESS_ACCEPT then FR_RADIUS_CODE_ACCESS_REQUEST else
  if code =? FR_RADIUS_CODE_ACCESS_CHALLENGE then FR_RADIUS_CODE_ACCESS_REQUEST else
  if code =? FR_RADIUS_CODE_ACCESS_REJECT then FR_RADIUS_CODE_ACCESS_REQUEST else
  if code =? FR_RADIUS_CODE_ACCOUNTING_RESPONSE then FR_RADIUS_CODE_ACCOUNTING_REQUEST else
  if code =? FR_RADIUS_CODE_COA_ACK then FR_RADIUS_CODE_COA_REQUEST else
  if code =? FR_RADIUS_CODE_COA_NAK then FR_RADIUS_CODE_COA_REQUEST else
  if code =? FR_RADIUS_CODE_DISCONNECT_ACK then FR_RADIUS_CODE_DISCONNECT_REQUEST else
  if code =? FR_RADIUS_CODE_DISCONNECT_NAK then FR_RADIUS_CODE_DISCONNECT_REQUEST else
  if code =? FR_RADIUS_CODE_PROTOCOL_ERROR then FR_RADIUS_CODE_PROTOCOL_ERROR else 0.

Definition fr_radius_allow_reply (code : Z) (allowed : list bool) : Z * list bool :=
  if (code <=? 0) || (FR_RADIUS_CODE_MAX <=? code) then (-1, allowed)
  else (0, imap (fun i a => if (i =? 0)%nat then a else a || (allowed_replies (Z.of_nat i) =? code)) allowed).

(** The header of a datagram in the socket buffer: [inl] is what the function
    returns without a packet, [inr] the length and the code. *)
Definition fr_radius_recv_header (data_len : Z) (errno_again : bool) (header : bytes) : Z + (Z * Z) :=
  if data_len <? 0 then inl (if errno_again then 0 else -1) else
  if data_len <? 4 then inl 0 else
  let packet_len := get header 2 * 256 + get header 3 in
  if packet_len <? Z.of_nat RADIUS_HEADER_LENGTH then inl 0 else
  if MAX_PACKET_LEN <? packet_len then inl 0 else
  inr (packet_len, get header 0).

(** * What a well-formed packet is *)

(** An attribute: its number and its value. *)
Abbreviation attribute := (Z * bytes)%type.

Definition encode_attr (a : attribute) : bytes := fst a :: Z.of_nat (2 + length (snd a)) :: snd a.
Definition encode_attrs (l : list attribute) : bytes := concat (map encode_attr l).

Definition wf_attr (a : attribute) : Prop :=
  1 <= fst a < 256 /\ (length (snd a) <= 253)%nat /\
  (fst a = FR_MESSAGE_AUTHENTICATOR -> length (snd a) = 16%nat).

Definition has_attr (n : Z) (l : list attribute) : bool := existsb (fun a => fst a =? n) l.

(** The bytes [packet + from .. packet + to). *)
Definition slice (packet : bytes) (from to : nat) : bytes := take (to - from) (drop from packet).

Lemma slice_cons packet from to x :
  (from < to)%nat -> packet !! from = Some x -> slice packet from to = x :: slice packet (S from) to.
Proof.
  intros Hlt Hx. unfold slice. replace (to - from)%nat with (S (to - S from)) by lia.
  by rewrite (drop_S packet x from Hx).
Qed.

Lemma slice_split packet from mid to :
  (from <= mid <= to)%nat -> slice packet from to = slice packet from mid ++ slice packet mid to.
Proof.
  intros H. unfold slice. replace (to - from)%nat with (mid - from + (to - mid))%nat by lia.
  rewrite <- take_take_drop, drop_drop. by replace (from + (mid - from))%nat with mid by lia.
Qed.

Lemma length_slice packet from to :
  (to <= length packet)%nat -> length (slice packet from to) = (to - from)%nat.
Proof. intros. unfold slice. rewrite length_take, length_drop. lia. Qed.

Lemma has_attr_cons n a l : has_attr n (a :: l) = (fst a =? n) || has_attr n l.
Proof. done. Qed.

(** The attribute at [attr], when its header and its value fit. *)
Lemma slice_attr packet attr end_ a0 a1 :
  packet !! attr = Some a0 -> packet !! (attr + 1)%nat = Some a1 -> 2 <= a1 ->
  (attr + Z.to_nat a1 <= end_)%nat -> (end_ <= length packet)%nat ->
  slice packet attr end_ =
  encode_attr (a0, slice packet (attr + 2) (attr + Z.to_nat a1)) ++ slice packet (attr + Z.to_nat a1) end_.
Proof.
  intros H0 H1 Ha1 Hend Hlen.
  rewrite (slice_split _ attr (attr + Z.to_nat a1)) by lia.
  f_equal. rewrite (slice_cons _ _ _ a0) by (done || lia).
  rewrite (slice_cons _ _ _ a1); [|lia|by rewrite <- Nat.add_1_r].
  unfold encode_attr; cbn [fst snd]. rewrite length_slice by lia.
  f_equal. f_equal; [lia|]. f_equal; lia.
Qed.

(** The walk after the attributes [l]. *)
Definition walked (w : walk) (end_ : nat) (l : list attribute) : walk :=
  MkWalk end_ (u32 (w_num_attributes w + Z.of_nat (length l)))
    (w_seen_ma w || has_attr FR_MESSAGE_AUTHENTICATOR l)
    (w_require_ma w || has_attr FR_EAP_MESSAGE l).

Definition next_walk (w : walk) (a0 a1 : Z) : walk :=
  MkWalk (w_attr w + Z.to_nat a1) (u32 (w_num_attributes w + 1))
    (w_seen_ma w || (a0 =? FR_MESSAGE_AUTHENTICATOR)) (w_require_ma w || (a0 =? FR_EAP_MESSAGE)).

Lemma walked_cons w end_ a0 a1 v l :
  walked (next_walk w a0 a1) end_ l = walked w end_ ((a0, v) :: l).
Proof.
  unfold walked, next_walk; cbn [w_num_attributes w_seen_ma w_require_ma length].
  rewrite !has_attr_cons, !orb_assoc. cbn [fst]. f_equal. unfold u32.
  rewrite Zplus_mod_idemp_l. f_equal. lia.
Qed.

Lemma walked_nil w : is_u32 (w_num_attributes w) -> walked w (w_attr w) [] = w.
Proof.
  intros Hn. unfold walked. cbn [length has_attr existsb]. rewrite !orb_false_r, Z.add_0_r, u32_id by done.
  by destruct w.
Qed.

(** One turn of the loop on an attribute that fits. *)
Lemma ok_loop_step fuel packet end_ w a0 a1 :
  (w_attr w < end_)%nat -> packet !! w_attr w = Some a0 -> packet !! (w_attr w + 1)%nat = Some a1 ->
  a0 <> 0 -> 2 <= a1 -> (w_attr w + Z.to_nat a1 <= end_)%nat ->
  ok_loop (S fuel) packet end_ w =
  if (a0 =? FR_MESSAGE_AUTHENTICATOR) && negb (a1 =? 18) then Some (inl DECODE_FAIL_MA_INVALID_LENGTH)
  else ok_loop fuel packet end_ (next_walk w a0 a1).
Proof.
  intros Hlt H0 H1 Ha0 Ha1 Hend. cbn [ok_loop]. rewrite (proj2 (Nat.ltb_lt _ _) Hlt), H0, H1.
  rewrite (proj2 (Nat.ltb_ge _ _)) by lia. cbn [mbind option_bind].
  rewrite (proj2 (Z.eqb_neq _ _) Ha0), (proj2 (Z.ltb_ge _ _) Ha1), (proj2 (Nat.ltb_ge _ _)) by lia.
  unfold next_walk, FR_EAP_MESSAGE, FR_MESSAGE_AUTHENTICATOR.
  destruct (Z.eqb_spec a0 79) as [->|?]; [by rewrite orb_true_r, orb_false_r|].
  destruct (Z.eqb_spec a0 80) as [->|?]; [by rewrite orb_true_r, orb_false_r|].
  by rewrite !orb_false_r.
Qed.

(** The loop never reads outside the packet, and when it ends normally it has
    gone through a sequence of well-formed attributes. *)
Lemma ok_loop_sound fuel : forall packet end_ w,
  is_bytes packet -> (end_ <= length packet)%nat -> (end_ - w_attr w <= fuel)%nat ->
  (w_attr w <= end_)%nat -> is_u32 (w_num_attributes w) ->
  exists r, ok_loop fuel packet end_ w = Some r /\
    match r with
    | inl failure => failure <> DECODE_FAIL_NONE
    | inr w' => exists l, slice packet (w_attr w) end_ = encode_attrs l /\ Forall wf_attr l /\ w' = walked w end_ l
    end.
Proof.
  induction fuel as [|fuel IH]; intros packet end_ w Hb Hlen Hf Hle Hn;
    (destruct (decide (w_attr w = end_)) as [He|He];
     [exists (inr w); split; [cbn [ok_loop]; by rewrite He, Nat.ltb_irrefl|];
      exists []; rewrite <- He, walked_nil by done; unfold slice; rewrite Nat.sub_diag, take_0; done|]);
    [lia|].
  destruct (lookup_lt_is_Some_2 packet (w_attr w)) as [a0 H0]; [lia|].
  pose proof (Forall_lookup_1 _ _ _ _ Hb H0) as Hb0.
  destruct (decide (w_attr w + 1 < end_)%nat) as [Hfit|Hfit].
  2:{ eexists. cbn [ok_loop]. rewrite (proj2 (Nat.ltb_lt _ _)), (proj2 (Nat.ltb_lt _ _)) by lia. done. }
  destruct (lookup_lt_is_Some_2 packet (w_attr w + 1)) as [a1 H1]; [lia|].
  pose proof (Forall_lookup_1 _ _ _ _ Hb H1) as Hb1. unfold is_u8 in Hb0, Hb1.
  destruct (decide (a0 <> 0 /\ 2 <= a1 /\ (w_attr w + Z.to_nat a1 <= end_)%nat)) as [(Ha0 & Ha1 & Hend)|Hbad].
  - rewrite (ok_loop_step _ _ _ _ a0 a1) by (done || lia).
    destruct (_ && _) eqn:Ema; [by eexists|].
    destruct (IH packet end_ (next_walk w a0 a1)) as (r & Hr & Hspec);
      cbn [next_walk w_attr w_num_attributes]; [done|done|lia|lia|apply u32_range|].
    exists r. split; [done|]. destruct r as [f|w']; [done|]. destruct Hspec as (l & Hl & Hwf & ->).
    exists ((a0, slice packet (w_attr w + 2) (w_attr w + Z.to_nat a1)) :: l).
    cbn [next_walk w_attr] in Hl. rewrite (slice_attr _ _ _ a0 a1), Hl by (done || lia).
    split; [done|]. split; [|apply walked_cons]. constructor; [|done].
    unfold wf_attr; cbn [fst snd]. rewrite length_slice by lia. split_and!; [lia|lia|lia|].
    intros ->. rewrite Z.eqb_refl in Ema. cbn [andb] in Ema. simpl_bool. lia.
  - cbn [ok_loop]. rewrite (proj2 (Nat.ltb_lt _ _)), (proj2 (Nat.ltb_ge _ _)), H0, H1 by lia.
    cbn [mbind option_bind]. destruct (a0 =? 0) eqn:E0; simpl_bool; [by eexists|].
    destruct (a1 <? 2) eqn:E1; simpl_bool; [by eexists|].
    rewrite (proj2 (Nat.ltb_lt _ _)) by lia. by eexists.
Qed.

Lemma slice_lookup packet from to i :
  (from + i < to)%nat -> slice packet from to !! i = packet !! (from + i)%nat.
Proof. intros. unfold slice. rewrite lookup_take_lt by lia. by rewrite lookup_drop. Qed.

Lemma drop_slice packet from to n :
  (from + n <= to)%nat -> drop n (slice packet from to) = slice packet (from + n) to.
Proof.
  intros. unfold slice. replace (to - from)%nat with (n + (to - (from + n)))%nat by lia.
  by rewrite <- take_drop_commute, drop_drop.
Qed.

Lemma ok_loop_complete l : forall fuel packet end_ w,
  (end_ <= length packet)%nat -> (end_ - w_attr w <= fuel)%nat -> (w_attr w <= end_)%nat ->
  is_u32 (w_num_attributes w) ->
  slice packet (w_attr w) end_ = encode_attrs l -> Forall wf_attr l ->
  ok_loop fuel packet end_ w = Some (inr (walked w end_ l)).
Proof.
  induction l as [|[a0 v] l IH]; intros fuel packet end_ w Hlen Hf Hle Hn Hs Hwf.
  - apply (f_equal length) in Hs. rewrite length_slice in Hs by done. cbn in Hs.
    assert (w_attr w = end_) as <- by lia.
    rewrite walked_nil by done. destruct fuel; cbn [ok_loop]; by rewrite Nat.ltb_irrefl.
  - apply Forall_cons_1 in Hwf as [(Ha0 & Hv & Hma) Hwf]. cbn [fst snd] in *.
    change (encode_attrs ((a0, v) :: l)) with (a0 :: Z.of_nat (2 + length v) :: v ++ encode_attrs l) in Hs.
    set (a1 := Z.of_nat (2 + length v)) in *.
    pose proof (f_equal length Hs) as Hslen. rewrite length_slice in Hslen by done.
    cbn [length] in Hslen. rewrite length_app in Hslen.
    assert (Z.to_nat a1 = 2 + length v)%nat as Hnat by lia.
    destruct fuel as [|fuel]; [lia|].
    rewrite (ok_loop_step _ _ _ _ a0 a1); cycle 1.
    + lia.
    + rewrite <- (Nat.add_0_r (w_attr w)), <- (slice_lookup _ _ end_), Hs by lia. done.
    + rewrite <- (slice_lookup _ _ end_), Hs by lia. done.
    + lia.
    + lia.
    + lia.
    + destruct (_ && _) eqn:E.
      { apply andb_true_iff in E as [E1 E2]. simpl_bool. specialize (Hma E1). lia. }
      rewrite <- (walked_cons w end_ a0 a1 v l).
      apply IH; cbn [next_walk w_attr w_num_attributes]; try (done || lia); [apply u32_range|].
      rewrite <- drop_slice, Hs, Hnat by lia. cbn [Nat.add drop]. by rewrite drop_app_length.
Qed.

(** The packets fr_radius_ok accepts: a known code, a length field between the
    header length and the data received, and attributes that fill the packet
    exactly. *)
Record radius_wf (packet : bytes) (packet_len : nat) (max_attributes : Z) (require_ma : bool)
    (len : nat) (l : list attribute) : Prop := {
  wf_length : fr_nbo_to_uint16 packet 2 = Some len;
  wf_bounds : (20 <= len <= packet_len)%nat;
  wf_code : exists code, packet !! 0%nat = Some code /\ 1 <= code < 53 /\
    ((code = FR_RADIUS_CODE_STATUS_SERVER \/ has_attr FR_EAP_MESSAGE l = true \/
      require_ma = true /\ code ∈ [FR_RADIUS_CODE_ACCESS_REQUEST; FR_RADIUS_CODE_ACCESS_ACCEPT;
                                   FR_RADIUS_CODE_ACCESS_REJECT; FR_RADIUS_CODE_ACCESS_CHALLENGE]) ->
     has_attr FR_MESSAGE_AUTHENTICATOR l = true);
  wf_attrs : slice packet 20 len = encode_attrs l;
  wf_each : Forall wf_attr l;
  wf_count : 0 < max_attributes -> Z.of_nat (length l) <= max_attributes;
}.

Lemma length_encode_attrs l : (2 * length l <= length (encode_attrs l))%nat.
Proof.
  induction l as [|a l IH]; [done|]. change (encode_attrs (a :: l)) with (encode_attr a ++ encode_attrs l).
  rewrite length_app. cbn [length encode_attr]. lia.
Qed.

Definition require_ma_of (code : Z) (require_message_authenticator : bool) : bool :=
  if code =? FR_RADIUS_CODE_STATUS_SERVER then true
  else if (code =? FR_RADIUS_CODE_ACCESS_REQUEST) || (code =? FR_RADIUS_CODE_ACCESS_ACCEPT) ||
          (code =? FR_RADIUS_CODE_ACCESS_CHALLENGE) || (code =? FR_RADIUS_CODE_ACCESS_REJECT)
  then require_message_authenticator
  else false.

Lemma require_ma_of_spec code req :
  require_ma_of code req = true <->
  code = FR_RADIUS_CODE_STATUS_SERVER \/
  req = true /\ code ∈ [FR_RADIUS_CODE_ACCESS_REQUEST; FR_RADIUS_CODE_ACCESS_ACCEPT;
                       FR_RADIUS_CODE_ACCESS_REJECT; FR_RADIUS_CODE_ACCESS_CHALLENGE].
Proof.
  unfold require_ma_of. rewrite !elem_of_cons, elem_of_nil.
  destruct (Z.eqb_spec code FR_RADIUS_CODE_STATUS_SERVER) as [->|?]; [tauto|].
  destruct (Z.eqb_spec code FR_RADIUS_CODE_ACCESS_REQUEST) as [->|?]; cbn [orb]; [destruct req; tauto|].
  destruct (Z.eqb_spec code FR_RADIUS_CODE_ACCESS_ACCEPT) as [->|?]; cbn [orb]; [destruct req; tauto|].
  destruct (Z.eqb_spec code FR_RADIUS_CODE_ACCESS_CHALLENGE) as [->|?]; cbn [orb]; [destruct req; tauto|].
  destruct (Z.eqb_spec code FR_RADIUS_CODE_ACCESS_REJECT) as [->|?]; [destruct req; tauto|].
  split; [done|tauto].
Qed.

(** The packet once its header has been accepted. *)
Lemma ok_header packet packet_len max req len code :
  (20 <= packet_len)%nat -> fr_nbo_to_uint16 packet 2 = Some len -> packet !! 0%nat = Some code ->
  fr_radius_ok packet packet_len max req =
  if (code =? 0) || (53 <=? code) then Some (DECODE_FAIL_UNKNOWN_PACKET_CODE, packet_len) else
  if (len <? 20)%nat then Some (DECODE_FAIL_MIN_LENGTH_FIELD, packet_len) else
  if (packet_len <? len)%nat then Some (DECODE_FAIL_MIN_LENGTH_MISMATCH, packet_len) else
  walked ← ok_loop len packet len (MkWalk 20 0 false (require_ma_of code req));
  match walked with
  | inl failure => Some (failure, len)
  | inr w =>
      if negb (w_attr w =? len)%nat then Some (DECODE_FAIL_ATTRIBUTE_UNDERFLOW, len) else
      if (0 <? max) && (max <? w_num_attributes w) then Some (DECODE_FAIL_TOO_MANY_ATTRIBUTES, len) else
      if w_require_ma w && negb (w_seen_ma w) then Some (DECODE_FAIL_MA_MISSING, len) else
      Some (DECODE_FAIL_NONE, len)
  end.
Proof.
  intros Hpl Hlen Hcode. unfold fr_radius_ok.
  rewrite (proj2 (Nat.ltb_ge _ _) Hpl), Hlen, Hcode. cbn [mbind option_bind].
  fold (require_ma_of code req).
  destruct (_ || _); [done|]. destruct (len <? 20)%nat; [done|].
  destruct (packet_len <? len)%nat eqn:E; [done|]. simpl_bool.
  destruct (len <? packet_len)%nat eqn:E2; simpl_bool; [done|].
  by assert (packet_len = len) as -> by lia.
Qed.

Lemma nbo16_total packet off :
  is_bytes packet -> (off + 1 < length packet)%nat ->
  exists n, fr_nbo_to_uint16 packet off = Some n /\ (Z.of_nat n < 65536).
Proof.
  intros Hb Hlen. unfold fr_nbo_to_uint16.
  destruct (lookup_lt_is_Some_2 packet off) as [hi Hhi]; [lia|].
  destruct (lookup_lt_is_Some_2 packet (off + 1)) as [lo Hlo]; [lia|].
  rewrite Hhi, Hlo. cbn [mbind option_bind]. eexists; split; [done|].
  pose proof (Forall_lookup_1 _ _ _ _ Hb Hhi). pose proof (Forall_lookup_1 _ _ _ _ Hb Hlo).
  unfold is_u8 in *. lia.
Qed.

Lemma radius_wf_count packet packet_len max req len l :
  is_bytes packet -> (packet_len <= length packet)%nat ->
  radius_wf packet packet_len max req len l -> Z.of_nat (length l) < 65536.
Proof.
  intros Hb Hpl [Hn Hbd _ Hs _ _]. apply (f_equal length) in Hs. rewrite length_slice in Hs by lia.
  destruct (nbo16_total packet 2 Hb) as (n & Hn' & ?); [lia|].
  assert (len = n) as -> by congruence. pose proof (length_encode_attrs l). lia.
Qed.

Lemma ok_accepts packet packet_len max req len l :
  is_bytes packet -> (packet_len <= length packet)%nat ->
  radius_wf packet packet_len max req len l ->
  fr_radius_ok packet packet_len max req = Some (DECODE_FAIL_NONE, len).
Proof.
  intros Hb Hpl Hwf. pose proof (radius_wf_count _ _ _ _ _ _ Hb Hpl Hwf) as Hcount.
  destruct Hwf as [Hn Hbd (code & Hcode & Hrange & Hma) Hs Hall Hmax].
  rewrite (ok_header _ _ _ _ len code) by (done || lia).
  rewrite (proj2 (orb_false_iff _ _)) by (split; [apply Z.eqb_neq|apply Z.leb_gt]; lia).
  rewrite (proj2 (Nat.ltb_ge _ _)), (proj2 (Nat.ltb_ge _ _)) by lia.
  rewrite (ok_loop_complete l) by (done || (cbn [w_attr]; lia)).
  cbn [mbind option_bind walked w_attr w_num_attributes w_seen_ma w_require_ma orb].
  rewrite Nat.eqb_refl, u32_id by (unfold is_u32; lia). cbn [negb].
  destruct (_ && _) eqn:E1; simpl_bool; [lia|].
  match goal with |- context [if ?b then _ else _] => destruct b eqn:E2 end; [|done]. apply andb_true_iff in E2 as [Hreq Hseen].
  apply negb_true_iff in Hseen. rewrite Hma in Hseen; [done|].
  apply orb_true_iff in Hreq as [Hreq|Hreq]; [|by right; left].
  apply require_ma_of_spec in Hreq as [?|[? ?]]; [by left|by right; right].
Qed.

Lemma ok_sound packet packet_len max req :
  is_bytes packet -> (packet_len <= length packet)%nat ->
  exists f len, fr_radius_ok packet packet_len max req = Some (f, len) /\
    (f = DECODE_FAIL_NONE -> exists l, radius_wf packet packet_len max req len l).
Proof.
  intros Hb Hpl. destruct (decide (packet_len < 20)%nat) as [Hshort|Hlong].
  { unfold fr_radius_ok. rewrite (proj2 (Nat.ltb_lt _ _)) by lia.
    by eexists _, _. }
  destruct (nbo16_total packet 2 Hb) as (n & Hn & Hn16); [lia|].
  destruct (lookup_lt_is_Some_2 packet 0) as [code Hcode]; [lia|].
  pose proof (Forall_lookup_1 _ _ _ _ Hb Hcode) as Hc8. unfold is_u8 in Hc8.
  rewrite (ok_header _ _ _ _ n code) by (done || lia).
  destruct (_ || _) eqn:E1; [by eexists _, _|]. apply orb_false_iff in E1 as [E0 E53].
  destruct (n <? 20)%nat eqn:E2; [by eexists _, _|].
  destruct (packet_len <? n)%nat eqn:E3; [by eexists _, _|]. simpl_bool.
  destruct (ok_loop_sound n packet n (MkWalk 20 0 false (require_ma_of code req)) Hb) as (r & Hr & Hspec);
    cbn [w_attr w_num_attributes]; [lia|lia|lia|done|].
  rewrite Hr. cbn [mbind option_bind]. destruct r as [f|w]; [by eexists _, _|].
  destruct Hspec as (l & Hs & Hall & ->). cbn [w_attr] in Hs.
  cbn [walked w_attr w_num_attributes w_seen_ma w_require_ma orb].
  rewrite Nat.eqb_refl. cbn [negb].
  assert (Z.of_nat (length l) < 65536) as Hcount.
  { apply (f_equal length) in Hs. rewrite length_slice in Hs by lia. pose proof (length_encode_attrs l). lia. }
  rewrite u32_id by (unfold is_u32; lia).
  match goal with |- context [if ?b then _ else _] => destruct b eqn:E4 end; [by eexists _, _|].
  match goal with |- context [if ?b then _ else _] => destruct b eqn:E5 end; [by eexists _, _|].
  eexists _, _. split; [done|]. intros _. exists l. split; [done|lia| |done|done|].
  - exists code. split; [done|]. split; [lia|]. intros Hreq.
    apply andb_false_iff in E5 as [E5|E5]; [|by apply negb_false_iff in E5].
    apply orb_false_iff in E5 as [E5 E6]. exfalso. destruct Hreq as [?|[?|?]]; [|congruence|].
    + rewrite (proj2 (require_ma_of_spec code req)) in E5; [done|by left].
    + rewrite (proj2 (require_ma_of_spec code req)) in E5; [done|by right].
  - intros Hmax. apply andb_false_iff in E4 as [E4|E4]; simpl_bool; lia.
Qed.

End RadiusPacket.
