(* ===== verification/RadiusSign.v ===== *)
(** Signing and verifying RADIUS packets (fr_radius_sign and fr_radius_verify
    of src/protocols/radius/base.c, modelled in RadiusPacket): a packet that was
    signed verifies, verifying accepts exactly the packets that signing leaves
    as they are, and verifying never changes the packet it is given.  Proved
    over any 16-byte digest. *)

From S2P Require Import Prelude BlockHash Md5 Hmac RadiusPacket.
Import RadiusPacket.

Lemma store_Some packet off src q :
  store packet off src = Some q <->
  (off + length src <= length packet)%nat /\ q = splice packet off src.
Proof.
  unfold store. destruct (_ <=? _)%nat eqn:E; simpl_bool.
  - split; [intros; by simplify_eq|]. by intros [_ ->].
  - split; [done|]. lia.
Qed.

Lemma store_eq packet off src :
  (off + length src <= length packet)%nat -> store packet off src = Some (splice packet off src).
Proof. intros. by apply store_Some. Qed.

Lemma load_Some packet off n x :
  load packet off n = Some x <-> (off + n <= length packet)%nat /\ x = take n (drop off packet).
Proof.
  unfold load. destruct (_ <=? _)%nat eqn:E; simpl_bool.
  - split; [intros; by simplify_eq|]. by intros [_ ->].
  - split; [done|]. lia.
Qed.

Lemma load_eq packet off n :
  (off + n <= length packet)%nat -> load packet off n = Some (take n (drop off packet)).
Proof. intros. by apply load_Some. Qed.

(** * Comparing digests *)

Lemma lxor_eq_0 x y : x ^z y = 0 <-> x = y.
Proof. apply Z.lxor_eq_0_iff. Qed.

Lemma digest_cmp_acc l k : length l = length k -> forall acc,
  fold_left (fun result '(x, y) => result |z (x ^z y)) (zip l k) acc = 0 <-> acc = 0 /\ l = k.
Proof.
  revert k. induction l as [|x l IH]; intros [|y k] Hlen acc; try done; cbn in *; [by intuition|].
  rewrite IH by lia. rewrite Z.lor_eq_0_iff, lxor_eq_0. split; [|intros [? ?]; by simplify_eq].
  by intros [[-> ->] ->].
Qed.

(** Comparing all the bytes without stopping early is comparing the digests. *)
Lemma fr_digest_cmp_eq a b : length a = length b -> (fr_digest_cmp a b =? 0) = bool_decide (a = b).
Proof.
  intros Hl. pose proof (digest_cmp_acc a b Hl 0) as H. fold (fr_digest_cmp a b) in H.
  destruct (Z.eqb_spec (fr_digest_cmp a b) 0) as [E|E].
  - symmetry. apply bool_decide_eq_true. by apply H.
  - symmetry. apply bool_decide_eq_false. intros ->. apply E. by apply H.
Qed.

(** * The scan for the Message-Authenticator *)

Lemma verify_scan_sign fuel : forall p e lim msg fp,
  fst <$> verify_scan fuel p e lim msg fp = sign_scan fuel p e msg.
Proof.
  induction fuel as [|fuel IH]; intros p e lim msg fp; cbn [verify_scan sign_scan];
    destruct (msg <? e)%nat; try done.
  destruct (e - msg <? 2)%nat; [done|]. destruct (p !! msg) as [m0|]; [|done].
  destruct (p !! (msg + 1)%nat) as [m1|]; [|done]. cbn [mbind option_bind].
  destruct (negb _); [|by destruct (m1 <? 18)]. destruct (m1 <? 2); [done|]. cbv zeta.
  destruct (e <? msg + Z.to_nat m1)%nat; [done|]. apply IH.
Qed.

Lemma verify_scan_found fuel : forall p e lim msg fp m b,
  verify_scan fuel p e lim msg fp = Some (ScanFound m, b) -> (msg <= m)%nat /\ (m + 2 <= e)%nat.
Proof.
  induction fuel as [|fuel IH]; intros p e lim msg fp m b; cbn [verify_scan];
    destruct (msg <? e)%nat eqn:E; try done. simpl_bool.
  destruct (e - msg <? 2)%nat eqn:E2; [done|]. simpl_bool. destruct (p !! msg) as [m0|]; [|done].
  destruct (p !! (msg + 1)%nat) as [m1|]; [|done]. cbn [mbind option_bind].
  destruct (negb _).
  - destruct (m1 <? 2); [done|]. cbv zeta. destruct (e <? msg + Z.to_nat m1)%nat; [done|].
    intros H. apply IH in H. lia.
  - destruct (m1 <? 18); [done|]. intros ?; simplify_eq. lia.
Qed.

(** The scan reads the headers up to the Message-Authenticator and nothing
    else. *)
Lemma verify_scan_frame fuel : forall p q e lim msg fp r b,
  verify_scan fuel p e lim msg fp = Some (r, b) ->
  (forall i, (msg <= i)%nat -> (forall m, r = ScanFound m -> i < m + 2)%nat -> q !! i = p !! i) ->
  verify_scan fuel q e lim msg fp = Some (r, b).
Proof.
  induction fuel as [|fuel IH]; intros p q e lim msg fp r b Hs Hq; pose proof Hs as Hs0; cbn [verify_scan] in *;
    destruct (msg <? e)%nat eqn:E; try done.
  destruct (e - msg <? 2)%nat eqn:E2; [done|]. simpl_bool.
  assert (forall m, r = ScanFound m -> msg <= m)%nat as Hm.
  { intros m ->. apply (verify_scan_found (S fuel) p e lim msg fp m b). cbn [verify_scan].
    rewrite (proj2 (Nat.ltb_lt _ _)), (proj2 (Nat.ltb_ge _ _)) by lia. exact Hs0. }
  clear Hs0. rewrite (Hq msg), (Hq (msg + 1)%nat) by (try lia; intros m ->; specialize (Hm m eq_refl); lia).
  destruct (p !! msg) as [m0|]; [|done].
  destruct (p !! (msg + 1)%nat) as [m1|]; [|done]. cbn [mbind option_bind] in *.
  destruct (negb _); [|done]. destruct (m1 <? 2) eqn:E1; [done|]. cbv zeta in *.
  destruct (e <? msg + Z.to_nat m1)%nat; [done|]. simpl_bool. apply (IH p); [done|].
  intros i Hi Him. apply Hq; [lia|done].
Qed.

Lemma sign_scan_verify fuel p e msg r :
  sign_scan fuel p e msg = Some r -> forall lim fp, exists b, verify_scan fuel p e lim msg fp = Some (r, b).
Proof.
  intros H lim fp. pose proof (verify_scan_sign fuel p e lim msg fp) as Hv. rewrite H in Hv.
  destruct (verify_scan _ _ _ _ _ _) as [[r' b]|]; [|done]. cbn in Hv. simplify_eq. by exists b.
Qed.

Section Sign.
Context {Ctx : Type} `{Hops : DigestOps Ctx} `{Hlaws : !DigestLaws Ctx}.
Hypothesis H16 : digest_len = 16%nat.
Hypothesis Hmax : 262144 < digest_max.

Variables (vector : option bytes) (secret : bytes).
(** The caller passes the 16 bytes of the request's authenticator. *)
Hypothesis Hvec : forall v, vector = Some v -> (16 <= length v)%nat.

(** The authenticator that is hashed with the packet. *)
Definition hashed_vector (code : Z) : option bytes :=
  if is_request_signed code then Some (replicate 16 0)
  else if is_reply_signed code || (code =? FR_RADIUS_CODE_PROTOCOL_ERROR) then take 16 <$> vector
  else None.

(** The Message-Authenticator and the authenticator of a buffer. *)
Definition hmac_of (len : nat) (p : bytes) : bytes := fr_hmac_md5 (take len p) secret.
Definition auth_of (len : nat) (p : bytes) : bytes :=
  fst (ctx_final (ctx_update (ctx_update ctx_alloc (take len p)) secret)).

(** The buffer the HMAC is computed over: the hashed authenticator in place
    and the Message-Authenticator zeroed. *)
Definition prepared (v : option bytes) (m : nat) (p : bytes) : bytes :=
  splice (match v with Some v => splice p 4 v | None => p end) (m + 2) (replicate 16 0).

(** What signing makes of a packet. *)
Inductive signed (code : Z) (len : nat) (p : bytes) : scan -> bytes -> Prop :=
  | signed_random :
      is_random_vector code = true -> signed code len p ScanEnd p
  | signed_random_ma m :
      is_random_vector code = true -> (m + 18 <= length p)%nat ->
      signed code len p (ScanFound m) (splice p (m + 2) (hmac_of len (prepared None m p)))
  | signed_hashed v :
      hashed_vector code = Some v ->
      signed code len p ScanEnd (splice p 4 (auth_of len (splice p 4 v)))
  | signed_hashed_ma m v :
      hashed_vector code = Some v -> code <> FR_RADIUS_CODE_PROTOCOL_ERROR -> (m + 18 <= length p)%nat ->
      signed code len p (ScanFound m)
        (let p' := splice (prepared (Some v) m p) (m + 2) (hmac_of len (prepared (Some v) m p)) in
         splice p' 4 (auth_of len p')).

Lemma random_not_hashed code : is_random_vector code = true -> hashed_vector code = None.
Proof.
  unfold is_random_vector, hashed_vector, is_request_signed, is_reply_signed.
  intros [E|E]%orb_true_iff; apply Z.eqb_eq in E; by subst.
Qed.

Lemma hashed_vector_length code v : hashed_vector code = Some v -> length v = 16%nat.
Proof.
  unfold hashed_vector. repeat case_if; intros Hv; simplify_eq; [done|].
  destruct vector as [w|] eqn:Ev; [|done]. cbn in Hv. simplify_eq. rewrite length_take.
  specialize (Hvec w eq_refl). lia.
Qed.

Lemma ma_vector_eq code p :
  (20 <= length p)%nat ->
  ma_vector code vector p =
  Some (if is_random_vector code then Continue p
        else if code =? FR_RADIUS_CODE_PROTOCOL_ERROR then ReturnError
        else match hashed_vector code with
             | Some v => Continue (splice p 4 v)
             | None => ReturnError
             end).
Proof.
  intros Hp. pose proof (random_not_hashed code) as Hr. unfold ma_vector.
  destruct (hashed_vector code) as [v|] eqn:Ev.
  - pose proof (hashed_vector_length _ _ Ev) as Hlen.
    destruct (is_random_vector code); [specialize (Hr eq_refl); done|].
    unfold hashed_vector in Ev. destruct (Z.eqb_spec code FR_RADIUS_CODE_PROTOCOL_ERROR) as [->|?]; [done|].
    destruct (is_request_signed code); simplify_eq; [by rewrite store_eq by (rewrite length_replicate; lia)|].
    destruct (is_reply_signed code); cbn [orb] in Ev; [|done].
    destruct vector as [w|]; [|done]. cbn in Ev. simplify_eq. by rewrite store_eq by (rewrite ?Hlen; lia).
  - unfold hashed_vector in Ev. destruct (is_request_signed code); [done|].
    destruct (is_reply_signed code) eqn:Erep; cbn [orb] in Ev.
    + destruct vector; [done|].
      assert (is_random_vector code = false) as ->; [|by destruct (code =? FR_RADIUS_CODE_PROTOCOL_ERROR)].
      clear -Erep. unfold is_reply_signed, is_random_vector in *.
      destruct (Z.eqb_spec code FR_RADIUS_CODE_ACCESS_REQUEST) as [->|?]; [done|].
      by destruct (Z.eqb_spec code FR_RADIUS_CODE_STATUS_SERVER) as [->|?].
    + destruct (is_random_vector code); [done|]. by destruct (code =? FR_RADIUS_CODE_PROTOCOL_ERROR).
Qed.

Lemma auth_vector_eq code p :
  (20 <= length p)%nat ->
  auth_vector code vector p =
  Some (if is_random_vector code then Return0
        else match hashed_vector code with
             | Some v => Continue (splice p 4 v)
             | None => ReturnError
             end).
Proof.
  intros Hp. pose proof (random_not_hashed code) as Hr. unfold auth_vector.
  destruct (hashed_vector code) as [v|] eqn:Ev.
  - pose proof (hashed_vector_length _ _ Ev) as Hlen.
    destruct (is_random_vector code); [specialize (Hr eq_refl); done|].
    unfold hashed_vector in Ev.
    destruct (is_request_signed code); simplify_eq; [by rewrite store_eq by (rewrite length_replicate; lia)|].
    destruct (_ || _); [|done].
    destruct vector as [w|]; [|done]. cbn in Ev. simplify_eq. by rewrite store_eq by (rewrite ?Hlen; lia).
  - unfold hashed_vector in Ev. destruct (is_request_signed code); [done|].
    destruct (_ || _) eqn:Erep; [|by destruct (is_random_vector code)].
    destruct vector; [done|]. assert (is_random_vector code = false) as ->; [|done].
    clear -Erep. unfold is_reply_signed, is_random_vector in *.
    destruct (Z.eqb_spec code FR_RADIUS_CODE_ACCESS_REQUEST) as [->|?]; [done|].
    by destruct (Z.eqb_spec code FR_RADIUS_CODE_STATUS_SERVER) as [->|?].
Qed.

(** The header of a packet whose bytes are all in the buffer. *)
Record header (p : bytes) (len : nat) (code : Z) (sc : scan) : Prop := {
  hd_len : fr_nbo_to_uint16 p 2 = Some len;
  hd_code : p !! 0%nat = Some code;
  hd_bounds : (20 <= len <= length p)%nat;
  hd_16 : Z.of_nat len < 65536;
  hd_scan : sign_scan len p len 20 = Some sc;
}.

Hypothesis Hsecret : Z.of_nat (length secret) <= UINT16_MAX.

Lemma hmac_of_length len p : Z.of_nat len < 65536 -> length (hmac_of len p) = 16%nat.
Proof.
  intros Hl. unfold hmac_of. unfold UINT16_MAX in Hsecret.
  rewrite fr_hmac_md5_hmac; try (done || lia).
  - unfold hmac. by rewrite digest_length.
  - rewrite Nat2Z.inj_add, length_take. lia.
Qed.

Lemma auth_of_length len p : Z.of_nat len < 65536 -> length (auth_of len p) = 16%nat.
Proof.
  intros Hl. unfold auth_of. unfold UINT16_MAX in Hsecret.
  rewrite two_updates_digest; [by rewrite digest_length|apply ctx_alloc_holds|].
  rewrite Nat2Z.inj_add, length_take. lia.
Qed.

Lemma prepared_length v m p :
  (forall w, v = Some w -> length w = 16%nat) -> (20 <= length p)%nat -> (m + 18 <= length p)%nat ->
  length (prepared v m p) = length p.
Proof.
  intros Hv Hp Hm. unfold prepared. destruct v as [w|].
  - specialize (Hv w eq_refl). rewrite !length_splice; rewrite ?length_splice; rewrite ?length_replicate; lia.
  - rewrite length_splice; rewrite ?length_replicate; lia.
Qed.

(** The steps of fr_radius_sign after the header has been read. *)
Lemma sign_unfold p len code sc :
  header p len code sc ->
  fr_radius_sign p vector secret =
  with_ma ←
    match sc with
    | ScanInvalid | ScanTooSmall => Some ReturnError
    | ScanEnd => Some (Continue p)
    | ScanFound msg =>
        st ← ma_vector code vector p;
        match st with
        | Continue p =>
            p ← store p (msg + 2) (replicate 16 0);
            data ← load p 0 len;
            Continue <$> store p (msg + 2) (fr_hmac_md5 data secret)
        | out => Some out
        end
    end;
  match with_ma with
  | ReturnError => Some (-1, p)
  | Return0 => Some (0, p)
  | Continue p =>
      st ← auth_vector code vector p;
      match st with
      | ReturnError => Some (-1, p)
      | Return0 => Some (0, p)
      | Continue p => p ← sign_authenticator p len secret; Some (0, p)
      end
  end.
Proof.
  intros [Hl Hc Hb _ Hs]. unfold fr_radius_sign. rewrite Hl, Hc. cbn [mbind option_bind].
  rewrite (proj2 (Z.leb_le _ _) Hsecret), (proj2 (Nat.ltb_ge _ _)) by lia.
  cbn [negb]. by rewrite Hs.
Qed.

Lemma sign_authenticator_eq len p :
  (20 <= len <= length p)%nat -> Z.of_nat len < 65536 ->
  sign_authenticator p len secret = Some (splice p 4 (auth_of len p)).
Proof.
  intros Hb H. unfold sign_authenticator. rewrite load_eq by lia. cbn [mbind option_bind drop].
  fold (auth_of len p). apply store_eq. rewrite auth_of_length by done. lia.
Qed.

(** Storing the Message-Authenticator. *)
Lemma store_ma len v m p :
  (20 <= len <= length p)%nat -> Z.of_nat len < 65536 -> (forall w, v = Some w -> length w = 16%nat) ->
  (m + 18 <= length p)%nat ->
  (p ← store (match v with Some w => splice p 4 w | None => p end) (m + 2) (replicate 16 0);
   data ← load p 0 len;
   Continue <$> store p (m + 2) (fr_hmac_md5 data secret)) =
  Some (Continue (splice (prepared v m p) (m + 2) (hmac_of len (prepared v m p)))).
Proof.
  intros Hb Hl Hv Hm. pose proof (prepared_length v m p Hv) as Hpl. unfold prepared in Hpl.
  rewrite store_eq.
  2:{ rewrite length_replicate. destruct v as [w|]; [|lia].
      specialize (Hv w eq_refl). rewrite length_splice; lia. }
  cbn [mbind option_bind]. rewrite load_eq by lia. cbn [mbind option_bind]. rewrite drop_0.
  change (splice _ (m + 2) (replicate 16 0)) with (prepared v m p) in *.
  change (fr_hmac_md5 _ secret) with (hmac_of len (prepared v m p)).
  rewrite store_eq by (rewrite hmac_of_length by done; lia). done.
Qed.

Lemma found_bounds p len code m : header p len code (ScanFound m) -> (20 <= m)%nat /\ (m + 2 <= len)%nat.
Proof.
  intros [_ _ _ _ Hs]. destruct (sign_scan_verify _ _ _ _ _ Hs false false) as [b Hv].
  by apply verify_scan_found in Hv.
Qed.

Lemma sign_signed p len code sc q :
  header p len code sc -> signed code len p sc q -> fr_radius_sign p vector secret = Some (0, q).
Proof.
  intros Hh Hs. rewrite (sign_unfold _ _ _ _ Hh). pose proof (hd_bounds _ _ _ _ Hh) as Hb.
  pose proof (hd_16 _ _ _ _ Hh) as Hl.
  destruct Hs as [Hr|m Hr Hm|v Hv|m v Hv Hpe Hm]; cbn [mbind option_bind].
  - rewrite auth_vector_eq, Hr by lia. done.
  - rewrite ma_vector_eq, Hr by lia. cbn [mbind option_bind].
    rewrite (store_ma len None m p) by done. cbn [mbind option_bind].
    rewrite auth_vector_eq, Hr; [|rewrite length_splice; rewrite ?prepared_length, ?hmac_of_length; done || lia].
    cbn [mbind option_bind]. do 2 f_equal. unfold prepared. apply splice_overwrite;
    rewrite ?length_replicate, ?hmac_of_length; done || lia.
  - rewrite auth_vector_eq, Hv by lia. pose proof (hashed_vector_length _ _ Hv) as Hvl.
    destruct (is_random_vector code) eqn:Er; [by rewrite random_not_hashed in Hv|].
    cbn [mbind option_bind]. rewrite sign_authenticator_eq; [|rewrite length_splice; lia|done].
    cbn [mbind option_bind]. rewrite splice_overwrite; [done|lia|]. by rewrite auth_of_length.
  - pose proof (hashed_vector_length _ _ Hv) as Hvl.
    destruct (found_bounds _ _ _ _ Hh) as [Hm20 _].
    assert (length (prepared (Some v) m p) = length p) as Hpl.
    { apply prepared_length; try lia. by intros ? [= <-]. }
    rewrite ma_vector_eq, Hv, (proj2 (Z.eqb_neq _ _) Hpe) by lia.
    destruct (is_random_vector code) eqn:Er; [by rewrite random_not_hashed in Hv|].
    cbn [mbind option_bind]. rewrite (store_ma len (Some v) m p) by (done || by intros ? [= <-]).
    cbn [mbind option_bind].
    assert (length (splice (prepared (Some v) m p) (m + 2) (hmac_of len (prepared (Some v) m p))) = length p) as Hpl'.
    { rewrite length_splice; rewrite ?hmac_of_length; lia. }
    rewrite auth_vector_eq, Er, Hv by lia. cbn [mbind option_bind].
    assert (splice (splice (prepared (Some v) m p) (m + 2) (hmac_of len (prepared (Some v) m p))) 4 v =
            splice (prepared (Some v) m p) (m + 2) (hmac_of len (prepared (Some v) m p))) as ->.
    { rewrite <- splice_comm by (rewrite ?hmac_of_length by done; lia). f_equal. unfold prepared.
      rewrite <- splice_comm by (rewrite ?length_replicate; try rewrite length_splice; lia).
      rewrite splice_overwrite by lia. done. }
    rewrite sign_authenticator_eq by (rewrite ?Hpl'; done). done.
Qed.

(** Signing succeeds with a signed packet, or fails and leaves the packet as
    it was. *)
Lemma sign_inv p len code sc r q :
  header p len code sc -> fr_radius_sign p vector secret = Some (r, q) ->
  (r = -1 /\ q = p) \/ (r = 0 /\ signed code len p sc q).
Proof.
  intros Hh Hs. pose proof Hs as Hs'. rewrite (sign_unfold _ _ _ _ Hh) in Hs.
  pose proof (hd_bounds _ _ _ _ Hh) as Hb.
  assert (forall q', signed code len p sc q' -> (r = -1 /\ q = p) \/ (r = 0 /\ signed code len p sc q)) as Hok.
  { intros q' Hq'. rewrite (sign_signed _ _ _ _ _ Hh Hq') in Hs'. simplify_eq. by right. }
  clear Hs'. destruct sc as [| | |m]; cbn [mbind option_bind] in Hs; [left; by simplify_eq..| |].
  - rewrite auth_vector_eq in Hs by lia.
    destruct (is_random_vector code) eqn:Er; [by eapply Hok, signed_random|].
    destruct (hashed_vector code) as [v|] eqn:Ev; [by eapply Hok, signed_hashed|].
    left. cbn in Hs. by simplify_eq.
  - destruct (decide (m + 18 <= length p)%nat) as [Hm|Hm].
    + rewrite ma_vector_eq in Hs by lia.
      destruct (is_random_vector code) eqn:Er; [by eapply Hok, signed_random_ma|].
      destruct (Z.eqb_spec code FR_RADIUS_CODE_PROTOCOL_ERROR) as [|Hpe]; [left; cbn in Hs; by simplify_eq|].
      destruct (hashed_vector code) as [v|] eqn:Ev; [by eapply Hok, signed_hashed_ma|].
      left. cbn in Hs. by simplify_eq.
    + assert (forall x, length x = length p -> store x (m + 2) (replicate 16 0) = None) as Hoob.
      { intros x Hx. unfold store. rewrite length_replicate, (proj2 (Nat.leb_gt _ _)) by lia. done. }
      rewrite ma_vector_eq in Hs by lia. cbn [mbind option_bind] in Hs.
      destruct (is_random_vector code) eqn:Er; [by rewrite Hoob in Hs|].
      destruct (_ =? _); [left; cbn in Hs; by simplify_eq|].
      destruct (hashed_vector code) as [v|] eqn:Ev; [|left; cbn in Hs; by simplify_eq].
      rewrite Hoob in Hs; [done|]. rewrite length_splice; [done|].
      rewrite (hashed_vector_length _ _ Ev). lia.
Qed.

(** The bytes signing writes: the authenticator, and the value of the
    Message-Authenticator it found. *)
Definition written (sc : scan) (i : nat) : Prop :=
  (4 <= i < 20)%nat \/ exists m, sc = ScanFound m /\ (m + 2 <= i < m + 18)%nat.

Lemma signed_frame p len code sc q :
  header p len code sc -> signed code len p sc q ->
  length q = length p /\ forall i, ~ written sc i -> q !! i = p !! i.
Proof.
  intros Hh Hs. pose proof (hd_bounds _ _ _ _ Hh) as Hb. pose proof (hd_16 _ _ _ _ Hh) as Hl.
  assert (forall a i, length a = 16%nat -> ~ written sc i -> splice p 4 a !! i = p !! i) as H4.
  { intros a i Ha Hw. rewrite lookup_splice by lia. rewrite decide_False; [done|].
    intros ?. apply Hw. left. lia. }
  destruct Hs as [Hr|m Hr Hm|v Hv|m v Hv Hpe Hm].
  - done.
  - split; [rewrite length_splice; [done|rewrite hmac_of_length by done; lia]|].
    intros i Hw. rewrite lookup_splice by (rewrite hmac_of_length by done; lia).
    rewrite decide_False; [done|]. rewrite hmac_of_length by done. intros ?. apply Hw. right. exists m. split; [done|lia].
  - split; [rewrite length_splice; [done|rewrite auth_of_length by done; lia]|].
    intros i Hw. apply H4; [by apply auth_of_length|done].
  - pose proof (hashed_vector_length _ _ Hv) as Hvl.
    destruct (found_bounds _ _ _ _ Hh) as [Hm20 _].
    assert (length (prepared (Some v) m p) = length p) as Hpl.
    { apply prepared_length; try lia. by intros ? [= <-]. }
    set (h := hmac_of len (prepared (Some v) m p)).
    assert (length h = 16%nat) as Hh16 by (by apply hmac_of_length). cbv zeta.
    set (a := auth_of len _). assert (length a = 16%nat) as Ha by (by apply auth_of_length).
    clearbody h a. split; [rewrite !length_splice; rewrite ?length_splice; lia|].
    intros i Hw. rewrite !lookup_splice by (rewrite ?length_splice; lia).
    assert (~ (4 <= i < 20)%nat /\ ~ (m + 2 <= i < m + 18)%nat) as [Hi1 Hi2].
    { split; intros ?; apply Hw; [by left|right; exists m; split; [done|lia]]. }
    rewrite !decide_False by lia. unfold prepared.
    rewrite lookup_splice by (rewrite length_replicate, length_splice; lia).
    rewrite length_replicate, decide_False by lia. rewrite lookup_splice by lia.
    rewrite decide_False by lia. done.
Qed.

Lemma signed_header p len code sc q :
  header p len code sc -> signed code len p sc q -> header q len code sc.
Proof.
  intros Hh Hs. destruct (signed_frame _ _ _ _ _ Hh Hs) as [Hlen Hsame].
  assert (forall i, (i < 4)%nat -> q !! i = p !! i) as Hlow.
  { intros i Hi. apply Hsame. intros [?|(m & -> & ?)]; [lia|]. destruct (found_bounds _ _ _ _ Hh). lia. }
  destruct Hh as [Hl Hc Hb H16b Hscan]. split.
  - unfold fr_nbo_to_uint16 in *. by rewrite !Hlow by lia.
  - by rewrite Hlow by lia.
  - lia.
  - done.
  - destruct (sign_scan_verify _ _ _ _ _ Hscan false false) as [b Hv].
    rewrite <- (verify_scan_sign _ _ _ false _ false).
    rewrite (verify_scan_frame _ _ q _ _ _ _ _ _ Hv); [done|].
    intros i Hi Hm. apply Hsame. intros [?|(m & -> & ?)]; [lia|]. specialize (Hm m eq_refl). lia.
Qed.

(** Signing a second time changes nothing. *)
Lemma signed_idem p len code sc q :
  header p len code sc -> signed code len p sc q -> signed code len q sc q.
Proof.
  intros Hh Hs. pose proof (hd_bounds _ _ _ _ Hh) as Hb. pose proof (hd_16 _ _ _ _ Hh) as Hl.
  destruct (signed_frame _ _ _ _ _ Hh Hs) as [Hlen _].
  destruct Hs as [Hr|m Hr Hm|v Hv|m v Hv Hpe Hm].
  - by constructor.
  - set (h := hmac_of len (prepared None m p)) in *.
    assert (length h = 16%nat) as Hh16 by (by apply hmac_of_length).
    pose proof (signed_random_ma code len (splice p (m + 2) h) m Hr) as Hc.
    assert (prepared None m (splice p (m + 2) h) = prepared None m p) as Hp.
    { unfold prepared. apply splice_overwrite; rewrite ?length_replicate; lia. }
    rewrite Hp in Hc. fold h in Hc. rewrite splice_overwrite in Hc by lia. apply Hc. lia.
  - pose proof (hashed_vector_length _ _ Hv) as Hvl.
    set (a := auth_of len (splice p 4 v)) in *.
    assert (length a = 16%nat) as Ha by (by apply auth_of_length).
    pose proof (signed_hashed code len (splice p 4 a) v Hv) as Hc.
    rewrite (splice_overwrite _ _ a v) in Hc by lia. fold a in Hc.
    by rewrite splice_overwrite in Hc by lia.
  - pose proof (hashed_vector_length _ _ Hv) as Hvl.
    destruct (found_bounds _ _ _ _ Hh) as [Hm20 _]. cbv zeta in *.
    set (h := hmac_of len (prepared (Some v) m p)) in *.
    assert (length h = 16%nat) as Hh16 by (by apply hmac_of_length).
    set (p' := splice (prepared (Some v) m p) (m + 2) h) in *.
    set (a := auth_of len p') in *. assert (length a = 16%nat) as Ha by (by apply auth_of_length).
    pose proof (signed_hashed_ma code len (splice p' 4 a) m v Hv Hpe) as Hc.
    assert (length p' = length p) as Hp'.
    { unfold p'. rewrite length_splice; rewrite prepared_length; try (done || lia); by intros ? [= <-]. }
    assert (prepared (Some v) m (splice p' 4 a) = prepared (Some v) m p) as Hp.
    { unfold prepared. rewrite splice_overwrite by lia.
      rewrite splice_comm by (rewrite ?length_replicate; lia). unfold p'.
      rewrite splice_overwrite by (rewrite ?prepared_length, ?length_replicate; try (done || lia); by intros ? [= <-]).
      unfold prepared. rewrite splice_overwrite by (rewrite ?length_replicate; try rewrite length_splice; lia).
      rewrite <- splice_comm by (rewrite ?length_replicate; try rewrite length_splice; lia).
      by rewrite splice_overwrite by lia. }
    rewrite Hp in Hc. fold h in Hc. cbv zeta in Hc. fold p' in Hc. fold a in Hc. apply Hc.
    rewrite length_splice by lia. lia.
Qed.

(** * Verification *)

Definition field (p : bytes) (off : nat) : bytes := take 16 (drop off p).

Lemma field_length p off : (off + 16 <= length p)%nat -> length (field p off) = 16%nat.
Proof. intros. unfold field. rewrite length_take, length_drop. lia. Qed.

Lemma field_lookup p off i : (off <= i < off + 16)%nat -> p !! i = field p off !! (i - off)%nat.
Proof. intros. unfold field. rewrite lookup_take_lt, lookup_drop by lia. f_equal. lia. Qed.

(** A packet that agrees with [p] outside the written bytes and in the written
    fields is [p]. *)
Lemma agree_eq p q sc :
  (forall i, ~ written sc i -> q !! i = p !! i) -> field q 4 = field p 4 ->
  (forall m, sc = ScanFound m -> field q (m + 2) = field p (m + 2)) -> q = p.
Proof.
  intros Hsame H4 Hm. apply list_eq. intros i.
  destruct (decide (4 <= i < 20)%nat) as [Hi|Hi].
  - rewrite !(field_lookup _ 4 i) by lia. by rewrite H4.
  - destruct sc as [| | |m]; try (apply Hsame; intros [?|(? & ? & ?)]; done).
    destruct (decide (m + 2 <= i < m + 18)%nat) as [Hj|Hj].
    + rewrite !(field_lookup _ (m + 2) i) by lia. by rewrite (Hm m).
    + apply Hsame. intros [?|(m' & Heq & ?)]; [lia|]. simplify_eq. lia.
Qed.

Lemma random_keeps p len code sc q :
  header p len code sc -> signed code len p sc q -> is_random_vector code = true -> field q 4 = field p 4.
Proof.
  intros Hh Hs Hr. pose proof (hd_16 _ _ _ _ Hh).
  destruct Hs as [_|m _ Hm|v Hv|m v Hv Hpe Hm]; [done| |by rewrite random_not_hashed in Hv..].
  destruct (found_bounds _ _ _ _ Hh). unfold field. apply slice_splice_ne; rewrite hmac_of_length by done; lia.
Qed.

(** Putting the saved authenticators back restores the packet. *)
Lemma restore_auth p q sc :
  length q = length p -> (20 <= length p)%nat -> (forall i, ~ written sc i -> q !! i = p !! i) ->
  (forall m, sc = ScanFound m -> (20 <= m)%nat /\ field q (m + 2) = field p (m + 2)) ->
  splice q 4 (field p 4) = p.
Proof.
  intros Hlen Hp Hsame Hm. pose proof (field_length p 4) as Hf. apply (agree_eq _ _ sc).
  - intros i Hi. rewrite lookup_splice by lia. rewrite decide_False; [by apply Hsame|].
    intros ?. apply Hi. left. lia.
  - unfold field. apply slice_splice; unfold field in Hf; lia.
  - intros m Hsc. destruct (Hm m Hsc) as [H20 <-]. unfold field. apply slice_splice_ne; [unfold field in Hf; lia|].
    right. unfold field in Hf. lia.
Qed.

Lemma restore_both p q m :
  length q = length p -> (20 <= m)%nat -> (m + 18 <= length p)%nat ->
  (forall i, ~ written (ScanFound m) i -> q !! i = p !! i) ->
  splice (splice q (m + 2) (field p (m + 2))) 4 (field p 4) = p.
Proof.
  intros Hlen H20 Hm Hsame. pose proof (field_length p (m + 2)) as Hf.
  apply (restore_auth _ _ (ScanFound m)).
  - rewrite length_splice; lia.
  - lia.
  - intros i Hi. rewrite lookup_splice by lia. rewrite decide_False; [by apply Hsame|].
    intros ?. apply Hi. right. exists m. split; [done|]. lia.
  - intros m' [= <-]. split; [done|]. unfold field at 1. apply slice_splice; lia.
Qed.

Definition found_ma (sc : scan) : bool := match sc with ScanFound _ => true | _ => false end.

(** The Message-Authenticator the scan found is inside the buffer. *)
Definition in_buffer (sc : scan) (p : bytes) : Prop :=
  match sc with
  | ScanEnd => True
  | ScanFound m => (m + 18 <= length p)%nat
  | _ => False
  end.

(** The comparisons of fr_radius_verify, on the packet that signing made. *)
Definition same_ma (p q : bytes) (sc : scan) : bool :=
  match sc with ScanFound m => bool_decide (field p (m + 2) = field q (m + 2)) | _ => true end.

Definition compare (p q : bytes) (code : Z) (sc : scan) : fr_radius_decode_fail_t :=
  if negb (same_ma p q sc)
  then DECODE_FAIL_MA_INVALID
  else if is_random_vector code then DECODE_FAIL_NONE
  else if bool_decide (field p 4 = field q 4) then DECODE_FAIL_NONE else DECODE_FAIL_VERIFY.

(** fr_radius_verify after it has signed its packet into [q]. *)
Definition after_sign (p q : bytes) (sc : scan) : option (fr_radius_decode_fail_t * bytes) :=
  ma_ok ← match sc with
          | ScanFound m => computed ← load q (m + 2) 16; Some (fr_digest_cmp (field p (m + 2)) computed =? 0)
          | _ => Some true
          end;
  if negb ma_ok then
    q ← match sc with ScanFound m => store q (m + 2) (field p (m + 2)) | _ => Some q end;
    q ← store q 4 (field p 4);
    Some (DECODE_FAIL_MA_INVALID, q)
  else
  code ← q !! 0%nat;
  if is_random_vector code then Some (DECODE_FAIL_NONE, q) else
  computed ← load q 4 16;
  if negb (fr_digest_cmp (field p 4) computed =? 0) then
    q ← store q 4 (field p 4);
    Some (DECODE_FAIL_VERIFY, q)
  else Some (DECODE_FAIL_NONE, q).

Lemma verify_unfold p len code sc fp req lim :
  header p len code sc -> in_buffer sc p -> 1 <= code < 53 ->
  verify_scan len p len lim 20 false = Some (sc, fp) ->
  fr_radius_verify p vector secret req lim =
  if negb (ma_policy code req lim fp (found_ma sc)) then Some (DECODE_FAIL_MA_MISSING, p) else
  '(rcode, q) ← fr_radius_sign p vector secret;
  if rcode <? 0 then Some (DECODE_FAIL_VERIFY, q) else after_sign p q sc.
Proof.
  intros Hh Hin Hcode Hscan. pose proof (hd_bounds _ _ _ _ Hh) as Hb.
  unfold fr_radius_verify.
  rewrite (hd_len _ _ _ _ Hh), (hd_code _ _ _ _ Hh). cbn [mbind option_bind].
  rewrite (proj2 (Nat.ltb_ge _ _)) by lia.
  rewrite (proj2 (orb_false_iff _ _)) by (split; [apply Z.eqb_neq|apply Z.leb_gt]; lia).
  rewrite (load_eq p 4) by lia. cbn [mbind option_bind]. rewrite Hscan. cbn [mbind option_bind].
  destruct sc as [| | |m]; try done; cbn [in_buffer found_ma] in *.
  rewrite (load_eq p (m + 2)) by lia. done.
Qed.

Lemma after_sign_compare p len code sc q :
  header p len code sc -> in_buffer sc p -> signed code len p sc q ->
  after_sign p q sc = Some (compare p q code sc, p).
Proof.
  intros Hh Hin Hs. destruct (signed_frame _ _ _ _ _ Hh Hs) as [Hlen Hsame].
  pose proof (hd_code _ _ _ _ (signed_header _ _ _ _ _ Hh Hs)) as Hcode.
  pose proof (hd_bounds _ _ _ _ Hh) as Hb. pose proof (random_keeps _ _ _ _ _ Hh Hs) as Hrand.
  assert (forall m, sc = ScanFound m -> (20 <= m)%nat /\ (m + 18 <= length p)%nat) as Hm.
  { intros m ->. split; [by apply (found_bounds _ _ _ _ Hh)|done]. }
  assert (same_ma p q sc = true -> forall m, sc = ScanFound m -> field q (m + 2) = field p (m + 2)) as Hma.
  { intros Hsm m ->. cbn in Hsm. by case_bool_decide. }
  unfold after_sign, compare. trans (Some (same_ma p q sc) ≫= fun ma_ok : bool =>
    if negb ma_ok then
      q ← match sc with ScanFound m => store q (m + 2) (field p (m + 2)) | _ => Some q end;
      q ← store q 4 (field p 4);
      Some (DECODE_FAIL_MA_INVALID, q)
    else
    code ← q !! 0%nat;
    if is_random_vector code then Some (DECODE_FAIL_NONE, q) else
    computed ← load q 4 16;
    if negb (fr_digest_cmp (field p 4) computed =? 0) then
      q ← store q 4 (field p 4);
      Some (DECODE_FAIL_VERIFY, q)
    else Some (DECODE_FAIL_NONE, q)).
  { f_equal. destruct sc as [| | |m]; try done. destruct (Hm m eq_refl).
    rewrite load_eq by lia. cbn [mbind option_bind same_ma]. fold (field q (m + 2)).
    by rewrite fr_digest_cmp_eq by (rewrite !field_length; lia). }
  cbn [mbind option_bind]. destruct (same_ma p q sc) eqn:Esm; cbn [negb].
  - specialize (Hma eq_refl). rewrite Hcode. cbn [mbind option_bind].
    destruct (is_random_vector code) eqn:Er.
    { do 2 f_equal. apply (agree_eq _ _ sc); [done|by apply Hrand|done]. }
    rewrite load_eq by lia. cbn [mbind option_bind]. fold (field q 4).
    rewrite fr_digest_cmp_eq by (rewrite !field_length; lia). case_bool_decide as Heq; cbn [negb].
    + do 2 f_equal. by apply (agree_eq _ _ sc).
    + rewrite store_eq by (rewrite field_length; lia). cbn [mbind option_bind]. do 2 f_equal.
      apply (restore_auth _ _ sc); [done|lia|done|]. intros m Hsc. split; [by apply Hm|by apply Hma].
  - destruct sc as [| | |m]; try done. destruct (Hm m eq_refl).
    rewrite store_eq by (rewrite field_length; lia). cbn [mbind option_bind].
    rewrite store_eq by (rewrite length_splice; rewrite !field_length; lia). cbn [mbind option_bind].
    do 2 f_equal. by apply restore_both.
Qed.

(** A buffer that holds at least the packet its length field announces. *)
Definition whole (p : bytes) : Prop :=
  is_bytes p /\ forall len, fr_nbo_to_uint16 p 2 = Some len -> (len <= length p)%nat.

(** Packets verification does not reject before it looks at the digests. *)
Definition acceptable (p : bytes) (req lim : bool) : Prop :=
  exists len code sc fp, header p len code sc /\ in_buffer sc p /\ 1 <= code < 53 /\
    verify_scan len p len lim 20 false = Some (sc, fp) /\ ma_policy code req lim fp (found_ma sc) = true.

Lemma nbo16_range p off len : is_bytes p -> fr_nbo_to_uint16 p off = Some len -> Z.of_nat len < 65536.
Proof.
  intros Hb Hl. assert (off + 1 < length p)%nat as Hlt.
  { unfold fr_nbo_to_uint16 in Hl. destruct (p !! off); [|done]. cbn in Hl.
    destruct (p !! (off + 1)%nat) eqn:E; [|done]. by apply lookup_lt_Some in E. }
  destruct (nbo16_total p off Hb Hlt) as (n & Hn & ?). congruence.
Qed.

(** The header checks of fr_radius_verify. *)
Lemma verify_enter p req lim r q :
  whole p -> fr_radius_verify p vector secret req lim = Some (r, q) ->
  (q = p /\ r <> DECODE_FAIL_NONE) \/
  exists len code sc fp, header p len code sc /\ in_buffer sc p /\ 1 <= code < 53 /\
    verify_scan len p len lim 20 false = Some (sc, fp).
Proof.
  intros [Hbytes Hwhole] Hv. unfold fr_radius_verify in Hv.
  destruct (fr_nbo_to_uint16 p 2) as [len|] eqn:El; [|done]. cbn [mbind option_bind] in Hv.
  pose proof (nbo16_range _ _ _ Hbytes El) as H16b. specialize (Hwhole len eq_refl).
  destruct (len <? _)%nat eqn:E20; [left; by simplify_eq|]. simpl_bool.
  destruct (p !! 0%nat) as [code|] eqn:Ec; [|done]. cbn [mbind option_bind] in Hv.
  destruct (_ || _) eqn:Erange; [left; by simplify_eq|]. apply orb_false_iff in Erange as [E0 E53]. simpl_bool.
  pose proof (Forall_lookup_1 _ _ _ _ Hbytes Ec) as Hc8. unfold is_u8 in Hc8.
  rewrite load_eq in Hv by lia. cbn [mbind option_bind] in Hv.
  destruct (verify_scan len p len lim RADIUS_HEADER_LENGTH false) as [[sc fp]|] eqn:Es; [|done].
  cbn [mbind option_bind] in Hv.
  assert (header p len code sc) as Hh.
  { split; [done|done|lia|done|]. rewrite <- (verify_scan_sign _ _ _ lim _ false).
    by rewrite Es. }
  assert (in_buffer sc p \/ (q = p /\ r <> DECODE_FAIL_NONE)) as [Hin|?]; [|right|by left].
  { destruct sc as [| | |m]; [right; by simplify_eq..|by left|]. left. unfold load in Hv. cbn [in_buffer].
    destruct (m + 2 + _ <=? length p)%nat eqn:Em; [|done].
    simpl_bool. lia. }
  exists len, code, sc, fp. split_and!; try done; lia.
Qed.

(** How verification can end. *)
Lemma verify_inv p req lim r q :
  whole p -> fr_radius_verify p vector secret req lim = Some (r, q) ->
  q = p /\ (r = DECODE_FAIL_NONE -> acceptable p req lim /\ fr_radius_sign p vector secret = Some (0, p)).
Proof.
  intros Hw Hv. destruct (verify_enter _ _ _ _ _ Hw Hv) as [[-> ?]|(len & code & sc & fp & Hh & Hin & Hc & Hs)];
    [done|].
  rewrite (verify_unfold _ _ _ _ _ req _ Hh Hin Hc Hs) in Hv.
  destruct (ma_policy _ _ _ _ _) eqn:Epol; cbn [negb] in Hv; [|by simplify_eq].
  destruct (fr_radius_sign p vector secret) as [[rc q']|] eqn:Esign; [|done]. cbn [mbind option_bind] in Hv.
  destruct (sign_inv _ _ _ _ _ _ Hh Esign) as [[-> ->]|[-> Hsg]]; cbn [Z.ltb Z.compare] in Hv; [by simplify_eq|].
  rewrite (after_sign_compare _ _ _ _ _ Hh Hin Hsg) in Hv. injection Hv as <- <-. split; [done|].
  intros Hcmp. split; [by exists len, code, sc, fp|]. do 2 f_equal.
  destruct (signed_frame _ _ _ _ _ Hh Hsg) as [_ Hsame]. unfold compare in Hcmp.
  destruct (same_ma p q' sc) eqn:Esm; cbn [negb] in Hcmp; [|done]. apply (agree_eq _ _ sc Hsame).
  - destruct (is_random_vector code) eqn:Er; [by apply (random_keeps p len code sc)|]. by case_bool_decide.
  - intros m ->. cbn [same_ma] in Esm. by apply bool_decide_eq_true in Esm.
Qed.

Lemma verify_signed p req lim :
  acceptable p req lim -> fr_radius_sign p vector secret = Some (0, p) ->
  fr_radius_verify p vector secret req lim = Some (DECODE_FAIL_NONE, p).
Proof.
  intros (len & code & sc & fp & Hh & Hin & Hc & Hs & Hpol) Hsign.
  rewrite (verify_unfold _ _ _ _ _ req _ Hh Hin Hc Hs), Hpol, Hsign. cbn [negb mbind option_bind Z.ltb Z.compare].
  destruct (sign_inv _ _ _ _ _ _ Hh Hsign) as [[? _]|[_ Hsg]]; [done|].
  rewrite (after_sign_compare _ _ _ _ _ Hh Hin Hsg). unfold compare.
  assert (same_ma p p sc = true) as ->.
  { destruct sc; try done. cbn. by rewrite bool_decide_true. }
  cbn [negb]. destruct (is_random_vector code); [done|]. by rewrite bool_decide_true.
Qed.

Lemma sign_total p len code sc :
  header p len code sc -> in_buffer sc p -> exists r q, fr_radius_sign p vector secret = Some (r, q).
Proof.
  intros Hh Hin. pose proof (hd_bounds _ _ _ _ Hh) as Hb.
  assert (forall q, signed code len p sc q -> exists r q, fr_radius_sign p vector secret = Some (r, q)) as Hok.
  { intros q Hq. exists 0, q. by apply (sign_signed _ len code sc). }
  destruct sc as [| | |m]; try done; cbn [in_buffer] in Hin.
  - destruct (is_random_vector code) eqn:Er; [by eapply Hok, signed_random|].
    destruct (hashed_vector code) as [v|] eqn:Ev; [by eapply Hok, signed_hashed|].
    rewrite (sign_unfold _ _ _ _ Hh). cbn [mbind option_bind]. rewrite auth_vector_eq, Er, Ev by lia. by eexists _, _.
  - destruct (is_random_vector code) eqn:Er; [by eapply Hok, signed_random_ma|].
    destruct (Z.eqb_spec code FR_RADIUS_CODE_PROTOCOL_ERROR) as [Hpe|Hpe].
    { rewrite (sign_unfold _ _ _ _ Hh), ma_vector_eq, Er, (proj2 (Z.eqb_eq _ _) Hpe) by lia. by eexists _, _. }
    destruct (hashed_vector code) as [v|] eqn:Ev; [by eapply Hok, signed_hashed_ma|].
    rewrite (sign_unfold _ _ _ _ Hh), ma_vector_eq, Er, (proj2 (Z.eqb_neq _ _) Hpe), Ev by lia. by eexists _, _.
Qed.

(** The scan of a packet whose attributes are well formed. *)
Lemma scan_attrs l : forall fuel p e msg,
  (e <= length p)%nat -> (e - msg <= fuel)%nat -> (msg <= e)%nat ->
  slice p msg e = encode_attrs l -> Forall wf_attr l ->
  exists sc, sign_scan fuel p e msg = Some sc /\ in_buffer sc p /\
    found_ma sc = has_attr FR_MESSAGE_AUTHENTICATOR l.
Proof.
  induction l as [|[a0 v] l IH]; intros fuel p e msg Hlen Hf Hle Hs Hwf.
  - apply (f_equal length) in Hs. rewrite length_slice in Hs by done. cbn in Hs.
    exists ScanEnd. split; [|done]. destruct fuel; cbn [sign_scan]; by rewrite (proj2 (Nat.ltb_ge _ _)) by lia.
  - apply Forall_cons_1 in Hwf as [(Ha0 & Hv & Hma) Hwf]. cbn [fst snd] in *.
    change (encode_attrs ((a0, v) :: l)) with (a0 :: Z.of_nat (2 + length v) :: v ++ encode_attrs l) in Hs.
    pose proof (f_equal length Hs) as Hslen. rewrite length_slice in Hslen by done.
    cbn [length] in Hslen. rewrite length_app in Hslen. destruct fuel as [|fuel]; [lia|].
    cbn [sign_scan]. rewrite (proj2 (Nat.ltb_lt _ _)), (proj2 (Nat.ltb_ge _ _)) by lia.
    pose proof (slice_lookup p msg e 0) as H0. rewrite Hs, Nat.add_0_r in H0. rewrite <- H0 by lia.
    pose proof (slice_lookup p msg e 1) as H1. rewrite Hs in H1. rewrite <- H1 by lia.
    cbn [lookup list_lookup mbind option_bind]. rewrite has_attr_cons. cbn [fst].
    destruct (Z.eqb_spec a0 FR_MESSAGE_AUTHENTICATOR) as [E|E]; cbn [negb orb].
    + specialize (Hma E). rewrite (proj2 (Z.ltb_ge _ _)) by lia. exists (ScanFound msg).
      split; [done|]. split; [cbn; lia|done].
    + rewrite (proj2 (Z.ltb_ge _ _)), (proj2 (Nat.ltb_ge _ _)) by lia. apply IH; try (done || lia).
      rewrite <- drop_slice, Hs by lia. rewrite Nat2Z.id. cbn [Nat.add drop]. by rewrite drop_app_length.
Qed.

Lemma ok_header_scan p packet_len max rma len :
  is_bytes p -> (packet_len <= length p)%nat ->
  fr_radius_ok p packet_len max rma = Some (DECODE_FAIL_NONE, len) ->
  exists code sc, header p len code sc /\ in_buffer sc p /\ 1 <= code < 53.
Proof.
  intros Hb Hpl Hok. destruct (ok_sound p packet_len max rma Hb Hpl) as (f & n & Hok' & Hwf).
  rewrite Hok in Hok'. simplify_eq. destruct (Hwf eq_refl) as (l & [Hn Hbd (code & Hc & Hcr & _) Hs Hall _]).
  destruct (scan_attrs l n p n 20) as (sc & Hsc & Hin & _); try (done || lia).
  exists code, sc. split; [|done]. split; try (done || lia). by apply (nbo16_range p 2).
Qed.

(** C15: once fr_radius_ok has accepted a packet, fr_radius_verify reads and
    writes only inside it and returns with the packet exactly as it was,
    whatever its verdict: the authenticators it overwrites while it computes
    are put back. *)
Theorem verify_after_ok p packet_len max rma len req lim :
  is_bytes p -> (packet_len <= length p)%nat ->
  fr_radius_ok p packet_len max rma = Some (DECODE_FAIL_NONE, len) ->
  exists verdict, fr_radius_verify p vector secret req lim = Some (verdict, p).
Proof.
  intros Hb Hpl Hok. destruct (ok_header_scan _ _ _ _ _ Hb Hpl Hok) as (code & sc & Hh & Hin & Hc).
  destruct (sign_scan_verify _ _ _ _ _ (hd_scan _ _ _ _ Hh) lim false) as [fp Hs].
  rewrite (verify_unfold _ _ _ _ _ req _ Hh Hin Hc Hs). destruct (negb _); [by eexists|].
  destruct (sign_total _ _ _ _ Hh Hin) as (r & q & Hsign). rewrite Hsign. cbn [mbind option_bind].
  destruct (sign_inv _ _ _ _ _ _ Hh Hsign) as [[-> ->]|[-> Hsg]]; cbn [Z.ltb Z.compare]; [by eexists|].
  rewrite (after_sign_compare _ _ _ _ _ Hh Hin Hsg). by eexists.
Qed.

(** C6: fr_radius_verify accepts exactly the packets that carry the signature
    fr_radius_sign computes for them, among those the Message-Authenticator
    and Proxy-State policy lets through: it returns 0 if and only if signing
    the packet succeeds and leaves every byte as it is. *)
Theorem verify_accepts_signed p req lim :
  whole p ->
  (exists q, fr_radius_verify p vector secret req lim = Some (DECODE_FAIL_NONE, q)) <->
  acceptable p req lim /\ fr_radius_sign p vector secret = Some (0, p).
Proof.
  intros Hw. split.
  - intros [q Hv]. destruct (verify_inv _ _ _ _ _ Hw Hv) as [_ H]. by apply H.
  - intros [Ha Hs]. exists p. by apply verify_signed.
Qed.

(** C11: a packet fr_radius_sign has signed verifies under the same secret and
    request authenticator. *)
Theorem sign_then_verify p req lim q :
  acceptable p req lim -> fr_radius_sign p vector secret = Some (0, q) ->
  fr_radius_verify q vector secret req lim = Some (DECODE_FAIL_NONE, q).
Proof.
  intros (len & code & sc & fp & Hh & Hin & Hc & Hs & Hpol) Hsign.
  destruct (sign_inv _ _ _ _ _ _ Hh Hsign) as [[? _]|[_ Hsg]]; [done|].
  pose proof (signed_header _ _ _ _ _ Hh Hsg) as Hhq. destruct (signed_frame _ _ _ _ _ Hh Hsg) as [Hlen Hsame].
  apply verify_signed.
  - exists len, code, sc, fp. split_and!; try done; try lia.
    + destruct sc; cbn in *; try done. lia.
    + apply (verify_scan_frame _ _ q _ _ _ _ _ _ Hs). intros i Hi Hm. apply Hsame.
      intros [?|(m & -> & ?)]; [lia|]. specialize (Hm m eq_refl). lia.
  - apply (sign_signed _ _ _ _ _ Hhq). by apply (signed_idem p).
Qed.

(** a reply or accounting-style request with a Message-Authenticator is
    signed as RFC 3579 and RFC 2865 say: the Message-Authenticator is the
    HMAC-MD5 of the packet with the request's authenticator in place and the
    attribute zeroed, and the authenticator is the digest of the packet with
    that attribute, followed by the secret. *)
Theorem sign_reply_fields p len code m v q :
  header p len code (ScanFound m) -> (m + 18 <= len)%nat ->
  hashed_vector code = Some v -> code <> FR_RADIUS_CODE_PROTOCOL_ERROR ->
  fr_radius_sign p vector secret = Some (0, q) ->
  field q (m + 2) = hmac digest secret (take len (splice (splice p 4 v) (m + 2) (replicate 16 0))) /\
  field q 4 = digest (take len (splice q 4 v) ++ secret).
Proof.
  intros Hh Hm Hv Hpe Hsign. pose proof (hd_bounds _ _ _ _ Hh) as Hb. pose proof (hd_16 _ _ _ _ Hh) as Hl.
  destruct (found_bounds _ _ _ _ Hh) as [Hm20 _]. pose proof (hashed_vector_length _ _ Hv) as Hvl.
  assert (m + 18 <= length p)%nat as Hmp by lia.
  rewrite (sign_signed _ _ _ _ _ Hh (signed_hashed_ma code len p m v Hv Hpe Hmp)) in Hsign.
  injection Hsign as <-. set (h := hmac_of len (prepared (Some v) m p)). cbv zeta.
  assert (length h = 16%nat) as Hh16 by (by apply hmac_of_length).
  assert (length (prepared (Some v) m p) = length p) as Hpl.
  { apply prepared_length; try lia. by intros ? [= <-]. }
  set (p' := splice (prepared (Some v) m p) (m + 2) h).
  assert (length p' = length p) as Hp' by (unfold p'; rewrite length_splice; lia).
  pose proof (auth_of_length len p' Hl) as Ha. unfold field. split.
  - rewrite slice_splice_ne by lia. unfold p'. rewrite slice_splice by lia.
    unfold h, hmac_of. unfold UINT16_MAX in Hsecret. rewrite fr_hmac_md5_hmac; try (done || lia).
    rewrite Nat2Z.inj_add, length_take. lia.
  - rewrite slice_splice by lia. rewrite splice_overwrite by lia.
    assert (splice p' 4 v = p') as ->.
    { unfold p'. rewrite <- splice_comm by lia. f_equal. unfold prepared.
      rewrite <- splice_comm by (rewrite ?length_replicate; try rewrite length_splice; lia).
      by rewrite splice_overwrite by lia. }
    unfold auth_of. unfold UINT16_MAX in Hsecret. rewrite two_updates_digest; [done|apply ctx_alloc_holds|].
    rewrite Nat2Z.inj_add, length_take. lia.
Qed.

(** a Protocol-Error reply can be signed without a Message-Authenticator,
    but fr_radius_sign refuses one that carries it: the switch before the HMAC
    lacks the code the second switch has. *)
Theorem protocol_error_message_authenticator p len sc v :
  header p len FR_RADIUS_CODE_PROTOCOL_ERROR sc -> in_buffer sc p -> vector = Some v ->
  fr_radius_sign p vector secret =
  match sc with
  | ScanFound _ => Some (-1, p)
  | _ => Some (0, splice p 4 (auth_of len (splice p 4 (take 16 v))))
  end.
Proof.
  intros Hh Hin Hvv. pose proof (hd_bounds _ _ _ _ Hh) as Hb.
  destruct sc as [| | |m]; try done.
  - apply (sign_signed _ _ _ _ _ Hh). apply signed_hashed.
    unfold hashed_vector. cbn. by rewrite Hvv.
  - rewrite (sign_unfold _ _ _ _ Hh), ma_vector_eq by lia. done.
Qed.
End Sign.

(** * Witnesses

    An Access-Accept with a Reply-Message and a Message-Authenticator, its
    request's authenticator and the secret "testing123". *)

Definition sample_vector : bytes := [1; 2; 3; 4; 5; 6; 7; 8; 9; 10; 11; 12; 13; 14; 15; 16].
Definition sample_secret : bytes := [116; 101; 115; 116; 105; 110; 103; 49; 50; 51].
Definition sample_packet (code : Z) : bytes :=
  [code; 42; 0; 42] ++ sample_vector ++ [18; 4; 104; 105] ++ [80; 18] ++ replicate 16 7.

#[local] Existing Instances Md5.md5_ops Md5.md5_laws.

Lemma sample_vec v : Some sample_vector = Some v -> (16 <= length v)%nat.
Proof. intros [= <-]. cbn. lia. Qed.

Lemma sample_bytes : is_bytes (sample_packet 2).
Proof. by apply is_bytes_check. Qed.

Lemma sample_header code : header (sample_packet code) 42 code (ScanFound 24).
Proof. split; try done. cbn. lia. Qed.

Lemma sample_acceptable code : 1 <= code < 53 -> acceptable (sample_packet code) true true.
Proof.
  intros Hc. exists 42%nat, code, (ScanFound 24), false.
  split_and!; try apply sample_header; try done; try lia; try (cbn; lia).
  unfold ma_policy, found_ma. cbn. by rewrite orb_true_r.
Qed.


Lemma verify_after_ok_witness :
  exists verdict, fr_radius_verify (sample_packet 2) (Some sample_vector) sample_secret true true = Some (verdict, sample_packet 2).
Proof.
  apply (verify_after_ok (Hlaws := Md5.md5_laws) eq_refl eq_refl (Some sample_vector) sample_secret sample_vec ltac:(done)
           (sample_packet 2) 42 0 true 42).
  - apply sample_bytes.
  - cbn. lia.
  - vm_compute. reflexivity.
Defined.

Lemma verify_accepts_signed_witness :
  ~ (exists q, fr_radius_verify (sample_packet 2) (Some sample_vector) sample_secret true true = Some (DECODE_FAIL_NONE, q)).
Proof.
  rewrite (verify_accepts_signed (Hlaws := Md5.md5_laws) eq_refl eq_refl (Some sample_vector) sample_secret sample_vec ltac:(done)).
  - intros [_ H]. vm_compute in H. done.
  - split; [apply sample_bytes|]. intros len. vm_compute. intros [= <-]. lia.
Defined.

Lemma sign_then_verify_witness :
  exists q, fr_radius_sign (sample_packet 2) (Some sample_vector) sample_secret = Some (0, q) /\
    fr_radius_verify q (Some sample_vector) sample_secret true true = Some (DECODE_FAIL_NONE, q).
Proof.
  eexists. split; [vm_compute; reflexivity|].
  apply (sign_then_verify (Hlaws := Md5.md5_laws) eq_refl eq_refl (Some sample_vector) sample_secret sample_vec ltac:(done) (sample_packet 2)).
  - by apply sample_acceptable.
  - vm_compute. reflexivity.
Defined.

Lemma sign_reply_fields_witness :
  exists q, fr_radius_sign (sample_packet 2) (Some sample_vector) sample_secret = Some (0, q) /\
    field q (24 + 2) = hmac digest sample_secret (take 42 (splice (splice (sample_packet 2) 4 sample_vector) (24 + 2) (replicate 16 0))) /\
    field q 4 = digest (take 42 (splice q 4 sample_vector) ++ sample_secret).
Proof.
  eexists. split; [vm_compute; reflexivity|].
  apply (sign_reply_fields (Hlaws := Md5.md5_laws) eq_refl eq_refl (Some sample_vector) sample_secret sample_vec ltac:(done)
           (sample_packet 2) 42 2 24 sample_vector).
  - apply sample_header.
  - lia.
  - reflexivity.
  - done.
  - vm_compute. reflexivity.
Defined.

Lemma protocol_error_message_authenticator_witness :
  fr_radius_sign (sample_packet 52) (Some sample_vector) sample_secret = Some (-1, sample_packet 52).
Proof.
  apply (protocol_error_message_authenticator (Hlaws := Md5.md5_laws) eq_refl eq_refl (Some sample_vector) sample_secret sample_vec ltac:(done)
           (sample_packet 52) 42 (ScanFound 24) sample_vector).
  - apply sample_header.
  - cbn. lia.
  - reflexivity.
Defined.
