(* ===== verification/RadiusPassword.v ===== *)
(** The hiding of User-Password and Tunnel-Password attributes: the encoders of
    src/protocols/radius/encode.c and the decoders of
    src/protocols/radius/decode.c.  Both directions chain the digest over the
    blocks of the hidden text; decoding what was encoded gives the password
    back, for any 16-byte digest. *)

From S2P Require Import Prelude BlockHash Md5 Hmac.

Module RadiusPassword.

Abbreviation AUTH_PASS_LEN := 16%nat (only parsing).
Abbreviation RADIUS_MAX_PASS_LENGTH := 256%nat (only parsing).
Abbreviation RADIUS_MAX_STRING_LENGTH := 253%nat (only parsing).

(** [ROUND_UP(_num, _mul)] *)
Definition ROUND_UP (num mul : nat) : nat := (((num + (mul - 1)) / mul) * mul)%nat.

(** [for (i = ...; i < ...; i++) passwd[i + n] ^= digest[i]], [cnt] turns. *)
Fixpoint xor_loop (cnt i n : nat) (digest passwd : bytes) : bytes :=
  match cnt with
  | O => passwd
  | S cnt => xor_loop cnt (S i) n digest (<[(i + n)%nat := get passwd (i + n) ^z get digest i]> passwd)
  end.

(** [for (i = ...; i < ...; i++) passwd[n + i - 1] = passwd[n + i + 2] ^ digest[i]] *)
Fixpoint shift_loop (cnt i n : nat) (digest passwd : bytes) : bytes :=
  match cnt with
  | O => passwd
  | S cnt => shift_loop cnt (S i) n digest (<[(n + i - 1)%nat := get passwd (n + i + 2) ^z get digest i]> passwd)
  end.

(** [len bytes at buf + off] *)
Definition sub (buf : bytes) (off len : nat) : bytes := take len (drop off buf).

Section Hidden.
Context {Ctx : Type} `{Hops : DigestOps Ctx}.
Variables (secret request_authenticator : bytes).

(** ** User-Password *)

Fixpoint encode_password_loop (fuel len n : nat) (md5_ctx md5_ctx_old : Ctx) (passwd : bytes) : bytes :=
  if (n <? len)%nat then
    match fuel with
    | O => passwd
    | S fuel =>
        let md5_ctx :=
          if (0 <? n)%nat
          then ctx_update md5_ctx_old (sub passwd (n - AUTH_PASS_LEN) AUTH_PASS_LEN)
          else md5_ctx in
        let '(digest, md5_ctx) := ctx_final md5_ctx in
        let passwd := xor_loop AUTH_PASS_LEN 0 n digest passwd in
        encode_password_loop fuel len (n + AUTH_PASS_LEN) md5_ctx md5_ctx_old passwd
    end
  else passwd.

(** The bytes written to an output with [room] bytes left, or how many bytes
    too few there are. *)
Definition encode_password (room : nat) (input : bytes) : Z + bytes :=
  let len := length input in
  let len := if (RADIUS_MAX_PASS_LENGTH <? len)%nat then RADIUS_MAX_PASS_LENGTH else len in
  let passwd := splice (replicate RADIUS_MAX_PASS_LENGTH 0) 0 (take len input) in
  let len :=
    if (len =? 0)%nat then AUTH_PASS_LEN
    else if negb (Z.of_nat len &z 0x0f =? 0)
    then Z.to_nat (Z.ldiff (Z.of_nat len + 0x0f) 0x0f)
    else len in
  let md5_ctx := ctx_update ctx_alloc secret in
  let md5_ctx_old := md5_ctx in
  let md5_ctx := ctx_update md5_ctx (take AUTH_PASS_LEN request_authenticator) in
  let passwd := encode_password_loop len len 0 md5_ctx md5_ctx_old passwd in
  if (room <? len)%nat then inl (Z.of_nat room - Z.of_nat len) else inr (take len passwd).

Fixpoint decode_password_loop (fuel pwlen n : nat) (md5_ctx md5_ctx_old : Ctx) (passwd : bytes) : bytes :=
  if (n <? pwlen)%nat then
    match fuel with
    | O => passwd
    | S fuel =>
        let '(digest, md5_ctx) :=
          if (n =? 0)%nat then
            let '(digest, _) := ctx_final (ctx_update md5_ctx (take AUTH_PASS_LEN request_authenticator)) in
            let md5_ctx := md5_ctx_old in
            (digest, if (AUTH_PASS_LEN <? pwlen)%nat then ctx_update md5_ctx (sub passwd 0 AUTH_PASS_LEN) else md5_ctx)
          else
            let '(digest, _) := ctx_final md5_ctx in
            let md5_ctx := md5_ctx_old in
            (digest, if (n + AUTH_PASS_LEN <? pwlen)%nat then ctx_update md5_ctx (sub passwd n AUTH_PASS_LEN) else md5_ctx) in
        decode_password_loop fuel pwlen (n + AUTH_PASS_LEN) md5_ctx md5_ctx_old
          (xor_loop AUTH_PASS_LEN 0 n digest passwd)
    end
  else passwd.

(** The buffer after the call. *)
Definition fr_radius_decode_password (passwd : bytes) (pwlen : nat) : bytes :=
  let pwlen := if (RADIUS_MAX_PASS_LENGTH <? pwlen)%nat then RADIUS_MAX_PASS_LENGTH else pwlen in
  let passwd :=
    if (pwlen =? 0)%nat then passwd
    else
      let md5_ctx := ctx_update ctx_alloc secret in
      decode_password_loop pwlen pwlen 0 md5_ctx md5_ctx passwd in
  <[pwlen := 0]> passwd.

(** [while ((data_len > 0) && (buffer[data_len - 1] == '\0')) data_len--] *)
Fixpoint strip_zeros (buffer : bytes) (data_len : nat) : nat :=
  match data_len with
  | O => O
  | S n => if get buffer n =? 0 then strip_zeros buffer n else data_len
  end.

(** The User-Password case of [decode_value]: the attribute is copied to a
    256-byte buffer on the stack, whatever that held, and the trailing zeros
    are dropped. *)
Definition decode_user_password (stack attr : bytes) : bytes :=
  let buffer := splice stack 0 attr in
  let buffer := fr_radius_decode_password buffer (length attr) in
  let buffer := <[253%nat := 0]> buffer in
  take (strip_zeros buffer (length attr)) buffer.

(** ** Tunnel-Password *)

Fixpoint encode_tunnel_loop (fuel encrypted_len n : nat) (md5_ctx md5_ctx_old : Ctx) (tpasswd : bytes) : bytes :=
  if (n <? encrypted_len)%nat then
    match fuel with
    | O => tpasswd
    | S fuel =>
        let md5_ctx :=
          if (0 <? n)%nat
          then ctx_update md5_ctx_old (sub tpasswd (2 + n - AUTH_PASS_LEN) AUTH_PASS_LEN)
          else md5_ctx in
        let '(digest, md5_ctx) := ctx_final md5_ctx in
        let block_len := (encrypted_len - n)%nat in
        let block_len := if (AUTH_PASS_LEN <? block_len)%nat then AUTH_PASS_LEN else block_len in
        let tpasswd := xor_loop block_len 0 (2 + n) digest tpasswd in
        encode_tunnel_loop fuel encrypted_len (n + AUTH_PASS_LEN) md5_ctx md5_ctx_old tpasswd
    end
  else tpasswd.

(** [rand k] is the [k]-th number the generator of the packet context returns
    from here on; [room] is what is left in the output.  The result is the
    bytes written and the new salt offset. *)
Definition encode_tunnel_password (room : nat) (input : bytes) (salt_offset : Z) (rand : nat -> Z)
  : Z + bytes * Z :=
  let room := if (RADIUS_MAX_STRING_LENGTH <? room)%nat then RADIUS_MAX_STRING_LENGTH else room in
  let inlen := length input in
  if (RADIUS_MAX_STRING_LENGTH - 3 <? inlen)%nat then inl (- (Z.of_nat inlen + 3)) else
  let encrypted_len := ROUND_UP (inlen + 1) 16 in
  let encrypted_len :=
    if (RADIUS_MAX_STRING_LENGTH - 2 <? encrypted_len)%nat
    then (RADIUS_MAX_STRING_LENGTH - 2)%nat else encrypted_len in
  let padding := (encrypted_len - (inlen + 1))%nat in
  let output_len := (encrypted_len + 2)%nat in
  (* a negative result of fr_dbuff_set is the number of bytes missing *)
  let missing := (output_len - room)%nat in
  if (padding <? missing)%nat then inl (- (Z.of_nat inlen + 3)) else
  let output_len := (output_len - missing)%nat in
  let fill := map (fun k => u8 (rand k)) (seq 0 (RADIUS_MAX_STRING_LENGTH - (3 + inlen))) in
  let r := rand (RADIUS_MAX_STRING_LENGTH - (3 + inlen))%nat in
  let salt0 := u8 (0x80 |z Z.shiftl (salt_offset &z 0x07) 4 |z (Z.shiftr r 8 &z 0x0f)) in
  let salt1 := r &z 0xff in
  let tpasswd := [salt0; salt1; u8 (Z.of_nat inlen)] ++ input ++ fill in
  let md5_ctx := ctx_update ctx_alloc secret in
  let md5_ctx_old := md5_ctx in
  let md5_ctx := ctx_update md5_ctx (take 16 request_authenticator) in
  let md5_ctx := ctx_update md5_ctx (sub tpasswd 0 2) in
  let tpasswd := encode_tunnel_loop encrypted_len encrypted_len 0 md5_ctx md5_ctx_old tpasswd in
  inr (take output_len tpasswd, salt_offset + 1).

(** One pass over the blocks; [inl] is the length check that fails. *)
Fixpoint decode_tunnel_loop (fuel pwlen encrypted_len n : nat) (md5_ctx md5_ctx_old : Ctx)
    (embedded_len : nat) (passwd : bytes) : option (nat * bytes) :=
  if (n <? encrypted_len)%nat then
    match fuel with
    | O => None
    | S fuel =>
        let block_len :=
          if (pwlen <? n + 2 + AUTH_PASS_LEN)%nat then (pwlen - n - 2)%nat else AUTH_PASS_LEN in
        if (n =? 0)%nat then
          let '(digest, _) := ctx_final md5_ctx in
          let md5_ctx := md5_ctx_old in
          let embedded_len := Z.to_nat (get passwd 2 ^z get digest 0) in
          if (encrypted_len <? embedded_len)%nat then None else
          let md5_ctx := ctx_update md5_ctx (sub passwd 2 block_len) in
          decode_tunnel_loop fuel pwlen encrypted_len (n + AUTH_PASS_LEN) md5_ctx md5_ctx_old embedded_len
            (shift_loop (block_len - 1) 1 n digest passwd)
        else
          let '(digest, _) := ctx_final md5_ctx in
          let md5_ctx := ctx_update md5_ctx_old (sub passwd (n + 2) block_len) in
          decode_tunnel_loop fuel pwlen encrypted_len (n + AUTH_PASS_LEN) md5_ctx md5_ctx_old embedded_len
            (shift_loop block_len 0 n digest passwd)
    end
  else Some (embedded_len, passwd).

(** The password length and the buffer; [None] is a return value of -1. *)
Definition fr_radius_decode_tunnel_password (passwd : bytes) (pwlen : nat) (tunnel_password_zeros : bool)
  : option (nat * bytes) :=
  let encrypted_len := pwlen in
  if (encrypted_len <? 2)%nat then None else
  if (encrypted_len <=? 3)%nat then Some (0%nat, <[0%nat := 0]> passwd) else
  let encrypted_len := (encrypted_len - 2)%nat in
  let md5_ctx := ctx_update ctx_alloc secret in
  let md5_ctx_old := md5_ctx in
  let md5_ctx := ctx_update md5_ctx (take 16 request_authenticator) in
  let md5_ctx := ctx_update md5_ctx (sub passwd 0 2) in
  match decode_tunnel_loop encrypted_len pwlen encrypted_len 0 md5_ctx md5_ctx_old 0 passwd with
  | None => None
  | Some (embedded_len, passwd) =>
      if tunnel_password_zeros &&
         existsb (fun x => negb (x =? 0)) (sub passwd embedded_len (encrypted_len - 1 - embedded_len))
      then None
      else Some (embedded_len, <[embedded_len := 0]> passwd)
  end.
End Hidden.

(** * The loops as block operations *)

Definition xor (a b : bytes) : bytes := zip_with Z.lxor a b.

Lemma get_lookup (l : bytes) i : (i < length l)%nat -> l !! i = Some (get l i).
Proof. intros. unfold get. by destruct (nth_lookup_or_length l i 0); [|lia]. Qed.

Lemma sub_cons l off n : (off < length l)%nat -> sub l off (S n) = get l off :: sub l (S off) n.
Proof. intros. unfold sub. rewrite (drop_S _ (get l off)); [done|by apply get_lookup]. Qed.

Lemma length_sub l off n : (off + n <= length l)%nat -> length (sub l off n) = n.
Proof. intros. unfold sub. rewrite length_take, length_drop. lia. Qed.

Lemma splice_insert (l : bytes) k v s :
  (k + 1 + length s <= length l)%nat -> splice (<[k := v]> l) (k + 1) s = splice l k (v :: s).
Proof.
  intros Hl. apply list_eq. intros i.
  rewrite !lookup_splice by (cbn [length]; rewrite ?length_insert; lia). cbn [length].
  destruct (decide (i = k)) as [->|Hne].
  - rewrite decide_False, decide_True by lia. rewrite list_lookup_insert_eq by lia. by rewrite Nat.sub_diag.
  - rewrite list_lookup_insert_ne by lia. repeat case_decide; try lia; try done.
    replace (i - k)%nat with (S (i - (k + 1))) by lia. done.
Qed.

Lemma sub_insert_ne (l : bytes) k v off n : (k < off)%nat -> sub (<[k := v]> l) off n = sub l off n.
Proof. intros. unfold sub. by rewrite drop_insert_lt by lia. Qed.

Lemma xor_loop_splice cnt : forall i n digest l,
  (n + i + cnt <= length l)%nat -> (i + cnt <= length digest)%nat ->
  xor_loop cnt i n digest l = splice l (n + i) (xor (sub l (n + i) cnt) (sub digest i cnt)).
Proof.
  induction cnt as [|cnt IH]; intros i n digest l Hl Hd; cbn [xor_loop].
  - symmetry. apply splice_nil.
  - rewrite IH by (rewrite ?length_insert; lia). rewrite (Nat.add_comm i n).
    rewrite (sub_cons l (n + i)), (sub_cons digest i) by lia. unfold xor; cbn [zip_with].
    replace (n + S i)%nat with (n + i + 1)%nat by lia. rewrite sub_insert_ne by lia.
    replace (S (n + i)) with (n + i + 1)%nat by lia.
    apply splice_insert. rewrite length_zip_with, !length_sub by lia. lia.
Qed.

Lemma shift_loop_splice cnt : forall i n digest l,
  (1 <= n + i)%nat -> (n + i + 2 + cnt <= length l)%nat -> (i + cnt <= length digest)%nat ->
  shift_loop cnt i n digest l = splice l (n + i - 1) (xor (sub l (n + i + 2) cnt) (sub digest i cnt)).
Proof.
  induction cnt as [|cnt IH]; intros i n digest l Hi Hl Hd; cbn [shift_loop].
  - symmetry. apply splice_nil.
  - rewrite IH by (rewrite ?length_insert; lia).
    rewrite (sub_cons l (n + i + 2)), (sub_cons digest i) by lia. unfold xor; cbn [zip_with].
    replace (n + S i - 1)%nat with (n + i - 1 + 1)%nat by lia. rewrite sub_insert_ne by lia.
    replace (n + S i + 2)%nat with (S (n + i + 2)) by lia.
    apply splice_insert. rewrite length_zip_with, !length_sub by lia. lia.
Qed.

(** * The hiding of RFC 2865 5.2 and RFC 2868 3.5

    [key iv] is the digest a block is combined with; the next block's [iv] is
    the hidden block. *)

Section Chain.
Variable key : bytes -> bytes.
Hypothesis key_length : forall iv, length (key iv) = 16%nat.

Fixpoint hide (k : nat) (iv l : bytes) : bytes :=
  match k with
  | O => l
  | S k => let c := xor (take 16 l) (key iv) in c ++ hide k c (drop 16 l)
  end.

Fixpoint unhide (k : nat) (iv l : bytes) : bytes :=
  match k with
  | O => l
  | S k => xor (take 16 l) (key iv) ++ unhide k (take 16 l) (drop 16 l)
  end.

Lemma length_xor a b : (length a <= length b)%nat -> length (xor a b) = length a.
Proof. intros. unfold xor. rewrite length_zip_with. lia. Qed.

Lemma xor_xor a b : (length a <= length b)%nat -> xor (xor a b) b = a.
Proof.
  revert b. induction a as [|x a IH]; intros [|y b]; cbn; intros; [done..|lia|].
  unfold xor in *. rewrite IH by lia. f_equal. rewrite Z.lxor_assoc, Z.lxor_nilpotent. apply Z.lxor_0_r.
Qed.

Lemma length_block l iv : length (xor (take 16 l) (key iv)) = Nat.min 16 (length l).
Proof. rewrite length_xor; rewrite length_take, ?key_length; lia. Qed.

Lemma hide_nil k iv : hide k iv [] = [].
Proof. revert iv. induction k as [|k IH]; intros iv; [done|]. cbn. by rewrite IH. Qed.

Lemma unhide_nil k iv : unhide k iv [] = [].
Proof. revert iv. induction k as [|k IH]; intros iv; [done|]. cbn. by rewrite IH. Qed.

Lemma length_hide k : forall iv l, length (hide k iv l) = length l.
Proof.
  induction k as [|k IH]; intros iv l; [done|]. cbn [hide]. rewrite length_app, IH, length_block, length_drop. lia.
Qed.

Lemma length_unhide k : forall iv l, length (unhide k iv l) = length l.
Proof.
  induction k as [|k IH]; intros iv l; [done|]. cbn [unhide]. rewrite length_app, IH, length_block, length_drop. lia.
Qed.

(** The first block of the hidden text and the rest. *)
Lemma hide_take_drop k iv l :
  let c := xor (take 16 l) (key iv) in
  take 16 (c ++ hide k c (drop 16 l)) = c /\ drop 16 (c ++ hide k c (drop 16 l)) = hide k c (drop 16 l).
Proof.
  intros c. assert (length c = Nat.min 16 (length l)) as Hc by apply length_block.
  destruct (decide (16 <= length l)%nat).
  - split; [apply take_app_length'|apply drop_app_length']; lia.
  - rewrite (drop_ge l), hide_nil, app_nil_r by lia. split; [apply take_ge|apply drop_ge]; lia.
Qed.

Lemma unhide_hide k : forall iv l, unhide k iv (hide k iv l) = l.
Proof.
  induction k as [|k IH]; intros iv l; [done|]. cbn [hide unhide].
  destruct (hide_take_drop k iv l) as [-> ->]. rewrite IH, xor_xor by (rewrite length_take, key_length; lia).
  apply take_drop.
Qed.

Lemma xor_take m a b : xor (take m a) b = take m (xor a b).
Proof.
  revert m b. induction a as [|x a IH]; intros [|m] [|y b]; try done. cbn. unfold xor in *. by rewrite IH.
Qed.

(** Only the first [k] blocks are touched. *)
Lemma hide_app k : forall iv a b, length a = (16 * k)%nat -> hide k iv (a ++ b) = hide k iv a ++ b.
Proof.
  induction k as [|k IH]; intros iv a b Ha; [by destruct a|]. cbn [hide].
  rewrite take_app_le, drop_app_le by lia. rewrite IH by (rewrite length_drop; lia). by rewrite app_assoc.
Qed.

Lemma unhide_app k : forall iv a b, length a = (16 * k)%nat -> unhide k iv (a ++ b) = unhide k iv a ++ b.
Proof.
  induction k as [|k IH]; intros iv a b Ha; [by destruct a|]. cbn [unhide].
  rewrite take_app_le, drop_app_le by lia. rewrite IH by (rewrite length_drop; lia). by rewrite app_assoc.
Qed.

Lemma unhide_enough k j : forall iv l, (length l <= 16 * k)%nat -> unhide (k + j) iv l = unhide k iv l.
Proof.
  induction k as [|k IH]; intros iv l Hl; cbn [Nat.add unhide].
  - destruct l; [|cbn in Hl; lia]. apply unhide_nil.
  - by rewrite IH by (rewrite length_drop; lia).
Qed.

Lemma xor_take_r n a b : (length a <= n)%nat -> xor a (take n b) = xor a b.
Proof.
  revert n b. induction a as [|x a IH]; intros [|n] [|y b]; cbn; intros; try done; [lia|].
  unfold xor in *. by rewrite IH by lia.
Qed.

(** What is cut off the hidden text is cut off the password. *)
Lemma unhide_take k : forall m iv l, unhide k iv (take m l) = take m (unhide k iv l).
Proof.
  induction k as [|k IH]; intros m iv l; [done|]. cbn [unhide].
  destruct (decide (m <= 16)%nat) as [Hm|Hm].
  - rewrite take_take, Nat.min_r by lia. rewrite (drop_ge (take m l)) by (rewrite length_take; lia).
    rewrite unhide_nil, app_nil_r, xor_take. rewrite <- (Nat.min_l m 16) at 1 by lia.
    rewrite <- take_take, <- xor_take. rewrite take_app. rewrite length_block.
    destruct (decide (m <= length l)%nat) as [Hl|Hl].
    + replace (m - Nat.min 16 (length l))%nat with 0%nat by lia. by rewrite take_0, app_nil_r.
    + rewrite (drop_ge l), unhide_nil, take_nil, app_nil_r by lia. done.
  - rewrite take_take, Nat.min_l by lia. rewrite take_app, length_block. 
    replace (drop 16 (take m l)) with (take (m - 16) (drop 16 l)).
    2:{ rewrite take_drop_commute. do 2 f_equal. lia. }
    rewrite IH. f_equal.
    + symmetry. apply take_ge. rewrite length_block. lia.
    + destruct (decide (16 <= length l)%nat); [f_equal; lia|].
      rewrite (drop_ge l), unhide_nil, !take_nil by lia. done.
Qed.
End Chain.

(** * The loops compute the hiding *)

Lemma splice_take_drop (l : bytes) n c :
  (n + length c <= length l)%nat ->
  take (n + length c) (splice l n c) = take n l ++ c /\ drop (n + length c) (splice l n c) = drop (n + length c) l.
Proof.
  intros Hl. split; [apply take_splice; lia|]. unfold splice. rewrite app_assoc.
  apply drop_app_length'. rewrite length_app, length_take. lia.
Qed.

Section Loops.
Context {Ctx : Type} `{Hops : DigestOps Ctx} `{Hlaws : !DigestLaws Ctx}.
Hypothesis H16 : digest_len = 16%nat.
Variables (secret request_authenticator : bytes).
Hypothesis Hmax : Z.of_nat (length secret) + 64 < digest_max.
Hypothesis Hvec : length request_authenticator = 16%nat.

Definition key (iv : bytes) : bytes := digest (secret ++ iv).

Lemma key_length iv : length (key iv) = 16%nat.
Proof. unfold key. by rewrite digest_length. Qed.

Lemma sub_key iv : sub (key iv) 0 16 = key iv.
Proof. unfold sub. rewrite drop_0. apply take_ge. rewrite key_length. lia. Qed.

Lemma key_final c iv : ctx_holds c (secret ++ iv) -> (length iv <= 32)%nat -> fst (ctx_final c) = key iv.
Proof. intros Hc Hl. apply ctx_final_digest; [done|]. rewrite length_app. lia. Qed.

Lemma key_update c iv : ctx_holds c secret -> (length iv <= 32)%nat -> ctx_holds (ctx_update c iv) (secret ++ iv).
Proof. intros Hc Hl. apply ctx_update_holds; [done|]. lia. Qed.

(** One block combined with its key, in place. *)
Lemma xor_block (l : bytes) n cnt iv :
  (n + cnt <= length l)%nat -> (cnt <= 16)%nat ->
  xor_loop cnt 0 n (key iv) l = splice l n (xor (sub l n cnt) (key iv)).
Proof.
  intros Hl Hc. rewrite xor_loop_splice by (rewrite ?key_length; lia). rewrite Nat.add_0_r. f_equal.
  unfold sub at 2. rewrite drop_0. apply xor_take_r. rewrite length_sub; lia.
Qed.

Lemma encode_password_loop_spec k : forall fuel n c old iv l,
  (k <= fuel)%nat -> (n + 16 * k <= length l)%nat -> ctx_holds old secret ->
  (if (n =? 0)%nat then ctx_holds c (secret ++ iv) else iv = sub l (n - 16) 16) ->
  length iv = 16%nat ->
  encode_password_loop fuel (n + 16 * k) n c old l = take n l ++ hide key k iv (drop n l).
Proof.
  induction k as [|k IH]; intros fuel n c old iv l Hf Hl Hold Hc Hiv.
  - cbn [hide]. rewrite take_drop. destruct fuel; cbn [encode_password_loop];
      by rewrite (proj2 (Nat.ltb_ge _ _)) by lia.
  - destruct fuel as [|fuel]; [lia|]. cbn [encode_password_loop]. rewrite (proj2 (Nat.ltb_lt _ _)) by lia.
    set (c' := if (0 <? n)%nat then _ else _).
    assert (ctx_holds c' (secret ++ iv)) as Hc'.
    { unfold c'. destruct n as [|n]; [done|]. cbn [Nat.eqb Nat.ltb Nat.leb] in *. subst iv. apply key_update; [done|lia]. }
    pose proof (key_final _ _ Hc') as Hkey. destruct (ctx_final c') as [d c'']. cbn [fst] in Hkey.
    rewrite Hkey, xor_block by lia. set (b := xor (sub l n 16) (key iv)).
    assert (length b = 16%nat) as Hb by (unfold b; rewrite length_xor; rewrite length_sub, ?key_length; lia).
    destruct (splice_take_drop l n b) as [Ht Hd]; [lia|]. rewrite Hb in Ht, Hd.
    replace (n + 16 * S k)%nat with (n + 16 + 16 * k)%nat by lia.
    rewrite (IH _ (n + 16)%nat _ _ b); [|lia|rewrite length_splice; lia|done| |done].
    2:{ rewrite (proj2 (Nat.eqb_neq _ _)) by lia. rewrite Nat.add_sub. unfold sub. symmetry. apply slice_splice; lia. }
    rewrite Ht, Hd, <- app_assoc. cbn [hide]. unfold b, sub. by rewrite drop_drop.
Qed.

Lemma decode_password_loop_spec k : forall fuel n c old iv l,
  (k <= fuel)%nat -> (n + 16 * k <= length l)%nat -> ctx_holds old secret ->
  (if (n =? 0)%nat then c = old /\ iv = request_authenticator else k = 0%nat \/ ctx_holds c (secret ++ iv)) ->
  length iv = 16%nat ->
  decode_password_loop request_authenticator fuel (n + 16 * k) n c old l = take n l ++ unhide key k iv (drop n l).
Proof.
  induction k as [|k IH]; intros fuel n c old iv l Hf Hl Hold Hc Hiv.
  - cbn [unhide]. rewrite take_drop. destruct fuel; cbn [decode_password_loop];
      by rewrite (proj2 (Nat.ltb_ge _ _)) by lia.
  - destruct fuel as [|fuel]; [lia|]. cbn [decode_password_loop]. rewrite (proj2 (Nat.ltb_lt _ _)) by lia.
    assert (exists c', (if (n =? 0)%nat then
            let '(digest, _) := ctx_final (ctx_update c (take 16 request_authenticator)) in
            (digest, if (16 <? n + 16 * S k)%nat then ctx_update old (sub l 0 16) else old)
          else
            let '(digest, _) := ctx_final c in
            (digest, if (n + 16 <? n + 16 * S k)%nat then ctx_update old (sub l n 16) else old)) = (key iv, c') /\
          (k = 0%nat \/ ctx_holds c' (secret ++ sub l n 16))) as (c' & -> & Hc').
    { assert (forall m, (m = 0 \/ (0 <? m) = true)%nat) as Hlt by (intros [|]; [by left|by right]).
      destruct n as [|n].
      - destruct Hc as [-> ->]. rewrite Nat.eqb_refl. rewrite take_ge by lia.
        pose proof (key_final _ _ (key_update old request_authenticator Hold ltac:(lia)) ltac:(lia)) as Hk.
        destruct (ctx_final _) as [d c'']. cbn [fst] in Hk. subst d. eexists. split; [done|].
        destruct k as [|k]; [by left|right]. rewrite (proj2 (Nat.ltb_lt _ _)) by lia.
        apply key_update; [done|]. rewrite length_sub; lia.
      - cbn [Nat.eqb] in Hc. destruct Hc as [?|Hc]; [lia|]. rewrite (proj2 (Nat.eqb_neq _ _)) by lia.
        pose proof (key_final _ _ Hc ltac:(lia)) as Hk.
        destruct (ctx_final _) as [d c'']. cbn [fst] in Hk. subst d. eexists. split; [done|].
        destruct k as [|k]; [by left|right]. rewrite (proj2 (Nat.ltb_lt _ _)) by lia.
        apply key_update; [done|]. rewrite length_sub; lia. }
    rewrite xor_block by lia. set (b := xor (sub l n 16) (key iv)).
    assert (length b = 16%nat) as Hb by (unfold b; rewrite length_xor; rewrite length_sub, ?key_length; lia).
    destruct (splice_take_drop l n b) as [Ht Hd]; [lia|]. rewrite Hb in Ht, Hd.
    replace (n + 16 * S k)%nat with (n + 16 + 16 * k)%nat by lia.
    rewrite (IH _ (n + 16)%nat _ _ (sub l n 16)); [|lia|rewrite length_splice; lia|done| |rewrite length_sub; lia].
    2:{ by rewrite (proj2 (Nat.eqb_neq _ _)) by lia. }
    rewrite Ht, Hd, <- app_assoc. cbn [unhide]. unfold b, sub. by rewrite drop_drop.
Qed.

(** The number of blocks that [rem] bytes take. *)
Definition blocks_of (rem k : nat) : Prop := (rem <= 16 * k < rem + 16)%nat.

Lemma splice_app (l : bytes) o a b :
  (o + length a + length b <= length l)%nat ->
  splice (splice l o a) (o + length a) b = splice l o (a ++ b).
Proof.
  intros Hl. apply list_eq. intros i.
  rewrite !lookup_splice by (rewrite ?length_app, ?length_splice; lia). rewrite length_app.
  destruct (decide (o <= i < o + length a)%nat) as [Hi|Hi].
  - rewrite decide_False, decide_True by lia. by rewrite lookup_app_l by lia.
  - repeat case_decide; try lia; try done. rewrite lookup_app_r by lia. f_equal. lia.
Qed.

Lemma sub_splice_above (l : bytes) o a off n :
  (o + length a <= off)%nat -> (o + length a <= length l)%nat -> sub (splice l o a) off n = sub l off n.
Proof. intros. unfold sub. apply slice_splice_ne; lia. Qed.

Lemma sub_split (l : bytes) off a b : sub l off (a + b) = sub l off a ++ sub l (off + a) b.
Proof. unfold sub. rewrite <- drop_drop. symmetry. apply take_take_drop. Qed.

Lemma sub_take_drop l off n : (16 <= n)%nat -> (off + n <= length l)%nat ->
  take 16 (sub l off n) = sub l off 16 /\ drop 16 (sub l off n) = sub l (off + 16) (n - 16).
Proof.
  intros Hn Hl. replace n with (16 + (n - 16))%nat at 1 2 by lia. rewrite sub_split.
  pose proof (length_sub l off 16). split; [apply take_app_length'|apply drop_app_length']; lia.
Qed.

Lemma encode_tunnel_loop_spec k : forall fuel n rem c old iv l,
  (k <= fuel)%nat -> blocks_of rem k -> (2 + n + rem <= length l)%nat -> ctx_holds old secret ->
  (if (n =? 0)%nat then ctx_holds c (secret ++ iv) else k = 0%nat \/ (16 <= n)%nat /\ iv = sub l (2 + n - 16) 16) ->
  (length iv <= 32)%nat ->
  encode_tunnel_loop fuel (n + rem) n c old l = splice l (2 + n) (hide key k iv (sub l (2 + n) rem)).
Proof.
  unfold blocks_of. induction k as [|k IH]; intros fuel n rem c old iv l Hf Hr Hl Hold Hc Hiv.
  - cbn [hide]. unfold sub. rewrite splice_self by lia. destruct fuel; cbn [encode_tunnel_loop];
      by rewrite (proj2 (Nat.ltb_ge _ _)) by lia.
  - destruct fuel as [|fuel]; [lia|]. cbn [encode_tunnel_loop]. rewrite (proj2 (Nat.ltb_lt _ _)) by lia.
    set (c' := if (0 <? n)%nat then _ else _).
    assert (ctx_holds c' (secret ++ iv)) as Hc'.
    { unfold c'. destruct n as [|n]; [done|]. cbn [Nat.eqb Nat.ltb Nat.leb] in *.
      destruct Hc as [?|[? ->]]; [lia|]. apply key_update; [done|lia]. }
    pose proof (key_final _ _ Hc' Hiv) as Hkey. destruct (ctx_final c') as [d c'']. cbn [fst] in Hkey. subst d.
    cbv zeta. replace (n + rem - n)%nat with rem by lia.
    destruct k as [|k].
    + replace (if (16 <? rem)%nat then 16%nat else rem) with rem by (case_if; lia).
      rewrite xor_block by lia. cbn [hide]. rewrite (take_ge (sub l _ _)), (drop_ge (sub l _ _)), app_nil_r
        by (rewrite length_sub; lia).
      destruct fuel; cbn [encode_tunnel_loop]; by rewrite (proj2 (Nat.ltb_ge _ _)) by lia.
    + rewrite (proj2 (Nat.ltb_lt 16 rem)) by lia. rewrite xor_block by lia.
      set (b := xor (sub l (2 + n) 16) (key iv)).
      assert (length b = 16%nat) as Hb by (unfold b; rewrite length_xor; rewrite length_sub, ?key_length; lia).
      replace (n + rem)%nat with (n + 16 + (rem - 16))%nat by lia.
      rewrite (IH _ (n + 16)%nat _ _ _ b); [|lia|lia|rewrite length_splice; lia|done| |lia].
      2:{ rewrite (proj2 (Nat.eqb_neq _ _)) by lia. right. split; [lia|].
          replace (2 + (n + 16) - 16)%nat with (2 + n)%nat by lia. unfold sub. symmetry. apply slice_splice; lia. }
      replace (2 + (n + 16))%nat with (2 + n + length b)%nat by lia.
      rewrite sub_splice_above by lia. rewrite splice_app by (rewrite length_hide, length_sub; try apply key_length; lia).
      f_equal. cbn [hide]. destruct (sub_take_drop l (2 + n) rem) as [-> ->]; [lia|lia|]. by rewrite Hb.
Qed.

Lemma decode_tunnel_rest k : forall fuel n rem c old e iv l,
  (k <= fuel)%nat -> blocks_of rem k -> (1 <= n)%nat -> (n + 2 + rem <= length l)%nat -> ctx_holds old secret ->
  (k = 0%nat \/ ctx_holds c (secret ++ iv)) -> (length iv <= 32)%nat ->
  decode_tunnel_loop fuel (n + 2 + rem) (n + rem) n c old e l =
  Some (e, splice l (n - 1) (unhide key k iv (sub l (n + 2) rem))).
Proof.
  unfold blocks_of. induction k as [|k IH]; intros fuel n rem c old e iv l Hf Hr Hn Hl Hold Hc Hiv.
  - assert (rem = 0%nat) as -> by lia. cbn [unhide]. unfold sub. rewrite take_0, splice_nil.
    destruct fuel; cbn [decode_tunnel_loop]; by rewrite (proj2 (Nat.ltb_ge _ _)) by lia.
  - destruct fuel as [|fuel]; [lia|]. cbn [decode_tunnel_loop]. rewrite (proj2 (Nat.ltb_lt _ _)) by lia.
    rewrite (proj2 (Nat.eqb_neq n 0)) by lia. destruct Hc as [?|Hc]; [lia|].
    pose proof (key_final _ _ Hc Hiv) as Hkey. destruct (ctx_final c) as [d c'']. cbn [fst] in Hkey. subst d.
    destruct k as [|k].
    + replace (if (_ <? _)%nat then _ else _) with rem by (case_if; lia).
      rewrite shift_loop_splice by (rewrite ?key_length; lia). rewrite Nat.add_0_r. cbn [unhide].
      rewrite (take_ge (sub l _ _)), (drop_ge (sub l _ _)), app_nil_r by (rewrite length_sub; lia).
      replace (xor _ (sub (key iv) 0 rem)) with (xor (sub l (n + 2) rem) (key iv)).
      2:{ unfold sub at 3. rewrite drop_0. symmetry. apply xor_take_r. rewrite length_sub; lia. }
      destruct fuel; cbn [decode_tunnel_loop]; by rewrite (proj2 (Nat.ltb_ge _ _)) by lia.
    + rewrite (proj2 (Nat.ltb_ge (n + 2 + rem) _)) by lia.
      rewrite shift_loop_splice by (rewrite ?key_length; lia). rewrite Nat.add_0_r, sub_key.
      set (b := xor (sub l (n + 2) 16) (key iv)).
      assert (length b = 16%nat) as Hb by (unfold b; rewrite length_xor; rewrite length_sub, ?key_length; lia).
      replace (n + 2 + rem)%nat with (n + 16 + 2 + (rem - 16))%nat by lia.
      replace (n + rem)%nat with (n + 16 + (rem - 16))%nat by lia.
      rewrite (IH _ (n + 16)%nat _ _ _ _ (sub l (n + 2) 16)); [|lia|lia|lia|rewrite length_splice; lia|done| |rewrite length_sub; lia].
      2:{ right. apply key_update; [done|rewrite length_sub; lia]. }
      rewrite sub_splice_above by lia. replace (n + 16 - 1)%nat with (n - 1 + length b)%nat by lia.
      rewrite splice_app by (rewrite length_unhide, length_sub; try apply key_length; lia).
      do 3 f_equal. cbn [unhide]. destruct (sub_take_drop l (n + 2) rem) as [-> ->]; [lia|lia|].
      by replace (n + 16 + 2)%nat with (n + 2 + 16)%nat by lia.
Qed.

(** The first block: the length octet and up to 15 octets of the password. *)
Lemma first_block (l : bytes) iv bl :
  (1 <= bl <= 16)%nat -> (2 + bl <= length l)%nat ->
  let b := xor (sub l 2 bl) (key iv) in
  get b 0 = get l 2 ^z get (key iv) 0 /\ length (drop 1 b) = (bl - 1)%nat /\
  shift_loop (bl - 1) 1 0 (key iv) l = splice l 0 (drop 1 b).
Proof.
  intros Hbl Hl b. destruct bl as [|bl]; [lia|]. pose proof (key_length iv) as Hk.
  assert (exists k0 ks, key iv = k0 :: ks) as (k0 & ks & Ek).
  { destruct (key iv) as [|k0 ks]; [done|]. by exists k0, ks. }
  assert (b = get l 2 ^z k0 :: xor (sub l 3 bl) ks) as ->.
  { unfold b. rewrite (sub_cons l 2), Ek by lia. done. }
  rewrite Ek in *. cbn [length] in Hk.
  assert (length (xor (sub l 3 bl) ks) = bl) as Hx by (rewrite length_xor; rewrite length_sub; lia).
  split; [done|]. assert (drop 1 (get l 2 ^z k0 :: xor (sub l 3 bl) ks) = xor (sub l 3 bl) ks) as -> by done.
  split; [lia|]. rewrite shift_loop_splice by (cbn [length]; lia). cbn [Nat.add]. replace (S bl - 1)%nat with bl by lia. f_equal.
  unfold sub at 2. assert (drop 1 (k0 :: ks) = ks) as -> by done. apply xor_take_r. rewrite length_sub; lia.
Qed.

Lemma decode_tunnel_loop_spec k fuel enc c old iv l :
  (k <= fuel)%nat -> blocks_of enc k -> (1 <= enc)%nat -> (2 + enc <= length l)%nat ->
  ctx_holds old secret -> ctx_holds c (secret ++ iv) -> (length iv <= 32)%nat ->
  let plain := unhide key k iv (sub l 2 enc) in
  decode_tunnel_loop fuel (enc + 2) enc 0 c old 0 l =
  if (enc <? Z.to_nat (get plain 0))%nat then None
  else Some (Z.to_nat (get plain 0), splice l 0 (drop 1 plain)).
Proof.
  intros Hf Hr He Hl Hold Hc Hiv plain. unfold blocks_of in Hr.
  destruct k as [|k]; [lia|]. destruct fuel as [|fuel]; [lia|].
  cbn [decode_tunnel_loop]. rewrite (proj2 (Nat.ltb_lt _ _)), Nat.eqb_refl by lia.
  pose proof (key_final _ _ Hc Hiv) as Hkey. destruct (ctx_final c) as [d c'']. cbn [fst] in Hkey. subst d.
  cbn [Nat.add]. replace (enc + 2 - 0 - 2)%nat with enc by lia.
  set (bl := if (enc + 2 <? 18)%nat then enc else 16%nat).
  assert (bl = Nat.min 16 enc) as Hbl by (unfold bl; case_if; lia). clearbody bl.
  destruct (first_block l iv bl) as (Hget & Hlen & Hshift); [lia|lia|].
  set (b := xor (sub l 2 bl) (key iv)) in *.
  assert (plain = b ++ unhide key k (sub l 2 bl) (sub l (2 + bl) (enc - bl))) as Hplain.
  { unfold plain. cbn [unhide]. unfold b. destruct (decide (16 <= enc)%nat) as [H16e|H16e].
    - destruct (sub_take_drop l 2 enc) as [-> ->]; [lia|lia|]. by replace bl with 16%nat by lia.
    - replace bl with enc by lia. rewrite (take_ge (sub l 2 enc)), (drop_ge (sub l 2 enc)) by (rewrite length_sub; lia).
      rewrite Nat.sub_diag. unfold sub at 5. by rewrite take_0. }
  assert (exists b0 b', b = b0 :: b') as (b0 & b' & Eb).
  { assert (length b = bl) as Hbb by (unfold b; rewrite length_xor; rewrite length_sub, ?key_length; lia).
    destruct b as [|b0 b']; [cbn in Hbb; lia|]. by exists b0, b'. }
  rewrite Eb in *. assert (length b' = bl - 1)%nat as Hlen' by exact Hlen.
  assert (drop 1 (b0 :: b') = b') as Hdrop by done. rewrite Hdrop in Hshift. cbn [get nth] in Hget.
  assert (get plain 0 = b0 /\ drop 1 plain = b' ++ unhide key k (sub l 2 bl) (sub l (2 + bl) (enc - bl))) as [-> ->]
    by (rewrite Hplain; done).
  rewrite <- Hget. destruct (enc <? Z.to_nat b0)%nat; [done|]. rewrite Hshift.
  destruct (decide (enc <= 16)%nat) as [Hle|Hgt].
  - replace (enc - bl)%nat with 0%nat by lia. unfold sub at 3. rewrite take_0, unhide_nil, app_nil_r.
    destruct fuel; cbn [decode_tunnel_loop]; by rewrite (proj2 (Nat.ltb_ge _ _)) by lia.
  - assert (bl = 16%nat) as -> by lia. 
    replace (enc + 2)%nat with (16 + 2 + (enc - 16))%nat by lia. replace enc with (16 + (enc - 16))%nat at 2 by lia.
    rewrite (decode_tunnel_rest k _ 16 (enc - 16) _ _ _ (sub l 2 16));
      [|lia|unfold blocks_of; lia|lia|rewrite length_splice; lia|done| |rewrite length_sub; lia].
    2:{ right. apply key_update; [done|rewrite length_sub; lia]. }
    rewrite sub_splice_above by lia. replace (16 - 1)%nat with (0 + length b')%nat by lia.
    rewrite splice_app by (rewrite length_unhide, length_sub; try apply key_length; lia). done.
Qed.

(** * Round trips *)

(** The length a password of [n] octets is padded to. *)
Definition padded_blocks (n : nat) : nat := Nat.max 1 ((n + 15) / 16).

Lemma padded_length n :
  (n <= 256)%nat ->
  (if (n =? 0)%nat then 16%nat
   else if negb (Z.of_nat n &z 0x0f =? 0) then Z.to_nat (Z.ldiff (Z.of_nat n + 0x0f) 0x0f) else n)
  = (16 * padded_blocks n)%nat.
Proof.
  intros Hn. unfold padded_blocks. destruct (n =? 0)%nat eqn:E; simpl_bool; [by subst|].
  change 0x0f with (Z.ones 4) at 1 3. rewrite Z.land_ones, Z.ldiff_ones_r by lia.
  rewrite Z.shiftl_mul_pow2, Z.shiftr_div_pow2 by lia. change (2 ^ 4) with 16.
  pose proof (Z.div_mod (Z.of_nat n) 16 ltac:(lia)). pose proof (Z.mod_pos_bound (Z.of_nat n) 16 ltac:(lia)).
  pose proof (Nat.div_mod (n + 15) 16 ltac:(lia)). pose proof (Nat.mod_upper_bound (n + 15) 16 ltac:(lia)).
  pose proof (Z.div_mod (Z.of_nat n + 0xf) 16 ltac:(lia)). pose proof (Z.mod_pos_bound (Z.of_nat n + 0xf) 16 ltac:(lia)).
  destruct (Z.of_nat n mod 16 =? 0) eqn:E2; simpl_bool; cbn [negb]; lia.
Qed.

Lemma encode_password_eq room input :
  (length input <= 256)%nat -> (16 * padded_blocks (length input) <= room)%nat ->
  encode_password secret request_authenticator room input =
  inr (hide key (padded_blocks (length input)) request_authenticator
         (input ++ replicate (16 * padded_blocks (length input) - length input) 0)).
Proof.
  intros Hlen Hroom. unfold encode_password.
  cbv zeta. rewrite (proj2 (Nat.ltb_ge 256 (length input))), (take_ge input) by lia. rewrite padded_length by lia.
  rewrite (proj2 (Nat.ltb_ge room _)) by lia. f_equal. rewrite (take_ge request_authenticator) by lia.
  set (k := padded_blocks (length input)) in *.
  assert (length input <= 16 * k <= 256)%nat as Hk.
  { unfold k, padded_blocks. pose proof (Nat.div_mod (length input + 15) 16 ltac:(lia)).
    pose proof (Nat.mod_upper_bound (length input + 15) 16 ltac:(lia)). lia. }
  assert (splice (replicate 256 0) 0 input =
    (input ++ replicate (16 * k - length input) 0) ++ replicate (256 - 16 * k) 0) as ->.
  { unfold splice. rewrite take_0, app_nil_l, Nat.add_0_l, drop_replicate, <- app_assoc, <- replicate_add.
    do 2 f_equal. lia. }
  assert (ctx_holds (ctx_update ctx_alloc secret) secret) as Hold.
  { apply (ctx_update_holds ctx_alloc [] secret); [apply ctx_alloc_holds|cbn; lia]. }
  pose proof (encode_password_loop_spec k (16 * k) 0
    (ctx_update (ctx_update ctx_alloc secret) request_authenticator) (ctx_update ctx_alloc secret)
    request_authenticator ((input ++ replicate (16 * k - length input) 0) ++ replicate (256 - 16 * k) 0)) as Hspec.
  cbn [Nat.add] in Hspec. rewrite Hspec; [|lia|rewrite !length_app, !length_replicate; lia|done|by apply key_update; [|lia]|done].
  rewrite take_0, drop_0, app_nil_l. rewrite hide_app by (rewrite length_app, length_replicate; lia).
  apply take_app_length'. rewrite length_hide by apply key_length. rewrite length_app, length_replicate. lia.
Qed.

Lemma strip_zeros_spec buffer input j :
  list.last input <> Some 0 -> take (length input + j) buffer = input ++ replicate j 0 ->
  strip_zeros buffer (length input + j) = length input.
Proof.
  intros Hlast. induction j as [|j IH]; intros Ht.
  - rewrite Nat.add_0_r, app_nil_r in *. destruct (length input) as [|n] eqn:En; [done|].
    cbn [strip_zeros]. rewrite last_lookup, En in Hlast. cbn [Nat.pred] in Hlast.
    assert (buffer !! n = input !! n) as Hb by (rewrite <- Ht, lookup_take_lt by lia; done).
    destruct (get buffer n =? 0) eqn:E; [|done]. simpl_bool. exfalso. apply Hlast. rewrite <- Hb.
    destruct (lookup_lt_is_Some_2 input n) as [x Hx]; [lia|]. rewrite <- Hb in Hx.
    rewrite Hx. f_equal. rewrite <- E. unfold get. by rewrite (nth_lookup_Some _ _ _ _ Hx).
  - replace (length input + S j)%nat with (S (length input + j)) in * by lia. cbn [strip_zeros].
    assert (take (length input + j) buffer = input ++ replicate j 0) as Ht'.
    { apply (f_equal (take (length input + j))) in Ht. rewrite take_take, Nat.min_l in Ht by lia.
      rewrite Ht. rewrite take_app_ge, take_replicate by lia. do 2 f_equal. lia. }
    assert (buffer !! (length input + j)%nat = Some 0) as Hz.
    { rewrite <- (lookup_take_lt _ (S (length input + j))) by lia. rewrite Ht.
      rewrite lookup_app_r by lia. apply lookup_replicate. lia. }
    unfold get. rewrite (nth_lookup_Some _ _ _ _ Hz), Z.eqb_refl. by apply IH.
Qed.


(** The clear text of a Tunnel-Password: its length, itself, and random
    padding; and the number of octets that are hidden. *)
Definition tunnel_plain (input : bytes) (rand : nat -> Z) : bytes :=
  Z.of_nat (length input) :: input ++ map (fun k => u8 (rand k)) (seq 0 (250 - length input)).

Definition tunnel_hidden (n : nat) : nat := Nat.min (ROUND_UP (n + 1) 16) 251.

Definition tunnel_blocks (n : nat) : nat := ((tunnel_hidden n + 15) / 16)%nat.

Lemma tunnel_hidden_bounds n : (n <= 250)%nat -> (n + 1 <= tunnel_hidden n <= 251)%nat.
Proof.
  intros. unfold tunnel_hidden, ROUND_UP. pose proof (Nat.div_mod (n + 1 + (16 - 1)) 16 ltac:(lia)).
  pose proof (Nat.mod_upper_bound (n + 1 + (16 - 1)) 16 ltac:(lia)). lia.
Qed.

Lemma ceil_blocks n : blocks_of n ((n + 15) / 16).
Proof.
  unfold blocks_of. pose proof (Nat.div_mod (n + 15) 16 ltac:(lia)).
  pose proof (Nat.mod_upper_bound (n + 15) 16 ltac:(lia)). lia.
Qed.

(** The encoder succeeds exactly when the salt, the length and the password
    fit, and then writes the salt and the hidden text, cut to the room there
    is. *)
Lemma encode_tunnel_eq room input salt_offset rand :
  encode_tunnel_password secret request_authenticator room input salt_offset rand =
  if decide (length input <= 250 /\ length input + 3 <= room)%nat then
    let r := rand (250 - length input)%nat in
    let salt := [u8 (0x80 |z Z.shiftl (salt_offset &z 0x07) 4 |z (Z.shiftr r 8 &z 0x0f)); r &z 0xff] in
    inr (salt ++ take (Nat.min room 253 - 2)
           (hide key (tunnel_blocks (length input)) (request_authenticator ++ salt)
              (take (tunnel_hidden (length input)) (tunnel_plain input rand))), salt_offset + 1)
  else inl (- (Z.of_nat (length input) + 3)).
Proof.
  unfold encode_tunnel_password. cbn [Nat.sub]. cbv zeta.
  destruct (250 <? length input)%nat eqn:E1; simpl_bool; [by rewrite decide_False by lia|].
  set (enc := if (251 <? ROUND_UP (length input + 1) 16)%nat then 251%nat else ROUND_UP (length input + 1) 16).
  assert (enc = tunnel_hidden (length input)) as Henc.
  { unfold enc, tunnel_hidden. case_if; lia. }
  clearbody enc. subst enc. pose proof (tunnel_hidden_bounds (length input) ltac:(lia)) as Hhb.
  set (room' := if (253 <? room)%nat then 253%nat else room).
  assert (room' = Nat.min room 253) as Hroom by (unfold room'; case_if; lia). clearbody room'. subst room'.
  destruct (_ <? _ - Nat.min room 253)%nat eqn:E2; simpl_bool; [by rewrite decide_False by lia|].
  rewrite decide_True by lia. f_equal. f_equal.
  set (n := length input) in *. set (hid := tunnel_hidden n) in *. set (r := rand (250 - n)%nat).
  replace (253 - (3 + n))%nat with (250 - n)%nat by lia. fold r.
  set (s0 := u8 _). set (s1 := r &z 255). set (fill := map _ _).
  assert (u8 (Z.of_nat n) = Z.of_nat n) as -> by (apply u8_id; unfold is_u8; lia).
  assert (length fill = (250 - n)%nat) as Hfill by (unfold fill; rewrite length_map, length_seq; done).
  set (t := [s0; s1; Z.of_nat n] ++ input ++ fill).
  assert (length t = 253%nat) as Ht by (unfold t; rewrite !length_app; cbn [length]; lia).
  assert (sub t 0 2 = [s0; s1] /\ sub t 2 hid = take hid (tunnel_plain input rand)) as [-> Hplain] by done.
  rewrite (take_ge request_authenticator) by lia.
  assert (ctx_holds (ctx_update ctx_alloc secret) secret) as Hold.
  { apply (ctx_update_holds ctx_alloc [] secret); [apply ctx_alloc_holds|cbn; lia]. }
  rewrite (encode_tunnel_loop_spec (tunnel_blocks n) hid 0 hid _ _ (request_authenticator ++ [s0; s1]) t);
    [|unfold tunnel_blocks; fold hid; pose proof (ceil_blocks hid); unfold blocks_of in *; lia|apply ceil_blocks|lia|done| |rewrite length_app; cbn; lia].
  2:{ rewrite Nat.eqb_refl, app_assoc. apply ctx_update_holds; [by apply key_update; [|lia]|]. rewrite length_app. cbn. lia. }
  change (2 + 0)%nat with 2%nat. rewrite Hplain. unfold splice.
  assert (take 2 t = [s0; s1]) as -> by done.
  assert (length (hide key (tunnel_blocks n) (request_authenticator ++ [s0; s1]) (take hid (tunnel_plain input rand))) = hid) as Hhl.
  { rewrite length_hide by apply key_length. rewrite <- Hplain. apply length_sub. lia. }
  rewrite take_app_ge by (cbn; lia). f_equal. cbn [length].
  rewrite take_app_le by lia. destruct (decide (Nat.min room 253 <= hid + 2)%nat).
  - f_equal. lia.
  - rewrite take_ge by lia. symmetry. apply take_ge. lia.
Qed.

(** The decoder on [e] >= 2 hidden octets after the salt. *)
Lemma decode_tunnel_eq l e :
  (2 <= e)%nat -> (e + 2 <= length l)%nat ->
  let plain := unhide key ((e + 15) / 16) (request_authenticator ++ sub l 0 2) (sub l 2 e) in
  let embedded_len := Z.to_nat (get plain 0) in
  fr_radius_decode_tunnel_password secret request_authenticator l (e + 2) false =
  if (e <? embedded_len)%nat then None
  else Some (embedded_len, <[embedded_len := 0]> (splice l 0 (drop 1 plain))).
Proof.
  intros He Hl plain embedded_len. unfold fr_radius_decode_tunnel_password.
  rewrite (proj2 (Nat.ltb_ge _ _)), (proj2 (Nat.leb_gt _ _)) by lia. cbv zeta.
  replace (e + 2 - 2)%nat with e by lia. rewrite (take_ge request_authenticator) by lia.
  assert (ctx_holds (ctx_update ctx_alloc secret) secret) as Hold.
  { apply (ctx_update_holds ctx_alloc [] secret); [apply ctx_alloc_holds|cbn; lia]. }
  pose proof (ceil_blocks e) as Hk. pose proof (length_sub l 0 2 ltac:(lia)) as Hs2.
  rewrite (decode_tunnel_loop_spec ((e + 15) / 16) e e _ _ (request_authenticator ++ sub l 0 2) l);
    [|unfold blocks_of in Hk; lia|done|lia|lia|done| |rewrite length_app; lia].
  2:{ rewrite app_assoc. apply ctx_update_holds; [by apply key_update; [|lia]|]. rewrite length_app. lia. }
  fold plain. fold embedded_len. by destruct (e <? embedded_len)%nat.
Qed.

(** C19: a Tunnel-Password is encoded exactly when it has at most 250 octets
    and the salt, length and password fit the output; the salt has its high
    bit set; and decoding the attribute with the same secret and authenticator
    gives the password back, even when the output had no room for the
    padding. *)
Theorem tunnel_password_roundtrip room stack input salt_offset rand :
  length stack = 256%nat -> (length input <= 250)%nat -> (length input + 3 <= room)%nat ->
  exists out buffer,
    encode_tunnel_password secret request_authenticator room input salt_offset rand = inr (out, salt_offset + 1) /\
    Z.testbit (get out 0) 7 = true /\
    fr_radius_decode_tunnel_password secret request_authenticator (splice stack 0 out) (length out) false =
      Some (length input, buffer) /\
    take (length input) buffer = input.
Proof.
  intros Hstack Hlen Hroom. rewrite encode_tunnel_eq, decide_True by done. cbv zeta.
  set (n := length input) in *. set (hid := tunnel_hidden n). set (r := rand (250 - n)%nat).
  set (s0 := u8 _). set (s1 := r &z 255). set (P := take hid (tunnel_plain input rand)).
  set (h := hide key (tunnel_blocks n) (request_authenticator ++ [s0; s1]) P).
  set (m := (Nat.min room 253 - 2)%nat).
  pose proof (tunnel_hidden_bounds n Hlen) as Hhb. fold hid in Hhb.
  assert (length P = hid) as HP.
  { unfold P. rewrite length_take. cbn [length tunnel_plain]. rewrite length_app, length_map, length_seq. lia. }
  assert (length h = hid) as Hh by (unfold h; rewrite length_hide; [done|apply key_length]).
  set (e := Nat.min m hid).
  assert (length (take m h) = e) as He by (rewrite length_take; lia).
  assert (n + 1 <= e <= 251)%nat as Heb by (unfold e, m; lia).
  set (out := [s0; s1] ++ take m h). assert (length out = e + 2)%nat as Hout.
  { unfold out. rewrite length_app, He. cbn; lia. }
  set (l := splice stack 0 out). assert (length l = 256)%nat as Hl by (unfold l; rewrite length_splice; lia).
  assert (sub l 0 2 = [s0; s1]) as Hsalt by done.
  assert (sub l 2 e = take m h) as Hsub.
  { unfold l, sub, splice. rewrite take_0, app_nil_l. unfold out. rewrite <- app_assoc.
    cbn [app drop]. by apply take_app_length'. }
  assert (get P 0 = Z.of_nat n /\ take n (drop 1 P) = input) as [HP0 HP1].
  { unfold P, tunnel_plain. fold n. destruct hid as [|hid']; [lia|]. split; [done|]. cbn [take drop].
    rewrite drop_0, take_take, Nat.min_l by lia. apply take_app_length. }
  assert (Z.testbit (get out 0) 7 = true) as Hbit.
  { cbn [get nth app out]. unfold s0, u8. change 256 with (2 ^ 8). rewrite Z.mod_pow2_bits_low, !Z.lor_spec by lia. done. }
  destruct (decide (e = 1)%nat) as [E1|E1].
  { exists out. eexists. split; [done|]. split; [done|]. rewrite Hout.
    assert (n = 0)%nat as Hn0 by lia. rewrite E1. unfold fr_radius_decode_tunnel_password. cbn [Nat.add Nat.ltb Nat.leb].
    rewrite Hn0. split; [done|]. by destruct input. }
  exists out. eexists. split; [done|]. split; [done|].
  rewrite Hout. fold l. rewrite decode_tunnel_eq by lia. cbv zeta. rewrite Hsalt, Hsub.
  assert (unhide key ((e + 15) / 16) (request_authenticator ++ [s0; s1]) (take m h) = take e P) as ->.
  { pose proof (ceil_blocks e) as Hk. pose proof (ceil_blocks hid) as Hk'. unfold blocks_of in *.
    rewrite <- (unhide_enough _ ((e + 15) / 16) (tunnel_blocks n - (e + 15) / 16)) by (rewrite He; lia).
    replace ((e + 15) / 16 + (tunnel_blocks n - (e + 15) / 16))%nat with (tunnel_blocks n)
      by (unfold tunnel_blocks; fold hid; lia).
    rewrite unhide_take by apply key_length. unfold h. rewrite unhide_hide by apply key_length.
    unfold e. rewrite <- HP, <- take_take. by rewrite (take_ge P (length P)) by lia. }
  assert (get (take e P) 0 = Z.of_nat n) as ->.
  { rewrite <- HP0. unfold get. by rewrite !nth_lookup, lookup_take_lt by lia. }
  rewrite Nat2Z.id, (proj2 (Nat.ltb_ge _ _)) by lia. split; [done|].
  rewrite take_insert_ge by lia.
  assert (length (drop 1 (take e P)) = (e - 1)%nat) as Hd by (rewrite length_drop, length_take; lia).
  unfold splice. rewrite take_0, app_nil_l, take_app_le by lia.
  rewrite <- HP1. replace e with (1 + (e - 1))%nat by lia. rewrite <- take_drop_commute, take_take. f_equal. lia.
Qed.

(** the check on the length octet is off by one.  When the octet decrypts
    to the number of hidden octets, which is one more than the octets that
    follow it, the attribute is accepted with that length, and the last octet
    of the password is not decrypted text but what the buffer held there. *)
Theorem tunnel_length_octet_off_by_one l e :
  (2 <= e)%nat -> (e + 2 <= length l)%nat ->
  get (unhide key ((e + 15) / 16) (request_authenticator ++ sub l 0 2) (sub l 2 e)) 0 = Z.of_nat e ->
  exists buffer,
    fr_radius_decode_tunnel_password secret request_authenticator l (e + 2) false = Some (e, buffer) /\
    buffer !! (e - 1)%nat = l !! (e - 1)%nat.
Proof.
  intros He Hl Hoct. rewrite decode_tunnel_eq by done. cbv zeta. rewrite Hoct, Nat2Z.id, Nat.ltb_irrefl.
  eexists. split; [done|]. rewrite list_lookup_insert_ne by lia.
  set (plain := unhide _ _ _ _). assert (length plain = e) as Hp.
  { unfold plain. rewrite length_unhide by apply key_length. apply length_sub. lia. }
  assert (length (drop 1 plain) = (e - 1)%nat) as Hd by (rewrite length_drop; lia).
  rewrite lookup_splice by lia. rewrite decide_False by lia. done.
Qed.
End Loops.

(** Witnesses over MD5: the secret "testing123" and the password "hello". *)

#[local] Existing Instances Md5.md5_ops Md5.md5_laws.

Definition sample_secret : bytes := [116; 101; 115; 116; 105; 110; 103; 49; 50; 51].
Definition sample_vector : bytes := [1; 2; 3; 4; 5; 6; 7; 8; 9; 10; 11; 12; 13; 14; 15; 16].
Definition hello : bytes := [104; 101; 108; 108; 111].


Lemma tunnel_password_roundtrip_witness :
  exists out buffer,
    encode_tunnel_password sample_secret sample_vector 10 hello 3 (fun k => Z.of_nat k) = inr (out, 4) /\
    Z.testbit (get out 0) 7 = true /\
    fr_radius_decode_tunnel_password sample_secret sample_vector (splice (replicate 256 9) 0 out) (length out) false =
      Some (5%nat, buffer) /\
    take 5 buffer = hello.
Proof.
  apply (tunnel_password_roundtrip (Hlaws := Md5.md5_laws) eq_refl sample_secret sample_vector eq_refl eq_refl
           10 (replicate 256 9) hello 3 (fun k => Z.of_nat k)); [reflexivity|cbn; lia|cbn; lia].
Defined.

(** A hidden text of two octets whose length octet decrypts to 2. *)
Definition off_by_one_attr : bytes :=
  [128; 0; 2 ^z get (Md5.md5 (sample_secret ++ sample_vector ++ [128; 0])) 0; 77].

Lemma tunnel_length_octet_off_by_one_witness :
  exists buffer,
    fr_radius_decode_tunnel_password sample_secret sample_vector off_by_one_attr 4 false = Some (2%nat, buffer) /\
    buffer !! 1%nat = Some 0.
Proof.
  apply (tunnel_length_octet_off_by_one (Hlaws := Md5.md5_laws) eq_refl sample_secret sample_vector eq_refl eq_refl
           off_by_one_attr 2); [lia|cbn; lia|vm_compute; reflexivity].
Defined.
End RadiusPassword.
