(* ===== verification/UtilTime.v ===== *)
(** Time arithmetic of src/lib/util/time.h: the saturating operations on server
    time, time differences and Unix time, and conversions between scales.
    All values are in nanoseconds; [fr_time_t] and [fr_time_delta_t] are 64-bit
    signed and [fr_unix_time_t] is 64-bit unsigned. *)

From S2P Require Import Prelude.

Module UtilTime.

Abbreviation fr_time_t := Z.
Abbreviation fr_time_delta_t := Z.
Abbreviation fr_unix_time_t := Z.

Abbreviation NSEC := 1000000000%Z (only parsing).
Abbreviation USEC := 1000000%Z (only parsing).
Abbreviation MSEC := 1000%Z (only parsing).
Abbreviation CSEC := 100%Z (only parsing).

(** [fr_add], [fr_sub] and [fr_multiply] of math.h: the exact result when it
    fits the type of the output, which is the suffix. *)
Definition fits_s64 (x : Z) : option Z := if (INT64_MIN <=? x) && (x <=? INT64_MAX) then Some x else None.
Definition fits_u64 (x : Z) : option Z := if (0 <=? x) && (x <=? UINT64_MAX) then Some x else None.
Definition fr_add (a b : Z) : option Z := fits_s64 (a + b).
Definition fr_sub (a b : Z) : option Z := fits_s64 (a - b).
Definition fr_multiply (a b : Z) : option Z := fits_s64 (a * b).
Definition fr_add_u64 (a b : Z) : option Z := fits_u64 (a + b).
Definition fr_sub_u64 (a b : Z) : option Z := fits_u64 (a - b).
Definition fr_multiply_u64 (a b : Z) : option Z := fits_u64 (a * b).

Definition fr_time_op_ispos (a op b : bool) : bool := Bool.eqb (Bool.eqb a op) b.

(** The direction of an overflow, for signed operands and with a Unix time as
    one of them (which counts as positive). *)
Definition fr_time_overflow_ispos (a : Z) (op : bool) (b : Z) : bool :=
  fr_time_op_ispos (0 <=? a) op (0 <=? b).

Abbreviation fr_time_max := INT64_MAX (only parsing).
Abbreviation fr_time_min := INT64_MIN (only parsing).
Abbreviation fr_unix_time_max := UINT64_MAX (only parsing).
Abbreviation fr_unix_time_min := 0%Z (only parsing).

Definition fr_time_overflow_add (a b : Z) : Z := if fr_time_overflow_ispos a true b then fr_time_max else fr_time_min.
Definition fr_time_overflow_sub (a b : Z) : Z := if fr_time_overflow_ispos a false b then fr_time_max else fr_time_min.
Definition fr_unix_time_overflow_add (a b : Z) : Z := if fr_time_overflow_ispos a true b then fr_unix_time_max else fr_unix_time_min.
Definition fr_unix_time_overflow_sub (a b : Z) : Z := if fr_time_overflow_ispos a false b then fr_unix_time_max else fr_unix_time_min.

(** ** Arithmetic *)

Definition fr_time_add_time_delta (a : fr_time_t) (b : fr_time_delta_t) : fr_time_t :=
  match fr_add a b with Some out => out | None => fr_time_overflow_add a b end.
Definition fr_time_add_delta_time (a : fr_time_delta_t) (b : fr_time_t) : fr_time_t :=
  match fr_add a b with Some out => out | None => fr_time_overflow_add a b end.
Definition fr_time_sub_time_time (a b : fr_time_t) : fr_time_delta_t :=
  match fr_sub a b with Some out => out | None => fr_time_overflow_sub a b end.
Definition fr_time_sub_time_delta (a : fr_time_t) (b : fr_time_delta_t) : fr_time_t :=
  match fr_sub a b with Some out => out | None => fr_time_overflow_sub a b end.
Definition fr_time_delta_add (a b : fr_time_delta_t) : fr_time_delta_t :=
  match fr_add a b with Some out => out | None => fr_time_overflow_add a b end.
Definition fr_time_delta_sub (a b : fr_time_delta_t) : fr_time_delta_t :=
  match fr_sub a b with Some out => out | None => fr_time_overflow_sub a b end.

Definition fr_time_delta_mul (a : fr_time_delta_t) (b : Z) : fr_time_delta_t :=
  match fr_multiply a b with Some out => out | None => a end.

Definition fr_unix_time_add_time_delta (a : fr_unix_time_t) (b : fr_time_delta_t) : fr_unix_time_t :=
  match fr_add_u64 a b with Some out => out | None => fr_unix_time_overflow_add a b end.
Definition fr_unix_time_add_delta_time (a : fr_time_delta_t) (b : fr_unix_time_t) : fr_unix_time_t :=
  match fr_add_u64 a b with Some out => out | None => fr_unix_time_overflow_add a b end.
Definition fr_unix_time_sub_time_time (a b : fr_unix_time_t) : fr_time_delta_t :=
  match fr_sub a b with Some out => out | None => fr_time_overflow_sub a b end.
Definition fr_unix_time_sub_time_delta (a : fr_unix_time_t) (b : fr_time_delta_t) : fr_unix_time_t :=
  match fr_sub_u64 a b with Some out => out | None => fr_unix_time_overflow_sub a b end.

(** [struct timeval] and [struct timespec] *)
Record timeval := MkTimeval { tv_sec : Z; tv_usec : Z }.
Record timespec := MkTimespec { ts_sec : Z; ts_nsec : Z }.

(** ** Unix time from and to other scales *)

Definition fr_unix_time_from_scaled (n mult : Z) : fr_unix_time_t :=
  match fr_multiply_u64 n mult with
  | Some out => out
  | None => if 0 <? n then fr_unix_time_max else fr_unix_time_min
  end.
Definition fr_unix_time_from_usec (usec : Z) := fr_unix_time_from_scaled usec (Z.quot NSEC USEC).
Definition fr_unix_time_from_msec (msec : Z) := fr_unix_time_from_scaled msec (Z.quot NSEC MSEC).
Definition fr_unix_time_from_csec (csec : Z) := fr_unix_time_from_scaled csec (Z.quot NSEC CSEC).
Definition fr_unix_time_from_sec (sec : Z) := fr_unix_time_from_scaled sec NSEC.

(** ** Differences from and to other scales *)

Definition fr_time_delta_from_scaled (n mult : Z) : fr_time_delta_t :=
  match fr_multiply n mult with
  | Some out => out
  | None => if 0 <? n then fr_time_max else fr_time_min
  end.
Definition fr_time_delta_from_usec (usec : Z) := fr_time_delta_from_scaled usec (Z.quot NSEC USEC).
Definition fr_time_delta_from_msec (msec : Z) := fr_time_delta_from_scaled msec (Z.quot NSEC MSEC).
Definition fr_time_delta_from_csec (csec : Z) := fr_time_delta_from_scaled csec (Z.quot NSEC CSEC).
Definition fr_time_delta_from_sec (sec : Z) := fr_time_delta_from_scaled sec NSEC.

Definition fr_time_delta_from_timeval (tv : timeval) : fr_time_delta_t :=
  match fr_multiply (tv_sec tv) NSEC with
  | None => fr_time_max
  | Some integer =>
      match fr_multiply (tv_usec tv) (Z.quot NSEC USEC) with
      | None => fr_time_max
      | Some fraction => match fr_add integer fraction with None => fr_time_max | Some out => out end
      end
  end.

Definition fr_time_delta_from_timespec (ts : timespec) : fr_time_delta_t :=
  match fr_multiply (ts_sec ts) NSEC with
  | None => fr_time_max
  | Some integer => match fr_add integer (ts_nsec ts) with None => fr_time_max | Some out => out end
  end.

Definition fr_time_delta_to_usec (d : fr_time_delta_t) : Z := Z.quot d (Z.quot NSEC USEC).

Definition fr_time_delta_to_timeval (d : fr_time_delta_t) : timeval :=
  MkTimeval (Z.quot d NSEC) (Z.quot (Z.rem d NSEC) (Z.quot NSEC USEC)).
Definition fr_time_delta_to_timespec (d : fr_time_delta_t) : timespec :=
  MkTimespec (Z.quot d NSEC) (Z.rem d NSEC).

(** ** Server time and wallclock time

    [offset] is fr_time_monotonic_to_realtime. *)

Section Offset.
Variable offset : Z.

(** The macro adds without an overflow check: [None] when it overflows. *)
Definition fr_time_to_timespec (when : fr_time_t) : option timespec :=
  match fits_s64 (offset + when) with Some d => Some (fr_time_delta_to_timespec d) | None => None end.

Definition fr_time_from_timespec (when : timespec) : fr_time_t :=
  let tmp := fr_time_delta_from_timespec when in
  match fr_sub tmp offset with
  | None => if 0 <? tmp then fr_time_min else fr_time_max
  | Some out => out
  end.
End Offset.

(** [CMP] *)
Definition fr_time_cmp (a b : fr_time_t) : Z := Z.b2z (b <? a) - Z.b2z (a <? b).
Definition fr_time_delta_cmp (a b : fr_time_delta_t) : Z := Z.b2z (b <? a) - Z.b2z (a <? b).

(** ** Lemmas *)

Definition clamp (lo hi x : Z) : Z := Z.max lo (Z.min hi x).

Ltac time_cases :=
  unfold fits_s64, fits_u64, fr_time_overflow_add, fr_time_overflow_sub,
    fr_unix_time_overflow_add, fr_unix_time_overflow_sub, fr_time_overflow_ispos, fr_time_op_ispos, clamp, is_s64, is_u64,
    INT64_MIN, INT64_MAX, UINT64_MAX in *;
  repeat (match goal with
          | |- context [?a <=? ?b] => destruct (Z.leb_spec a b)
          | |- context [?a <? ?b] => destruct (Z.ltb_spec a b)
          end; cbn [andb Bool.eqb]); try lia.

Lemma fits_s64_in x : is_s64 x -> fits_s64 x = Some x.
Proof. intros. time_cases. reflexivity. Qed.

Lemma fits_s64_Some x y : fits_s64 x = Some y -> y = x /\ is_s64 x.
Proof. time_cases; intros E; inversion E; lia. Qed.

Lemma fits_s64_None x : fits_s64 x = None -> x < INT64_MIN \/ INT64_MAX < x.
Proof. time_cases; intros E; inversion E; lia. Qed.

Lemma quot_bounds a m : 0 < m -> Z.abs (Z.quot a m * m) <= Z.abs a /\ Z.abs (a - Z.quot a m * m) < m.
Proof.
  intros Hm. pose proof (Z.quot_rem a m ltac:(lia)) as E.
  pose proof (Z.rem_bound_abs a m ltac:(lia)) as B.
  assert (0 <= a \/ a <= 0) as [H|H] by lia.
  - pose proof (Z.rem_bound_pos a m H Hm). pose proof (Z.quot_pos a m H Hm). nia.
  - pose proof (Z.rem_nonpos a m ltac:(lia) H).
    pose proof (Z.quot_pos (- a) m ltac:(lia) Hm) as Q. rewrite Z.quot_opp_l in Q by lia. nia.
Qed.

(** A time difference as whole seconds and the rest is in range. *)
Lemma delta_split d : is_s64 d -> is_s64 (Z.quot d NSEC * NSEC) /\ Z.quot d NSEC * NSEC + Z.rem d NSEC = d.
Proof.
  intros Hd. pose proof (quot_bounds d NSEC ltac:(reflexivity)) as [H1 H2].
  pose proof (Z.quot_rem d NSEC ltac:(discriminate)) as E.
  split; [|lia]. unfold is_s64, INT64_MIN, INT64_MAX in *.
  assert (d = -9223372036854775808 \/ Z.abs d <= 9223372036854775807) as [->|] by lia; [|lia].
  vm_compute. split; discriminate.
Qed.

Lemma delta_timeval d : Z.quot d NSEC * NSEC + Z.quot (Z.rem d NSEC) 1000 * 1000 = Z.quot d 1000 * 1000.
Proof.
  Z.to_euclidean_division_equations. lia.
Qed.

Lemma delta_timespec d : is_s64 d -> fr_time_delta_from_timespec (fr_time_delta_to_timespec d) = d.
Proof.
  intros Hd. destruct (delta_split d Hd) as [H1 H2].
  unfold fr_time_delta_from_timespec, fr_time_delta_to_timespec, fr_multiply, fr_add. cbn [ts_sec ts_nsec].
  rewrite (fits_s64_in _ H1), H2, fits_s64_in; auto.
Qed.

Lemma delta_from_scaled_clamp n mult :
  0 < mult -> fr_time_delta_from_scaled n mult = clamp INT64_MIN INT64_MAX (n * mult).
Proof.
  intros. unfold fr_time_delta_from_scaled, fr_multiply.
  destruct (fits_s64 (n * mult)) eqn:E.
  - apply fits_s64_Some in E as [-> ?]. time_cases.
  - apply fits_s64_None in E. time_cases; nia.
Qed.

Lemma unix_from_scaled_clamp n mult :
  0 < mult -> fr_unix_time_from_scaled n mult = clamp 0 UINT64_MAX (n * mult).
Proof. intros. unfold fr_unix_time_from_scaled, fr_multiply_u64. time_cases; nia. Qed.

(** ** Properties *)

(** Adding a time difference to a Unix time, in either order, and
    subtracting one, give the exact result when it is a 64-bit unsigned value
    and saturate at 0 or at the largest value otherwise, on the side of the
    overflow. Conversions into a Unix time and into a time difference from every
    unit saturate the same way. *)
Theorem unix_time_saturates (a b n : Z) :
  is_u64 a -> is_s64 b ->
  fr_unix_time_add_time_delta a b = clamp 0 UINT64_MAX (a + b)
  /\ fr_unix_time_add_delta_time b a = clamp 0 UINT64_MAX (b + a)
  /\ fr_unix_time_sub_time_delta a b = clamp 0 UINT64_MAX (a - b)
  /\ fr_unix_time_from_usec n = clamp 0 UINT64_MAX (n * 1000)
  /\ fr_unix_time_from_msec n = clamp 0 UINT64_MAX (n * 1000000)
  /\ fr_unix_time_from_csec n = clamp 0 UINT64_MAX (n * 10000000)
  /\ fr_unix_time_from_sec n = clamp 0 UINT64_MAX (n * 1000000000)
  /\ fr_time_delta_from_usec n = clamp INT64_MIN INT64_MAX (n * 1000)
  /\ fr_time_delta_from_msec n = clamp INT64_MIN INT64_MAX (n * 1000000)
  /\ fr_time_delta_from_csec n = clamp INT64_MIN INT64_MAX (n * 10000000)
  /\ fr_time_delta_from_sec n = clamp INT64_MIN INT64_MAX (n * 1000000000).
Proof.
  intros Ha Hb.
  split_and!;
    try (apply unix_from_scaled_clamp; reflexivity); try (apply delta_from_scaled_clamp; reflexivity).
  - unfold fr_unix_time_add_time_delta, fr_add_u64. time_cases.
  - unfold fr_unix_time_add_delta_time, fr_add_u64. time_cases.
  - unfold fr_unix_time_sub_time_delta, fr_sub_u64. time_cases.
Qed.

Lemma unix_time_saturates_witness :
  fr_unix_time_sub_time_delta 5 7 = 0 /\ fr_time_delta_from_sec (-10000000000) = INT64_MIN.
Proof.
  split.
  - rewrite (proj1 (proj2 (proj2 (unix_time_saturates 5 7 0 ltac:(unfold is_u64; lia) ltac:(vm_compute; split; discriminate))))).
    reflexivity.
  - destruct (unix_time_saturates 5 7 (-10000000000) ltac:(unfold is_u64; lia) ltac:(vm_compute; split; discriminate))
      as (_ & _ & _ & _ & _ & _ & _ & _ & _ & _ & ->). reflexivity.
Defined.

(** Server times and time differences do not saturate on the side of the
    overflow: a sum or difference that does not fit is the largest value,
    whether it is too large or too small. The difference of two Unix times does
    the opposite: it is the smallest value in both cases. *)
Theorem time_overflow_direction_lost (a b : Z) :
  (is_s64 a -> is_s64 b ->
     let sat x := if (INT64_MIN <=? x) && (x <=? INT64_MAX) then x else INT64_MAX in
     fr_time_add_time_delta a b = sat (a + b) /\ fr_time_add_delta_time a b = sat (a + b)
     /\ fr_time_delta_add a b = sat (a + b) /\ fr_time_sub_time_time a b = sat (a - b)
     /\ fr_time_sub_time_delta a b = sat (a - b) /\ fr_time_delta_sub a b = sat (a - b))
  /\ (is_u64 a -> is_u64 b ->
      fr_unix_time_sub_time_time a b
      = if (INT64_MIN <=? a - b) && (a - b <=? INT64_MAX) then a - b else INT64_MIN).
Proof.
  split; intros Ha Hb.
  - intros sat. subst sat. cbv beta.
    unfold fr_time_add_time_delta, fr_time_add_delta_time, fr_time_delta_add, fr_time_sub_time_time,
      fr_time_sub_time_delta, fr_time_delta_sub, fr_add, fr_sub.
    split_and!; time_cases.
  - unfold fr_unix_time_sub_time_time, fr_sub. time_cases.
Qed.

Lemma time_overflow_direction_lost_witness :
  fr_time_delta_sub (-9223372036854775807) 9 = INT64_MAX /\ fr_unix_time_sub_time_time UINT64_MAX 0 = INT64_MIN.
Proof.
  split.
  - destruct (proj1 (time_overflow_direction_lost (-9223372036854775807) 9)
                ltac:(vm_compute; split; discriminate) ltac:(vm_compute; split; discriminate)) as (_ & _ & _ & _ & _ & ->).
    reflexivity.
  - rewrite (proj2 (time_overflow_direction_lost UINT64_MAX 0)
               ltac:(unfold is_u64, UINT64_MAX; lia) ltac:(unfold is_u64; lia)). reflexivity.
Defined.

(** Splitting a time difference into a timespec and reading it back is the
    identity on every 64-bit value, negative ones and the smallest included;
    through a timeval it drops what is below a microsecond, toward zero; and a
    server time survives the trip to wallclock time and back, for every clock
    offset for which the wallclock time fits. *)
Theorem time_timespec_roundtrip (offset d : Z) :
  is_s64 d ->
  fr_time_delta_from_timespec (fr_time_delta_to_timespec d) = d
  /\ fr_time_delta_from_timeval (fr_time_delta_to_timeval d) = Z.quot d 1000 * 1000
  /\ (is_s64 (offset + d) ->
      exists ts, fr_time_to_timespec offset d = Some ts /\ fr_time_from_timespec offset ts = d).
Proof.
  intros Hd. split_and!; [auto using delta_timespec| |].
  - destruct (delta_split d Hd) as [H1 H2].
    unfold fr_time_delta_from_timeval, fr_time_delta_to_timeval, fr_multiply, fr_add. cbn [tv_sec tv_usec].
    rewrite (fits_s64_in _ H1). change (Z.quot NSEC USEC) with 1000.
    pose proof (quot_bounds (Z.rem d NSEC) 1000 ltac:(reflexivity)) as [B1 _].
    pose proof (Z.rem_bound_abs d NSEC ltac:(discriminate)) as B2.
    rewrite fits_s64_in by (unfold is_s64, INT64_MIN, INT64_MAX in *; lia).
    rewrite delta_timeval.
    rewrite fits_s64_in; [reflexivity|].
    pose proof (quot_bounds d 1000 ltac:(reflexivity)) as [B3 _].
    assert (d = INT64_MIN \/ Z.abs d <= INT64_MAX) as [->|] by (unfold is_s64, INT64_MIN, INT64_MAX in *; lia).
    + vm_compute; split; discriminate.
    + unfold is_s64, INT64_MIN, INT64_MAX in *; lia.
  - intros Ho. unfold fr_time_to_timespec. rewrite (fits_s64_in _ Ho). eexists; split; [reflexivity|].
    unfold fr_time_from_timespec. rewrite delta_timespec by auto. unfold fr_sub.
    replace (offset + d - offset) with d by lia. rewrite fits_s64_in; auto.
Qed.

Lemma time_timespec_roundtrip_witness :
  fr_time_delta_from_timespec (fr_time_delta_to_timespec INT64_MIN) = INT64_MIN.
Proof. apply (time_timespec_roundtrip 0 INT64_MIN). vm_compute; split; discriminate. Defined.
End UtilTime.
