(* ===== verification/Uint128.v ===== *)
(** The portable 128-bit integers of src/lib/util/uint128.h, used where the
    compiler has none: a pair of 64-bit words. [val] is the number a pair stands
    for; each operation is shown to be the arithmetic it is named after, modulo
    2^128, or not to be. *)

From S2P Require Import Prelude.

Module Uint128.

Record uint128_t := MkU128 { l : Z; h : Z }.

(** 64-bit operators: a shift count has to be below 64. *)
Definition add64 (a b : Z) : Z := u64 (a + b).
Definition sub64 (a b : Z) : Z := u64 (a - b).
Definition mul64 (a b : Z) : Z := u64 (a * b).
Definition shl64 (a n : Z) : option Z := if (0 <=? n) && (n <? 64) then Some (u64 (Z.shiftl a n)) else None.
Definition shr64 (a n : Z) : option Z := if (0 <=? n) && (n <? 64) then Some (Z.shiftr a n) else None.

(** [None] when the assertion fails or a shift count is out of range. *)
Definition uint128_gen_mask (bits : Z) : option uint128_t :=
  if negb (bits <? 128) then None
  else if 64 <? bits then
    match shl64 1 (bits - 64) with
    | None => None
    | Some h => Some (MkU128 0xffffffffffffffff (Z.lxor h (sub64 h 1)))
    end
  else
    match shl64 1 bits with
    | None => None
    | Some l => Some (MkU128 (Z.lxor l (sub64 l 1)) 0)
    end.

Definition uint128_increment (n : uint128_t) : uint128_t :=
  let t := add64 (l n) 1 in
  MkU128 t (add64 (h n) (Z.shiftr (Z.land (Z.lxor (l n) t) (l n)) 63)).

Definition uint128_decrement (n : uint128_t) : uint128_t :=
  let t := sub64 (l n) 1 in
  MkU128 t (sub64 (h n) (Z.shiftr (Z.land (Z.lxor t (l n)) t) 63)).

Definition uint128_add (a b : uint128_t) : uint128_t :=
  let tmp := Z.shiftr (add64 (add64 (Z.land (Z.land (l a) (l b)) 1) (Z.shiftr (l a) 1)) (Z.shiftr (l b) 1)) 63 in
  MkU128 (add64 (l a) (l b)) (add64 (add64 (h a) (h b)) tmp).

Definition uint128_sub (a b : uint128_t) : uint128_t :=
  let ret_l := sub64 (l a) (l b) in
  let c := Z.shiftr (add64 (add64 (Z.land (Z.land ret_l (l b)) 1) (Z.shiftr (l b) 1)) (Z.shiftr ret_l 1)) 63 in
  MkU128 ret_l (sub64 (h a) (add64 (h b) c)).

Definition uint128_mul64 (u v : Z) : uint128_t :=
  let u1 := Z.land u 0xffffffff in
  let v1 := Z.land v 0xffffffff in
  let t := mul64 u1 v1 in
  let w3 := Z.land t 0xffffffff in
  let k := Z.shiftr t 32 in
  let u := Z.shiftr u 32 in
  let t := add64 (mul64 u v1) k in
  let k := Z.land t 0xffffffff in
  let w1 := Z.shiftr t 32 in
  let v := Z.shiftr v 32 in
  let t := add64 (mul64 u1 v) k in
  let k := Z.shiftr t 32 in
  MkU128 (add64 (u64 (Z.shiftl t 32)) w3) (add64 (add64 (mul64 u v) w1) k).

Definition uint128_mul (n m : uint128_t) : uint128_t :=
  let ret := uint128_mul64 (l n) (l m) in
  MkU128 (l ret) (add64 (h ret) (add64 (mul64 (h n) (l m)) (mul64 (l n) (h m)))).

Definition uint128_lshift (num : uint128_t) (bits : Z) : option uint128_t :=
  if negb (bits <? 128) then None
  else if 64 <=? bits then
    let num := MkU128 0 (h num) in
    match shl64 (l num) (bits - 64) with
    | None => None
    | Some h' => Some (MkU128 (l num) h')
    end
  else
    match shl64 (h num) bits, shr64 (l num) (64 - bits), shl64 (l num) bits with
    | Some x, Some y, Some l' => Some (MkU128 l' (Z.lor x y))
    | _, _, _ => None
    end.

Definition uint128_rshift (num : uint128_t) (bits : Z) : option uint128_t :=
  if negb (bits <? 128) then None
  else if 64 <=? bits then
    let num := MkU128 (l num) 0 in
    match shr64 (h num) (bits - 64) with
    | None => None
    | Some l' => Some (MkU128 l' (h num))
    end
  else
    match shr64 (l num) bits, shl64 (h num) (64 - bits), shr64 (h num) bits with
    | Some x, Some y, Some h' => Some (MkU128 (Z.lor x y) h')
    | _, _, _ => None
    end.

Definition uint128_band (a b : uint128_t) : uint128_t := MkU128 (Z.land (l a) (l b)) (Z.land (h a) (h b)).
Definition uint128_bor (a b : uint128_t) : uint128_t := MkU128 (Z.lor (l a) (l b)) (Z.lor (h a) (h b)).
Definition uint128_eq (a b : uint128_t) : bool := (h a =? h b) && (l a =? l b).
Definition uint128_gt (a b : uint128_t) : bool :=
  if h a <? h b then false else if h b <? h a then true else l b <? l a.
Definition uint128_to_64 (a : uint128_t) : Z := l a.

(** ** The number a pair stands for *)

Definition wf (a : uint128_t) : Prop := is_u64 (l a) /\ is_u64 (h a).
Definition val (a : uint128_t) : Z := h a * 2 ^ 64 + l a.

Lemma u64_eq x : u64 x = x mod 2 ^ 64.
Proof. reflexivity. Qed.

(** A pair of reduced words, from a high word known modulo 2^64. *)
Lemma val_words x y k X :
  X = (y + k * 2 ^ 64) * 2 ^ 64 + u64 x -> val (MkU128 (u64 x) (u64 y)) = X mod 2 ^ 128.
Proof.
  intros ->. unfold val. cbn [l h]. rewrite !u64_eq.
  apply Z.mod_unique with (y / 2 ^ 64 + k); [left|];
    pose proof (Z.mod_pos_bound x (2 ^ 64) ltac:(lia)); pose proof (Z.mod_pos_bound y (2 ^ 64) ltac:(lia)); [lia|].
  pose proof (Z.div_mod y (2 ^ 64) ltac:(lia)). lia.
Qed.

(** The carry out of a 64-bit addition, as the code computes it. *)
Lemma carry_out x y :
  is_u64 x -> is_u64 y ->
  Z.shiftr (add64 (add64 (Z.land (Z.land x y) 1) (Z.shiftr x 1)) (Z.shiftr y 1)) 63 = (x + y) / 2 ^ 64.
Proof.
  unfold is_u64, add64, u64. intros Hx Hy.
  assert (Z.land (Z.land x y) 1 = (x mod 2) * (y mod 2)) as ->.
  { change 1 with (Z.ones 1). rewrite Z.land_ones by lia. change (2 ^ 1) with 2.
    rewrite <- !Z.bit0_mod, Z.land_spec. destruct (Z.testbit x 0), (Z.testbit y 0); reflexivity. }
  rewrite !Z.shiftr_div_pow2 by lia. change (2 ^ 1) with 2.
  pose proof (Z.mod_pos_bound x 2 ltac:(lia)). pose proof (Z.mod_pos_bound y 2 ltac:(lia)).
  assert (x mod 2 = 0 \/ x mod 2 = 1) as [E1|E1] by lia; assert (y mod 2 = 0 \/ y mod 2 = 1) as [E2|E2] by lia;
    rewrite E1, E2; Z.to_euclidean_division_equations; lia.
Qed.

(** Bit 63 is set in [x] and clear in its successor exactly when the successor
    wraps. *)
Lemma wrap_bit x :
  is_u64 x -> Z.shiftr (Z.land (Z.lxor x (add64 x 1)) x) 63 = (x + 1) / 2 ^ 64.
Proof.
  unfold is_u64, add64, u64. intros Hx.
  assert (x = 2 ^ 64 - 1 \/ x < 2 ^ 64 - 1) as [-> |Hlt] by lia; [reflexivity|].
  rewrite Z.mod_small by lia. rewrite (Z.div_small (x + 1)) by lia.
  apply Z.bits_inj'. intros n Hn. rewrite Z.bits_0, Z.shiftr_spec, Z.land_spec, Z.lxor_spec by lia.
  destruct (Z.eq_dec n 0) as [-> |]; cycle 1.
  { rewrite (Z.bits_above_log2 x (n + 63)), andb_false_r; [reflexivity|lia|].
    destruct (Z.eq_dec x 0) as [-> |]; [cbn; lia|]. assert (Z.log2 x < 64) by (apply Z.log2_lt_pow2; lia). lia. }
  change (0 + 63) with 63.
  rewrite !Z.testbit_odd, !Z.shiftr_div_pow2 by lia.
  assert (x / 2 ^ 63 = 0 \/ x / 2 ^ 63 = 1) as [E|E] by (Z.to_euclidean_division_equations; lia).
  - rewrite E, andb_false_r. reflexivity.
  - assert ((x + 1) / 2 ^ 63 = 1) as -> by (Z.to_euclidean_division_equations; lia). rewrite E. reflexivity.
Qed.

Lemma u64_add_l x y : u64 (u64 x + y) = u64 (x + y).
Proof. unfold u64. apply Zplus_mod_idemp_l. Qed.
Lemma u64_add_r x y : u64 (x + u64 y) = u64 (x + y).
Proof. unfold u64. apply Zplus_mod_idemp_r. Qed.
Lemma u64_sub_r x y : u64 (x - u64 y) = u64 (x - y).
Proof. unfold u64. apply Zminus_mod_idemp_r. Qed.

Lemma land_low32 x : Z.land x 0xffffffff = x mod 2 ^ 32.
Proof. exact (Z.land_ones x 32 ltac:(lia)). Qed.

(** The schoolbook product of two 64-bit words by 32-bit halves. *)
Lemma mul64_exact u v : is_u64 u -> is_u64 v -> val (uint128_mul64 u v) = u * v /\ wf (uint128_mul64 u v).
Proof.
  intros Hu Hv. unfold uint128_mul64, val, wf, add64, mul64. cbn zeta. cbn [l h].
  rewrite !land_low32, !Z.shiftr_div_pow2, !Z.shiftl_mul_pow2 by lia.
  pose proof (Z.div_mod u (2 ^ 32) ltac:(lia)) as Eu. pose proof (Z.div_mod v (2 ^ 32) ltac:(lia)) as Ev.
  pose proof (Z.mod_pos_bound u (2 ^ 32) ltac:(lia)) as Bu. pose proof (Z.mod_pos_bound v (2 ^ 32) ltac:(lia)) as Bv.
  assert (0 <= u / 2 ^ 32 < 2 ^ 32) as Bu'
    by (unfold is_u64 in *; split; [apply Z.div_pos|apply Z.div_lt_upper_bound]; lia).
  assert (0 <= v / 2 ^ 32 < 2 ^ 32) as Bv'
    by (unfold is_u64 in *; split; [apply Z.div_pos|apply Z.div_lt_upper_bound]; lia).
  set (u1 := u mod 2 ^ 32) in *. set (uh := u / 2 ^ 32) in *.
  set (v1 := v mod 2 ^ 32) in *. set (vh := v / 2 ^ 32) in *. clearbody u1 uh v1 vh.
  assert (u * v = uh * vh * 2 ^ 64 + (uh * v1 + u1 * vh) * 2 ^ 32 + u1 * v1) as -> by (rewrite Eu, Ev; ring).
  clear Eu Ev Hu Hv.
  assert (0 <= u1 * v1 <= (2 ^ 32 - 1) * (2 ^ 32 - 1)) as P1 by nia.
  assert (0 <= uh * v1 <= (2 ^ 32 - 1) * (2 ^ 32 - 1)) as P2 by nia.
  assert (0 <= u1 * vh <= (2 ^ 32 - 1) * (2 ^ 32 - 1)) as P3 by nia.
  assert (0 <= uh * vh <= (2 ^ 32 - 1) * (2 ^ 32 - 1)) as P4 by nia.
  generalize dependent (u1 * v1). generalize dependent (uh * v1).
  generalize dependent (u1 * vh). generalize dependent (uh * vh).
  intros a Ha b Hb c Hc d Hd. unfold is_u64, u64.
  Z.to_euclidean_division_equations. lia.
Qed.

Lemma testbit_val a n :
  wf a -> 0 <= n -> Z.testbit (val a) n = if n <? 64 then Z.testbit (l a) n else Z.testbit (h a) (n - 64).
Proof.
  intros [Hl Hh] Hn. unfold is_u64 in *. destruct (Z.ltb_spec n 64).
  - rewrite <- (Z.mod_pow2_bits_low (val a) 64) by lia. f_equal. unfold val.
    rewrite Z.add_comm, Z.mod_add, Z.mod_small by lia. reflexivity.
  - replace n with (n - 64 + 64) at 1 by lia. rewrite <- Z.div_pow2_bits by lia. f_equal. unfold val.
    rewrite Z.div_add_l, Z.div_small by lia. lia.
Qed.

Lemma wf_land a b : wf a -> wf b -> wf (uint128_band a b).
Proof.
  intros [Hl Hh] [Gl Gh]. split; cbn [l h uint128_band];
    rewrite <- (u64_id (_ a)), u64_eq, <- Z.land_ones by (auto; lia);
    rewrite (Z.land_comm _ (Z.ones 64)), <- Z.land_assoc, Z.land_comm, Z.land_ones by lia; apply u64_range.
Qed.

Lemma wf_lor a b : wf a -> wf b -> wf (uint128_bor a b).
Proof.
  assert (forall x y, is_u64 x -> is_u64 y -> is_u64 (Z.lor x y)) as Q.
  { intros x y Hx Hy. rewrite <- (u64_id x), <- (u64_id y), !u64_eq, <- !Z.land_ones, <- Z.land_lor_distr_l, Z.land_ones by (auto; lia).
    apply u64_range. }
  intros [Hl Hh] [Gl Gh]. split; apply Q; auto.
Qed.

Lemma band_exact a b : wf a -> wf b -> val (uint128_band a b) = Z.land (val a) (val b).
Proof.
  intros. apply Z.bits_inj'. intros n Hn.
  rewrite Z.land_spec, !testbit_val by auto using wf_land. cbn [l h uint128_band].
  destruct (n <? 64); apply Z.land_spec.
Qed.

Lemma bor_exact a b : wf a -> wf b -> val (uint128_bor a b) = Z.lor (val a) (val b).
Proof.
  intros. apply Z.bits_inj'. intros n Hn.
  rewrite Z.lor_spec, !testbit_val by auto using wf_lor. cbn [l h uint128_bor].
  destruct (n <? 64); apply Z.lor_spec.
Qed.

Lemma mul_exact a b : wf a -> wf b -> val (uint128_mul a b) = (val a * val b) mod 2 ^ 128.
Proof.
  intros [Hal Hah] [Hbl Hbh]. destruct (mul64_exact (l a) (l b)) as [E [Wl Wh]]; auto.
  unfold uint128_mul. cbn zeta. set (r := uint128_mul64 (l a) (l b)) in *.
  unfold add64, mul64. rewrite u64_add_l, u64_add_r, Z.add_assoc, u64_add_r. rewrite <- (u64_id (l r)) by auto.
  apply val_words with (h a * h b). rewrite u64_id by auto. unfold val in *. nia.
Qed.

Lemma eq_exact a b : wf a -> wf b -> uint128_eq a b = (val a =? val b).
Proof.
  intros [Hal Hah] [Hbl Hbh]. unfold uint128_eq, val, is_u64 in *.
  destruct (Z.eqb_spec (h a) (h b)), (Z.eqb_spec (l a) (l b)), (Z.eqb_spec (h a * 2 ^ 64 + l a) (h b * 2 ^ 64 + l b)); cbn; lia.
Qed.

Lemma gt_exact a b : wf a -> wf b -> uint128_gt a b = (val b <? val a).
Proof.
  intros [Hal Hah] [Hbl Hbh]. unfold uint128_gt, val, is_u64 in *.
  destruct (Z.ltb_spec (h a) (h b)), (Z.ltb_spec (h b) (h a)), (Z.ltb_spec (h b * 2 ^ 64 + l b) (h a * 2 ^ 64 + l a)); try lia;
    destruct (Z.ltb_spec (l b) (l a)); lia.
Qed.

Lemma shl64_lt x n : 0 <= n < 64 -> shl64 x n = Some (u64 (x * 2 ^ n)).
Proof. intros. unfold shl64. rewrite Z.shiftl_mul_pow2 by lia. destruct (Z.leb_spec 0 n), (Z.ltb_spec n 64); try lia. reflexivity. Qed.
Lemma shr64_lt x n : 0 <= n < 64 -> shr64 x n = Some (x / 2 ^ n).
Proof. intros. unfold shr64. rewrite Z.shiftr_div_pow2 by lia. destruct (Z.leb_spec 0 n), (Z.ltb_spec n 64); try lia. reflexivity. Qed.

(** Bits shifted up to [n] or more and a number below [2 ^ n] do not overlap. *)
Lemma lor_disjoint x y n : 0 <= n -> 0 <= y < 2 ^ n -> Z.lor (x * 2 ^ n) y = x * 2 ^ n + y.
Proof.
  intros Hn Hy. rewrite Z.add_nocarry_lxor, Z.lxor_lor; auto; rewrite <- Z.shiftl_mul_pow2 by lia;
    apply Z.bits_inj'; intros i Hi; rewrite Z.bits_0, Z.land_spec, Z.shiftl_spec by lia;
    (destruct (Z.ltb_spec i n); [rewrite Z.testbit_neg_r by lia; reflexivity|]);
    replace y with (y mod 2 ^ n) by (apply Z.mod_small; lia); rewrite Z.mod_pow2_bits_high by lia; apply andb_false_r.
Qed.

Lemma u64_shift x n : 0 <= n < 64 -> u64 (x * 2 ^ n) = (x mod 2 ^ (64 - n)) * 2 ^ n.
Proof.
  intros. rewrite u64_eq. replace (2 ^ 64) with (2 ^ (64 - n) * 2 ^ n) by (rewrite <- Z.pow_add_r by lia; f_equal; lia).
  apply Z.mul_mod_distr_r; apply Z.pow_nonzero; lia.
Qed.

(** A word split at bit [n]. *)
Lemma split_word x n :
  is_u64 x -> 0 <= n <= 64 ->
  x = x / 2 ^ n * 2 ^ n + x mod 2 ^ n /\ 0 <= x mod 2 ^ n < 2 ^ n /\ 0 <= x / 2 ^ n < 2 ^ (64 - n).
Proof.
  intros Hx Hn. assert (0 < 2 ^ n) by (apply Z.pow_pos_nonneg; lia).
  pose proof (Z.div_mod x (2 ^ n) ltac:(lia)). split_and!; try apply Z.mod_pos_bound; try lia.
  - apply Z.div_pos; unfold is_u64 in *; lia.
  - apply Z.div_lt_upper_bound; auto. rewrite <- Z.pow_add_r by lia. replace (n + (64 - n)) with 64 by lia.
    unfold is_u64 in *; lia.
Qed.

Lemma lshift_exact a bits :
  wf a -> 1 <= bits <= 63 ->
  exists r, uint128_lshift a bits = Some r /\ val r = (val a * 2 ^ bits) mod 2 ^ 128.
Proof.
  intros [Hl Hh] Hn. unfold uint128_lshift.
  destruct (Z.ltb_spec bits 128), (Z.leb_spec 64 bits); try lia. cbn [negb].
  rewrite !shl64_lt, shr64_lt by lia. eexists; split; [reflexivity|].
  destruct (split_word (l a) (64 - bits)) as (El & Bm & Bd); [auto|lia|].
  replace (64 - (64 - bits)) with bits in Bd by lia.
  rewrite (u64_shift (h a)), lor_disjoint, <- (u64_shift (h a)) by lia.
  destruct (split_word (h a) (64 - bits)) as (Eh & Bhm & Bhd); [auto|lia|].
  rewrite (u64_shift (h a)) by lia.
  assert (2 ^ 64 = 2 ^ (64 - bits) * 2 ^ bits) as E64 by (rewrite <- Z.pow_add_r by lia; f_equal; lia).
  rewrite <- (u64_id (_ + l a / _)) by
    (change 18446744073709551616 with (2 ^ 64); unfold is_u64; change 18446744073709551616 with (2 ^ 64); rewrite E64; nia).
  apply val_words with (h a / 2 ^ (64 - bits)). rewrite (u64_shift (l a)) by lia. unfold val.
  rewrite E64 at 1 3. nia.
Qed.

Lemma rshift_wf_exact a bits :
  wf a -> 1 <= bits <= 63 -> exists r, uint128_rshift a bits = Some r /\ val r = val a / 2 ^ bits /\ wf r.
Proof.
  intros [Hl Hh] Hn. unfold uint128_rshift.
  destruct (Z.ltb_spec bits 128), (Z.leb_spec 64 bits); try lia. cbn [negb].
  rewrite !shr64_lt, shl64_lt by lia. eexists; split; [reflexivity|].
  destruct (split_word (l a) bits) as (El & Bm & Bd); [auto|lia|].
  destruct (split_word (h a) bits) as (Eh & Bhm & Bhd); [auto|lia|].
  rewrite u64_shift by lia. replace (64 - (64 - bits)) with bits by lia.
  rewrite Z.lor_comm, lor_disjoint by lia. unfold val. cbn [l h].
  assert (2 ^ 64 = 2 ^ (64 - bits) * 2 ^ bits) as E64 by (rewrite <- Z.pow_add_r by lia; f_equal; lia).
  split; [apply Z.div_unique with (l a mod 2 ^ bits); [lia|]; rewrite E64; nia|].
  assert (0 < 2 ^ bits) by (apply Z.pow_pos_nonneg; lia).
  split; cbn [l h]; unfold is_u64; change 18446744073709551616 with (2 ^ 64); rewrite E64; nia.
Qed.

Lemma rshift_exact a bits :
  wf a -> 1 <= bits <= 63 -> exists r, uint128_rshift a bits = Some r /\ val r = val a / 2 ^ bits.
Proof. intros Ha Hn. destruct (rshift_wf_exact a bits Ha Hn) as (r & E & V & _). eauto. Qed.

(** ** Properties *)

(** Addition, subtraction, increment and decrement of the portable 128-bit
    integers are exact modulo 2^128 on every pair of 64-bit words: the carry and
    the borrow that the code recovers from the low words without a wider type
    are the right ones. *)
Theorem uint128_additive (a b : uint128_t) :
  wf a -> wf b ->
  val (uint128_add a b) = (val a + val b) mod 2 ^ 128
  /\ val (uint128_sub a b) = (val a - val b) mod 2 ^ 128
  /\ val (uint128_increment a) = (val a + 1) mod 2 ^ 128
  /\ val (uint128_decrement a) = (val a - 1) mod 2 ^ 128.
Proof.
  intros [Hal Hah] [Hbl Hbh]. destruct a as [al ah], b as [bl bh]. cbn [l h] in *.
  unfold uint128_add, uint128_sub, uint128_increment, uint128_decrement. cbn zeta. cbn [l h].
  split_and!.
  - rewrite carry_out by auto. unfold add64. rewrite u64_add_l. apply val_words with 0. unfold val. cbn [l h].
    unfold is_u64, u64 in *. Z.to_euclidean_division_equations. lia.
  - rewrite (Z.land_comm _ bl), carry_out by (auto; apply u64_range).
    unfold sub64, add64. rewrite u64_sub_r. apply val_words with 0. unfold val. cbn [l h].
    unfold is_u64, u64 in *. Z.to_euclidean_division_equations. lia.
  - rewrite wrap_bit by auto. unfold add64. apply val_words with 0. unfold val. cbn [l h].
    unfold is_u64, u64 in *. Z.to_euclidean_division_equations. lia.
  - assert (al = add64 (sub64 al 1) 1) as E.
    { unfold add64, sub64. rewrite u64_add_l, u64_id; [lia|]. replace (al - 1 + 1) with al by lia. auto. }
    rewrite E at 3. rewrite wrap_bit by apply u64_range. clear E. unfold sub64. apply val_words with 0. unfold val. cbn [l h].
    unfold is_u64, u64 in *. Z.to_euclidean_division_equations. lia.
Qed.

Lemma uint128_additive_witness :
  val (uint128_add (MkU128 0xffffffffffffffff 0) (MkU128 1 0)) = 2 ^ 64.
Proof.
  rewrite (proj1 (uint128_additive (MkU128 0xffffffffffffffff 0) (MkU128 1 0)
                    ltac:(split; unfold is_u64; cbn; lia) ltac:(split; unfold is_u64; cbn; lia))).
  reflexivity.
Defined.

(** The product of two 64-bit words is exact and the product of two 128-bit
    integers is exact modulo 2^128; conjunction and disjunction act bit by bit;
    equality and greater-than compare the numbers; and shifts by 1 to 63 bits
    multiply and divide by the power of two. *)
Theorem uint128_multiplicative (a b : uint128_t) (bits : Z) :
  wf a -> wf b -> 1 <= bits <= 63 ->
  val (uint128_mul64 (l a) (l b)) = l a * l b
  /\ val (uint128_mul a b) = (val a * val b) mod 2 ^ 128
  /\ val (uint128_band a b) = Z.land (val a) (val b)
  /\ val (uint128_bor a b) = Z.lor (val a) (val b)
  /\ uint128_eq a b = (val a =? val b) /\ uint128_gt a b = (val b <? val a)
  /\ (exists r, uint128_lshift a bits = Some r /\ val r = (val a * 2 ^ bits) mod 2 ^ 128)
  /\ (exists r, uint128_rshift a bits = Some r /\ val r = val a / 2 ^ bits).
Proof.
  intros Ha Hb Hn. pose proof Ha as [Hal Hah]. pose proof Hb as [Hbl Hbh].
  split_and!.
  - apply mul64_exact; auto.
  - apply mul_exact; auto.
  - apply band_exact; auto.
  - apply bor_exact; auto.
  - apply eq_exact; auto.
  - apply gt_exact; auto.
  - apply lshift_exact; auto.
  - apply rshift_exact; auto.
Qed.

Lemma uint128_multiplicative_witness :
  (exists r, uint128_rshift (MkU128 0 1) 63 = Some r /\ val r = val (MkU128 0 1) / 2 ^ 63) /\ val (MkU128 0 1) / 2 ^ 63 = 2.
Proof.
  split; [|reflexivity].
  apply (uint128_multiplicative (MkU128 0 1) (MkU128 0 1) 63);
    [split; unfold is_u64; cbn; lia | split; unfold is_u64; cbn; lia | lia].
Defined.

(** Shifts by 64 bits or more give 0 for every operand, because the word that
    is to be moved is cleared first; shifts by 0 shift a word by 64, which is
    undefined; and the mask of [bits] bits has [bits + 1] of them set, and is
    undefined at 64. *)
Theorem uint128_wide_shift_lost (a : uint128_t) (bits : Z) :
  0 <= bits < 128 ->
  (64 <= bits -> uint128_lshift a bits = Some (MkU128 0 0) /\ uint128_rshift a bits = Some (MkU128 0 0))
  /\ (bits = 0 -> uint128_lshift a bits = None /\ uint128_rshift a bits = None)
  /\ (bits <> 64 -> exists r, uint128_gen_mask bits = Some r /\ val r = 2 ^ (bits + 1) - 1)
  /\ (bits = 64 -> uint128_gen_mask bits = None).
Proof.
  intros Hn. split_and!.
  - intros H64. unfold uint128_lshift, uint128_rshift.
    destruct (Z.ltb_spec bits 128), (Z.leb_spec 64 bits); try lia. cbn [negb l h].
    rewrite shl64_lt, shr64_lt, Z.div_0_l by (try apply Z.pow_nonzero; lia). split; reflexivity.
  - intros ->. split; unfold uint128_lshift, uint128_rshift; cbn;
      unfold shl64, shr64; cbn; try reflexivity; destruct (shl64 _ _); reflexivity.
  - intros H64. unfold uint128_gen_mask.
    assert (exists n, bits = Z.of_nat n /\ (n < 128)%nat) as (n & -> & Hlt) by (exists (Z.to_nat bits); lia).
    clear Hn. do 128 (destruct n as [|n]; [try (eexists; split; reflexivity); exfalso; lia|]). lia.
  - intros ->. reflexivity.
Qed.

Lemma uint128_wide_shift_lost_witness :
  uint128_lshift (MkU128 1 0) 64 = Some (MkU128 0 0).
Proof. apply (uint128_wide_shift_lost (MkU128 1 0) 64); lia. Defined.
End Uint128.
