(* ===== verification/Rand.v ===== *)
(** The random number generators of src/lib/util/rand.c and isaac.c: the ISAAC
    pool, [fr_rand], the routines that fill buffers from it, and the
    multiply-with-carry generator. The pool is the thread-local [fr_rand_pool];
    the bytes read from /dev/urandom to seed it are an argument. *)

From S2P Require Import Prelude.

Module Rand.

Abbreviation RANDSIZL := 8%Z (only parsing).
Definition RANDSIZ : nat := 256.

Record fr_randctx := MkRandctx {
  randcnt : Z;
  randrsl : list Z;
  randmem : list Z;
  randa : Z;
  randb : Z;
  randc : Z }.

(** [mm[i]] and [r[i]] for an index below 256, which the masks and the loop
    bounds ensure; both arrays have 256 words. *)
Definition word (mm : list Z) (i : nat) : Z := nth i mm 0.

Definition ind (mm : list Z) (x : Z) : Z := word mm (Z.to_nat (Z.land (Z.shiftr x 2) 255)).

(** The locals of [fr_isaac]: the pointers [m], [m2] and [r] are indices. *)
Record isaac_regs := MkRegs {
  ra : Z; rb : Z;
  rmm : list Z; rr : list Z;
  rm : nat; rm2 : nat; rri : nat }.

Definition rngstep (mix : Z -> Z) (s : isaac_regs) : isaac_regs :=
  let x := word (rmm s) (rm s) in
  let a := u32 (Z.lxor (ra s) (mix (ra s)) + word (rmm s) (rm2 s)) in
  let y := u32 (ind (rmm s) x + a + rb s) in
  let mm := <[rm s := y]> (rmm s) in
  let b := u32 (ind mm (Z.shiftr y RANDSIZL) + x) in
  MkRegs a b mm (<[rri s := b]> (rr s)) (S (rm s)) (S (rm2 s)) (S (rri s)).

Definition rngstep4 (s : isaac_regs) : isaac_regs :=
  let s := rngstep (fun a => shl32 a 13) s in
  let s := rngstep (fun a => Z.shiftr a 6) s in
  let s := rngstep (fun a => shl32 a 2) s in
  rngstep (fun a => Z.shiftr a 16) s.

Definition fr_isaac (ctx : fr_randctx) : fr_randctx :=
  let c := u32 (randc ctx + 1) in
  let s := MkRegs (randa ctx) (u32 (randb ctx + c)) (randmem ctx) (randrsl ctx) 0 (RANDSIZ / 2) 0 in
  let s := Nat.iter 32 rngstep4 s in
  let s := Nat.iter 32 rngstep4 (MkRegs (ra s) (rb s) (rmm s) (rr s) (rm s) 0 (rri s)) in
  MkRandctx (randcnt ctx) (rr s) (rmm s) (ra s) (rb s) c.

(** The eight registers of the initialisation. *)
Record regs8 := MkR8 { qa : Z; qb : Z; qc : Z; qd : Z; qe : Z; qf : Z; qg : Z; qh : Z }.

Definition mix (s : regs8) : regs8 :=
  let '(MkR8 a b c d e f g h) := s in
  let a := Z.lxor a (shl32 b 11) in let d := add32 d a in let b := add32 b c in
  let b := Z.lxor b (Z.shiftr c 2) in let e := add32 e b in let c := add32 c d in
  let c := Z.lxor c (shl32 d 8) in let f := add32 f c in let d := add32 d e in
  let d := Z.lxor d (Z.shiftr e 16) in let g := add32 g d in let e := add32 e f in
  let e := Z.lxor e (shl32 f 10) in let h := add32 h e in let f := add32 f g in
  let f := Z.lxor f (Z.shiftr g 4) in let a := add32 a f in let g := add32 g h in
  let g := Z.lxor g (shl32 h 8) in let b := add32 b g in let h := add32 h a in
  let h := Z.lxor h (Z.shiftr a 9) in let c := add32 c h in let a := add32 a b in
  MkR8 a b c d e f g h.

(** [a += src[i]; ... h += src[i + 7];] *)
Definition absorb8 (s : regs8) (src : list Z) (i : nat) : regs8 :=
  MkR8 (add32 (qa s) (word src i)) (add32 (qb s) (word src (i + 1)))
       (add32 (qc s) (word src (i + 2))) (add32 (qd s) (word src (i + 3)))
       (add32 (qe s) (word src (i + 4))) (add32 (qf s) (word src (i + 5)))
       (add32 (qg s) (word src (i + 6))) (add32 (qh s) (word src (i + 7))).

Definition store8 (m : list Z) (i : nat) (s : regs8) : list Z :=
  splice m i [qa s; qb s; qc s; qd s; qe s; qf s; qg s; qh s].

(** The three loops of the initialisation, at [i = 8 * k]. *)
Definition seed_step (r : list Z) (sm : regs8 * list Z) (k : nat) : regs8 * list Z :=
  let s := mix (absorb8 (fst sm) r (8 * k)) in (s, store8 (snd sm) (8 * k) s).
Definition second_step (sm : regs8 * list Z) (k : nat) : regs8 * list Z :=
  let s := mix (absorb8 (fst sm) (snd sm) (8 * k)) in (s, store8 (snd sm) (8 * k) s).
Definition messy_step (sm : regs8 * list Z) (k : nat) : regs8 * list Z :=
  let s := mix (fst sm) in (s, store8 (snd sm) (8 * k) s).

(** The contents of [m] after the loops. *)
Definition init_memory (r m : list Z) (flag : bool) : list Z :=
  let g := 0x9e3779b9 in
  let s := Nat.iter 4 mix (MkR8 g g g g g g g g) in
  if flag then
    let sm := foldl (seed_step r) (s, m) (seq 0 (RANDSIZ / 8)) in
    snd (foldl second_step sm (seq 0 (RANDSIZ / 8)))
  else snd (foldl messy_step (s, m) (seq 0 (RANDSIZ / 8))).

Definition set_randcnt (ctx : fr_randctx) (n : Z) : fr_randctx :=
  MkRandctx n (randrsl ctx) (randmem ctx) (randa ctx) (randb ctx) (randc ctx).

Definition fr_isaac_init (ctx : fr_randctx) (flag : bool) : fr_randctx :=
  let m := init_memory (randrsl ctx) (randmem ctx) flag in
  set_randcnt (fr_isaac (MkRandctx (randcnt ctx) (randrsl ctx) m 0 0 0)) (Z.of_nat RANDSIZ).

(** The pool after [fr_rand_init]; [seed] is what was read into [randrsl], with
    zeroes where the reading stopped early. *)
Definition fr_rand_init (seed : list Z) : fr_randctx :=
  set_randcnt (fr_isaac_init (MkRandctx 0 seed (replicate RANDSIZ 0) 0 0 0) true) 0.

Definition fr_rand (ctx : fr_randctx) : Z * fr_randctx :=
  let num := word (randrsl ctx) (Z.to_nat (randcnt ctx)) in
  let cnt := u32 (randcnt ctx + 1) in
  if 256 <=? cnt then (num, fr_isaac (set_randcnt ctx 0)) else (num, set_randcnt ctx cnt).

(** [fr_hash_update] of hash.c: FNV-1 *)
Abbreviation FNV_MAGIC_PRIME := 0x01000193%Z (only parsing).
Definition fr_hash_update (data : bytes) (hash : Z) : Z :=
  foldl (fun hash c => Z.lxor (u32 (hash * FNV_MAGIC_PRIME)) c) hash data.

Definition fr_rand_mixin (ctx : fr_randctx) (data : bytes) : fr_randctx :=
  let '(hash, ctx) := fr_rand ctx in
  let '(hash, ctx) := if hash =? 0 then fr_rand ctx else (hash, ctx) in
  let hash := fr_hash_update data hash in
  let i := Z.to_nat (randcnt ctx) in
  MkRandctx (randcnt ctx) (randrsl ctx) (<[i := Z.lxor (word (randmem ctx) i) hash]> (randmem ctx))
    (randa ctx) (randb ctx) (randc ctx).

(** The bytes of a word in memory (little endian). *)
Definition word_bytes (x : Z) : bytes := [u8 x; u8 (Z.shiftr x 8); u8 (Z.shiftr x 16); u8 (Z.shiftr x 24)].

(** [memcpy(buffer + off, src, length src)]: [None] when it leaves the buffer. *)
Definition memcpy (buf : bytes) (off : nat) (src : bytes) : option bytes :=
  if (off + length src <=? length buf)%nat then Some (splice buf off src) else None.

(** The loop [for (i = 0; i < buflen; i += 4)], with [n] iterations left. *)
Fixpoint fill_words (n i : nat) (buf : bytes) (ctx : fr_randctx) : option (bytes * fr_randctx) :=
  match n with
  | O => Some (buf, ctx)
  | S n =>
      let '(x, ctx) := fr_rand ctx in
      match memcpy buf i (word_bytes x) with
      | None => None
      | Some buf => fill_words n (i + 4) buf ctx
      end
  end.

(** [fr_rand_buffer] on a buffer of exactly the given length; [None] when a write
    leaves it. *)
Definition fr_rand_buffer (buf : bytes) (ctx : fr_randctx) : option (bytes * fr_randctx) :=
  let length := length buf in
  let finish buf off buflen ctx :=
    if (buflen =? 0)%nat then Some (buf, ctx)
    else
      let '(x, ctx) := fr_rand ctx in
      match memcpy buf off (take buflen (word_bytes x)) with
      | None => None
      | Some buf => Some (buf, ctx)
      end in
  if (4 <? length)%nat then
    match fill_words ((length + 3) / 4) 0 buf ctx with
    | None => None
    | Some (buf, ctx) => finish buf (length - length mod 4)%nat (length mod 4)%nat ctx
    end
  else finish buf 0%nat length ctx.

(** ** Random strings *)

(** The three tables, as character codes. The salt table is the digits, the
    upper case letters, the lower case letters without n, and the two
    characters / and . *)
Definition randstr_punc : list Z := seqZ 33 15 ++ seqZ 58 7 ++ seqZ 91 6 ++ seqZ 123 4.
Definition randstr_salt : list Z := seqZ 48 10 ++ seqZ 65 26 ++ seqZ 97 13 ++ seqZ 111 12 ++ [47; 46].
Definition randstr_otp : list Z :=
  [52; 54; 57; 65; 67; 71; 72; 74; 75; 76; 77; 78; 80; 81; 82; 85; 86; 87; 88; 89; 97; 98;
   100; 102; 104; 105; 106; 107; 112; 114; 115; 116; 117; 118; 119; 120; 121; 122].

Inductive randstr_class := RandLower | RandUpper | RandDigit | RandAlnum | RandPunct | RandPrint | RandSalt | RandOtp | RandBinary.

(** The character [class] of the argument: c, C, n, a, !, ., s, o, and b or any
    other. *)
Definition class_of (c : Z) : randstr_class :=
  if c =? 99 then RandLower else if c =? 67 then RandUpper else if c =? 110 then RandDigit
  else if c =? 97 then RandAlnum else if c =? 33 then RandPunct else if c =? 46 then RandPrint
  else if c =? 115 then RandSalt else if c =? 111 then RandOtp else RandBinary.

(** The expression each class passes to [fill]; [sizeof] a table counts the
    terminating NUL. *)
Definition fill_expr (k : randstr_class) (byte : Z) : Z :=
  match k with
  | RandLower => 97 + byte mod 26
  | RandUpper => 65 + byte mod 26
  | RandDigit => 48 + byte mod 10
  | RandAlnum => nth (Z.to_nat (byte mod (Z.of_nat (S (length randstr_salt)) - 3))) randstr_salt 0
  | RandPunct => nth (Z.to_nat (byte mod (Z.of_nat (S (length randstr_punc)) - 1))) randstr_punc 0
  | RandPrint => 33 + byte mod 95
  | RandSalt => nth (Z.to_nat (byte mod (Z.of_nat (S (length randstr_salt)) - 1))) randstr_salt 0
  | RandOtp => nth (Z.to_nat (byte mod (Z.of_nat (S (length randstr_otp)) - 1))) randstr_otp 0
  | RandBinary => byte
  end.

(** [n] bytes are left and [i] are written; a new word is taken every four. *)
Fixpoint fill (expr : Z -> Z) (n i : nat) (w : Z) (ctx : fr_randctx) : bytes * fr_randctx :=
  match n with
  | O => ([], ctx)
  | S n =>
      let '(w, ctx) := if (i mod 4 =? 0)%nat then fr_rand ctx else (w, ctx) in
      let byte := nth (i mod 4)%nat (word_bytes w) 0 in
      let '(out, ctx) := fill expr n (S i) w ctx in
      (expr byte :: out, ctx)
  end.

Definition fr_rand_str (len : nat) (class : Z) (ctx : fr_randctx) : bytes * fr_randctx :=
  fill (fill_expr (class_of class)) len 0 0 ctx.

(** ** The fast generator *)

Record fr_fast_rand_t := MkFastRand { fa : Z; fb : Z }.

Definition fr_fast_rand (ctx : fr_fast_rand_t) : Z * fr_fast_rand_t :=
  let a := u32 (u32 (36969 * Z.land (fa ctx) 0xffff) + Z.shiftr (fa ctx) 16) in
  let b := u32 (u32 (18000 * Z.land (fb ctx) 0xffff) + Z.shiftr (fb ctx) 16) in
  (u32 (shl32 a 16 + b), MkFastRand a b).

(** ** The pool invariant *)

Definition wf_words (l : list Z) : Prop := length l = RANDSIZ /\ Forall is_u32 l.
Definition wf_state (ctx : fr_randctx) : Prop :=
  wf_words (randrsl ctx) /\ wf_words (randmem ctx)
  /\ is_u32 (randa ctx) /\ is_u32 (randb ctx) /\ is_u32 (randc ctx).
Definition wf_pool (ctx : fr_randctx) : Prop := 0 <= randcnt ctx < 256 /\ wf_state ctx.

Definition wf_regs (s : isaac_regs) : Prop := wf_words (rmm s) /\ wf_words (rr s) /\ is_u32 (ra s) /\ is_u32 (rb s).

Lemma wf_words_insert l i x : wf_words l -> is_u32 x -> wf_words (<[i := x]> l).
Proof. intros [Hl Hf] Hx. split; [by rewrite length_insert|by apply Forall_insert]. Qed.

Lemma word_range l i : Forall is_u32 l -> is_u32 (word l i).
Proof.
  intros H. unfold word. destruct (decide (i < length l)%nat) as [Hi|Hi].
  - rewrite Forall_forall in H. apply H, nth_In. done.
  - rewrite nth_overflow by lia. unfold is_u32. lia.
Qed.

Lemma rngstep_wf mx s : wf_regs s -> wf_regs (rngstep mx s).
Proof.
  intros (Hm & Hr & Ha & Hb). unfold rngstep, wf_regs; cbn.
  split_and!; auto using wf_words_insert, u32_range.
Qed.

Lemma iter_wf n s : wf_regs s -> wf_regs (Nat.iter n rngstep4 s).
Proof. intros. induction n; [done|]. cbn. unfold rngstep4. auto using rngstep_wf. Qed.

Lemma fr_isaac_wf ctx :
  wf_words (randrsl ctx) -> wf_words (randmem ctx) -> is_u32 (randa ctx) -> wf_state (fr_isaac ctx).
Proof.
  intros Hr Hm Ha. unfold fr_isaac. cbn zeta.
  set (s0 := MkRegs (randa ctx) _ _ _ _ _ _).
  assert (wf_regs s0) as H0 by exact (conj Hm (conj Hr (conj Ha (u32_range _)))).
  pose proof (iter_wf 32 s0 H0) as H1. set (s1 := Nat.iter 32 rngstep4 s0) in *. clearbody s1.
  set (s2 := MkRegs (ra s1) _ _ _ _ _ _).
  assert (wf_regs s2) as H2 by exact H1.
  pose proof (iter_wf 32 s2 H2) as (H3 & H4 & H5 & H6). set (s3 := Nat.iter 32 rngstep4 s2) in *. clearbody s3.
  exact (conj H4 (conj H3 (conj H5 (conj H6 (u32_range _))))).
Qed.

Definition wf8 (s : regs8) : Prop :=
  is_u32 (qa s) /\ is_u32 (qb s) /\ is_u32 (qc s) /\ is_u32 (qd s)
  /\ is_u32 (qe s) /\ is_u32 (qf s) /\ is_u32 (qg s) /\ is_u32 (qh s).

Lemma is_u32_lxor x y : is_u32 x -> is_u32 y -> is_u32 (Z.lxor x y).
Proof. apply (lxor_range 32); lia. Qed.
Lemma is_u32_shl x n : is_u32 (shl32 x n).
Proof. apply u32_range. Qed.
Lemma is_u32_add x y : is_u32 (add32 x y).
Proof. apply u32_range. Qed.
Lemma is_u32_shr x n : is_u32 x -> 0 <= n -> is_u32 (Z.shiftr x n).
Proof.
  unfold is_u32. intros Hx Hn. rewrite Z.shiftr_div_pow2 by lia. assert (0 < 2 ^ n) by (apply Z.pow_pos_nonneg; lia).
  split; [apply Z.div_pos; lia|]. apply Z.div_lt_upper_bound; nia.
Qed.

Lemma mix_wf s : wf8 s -> wf8 (mix s).
Proof.
  destruct s as [a b c d e f g h]. intros (Ha & Hb & Hc & Hd & He & Hf & Hg & Hh). cbn in *. unfold mix.
  assert (forall s, is_u32 (qa s) -> is_u32 (qb s) -> is_u32 (qc s) -> is_u32 (qd s) ->
                    is_u32 (qe s) -> is_u32 (qf s) -> is_u32 (qg s) -> is_u32 (qh s) -> wf8 s) as wf8_intro
    by (intros; repeat (split; [assumption|]); assumption).
  apply wf8_intro; cbn [qa qb qc qd qe qf qg qh];
    repeat first [assumption | apply is_u32_add | apply is_u32_shl | apply is_u32_lxor | apply is_u32_shr; [|lia]].
Qed.

Lemma iter_mix_wf n s : wf8 s -> wf8 (Nat.iter n mix s).
Proof. intros. induction n; [done|]. by apply mix_wf. Qed.

Lemma absorb8_wf s src i : wf8 (absorb8 s src i).
Proof. repeat (split; [apply is_u32_add|]); apply is_u32_add. Qed.

Lemma store8_wf m k s : wf_words m -> wf8 s -> (k < 32)%nat -> wf_words (store8 m (8 * k) s).
Proof.
  intros [Hl Hf] (Ha & Hb & Hc & Hd & He & Hf' & Hg & Hh) Hk. unfold store8, wf_words.
  rewrite length_splice by (cbn; unfold RANDSIZ in *; lia). split; [done|]. unfold splice.
  apply Forall_app; split; [by apply Forall_take|]. apply Forall_app; split; [|by apply Forall_drop].
  apply Forall_forall. intros x Hx. cbn in Hx. intuition (subst; assumption).
Qed.

(** Each of the three loops keeps the words well formed. *)
Lemma init_loop_wf (step : regs8 * list Z -> nat -> regs8 * list Z) :
  (forall sm k, wf8 (fst sm) -> wf_words (snd sm) -> (k < 32)%nat -> wf8 (fst (step sm k)) /\ wf_words (snd (step sm k))) ->
  forall sm, wf8 (fst sm) -> wf_words (snd sm) ->
  wf8 (fst (foldl step sm (seq 0 (RANDSIZ / 8)))) /\ wf_words (snd (foldl step sm (seq 0 (RANDSIZ / 8)))).
Proof.
  intros Hstep. assert (Forall (fun k => (k < 32)%nat) (seq 0 (RANDSIZ / 8))) as Hk.
  { apply Forall_forall. intros k. rewrite in_seq. change (RANDSIZ / 8)%nat with 32%nat. lia. }
  induction (seq 0 (RANDSIZ / 8)) as [|k ks IH]; intros sm H1 H2; [done|].
  apply Forall_cons_1 in Hk as [Hk Hks]. destruct (Hstep sm k) as [? ?]; auto. cbn. auto.
Qed.

Lemma init_memory_wf r m flag : wf_words r -> wf_words m -> wf_words (init_memory r m flag).
Proof.
  intros Hr Hm. unfold init_memory. cbn zeta.
  set (s := Nat.iter 4 mix _). assert (wf8 s) as Hs by (apply iter_mix_wf; split_and!; unfold is_u32; cbn; lia). clearbody s.
  destruct flag.
  - apply init_loop_wf.
    + intros sm k ? ? ?. unfold seed_step, second_step, messy_step. cbn zeta. cbn [fst snd]. split; [|apply store8_wf]; auto using mix_wf, absorb8_wf.
    + apply init_loop_wf; auto. intros sm k ? ? ?. unfold seed_step, second_step, messy_step. cbn zeta. cbn [fst snd]. split; [|apply store8_wf]; auto using mix_wf, absorb8_wf.
    + apply init_loop_wf; auto. intros sm k ? ? ?. unfold seed_step, second_step, messy_step. cbn zeta. cbn [fst snd]. split; [|apply store8_wf]; auto using mix_wf, absorb8_wf.
  - apply init_loop_wf; auto. intros sm k ? ? ?. unfold seed_step, second_step, messy_step. cbn zeta. cbn [fst snd]. split; [|apply store8_wf]; auto using mix_wf.
Qed.

Lemma fr_rand_init_wf seed : wf_words seed -> wf_pool (fr_rand_init seed).
Proof.
  intros Hs. split; [cbn; lia|]. unfold fr_rand_init, fr_isaac_init. cbn zeta.
  assert (wf_words (replicate RANDSIZ 0)) as Hz by (split; [apply length_replicate|apply Forall_replicate; unfold is_u32; lia]).
  apply (fr_isaac_wf (MkRandctx _ _ _ _ _ _)); [exact Hs|apply init_memory_wf; assumption|cbn; unfold is_u32; lia].
Qed.

Lemma fr_rand_wf ctx : wf_pool ctx -> is_u32 (fst (fr_rand ctx)) /\ wf_pool (snd (fr_rand ctx)).
Proof.
  intros (Hc & Hr & Hm & Ha & Hb & Hk). unfold fr_rand. rewrite u32_id by (unfold is_u32; lia).
  case_if; cbn [fst snd]; (split; [apply word_range, Hr|]).
  - split; [cbn; lia|]. apply fr_isaac_wf; assumption.
  - split; [cbn; lia|]. exact (conj Hr (conj Hm (conj Ha (conj Hb Hk)))).
Qed.

Lemma is_u32_hash data hash : is_u32 hash -> is_bytes data -> is_u32 (fr_hash_update data hash).
Proof.
  intros Hh Hd. revert hash Hh. induction Hd as [|c data Hc Hd IH]; intros hash Hh; [done|].
  cbn. apply IH, is_u32_lxor; [apply u32_range|unfold is_u8, is_u32 in *; lia].
Qed.

Lemma fr_rand_mixin_wf ctx data : wf_pool ctx -> is_bytes data -> wf_pool (fr_rand_mixin ctx data).
Proof.
  intros H Hd. unfold fr_rand_mixin. pose proof (fr_rand_wf ctx H) as [H1 H2].
  destruct (fr_rand ctx) as [w c]. cbn [fst snd] in *.
  assert (forall w c, is_u32 w -> wf_pool c ->
    wf_pool (MkRandctx (randcnt c) (randrsl c)
       (<[Z.to_nat (randcnt c) := Z.lxor (word (randmem c) (Z.to_nat (randcnt c))) (fr_hash_update data w)]> (randmem c))
       (randa c) (randb c) (randc c))) as Q.
  { intros w' c' Hw (Hc & Hr & Hm & Ha & Hb & Hk). split; [exact Hc|].
    split; [exact Hr|]. split; [|exact (conj Ha (conj Hb Hk))]. apply wf_words_insert; [exact Hm|].
    apply is_u32_lxor; [apply word_range, Hm|by apply is_u32_hash]. }
  destruct (w =? 0); [|by apply Q]. pose proof (fr_rand_wf c H2) as [H3 H4].
  destruct (fr_rand c) as [w' c']. by apply Q.
Qed.

(** The values of successive calls of [fr_rand]. *)
Definition rand_stream (ctx : fr_randctx) (n : nat) : Z := fst (fr_rand (Nat.iter n (fun c => snd (fr_rand c)) ctx)).

Lemma rand_stream_range ctx n : wf_pool ctx -> is_u32 (rand_stream ctx n).
Proof.
  intros H. apply fr_rand_wf. induction n as [|n IH]; [done|]. by apply fr_rand_wf.
Qed.

Lemma word_bytes_range x : is_bytes (word_bytes x).
Proof. repeat (apply Forall_cons_2; [apply u8_range|]). constructor. Qed.

Lemma fill_length expr n i w ctx : length (fst (fill expr n i w ctx)) = n.
Proof.
  revert i w ctx. induction n as [|n IH]; intros i w ctx; [done|]. cbn [fill].
  destruct (if (i mod 4 =? 0)%nat then fr_rand ctx else (w, ctx)) as [w' c'].
  specialize (IH (S i) w' c'). destruct (fill expr n (S i) w' c'). cbn in *. lia.
Qed.

Lemma fill_Forall expr (P : Z -> Prop) n i w ctx :
  (forall b, is_u8 b -> P (expr b)) -> Forall P (fst (fill expr n i w ctx)).
Proof.
  intros HP. revert i w ctx. induction n as [|n IH]; intros i w ctx; [constructor|]. cbn [fill].
  destruct (if (i mod 4 =? 0)%nat then fr_rand ctx else (w, ctx)) as [w' c'].
  specialize (IH (S i) w' c'). destruct (fill expr n (S i) w' c'). cbn [fst] in *. constructor; [|done].
  apply HP. pose proof (word_bytes_range w') as Hb. unfold is_bytes in Hb. rewrite Forall_forall in Hb.
  apply Hb, nth_In. cbn. pose proof (Nat.mod_upper_bound i 4). lia.
Qed.

(** A decidable property of bytes, by checking all of them. *)
Lemma u8_forall (P : Z -> Prop) `{forall b, Decision (P b)} :
  forallb (fun b => bool_decide (P b)) (seqZ 0 256) = true -> forall b, is_u8 b -> P b.
Proof.
  intros Hall b Hb. rewrite forallb_forall in Hall. eapply bool_decide_eq_true_1, Hall.
  apply list_elem_of_In, elem_of_seqZ. unfold is_u8 in Hb. lia.
Qed.

(** ** Filling a buffer *)

(** The loop stays in the buffer when it is made of whole words, and leaves it
    otherwise. *)
Lemma fill_words_spec n i buf ctx :
  wf_pool ctx -> (i <= length buf)%nat ->
  match fill_words n i buf ctx with
  | Some (buf', ctx') => (i + 4 * n <= length buf)%nat /\ length buf' = length buf /\ wf_pool ctx'
  | None => (length buf < i + 4 * n)%nat
  end.
Proof.
  revert i buf ctx. induction n as [|n IH]; intros i buf ctx H Hi; cbn [fill_words]; [split_and!; auto; lia|].
  pose proof (fr_rand_wf ctx H) as [_ H2]. destruct (fr_rand ctx) as [x c]. cbn [snd] in H2.
  unfold memcpy. change (length (word_bytes x)) with 4%nat. case_if; [|lia].
  assert (length (splice buf i (word_bytes x)) = length buf) as E by (rewrite length_splice; [done|cbn; lia]).
  specialize (IH (i + 4)%nat (splice buf i (word_bytes x)) c H2 ltac:(rewrite E; lia)). rewrite E in IH.
  destruct (fill_words n _ _ _) as [[? ?]|]; [destruct IH as (? & ? & ?); split_and!; auto; lia|lia].
Qed.

(** ** Properties *)



(** A random string has the length asked for and only characters of its
    class: lower case, upper case, digits, punctuation and one-time password
    characters as documented; the alphanumeric and salt classes never contain
    the letter n; and the printable class ranges over the 95 codes from the
    exclamation mark to DEL, which is not printable. *)
Theorem fr_rand_str_class (len : nat) (class : Z) (ctx : fr_randctx) :
  let out := fst (fr_rand_str len class ctx) in
  length out = len
  /\ (class_of class = RandLower -> Forall (fun c => 97 <= c <= 122) out)
  /\ (class_of class = RandUpper -> Forall (fun c => 65 <= c <= 90) out)
  /\ (class_of class = RandDigit -> Forall (fun c => 48 <= c <= 57) out)
  /\ (class_of class = RandPunct -> Forall (fun c => c ∈ randstr_punc) out)
  /\ (class_of class = RandOtp -> Forall (fun c => c ∈ randstr_otp) out)
  /\ (class_of class = RandAlnum -> Forall (fun c => 48 <= c <= 57 \/ 65 <= c <= 90 \/ 97 <= c <= 122 /\ c <> 110) out)
  /\ (class_of class = RandSalt -> Forall (fun c => c ∈ randstr_salt /\ c <> 110) out)
  /\ (class_of class = RandPrint -> Forall (fun c => 33 <= c <= 127) out)
  /\ fill_expr RandPrint 94 = 127.
Proof.
  intros out. unfold out, fr_rand_str. split; [apply fill_length|].
  split_and!; try reflexivity; intros ->;
    match goal with
    | |- Forall ?P (fst (fill ?e _ _ _ _)) =>
        let Q := eval cbv beta in (fun b => P (e b)) in apply fill_Forall; apply (u8_forall Q)
    end; vm_compute; reflexivity.
Qed.

(** Filling a buffer stays within it only when it has at most four bytes or a
    whole number of words. For every other length the last word is written past
    the end, so [fr_rand_buffer] overruns a buffer of more than four bytes whose
    length is not a multiple of four by one to three bytes. *)
Theorem fr_rand_buffer_overrun (buf : bytes) (ctx : fr_randctx) :
  wf_pool ctx ->
  match fr_rand_buffer buf ctx with
  | Some (buf', ctx') => (length buf <= 4 \/ length buf mod 4 = 0)%nat /\ length buf' = length buf /\ wf_pool ctx'
  | None => (4 < length buf /\ length buf mod 4 <> 0)%nat
  end.
Proof.
  intros H. unfold fr_rand_buffer. pose proof (Nat.div_mod_eq (length buf) 4) as E.
  pose proof (Nat.mod_upper_bound (length buf) 4 ltac:(lia)) as B.
  case_if.
  - pose proof (fill_words_spec ((length buf + 3) / 4) 0 buf ctx H ltac:(lia)) as F.
    pose proof (Nat.div_mod_eq (length buf + 3) 4) as E2. pose proof (Nat.mod_upper_bound (length buf + 3) 4 ltac:(lia)).
    destruct (fill_words _ _ _ _) as [[b c]|]; [|lia]. destruct F as (F1 & F2 & F3).
    assert (length buf mod 4 = 0)%nat as -> by lia. cbn [Nat.eqb]. split_and!; auto; apply F3.
  - case_if; [split; [lia|split; [done|exact H]]|]. pose proof (fr_rand_wf ctx H) as [_ H2].
    destruct (fr_rand ctx) as [x c]. unfold memcpy. rewrite length_take. change (length (word_bytes x)) with 4%nat.
    rewrite Nat.min_l by lia. destruct (Nat.leb_spec (0 + length buf) (length buf)); [|lia].
    split; [lia|]. split; [|exact H2]. rewrite length_splice; [done|]. rewrite length_take. cbn. lia.
Qed.

Lemma fr_rand_buffer_overrun_witness : fr_rand_buffer [0; 0; 0; 0; 0; 0] (MkRandctx 0 (replicate 256 0) (replicate 256 0) 0 0 0) = None.
Proof.
  assert (wf_words (replicate 256 0)) as Hz by (split; [apply length_replicate|apply Forall_replicate; unfold is_u32; lia]).
  pose proof (fr_rand_buffer_overrun [0; 0; 0; 0; 0; 0] (MkRandctx 0 (replicate 256 0) (replicate 256 0) 0 0 0)) as P.
  destruct (fr_rand_buffer _ _) as [[b c]|]; [|reflexivity]. exfalso.
  destruct P as ([P|P] & _); [|cbn in P; lia|discriminate].
  split; [cbn; lia|]. split; [exact Hz|]. split; [exact Hz|]. cbn. unfold is_u32. lia.
Defined.
End Rand.
