(* ===== verification/Lst.v ===== *)
(** The priority queue of src/lib/util/lst.c, a leftmost skeleton tree: an array
    used as a ring, divided into buckets by pivots whose indexes are on a stack.
    An element stores its index plus one in a field of its own, 0 when it is in no
    tree; [index] is that field of every object. Reading memory that was not
    written, or outside an array, has the result [None]. *)

From stdpp Require Import functions.
From S2P Require Import Prelude Rand.

Module Lst.
Import Rand.

(** An object that the tree points to. *)
Abbreviation ptr := nat.

Inductive cell := Uninit | Ptr (d : ptr).

(** [s_data] is the memory of the stack, [s_depth] the part of it in use. *)
Record fr_lst_t := MkLst {
  capacity : Z;
  idx : Z;
  num_elements : Z;
  p : list cell;
  s_depth : nat;
  s_data : list (option Z);
  rand_ctx : fr_fast_rand_t;
  index : ptr -> Z
}.
#[export] Instance eta_lst : Eta fr_lst_t := fun l =>
  MkLst (capacity l) (idx l) (num_elements l) (p l) (s_depth l) (s_data l) (rand_ctx l) (index l).

(** ** Items and the stack *)

Definition item_index (d : ptr) (l : fr_lst_t) : Z := u32 (index l d - 1).
Definition item_index_set (d : ptr) (i : Z) (l : fr_lst_t) : fr_lst_t := l <| index := <[d := u32 (i + 1)]> (index l) |>.

Definition index_reduce (l : fr_lst_t) (i : Z) : Z := i &z u32 (capacity l - 1).
Definition is_equivalent (l : fr_lst_t) (i j : Z) : bool := index_reduce l (u32 (i - j)) =? 0.

Definition item (l : fr_lst_t) (i : Z) : option ptr :=
  match p l !! Z.to_nat (index_reduce l i) with
  | Some (Ptr d) => Some d
  | _ => None
  end.

Definition stack_item (l : fr_lst_t) (i : nat) : option Z := x ← s_data l !! i; x.
Definition stack_set (i : nat) (v : Z) (l : fr_lst_t) : fr_lst_t := l <| s_data := <[i := Some v]> (s_data l) |>.

(** The length of the subtree is 1. *)
Definition is_bucket (l : fr_lst_t) (i : nat) : bool := (s_depth l =? S i)%nat.

(** Whether there was room; [mem] is whether the stack can be enlarged. *)
Definition stack_push (mem : bool) (v : Z) (l : fr_lst_t) : bool * fr_lst_t :=
  if (s_depth l =? length (s_data l))%nat && negb mem then (false, l)
  else
    let l := if (s_depth l =? length (s_data l))%nat then l <| s_data := s_data l ++ replicate (length (s_data l)) None |> else l in
    (true, stack_set (s_depth l) v l <| s_depth := S (s_depth l) |>).

(** ** Creation *)

Definition fr_high_bit_pos (n : Z) : Z := if n =? 0 then 0 else Z.log2 n + 1.

Fixpoint initial_stack_capacity (fuel : nat) (k init : Z) : Z :=
  match fuel with
  | O => k
  | S fuel => if Z.shiftl 1 k <? init then initial_stack_capacity fuel (k + 1) init else k
  end.

(** [ix] are the fields of the objects, [a] and [b] random numbers; [mem] is
    whether there is memory. *)
Definition fr_lst_alloc (mem : bool) (init a b : Z) (ix : ptr -> Z) : option fr_lst_t :=
  let init := if init =? 0 then 2048
              else if init &z (init - 1) =? 0 then init
              else Z.shiftl 1 (fr_high_bit_pos init) in
  if negb mem then None
  else
    let l := MkLst init 0 0 (replicate (Z.to_nat init) Uninit) 0 (replicate (Z.to_nat (initial_stack_capacity 32 1 init)) None) (MkFastRand a b) ix in
    Some (snd (stack_push true 0 l)).

(** ** Subtrees *)

(** The number of elements of the subtree at stack index [i]. *)
Definition lst_size (i : nat) (l : fr_lst_t) : option Z :=
  if (i =? 0)%nat then Some (num_elements l)
  else
    r ← stack_item l i;
    let right := index_reduce l r in
    let left := index_reduce l (idx l) in
    Some (if left <=? right then right - left else u32 (u32 (capacity l - left) + right)).

Definition lst_flatten (i : nat) (l : fr_lst_t) : fr_lst_t := l <| s_depth := i |>.

Definition lst_move (location : Z) (d : ptr) (l : fr_lst_t) : option fr_lst_t :=
  let i := index_reduce l location in
  if (Z.to_nat i <? length (p l))%nat
  then Some (item_index_set d i (l <| p := <[Z.to_nat i := Ptr d]> (p l) |>))
  else None.

(** [n] buckets to the right are left to be moved, from [ridx] on. *)
Fixpoint bucket_add_loop (n ridx : nat) (l : fr_lst_t) : option fr_lst_t :=
  match n with
  | O => Some l
  | S n =>
      prev ← stack_item l (S ridx);
      new_space ← stack_item l ridx;
      let empty_bucket := u32 (new_space - prev) =? 1 in
      let l := stack_set ridx (u32 (new_space + 1)) l in
      l ← (if empty_bucket then Some l else d ← item l (u32 (prev + 1)); lst_move new_space d l);
      d ← item l prev;
      l ← lst_move (u32 (prev + 1)) d l;
      bucket_add_loop n (S ridx) l
  end.

Definition bucket_add (i : nat) (d : ptr) (l : fr_lst_t) : option fr_lst_t :=
  l ← bucket_add_loop i 0 l;
  new_space ← stack_item l i;
  l ← lst_move new_space d (stack_set i (u32 (new_space + 1)) l);
  Some (l <| num_elements := u32 (num_elements l + 1) |>).

Definition lst_indices_reduce (l : fr_lst_t) : fr_lst_t :=
  let r := index_reduce l (idx l) in
  l <| s_data := imap (fun i v => if (i <? s_depth l)%nat then (fun v => u32 (r + v - idx l)) <$> v else v) (s_data l) |> <| idx := r |>.

(** The items before [idx], from [i] on, move behind the old array. *)
Fixpoint expand_loop (n : nat) (i old_capacity : Z) (l : fr_lst_t) : option fr_lst_t :=
  match n with
  | O => Some l
  | S n =>
      d ← item l i;
      l ← lst_move (u32 (item_index d l + old_capacity)) d l;
      expand_loop n (i + 1) old_capacity l
  end.

(** [None] inside when there is no memory. *)
Definition lst_expand (mem : bool) (l : fr_lst_t) : option (option fr_lst_t) :=
  let old := capacity l in
  if (4294967295 - old <? old) && (old =? 4294967295) then Some None
  else
    let n := if 4294967295 - old <? old then 4294967295 else old * 2 in
    if negb mem then Some None
    else
      let l := l <| p := p l ++ replicate (Z.to_nat (n - old)) Uninit |> <| capacity := n |> in
      let l := lst_indices_reduce l in
      l ← expand_loop (Z.to_nat (idx l)) 0 old l;
      Some (Some l).

Definition bucket_lwb (i : nat) (l : fr_lst_t) : option Z :=
  if is_bucket l i then Some (idx l) else v ← stack_item l (S i); Some (u32 (v + 1)).
Definition bucket_upb (i : nat) (l : fr_lst_t) : option Z := v ← stack_item l i; Some (u32 (v - 1)).

(** ** Operations *)

Section WithCmp.
Variable cmp : ptr -> ptr -> Z.

Fixpoint scan_down (fuel : nat) (h : Z) (pivot : ptr) (l : fr_lst_t) : option Z :=
  match fuel with
  | O => None
  | S fuel =>
      let h := u32 (h - 1) in
      d ← item l h;
      if 0 <? cmp d pivot then scan_down fuel h pivot l else Some h
  end.

Fixpoint scan_up (fuel : nat) (lo : Z) (pivot : ptr) (l : fr_lst_t) : option Z :=
  match fuel with
  | O => None
  | S fuel =>
      let lo := u32 (lo + 1) in
      d ← item l lo;
      if cmp d pivot <? 0 then scan_up fuel lo pivot l else Some lo
  end.

(** The outer loop of the partition, with the last value of [h]. *)
Fixpoint hoare_loop (fuel : nat) (lo h : Z) (pivot : ptr) (l : fr_lst_t) : option (Z * fr_lst_t) :=
  match fuel with
  | O => None
  | S fuel =>
      h ← scan_down (S (Z.to_nat (num_elements l))) h pivot l;
      lo ← scan_up (S (Z.to_nat (num_elements l))) lo pivot l;
      if h <=? lo then Some (h, l)
      else
        temp ← item l lo;
        d ← item l h;
        l ← lst_move lo d l;
        l ← lst_move h temp l;
        hoare_loop fuel lo h pivot l
  end.

(** Put [pivot], which is at [i], at [h]. *)
Definition place_pivot (i h : Z) (pivot : ptr) (l : fr_lst_t) : option fr_lst_t :=
  d ← item l h;
  l ← lst_move i d l;
  lst_move h pivot l.

(** From the loop on; the result has the index of the pivot. *)
Definition divide (low high : Z) (pivot : ptr) (l : fr_lst_t) : option (Z * fr_lst_t) :=
  '(h, l) ← hoare_loop (S (Z.to_nat (num_elements l))) (u32 (low - 1)) (u32 (high + 1)) pivot l;
  let pi := item_index pivot l in
  let pi := if index_reduce l low <=? pi then u32 (low + pi - index_reduce l low)
            else u32 (high - (index_reduce l high - pi)) in
  l ← (if pi <? h then place_pivot pi h pivot l else Some l);
  if h <? pi then l ← place_pivot pi (u32 (h + 1)) pivot l; Some (u32 (h + 1), l) else Some (h, l).

Definition partition (mem : bool) (i : nat) (l : fr_lst_t) : option fr_lst_t :=
  low ← bucket_lwb i l;
  high ← bucket_upb i l;
  if is_equivalent l low high then Some (snd (stack_push mem low l))
  else
    let '(r, ctx) := fr_fast_rand (rand_ctx l) in
    let l := l <| rand_ctx := ctx |> in
    let pivot_index := u32 (low + r mod u32 (high + 1 - low)) in
    pivot ← item l pivot_index;
    l ← (if pivot_index =? low then Some l
         else d ← item l low; l ← lst_move pivot_index d l; lst_move low pivot l);
    '(h, l) ← divide low high pivot l;
    Some (snd (stack_push mem h l)).

(** The gap at [location] in bucket [i] moves to the right end. *)
Fixpoint bucket_delete_loop (i : nat) (location : Z) (l : fr_lst_t) : option fr_lst_t :=
  top ← bucket_upb i l;
  l ← (if is_equivalent l location top then Some l else d ← item l top; lst_move location d l);
  let l := stack_set i top l in
  match i with
  | O => Some l
  | S i =>
      d ← item l (u32 (top + 1));
      l ← lst_move top d l;
      bucket_delete_loop i (u32 (top + 1)) l
  end.

Definition bucket_delete (i : nat) (d : ptr) (l : fr_lst_t) : option fr_lst_t :=
  let location := item_index d l in
  l ← (if is_equivalent l location (idx l) then
         let l := l <| idx := u32 (idx l + 1) |> in
         Some (if is_equivalent l (idx l) 0 then lst_indices_reduce l else l)
       else bucket_delete_loop i location l);
  Some (item_index_set d (-1) (l <| num_elements := u32 (num_elements l - 1) |>)).

(** The recursive functions have the number of elements as fuel. *)
Fixpoint lst_pop (fuel : nat) (mem : bool) (i : nat) (l : fr_lst_t) : option (ptr * fr_lst_t) :=
  match fuel with
  | O => None
  | S fuel =>
      l ← (if is_bucket l i then partition mem i l else Some l);
      let i := S i in
      n ← lst_size i l;
      if n =? 0 then
        v ← stack_item l i;
        d ← item l v;
        l ← bucket_delete i d (lst_flatten i l);
        Some (d, l)
      else lst_pop fuel mem i l
  end.

Fixpoint lst_peek (fuel : nat) (mem : bool) (i : nat) (l : fr_lst_t) : option (ptr * fr_lst_t) :=
  match fuel with
  | O => None
  | S fuel =>
      l ← (if is_bucket l i then partition mem i l else Some l);
      let i := S i in
      n ← lst_size i l;
      if n =? 0 then
        v ← stack_item l i;
        d ← item l v;
        Some (d, l)
      else lst_peek fuel mem i l
  end.

Fixpoint lst_extract (fuel : nat) (i : nat) (d : ptr) (l : fr_lst_t) : option fr_lst_t :=
  match fuel with
  | O => None
  | S fuel =>
      if is_bucket l i then bucket_delete i d l
      else
        v ← stack_item l (S i);
        pivot ← item l v;
        let c := cmp d pivot in
        if c <? 0 then lst_extract fuel (S i) d l
        else if 0 <? c then bucket_delete i d l
        else bucket_delete (S i) d (lst_flatten (S i) l)
  end.

Fixpoint lst_insert (fuel : nat) (i : nat) (d : ptr) (l : fr_lst_t) : option fr_lst_t :=
  match fuel with
  | O => None
  | S fuel =>
      if is_bucket l i then bucket_add i d l
      else
        let '(r, ctx) := fr_fast_rand (rand_ctx l) in
        let l := l <| rand_ctx := ctx |> in
        n ← lst_size (S i) l;
        if negb (r mod u32 (n + 1) =? 0) then
          v ← stack_item l (S i);
          pivot ← item l v;
          if cmp d pivot <? 0 then lst_insert fuel (S i) d l else bucket_add i d l
        else bucket_add (S i) d (lst_flatten (S i) l)
  end.

Definition fr_lst_pop (mem : bool) (l : fr_lst_t) : option (option ptr * fr_lst_t) :=
  if num_elements l =? 0 then Some (None, l)
  else '(d, l) ← lst_pop (S (Z.to_nat (num_elements l))) mem 0 l; Some (Some d, l).

Definition fr_lst_peek (mem : bool) (l : fr_lst_t) : option (option ptr * fr_lst_t) :=
  if num_elements l =? 0 then Some (None, l)
  else '(d, l) ← lst_peek (S (Z.to_nat (num_elements l))) mem 0 l; Some (Some d, l).

Definition fr_lst_extract (d : ptr) (l : fr_lst_t) : option (Z * fr_lst_t) :=
  if num_elements l =? 0 then Some (-1, l)
  else if index l d =? 0 then Some (-1, l)
  else l ← lst_extract (S (s_depth l)) 0 d l; Some (0, l).

Definition fr_lst_insert (mem : bool) (d : ptr) (l : fr_lst_t) : option (Z * fr_lst_t) :=
  r ← (if num_elements l =? capacity l then lst_expand mem l else Some (Some l));
  match r with
  | None => Some (-1, l)
  | Some l => if 0 <? index l d then Some (-1, l) else l ← lst_insert (S (s_depth l)) 0 d l; Some (0, l)
  end.
End WithCmp.

Definition fr_lst_iter_init (l : fr_lst_t) : option (option (ptr * Z)) :=
  if num_elements l =? 0 then Some None else d ← item l (idx l); Some (Some (d, idx l)).

Definition fr_lst_iter_next (iter : Z) (l : fr_lst_t) : option (option (ptr * Z)) :=
  v ← stack_item l 0;
  if v <=? u32 (iter + 1) then Some None
  else d ← item l (u32 (iter + 1)); Some (Some (d, u32 (iter + 1))).
End Lst.
