(* ===== verification/LstView.v ===== *)
(** The elements of a tree (Lst) from left to right as a list of places, some of
    them empty, and the offsets of the pivots in it. Moving an element to an empty
    place keeps the order around the pivots. *)

From stdpp Require Import functions.
From S2P Require Import Prelude Lst.

Module LstView.
Import Lst.

(** ** Places *)

Abbreviation places := (list (option ptr)).

Definition here (f : places) (j : nat) (d : ptr) : Prop := f !! j = Some (Some d).
Definition within (f : places) (d : ptr) : Prop := exists j, here f j d.

(** No element is in two places. *)
Definition single (f : places) : Prop := forall i j d, here f i d -> here f j d -> i = j.

(** The only empty place is [h]. *)
Definition holed (f : places) (h : nat) : Prop := (h < length f)%nat /\ forall j, (j < length f)%nat -> f !! j = Some None <-> j = h.
Definition full (f : places) : Prop := forall j, (j < length f)%nat -> exists d, here f j d.

(** [d] leaves its place for [h]. *)
Definition put (h : nat) (d : ptr) (f : places) : places := <[h := Some d]> ((fun o => if decide (o = Some d) then None else o) <$> f).

Lemma here_lt f j d : here f j d -> (j < length f)%nat.
Proof. apply lookup_lt_Some. Qed.

(** An empty place at the right end. *)
Lemma here_snoc f j d : here (f ++ [None]) j d <-> here f j d.
Proof.
  unfold here. destruct (decide (j < length f)%nat); [by rewrite lookup_app_l|]. rewrite lookup_app_r by lia.
  rewrite (lookup_ge_None_2 f) by lia. destruct (j - length f)%nat as [|[]]; done.
Qed.

Lemma within_snoc f d : within (f ++ [None]) d <-> within f d.
Proof. unfold within. by setoid_rewrite here_snoc. Qed.

(** An emptied place. *)
Lemma here_hole f h j d : (h < length f)%nat -> here (<[h := None]> f) j d <-> here f j d /\ j <> h.
Proof.
  intros Hh. unfold here. destruct (decide (j = h)) as [-> |Hj]; [rewrite list_lookup_insert_eq by done|rewrite list_lookup_insert_ne by done]; naive_solver.
Qed.

Lemma within_hole f h d e : single f -> here f h d -> within (<[h := None]> f) e <-> within f e /\ e <> d.
Proof.
  intros Hs Hh. unfold within. setoid_rewrite here_hole; [|by eapply here_lt]. split.
  - intros (j & Hj & Hne). split; [by exists j|]. intros ->. apply Hne. by apply (Hs j h d).
  - intros [[j Hj] Hne]. exists j. split; [done|]. intros ->. unfold here in *. congruence.
Qed.

#[export] Instance within_dec f d : Decision (within f d).
Proof. refine (cast_if (decide (Some d ∈ f))); unfold within, here; by rewrite <- list_elem_of_lookup. Defined.

Lemma put_length h d f : length (put h d f) = length f.
Proof. unfold put. by rewrite length_insert, length_fmap. Qed.

Lemma put_here h d f : (h < length f)%nat -> here (put h d f) h d.
Proof. intros H. unfold here, put. apply list_lookup_insert_eq. by rewrite length_fmap. Qed.

Lemma put_ne h d f j : j <> h -> put h d f !! j = (fun o => if decide (o = Some d) then None else o) <$> f !! j.
Proof. intros H. unfold put. rewrite list_lookup_insert_ne by done. apply list_lookup_fmap. Qed.

Lemma put_other h d f j e : j <> h -> here (put h d f) j e <-> here f j e /\ e <> d.
Proof.
  intros H. unfold here. rewrite put_ne by done. destruct (f !! j) as [o|]; cbn; [|naive_solver].
  case_decide; split; intros; destruct_and?; simplify_eq; try done; naive_solver.
Qed.

Lemma put_single h d f : single f -> single (put h d f).
Proof.
  intros H i j e Hi Hj. destruct (decide (i = h)) as [-> |Hih], (decide (j = h)) as [-> |Hjh]; [done| | |].
  - rewrite put_other in Hj by done. pose proof (put_here h d f ltac:(rewrite <- (put_length h d f); exact (here_lt _ _ _ Hi))) as Hh.
    unfold here in *. rewrite Hh in Hi. injection Hi as <-. by destruct Hj.
  - rewrite put_other in Hi by done. pose proof (put_here h d f ltac:(rewrite <- (put_length h d f); exact (here_lt _ _ _ Hj))) as Hh.
    unfold here in *. rewrite Hh in Hj. injection Hj as <-. by destruct Hi.
  - rewrite put_other in Hi, Hj by done. by apply (H i j e (proj1 Hi) (proj1 Hj)).
Qed.

(** Moving from [a] to the empty place [h]. *)
Lemma put_holed f a h d : single f -> here f a d -> holed f h -> holed (put h d f) a.
Proof.
  intros Hs Ha [Hl Hh]. split; [rewrite put_length; by apply here_lt in Ha|]. intros j Hj. rewrite put_length in Hj.
  assert (a <> h) as Hah by (intros ->; apply Hh in Hl as Hn; unfold here in Ha; rewrite (proj2 Hn eq_refl) in Ha; done).
  destruct (decide (j = h)) as [-> |Hne].
  - rewrite (put_here h d f Hl). naive_solver.
  - rewrite put_ne by done. destruct (f !! j) as [o|] eqn:E; [|apply lookup_ge_None in E; lia]. cbn. case_decide as Ho.
    + subst o. split; [|done]. intros _. by apply (Hs j a d).
    + split; [intros [= ->]; exfalso; by apply Hne, Hh|]. intros ->. unfold here in Ha. congruence.
Qed.

Lemma put_within f h d e : holed f h -> within (put h d f) e <-> e = d \/ within f e.
Proof.
  intros [Hl Hh]. split.
  - intros [j Hj]. destruct (decide (j = h)) as [-> |Hne].
    + left. pose proof (put_here h d f Hl) as H. unfold here in *. congruence.
    + right. exists j. by apply (put_other h d f j e).
  - intros [-> |[j Hj]]; [exists h; by apply put_here|]. destruct (decide (e = d)) as [-> |Hed]; [exists h; by apply put_here|].
    exists j. apply put_other; [|done]. intros ->. unfold here in Hj. rewrite (proj2 (Hh h Hl) eq_refl) in Hj. done.
Qed.

(** A new element fills the empty place. *)
Lemma put_full f h d : holed f h -> ~ within f d -> full (put h d f).
Proof.
  intros [Hl Hh] Hd j Hj. rewrite put_length in Hj. destruct (decide (j = h)) as [-> |Hne]; [exists d; by apply put_here|].
  destruct (f !! j) as [[e|]|] eqn:E; [|by apply Hh in E|apply lookup_ge_None in E; lia].
  exists e. apply put_other; [done|]. split; [done|]. intros ->. apply Hd. by exists j.
Qed.

Lemma full_hole f h : full f -> (h < length f)%nat -> holed (<[h := None]> f) h.
Proof.
  intros Hf Hh. split; [by rewrite length_insert|]. intros j Hj. rewrite length_insert in Hj. destruct (decide (j = h)) as [-> |Hne].
  - by rewrite list_lookup_insert_eq.
  - rewrite list_lookup_insert_ne by done. destruct (Hf j Hj) as [d Hd]. unfold here in Hd. naive_solver.
Qed.

Lemma holed_here f h j : holed f h -> (j < length f)%nat -> j <> h -> exists d, here f j d.
Proof.
  intros [_ Hh] Hj Hne. destruct (f !! j) as [[d|]|] eqn:E; [by exists d|by apply Hh in E|apply lookup_ge_None in E; lia].
Qed.

(** ** Order *)

(** What the tree relies on of the function that compares elements. *)
Class LstOrder (cmp : ptr -> ptr -> Z) : Prop := {
  cmp_anti a b : Z.sgn (cmp b a) = - Z.sgn (cmp a b);
  cmp_le_trans a b c : cmp a b <= 0 -> cmp b c <= 0 -> cmp a c <= 0
}.

Lemma cmp_self `{!LstOrder cmp} a : cmp a a = 0.
Proof. pose proof (cmp_anti a a). lia. Qed.
Lemma cmp_swap `{!LstOrder cmp} a b : 0 <= cmp a b <-> cmp b a <= 0.
Proof. pose proof (cmp_anti a b). lia. Qed.

Section Order.
Variable cmp : ptr -> ptr -> Z.

(** The pivots at stack indexes below [D] are where [R] says, with what is not
    after them on their left and what is not before them on their right. *)
Definition ord (D : nat) (f : places) (R : list nat) : Prop :=
  forall i, (1 <= i < D)%nat -> exists o pv, R !! i = Some o /\ here f o pv
    /\ forall j d, here f j d -> ((j < o)%nat -> cmp d pv <= 0) /\ ((o < j)%nat -> cmp pv d <= 0).

(** The element at a stack index. *)
Definition piv (f : places) (R : list nat) (i : nat) : option ptr := o ← R !! i; d ← f !! o; d.

Lemma ord_move D f R R' a h d : single f -> ord D f R -> here f a d -> holed f h ->
  (forall i o, (1 <= i < D)%nat -> R !! i = Some o -> o <> a -> R' !! i = Some o /\ (a < o <-> h < o)%nat) ->
  (forall i, (1 <= i < D)%nat -> R !! i = Some a -> R' !! i = Some h /\ forall j e, here f j e -> j <> a -> (j < a <-> j < h)%nat) ->
  ord D (put h d f) R' /\ forall i, (1 <= i < D)%nat -> piv (put h d f) R' i = piv f R i.
Proof.
  intros Hs Ho Ha Hh Hne Heq. assert (a <> h) as Hah by (intros ->; destruct Hh as [Hl Hh]; unfold here in Ha; rewrite (proj2 (Hh h Hl) eq_refl) in Ha; done).
  pose proof (put_here h d f (proj1 Hh)) as Hput.
  assert (forall o pv, here f o pv -> o <> a -> o <> h) as Hoh.
  { intros o pv Hpv _ ->. destruct Hh as [Hl Hh]. unfold here in Hpv. rewrite (proj2 (Hh h Hl) eq_refl) in Hpv. done. }
  assert (forall j e, here (put h d f) j e -> j = h /\ e = d \/ here f j e /\ e <> d) as Hcase.
  { intros j e He. destruct (decide (j = h)) as [-> |Hj]; [|right; by apply (put_other h d f)]. left. unfold here in *. naive_solver. }
  split.
  - intros i Hi. destruct (Ho i Hi) as (o & pv & HR & Hpv & Hord). destruct (decide (o = a)) as [-> |Hoa].
    + destruct (Heq i Hi HR) as [HR' Hbetween]. exists h, d. split; [done|]. split; [done|].
      assert (pv = d) as -> by (unfold here in *; congruence). intros j e He. destruct (Hcase j e He) as [[-> ->]|[He' Hed]]; [lia|].
      assert (j <> a) as Hja by (intros ->; unfold here in *; congruence). pose proof (Hbetween j e He' Hja). pose proof (Hord j e He').
      pose proof (Hoh j e He' Hja). split; intros; apply H0; lia.
    + destruct (Hne i o Hi HR Hoa) as [HR' Hside]. exists o, pv. assert (o <> h) as Hoh' by (by eapply Hoh).
      assert (pv <> d) as Hpd by (intros ->; apply Hoa; by apply (Hs o a d)).
      split; [done|]. split; [by apply put_other|]. intros j e He. destruct (Hcase j e He) as [[-> ->]|[He' Hed]]; [|by apply Hord].
      pose proof (Hord a d Ha). split; intros; apply H; lia.
  - intros i Hi. destruct (Ho i Hi) as (o & pv & HR & Hpv & _). unfold piv. rewrite HR. cbn. unfold here in Hpv. rewrite Hpv. cbn.
    destruct (decide (o = a)) as [-> |Hoa].
    + destruct (Heq i Hi HR) as [-> _]. cbn. unfold here in *. rewrite Hput. cbn. congruence.
    + destruct (Hne i o Hi HR Hoa) as [-> _]. cbn. assert (o <> h) by (by eapply Hoh).
      assert (pv <> d) by (intros ->; apply Hoa; by apply (Hs o a d)). assert (here (put h d f) o pv) as -> by (by apply put_other). done.
Qed.

(** A new element in the empty place, which is not a pivot. *)
Lemma ord_add D f R h d : ord D f R -> holed f h -> ~ within f d ->
  (forall i o pv, (1 <= i < D)%nat -> R !! i = Some o -> here f o pv -> ((h < o)%nat -> cmp d pv <= 0) /\ ((o < h)%nat -> cmp pv d <= 0)) ->
  ord D (put h d f) R.
Proof.
  intros Ho Hh Hd Hnew i Hi. destruct (Ho i Hi) as (o & pv & HR & Hpv & Hord). exists o, pv.
  assert (pv <> d) as Hpd by (intros ->; apply Hd; by exists o).
  assert (o <> h) as Hoh by (intros ->; destruct Hh as [Hl Hh]; unfold here in Hpv; rewrite (proj2 (Hh h Hl) eq_refl) in Hpv; done).
  split; [done|]. split; [by apply put_other|]. intros j e He. destruct (decide (j = h)) as [-> |Hj].
  - pose proof (put_here h d f (proj1 Hh)) as H. unfold here in H, He. rewrite H in He. injection He as <-. by apply (Hnew i).
  - apply put_other in He as [He _]; [|done]. by apply Hord.
Qed.

(** Fewer pivots, or an element taken away that is no pivot. *)
Lemma ord_less D D' f R R' : ord D f R -> (D' <= D)%nat -> (forall i, (1 <= i < D')%nat -> R' !! i = R !! i) -> ord D' f R'.
Proof. intros Ho HD HR i Hi. destruct (Ho i ltac:(lia)) as (o & pv & ? & ? & ?). exists o, pv. rewrite HR by lia. done. Qed.

Lemma ord_remove D f R h : ord D f R -> (forall i, (1 <= i < D)%nat -> R !! i <> Some h) -> ord D (<[h := None]> f) R.
Proof.
  intros Ho Hh i Hi. destruct (Ho i Hi) as (o & pv & HR & Hpv & Hord). exists o, pv. assert (o <> h) by (intros ->; by apply (Hh i)).
  split; [done|]. destruct (decide (h < length f)%nat); [|by rewrite list_insert_ge by lia].
  split; [by apply here_hole|]. intros j d Hj. apply Hord. by apply here_hole in Hj as [Hj _].
Qed.

(** An empty place at the right end. *)
Lemma ord_snoc D f R : ord D (f ++ [None]) R <-> ord D f R.
Proof.
  split; intros Ho i Hi; destruct (Ho i Hi) as (o & pv & ? & Hpv & Hord); exists o, pv; (split; [done|]); (split; [by apply here_snoc|]);
    intros j d Hj; apply Hord; by apply here_snoc.
Qed.
End Order.
End LstView.
