(* ===== verification/LstRing.v ===== *)
(** The array of a tree (Lst) as a ring: places (LstView) are counted from [idx],
    indexes into the array are taken modulo its size, which is a power of two. *)

From stdpp Require Import functions.
From S2P Require Import Prelude Rand Lst LstView.

Module LstRing.
Import Lst LstView.

(** The projections of an updated tree. *)
Ltac set_fields := cbn [upd capacity idx num_elements p s_depth s_data rand_ctx index stack_set item_index_set lst_flatten eta_lst] in *.

(** ** Indexes *)

Record ring (l : fr_lst_t) : Prop := {
  ring_pow : exists k, 0 <= k <= 31 /\ capacity l = 2 ^ k;
  ring_size : length (p l) = Z.to_nat (capacity l);
  ring_idx : 0 <= idx l < capacity l
}.

Definition pos (l : fr_lst_t) (j : nat) : Z := (idx l + Z.of_nat j) mod capacity l.

Lemma ring_cap l : ring l -> 1 <= capacity l <= 2 ^ 31.
Proof.
  intros [(k & Hk & ->) _ _]. split.
  - change 1 with (2 ^ 0). apply Z.pow_le_mono_r; lia.
  - apply Z.pow_le_mono_r; lia.
Qed.

Lemma index_reduce_mod l x : ring l -> index_reduce l x = x mod capacity l.
Proof.
  intros H. pose proof (ring_cap l H) as Hc. destruct (ring_pow l H) as (k & Hk & E). unfold index_reduce.
  rewrite u32_id by (red; lia). rewrite E, <- Z.land_ones by lia. by rewrite Z.ones_equiv, Z.sub_1_r.
Qed.

Lemma u32_reduce l x : ring l -> u32 x mod capacity l = x mod capacity l.
Proof.
  intros H. destruct (ring_pow l H) as (k & Hk & ->). unfold u32. change 4294967296 with (2 ^ 32).
  replace 32 with (k + (32 - k)) by lia. rewrite Z.pow_add_r by lia. rewrite Z.rem_mul_r by lia.
  rewrite Z.mul_comm, Z.mod_add by lia. apply Z.mod_mod. lia.
Qed.

Lemma pos_range l j : ring l -> 0 <= pos l j < capacity l.
Proof. intros H. pose proof (ring_cap l H). apply Z.mod_pos_bound. lia. Qed.

Lemma pos_inj l i j : ring l -> Z.of_nat i < capacity l -> Z.of_nat j < capacity l -> pos l i = pos l j -> i = j.
Proof.
  intros H Hi Hj E. pose proof (ring_idx l H). unfold pos in E.
  apply Nat2Z.inj. rewrite Z.mod_eq in E by lia. rewrite Z.mod_eq in E by lia.
  assert (0 <= (idx l + Z.of_nat i) / capacity l < 2) by (split; [apply Z.div_pos; lia|apply Z.div_lt_upper_bound; lia]).
  assert (0 <= (idx l + Z.of_nat j) / capacity l < 2) by (split; [apply Z.div_pos; lia|apply Z.div_lt_upper_bound; lia]).
  revert E H0 H1 H2. generalize ((idx l + Z.of_nat i) / capacity l), ((idx l + Z.of_nat j) / capacity l). intros q r E _ Hq Hr.
  assert (q = 0 \/ q = 1) as [-> | ->] by lia; assert (r = 0 \/ r = 1) as [-> | ->] by lia; lia.
Qed.

Lemma equivalent_mod l x y : ring l -> is_equivalent l x y = bool_decide (x mod capacity l = y mod capacity l).
Proof.
  intros H. pose proof (ring_cap l H). unfold is_equivalent. rewrite index_reduce_mod, u32_reduce by done.
  apply eq_bool_prop_intro. split; intros E.
  - apply Is_true_eq_true, Z.eqb_eq in E. apply bool_decide_pack. rewrite Zminus_mod in E.
    pose proof (Z.mod_pos_bound x (capacity l) ltac:(lia)). pose proof (Z.mod_pos_bound y (capacity l) ltac:(lia)).
    apply Z.mod_divide in E as [q E]; [|lia]. assert (q = 0) as -> by nia. lia.
  - apply bool_decide_unpack in E. apply Is_true_eq_left, Z.eqb_eq. by rewrite Zminus_mod, E, Z.sub_diag.
Qed.

(** ** The view *)

Record view (l : fr_lst_t) (f : places) : Prop := {
  view_ring : ring l;
  view_size : Z.of_nat (length f) <= capacity l;
  view_item : forall j d, here f j d -> p l !! Z.to_nat (pos l j) = Some (Ptr d) /\ index l d = pos l j + 1
}.

(** The entries of the stack are the offsets [O]. *)
Definition stk (l : fr_lst_t) (O : list nat) : Prop :=
  forall i o, O !! i = Some o -> stack_item l i = Some (idx l + Z.of_nat o) /\ Z.of_nat o <= capacity l.

(** What a move leaves alone. *)
Definition frame (l l' : fr_lst_t) : Prop :=
  capacity l' = capacity l /\ idx l' = idx l /\ num_elements l' = num_elements l /\ s_depth l' = s_depth l
  /\ s_data l' = s_data l /\ rand_ctx l' = rand_ctx l.

Lemma view_single l f : view l f -> single f.
Proof.
  intros [Hr Hs Hi] i j d Hdi Hdj. pose proof (here_lt _ _ _ Hdi). pose proof (here_lt _ _ _ Hdj).
  apply (pos_inj l); [done|lia|lia|]. apply Hi in Hdi as [_ E1], Hdj as [_ E2]. lia.
Qed.

Lemma view_read l f j d x : view l f -> here f j d -> x mod capacity l = pos l j -> item l x = Some d.
Proof. intros H Hd E. unfold item. rewrite index_reduce_mod, E by apply H. by rewrite (proj1 (view_item _ _ H j d Hd)). Qed.

Lemma view_move l f h d x : view l f -> (h < length f)%nat -> x mod capacity l = pos l h ->
  exists l', lst_move x d l = Some l' /\ view l' (put h d f) /\ frame l l' /\ index l' = <[d := pos l h + 1]> (index l).
Proof.
  intros H Hh E. pose proof (view_ring _ _ H) as Hr. pose proof (pos_range l h Hr) as Hp. pose proof (ring_cap l Hr) as Hc.
  unfold lst_move. rewrite index_reduce_mod, E by done. rewrite (ring_size l Hr).
  rewrite (proj2 (Nat.ltb_lt _ _)) by lia. eexists. split; [done|]. split; [|by set_fields; rewrite u32_id by (red; lia)].
  split; set_fields.
  - split; set_fields; [apply Hr| |apply Hr]. rewrite length_insert. apply Hr.
  - rewrite put_length. apply H.
  - intros j e Hj. unfold pos in *. set_fields. rewrite u32_id by (red; lia).
    pose proof (here_lt _ _ _ Hj) as Hlt. rewrite put_length in Hlt. pose proof (view_size _ _ H) as Hs. destruct (decide (j = h)) as [-> |Hne].
    + pose proof (put_here h d f Hh) as E'. unfold here in *. rewrite E' in Hj. injection Hj as <-.
      split; [|by rewrite fn_lookup_insert]. apply list_lookup_insert_eq. rewrite (ring_size l Hr). lia.
    + apply put_other in Hj as [Hj Hed]; [|done]. apply (view_item _ _ H) in Hj as Hi. unfold pos in Hi.
      rewrite fn_lookup_insert_ne by done. rewrite list_lookup_insert_ne; [done|].
      intros E'. apply Hne. pose proof (pos_range l j Hr). apply (pos_inj l); [done|lia|lia|]. apply Z2Nat.inj; unfold pos in *; congruence || tauto.
Qed.

Lemma frame_trans l1 l2 l3 : frame l1 l2 -> frame l2 l3 -> frame l1 l3.
Proof. unfold frame. intuition congruence. Qed.
Lemma frame_stk l l' O : frame l l' -> stk l O -> stk l' O.
Proof. intros (E1 & E2 & _ & _ & E5 & _) H i o Ho. unfold stack_item. rewrite E1, E2, E5. by apply H. Qed.
Lemma frame_pos l l' j : frame l l' -> pos l' j = pos l j.
Proof. intros (E1 & E2 & _). unfold pos. by rewrite E1, E2. Qed.

(** Only the stack, the depth, the number of elements and the generator differ. *)
Lemma view_ext l l' f : capacity l' = capacity l -> idx l' = idx l -> p l' = p l -> index l' = index l -> view l f -> view l' f.
Proof.
  intros E1 E2 E3 E4 [[Hp Hsz Hi] Hs Hv]. split; [split|..]; unfold pos; rewrite ?E1, ?E2, ?E3, ?E4; done.
Qed.

Lemma stk_set l O i o : stk l O -> (i < length O)%nat -> Z.of_nat o <= capacity l -> stk (stack_set i (idx l + Z.of_nat o) l) (<[i := o]> O).
Proof.
  intros H Hi Ho j x Hj. unfold stack_item. set_fields. destruct (decide (j = i)) as [-> |Hne].
  - rewrite list_lookup_insert_eq in Hj by done. injection Hj as <-. rewrite list_lookup_insert_eq; [done|].
    destruct (lookup_lt_is_Some_2 O i Hi) as [y Hy]. apply H in Hy as [Hy _]. unfold stack_item in Hy.
    destruct (s_data l !! i) eqn:E; [|done]. by apply lookup_lt_Some in E.
  - rewrite list_lookup_insert_ne in Hj by done. rewrite list_lookup_insert_ne by done. by apply H.
Qed.

Lemma stk_take l O n : stk l O -> stk l (take n O).
Proof. intros H i o Ho. apply H. by apply lookup_take_Some in Ho as [Ho _]. Qed.
End LstRing.
