(* ===== verification/LstMove.v ===== *)
(** Adding to a bucket of a tree (Lst) and deleting from one: the empty place goes
    from bucket to bucket, one pivot moves by one place for each of them, and the
    order around the pivots (LstView) is kept. *)

From stdpp Require Import functions.
From S2P Require Import Prelude Rand Lst LstView LstRing.

Module LstMove.
Import Lst LstView LstRing.

(** Offsets from the bottom of the stack to its top. *)
Definition dec (R : list nat) : Prop := forall i a b, R !! i = Some a -> R !! S i = Some b -> (b < a)%nat.

Lemma dec_lt R i j a b : dec R -> (i < j)%nat -> R !! i = Some a -> R !! j = Some b -> (b < a)%nat.
Proof.
  intros HR Hij Ha. revert b. induction Hij as [|j Hij IH]; intros b Hb; [by apply (HR i)|].
  destruct (lookup_lt_is_Some_2 R j) as [c Hc]; [apply lookup_lt_Some in Hb; lia|]. pose proof (IH c Hc). pose proof (HR j c b Hc Hb). lia.
Qed.

Lemma dec_inj R i j a : dec R -> R !! i = Some a -> R !! j = Some a -> i = j.
Proof.
  intros HR Hi Hj. destruct (lt_eq_lt_dec i j) as [[H| ->]|H]; [|done|].
  - pose proof (dec_lt R i j a a HR H Hi Hj). lia.
  - pose proof (dec_lt R j i a a HR H Hj Hi). lia.
Qed.

(** Change one offset, between its neighbours. *)
Lemma dec_insert R i o : dec R -> (forall a, (1 <= i)%nat -> R !! Nat.pred i = Some a -> (o < a)%nat) -> (forall b, R !! S i = Some b -> (b < o)%nat) ->
  dec (<[i := o]> R).
Proof.
  intros HR Hup Hlow j a b Ha Hb. destruct (decide (j = i)) as [-> |Hj].
  - rewrite list_lookup_insert_ne in Hb by lia. destruct (decide (i < length R)%nat) as [Hi|Hi].
    + rewrite list_lookup_insert_eq in Ha by done. injection Ha as <-. by apply Hlow.
    + apply lookup_lt_Some in Hb. lia.
  - rewrite list_lookup_insert_ne in Ha by done. destruct (decide (S j = i)) as [<-|Hj'].
    + destruct (decide (S j < length R)%nat) as [Hi|Hi].
      * rewrite list_lookup_insert_eq in Hb by done. injection Hb as <-. apply Hup; [lia|done].
      * rewrite list_insert_ge in Hb by lia. by apply (HR j).
    + rewrite list_lookup_insert_ne in Hb by done. by apply (HR j).
Qed.

Section Order.
Variable cmp : ptr -> ptr -> Z.

(** What moving elements leaves alone: the elements, the pivots, the fields of
    other objects. *)
Record evolves (D : nat) (l : fr_lst_t) (f : places) (R : list nat) (l' : fr_lst_t) (f' : places) (R' : list nat) : Prop := {
  ev_capacity : capacity l' = capacity l;
  ev_idx : idx l' = idx l;
  ev_num : num_elements l' = num_elements l;
  ev_depth : s_depth l' = s_depth l;
  ev_stack : length (s_data l') = length (s_data l);
  ev_length : length f' = length f;
  ev_offsets : length R' = length R;
  ev_piv : forall i, (1 <= i < D)%nat -> piv f' R' i = piv f R i;
  ev_within : forall e, within f' e <-> within f e;
  ev_index : forall e, ~ within f e -> index l' e = index l e
}.

Lemma evolves_refl D l f R : evolves D l f R l f R.
Proof. by split. Qed.

Lemma evolves_trans D l1 f1 R1 l2 f2 R2 l3 f3 R3 : evolves D l1 f1 R1 l2 f2 R2 -> evolves D l2 f2 R2 l3 f3 R3 -> evolves D l1 f1 R1 l3 f3 R3.
Proof.
  intros [] []. split; try congruence.
  - intros i Hi. rewrite ev_piv1, ev_piv0; done.
  - intros e. by rewrite ev_within1.
  - intros e He. rewrite ev_index1, ev_index0; [done..|]. by rewrite ev_within0.
Qed.

(** One element moves to the empty place. *)
Lemma step_move D l f R R' a h d x : view l f -> ord cmp D f R -> here f a d -> holed f h -> x mod capacity l = pos l h ->
  length R' = length R ->
  (forall i o, (1 <= i < D)%nat -> R !! i = Some o -> o <> a -> R' !! i = Some o /\ (a < o <-> h < o)%nat) ->
  (forall i, (1 <= i < D)%nat -> R !! i = Some a -> R' !! i = Some h /\ forall j e, here f j e -> j <> a -> (j < a <-> j < h)%nat) ->
  exists l', lst_move x d l = Some l' /\ view l' (put h d f) /\ holed (put h d f) a /\ ord cmp D (put h d f) R'
    /\ evolves D l f R l' (put h d f) R' /\ frame l l'.
Proof.
  intros Hv Ho Ha Hh Hx HR Hne Heq. destruct (view_move l f h d x Hv (proj1 Hh) Hx) as (l' & E & Hv' & Hf & Hi).
  destruct (ord_move cmp D f R R' a h d (view_single _ _ Hv) Ho Ha Hh Hne Heq) as [Ho' Hp].
  exists l'. split; [done|]. split; [done|]. split; [by apply put_holed; [eapply view_single| |]|]. split; [done|]. split; [|done].
  destruct Hf as (? & ? & ? & ? & Hd & ?). split; try done; [by rewrite Hd|by apply put_length| |].
  - intros e. rewrite put_within by done. split; [|by right]. intros [-> |]; [by exists a|done].
  - intros e He. rewrite Hi. apply fn_lookup_insert_ne. intros ->. apply He. by exists a.
Qed.

(** ... inside a bucket. *)
Lemma step_zone D l f R a h d x : view l f -> ord cmp D f R -> here f a d -> holed f h -> x mod capacity l = pos l h ->
  (forall i o, (1 <= i < D)%nat -> R !! i = Some o -> o <> a /\ (a < o <-> h < o)%nat) ->
  exists l', lst_move x d l = Some l' /\ view l' (put h d f) /\ holed (put h d f) a /\ ord cmp D (put h d f) R
    /\ evolves D l f R l' (put h d f) R /\ frame l l'.
Proof.
  intros Hv Ho Ha Hh Hx Hz. eapply step_move; try done.
  - intros i o Hi HR _. split; [done|]. by apply (Hz i).
  - intros i Hi HR. by destruct (Hz i a Hi HR).
Qed.

(** ... between two buckets. *)
Lemma step_pivot D l f R i0 a h d x : view l f -> ord cmp D f R -> here f a d -> holed f h -> x mod capacity l = pos l h ->
  dec R -> R !! i0 = Some a -> (a = S h \/ h = S a) ->
  exists l', lst_move x d l = Some l' /\ view l' (put h d f) /\ holed (put h d f) a /\ ord cmp D (put h d f) (<[i0 := h]> R)
    /\ evolves D l f R l' (put h d f) (<[i0 := h]> R) /\ frame l l'.
Proof.
  intros Hv Ho Ha Hh Hx HR Hi0 Hadj. assert (forall j e, here f j e -> j <> a -> (j < a <-> j < h)%nat) as Hside.
  { intros j e Hj Hne. assert (j <> h); [|lia]. intros ->. destruct Hh as [Hl Hh]. unfold here in Hj. by rewrite (proj2 (Hh h Hl) eq_refl) in Hj. }
  eapply step_move; try done; [by rewrite length_insert| |].
  - intros i o Hi Hio Hoa. rewrite list_lookup_insert_ne by (intros ->; congruence). split; [done|].
    destruct (Ho i Hi) as (o' & pv & Ho' & Hpv & _). rewrite Hio in Ho'. injection Ho' as <-. pose proof (Hside o pv Hpv Hoa).
    assert (o <> h); [|lia]. intros ->. destruct Hh as [Hl Hh]. unfold here in Hpv. by rewrite (proj2 (Hh h Hl) eq_refl) in Hpv.
  - intros i Hi Hia. assert (i = i0) as -> by (by apply (dec_inj R i i0 a)). split; [|done].
    apply list_lookup_insert_eq. by apply lookup_lt_Some in Hi0.
Qed.
End Order.
End LstMove.
