(* ===== verification/LstBucket.v ===== *)
(** bucket_add and bucket_delete of a tree (Lst): they add one element to a bucket,
    or take one away, and keep the view, the stack and the order (LstMove). *)

From stdpp Require Import functions.
From S2P Require Import Prelude Rand Lst LstView LstRing LstMove.

Module LstBucket.
Import Lst LstView LstRing LstMove.

Lemma view_set l f i v : view l f -> view (stack_set i v l) f.
Proof. by apply view_ext. Qed.

Lemma evolves_set D l f R i v : evolves D l f R (stack_set i v l) f R.
Proof. split; try done. set_fields. by rewrite length_insert. Qed.

Lemma u32_offset l x : ring l -> 0 <= x <= idx l + capacity l -> u32 x = x.
Proof. intros H Hx. pose proof (ring_cap l H). pose proof (ring_idx l H). apply u32_id. red. lia. Qed.

Lemma stk_at l O i o : stk l O -> O !! i = Some o -> stack_item l i = Some (idx l + Z.of_nat o).
Proof. intros H Ho. by apply H. Qed.

(** ** The invariant *)

Section Order.
Variable cmp : ptr -> ptr -> Z.

(** [f] are the elements of the tree and [O] the offsets on its stack, which may
    have more entries than are in use. *)
Record inv (l : fr_lst_t) (f : places) (O : list nat) : Prop := {
  inv_view : view l f;
  inv_full : full f;
  inv_num : num_elements l = Z.of_nat (length f);
  inv_stk : stk l O;
  inv_bottom : O !! 0%nat = Some (length f);
  inv_dec : dec O;
  inv_ord : ord cmp (s_depth l) f O;
  inv_depth : (1 <= s_depth l <= length O)%nat;
  inv_index : forall d, index l d <> 0 -> within f d
}.

Lemma within_index l f d : view l f -> within f d -> 1 <= index l d.
Proof. intros H [j Hj]. rewrite (proj2 (view_item _ _ H j d Hj)). pose proof (pos_range l j (view_ring _ _ H)). lia. Qed.

Lemma ord_piv D f R i o pv : ord cmp D f R -> (1 <= i < D)%nat -> R !! i = Some o -> here f o pv -> piv f R i = Some pv.
Proof. intros _ _ HR Hpv. unfold piv. rewrite HR. cbn. unfold here in Hpv. by rewrite Hpv. Qed.

Lemma inv_flatten l f O i : inv l f O -> (1 <= i <= s_depth l)%nat -> inv (lst_flatten i l) f O.
Proof.
  intros [Hv Hf Hn Hs Hb Hd Ho HD Hi] Hle. split; try done; set_fields; [by apply (view_ext l)| |lia].
  apply (ord_less cmp (s_depth l) i f O); [done|lia|done].
Qed.

(** ** Adding *)

(** In front of bucket [r] of bucket_add: the empty place [h] is the one after the
    bucket, whose entry of the stack is not yet incremented. *)
Record adding (D : nat) (l : fr_lst_t) (f : places) (R : list nat) (h r : nat) : Prop := {
  ad_view : view l f;
  ad_holed : holed f h;
  ad_dec : dec R;
  ad_entry : R !! r = Some (S h);
  ad_next : forall b, R !! S r = Some b -> (b < h)%nat;
  ad_stk : stk l (<[r := h]> R);
  ad_ord : ord cmp D f R
}.

(** The first element of the bucket goes to its end. *)
Lemma add_shift D l f R h b : view l f -> holed f h -> ord cmp D f R -> dec R -> forall r, R !! r = Some (S h) -> R !! S r = Some b -> (b < h)%nat ->
  exists l' f', (if u32 (idx l + Z.of_nat h - (idx l + Z.of_nat b)) =? 1 then Some l
                 else d ← item l (u32 (idx l + Z.of_nat b + 1)); lst_move (idx l + Z.of_nat h) d l) = Some l'
    /\ view l' f' /\ holed f' (S b) /\ ord cmp D f' R /\ evolves D l f R l' f' R /\ frame l l'.
Proof.
  intros Hv Hh Ho HR r Hr HSr Hb. pose proof (view_ring _ _ Hv) as Hring. pose proof (ring_cap _ Hring). pose proof (view_size _ _ Hv).
  destruct Hh as [Hlt Hh']. assert (holed f h) as Hh by (by split). rewrite u32_id by (red; lia).
  destruct (Z.eqb_spec (idx l + Z.of_nat h - (idx l + Z.of_nat b)) 1) as [E|E].
  - replace h with (S b) in * by lia. exists l, f. do 5 (split; [done|]). split; [by apply evolves_refl|]. by repeat split.
  - destruct (holed_here f h (S b) Hh) as [d Hd]; [lia|lia|].
    rewrite (view_read l f (S b) d _ Hv Hd) by (rewrite u32_reduce by done; unfold pos; f_equal; lia). cbn.
    destruct (step_zone cmp D l f R (S b) h d (idx l + Z.of_nat h) Hv Ho Hd Hh eq_refl) as (l' & E' & ? & ? & ? & ? & ?); [|by exists l', (put h d f)].
    intros i o Hi HR'. destruct (decide (i <= r)%nat) as [Hir|Hir].
    + assert (S h <= o)%nat; [|lia]. destruct (decide (i = r)) as [-> |]; [naive_solver|]. pose proof (dec_lt R i r o (S h) HR ltac:(lia) HR' Hr). lia.
    + assert (o <= b)%nat; [|lia]. destruct (decide (i = S r)) as [-> |]; [naive_solver|]. pose proof (dec_lt R (S r) i b o HR ltac:(lia) HSr HR'). lia.
Qed.

Lemma add_loop_ok D n : forall l f R h r, adding D l f R h r -> (r + n < length R)%nat ->
  exists l' f' R' h', bucket_add_loop n r l = Some l' /\ adding D l' f' R' h' (r + n) /\ evolves D l f R l' f' R'
    /\ (forall i, (i <= r)%nat -> R' !! i = R !! i).
Proof.
  induction n as [|n IH]; intros l f R h r [Hv Hh HR Hr Hnext Hs Ho] Hlen.
  { rewrite Nat.add_0_r. exists l, f, R, h. split; [done|]. split; [done|]. split; [by apply evolves_refl|done]. }
  destruct (lookup_lt_is_Some_2 R (S r)) as [b Hb]; [lia|]. pose proof (Hnext b Hb) as Hbh.
  pose proof (view_ring _ _ Hv) as Hring. pose proof (ring_cap _ Hring) as Hcap. pose proof (view_size _ _ Hv) as Hsize. pose proof (proj1 Hh) as Hlt.
  cbn [bucket_add_loop]. rewrite (stk_at l _ (S r) b Hs) by (by rewrite list_lookup_insert_ne by lia).
  rewrite (stk_at l _ r h Hs) by (apply list_lookup_insert_eq; lia). cbn [mbind option_bind].
  replace (u32 (idx l + Z.of_nat h + 1)) with (idx l + Z.of_nat (S h)) by (rewrite (u32_offset l); [lia|done|pose proof (ring_idx l Hring); lia]).
  set (l0 := stack_set r (idx l + Z.of_nat (S h)) l).
  assert (stk l0 R) as Hs0.
  { subst l0. replace R with (<[r := S h]> (<[r := h]> R)) by (rewrite list_insert_insert_eq; by apply list_insert_id).
    apply stk_set; [done|rewrite length_insert; lia|lia]. }
  destruct (add_shift D l0 f R h b (view_set l f _ _ Hv) Hh Ho HR r Hr Hb Hbh) as (l1 & f1 & E1 & Hv1 & Hh1 & Ho1 & Hev1 & Hf1).
  change (idx l0) with (idx l) in E1. rewrite E1. cbn [mbind option_bind]. clear E1.
  pose proof (frame_stk _ _ _ Hf1 Hs0) as Hs1. assert (idx l1 = idx l) as Ei1 by apply Hf1. assert (capacity l1 = capacity l) as Ec1 by apply Hf1.
  destruct (holed_here f1 (S b) b Hh1) as [d Hd]; [rewrite (ev_length _ _ _ _ _ _ _ Hev1); lia|lia|].
  rewrite (view_read l1 f1 b d _ Hv1 Hd) by (unfold pos; by rewrite Ei1). cbn [mbind option_bind].
  destruct (step_pivot cmp D l1 f1 R (S r) b (S b) d (u32 (idx l + Z.of_nat b + 1)) Hv1 Ho1 Hd Hh1) as (l2 & -> & Hv2 & Hh2 & Ho2 & Hev2 & Hf2);
    [rewrite u32_reduce by (by apply Hv1); unfold pos; f_equal; lia|done|done|by right|]. cbn [mbind option_bind].
  destruct (IH l2 (put (S b) d f1) (<[S r := S b]> R) b (S r)) as (l' & f' & R' & h' & -> & Had & Hev & HR').
  - split; try done.
    + apply dec_insert; [done| |].
      * intros a _ Ha. cbn in Ha. assert (a = S h) by congruence. lia.
      * intros c Hc. pose proof (HR _ _ _ Hb Hc). lia.
    + apply list_lookup_insert_eq. lia.
    + intros c Hc. rewrite list_lookup_insert_ne in Hc by lia. by apply (HR (S r)).
    + rewrite list_insert_insert_eq. rewrite list_insert_id by done. by eapply frame_stk.
  - rewrite length_insert. lia.
  - exists l', f', R', h'. split; [done|]. split; [by rewrite Nat.add_succ_r|]. split.
    + eapply evolves_trans; [apply (evolves_set D l f R r)|]. eapply evolves_trans; [exact Hev1|]. by eapply evolves_trans.
    + intros i Hi. rewrite HR' by lia. apply list_lookup_insert_ne. lia.
Qed.

Lemma adding_start l f O : inv l f O -> num_elements l < capacity l -> adding (s_depth l) l (f ++ [None]) (<[0%nat := S (length f)]> O) (length f) 0.
Proof.
  intros [Hv Hf Hn Hs Hb Hd Ho HD Hi] Hroom. pose proof (lookup_lt_Some _ _ _ Hb) as HO.
  split.
  - destruct Hv as [Hr Hsz Hv]. split; [done|rewrite length_app; cbn; lia|]. intros j e Hj. apply Hv. by apply here_snoc.
  - split; [rewrite length_app; cbn; lia|]. intros j Hj. rewrite length_app in Hj. cbn in Hj. destruct (decide (j = length f)) as [-> |Hne].
    + rewrite lookup_app_r by lia. by rewrite Nat.sub_diag.
    + destruct (Hf j ltac:(lia)) as [d Hdj]. apply here_snoc in Hdj. unfold here in Hdj. rewrite Hdj. naive_solver.
  - apply dec_insert; [done|lia|]. intros b HSb. pose proof (Hd _ _ _ Hb HSb). lia.
  - by apply list_lookup_insert_eq.
  - intros b HSb. rewrite list_lookup_insert_ne in HSb by lia. by apply (Hd 0%nat).
  - rewrite list_insert_insert_eq. by rewrite list_insert_id.
  - apply ord_snoc. apply (ord_less cmp (s_depth l) _ _ O); [done|lia|]. intros i Hi'. apply list_lookup_insert_ne. lia.
Qed.

(** The empty place and the pivots. *)
Lemma adding_side R i h j o : dec R -> R !! i = Some (S h) -> (forall b, R !! S i = Some b -> (b < h)%nat) -> R !! j = Some o ->
  ((h < o)%nat -> (j <= i)%nat) /\ ((o < h)%nat -> (i < j)%nat).
Proof.
  intros HR Hi Hn Ho. split; intros Hside.
  - apply Nat.nlt_ge. intros Hij. destruct (lookup_lt_is_Some_2 R (S i)) as [b Hb]; [apply lookup_lt_Some in Ho; lia|].
    pose proof (Hn b Hb). destruct (decide (j = S i)) as [-> |]; [rewrite Hb in Ho; injection Ho as ->; lia|].
    pose proof (dec_lt R (S i) j b o HR ltac:(lia) Hb Ho). lia.
  - apply Nat.nle_gt. intros Hij. destruct (decide (j = i)) as [-> |]; [rewrite Hi in Ho; injection Ho as <-; lia|].
    pose proof (dec_lt R j i o (S h) HR ltac:(lia) Ho Hi). lia.
Qed.

Lemma bucket_add_ok l f O i d : inv l f O -> num_elements l < capacity l -> (i < length O)%nat -> index l d = 0 ->
  (forall j pv, (1 <= j < s_depth l)%nat -> piv f O j = Some pv -> ((j <= i)%nat -> cmp d pv <= 0) /\ ((i < j)%nat -> cmp pv d <= 0)) ->
  exists l' f' O', bucket_add i d l = Some l' /\ inv l' f' O' /\ (forall e, within f' e <-> e = d \/ within f e) /\ length f' = S (length f).
Proof.
  intros HI Hroom Hi Hd Hord. pose proof (adding_start l f O HI Hroom) as Had. pose proof (view_ring _ _ (inv_view _ _ _ HI)) as Hring0. unfold bucket_add.
  destruct (add_loop_ok (s_depth l) i _ _ _ _ _ Had) as (l1 & f1 & R1 & h & -> & [Hv1 Hh1 HR1 Hi1 Hn1 Hs1 Ho1] & Hev & HR0); [rewrite length_insert; lia|].
  cbn [Nat.add] in *. cbn [mbind option_bind]. rewrite (stk_at l1 _ i h Hs1) by (apply list_lookup_insert_eq; by apply lookup_lt_Some in Hi1).
  cbn [mbind option_bind]. pose proof (view_ring _ _ Hv1) as Hring. pose proof (view_size _ _ Hv1) as Hsz. pose proof (proj1 Hh1) as Hlt.
  replace (u32 (idx l1 + Z.of_nat h + 1)) with (idx l1 + Z.of_nat (S h)) by (rewrite (u32_offset l1); [lia|done|pose proof (ring_idx l1 Hring); lia]).
  destruct (view_move _ f1 h d (idx l1 + Z.of_nat h) (view_set l1 f1 i (idx l1 + Z.of_nat (S h)) Hv1) Hlt eq_refl) as (l2 & -> & Hv2 & Hf2 & Hi2).
  cbn [mbind option_bind].
  assert (~ within f1 d) as Hnd.
  { rewrite (ev_within _ _ _ _ _ _ _ Hev), within_snoc. intros Hw. apply (within_index l) in Hw; [lia|apply HI]. }
  assert (length f1 = S (length f)) as Hlen by (rewrite (ev_length _ _ _ _ _ _ _ Hev), length_app; cbn; lia).
  assert (s_depth l2 = s_depth l) as HD by (rewrite <- (ev_depth _ _ _ _ _ _ _ Hev); apply Hf2).
  exists (l2 <| num_elements := u32 (num_elements l2 + 1) |>), (put h d f1), R1. split; [done|].
  assert (forall e, within (put h d f1) e <-> e = d \/ within f e) as Hwi
    by (intros e; rewrite put_within, (ev_within _ _ _ _ _ _ _ Hev), within_snoc by done; done).
  split; [split; set_fields|].
  - by apply (view_ext l2).
  - by apply put_full.
  - rewrite put_length, Hlen. destruct Hf2 as (_ & _ & -> & _). set_fields. rewrite (ev_num _ _ _ _ _ _ _ Hev), (inv_num _ _ _ HI).
    pose proof (ring_cap l Hring0). pose proof (inv_num _ _ _ HI). rewrite u32_id by (red; lia). lia.
  - change (stk l2 R1). eapply frame_stk; [exact Hf2|]. replace R1 with (<[i := S h]> (<[i := h]> R1)) by (rewrite list_insert_insert_eq; by apply list_insert_id).
    apply stk_set; [done|rewrite length_insert; by apply lookup_lt_Some in Hi1|lia].
  - rewrite HR0 by lia. rewrite put_length, Hlen. apply list_lookup_insert_eq. apply (lookup_lt_Some _ _ _ (inv_bottom _ _ _ HI)).
  - done.
  - rewrite HD. apply ord_add; [done..|]. intros j o pv Hj Ho Hpv.
    pose proof (ord_piv _ f1 R1 j o pv Ho1 Hj Ho Hpv) as Ep. rewrite (ev_piv _ _ _ _ _ _ _ Hev) in Ep by done.
    destruct (inv_ord _ _ _ HI j Hj) as (o' & pv' & HO & Hpv' & _). unfold piv in Ep. rewrite list_lookup_insert_ne in Ep by lia. rewrite HO in Ep. cbn in Ep.
    rewrite lookup_app_l in Ep by (by eapply here_lt). unfold here in Hpv'. rewrite Hpv' in Ep. cbn in Ep. injection Ep as ->.
    destruct (Hord j pv Hj) as [Hle Hgt]; [unfold piv; rewrite HO; cbn; by rewrite Hpv'|]. destruct (adding_side R1 i h j o HR1 Hi1 Hn1 Ho) as [Hl Hg]. auto.
  - rewrite HD, (ev_offsets _ _ _ _ _ _ _ Hev), length_insert. apply HI.
  - intros e. rewrite Hi2. set_fields. destruct (decide (e = d)) as [-> |Hne]; [intros _; apply Hwi; by left|].
    rewrite fn_lookup_insert_ne by done. intros Hx. apply Hwi. right. destruct (decide (within f e)) as [|Hw]; [done|].
    rewrite (ev_index _ _ _ _ _ _ _ Hev) in Hx by (by rewrite within_snoc). by apply HI in Hx.
  - split; [done|]. by rewrite put_length.
Qed.
End Order.
End LstBucket.
