(* ===== verification/LstDelete.v ===== *)
(** bucket_delete of a tree (Lst): from the left end [idx] advances, from any other
    place the empty place goes to the right end. *)

From stdpp Require Import functions.
From S2P Require Import Prelude Rand Lst LstView LstRing LstMove LstBucket.

Module LstDelete.
Import Lst LstView LstRing LstMove LstBucket.

Section Order.
Variable cmp : ptr -> ptr -> Z.

(** ** Towards the right end *)

(** The empty place [h] is in bucket [i], whose offset is [o], or, when the pivot
    at [o] is itself deleted and no longer counted, at [o]. *)
Record deleting (D : nat) (l : fr_lst_t) (f : places) (R : list nat) (h i o : nat) : Prop := {
  de_view : view l f;
  de_holed : holed f h;
  de_dec : dec R;
  de_bottom : R !! 0%nat = Some (length f);
  de_entry : R !! i = Some o;
  de_before : (h <= o)%nat;
  de_pivot : h = o -> (D <= i)%nat /\ R !! S i = None;
  de_next : forall b, R !! S i = Some b -> (b < h)%nat;
  de_stk : stk l R;
  de_ord : ord cmp D f R
}.

(** The empty place is no pivot. *)
Lemma deleting_pivot D (f : places) R h i o : dec R -> R !! i = Some o -> (h <= o)%nat -> (h = o -> (D <= i)%nat /\ R !! S i = None) -> (forall b, R !! S i = Some b -> (b < h)%nat) ->
  forall j c, (1 <= j < D)%nat -> R !! j = Some c -> ((j <= i)%nat /\ (h < c)%nat /\ (o <= c)%nat) \/ ((i < j)%nat /\ (c < h)%nat /\ (h < o)%nat).
Proof.
  intros HR Hi Hle Hpv Hn j c Hj Hc. destruct (lt_eq_lt_dec j i) as [[Hji| ->]|Hji].
  - left. pose proof (dec_lt R j i c o HR Hji Hc Hi). lia.
  - left. rewrite Hi in Hc. injection Hc as ->. destruct (decide (h = c)) as [E|]; [apply Hpv in E; lia|lia].
  - right. destruct (lookup_lt_is_Some_2 R (S i)) as [b Hb]; [apply lookup_lt_Some in Hc; lia|]. pose proof (Hn b Hb).
    assert (c <= b)%nat by (destruct (decide (j = S i)) as [-> |]; [naive_solver lia|pose proof (dec_lt R (S i) j b c HR ltac:(lia) Hb Hc); lia]).
    destruct (decide (h = o)) as [E|]; [apply Hpv in E|]; lia.
Qed.

(** The last element of the bucket goes to the empty place. *)
Lemma delete_shift D l f R h i t x : deleting D l f R h i (S t) -> x mod capacity l = pos l h ->
  exists l' f', (if is_equivalent l x (idx l + Z.of_nat t) then Some l else d ← item l (idx l + Z.of_nat t); lst_move x d l) = Some l'
    /\ view l' f' /\ holed f' t /\ ord cmp D f' R /\ evolves D l f R l' f' R /\ frame l l'.
Proof.
  intros [Hv Hh HR H0 Hi Hle Hpv Hn Hs Ho] Hx. pose proof (view_ring _ _ Hv) as Hr. pose proof (view_size _ _ Hv). pose proof (proj1 Hh).
  rewrite equivalent_mod by done. rewrite Hx. change ((idx l + Z.of_nat t) mod capacity l) with (pos l t).
  assert (S t <= length f)%nat as Ht by (destruct i; [naive_solver lia|pose proof (dec_lt R 0 (S i) _ _ HR ltac:(lia) H0 Hi); lia]).
  case_bool_decide as E.
  - apply (pos_inj l) in E as ->; [|done|lia|lia]. exists l, f. do 5 (split; [done|]). split; [by apply evolves_refl|]. by repeat split.
  - assert (t <> h) as Hth by (by intros ->). destruct (holed_here f h t Hh) as [d Hd]; [lia|done|].
    rewrite (view_read l f t d _ Hv Hd eq_refl). cbn.
    destruct (step_zone cmp D l f R t h d x Hv Ho Hd Hh Hx) as (l' & E' & ? & ? & ? & ? & ?); [|by exists l', (put h d f)].
    intros j c Hj Hc. destruct (deleting_pivot D f R h i (S t) HR Hi Hle Hpv Hn j c Hj Hc); lia.
Qed.

Lemma delete_loop_ok D i : forall l f R h o x, deleting D l f R h i o -> (1 <= o)%nat -> x mod capacity l = pos l h ->
  exists l' f' R', bucket_delete_loop i x l = Some l' /\ view l' f' /\ holed f' (Nat.pred (length f)) /\ stk l' R' /\ dec R' /\ ord cmp D f' R'
    /\ R' !! 0%nat = Some (Nat.pred (length f)) /\ evolves D l f R l' f' R'.
Proof.
  induction i as [|i IH]; intros l f R h o x Hde H1 Hx; destruct o as [|t]; [lia| |lia|].
  all: pose proof (view_ring _ _ (de_view _ _ _ _ _ _ _ Hde)) as Hr; pose proof (de_entry _ _ _ _ _ _ _ Hde) as Hi; pose proof (de_dec _ _ _ _ _ _ _ Hde) as HR.
  all: pose proof (de_stk _ _ _ _ _ _ _ Hde _ _ Hi) as [_ Hcap].
  all: destruct (delete_shift D l f R h _ t x Hde Hx) as (l1 & f1 & E1 & Hv1 & Hh1 & Ho1 & Hev1 & Hf1).
  all: cbn [bucket_delete_loop]; unfold bucket_upb; rewrite (stk_at l R _ (S t) (de_stk _ _ _ _ _ _ _ Hde) Hi); cbn [mbind option_bind].
  all: replace (u32 (idx l + Z.of_nat (S t) - 1)) with (idx l + Z.of_nat t) by (rewrite (u32_offset l); [lia|done|pose proof (ring_idx l Hr); lia]).
  all: rewrite E1; cbn [mbind option_bind]; clear E1.
  all: assert (idx l1 = idx l) as Ei by apply Hf1; assert (capacity l1 = capacity l) as Ec by apply Hf1.
  all: pose proof (frame_stk _ _ _ Hf1 (de_stk _ _ _ _ _ _ _ Hde)) as Hs1.
  all: pose proof (stk_set l1 R _ t Hs1 (lookup_lt_Some _ _ _ Hi) ltac:(lia)) as Hs1'; rewrite Ei in Hs1'.
  - pose proof (de_bottom _ _ _ _ _ _ _ Hde) as H0. rewrite Hi in H0. injection H0 as Hlen.
    exists (stack_set 0 (idx l + Z.of_nat t) l1), f1, (<[0%nat := t]> R). rewrite <- Hlen. cbn [Nat.pred].
    split; [done|]. split; [by apply view_set|]. split; [done|]. split; [done|]. split.
    { apply dec_insert; [done|lia|]. intros b Hb. pose proof (de_next _ _ _ _ _ _ _ Hde b Hb). pose proof (proj1 (de_holed _ _ _ _ _ _ _ Hde)). lia. }
    split; [apply (ord_less cmp D D f1 R); [done|lia|intros; apply list_lookup_insert_ne; lia]|].
    split; [apply list_lookup_insert_eq; by apply lookup_lt_Some in Hi|].
    eapply evolves_trans; [exact Hev1|]. destruct (evolves_set D l1 f1 R 0 (idx l + Z.of_nat t)). split; try done.
    + by rewrite length_insert.
    + intros j Hj. unfold piv. by rewrite list_lookup_insert_ne by lia.
  - pose proof (dec_lt R 0 (S i) _ _ HR ltac:(lia) (de_bottom _ _ _ _ _ _ _ Hde) Hi) as Hlt.
    set (l2 := stack_set (S i) (idx l + Z.of_nat t) l1) in *. assert (view l2 f1) as Hv2 by (by apply view_set).
    destruct (holed_here f1 t (S t) Hh1) as [d Hd]; [rewrite (ev_length _ _ _ _ _ _ _ Hev1); lia|lia|].
    rewrite (view_read l2 f1 (S t) d _ Hv2 Hd) by (rewrite u32_reduce by apply Hv2; unfold pos; subst l2; set_fields; f_equal; lia). cbn [mbind option_bind].
    destruct (step_pivot cmp D l2 f1 R (S i) (S t) t d (idx l + Z.of_nat t) Hv2 Ho1 Hd Hh1) as (l3 & -> & Hv3 & Hh3 & Ho3 & Hev3 & Hf3);
      [unfold pos; subst l2; set_fields; by rewrite Ei|done|done|by left|]. cbn [mbind option_bind].
    destruct (lookup_lt_is_Some_2 R i) as [o Ho]; [apply lookup_lt_Some in Hi; lia|]. pose proof (HR _ _ _ Ho Hi) as Hot.
    assert (length (put t d f1) = length f) as Hlen by (rewrite put_length; apply Hev1).
    destruct (IH l3 (put t d f1) (<[S i := t]> R) (S t) o (u32 (idx l + Z.of_nat t + 1))) as (l' & f' & R' & -> & Hv' & Hh' & Hs' & Hd' & Ho' & H0' & Hev').
    + split; try done; [| | |lia|lia| |].
      * apply dec_insert; [done| |].
        -- intros a _ Ha. cbn in Ha. rewrite Ho in Ha. injection Ha as <-. lia.
        -- intros b Hb. pose proof (de_next _ _ _ _ _ _ _ Hde b Hb). pose proof (de_before _ _ _ _ _ _ _ Hde).
           destruct (decide (h = S t)) as [E|]; [|lia]. pose proof (proj2 (de_pivot _ _ _ _ _ _ _ Hde E)). congruence.
      * rewrite list_lookup_insert_ne by lia. rewrite Hlen. apply (de_bottom _ _ _ _ _ _ _ Hde).
      * by rewrite list_lookup_insert_ne by lia.
      * intros b Hb. rewrite list_lookup_insert_eq in Hb by (by apply lookup_lt_Some in Hi). injection Hb as <-. lia.
      * by eapply frame_stk.
    + lia.
    + destruct Hf3 as (Ec3 & Ei3 & _). rewrite u32_reduce by apply Hv3. unfold pos. rewrite Ei3, Ec3. subst l2. set_fields. f_equal. lia.
    + rewrite Hlen in *. exists l', f', R'. do 7 (split; [done|]). eapply evolves_trans; [exact Hev1|].
      eapply evolves_trans; [apply (evolves_set D l1 f1 R (S i))|]. by eapply evolves_trans.
Qed.

(** ** From the left end *)

Definition advance (l : fr_lst_t) : fr_lst_t :=
  let l := l <| idx := u32 (idx l + 1) |> in if is_equivalent l (idx l) 0 then lst_indices_reduce l else l.

(** Both branches have the same meaning. *)
Lemma advance_fields l : ring l ->
  capacity (advance l) = capacity l /\ num_elements (advance l) = num_elements l /\ p (advance l) = p l /\ s_depth (advance l) = s_depth l
  /\ index (advance l) = index l /\ idx (advance l) = (idx l + 1) mod capacity l
  /\ forall i o, (i < s_depth l)%nat -> 1 <= o <= capacity l -> stack_item l i = Some (idx l + o) -> stack_item (advance l) i = Some (idx (advance l) + (o - 1)).
Proof.
  intros Hr. pose proof (ring_cap l Hr). pose proof (ring_idx l Hr). unfold advance. set_fields.
  assert (forall v, is_equivalent (l <| idx := v |>) = is_equivalent l) as -> by done.
  rewrite (u32_offset l) by (done || lia). rewrite equivalent_mod, Z.mod_0_l by (done || lia). case_bool_decide as E.
  - unfold lst_indices_reduce. set_fields. assert (forall v x, index_reduce (l <| idx := v |>) x = index_reduce l x) as -> by done.
    rewrite index_reduce_mod, E by done. repeat (split; [done|]). intros i o Hi Ho Hs. unfold stack_item in *. set_fields.
    rewrite list_lookup_imap. destruct (s_data l !! i) as [w|]; [|done].
    cbn [mbind option_bind] in Hs. subst w. cbn [fmap option_fmap option_map mbind option_bind]. rewrite (proj2 (Nat.ltb_lt _ _) Hi).
    cbn [fmap option_fmap option_map]. f_equal.
    assert (idx l + 1 = capacity l) as Ecap.
    { apply Z.mod_divide in E as [q E]; [|lia]. assert (q = 1) as -> by nia. lia. }
    rewrite u32_id by (red; lia). lia.
  - assert (idx l + 1 < capacity l) as Hlt by (destruct (decide (idx l + 1 = capacity l)) as [E'|]; [rewrite E', Z.mod_same in E by lia|]; lia).
    rewrite Z.mod_small by lia. repeat (split; [done|]). intros i o Hi Ho Hs. unfold stack_item in *. set_fields. rewrite Hs. f_equal. lia.
Qed.

Lemma advance_view l x f : view l (x :: f) -> view (advance l) f.
Proof.
  intros Hv. pose proof (view_ring _ _ Hv) as Hr. pose proof (ring_cap l Hr) as Hc. pose proof (ring_idx l Hr) as Hx.
  destruct (advance_fields l Hr) as (E1 & _ & E3 & _ & E5 & E6 & _).
  assert (forall j, pos (advance l) j = pos l (S j)) as Hpos.
  { intros j. unfold pos. rewrite E1, E6, Zplus_mod_idemp_l. f_equal. lia. }
  split; [split; rewrite ?E1, ?E3; try apply Hr; rewrite E6; apply Z.mod_pos_bound; lia| |].
  - pose proof (view_size _ _ Hv) as Hs. cbn in Hs. lia.
  - intros j d Hj. rewrite Hpos, E3, E5. by apply (view_item _ _ Hv (S j) d).
Qed.

Lemma ord_tail D x f R : ord cmp D (x :: f) R -> (forall i, (1 <= i < D)%nat -> R !! i <> Some 0%nat) -> ord cmp D f (Nat.pred <$> R).
Proof.
  intros Ho Hz i Hi. destruct (Ho i Hi) as (o & pv & HR & Hpv & Hord). destruct o as [|o]; [by apply Hz in HR|].
  exists o, pv. rewrite list_lookup_fmap, HR. split; [done|]. split; [done|]. intros j d Hj. pose proof (Hord (S j) d Hj) as [Hl Hg]. split; intros; [apply Hl|apply Hg]; lia.
Qed.

(** ** bucket_delete *)

(** The field of an object that is no longer in the tree. *)
Lemma view_unset l f d v : view l f -> ~ within f d -> view (item_index_set d v l) f.
Proof.
  intros [Hr Hs Hv] Hd. split; [by destruct Hr; split|done|]. intros j e Hj. unfold pos. set_fields.
  rewrite fn_lookup_insert_ne; [by apply Hv|]. intros ->. apply Hd. by exists j.
Qed.

Lemma within_cons (f : places) x e : within (Some x :: f) e <-> e = x \/ within f e.
Proof.
  split.
  - intros [[|j] Hj]; [left; unfold here in Hj; cbn in Hj; congruence|right; by exists j].
  - intros [-> |[j Hj]]; [by exists 0%nat|by exists (S j)].
Qed.

(** Both kinds of deletion end with the number of elements and the field of [d]. *)
Lemma bucket_delete_finish l f O d n : view l f -> full f -> stk l O -> O !! 0%nat = Some (length f) -> dec O -> ord cmp (s_depth l) f O ->
  (1 <= s_depth l <= length O)%nat -> ~ within f d -> (forall e, index l e <> 0 -> e = d \/ within f e) -> n = Z.of_nat (length f) ->
  inv cmp (item_index_set d (-1) (l <| num_elements := n |>)) f O.
Proof.
  intros Hv Hf Hs H0 Hd Ho HD Hnd Hi ->. split; try done.
  - apply view_unset; [|done]. by apply (view_ext l).
  - intros e. set_fields. destruct (decide (e = d)) as [-> |Hne]; [by rewrite fn_lookup_insert|]. rewrite fn_lookup_insert_ne by done.
    intros He. by destruct (Hi e He).
Qed.

Lemma delete_left l f O d : inv cmp l (Some d :: f) O -> (forall j, (1 <= j < s_depth l)%nat -> O !! j <> Some 0%nat) ->
  inv cmp (item_index_set d (-1) ((advance l) <| num_elements := u32 (num_elements (advance l) - 1) |>)) f (Nat.pred <$> take (s_depth l) O).
Proof.
  intros [Hv Hf Hn Hs H0 Hd Ho HD Hi] Hz. pose proof (view_ring _ _ Hv) as Hr. pose proof (ring_cap l Hr) as Hc. pose proof (view_size _ _ Hv) as Hsz.
  destruct (advance_fields l Hr) as (E1 & E2 & E3 & E4 & E5 & E6 & E7). cbn [length] in *.
  assert (forall i o, take (s_depth l) O !! i = Some o -> (i < s_depth l)%nat /\ O !! i = Some o /\ (1 <= o)%nat) as Htake.
  { intros i o Ho'. apply lookup_take_Some in Ho' as [Ho' Hlt]. split; [done|]. split; [done|]. destruct i as [|i]; [naive_solver lia|].
    destruct o; [exfalso; apply (Hz (S i)); [lia|done]|lia]. }
  apply (bucket_delete_finish (advance l)).
  - exact (advance_view _ _ _ Hv).
  - intros j Hj. by apply (Hf (S j)); cbn; lia.
  - intros i o Ho'. rewrite list_lookup_fmap in Ho'. destruct (take (s_depth l) O !! i) as [o0|] eqn:E; [|done]. injection Ho' as <-.
    apply Htake in E as (Hlt & HO & H1). destruct (Hs i o0 HO) as [Hst Hle]. split; [|rewrite E1; lia].
    rewrite (E7 i (Z.of_nat o0) Hlt ltac:(lia) Hst). f_equal. lia.
  - rewrite list_lookup_fmap, lookup_take_lt, H0 by lia. done.
  - intros i a b Ha Hb. rewrite list_lookup_fmap in Ha, Hb. destruct (take _ _ !! i) as [a0|] eqn:Ea; [|done]. destruct (take _ _ !! S i) as [b0|] eqn:Eb; [|done].
    injection Ha as <-. injection Hb as <-. apply Htake in Ea as (_ & Ea & _), Eb as (_ & Eb & ?). pose proof (Hd _ _ _ Ea Eb). lia.
  - rewrite E4. apply (ord_tail _ (Some d)); [|intros i Hi' Hx; by apply Htake in Hx as (_ & _ & ?); lia].
    apply (ord_less cmp (s_depth l) _ _ O); [done|lia|]. intros i Hi'. apply lookup_take_lt. lia.
  - rewrite E4, length_fmap, length_take. lia.
  - intros [j Hj]. by pose proof (view_single _ _ Hv 0%nat (S j) d eq_refl Hj).
  - intros e. rewrite E5. intros He. apply Hi in He. by apply within_cons in He.
  - rewrite E2, Hn. rewrite u32_id by (red; lia). lia.
Qed.

Lemma holed_last (f : places) : holed f (Nat.pred (length f)) -> f = take (Nat.pred (length f)) f ++ [None].
Proof.
  intros [Hl Hh]. rewrite <- (take_drop_middle f (Nat.pred (length f)) None) at 1; [|by apply Hh].
  rewrite drop_ge by lia. done.
Qed.

Lemma view_hole l f h : view l f -> (h < length f)%nat -> view l (<[h := None]> f).
Proof.
  intros [Hr Hs Hv] Hh. split; [done|by rewrite length_insert|]. intros j e Hj. apply Hv. by apply here_hole in Hj as [Hj _].
Qed.

Lemma delete_right l f O h d l' f' R' : inv cmp l f O -> here f h d ->
  view l' f' -> holed f' (Nat.pred (length (<[h := None]> f))) -> stk l' R' -> dec R' -> ord cmp (s_depth l) f' R' ->
  R' !! 0%nat = Some (Nat.pred (length (<[h := None]> f))) -> evolves (s_depth l) l (<[h := None]> f) O l' f' R' ->
  let g := take (Nat.pred (length f')) f' in
  inv cmp (item_index_set d (-1) (l' <| num_elements := u32 (num_elements l' - 1) |>)) g R' /\ (forall e, within g e <-> within f e /\ e <> d).
Proof.
  intros HI Hh Hv' Hh' Hs' Hd' Ho' H0' Hev g. pose proof (view_single _ _ (inv_view _ _ _ _ HI)) as Hsg. pose proof (here_lt _ _ _ Hh) as Hlt.
  pose proof (inv_view _ _ _ _ HI) as Hv. pose proof (view_size _ _ Hv). pose proof (ring_cap l (view_ring _ _ Hv)).
  pose proof (ev_length _ _ _ _ _ _ _ Hev) as Hlen. rewrite <- Hlen in Hh', H0'. rewrite length_insert in Hlen. pose proof (holed_last f' Hh') as Ef. fold g in Ef.
  assert (length g = Nat.pred (length f')) as Hg by (subst g; rewrite length_take; lia).
  assert (forall j e, here g j e <-> here f' j e) as Hge by (intros; rewrite Ef; by rewrite here_snoc).
  assert (forall e, within g e <-> within f e /\ e <> d) as Hwg.
  { intros e. rewrite <- (within_hole f h d e Hsg Hh), <- (ev_within _ _ _ _ _ _ _ Hev). unfold within. by setoid_rewrite Hge. }
  split; [|done]. apply (bucket_delete_finish l'); try done.
  - split; [apply Hv'|rewrite (ev_capacity _ _ _ _ _ _ _ Hev); lia|]. intros j e Hj. apply Hv'. by apply Hge.
  - intros j Hj. destruct (holed_here f' _ j Hh') as [e He]; [lia|lia|]. exists e. by apply Hge.
  - by rewrite Hg.
  - rewrite (ev_depth _ _ _ _ _ _ _ Hev). apply ord_snoc. by rewrite <- Ef.
  - rewrite (ev_depth _ _ _ _ _ _ _ Hev), (ev_offsets _ _ _ _ _ _ _ Hev). apply HI.
  - rewrite Hwg. by intros [_ ?].
  - intros e He. destruct (decide (e = d)) as [-> |Hne]; [by left|]. right. apply Hwg.
    destruct (decide (within (<[h := None]> f) e)) as [Hw|Hw]; [by apply (within_hole f h d)|].
    rewrite (ev_index _ _ _ _ _ _ _ Hev) in He by done. by apply (inv_index _ _ _ _ HI) in He.
  - rewrite (ev_num _ _ _ _ _ _ _ Hev), (inv_num _ _ _ _ HI). rewrite u32_id by (red; lia). lia.
Qed.

Lemma bucket_delete_ok l f O i o h d : inv cmp l f O -> here f h d -> O !! i = Some o -> (h <= o)%nat ->
  (h = o -> (s_depth l <= i)%nat /\ O !! S i = None) -> (forall b, O !! S i = Some b -> (b < h)%nat) ->
  exists l' f' O', bucket_delete i d l = Some l' /\ inv cmp l' f' O' /\ (forall e, within f' e <-> within f e /\ e <> d) /\ length f = S (length f').
Proof.
  intros HI Hh Hi Hle Hpv Hn. pose proof HI as [Hv Hf Hnum Hs H0 Hd Ho HD Hix]. pose proof (view_ring _ _ Hv) as Hr. pose proof (ring_cap l Hr) as Hc.
  pose proof (pos_range l h Hr) as Hp. pose proof (here_lt _ _ _ Hh) as Hlt. pose proof (view_size _ _ Hv) as Hsz. pose proof (view_single _ _ Hv) as Hsg.
  unfold bucket_delete, item_index. rewrite (proj2 (view_item _ _ Hv h d Hh)). replace (u32 (pos l h + 1 - 1)) with (pos l h) by (rewrite u32_id by (red; lia); lia).
  assert (pos l h mod capacity l = pos l h) as Epos by (apply Z.mod_small; lia). rewrite equivalent_mod, Epos by done.
  replace (idx l mod capacity l) with (pos l 0) by (unfold pos; f_equal; lia). case_bool_decide as E.
  - apply (pos_inj l) in E as ->; [|done|lia|lia]. destruct f as [|x f]; [cbn in Hlt; lia|]. unfold here in Hh. injection Hh as ->. cbn [mbind option_bind].
    change (if is_equivalent _ _ _ then _ else _) with (advance l). eexists _, f, _. split; [done|]. split; [apply delete_left; [done|]|].
    + intros j Hj Hx. destruct (deleting_pivot (s_depth l) f O 0 i o Hd Hi Hle Hpv Hn j 0 Hj Hx); lia.
    + split; [|done]. intros e. rewrite within_cons. split; [|naive_solver]. intros Hw. split; [by right|].
      intros ->. destruct Hw as [j Hj]. by pose proof (Hsg 0%nat (S j) d eq_refl Hj).
  - assert (h <> 0%nat) as Hh0 by (by intros ->).
    destruct (delete_loop_ok (s_depth l) i l (<[h := None]> f) O h o (pos l h)) as (l' & f' & R' & -> & Hv' & Hh' & Hs' & Hd' & Ho' & H0' & Hev); [|lia|done|].
    { split; try done; [by apply view_hole|by apply full_hole|by rewrite length_insert|]. apply ord_remove; [done|]. intros j Hj Hx.
      destruct (deleting_pivot (s_depth l) f O h i o Hd Hi Hle Hpv Hn j h Hj Hx); lia. }
    destruct (delete_right l f O h d l' f' R' HI Hh Hv' Hh' Hs' Hd' Ho' H0' Hev) as [HI' Hw]. cbn [mbind option_bind].
    eexists _, _, R'. split; [done|]. split; [exact HI'|]. split; [done|].
    pose proof (ev_length _ _ _ _ _ _ _ Hev) as Hl. rewrite length_insert in Hl. rewrite length_take. lia.
Qed.
End Order.
End LstDelete.
