(* ===== verification/LstPartition.v ===== *)
(** Partitioning the leftmost bucket of a tree (Lst): the loop of Hoare's partition
    ends, permutes the bucket, and leaves what is not after the pivot on its left
    and what is not before it on its right. *)

From stdpp Require Import functions.
From S2P Require Import Prelude Rand Lst LstView LstRing LstMove LstBucket.

Module LstPartition.
Import Rand Lst LstView LstRing LstMove LstBucket.

(** ** Permutations of a prefix *)

Definition among (o : nat) (f : places) (e : ptr) : Prop := exists j, (j < o)%nat /\ here f j e.

(** Only the first [o] places differ, and they hold the same elements. *)
Record permuted (o : nat) (f g : places) : Prop := {
  pe_length : length g = length f;
  pe_full : full f -> full g;
  pe_rest : forall j e, (o <= j)%nat -> here g j e <-> here f j e;
  pe_among : forall e, among o g e <-> among o f e
}.

Lemma permuted_refl o f : permuted o f f.
Proof. by split. Qed.

Lemma permuted_trans o f g k : permuted o f g -> permuted o g k -> permuted o f k.
Proof.
  intros [] []. split; [congruence|auto| |].
  - intros j e Hj. by rewrite pe_rest1, pe_rest0.
  - intros e. by rewrite pe_among1.
Qed.

Lemma permuted_within o f g e : permuted o f g -> within g e <-> within f e.
Proof.
  intros [_ _ Hr Ha]. specialize (Ha e). unfold within, among in *. split; intros [j Hj].
  all: destruct (decide (j < o)%nat) as [H|H]; [|exists j; apply Hr; [lia|done]].
  - destruct (proj1 Ha) as (k & _ & Hk); [by exists j|]. by exists k.
  - destruct (proj2 Ha) as (k & _ & Hk); [by exists j|]. by exists k.
Qed.

(** ** Exchanging two elements *)

Definition swap (i j : nat) (x y : ptr) (f : places) : places := <[i := Some y]> (<[j := Some x]> f).

Lemma here_swap i j x y f k e : (i < length f)%nat -> (j < length f)%nat -> i <> j ->
  here (swap i j x y f) k e <-> (k = i /\ e = y) \/ (k = j /\ e = x) \/ (k <> i /\ k <> j /\ here f k e).
Proof.
  intros Hi Hj Hij. unfold here, swap. destruct (decide (k = i)) as [-> |Hki].
  - rewrite list_lookup_insert_eq by (by rewrite length_insert). naive_solver.
  - rewrite list_lookup_insert_ne by done. destruct (decide (k = j)) as [-> |Hkj].
    + rewrite list_lookup_insert_eq by done. naive_solver.
    + rewrite list_lookup_insert_ne by done. naive_solver.
Qed.

Lemma swap_length i j x y f : length (swap i j x y f) = length f.
Proof. unfold swap. by rewrite !length_insert. Qed.

Lemma swap_permuted o i j x y f : here f i x -> here f j y -> i <> j -> (i < o)%nat -> (j < o)%nat -> permuted o f (swap i j x y f).
Proof.
  intros Hx Hy Hij Hi Hj. pose proof (here_lt _ _ _ Hx) as Hli. pose proof (here_lt _ _ _ Hy) as Hlj. split; [apply swap_length| | |].
  - intros Hf k Hk. rewrite swap_length in Hk. destruct (decide (k = i)) as [-> |]; [exists y; apply here_swap; auto|].
    destruct (decide (k = j)) as [-> |]; [exists x; apply here_swap; auto|]. destruct (Hf k Hk) as [e He]. exists e. apply here_swap; auto 7.
  - intros k e Hk. rewrite here_swap by done. split; [intros [[-> _]|[[-> _]|(_ & _ & ?)]]; [lia|lia|done]|]. intros He. right. right. split; [lia|]. split; [lia|done].
  - intros e. unfold among. split; intros (k & Hk & He).
    + apply here_swap in He as [[-> ->]|[[-> ->]|(_ & _ & ?)]]; eauto.
    + destruct (decide (k = i)) as [-> |Hki].
      { exists j. split; [done|]. apply here_swap; [done..|]. right. left. unfold here in *. split; congruence. }
      destruct (decide (k = j)) as [-> |Hkj].
      { exists i. split; [done|]. apply here_swap; [done..|]. left. unfold here in *. split; congruence. }
      exists k. split; [done|]. apply here_swap; auto 7.
Qed.

Lemma put_put_swap i j x y f : single f -> here f i x -> here f j y -> i <> j -> put j x (put i y f) = swap i j x y f.
Proof.
  intros Hs Hx Hy Hij. pose proof (here_lt _ _ _ Hx) as Hli. pose proof (here_lt _ _ _ Hy) as Hlj.
  assert (x <> y) as Hxy by (intros ->; apply Hij; by apply (Hs i j y)).
  apply list_eq. intros k. unfold swap. destruct (decide (k = j)) as [-> |Hkj].
  { pose proof (put_here j x (put i y f) ltac:(by rewrite put_length)) as Hp. unfold here in Hp. rewrite Hp.
    rewrite list_lookup_insert_ne by done. by rewrite list_lookup_insert_eq. }
  rewrite put_ne by done. destruct (decide (k = i)) as [-> |Hki].
  { pose proof (put_here i y f Hli) as Hp. unfold here in Hp. rewrite Hp. rewrite list_lookup_insert_eq by (by rewrite length_insert).
    cbn. rewrite decide_False; [done|]. congruence. }
  rewrite put_ne by done. rewrite !list_lookup_insert_ne by done. destruct (f !! k) as [w|] eqn:E; [|done]. cbn.
  destruct (decide (w = Some y)) as [-> |Hwy]; [exfalso; apply Hkj; by apply (Hs k j y)|].
  rewrite decide_False; [done|]. intros ->. apply Hki. by apply (Hs k i x).
Qed.

Lemma view_swap l f i j x y a b : view l f -> here f i x -> here f j y -> i <> j -> a mod capacity l = pos l i -> b mod capacity l = pos l j ->
  exists l', (l ← lst_move a y l; lst_move b x l) = Some l' /\ view l' (swap i j x y f) /\ frame l l' /\ (forall e, ~ within f e -> index l' e = index l e).
Proof.
  intros Hv Hx Hy Hij Ha Hb. pose proof (here_lt _ _ _ Hx) as Hli. pose proof (here_lt _ _ _ Hy) as Hlj.
  destruct (view_move l f i y a Hv Hli Ha) as (l1 & -> & Hv1 & Hf1 & Hi1). cbn [mbind option_bind].
  destruct (view_move l1 _ j x b Hv1) as (l2 & -> & Hv2 & Hf2 & Hi2); [by rewrite put_length|rewrite (frame_pos _ _ j Hf1); by destruct Hf1 as (-> & _)|].
  rewrite (put_put_swap i j x y f) in Hv2 by (done || by eapply view_single). exists l2. split; [done|]. split; [done|]. split; [by eapply frame_trans|].
  intros e He. rewrite Hi2, fn_lookup_insert_ne by (intros ->; apply He; by exists i). rewrite Hi1. apply fn_lookup_insert_ne. intros ->. apply He. by exists j.
Qed.

(** ** The loops *)

Section Order.
Variable cmp : ptr -> ptr -> Z.

(** [j] is a place whose element is not after the pivot. *)
Lemma scan_down_ok l f pv j : view l f -> full f -> (forall e, here f j e -> cmp e pv <= 0) -> forall fuel b, (j < b <= length f)%nat -> (b - j <= fuel)%nat ->
  exists h, scan_down cmp fuel (idx l + Z.of_nat b) pv l = Some (idx l + Z.of_nat h) /\ (j <= h < b)%nat
    /\ (forall e, here f h e -> cmp e pv <= 0) /\ (forall k e, (h < k < b)%nat -> here f k e -> 0 <= cmp e pv).
Proof.
  intros Hv Hf Hj. pose proof (view_ring _ _ Hv) as Hr. pose proof (view_size _ _ Hv). pose proof (ring_idx l Hr).
  induction fuel as [|fuel IH]; intros b Hb Hfuel; [lia|]. cbn [scan_down].
  replace (u32 (idx l + Z.of_nat b - 1)) with (idx l + Z.of_nat (Nat.pred b)) by (rewrite (u32_offset l); [lia|done|lia]).
  destruct (Hf (Nat.pred b)) as [d Hd]; [lia|]. rewrite (view_read l f _ d _ Hv Hd eq_refl). cbn [mbind option_bind]. destruct (Z.ltb_spec 0 (cmp d pv)) as [Hc|Hc].
  - destruct (decide (j = Nat.pred b)) as [-> |Hne]; [apply Hj in Hd; lia|].
    destruct (IH (Nat.pred b)) as (h & -> & Hh & Hle & Hge); [lia|lia|]. exists h. split; [done|]. split; [lia|]. split; [done|].
    intros k e Hk He. destruct (decide (k = Nat.pred b)) as [-> |]; [|apply (Hge k); [lia|done]]. assert (e = d) as -> by (unfold here in *; congruence). lia.
  - exists (Nat.pred b). split; [done|]. split; [lia|]. split; [intros e He; assert (e = d) as -> by (unfold here in *; congruence); lia|lia].
Qed.

(** [j] is a place whose element is not before the pivot, [n] the first to look at. *)
Lemma scan_up_ok l f pv j : view l f -> full f -> (j < length f)%nat -> (forall e, here f j e -> 0 <= cmp e pv) -> forall fuel n, (n <= j)%nat -> (j - n < fuel)%nat ->
  exists k, scan_up cmp fuel (u32 (idx l + Z.of_nat n - 1)) pv l = Some (idx l + Z.of_nat k) /\ (n <= k <= j)%nat
    /\ (forall e, here f k e -> 0 <= cmp e pv) /\ (forall i e, (n <= i < k)%nat -> here f i e -> cmp e pv <= 0).
Proof.
  intros Hv Hf Hlt Hj. pose proof (view_ring _ _ Hv) as Hr. pose proof (view_size _ _ Hv). pose proof (ring_idx l Hr). pose proof (ring_cap l Hr).
  induction fuel as [|fuel IH]; intros n Hn Hfuel; [lia|]. cbn [scan_up].
  replace (u32 (u32 (idx l + Z.of_nat n - 1) + 1)) with (idx l + Z.of_nat n)
    by (unfold u32; rewrite Zplus_mod_idemp_l; rewrite Z.mod_small by lia; lia).
  destruct (Hf n) as [d Hd]; [lia|]. rewrite (view_read l f _ d _ Hv Hd eq_refl). cbn [mbind option_bind]. destruct (Z.ltb_spec (cmp d pv) 0) as [Hc|Hc].
  - destruct (decide (j = n)) as [-> |Hne]; [apply Hj in Hd; lia|].
    destruct (IH (S n)) as (k & E & Hk & Hge & Hle); [lia|lia|].
    replace (u32 (idx l + Z.of_nat (S n) - 1)) with (idx l + Z.of_nat n) in E by (rewrite (u32_offset l); [lia|done|lia]). rewrite E.
    exists k. split; [done|]. split; [lia|]. split; [done|].
    intros i e Hi He. destruct (decide (i = n)) as [-> |]; [|apply (Hle i); [lia|done]]. assert (e = d) as -> by (unfold here in *; congruence). lia.
  - exists n. split; [done|]. split; [lia|]. split; [intros e He; assert (e = d) as -> by (unfold here in *; congruence); lia|lia].
Qed.

(** What the loop leaves: nothing after the pivot up to [h], nothing before it
    from there to [o]. *)
Definition divided (o h : nat) (pv : ptr) (f : places) : Prop :=
  (h < o)%nat /\ (forall j e, (j <= h)%nat -> here f j e -> cmp e pv <= 0) /\ (forall j e, (h < j < o)%nat -> here f j e -> 0 <= cmp e pv).

(** The places before [n] and those from [b] on are done; [j] and [k] are places
    where the two scans stop. *)
Lemma hoare_loop_ok o pv : forall fuel l f n b j k, view l f -> full f -> num_elements l = Z.of_nat (length f) -> (b <= o <= length f)%nat -> (b < fuel)%nat ->
  (forall i e, (i < n)%nat -> here f i e -> cmp e pv <= 0) -> (forall i e, (b <= i < o)%nat -> here f i e -> 0 <= cmp e pv) ->
  (j < b)%nat -> (forall e, here f j e -> cmp e pv <= 0) -> (n <= k < o)%nat -> (forall e, here f k e -> 0 <= cmp e pv) ->
  exists h l' f', hoare_loop cmp fuel (u32 (idx l + Z.of_nat n - 1)) (idx l + Z.of_nat b) pv l = Some (idx l + Z.of_nat h, l')
    /\ view l' f' /\ frame l l' /\ permuted o f f' /\ divided o h pv f' /\ (forall e, ~ within f e -> index l' e = index l e).
Proof.
  induction fuel as [|fuel IH]; intros l f n b j k Hv Hf Hnum Ho Hfuel Hlow Hhigh Hj Hjle Hk Hkge; [lia|]. cbn [hoare_loop].
  destruct (scan_down_ok l f pv j Hv Hf Hjle (S (Z.to_nat (num_elements l))) b) as (h & -> & Hh & Hhle & Hhge); [lia|lia|].
  destruct (scan_up_ok l f pv k Hv Hf ltac:(lia) Hkge (S (Z.to_nat (num_elements l))) n) as (m & -> & Hm & Hmge & Hmle); [lia|lia|].
  cbn [mbind option_bind]. destruct (Z.leb_spec (idx l + Z.of_nat h) (idx l + Z.of_nat m)) as [Hc|Hc].
  - exists h, l, f. split; [done|]. split; [done|]. split; [by repeat split|]. split; [apply permuted_refl|]. split; [|done]. split; [lia|]. split.
    + intros i e Hi He. destruct (decide (i = h)) as [-> |]; [by apply Hhle|]. destruct (decide (i < n)%nat); [by apply (Hlow i)|]. apply (Hmle i); [lia|done].
    + intros i e Hi He. destruct (decide (i < b)%nat); [apply (Hhge i); [lia|done]|]. apply (Hhigh i); [lia|done].
  - destruct (Hf m) as [x Hx]; [lia|]. destruct (Hf h) as [y Hy]; [lia|].
    rewrite (view_read l f _ x _ Hv Hx eq_refl), (view_read l f _ y _ Hv Hy eq_refl). cbn [mbind option_bind].
    destruct (view_swap l f m h x y (idx l + Z.of_nat m) (idx l + Z.of_nat h) Hv Hx Hy ltac:(lia) eq_refl eq_refl) as (l1 & E & Hv1 & Hf1 & Hi1).
    destruct (lst_move (idx l + Z.of_nat m) y l) as [l0|]; [|done]. cbn [mbind option_bind] in E |- *. rewrite E. cbn [mbind option_bind].
    pose proof (swap_permuted o m h x y f Hx Hy ltac:(lia) ltac:(lia) ltac:(lia)) as Hp. destruct Hf1 as (Ec & Ei & En & Er).
    assert (forall q e, here (swap m h x y f) q e -> (q = m /\ e = y) \/ (q = h /\ e = x) \/ (q <> m /\ q <> h /\ here f q e)) as Hsw
      by (intros q e; apply here_swap; lia).
    assert (idx l + Z.of_nat m = u32 (idx l1 + Z.of_nat (S m) - 1)) as ->.
    { rewrite (u32_offset l); [lia|apply Hv|]. pose proof (view_size _ _ Hv). pose proof (ring_idx l (view_ring _ _ Hv)). lia. }
    rewrite <- Ei.
    destruct (IH l1 (swap m h x y f) (S m) h m h) as (h' & l' & f' & E' & Hv' & Hf' & Hp' & Hd' & Hi'); try done.
    + by apply Hp.
    + rewrite swap_length. lia.
    + rewrite swap_length. lia.
    + lia.
    + intros q e Hq He. destruct (Hsw q e He) as [[-> ->]|[[-> ->]|(Hqm & Hqh & He')]]; [by apply Hhle|lia|].
      destruct (decide (q < n)%nat); [by apply (Hlow q)|]. apply (Hmle q); [lia|done].
    + intros q e Hq He. destruct (Hsw q e He) as [[-> ->]|[[-> ->]|(Hqm & Hqh & He')]]; [lia|by apply Hmge|].
      destruct (decide (q < b)%nat); [apply (Hhge q); [lia|done]|]. apply (Hhigh q); [lia|done].
    + lia.
    + intros e He. destruct (Hsw m e He) as [[_ ->]|[[? _]|(? & _)]]; [by apply Hhle|lia|done].
    + lia.
    + intros e He. destruct (Hsw h e He) as [[? _]|[[_ ->]|(_ & ? & _)]]; [lia|by apply Hmge|done].
    + exists h', l', f'. rewrite E', Ei. split; [done|]. split; [done|]. split; [by eapply frame_trans|]. split; [by eapply permuted_trans|]. split; [done|].
      intros e He. rewrite Hi', Hi1; [done..|]. by rewrite (permuted_within o f).
Qed.

(** ** Placing the pivot *)

(** The pivot is at [t]. *)
Definition around (o t : nat) (pv : ptr) (f : places) : Prop :=
  (t < o)%nat /\ here f t pv /\ forall j e, here f j e -> ((j < t)%nat -> cmp e pv <= 0) /\ ((t < j < o)%nat -> 0 <= cmp e pv).

Lemma put_same f c d : single f -> here f c d -> put c d f = f.
Proof.
  intros Hs Hc. pose proof (here_lt _ _ _ Hc) as Hl. apply list_eq. intros k. destruct (decide (k = c)) as [-> |Hk].
  - by rewrite (put_here c d f Hl).
  - rewrite put_ne by done. destruct (f !! k) as [w|] eqn:E; [|done]. cbn. rewrite decide_False; [done|]. intros ->. apply Hk. by apply (Hs k c d).
Qed.

Lemma place_pivot_ok l f c t pv y : view l f -> here f c pv -> here f t y ->
  exists l' f', place_pivot (idx l + Z.of_nat c) (idx l + Z.of_nat t) pv l = Some l' /\ view l' f' /\ frame l l'
    /\ (forall e, ~ within f e -> index l' e = index l e) /\ f' = (if decide (c = t) then f else swap c t pv y f).
Proof.
  intros Hv Hc Ht. unfold place_pivot. rewrite (view_read l f _ y _ Hv Ht eq_refl). cbn [mbind option_bind]. pose proof (view_single _ _ Hv) as Hs.
  case_decide as E.
  - subst t. assert (y = pv) as -> by (unfold here in *; congruence).
    destruct (view_move l f c pv _ Hv (here_lt _ _ _ Hc) eq_refl) as (l1 & -> & Hv1 & Hf1 & Hi1). rewrite put_same in Hv1 by done. cbn [mbind option_bind].
    destruct (view_move l1 f c pv (idx l + Z.of_nat c) Hv1 (here_lt _ _ _ Hc)) as (l2 & -> & Hv2 & Hf2 & Hi2);
      [unfold pos; by destruct Hf1 as (-> & -> & _)|]. rewrite put_same in Hv2 by done. exists l2, f. split; [done|]. split; [done|]. split; [by eapply frame_trans|].
    split; [|done]. intros e He. assert (e <> pv) by (intros ->; apply He; by exists c). rewrite Hi2, fn_lookup_insert_ne, Hi1 by done. by apply fn_lookup_insert_ne.
  - destruct (view_swap l f c t pv y _ _ Hv Hc Ht E eq_refl eq_refl) as (l' & E' & Hv' & Hf' & Hi'). exists l', (swap c t pv y f). by rewrite E'.
Qed.

(** The two conditional exchanges after the loop. *)
Lemma place_ok l f o h c pv : view l f -> full f -> (o <= length f)%nat -> divided o h pv f -> (c < o)%nat -> here f c pv ->
  exists t l' f',
    (l1 ← (if idx l + Z.of_nat c <? idx l + Z.of_nat h then place_pivot (idx l + Z.of_nat c) (idx l + Z.of_nat h) pv l else Some l);
     if idx l + Z.of_nat h <? idx l + Z.of_nat c
     then l2 ← place_pivot (idx l + Z.of_nat c) (u32 (idx l + Z.of_nat h + 1)) pv l1; Some (u32 (idx l + Z.of_nat h + 1), l2)
     else Some (idx l + Z.of_nat h, l1)) = Some (idx l + Z.of_nat t, l')
    /\ view l' f' /\ frame l l' /\ (forall e, ~ within f e -> index l' e = index l e) /\ permuted o f f' /\ around o t pv f'.
Proof.
  intros Hv Hf Ho (Hh & Hle & Hge) Hc Hpv. pose proof (view_size _ _ Hv) as Hsz. pose proof (ring_idx l (view_ring _ _ Hv)) as Hix.
  assert (u32 (idx l + Z.of_nat h + 1) = idx l + Z.of_nat (S h)) as Eu by (rewrite (u32_offset l); [lia|apply Hv|lia]).
  destruct (lt_eq_lt_dec c h) as [[Hch| ->]|Hch].
  - destruct (Hf h) as [y Hy]; [lia|]. destruct (place_pivot_ok l f c h pv y Hv Hpv Hy) as (l' & f' & E & Hv' & Hf' & Hi' & ->).
    rewrite (proj2 (Z.ltb_lt (idx l + Z.of_nat c) _)), (proj2 (Z.ltb_ge (idx l + Z.of_nat h) _)) by lia. rewrite E. cbn [mbind option_bind].
    rewrite decide_False in Hv' by lia.
    exists h, l', (swap c h pv y f). split; [done|]. split; [done|]. split; [done|]. split; [done|]. split; [apply swap_permuted; (done || lia)|]. split; [lia|].
    split; [apply here_swap; [lia|lia|lia|auto]|]. intros j e He.
    apply here_swap in He as [[-> ->]|[[-> ->]|(_ & _ & He)]]; [| | |lia|lia|lia]; split; intros; try lia; [by apply (Hle h)|apply (Hle j); [lia|done]|by apply (Hge j)].
  - rewrite Z.ltb_irrefl. cbn [mbind option_bind]. exists h, l, f. split; [done|]. split; [done|]. split; [by repeat split|]. split; [done|].
    split; [apply permuted_refl|]. split; [done|]. split; [done|]. intros j e He. split; intros; [apply (Hle j); [lia|done]|by apply (Hge j)].
  - destruct (Hf (S h)) as [y Hy]; [lia|]. destruct (place_pivot_ok l f c (S h) pv y Hv Hpv Hy) as (l' & f' & E & Hv' & Hf' & Hi' & ->).
    rewrite (proj2 (Z.ltb_ge (idx l + Z.of_nat c) _)), (proj2 (Z.ltb_lt (idx l + Z.of_nat h) _)) by lia. cbn [mbind option_bind]. rewrite Eu, E. cbn [mbind option_bind].
    exists (S h), l'. case_decide as Ec.
    + subst c. exists f. split; [done|]. split; [done|]. split; [done|]. split; [done|]. split; [apply permuted_refl|]. split; [lia|]. split; [done|].
      intros j e He. split; intros; [apply (Hle j); [lia|done]|apply (Hge j); [lia|done]].
    + exists (swap c (S h) pv y f). split; [done|]. split; [done|]. split; [done|]. split; [done|]. split; [apply swap_permuted; (done || lia)|]. split; [lia|].
      split; [apply here_swap; [lia|lia|lia|auto]|]. intros j e He.
      apply here_swap in He as [[-> ->]|[[-> ->]|(_ & _ & He)]]; [| | |lia|lia|lia]; split; intros; try lia;
        [apply (Hge (S h)); [lia|done]|apply (Hle j); [lia|done]|apply (Hge j); [lia|done]].
Qed.

(** The place of the pivot, from its field. *)
Lemma pivot_place l f c pv o : view l f -> here f c pv -> (c < o <= length f)%nat ->
  (if index_reduce l (idx l) <=? item_index pv l then u32 (idx l + item_index pv l - index_reduce l (idx l))
   else u32 (idx l + Z.of_nat (Nat.pred o) - (index_reduce l (idx l + Z.of_nat (Nat.pred o)) - item_index pv l))) = idx l + Z.of_nat c.
Proof.
  intros Hv Hc Ho. pose proof (view_ring _ _ Hv) as Hr. pose proof (view_size _ _ Hv) as Hs. pose proof (ring_idx l Hr) as Hx. pose proof (ring_cap l Hr) as Hcap.
  pose proof (pos_range l c Hr) as Hp. unfold item_index. rewrite (proj2 (view_item _ _ Hv c pv Hc)). rewrite (u32_id (pos l c + 1 - 1)) by (red; lia).
  rewrite !index_reduce_mod by done. rewrite (Z.mod_small (idx l)) by lia. unfold pos in *.
  destruct (decide (idx l + Z.of_nat c < capacity l)) as [Hw|Hw].
  - rewrite (Z.mod_small (idx l + Z.of_nat c)) by lia. rewrite (proj2 (Z.leb_le _ _)) by lia. rewrite u32_id by (red; lia). lia.
  - replace ((idx l + Z.of_nat c) mod capacity l) with (idx l + Z.of_nat c - capacity l)
      by (symmetry; rewrite <- (Z.mod_small (idx l + Z.of_nat c - capacity l) (capacity l)) by lia; rewrite Zminus_mod, Z.mod_same, Z.sub_0_r, Z.mod_mod by lia; done).
    replace ((idx l + Z.of_nat (Nat.pred o)) mod capacity l) with (idx l + Z.of_nat (Nat.pred o) - capacity l)
      by (symmetry; rewrite <- (Z.mod_small (idx l + Z.of_nat (Nat.pred o) - capacity l) (capacity l)) by lia; rewrite Zminus_mod, Z.mod_same, Z.sub_0_r, Z.mod_mod by lia; done).
    rewrite (proj2 (Z.leb_gt _ _)) by lia. rewrite u32_id by (red; lia). lia.
Qed.

(** ** partition *)

Context `{!LstOrder cmp}.

Lemma ord_push l f O i o t pv g : inv cmp l f O -> length O = s_depth l -> s_depth l = S i -> O !! i = Some o -> permuted o f g -> around o t pv g ->
  ord cmp (S (s_depth l)) g (O ++ [t]).
Proof.
  intros HI Hlen HD Ho Hp (Ht & Hpv & Har) j Hj.
  assert (forall k e, here g k e -> exists k', here f k' e /\ ((k < o)%nat -> (k' < o)%nat) /\ ((o <= k)%nat -> k' = k)) as Hback.
  { intros k e He. destruct (decide (k < o)%nat) as [Hk|Hk].
    - destruct (proj1 (pe_among _ _ _ Hp e)) as (k' & Hk' & He'); [by exists k|]. exists k'. split; [done|]. lia.
    - exists k. split; [apply (pe_rest _ _ _ Hp); [lia|done]|]. lia. }
  assert (forall d, (1 <= d < s_depth l)%nat -> exists c pd, O !! d = Some c /\ (o <= c)%nat /\ here g c pd
    /\ forall k e, here g k e -> ((k < c)%nat -> cmp e pd <= 0) /\ ((c < k)%nat -> cmp pd e <= 0)) as Hold.
  { intros d Hd. destruct (inv_ord _ _ _ _ HI d Hd) as (c & pd & HO & Hpd & Hord).
    assert (o <= c)%nat as Hoc by (destruct (decide (d = i)) as [-> |]; [naive_solver lia|pose proof (dec_lt O d i c o (inv_dec _ _ _ _ HI) ltac:(lia) HO Ho); lia]).
    exists c, pd. split; [done|]. split; [done|]. split; [by apply (pe_rest _ _ _ Hp)|]. intros k e He. destruct (Hback k e He) as (k' & He' & Hlt & Hge).
    pose proof (Hord k' e He') as [Hl Hg]. split; intros; [apply Hl|apply Hg]; destruct (decide (k < o)%nat); lia. }
  destruct (decide (j = s_depth l)) as [-> |Hne].
  - exists t, pv. rewrite lookup_app_r by lia. rewrite Hlen, Nat.sub_diag. split; [done|]. split; [done|]. intros k e He. split; [by apply Har|].
    intros Hk. destruct (decide (k < o)%nat); [apply cmp_swap, (Har k); [done|lia]|].
    destruct i as [|i]. { rewrite (inv_bottom _ _ _ _ HI) in Ho. injection Ho as <-. apply here_lt in He. rewrite (pe_length _ _ _ Hp) in He. lia. }
    destruct (Hold (S i)) as (c & pd & HO & Hoc & Hpd & Hord); [lia|]. rewrite Ho in HO. injection HO as <-.
    pose proof (proj1 (Hord t pv Hpv) Ht). destruct (decide (k = o)) as [-> |]; [assert (e = pd) as -> by (unfold here in *; congruence); done|].
    apply cmp_le_trans with pd; [done|]. apply (Hord k e He). lia.
  - destruct (Hold j) as (c & pd & HO & _ & Hpd & Hord); [lia|]. exists c, pd. by rewrite lookup_app_l by lia.
Qed.

(** The offset of the pivot goes on the stack. *)
Lemma push_ok l f O i o l' g t pv : inv cmp l f O -> length O = s_depth l -> s_depth l = S i -> O !! i = Some o -> permuted o f g -> around o t pv g ->
  view l' g -> capacity l' = capacity l -> idx l' = idx l -> num_elements l' = num_elements l -> s_depth l' = s_depth l -> s_data l' = s_data l ->
  (forall e, ~ within f e -> index l' e = index l e) ->
  let l2 := snd (stack_push true (idx l + Z.of_nat t) l') in
  inv cmp l2 g (O ++ [t]) /\ s_depth l2 = S (s_depth l).
Proof.
  intros HI Hlen HD Ho Hp Har Hv Ec Ei En Ed Es Hix. pose proof (proj1 Har) as Ht. pose proof HI as [_ Hf Hnum Hs H0 Hdec Hord Hdep Hidx].
  assert (s_depth l <= length (s_data l))%nat as Hroom.
  { rewrite <- Hlen. destruct (lookup_lt_is_Some_2 O (Nat.pred (length O))) as [x Hx]; [lia|]. apply Hs in Hx as [Hx _]. unfold stack_item in Hx.
    destruct (s_data l !! Nat.pred (length O)) eqn:E; [|done]. apply lookup_lt_Some in E. lia. }
  unfold stack_push. rewrite andb_false_r. cbn [snd].
  set (l1 := if (s_depth l' =? length (s_data l'))%nat then _ else l').
  assert (capacity l1 = capacity l /\ idx l1 = idx l /\ num_elements l1 = num_elements l /\ s_depth l1 = s_depth l /\ p l1 = p l' /\ index l1 = index l'
    /\ (s_depth l < length (s_data l1))%nat /\ forall d x, s_data l !! d = Some x -> s_data l1 !! d = Some x) as (E1 & E2 & E3 & E4 & E5 & E6 & E7 & E8).
  { subst l1. destruct (Nat.eqb_spec (s_depth l') (length (s_data l'))) as [E|E]; set_fields; rewrite ?length_app, ?length_replicate, Es in *; repeat (split; [done || lia|]).
    - intros d x Hd. by apply lookup_app_l_Some.
    - done. }
  clearbody l1. assert (view l1 g) as Hv1 by (apply (view_ext l'); congruence). set_fields. split; [|by rewrite E4]. split; set_fields; try done.
  - by apply (view_ext l1).
  - by apply Hp.
  - rewrite E3, (pe_length _ _ _ Hp). done.
  - intros d x Hd. unfold stack_item. set_fields. rewrite E1, E2, E4. apply lookup_app_Some in Hd as [Hd|[Hge Hd]].
    + pose proof (lookup_lt_Some _ _ _ Hd) as Hlt. rewrite list_lookup_insert_ne by lia. destruct (Hs d x Hd) as [Hst Hle]. split; [|done].
      unfold stack_item in Hst. destruct (s_data l !! d) as [w|] eqn:E; [|done]. cbn in Hst. subst w. by rewrite (E8 _ _ E).
    + apply list_lookup_singleton_Some in Hd as [Hd <-]. replace d with (s_depth l) by lia. rewrite list_lookup_insert_eq by done. split; [done|].
      pose proof (here_lt _ _ _ (proj1 (proj2 Har))). pose proof (view_size _ _ Hv1). rewrite E1 in *. lia.
  - rewrite lookup_app_l by lia. by rewrite (pe_length _ _ _ Hp).
  - intros d a b Ha Hb. apply lookup_app_Some in Hb as [Hb|[Hge Hb]].
    + rewrite lookup_app_l in Ha by (apply lookup_lt_Some in Hb; lia). by apply (Hdec d).
    + apply list_lookup_singleton_Some in Hb as [Hb <-]. rewrite lookup_app_l in Ha by lia. assert (d = i) as -> by lia. rewrite Ho in Ha. injection Ha as <-. done.
  - rewrite E4. by eapply ord_push.
  - rewrite length_app, E4. cbn. lia.
  - intros e. rewrite E6. intros He. rewrite (permuted_within o f g e Hp). destruct (decide (within f e)) as [|Hw]; [done|]. rewrite Hix in He by done. by apply Hidx.
Qed.

(** The chosen pivot goes to the left end. *)
Lemma first_ok l f o c pv : view l f -> full f -> (c < o <= length f)%nat -> here f c pv ->
  exists l' f', (if idx l + Z.of_nat c =? idx l then Some l else d ← item l (idx l); l1 ← lst_move (idx l + Z.of_nat c) d l; lst_move (idx l) pv l1) = Some l'
    /\ view l' f' /\ frame l l' /\ (forall e, ~ within f e -> index l' e = index l e) /\ permuted o f f' /\ here f' 0 pv.
Proof.
  intros Hv Hf Hc Hpv. destruct (Z.eqb_spec (idx l + Z.of_nat c) (idx l)) as [E|E].
  - assert (c = 0%nat) as -> by lia. exists l, f. split; [done|]. split; [done|]. split; [by repeat split|]. split; [done|]. split; [apply permuted_refl|done].
  - destruct (Hf 0%nat) as [y Hy]; [lia|]. rewrite (view_read l f 0 y _ Hv Hy) by (unfold pos; f_equal; lia). cbn [mbind option_bind].
    destruct (view_swap l f c 0 pv y (idx l + Z.of_nat c) (idx l) Hv Hpv Hy ltac:(lia) eq_refl) as (l1 & E1 & Hv1 & Hf1 & Hi1); [unfold pos; f_equal; lia|].
    exists l1, (swap c 0 pv y f). split; [done|].
    split; [done|]. split; [done|]. split; [done|]. split; [apply swap_permuted; (done || lia)|]. apply here_swap; [lia|lia|lia|auto].
Qed.

Lemma divide_ok l f o pv : view l f -> full f -> num_elements l = Z.of_nat (length f) -> (1 <= o <= length f)%nat -> here f 0 pv ->
  exists t l' f', divide cmp (idx l) (idx l + Z.of_nat (Nat.pred o)) pv l = Some (idx l + Z.of_nat t, l')
    /\ view l' f' /\ frame l l' /\ (forall e, ~ within f e -> index l' e = index l e) /\ permuted o f f' /\ around o t pv f'.
Proof.
  intros Hv Hf Hnum Ho Hpv. pose proof (view_ring _ _ Hv) as Hr. pose proof (view_size _ _ Hv) as Hsz. pose proof (ring_idx l Hr) as Hx. unfold divide.
  replace (u32 (idx l + Z.of_nat (Nat.pred o) + 1)) with (idx l + Z.of_nat o) by (rewrite (u32_offset l); [lia|done|lia]).
  replace (u32 (idx l - 1)) with (u32 (idx l + Z.of_nat 0 - 1)) by (f_equal; lia).
  destruct (hoare_loop_ok o pv (S (Z.to_nat (num_elements l))) l f 0 o 0 0) as (h & l2 & f2 & -> & Hv2 & Hf2 & Hp2 & Hd2 & Hi2); try done; try lia.
  1,2: intros e He; assert (e = pv) as -> by (unfold here in *; congruence); by rewrite cmp_self.
  cbn [mbind option_bind]. assert (idx l2 = idx l) as Ei by apply Hf2.
  destruct (proj2 (pe_among _ _ _ Hp2 pv)) as (c & Hc & Hpv2); [exists 0%nat; split; [lia|done]|].
  rewrite <- Ei, (pivot_place l2 f2 c pv o Hv2 Hpv2) by (rewrite (pe_length _ _ _ Hp2); lia).
  destruct (place_ok l2 f2 o h c pv Hv2) as (t & l3 & f3 & E3 & Hv3 & Hf3 & Hi3 & Hp3 & Har); try done; [by apply Hp2|rewrite (pe_length _ _ _ Hp2); lia|].
  exists t, l3, f3. split; [done|]. split; [done|]. split; [by eapply frame_trans|]. split; [|by split; [eapply permuted_trans|]].
  intros e He. rewrite Hi3, Hi2; [done..|]. by rewrite (permuted_within o f f2).
Qed.

Lemma fr_fast_rand_nonneg ctx : 0 <= (fr_fast_rand ctx).1.
Proof. cbn. apply u32_range. Qed.

Lemma partition_ok l f O i o : inv cmp l f O -> length O = s_depth l -> s_depth l = S i -> O !! i = Some o -> (1 <= o)%nat ->
  exists l' g t, partition cmp true i l = Some l' /\ inv cmp l' g (O ++ [t]) /\ (t < o)%nat /\ s_depth l' = S (S i) /\ length g = length f
    /\ forall e, within g e <-> within f e.
Proof.
  intros HI Hlen HD Ho H1. pose proof (inv_view _ _ _ _ HI) as Hv. pose proof (inv_full _ _ _ _ HI) as Hf. pose proof (inv_num _ _ _ _ HI) as Hnum.
  pose proof (view_ring _ _ Hv) as Hr. pose proof (view_size _ _ Hv) as Hsz. pose proof (ring_idx l Hr) as Hx. pose proof (ring_cap l Hr) as Hc.
  assert (o <= length f)%nat as Hof.
  { destruct i; [rewrite (inv_bottom _ _ _ _ HI) in Ho; injection Ho; lia|]. pose proof (dec_lt O 0 (S i) _ _ (inv_dec _ _ _ _ HI) ltac:(lia) (inv_bottom _ _ _ _ HI) Ho). lia. }
  unfold partition, bucket_lwb, bucket_upb, is_bucket. rewrite HD, Nat.eqb_refl. cbn [mbind option_bind].
  rewrite (stk_at l O i o (inv_stk _ _ _ _ HI) Ho). cbn [mbind option_bind].
  replace (u32 (idx l + Z.of_nat o - 1)) with (idx l + Z.of_nat (Nat.pred o)) by (rewrite (u32_offset l); [lia|done|lia]).
  rewrite equivalent_mod by done. change ((idx l + Z.of_nat (Nat.pred o)) mod capacity l) with (pos l (Nat.pred o)).
  replace (idx l mod capacity l) with (pos l 0) by (unfold pos; f_equal; lia). case_bool_decide as E.
  - apply (pos_inj l) in E; [|done|lia|lia]. assert (o = 1%nat) as -> by lia. destruct (Hf 0%nat) as [pv Hpv]; [lia|].
    destruct (push_ok l f O i 1 l f 0 pv HI Hlen HD Ho (permuted_refl 1 f)) as (HI' & HD'); try done.
    { split; [lia|]. split; [done|]. intros; lia. }
    rewrite Z.add_0_r in *. eexists _, f, 0%nat. split; [done|]. split; [done|]. split; [lia|]. split; [by rewrite HD', HD|]. done.
  - destruct (fr_fast_rand (rand_ctx l)) as [r ctx] eqn:Er. pose proof (fr_fast_rand_nonneg (rand_ctx l)) as Hr0. rewrite Er in Hr0. cbn [fst] in Hr0.
    replace (u32 (idx l + Z.of_nat (Nat.pred o) + 1 - idx l)) with (Z.of_nat o) by (rewrite u32_id; [lia|red; lia]).
    pose proof (Z.mod_pos_bound r (Z.of_nat o) ltac:(lia)) as Hmod. set (c := Z.to_nat (r mod Z.of_nat o)).
    replace (u32 (idx l + r mod Z.of_nat o)) with (idx l + Z.of_nat c) by (rewrite (u32_offset l); [lia|done|lia]).
    destruct (Hf c) as [pv Hpv]; [lia|]. assert (c < o)%nat as Hco by lia. clearbody c. clear Hmod Er.
    set (l0 := l <| rand_ctx := ctx |>). assert (view l0 f) as Hv0 by (by apply (view_ext l)).
    rewrite (view_read l0 f c pv (idx l + Z.of_nat c) Hv0 Hpv eq_refl). cbn [mbind option_bind].
    destruct (first_ok l0 f o c pv Hv0 Hf ltac:(lia) Hpv) as (l1 & f1 & E1 & Hv1 & Hf1 & Hi1 & Hp1 & Hpv1). change (idx l0) with (idx l) in E1.
    rewrite E1. cbn [mbind option_bind]. clear E1. destruct Hf1 as (Ec1 & Ei1 & En1 & Ed1 & Es1 & Er1).
    assert (idx l1 = idx l) as Ei by exact Ei1. rewrite <- Ei. pose proof (pe_length _ _ _ Hp1) as Hl1.
    destruct (divide_ok l1 f1 o pv Hv1) as (t & l2 & f2 & -> & Hv2 & (Ec2 & Ei2 & En2 & Ed2 & Es2 & Er2) & Hi2 & Hp2 & Har); [by apply Hp1|by rewrite En1, Hl1|lia|done|].
    cbn [mbind option_bind]. pose proof (permuted_trans _ _ _ _ Hp1 Hp2) as Hp. rewrite Ei.
    destruct (push_ok l f O i o l2 f2 t pv HI Hlen HD Ho Hp Har Hv2) as (HI' & HD'); [by etrans..| |].
    { intros e He. rewrite Hi2, Hi1; [done..|]. by rewrite (permuted_within o f f1). }
    eexists _, f2, t. split; [done|]. split; [done|]. split; [apply Har|]. split; [by rewrite HD', HD|]. split; [apply Hp|]. intros e. by apply permuted_within with o.
Qed.
End Order.
End LstPartition.
