(* ===== verification/LstExpand.v ===== *)
(** Creating a tree (Lst) and doubling its array: the elements before [idx] move
    behind the old array, and the view from [idx] on stays what it is. *)

From stdpp Require Import functions.
From S2P Require Import Prelude Rand Lst LstView LstRing LstMove LstBucket.

Module LstExpand.
Import Rand Lst LstView LstRing LstMove LstBucket.

(** ** Doubling *)

(** Where the element at offset [j] is when the first [k] items have moved behind
    the [old] ones. *)
Definition loc (l : fr_lst_t) (old k : Z) (j : nat) : Z :=
  let a := idx l + Z.of_nat j in if a <? old then a else if a - old <? k then a else a - old.

(** The middle of the loop of lst_expand. *)
Record expanding (l : fr_lst_t) (f : places) (old k : Z) : Prop := {
  ex_pow : exists e, 0 <= e <= 30 /\ old = 2 ^ e;
  ex_capacity : capacity l = 2 * old;
  ex_size : length (p l) = Z.to_nat (2 * old);
  ex_idx : 0 <= idx l < old;
  ex_full : full f;
  ex_length : Z.of_nat (length f) = old;
  ex_item : forall j d, here f j d -> p l !! Z.to_nat (loc l old k j) = Some (Ptr d) /\ index l d = loc l old k j + 1
}.

Lemma expanding_ring l f old k : expanding l f old k -> ring l.
Proof.
  intros [(e & He & ->) Hc Hs Hi _ _ _]. split; [exists (e + 1); split; [lia|]; rewrite Hc, Z.pow_add_r by lia; lia|by rewrite Hc|]. rewrite Hc. lia.
Qed.

Lemma expand_step l f old k : expanding l f old k -> 0 <= k < idx l ->
  exists d l', item l k = Some d /\ lst_move (u32 (item_index d l + old)) d l = Some l' /\ expanding l' f old (k + 1) /\ frame l l'
    /\ within f d /\ forall e, e <> d -> index l' e = index l e.
Proof.
  intros HE Hk. pose proof (expanding_ring _ _ _ _ HE) as Hr. pose proof HE as [Hp Hc Hs Hi Hf Hl Hit].
  assert (1 <= old <= 2 ^ 30) as Hold by (destruct Hp as (e & He & ->); split; [change 1 with (2 ^ 0)|]; apply Z.pow_le_mono_r; lia).
  set (j := Z.to_nat (k + old - idx l)). destruct (Hf j) as [d Hd]; [lia|]. assert (loc l old k j = k) as Ej by (unfold loc; repeat case_if; lia).
  exists d. unfold item, lst_move, item_index. rewrite !index_reduce_mod by done. destruct (Hit j d Hd) as [Hpd Hid]. rewrite Ej in Hpd, Hid.
  rewrite (Z.mod_small k) by lia. rewrite Hpd, Hid. rewrite (u32_id (k + 1 - 1)) by (red; lia). rewrite (u32_id (k + 1 - 1 + old)) by (red; lia).
  rewrite (Z.mod_small (k + 1 - 1 + old)) by lia. rewrite Hs, (proj2 (Nat.ltb_lt _ _)) by lia. eexists. split; [done|]. split; [done|]. split.
  - split; try done; set_fields; [by rewrite length_insert|]. intros j' d' Hd'. rewrite u32_id by (red; lia).
    change (loc _ old (k + 1) j') with (loc l old (k + 1) j'). destruct (Hit j' d' Hd') as [Hpd' Hid']. pose proof (here_lt _ _ _ Hd'). destruct (decide (j' = j)) as [-> |Hne].
    + assert (d' = d) as -> by (unfold here in *; congruence). rewrite fn_lookup_insert. assert (loc l old (k + 1) j = k + old) as -> by (unfold loc; repeat case_if; lia).
      replace (k + 1 - 1 + old) with (k + old) by lia. split; [|done]. apply list_lookup_insert_eq. lia.
    + assert (loc l old (k + 1) j' = loc l old k j') as -> by (unfold loc; repeat case_if; lia).
      assert (0 <= loc l old k j' /\ loc l old k j' <> k /\ loc l old k j' <> k + old) as (H0 & H1 & H2) by (unfold loc; repeat case_if; lia).
      rewrite list_lookup_insert_ne by lia. rewrite fn_lookup_insert_ne by (intros ->; lia). done.
  - split; [by repeat split|]. split; [by exists j|]. intros e He. set_fields. by apply fn_lookup_insert_ne.
Qed.

Lemma expand_loop_ok n : forall l f old k, expanding l f old k -> 0 <= k -> k + Z.of_nat n = idx l ->
  exists l', expand_loop n k old l = Some l' /\ expanding l' f old (idx l) /\ frame l l' /\ forall e, ~ within f e -> index l' e = index l e.
Proof.
  induction n as [|n IH]; intros l f old k HE Hk Hn; cbn [expand_loop].
  - exists l. replace (idx l) with k by lia. split; [done|]. split; [done|]. split; [by repeat split|done].
  - destruct (expand_step l f old k HE ltac:(lia)) as (d & l1 & -> & E & HE1 & Hf1 & Hd & Hi1). cbn [mbind option_bind]. rewrite E. cbn [mbind option_bind].
    assert (idx l1 = idx l) as Ei by apply Hf1. destruct (IH l1 f old (k + 1) HE1 ltac:(lia) ltac:(lia)) as (l' & -> & HE' & Hf' & Hi').
    rewrite Ei in HE'. exists l'. split; [done|]. split; [done|]. split; [by eapply frame_trans|]. intros e He. rewrite Hi', Hi1; [done| |done]. by intros ->.
Qed.

Section Order.
Variable cmp : ptr -> ptr -> Z.

Lemma lst_expand_ok l f O : inv cmp l f O -> length O = s_depth l -> num_elements l = capacity l -> capacity l <= 2 ^ 30 ->
  exists l', lst_expand true l = Some (Some l') /\ inv cmp l' f O /\ s_depth l' = s_depth l /\ capacity l' = 2 * capacity l.
Proof.
  intros HI Hlen Hfull Hcap. pose proof HI as [Hv Hf Hn Hs H0 Hd Ho HD Hix]. pose proof (view_ring _ _ Hv) as Hr. pose proof (ring_idx l Hr) as Hx.
  pose proof (ring_cap l Hr) as Hc. pose proof (view_size _ _ Hv) as Hsz.
  unfold lst_expand. rewrite (proj2 (Z.ltb_ge _ _)) by lia. cbn [andb negb]. cbv zeta.
  set (l0 := lst_indices_reduce _). assert (idx l0 = idx l) as Ei.
  { subst l0. unfold lst_indices_reduce, index_reduce. set_fields. destruct (ring_pow l Hr) as (e & He & E). replace (u32 (capacity l * 2 - 1)) with (Z.ones (e + 1))
      by (rewrite u32_id by (red; lia); rewrite Z.ones_equiv, Z.pow_add_r, E by lia; lia).
    rewrite Z.land_ones by lia. apply Z.mod_small. rewrite Z.pow_add_r by lia. lia. }
  assert (expanding l0 f (capacity l) 0) as HE.
  { split; try done.
    - destruct (ring_pow l Hr) as (e & He & E). exists e. split; [|done]. split; [lia|]. rewrite E in Hcap. by apply Z.pow_le_mono_r_iff in Hcap; lia.
    - subst l0. unfold lst_indices_reduce. set_fields. lia.
    - subst l0. unfold lst_indices_reduce. set_fields. rewrite length_app, length_replicate, (ring_size l Hr). lia.
    - by rewrite Ei.
    - lia.
    - intros j d Hj. assert (loc l0 (capacity l) 0 j = pos l j) as ->.
      { unfold loc, pos. rewrite Ei. apply here_lt in Hj. destruct (Z.ltb_spec (idx l + Z.of_nat j) (capacity l)); [by rewrite Z.mod_small by lia|].
        rewrite (proj2 (Z.ltb_ge _ _)) by lia. apply (Z.mod_unique _ _ 1); lia. }
      subst l0. unfold lst_indices_reduce. set_fields. destruct (view_item _ _ Hv j d Hj) as [Hp Hi]. split; [|done]. by apply lookup_app_l_Some. }
  assert (stk l0 O) as Hs0.
  { intros i o HO. destruct (Hs i o HO) as [Hst Hle]. split; [|subst l0; unfold lst_indices_reduce; set_fields; lia]. rewrite Ei.
    subst l0. unfold stack_item, lst_indices_reduce in *. set_fields. rewrite list_lookup_imap. destruct (s_data l !! i) as [w|]; [|done].
    cbn [mbind option_bind] in Hst. subst w. cbn [fmap option_fmap option_map mbind option_bind]. rewrite (proj2 (Nat.ltb_lt _ _)) by (rewrite <- Hlen; by apply lookup_lt_Some in HO).
    cbn [fmap option_fmap option_map]. rewrite Ei. f_equal. rewrite u32_id by (red; lia). lia. }
  destruct (expand_loop_ok (Z.to_nat (idx l0)) l0 f (capacity l) 0 HE ltac:(lia) ltac:(lia)) as (l' & -> & HE' & Hf' & Hi'). cbn [mbind option_bind].
  exists l'. split; [done|]. pose proof Hf' as (Ec & Ei' & En & Ed & Es & _). split; [|split; [by rewrite Ed|by rewrite Ec, (ex_capacity _ _ _ _ HE)]].
  assert (view l' f) as Hv'.
  { split; [by eapply expanding_ring|rewrite Ec, (ex_capacity _ _ _ _ HE); lia|]. intros j d Hj. assert (pos l' j = loc l' (capacity l) (idx l0) j) as ->; [|by apply (ex_item _ _ _ _ HE')].
    pose proof (here_lt _ _ _ Hj). unfold pos, loc. rewrite Ei', Ec, (ex_capacity _ _ _ _ HE), Ei. rewrite Z.mod_small by lia. repeat case_if; lia. }
  split; try done.
  - by rewrite En.
  - by eapply frame_stk.
  - by rewrite Ed.
  - by rewrite Ed.
  - intros d Hdx. destruct (decide (within f d)) as [|Hw]; [done|]. rewrite Hi' in Hdx by done. by apply Hix.
Qed.
End Order.
End LstExpand.
