(* ===== verification/LstOps.v ===== *)
(** The operations of a tree (Lst) keep its invariant: they find the bucket of an
    element or the least element, whatever the random numbers are, and end. *)

From stdpp Require Import functions.
From S2P Require Import Prelude Rand Lst LstView LstRing LstMove LstBucket LstDelete LstPartition.

Module LstOps.
Import Rand Lst LstView LstRing LstMove LstBucket LstDelete LstPartition.

Section Order.
Variable cmp : ptr -> ptr -> Z.
Context `{!LstOrder cmp}.

(** Without the entries of the stack that are not in use. *)
Lemma inv_take l f O n : inv cmp l f O -> (s_depth l <= n)%nat -> inv cmp l f (take n O).
Proof.
  intros [Hv Hf Hn Hs H0 Hd Ho HD Hi] Hle. split; try done.
  - by apply stk_take.
  - rewrite lookup_take_lt by lia. done.
  - intros i a b Ha Hb. apply lookup_take_Some in Ha as [Ha _], Hb as [Hb _]. by apply (Hd i).
  - apply (ord_less cmp (s_depth l) _ f O); [done|lia|]. intros i Hi'. apply lookup_take_lt. lia.
  - rewrite length_take. lia.
Qed.

Lemma inv_rand l f O ctx : inv cmp l f O -> inv cmp (l <| rand_ctx := ctx |>) f O.
Proof. intros [Hv Hf Hn Hs H0 Hd Ho HD Hi]. split; try done. by apply (view_ext l). Qed.

Lemma inv_offset l f O i o : inv cmp l f O -> O !! i = Some o -> (o <= length f)%nat /\ ((1 <= i)%nat -> (o < length f)%nat).
Proof.
  intros HI Ho. destruct i as [|i]; [rewrite (inv_bottom _ _ _ _ HI) in Ho; injection Ho; lia|].
  pose proof (dec_lt O 0 (S i) _ _ (inv_dec _ _ _ _ HI) ltac:(lia) (inv_bottom _ _ _ _ HI) Ho). lia.
Qed.

Lemma lst_size_ok l f O i o : inv cmp l f O -> O !! S i = Some o -> lst_size (S i) l = Some (Z.of_nat o).
Proof.
  intros HI Ho. pose proof (view_ring _ _ (inv_view _ _ _ _ HI)) as Hr. pose proof (ring_idx l Hr) as Hx. pose proof (ring_cap l Hr) as Hc.
  pose proof (view_size _ _ (inv_view _ _ _ _ HI)) as Hs. destruct (inv_offset l f O (S i) o HI Ho) as [_ Hlt]. specialize (Hlt ltac:(lia)).
  unfold lst_size. cbn [Nat.eqb]. rewrite (stk_at l O (S i) o (inv_stk _ _ _ _ HI) Ho). cbn [mbind option_bind]. rewrite !index_reduce_mod by done.
  rewrite (Z.mod_small (idx l)) by lia. f_equal. destruct (decide (idx l + Z.of_nat o < capacity l)) as [Hw|Hw].
  - rewrite Z.mod_small by lia. rewrite (proj2 (Z.leb_le _ _)) by lia. lia.
  - assert ((idx l + Z.of_nat o) mod capacity l = idx l + Z.of_nat o - capacity l) as -> by (symmetry; apply (Z.mod_unique _ _ 1); lia).
    rewrite (proj2 (Z.leb_gt _ _)) by lia. rewrite (u32_id (capacity l - idx l)) by (red; lia). rewrite u32_id by (red; lia). lia.
Qed.

(** The pivot at a stack index. *)
Lemma pivot_read l f O i : inv cmp l f O -> (S i < s_depth l)%nat ->
  exists o pv, O !! S i = Some o /\ here f o pv /\ piv f O (S i) = Some pv /\ stack_item l (S i) = Some (idx l + Z.of_nat o) /\ item l (idx l + Z.of_nat o) = Some pv
    /\ forall j d, here f j d -> ((j < o)%nat -> cmp d pv <= 0) /\ ((o < j)%nat -> cmp pv d <= 0).
Proof.
  intros HI Hi. destruct (inv_ord _ _ _ _ HI (S i) ltac:(lia)) as (o & pv & HO & Hpv & Hord). exists o, pv. split; [done|]. split; [done|].
  split; [by eapply ord_piv; [apply HI|lia|..]|]. split; [by apply (stk_at l O); [apply HI|]|]. split; [by eapply view_read; [apply HI| |]|done].
Qed.

(** ** The least element *)

(** lst_peek finds the least element at the left end, lst_pop deletes it there. *)
Lemma least_ok fuel : forall l f O i o, inv cmp l f O -> length O = s_depth l -> (i < s_depth l)%nat -> O !! i = Some o -> (1 <= o < fuel)%nat ->
  exists d j l' f' O', lst_peek cmp fuel true i l = Some (d, l')
    /\ lst_pop cmp fuel true i l = (l2 ← bucket_delete j d (lst_flatten j l'); Some (d, l2))
    /\ inv cmp l' f' O' /\ length O' = s_depth l' /\ (1 <= j < s_depth l')%nat /\ O' !! j = Some 0%nat /\ here f' 0 d
    /\ length f' = length f /\ forall e, within f' e <-> within f e.
Proof.
  induction fuel as [|fuel IH]; intros l f O i o HI Hlen Hi Ho Hfuel; [lia|]. cbn [lst_peek lst_pop].
  assert (exists l1 f1 O1 t, (if is_bucket l i then partition cmp true i l else Some l) = Some l1 /\ inv cmp l1 f1 O1 /\ length O1 = s_depth l1
    /\ (S i < s_depth l1)%nat /\ O1 !! S i = Some t /\ (t < o)%nat /\ length f1 = length f /\ forall e, within f1 e <-> within f e)
    as (l1 & f1 & O1 & t & -> & HI1 & Hlen1 & Hi1 & Ht & Hto & Hc1 & Hw1).
  { unfold is_bucket. destruct (Nat.eqb_spec (s_depth l) (S i)) as [E|E].
    - destruct (partition_ok cmp l f O i o HI Hlen E Ho ltac:(lia)) as (l1 & f1 & t & -> & HI1 & Hto & HD & Hc & Hw).
      exists l1, f1, (O ++ [t]), t. split; [done|]. split; [done|]. split; [rewrite length_app; cbn; lia|]. split; [lia|].
      split; [|done]. rewrite lookup_app_r by lia. by replace (S i - length O)%nat with 0%nat by lia.
    - destruct (lookup_lt_is_Some_2 O (S i)) as [t Ht]; [lia|]. exists l, f, O, t. split; [done|]. split; [done|]. split; [done|]. split; [lia|].
      split; [done|]. split; [by apply (inv_dec _ _ _ _ HI i)|done]. }
  cbn [mbind option_bind]. rewrite (lst_size_ok l1 f1 O1 i t HI1 Ht). cbn [mbind option_bind]. destruct (Z.eqb_spec (Z.of_nat t) 0) as [E|E].
  - assert (t = 0%nat) as -> by lia. destruct (pivot_read l1 f1 O1 i HI1 Hi1) as (o' & pv & HO' & Hpv & _ & E1 & E2 & _).
    rewrite Ht in HO'. injection HO' as <-. rewrite E1. cbn [mbind option_bind]. rewrite E2. cbn [mbind option_bind]. exists pv, (S i), l1, f1, O1. split; [done|]. split; [done|]. split; [done|].
    split; [done|]. split; [lia|]. done.
  - destruct (IH l1 f1 O1 (S i) t HI1 Hlen1 Hi1 Ht ltac:(lia)) as (d & j & l' & f' & O' & -> & -> & HI' & Hlen' & Hj & H0 & Hh & Hc' & Hw').
    exists d, j, l', f', O'. do 7 (split; [done|]). split; [congruence|]. intros e. by rewrite Hw'.
Qed.

Lemma least_order l f O j d e : inv cmp l f O -> (1 <= j < s_depth l)%nat -> O !! j = Some 0%nat -> here f 0 d -> within f e -> cmp d e <= 0.
Proof.
  intros HI Hj H0 Hd [k Hk]. destruct (inv_ord _ _ _ _ HI j Hj) as (o & pv & HO & Hpv & Hord). rewrite H0 in HO. injection HO as <-.
  assert (pv = d) as -> by (unfold here in *; congruence). destruct k as [|k]; [|apply (Hord (S k) e Hk); lia].
  assert (e = d) as -> by (unfold here in *; congruence). by rewrite cmp_self.
Qed.

(** Deleting the pivot at [j], which is no longer on the stack. *)
Lemma delete_pivot_ok l f O j o d : inv cmp l f O -> (1 <= j < s_depth l)%nat -> O !! j = Some o -> forall h, here f h d -> (h <= o)%nat ->
  exists l' f' O', bucket_delete j d (lst_flatten j l) = Some l' /\ inv cmp l' f' O' /\ (forall e, within f' e <-> within f e /\ e <> d) /\ length f = S (length f').
Proof.
  intros HI Hj Ho h Hh Hle. pose proof (inv_flatten cmp l f O j HI ltac:(lia)) as HF.
  apply (inv_take _ _ _ (S j)) in HF; [|cbn; lia]. assert (take (S j) O !! S j = None) as Hnone by (apply lookup_take_None; lia).
  apply (bucket_delete_ok cmp (lst_flatten j l) f (take (S j) O) j o h d HF Hh); [rewrite lookup_take_lt by lia; done|done| |].
  - intros _. split; [done|done].
  - intros b Hb. congruence.
Qed.

(** ** Extraction *)

(** The element is at the left end, or no other one compares equal to it. *)
Lemma descend_extract_ok fuel : forall l f O i o h d, inv cmp l f O -> length O = s_depth l -> (i < s_depth l < i + fuel)%nat -> O !! i = Some o -> here f h d -> (h < o)%nat ->
  (h = 0%nat \/ forall e, within f e -> cmp d e = 0 -> e = d) ->
  exists l' f' O', lst_extract cmp fuel i d l = Some l' /\ inv cmp l' f' O' /\ (forall e, within f' e <-> within f e /\ e <> d) /\ length f = S (length f').
Proof.
  induction fuel as [|fuel IH]; intros l f O i o h d HI Hlen Hfuel Ho Hh Hho Hu; [lia|]. cbn [lst_extract]. unfold is_bucket.
  destruct (Nat.eqb_spec (s_depth l) (S i)) as [E|E].
  - assert (O !! S i = None) as Hnone by (apply lookup_ge_None; lia). apply (bucket_delete_ok cmp l f O i o h d HI Hh Ho); [lia|lia|]. intros b Hb. congruence.
  - destruct (pivot_read l f O i HI ltac:(lia)) as (t & pv & Ht & Hpv & _ & -> & E2 & Hord). cbn [mbind option_bind]. rewrite E2. cbn [mbind option_bind].
    pose proof (Hord h d Hh) as [Hl Hg]. pose proof (cmp_swap (cmp := cmp) pv d) as Hsw. pose proof (cmp_swap (cmp := cmp) d pv) as Hsw'.
    assert (h = t -> d = pv) as Hsame by (intros ->; unfold here in *; congruence). pose proof (cmp_self (cmp := cmp) d) as Hself.
    destruct (Z.ltb_spec (cmp d pv) 0) as [Hc|Hc]; [|destruct (Z.ltb_spec 0 (cmp d pv)) as [Hc'|Hc']].
    + apply (IH l f O (S i) t h d); try done; [lia|]. destruct (decide (h = t)) as [Ht'|]; [apply Hsame in Ht'; subst; lia|].
      destruct (decide (t < h)%nat) as [Hth|]; [|lia]. specialize (Hg Hth). lia.
    + assert (t < h)%nat as Hth.
      { destruct (decide (h = t)) as [Ht'|]; [apply Hsame in Ht'; subst; lia|]. destruct (decide (h < t)%nat) as [Hht|]; [|lia]. specialize (Hl Hht). lia. }
      apply (bucket_delete_ok cmp l f O i o h d HI Hh Ho); [lia|lia|]. intros b Hb. rewrite Ht in Hb. injection Hb as <-. done.
    + assert (h = 0%nat \/ h = t) as Hplace.
      { destruct Hu as [Hu|Hu]; [by left|]. right. assert (pv = d) as -> by (apply Hu; [by exists t|lia]). by apply (view_single _ _ (inv_view _ _ _ _ HI) h t d). }
      apply (delete_pivot_ok l f O (S i) t d HI ltac:(lia) Ht h Hh). lia.
Qed.

(** ** Insertion *)

Lemma descend_insert_ok fuel : forall l f O i d, inv cmp l f O -> length O = s_depth l -> (i < s_depth l < i + fuel)%nat -> num_elements l < capacity l -> index l d = 0 ->
  (forall j pv, (1 <= j <= i)%nat -> piv f O j = Some pv -> cmp d pv <= 0) ->
  exists l' f' O', lst_insert cmp fuel i d l = Some l' /\ inv cmp l' f' O' /\ (forall e, within f' e <-> e = d \/ within f e) /\ length f' = S (length f).
Proof.
  induction fuel as [|fuel IH]; intros l f O i d HI Hlen Hfuel Hroom Hd Hpath; [lia|]. cbn [lst_insert]. unfold is_bucket.
  destruct (Nat.eqb_spec (s_depth l) (S i)) as [E|E].
  - apply (bucket_add_ok cmp l f O); [done|done|lia|done|]. intros j pv Hj Hpv. split; [|lia]. intros _. apply (Hpath j); [lia|done].
  - destruct (fr_fast_rand (rand_ctx l)) as [r ctx]. set (l0 := l <| rand_ctx := ctx |>). pose proof (inv_rand l f O ctx HI) as HI0. fold l0 in HI0.
    destruct (pivot_read l0 f O i HI0) as (t & pv & Ht & Hpv & Hpiv & E1 & E2 & Hord); [cbn; lia|].
    rewrite (lst_size_ok l0 f O i t HI0 Ht). cbn [mbind option_bind]. destruct (negb (r mod u32 (Z.of_nat t + 1) =? 0)).
    + rewrite E1. cbn [mbind option_bind]. rewrite E2. cbn [mbind option_bind]. destruct (Z.ltb_spec (cmp d pv) 0) as [Hc|Hc].
      * apply (IH l0 f O (S i) d); try done; [cbn; lia|]. intros j pj Hj Hpj. destruct (decide (j = S i)) as [-> |]; [|apply (Hpath j); [lia|done]].
        rewrite Hpiv in Hpj. injection Hpj as <-. lia.
      * apply (bucket_add_ok cmp l0 f O); [done|done|cbn; lia|done|]. intros j pj Hj Hpj. split; [intros Hji; apply (Hpath j); [lia|done]|]. intros Hij.
        apply cmp_swap in Hc. destruct (decide (j = S i)) as [-> |Hne]; [rewrite Hpiv in Hpj; by injection Hpj as <-|].
        destruct (inv_ord _ _ _ _ HI0 j Hj) as (oj & pj' & HOj & Hpj' & _). rewrite (ord_piv cmp _ f O j oj pj' (inv_ord _ _ _ _ HI0) Hj HOj Hpj') in Hpj. injection Hpj as ->.
        apply cmp_le_trans with pv; [|done]. apply (Hord oj pj Hpj'). by apply (dec_lt O (S i) j t oj (inv_dec _ _ _ _ HI)); [lia|..].
    + pose proof (inv_flatten cmp l0 f O (S i) HI0 ltac:(cbn; lia)) as HF. apply (bucket_add_ok cmp (lst_flatten (S i) l0) f O); [done|done|lia|done|].
      intros j pj Hj Hpj. cbn in Hj. split; [|lia]. intros _. apply (Hpath j); [lia|done].
Qed.
End Order.
End LstOps.
