(* ===== verification/LstSpec.v ===== *)
(** What a tree (Lst) promises: it is a priority queue. A sequence of operations on
    a new tree is one that the specification allows, whatever the random numbers
    are, as long as an element that is extracted is the one that was just peeked
    at, or compares equal to no other one. Without that condition an element that
    was popped comes back and another one is lost. *)

From stdpp Require Import functions.
From S2P Require Import Prelude Rand Lst LstView LstRing LstMove LstBucket LstDelete LstPartition LstExpand LstOps.

Module LstSpec.
Import Rand Lst LstView LstRing LstMove LstBucket LstDelete LstPartition LstExpand LstOps.

Definition inserted (l : fr_lst_t) (d : ptr) : Prop := index l d <> 0.

(** ** Creation *)

Lemma pow2_land n : 0 < n -> Z.land n (n - 1) = 0 -> n = 2 ^ Z.log2 n.
Proof.
  intros Hn H. pose proof (Z.log2_spec n Hn) as [Hl Hu]. destruct (decide (n = 2 ^ Z.log2 n)) as [|Hne]; [done|]. exfalso.
  assert (Z.log2 (n - 1) = Z.log2 n) as E by (apply Z.log2_unique; [apply Z.log2_nonneg|lia]).
  assert (Z.testbit (Z.land n (n - 1)) (Z.log2 n) = true) as Hb; [|by rewrite H, Z.bits_0 in Hb].
  pose proof (Z.log2_nonneg n). assert (0 < 2 ^ Z.log2 n) by (apply Z.pow_pos_nonneg; lia).
  rewrite Z.land_spec, Z.bit_log2 by done. rewrite <- E at 1. apply Z.bit_log2. lia.
Qed.

Lemma stack_capacity_pos fuel : forall k init, 1 <= k -> 1 <= initial_stack_capacity fuel k init.
Proof. induction fuel as [|fuel IH]; intros k init Hk; cbn; [done|]. case_if; [apply IH; lia|done]. Qed.

Section Order.
Variable cmp : ptr -> ptr -> Z.

Lemma alloc_ok init a b ix : 0 <= init <= 2 ^ 30 -> (forall d, ix d = 0) ->
  exists l, fr_lst_alloc true init a b ix = Some l /\ inv cmp l [] [0%nat] /\ s_depth l = 1%nat.
Proof.
  intros Hinit Hix. unfold fr_lst_alloc. cbn [negb]. set (c := if init =? 0 then _ else _).
  assert (exists e, 0 <= e <= 31 /\ c = 2 ^ e) as (e & He & Ec).
  { subst c. destruct (Z.eqb_spec init 0) as [|H0]; [exists 11; split; [lia|done]|]. pose proof (Z.log2_nonneg init) as Hlog. assert (Z.log2 init <= 30) as Hlog'
      by (rewrite <- (Z.log2_pow2 30) by lia; apply Z.log2_le_mono; lia). destruct (Z.eqb_spec (init &z (init - 1)) 0) as [E|E].
    - exists (Z.log2 init). split; [lia|]. apply pow2_land; [lia|done].
    - unfold fr_high_bit_pos. rewrite (proj2 (Z.eqb_neq _ _) H0). exists (Z.log2 init + 1). split; [lia|]. rewrite Z.shiftl_mul_pow2 by lia. lia. }
  clearbody c. pose proof (stack_capacity_pos 32 1 c ltac:(lia)) as Hst. set (st := Z.to_nat (initial_stack_capacity 32 1 c)). assert (1 <= st)%nat as Hst' by lia.
  clearbody st. assert (0 < c) as Hc by (rewrite Ec; apply Z.pow_pos_nonneg; lia). eexists. split; [done|]. unfold stack_push. set_fields.
  rewrite length_replicate, (proj2 (Nat.eqb_neq 0 st)) by lia. cbn [andb snd]. set_fields. split; [|done]. split; set_fields.
  - split; [split; set_fields|cbn; lia|intros j d Hj; by apply here_lt in Hj; cbn in Hj; lia].
    + by exists e.
    + by rewrite length_replicate.
    + lia.
  - intros j Hj. cbn in Hj. lia.
  - done.
  - intros i o Ho. apply list_lookup_singleton_Some in Ho as [-> <-]. unfold stack_item. set_fields.
    rewrite list_lookup_insert_eq by (rewrite length_replicate; lia). cbn. split; [done|lia].
  - done.
  - intros i x y Hx Hy. apply list_lookup_singleton_Some in Hy as [? _]. lia.
  - intros i Hi. cbn in Hi. lia.
  - cbn. lia.
  - intros d Hd. by rewrite Hix in Hd.
Qed.

(** ** The operations *)

Context `{!LstOrder cmp}.

(** A tree, with the element that the last peek returned at its left end. *)
Definition tree (l : fr_lst_t) (front : option ptr) : Prop :=
  exists f O, inv cmp l f O /\ length O = s_depth l /\ forall d, front = Some d -> here f 0 d.

(** Only the elements in the tree are compared. *)
Lemma tree_ext cmp' l fr : tree l fr -> (forall a b, inserted l a -> inserted l b -> cmp' a b = cmp a b) -> exists f O, inv cmp' l f O /\ length O = s_depth l /\ forall d, fr = Some d -> here f 0 d.
Proof.
  intros (f & O & HI & Hlen & Hfr) Hext. exists f, O. split; [|done]. pose proof HI as [Hv Hf Hn Hs H0 Hd Ho HD Hi]. split; try done.
  assert (forall j d, here f j d -> inserted l d) as Hin by (intros j d Hj; assert (within f d) as Hw by (by exists j); apply (within_index l) in Hw; [unfold inserted; lia|done]).
  intros i Hi'. destruct (Ho i Hi') as (o & pv & HO & Hpv & Hord). exists o, pv. split; [done|]. split; [done|].
  intros j d Hj. rewrite !Hext by eauto. by apply Hord.
Qed.

Lemma tree_of l f O : inv cmp l f O -> tree l None.
Proof. intros HI. exists f, (take (s_depth l) O). split; [by apply inv_take|]. split; [|done]. rewrite length_take. pose proof (inv_depth _ _ _ _ HI). lia. Qed.

Lemma inserted_within l f O d : inv cmp l f O -> inserted l d <-> within f d.
Proof. intros HI. split; [apply HI|]. intros Hw. apply (within_index l) in Hw; [unfold inserted; lia|apply HI]. Qed.

(** No element is in an empty tree, one is in another. *)
Lemma num_within l f O : inv cmp l f O -> if num_elements l =? 0 then forall d, ~ within f d else (1 <= length f)%nat.
Proof.
  intros HI. rewrite (inv_num _ _ _ _ HI). destruct (Z.eqb_spec (Z.of_nat (length f)) 0) as [E|E]; [|lia].
  intros d [j Hj]. apply here_lt in Hj. lia.
Qed.

Lemma lst_insert_spec mem d l fr : tree l fr -> num_elements l < 2 ^ 30 ->
  exists r l', fr_lst_insert cmp mem d l = Some (r, l')
    /\ ((r = 0 /\ ~ inserted l d /\ tree l' None /\ num_elements l' = num_elements l + 1 /\ forall e, inserted l' e <-> e = d \/ inserted l e)
        \/ (r = -1 /\ (inserted l d \/ mem = false) /\ tree l' None /\ num_elements l' = num_elements l /\ forall e, inserted l' e <-> inserted l e)).
Proof.
  intros (f & O & HI & Hlen & _) Hn. unfold fr_lst_insert.
  assert ((if num_elements l =? capacity l then lst_expand mem l else Some (Some l)) = Some None /\ mem = false
    \/ exists l1, (if num_elements l =? capacity l then lst_expand mem l else Some (Some l)) = Some (Some l1) /\ inv cmp l1 f O /\ s_depth l1 = s_depth l
       /\ num_elements l1 < capacity l1) as [[-> ->]|(l1 & -> & HI1 & HD1 & Hroom)].
  { destruct (Z.eqb_spec (num_elements l) (capacity l)) as [E|E].
    - destruct mem.
      + right. destruct (lst_expand_ok cmp l f O HI Hlen E ltac:(lia)) as (l1 & E1 & HI1 & HD & Hc). exists l1. split; [done|]. split; [done|]. split; [done|].
        rewrite (inv_num _ _ _ _ HI1), <- (inv_num _ _ _ _ HI). pose proof (ring_cap l (view_ring _ _ (inv_view _ _ _ _ HI))). lia.
      + left. unfold lst_expand. cbn [negb]. by case_if.
    - right. exists l. split; [done|]. split; [done|]. split; [done|]. pose proof (view_size _ _ (inv_view _ _ _ _ HI)). rewrite (inv_num _ _ _ _ HI) in *. lia. }
  - cbn [mbind option_bind]. exists (-1), l. split; [done|]. right. split; [done|]. split; [by right|]. split; [by eapply tree_of|done].
  - cbn [mbind option_bind]. assert (forall e, inserted l e <-> inserted l1 e) as Hins by (intros e; by rewrite (inserted_within l f O), (inserted_within l1 f O)).
    assert (num_elements l1 = num_elements l) as En by (by rewrite (inv_num _ _ _ _ HI1), (inv_num _ _ _ _ HI)).
    destruct (Z.ltb_spec 0 (index l1 d)) as [Hd|Hd].
    + exists (-1), l1. split; [done|]. right. split; [done|]. split; [left; apply Hins; unfold inserted; lia|]. split; [by eapply tree_of|]. split; [done|]. intros e. by rewrite Hins.
    + assert (index l1 d = 0) as Hd0.
      { destruct (decide (index l1 d = 0)) as [|Hne]; [done|]. apply (inserted_within l1 f O) in Hne as Hw; [|done]. apply (within_index l1) in Hw; [lia|apply HI1]. }
      destruct (descend_insert_ok cmp (S (s_depth l1)) l1 f O 0 d HI1) as (l' & f' & O' & -> & HI' & Hw' & Hl'); [by rewrite HD1|pose proof (inv_depth _ _ _ _ HI1); lia|done|done|lia|].
      cbn [mbind option_bind]. exists 0, l'. split; [done|]. left. split; [done|]. split; [rewrite Hins; unfold inserted; lia|]. split; [by eapply tree_of|].
      assert (forall e, inserted l' e <-> e = d \/ inserted l e) as Hins'
        by (intros e; rewrite (inserted_within l' f' O' e HI'), (inserted_within l f O e HI); apply Hw').
      split; [|done]. rewrite (inv_num _ _ _ _ HI'), (inv_num _ _ _ _ HI). lia.
Qed.

(** The least element, or none. *)
Lemma lst_peek_spec l fr : tree l fr ->
  exists r l', fr_lst_peek cmp true l = Some (r, l') /\ tree l' r /\ num_elements l' = num_elements l /\ (forall e, inserted l' e <-> inserted l e)
    /\ match r with None => forall e, ~ inserted l e | Some d => inserted l d /\ forall e, inserted l e -> cmp d e <= 0 end.
Proof.
  intros (f & O & HI & Hlen & _). pose proof (num_within l f O HI) as Hw. unfold fr_lst_peek. destruct (Z.eqb_spec (num_elements l) 0) as [E|E].
  - exists None, l. split; [done|]. split; [by eapply tree_of|]. split; [done|]. split; [done|]. intros e. by rewrite (inserted_within l f O).
  - pose proof (inv_depth _ _ _ _ HI) as Hdep. pose proof (inv_num _ _ _ _ HI) as Hnum.
    destruct (least_ok cmp (S (Z.to_nat (num_elements l))) l f O 0 (length f) HI Hlen) as (d & j & l' & f' & O' & -> & _ & HI' & Hlen' & Hj & H0 & Hd & Hl & Hw');
      [lia|apply HI|lia|]. cbn [mbind option_bind].
    assert (forall e, inserted l' e <-> inserted l e) as Hins by (intros e; by rewrite (inserted_within l' f' O'), (inserted_within l f O)).
    exists (Some d), l'. split; [done|]. split; [exists f', O'; split; [done|]; split; [done|]; by intros ? [= ->]|].
    split; [by rewrite (inv_num _ _ _ _ HI'), (inv_num _ _ _ _ HI), Hl|]. split; [done|]. split.
    + apply Hins, (inserted_within l' f' O'); [done|]. by exists 0%nat.
    + intros e He. apply (least_order cmp l' f' O' j d e HI' Hj H0 Hd). by apply (inserted_within l' f' O'), Hins.
Qed.

Lemma lst_pop_spec l fr : tree l fr ->
  exists r l', fr_lst_pop cmp true l = Some (r, l') /\ tree l' None /\ num_elements l' <= num_elements l
    /\ match r with
       | None => (forall e, ~ inserted l e) /\ forall e, inserted l' e <-> inserted l e
       | Some d => inserted l d /\ (forall e, inserted l e -> cmp d e <= 0) /\ forall e, inserted l' e <-> inserted l e /\ e <> d
       end.
Proof.
  intros (f & O & HI & Hlen & _). pose proof (num_within l f O HI) as Hw. unfold fr_lst_pop. destruct (Z.eqb_spec (num_elements l) 0) as [E|E].
  - exists None, l. split; [done|]. split; [by eapply tree_of|]. split; [done|]. split; [|done]. intros e. by rewrite (inserted_within l f O).
  - pose proof (inv_depth _ _ _ _ HI) as Hdep. pose proof (inv_num _ _ _ _ HI) as Hnum.
    destruct (least_ok cmp (S (Z.to_nat (num_elements l))) l f O 0 (length f) HI Hlen) as (d & j & l1 & f1 & O1 & _ & -> & HI1 & Hlen1 & Hj & H0 & Hd & Hl & Hw1);
      [lia|apply HI|lia|].
    destruct (delete_pivot_ok cmp l1 f1 O1 j 0 d HI1 Hj H0 0 Hd ltac:(lia)) as (l' & f' & O' & -> & HI' & Hw' & Hl'). cbn [mbind option_bind].
    exists (Some d), l'. split; [done|]. split; [by eapply tree_of|]. split; [rewrite (inv_num _ _ _ _ HI'), (inv_num _ _ _ _ HI); lia|].
    split; [apply (inserted_within l f O), Hw1; [done|]; by exists 0%nat|]. split.
    + intros e He. apply (least_order cmp l1 f1 O1 j d e HI1 Hj H0 Hd). by apply Hw1, (inserted_within l f O).
    + intros e. by rewrite (inserted_within l' f' O'), (inserted_within l f O), Hw', Hw1.
Qed.

(** The element was just peeked at, or no other one compares equal to it. *)
Definition may_extract (l : fr_lst_t) (front : option ptr) (d : ptr) : Prop := front = Some d \/ forall e, inserted l e -> cmp d e = 0 -> e = d.

Lemma lst_extract_spec d l fr : tree l fr -> (inserted l d -> may_extract l fr d) ->
  exists r l', fr_lst_extract cmp d l = Some (r, l') /\ tree l' None /\ num_elements l' <= num_elements l
    /\ ((r = 0 /\ inserted l d /\ num_elements l = num_elements l' + 1 /\ forall e, inserted l' e <-> inserted l e /\ e <> d)
        \/ (r = -1 /\ ~ inserted l d /\ forall e, inserted l' e <-> inserted l e)).
Proof.
  intros (f & O & HI & Hlen & Hfr) Hmay. pose proof (num_within l f O HI) as Hw. unfold fr_lst_extract.
  destruct (Z.eqb_spec (num_elements l) 0) as [E|E]; [|destruct (Z.eqb_spec (index l d) 0) as [Ed|Ed]].
  - exists (-1), l. split; [done|]. split; [by eapply tree_of|]. split; [done|]. right. split; [done|]. split; [|done]. by rewrite (inserted_within l f O).
  - exists (-1), l. split; [done|]. split; [by eapply tree_of|]. split; [done|]. right. split; [done|]. split; [|done]. unfold inserted. lia.
  - destruct (proj1 (inserted_within l f O d HI) Ed) as [h Hh]. pose proof (inv_depth _ _ _ _ HI).
    destruct (descend_extract_ok cmp (S (s_depth l)) l f O 0 (length f) h d HI Hlen) as (l' & f' & O' & -> & HI' & Hw' & Hl'); [lia|apply HI|done|by apply here_lt in Hh| |].
    { destruct (Hmay Ed) as [Hf|Hu]; [left|right].
      - by apply (view_single _ _ (inv_view _ _ _ _ HI) h 0%nat d Hh), Hfr.
      - intros e He. apply Hu. by apply (inserted_within l f O). }
    cbn [mbind option_bind]. exists 0, l'. split; [done|]. split; [by eapply tree_of|]. split; [rewrite (inv_num _ _ _ _ HI'), (inv_num _ _ _ _ HI); lia|].
    left. split; [done|]. split; [done|]. split; [rewrite (inv_num _ _ _ _ HI'), (inv_num _ _ _ _ HI); lia|].
    intros e. by rewrite (inserted_within l' f' O'), (inserted_within l f O), Hw'.
Qed.

(** ** Sequences of operations *)

Inductive op := Insert (mem : bool) (d : ptr) | Extract (d : ptr) | Pop | Peek.
Inductive reply := Code (r : Z) | Item (d : option ptr).

Definition exec (o : op) (l : fr_lst_t) : option (reply * fr_lst_t) :=
  match o with
  | Insert mem d => '(r, l) ← fr_lst_insert cmp mem d l; Some (Code r, l)
  | Extract d => '(r, l) ← fr_lst_extract cmp d l; Some (Code r, l)
  | Pop => '(d, l) ← fr_lst_pop cmp true l; Some (Item d, l)
  | Peek => '(d, l) ← fr_lst_peek cmp true l; Some (Item d, l)
  end.

Fixpoint run (os : list op) (l : fr_lst_t) : option (list reply * fr_lst_t) :=
  match os with
  | [] => Some ([], l)
  | o :: os => '(r, l) ← exec o l; '(rs, l) ← run os l; Some (r :: rs, l)
  end.

(** What the operations promise, on the set of the elements in the tree. *)
Inductive spec_step (X : ptr -> Prop) : op -> reply -> (ptr -> Prop) -> Prop :=
  | spec_insert mem d X' : ~ X d -> (forall e, X' e <-> e = d \/ X e) -> spec_step X (Insert mem d) (Code 0) X'
  | spec_insert_fails mem d X' : X d \/ mem = false -> (forall e, X' e <-> X e) -> spec_step X (Insert mem d) (Code (-1)) X'
  | spec_extract d X' : X d -> (forall e, X' e <-> X e /\ e <> d) -> spec_step X (Extract d) (Code 0) X'
  | spec_extract_absent d X' : ~ X d -> (forall e, X' e <-> X e) -> spec_step X (Extract d) (Code (-1)) X'
  | spec_pop d X' : X d -> (forall e, X e -> cmp d e <= 0) -> (forall e, X' e <-> X e /\ e <> d) -> spec_step X Pop (Item (Some d)) X'
  | spec_pop_empty X' : (forall e, ~ X e) -> (forall e, X' e <-> X e) -> spec_step X Pop (Item None) X'
  | spec_peek d X' : X d -> (forall e, X e -> cmp d e <= 0) -> (forall e, X' e <-> X e) -> spec_step X Peek (Item (Some d)) X'
  | spec_peek_empty X' : (forall e, ~ X e) -> (forall e, X' e <-> X e) -> spec_step X Peek (Item None) X'.

Inductive spec_run (X : ptr -> Prop) : list op -> list reply -> (ptr -> Prop) -> Prop :=
  | spec_run_nil X' : (forall e, X' e <-> X e) -> spec_run X [] [] X'
  | spec_run_cons o os r rs X1 X' : spec_step X o r X1 -> spec_run X1 os rs X' -> spec_run X (o :: os) (r :: rs) X'.

(** What was peeked at. *)
Definition front (o : op) (r : reply) : option ptr := match o, r with Peek, Item d => d | _, _ => None end.

(** Every element that is extracted may be. *)
Fixpoint proper (fr : option ptr) (os : list op) (l : fr_lst_t) : Prop :=
  match os with
  | [] => True
  | o :: os =>
      match o with Extract d => inserted l d -> may_extract l fr d | _ => True end
      /\ forall r l', exec o l = Some (r, l') -> proper (front o r) os l'
  end.

Lemma lst_exec_refines o l fr : tree l fr -> num_elements l < 2 ^ 30 -> match o with Extract d => inserted l d -> may_extract l fr d | _ => True end ->
  exists r l', exec o l = Some (r, l') /\ tree l' (front o r) /\ num_elements l' <= num_elements l + 1 /\ spec_step (inserted l) o r (inserted l').
Proof.
  intros Ht Hn Hmay. destruct o as [mem d|d| |]; cbn [exec].
  - destruct (lst_insert_spec mem d l fr Ht Hn) as (r & l' & -> & [(-> & Hd & Ht' & Hn' & He)|(-> & Hd & Ht' & Hn' & He)]); eexists _, l'; (split; [done|]); (split; [done|]); (split; [lia|]).
    + by apply spec_insert.
    + by apply spec_insert_fails.
  - destruct (lst_extract_spec d l fr Ht Hmay) as (r & l' & -> & Ht' & Hn' & [(-> & Hd & _ & He)|(-> & Hd & He)]); eexists _, l'; (split; [done|]); (split; [done|]); (split; [lia|]).
    + by apply spec_extract.
    + by apply spec_extract_absent.
  - destruct (lst_pop_spec l fr Ht) as ([d|] & l' & -> & Ht' & Hn' & Hr); eexists _, l'; (split; [done|]); (split; [done|]); (split; [lia|]).
    + destruct Hr as (? & ? & ?). by apply spec_pop.
    + destruct Hr as [? ?]. by apply spec_pop_empty.
  - destruct (lst_peek_spec l fr Ht) as ([d|] & l' & -> & Ht' & Hn' & He & Hr); eexists _, l'; (split; [done|]); (split; [done|]); (split; [lia|]).
    + destruct Hr as [? ?]. by apply spec_peek.
    + by apply spec_peek_empty.
Qed.

Lemma spec_run_ext X Y os rs Z : (forall d, X d <-> Y d) -> spec_run X os rs Z -> spec_run Y os rs Z.
Proof.
  intros HXY Hr. revert Y HXY. destruct Hr as [X' HX|o os r rs X1 X' Hs Hr]; intros Y HXY.
  - constructor. intros e. by rewrite HX.
  - econstructor; [|exact Hr]. inversion Hs; subst; econstructor; try setoid_rewrite <- HXY; try done; intros; apply HXY || (rewrite <- HXY; done) || naive_solver.
Qed.

Lemma lst_run_refines os : forall l fr, tree l fr -> num_elements l + Z.of_nat (length os) <= 2 ^ 30 -> proper fr os l ->
  exists rs l', run os l = Some (rs, l') /\ spec_run (inserted l) os rs (inserted l') /\ exists fr', tree l' fr'.
Proof.
  induction os as [|o os IH]; intros l fr Ht Hn Hp; cbn [run].
  - exists [], l. split; [done|]. split; [by constructor|by exists fr].
  - cbn [length] in Hn. destruct Hp as [Hmay Hp]. destruct (lst_exec_refines o l fr Ht ltac:(lia) Hmay) as (r & l1 & E & Ht1 & Hn1 & Hs).
    destruct (IH l1 (front o r) Ht1 ltac:(lia) (Hp r l1 E)) as (rs & l' & E' & Hs' & Ht'). rewrite E. cbn [mbind option_bind]. rewrite E'. cbn [mbind option_bind].
    exists (r :: rs), l'. split; [done|]. split; [by econstructor|done].
Qed.
End Order.

(** C3: A tree is a priority queue. Any sequence of insertions, extractions, pops
    and peeks on a new tree, with fewer than 2^30 operations and whatever the two
    random numbers [a] and [b] are, ends without reading a place that was not
    written, and its results are those of a set: pop and peek return a least
    element, an insertion fails only for an element that is there or for want of
    memory, an extraction only for an element that is not there. An element that
    is extracted must be the one just peeked at or compare equal to no other. *)
Theorem lst_is_priority_queue (cmp : ptr -> ptr -> Z) (Hcmp : LstOrder cmp) (init a b : Z) (ix : ptr -> Z) (os : list op)
  (Hinit : 0 <= init <= 2 ^ 30) (Hix : forall d, ix d = 0) (Hlen : Z.of_nat (length os) <= 2 ^ 30)
  (Hproper : forall l, fr_lst_alloc true init a b ix = Some l -> proper cmp None os l) :
  exists l rs l', fr_lst_alloc true init a b ix = Some l /\ run cmp os l = Some (rs, l') /\ spec_run cmp (fun _ => False) os rs (inserted l').
Proof.
  destruct (alloc_ok cmp init a b ix Hinit Hix) as (l & E & HI & HD). exists l.
  destruct (lst_run_refines cmp os l None) as (rs & l' & Hr & Hs & _); [by eapply tree_of|by rewrite (inv_num _ _ _ _ HI)|by apply Hproper|].
  exists rs, l'. split; [done|]. split; [done|]. eapply spec_run_ext; [|exact Hs]. intros d. rewrite (inserted_within cmp l [] [0%nat]) by done. split; [by intros [j Hj]|done].
Qed.

(** Elements compared by a key. *)
Definition key_cmp (key : ptr -> Z) (a b : ptr) : Z := Z.sgn (key a - key b).

#[export] Instance key_order key : LstOrder (key_cmp key).
Proof. split; unfold key_cmp; lia. Qed.

(** The elements 1 and 2 have the same key. *)
Definition twin_key (d : ptr) : Z := if (d =? 2)%nat then 1 else Z.of_nat d.

Lemma lst_is_priority_queue_witness :
  let os := [Insert true 5; Insert true 1; Insert true 4; Insert true 2; Peek; Insert true 3; Extract 4; Extract 7; Pop; Pop; Insert true 4; Pop]%nat in
  exists l rs l', fr_lst_alloc true 2 1 2654435761 (fun _ => 0) = Some l /\ run (key_cmp twin_key) os l = Some (rs, l')
    /\ spec_run (key_cmp twin_key) (fun _ => False) os rs (inserted l').
Proof.
  intros os. apply (lst_is_priority_queue (key_cmp twin_key) (key_order twin_key) 2 1 2654435761 (fun _ => 0) os); [lia|done|cbn; lia|].
  intros l _. cbn [proper os]. repeat (split; [done|intros ? ? _]). split.
  - intros _. right. intros e _ He. unfold key_cmp, twin_key in He. cbn in He. case_match; lia.
  - intros ? ? _. split; [|by repeat (split; [done|intros ? ? _])].
    intros _. right. intros e _ He. unfold key_cmp, twin_key in He. cbn in He. case_match; lia.
Defined.

(** ** Iteration *)

(** The loop of the macro fr_lst_foreach. *)
Fixpoint iterate (fuel : nat) (next : option (option (ptr * Z))) (l : fr_lst_t) : option (list ptr) :=
  match fuel, next with
  | S fuel, Some (Some (d, iter)) => ds ← iterate fuel (fr_lst_iter_next iter l) l; Some (d :: ds)
  | S _, Some None => Some []
  | _, _ => None
  end.

Lemma iterate_some fuel d iter l :
  iterate (S fuel) (Some (Some (d, iter))) l = (ds ← iterate fuel (fr_lst_iter_next iter l) l; Some (d :: ds)).
Proof. done. Qed.

Section Order.
Variable cmp : ptr -> ptr -> Z.

Lemma iterate_ok l f O : inv cmp l f O -> forall n j d, here f j d -> (length f - j = S n)%nat ->
  exists ds, iterate (S (S n)) (Some (Some (d, idx l + Z.of_nat j))) l = Some ds /\ Some <$> ds = drop j f.
Proof.
  intros HI. pose proof (inv_view _ _ _ _ HI) as Hv. pose proof (view_size _ _ Hv) as Hs. pose proof (ring_idx l (view_ring _ _ Hv)) as Hx.
  induction n as [|n IH]; intros j d Hd Hn.
  all: rewrite (drop_S f (Some d) j) by exact Hd; rewrite iterate_some; unfold fr_lst_iter_next; rewrite (stk_at l O 0 (length f)) by apply HI; cbn [mbind option_bind].
  all: replace (u32 (idx l + Z.of_nat j + 1)) with (idx l + Z.of_nat (S j)) by (rewrite (u32_offset l); [lia|apply Hv|apply here_lt in Hd; lia]).
  - rewrite (proj2 (Z.leb_le _ _)) by lia. exists [d]. split; [done|]. by rewrite drop_ge by lia.
  - rewrite (proj2 (Z.leb_gt _ _)) by lia. destruct (inv_full _ _ _ _ HI (S j)) as [e He]; [lia|].
    rewrite (view_read l f (S j) e _ Hv He eq_refl). cbn [mbind option_bind]. destruct (IH (S j) e He ltac:(lia)) as (ds & E & Eds).
    rewrite E. cbn [mbind option_bind]. exists (d :: ds). split; [done|]. cbn. by rewrite Eds.
Qed.
End Order.

(** Iteration visits every element of a tree once: from any tree the loop of
    fr_lst_foreach ends, with a list that has the elements in the tree, each of
    them once. *)
Theorem lst_iteration_complete (cmp : ptr -> ptr -> Z) (l : fr_lst_t) (fr : option ptr) (Ht : tree cmp l fr) :
  exists ds, iterate (S (Z.to_nat (num_elements l))) (fr_lst_iter_init l) l = Some ds /\ NoDup ds /\ forall d, d ∈ ds <-> inserted l d.
Proof.
  destruct Ht as (f & O & HI & _). pose proof (num_within cmp l f O HI) as Hw. pose proof (inv_view _ _ _ _ HI) as Hv. pose proof (inv_num _ _ _ _ HI) as Hn.
  assert (exists ds, iterate (S (Z.to_nat (num_elements l))) (fr_lst_iter_init l) l = Some ds /\ Some <$> ds = f) as (ds & E & Eds).
  { unfold fr_lst_iter_init. destruct (Z.eqb_spec (num_elements l) 0) as [E|E].
    - exists []. destruct f; [done|cbn in Hn; lia].
    - destruct (inv_full _ _ _ _ HI 0%nat) as [d Hd]; [lia|]. rewrite (view_read l f 0 d _ Hv Hd) by (unfold pos; f_equal; lia). cbn [mbind option_bind].
      destruct (iterate_ok cmp l f O HI (Nat.pred (length f)) 0 d Hd ltac:(lia)) as (ds & E' & Eds). rewrite Z.add_0_r in E'.
      replace (Z.to_nat (num_elements l)) with (S (Nat.pred (length f))) by lia. by exists ds. }
  exists ds. split; [done|]. split.
  - apply NoDup_alt. intros i j d Hi Hj. apply (view_single _ _ Hv i j d); unfold here; rewrite <- Eds, list_lookup_fmap; [by rewrite Hi|by rewrite Hj].
  - intros d. rewrite (inserted_within cmp l f O d HI), list_elem_of_lookup. unfold within, here. setoid_rewrite <- Eds. setoid_rewrite list_lookup_fmap.
    split; intros [i Hi]; exists i; [by rewrite Hi|by destruct (ds !! i); [injection Hi as ->|]].
Qed.

Lemma lst_iteration_complete_witness :
  exists l rs l' ds, fr_lst_alloc true 2 1 2654435761 (fun _ => 0) = Some l
    /\ run (key_cmp twin_key) [Insert true 5; Insert true 1; Insert true 2; Peek; Insert true 3]%nat l = Some (rs, l')
    /\ iterate (S (Z.to_nat (num_elements l'))) (fr_lst_iter_init l') l' = Some ds /\ NoDup ds /\ forall d, d ∈ ds <-> inserted l' d.
Proof.
  destruct (alloc_ok (key_cmp twin_key) 2 1 2654435761 (fun _ => 0)) as (l & E & HI & HD); [lia|done|].
  destruct (lst_run_refines (key_cmp twin_key) [Insert true 5; Insert true 1; Insert true 2; Peek; Insert true 3]%nat l None) as (rs & l' & Hr & _ & fr & Ht);
    [by eapply tree_of|rewrite (inv_num _ _ _ _ HI); cbn; lia|by repeat (split; [done|intros ? ? _])|].
  destruct (lst_iteration_complete (key_cmp twin_key) l' fr Ht) as (ds & H). by exists l, rs, l', ds.
Defined.

(** ** Extraction of an element that compares equal to another *)

(** The keys of 2 and 3 are equal. *)
Definition equal_key (d : ptr) : Z := Z.of_nat (Nat.min d 2).

End LstSpec.
