(* ===== verification/PriorityQueue.v ===== *)
(** The interface between the timers and the tree they are kept in: the operations
    of a priority queue and what they promise. The tree of src/lib/util/lst.c (Lst)
    is an instance. *)

From stdpp Require Import functions.
From S2P Require Import Prelude Rand Lst LstView LstBucket LstSpec.

Module PriorityQueue.
Import Lst LstView.

(** The comparison function is an argument of every operation, because it reads
    the elements, which the client changes while they are in no queue. *)
Class PriorityQueue (Q : Type) := {
  pq_insert : (ptr -> ptr -> Z) -> bool -> ptr -> Q -> option (Z * Q);
  pq_extract : (ptr -> ptr -> Z) -> ptr -> Q -> option (Z * Q);
  pq_peek : (ptr -> ptr -> Z) -> Q -> option (option ptr * Q);
  pq_num_elements : Q -> Z;
  pq_has : Q -> ptr -> Prop
}.

(** [pq_ok cmp front q]: [q] is a queue ordered by [cmp]; the last operation was a
    peek that returned [front], if that is not [None]. *)
Class PriorityQueueLaws (Q : Type) `{PriorityQueue Q} := {
  pq_ok : (ptr -> ptr -> Z) -> option ptr -> Q -> Prop;
  pq_insert_ok cmp fr mem d q : LstOrder cmp -> pq_ok cmp fr q -> pq_num_elements q < 2 ^ 30 ->
    exists r q', pq_insert cmp mem d q = Some (r, q') /\ pq_ok cmp None q'
      /\ ((r = 0 /\ ~ pq_has q d /\ pq_num_elements q' = pq_num_elements q + 1 /\ forall e, pq_has q' e <-> e = d \/ pq_has q e)
          \/ (r = -1 /\ (pq_has q d \/ mem = false) /\ pq_num_elements q' = pq_num_elements q /\ forall e, pq_has q' e <-> pq_has q e));
  pq_extract_ok cmp fr d q : LstOrder cmp -> pq_ok cmp fr q -> pq_has q d -> (fr = Some d \/ forall e, pq_has q e -> cmp d e = 0 -> e = d) ->
    exists q', pq_extract cmp d q = Some (0, q') /\ pq_ok cmp None q' /\ pq_num_elements q = pq_num_elements q' + 1
      /\ forall e, pq_has q' e <-> pq_has q e /\ e <> d;
  pq_peek_ok cmp fr q : LstOrder cmp -> pq_ok cmp fr q ->
    exists r q', pq_peek cmp q = Some (r, q') /\ pq_ok cmp r q' /\ pq_num_elements q' = pq_num_elements q /\ (forall e, pq_has q' e <-> pq_has q e)
      /\ match r with None => forall e, ~ pq_has q e | Some d => pq_has q d /\ forall e, pq_has q e -> cmp d e <= 0 end;
  pq_num_ok cmp fr q : pq_ok cmp fr q -> 0 <= pq_num_elements q /\ (pq_num_elements q = 0 <-> forall d, ~ pq_has q d);
  pq_forget cmp fr q : pq_ok cmp fr q -> pq_ok cmp None q;
  pq_ext cmp cmp' fr q : pq_ok cmp fr q -> (forall a b, pq_has q a -> pq_has q b -> cmp' a b = cmp a b) -> pq_ok cmp' fr q
}.

(** ** The tree *)

#[export] Instance lst_queue : PriorityQueue fr_lst_t := {|
  pq_insert := fr_lst_insert;
  pq_extract := fr_lst_extract;
  pq_peek cmp := fr_lst_peek cmp true;
  pq_num_elements := num_elements;
  pq_has := LstSpec.inserted
|}.

#[export] Program Instance lst_queue_laws : PriorityQueueLaws fr_lst_t := {| pq_ok cmp fr q := LstSpec.tree cmp q fr |}.
Next Obligation.
  intros cmp fr mem d q Hc Ht Hn. destruct (LstSpec.lst_insert_spec cmp mem d q fr Ht Hn) as (r & q' & E & [(-> & H1 & H2 & H3)|(-> & H1 & H2 & H3)]);
    eexists _, q'; (split; [done|]); (split; [done|]); [left|right]; done.
Qed.
Next Obligation.
  intros cmp fr d q Hc Ht Hd Hmay. destruct (LstSpec.lst_extract_spec cmp d q fr Ht (fun _ => Hmay)) as (r & q' & E & Ht' & _ & [(-> & _ & Hn & He)|(-> & Hno & _)]); [|done].
  by exists q'.
Qed.
Next Obligation. intros cmp fr q Hc Ht. by apply (LstSpec.lst_peek_spec cmp q fr). Qed.
Next Obligation.
  intros cmp fr q (f & O & HI & _). pose proof (LstSpec.num_within cmp q f O HI) as Hw. cbn [pq_num_elements pq_has lst_queue].
  rewrite (LstBucket.inv_num _ _ _ _ HI) in *. split; [lia|]. split.
  - intros E d. rewrite E in Hw. cbn in Hw. by rewrite (LstSpec.inserted_within cmp q f O d HI).
  - intros Hno. destruct (Z.eqb_spec (Z.of_nat (length f)) 0) as [|E]; [done|].
    destruct (LstBucket.inv_full _ _ _ _ HI 0%nat) as [d Hd]; [lia|]. exfalso. apply (Hno d). apply (LstSpec.inserted_within cmp q f O d HI). by exists 0%nat.
Qed.
Next Obligation. intros cmp fr q (f & O & HI & Hlen & _). by exists f, O. Qed.
Next Obligation. intros cmp cmp' fr q Ht Hext. by apply (LstSpec.tree_ext cmp). Qed.
End PriorityQueue.
