(* ===== verification/Timer.v ===== *)
(** The timers of src/lib/util/timer.c that are kept in a tree, in a list that has
    no parent list. A timer is memory that the client points to with a variable
    of its own; the list sets the variable to NULL when it frees the timer. While
    callbacks run, timers that they arm wait in the list [deferred]. A callback is
    a sequence of calls that its client decides on.

    Reading a timer that was freed, and an assertion that fails, have the result
    [None]. *)

From stdpp Require Import gmap.
From S2P Require Import Prelude UtilTime Lst PriorityQueue.

Module Timer.
Import UtilTime PriorityQueue.

(** An address of a timer. *)
Abbreviation ptr := nat.
(** A variable of a client that points to a timer. *)
Abbreviation var := nat.

(** [armed] is whether [tl] is not NULL; [callback] is the callback with its
    argument. *)
Record fr_timer_t := MkTimer {
  when : fr_time_t;
  callback : nat;
  linked_ctx : nat;
  parent : var;
  free_on_fire : bool;
  armed : bool
}.
#[export] Instance eta_timer : Eta fr_timer_t := fun t =>
  MkTimer (when t) (callback t) (linked_ctx t) (parent t) (free_on_fire t) (armed t).

(** [timers] is the memory of the timers, [vars] the variables that are not NULL;
    [calls] are the callbacks made so far. *)
Record fr_timer_list_t (Q : Type) := MkTl {
  lst : Q;
  in_handler : bool;
  deferred : list ptr;
  timers : gmap ptr fr_timer_t;
  vars : gmap var ptr;
  calls : list (ptr * fr_timer_t)
}.
Arguments MkTl {Q}.
Arguments lst {Q}.
Arguments in_handler {Q}.
Arguments deferred {Q}.
Arguments timers {Q}.
Arguments vars {Q}.
Arguments calls {Q}.
#[export] Instance eta_tl Q : Eta (fr_timer_list_t Q) := fun t =>
  MkTl (lst t) (in_handler t) (deferred t) (timers t) (vars t) (calls t).

(** The calls a callback may make. *)
Inductive action :=
  | At (ctx : nat) (ev_p : var) (when : fr_time_t) (free_on_fire : bool) (callback : nat)
  | Disarm (ev_p : var)
  | Delete (ev_p : var).

Section WithQueue.
Context {Q : Type} `{PriorityQueue Q}.
Abbreviation tl_t := (fr_timer_list_t Q).

(** [talloc_zero]: an address that is not in use, or no memory. *)
Variable alloc : gset ptr -> option ptr.
(** Whether the tree can be enlarged. *)
Variable mem : bool.

(** Only timers in the tree are compared, and those are not freed. *)
Definition timer_cmp (ts : gmap ptr fr_timer_t) (a b : ptr) : Z :=
  fr_time_cmp (from_option when 0 (ts !! a)) (from_option when 0 (ts !! b)).

(** ** Arming and disarming *)

Definition timer_lst_insert_at (ev : ptr) (tl : tl_t) : option (Z * tl_t) :=
  '(r, q) ← pq_insert (timer_cmp (timers tl)) mem ev (lst tl);
  Some (if r <? 0 then -1 else 0, tl <| lst := q |>).

Definition timer_lst_disarm (ev : ptr) (tl : tl_t) : option (Z * tl_t) :=
  if decide (ev ∈ deferred tl) then Some (0, tl <| deferred := filter (fun e => e <> ev) (deferred tl) |>)
  else
    '(r, q) ← pq_extract (timer_cmp (timers tl)) ev (lst tl);
    Some (if r =? 0 then 0 else -1, tl <| lst := q |>).

Definition fr_timer_disarm (ev : option ptr) (tl : tl_t) : option (Z * tl_t) :=
  match ev with
  | None => Some (0, tl)
  | Some ev =>
      t ← timers tl !! ev;
      if negb (armed t) then Some (0, tl)
      else if decide (vars tl !! parent t = Some ev) then
        '(r, tl) ← (if decide (ev ∈ deferred tl) then Some (0, tl <| deferred := filter (fun e => e <> ev) (deferred tl) |>)
                    else timer_lst_disarm ev tl);
        if r <? 0 then Some (r, tl)
        else Some (0, tl <| timers := <[ev := t <| armed := false |>]> (timers tl) |>)
      else None
  end.

(** [talloc_free] of a timer, with its destructor _timer_free. *)
Definition timer_free (ev : ptr) (tl : tl_t) : option (Z * tl_t) :=
  '(r, tl) ← fr_timer_disarm (Some ev) tl;
  if r <? 0 then Some (-1, tl)
  else
    t ← timers tl !! ev;
    if decide (vars tl !! parent t = Some ev) then
      Some (0, tl <| vars := delete (parent t) (vars tl) |> <| timers := delete ev (timers tl) |>)
    else None.

(** The first half of _fr_timer_at: the timer to use, [None] for a failure. *)
Definition timer_reuse (ctx : nat) (ev_p : var) (tl : tl_t) : option (option ptr * tl_t) :=
  match vars tl !! ev_p with
  | None => Some (alloc (dom (timers tl)), tl)
  | Some ev =>
      t ← timers tl !! ev;
      if negb (linked_ctx t =? ctx)%nat then '(_, tl) ← timer_free ev tl; Some (alloc (dom (timers tl)), tl)
      else if armed t then '(r, tl) ← fr_timer_disarm (Some ev) tl; Some (if r =? 0 then Some ev else None, tl)
      else Some (Some ev, tl)
  end.

Definition fr_timer_at (ctx : nat) (ev_p : var) (w : fr_time_t) (free : bool) (cb : nat) (tl : tl_t) : option (Z * tl_t) :=
  '(ev, tl) ← timer_reuse ctx ev_p tl;
  match ev with
  | None => Some (-1, tl)
  | Some ev =>
      let tl := tl <| timers := <[ev := MkTimer w cb ctx ev_p free true]> (timers tl) |> in
      '(r, tl) ← (if in_handler tl then Some (0, tl <| deferred := deferred tl ++ [ev] |>) else timer_lst_insert_at ev tl);
      if r <? 0 then Some (-1, tl <| timers := delete ev (timers tl) |> <| vars := delete ev_p (vars tl) |>)
      else Some (0, tl <| vars := <[ev_p := ev]> (vars tl) |>)
  end.

Definition fr_timer_delete (ev_p : var) (tl : tl_t) : option (Z * tl_t) :=
  match vars tl !! ev_p with
  | None => Some (0, tl)
  | Some ev =>
      '(r, tl) ← timer_free ev tl;
      Some (0, if r =? 0 then tl <| vars := delete ev_p (vars tl) |> else tl)
  end.

(** ** Running *)

Definition do_action (a : action) (tl : tl_t) : option tl_t :=
  '(_, tl) ← match a with
             | At ctx ev_p w free cb => fr_timer_at ctx ev_p w free cb tl
             | Disarm ev_p => fr_timer_disarm (vars tl !! ev_p) tl
             | Delete ev_p => fr_timer_delete ev_p tl
             end;
  Some tl.

Fixpoint do_actions (l : list action) (tl : tl_t) : option tl_t :=
  match l with
  | [] => Some tl
  | a :: l => tl ← do_action a tl; do_actions l tl
  end.

(** What the callback with a number does, for the timer that was at a variable. *)
Variable handler : nat -> var -> fr_time_t -> tl_t -> list action.

(** One round of the loop: [inl] when it ends, with the result and the new value of
    [*when]; else the timer that fires, disarmed, and freed if it asks for that. *)
Definition run_one (now : fr_time_t) (fired : Z) (tl : tl_t) : option ((Z * fr_time_t * tl_t) + (ptr * fr_timer_t * tl_t)) :=
  if pq_num_elements (lst tl) <=? 0 then Some (inl (fired, 0, tl))
  else
    '(ev, q) ← pq_peek (timer_cmp (timers tl)) (lst tl);
    ev ← ev;
    let tl := tl <| lst := q |> in
    t ← timers tl !! ev;
    if now <? when t then Some (inl (fired, when t, tl))
    else if decide (vars tl !! parent t = Some ev) then
      '(r, tl) ← fr_timer_disarm (Some ev) tl;
      if negb (r =? 0) then Some (inl (-2, now, tl))
      else
        tl ← (if free_on_fire t then '(_, tl) ← timer_free ev tl; Some tl else Some tl);
        Some (inr (ev, t, tl))
    else None.

Fixpoint timer_list_lst_run (fuel : nat) (now : fr_time_t) (fired : Z) (tl : tl_t) : option (Z * fr_time_t * tl_t) :=
  match fuel with
  | O => None
  | S fuel =>
      r ← run_one now fired tl;
      match r with
      | inl r => Some r
      | inr (ev, t, tl) =>
          let tl := tl <| calls := calls tl ++ [(ev, t)] |> in
          tl ← do_actions (handler (callback t) (parent t) now tl) tl;
          timer_list_lst_run fuel now (fired + 1) tl
      end
  end.

Fixpoint timer_list_lst_deferred (ds : list ptr) (tl : tl_t) : option (Z * tl_t) :=
  match ds with
  | [] => Some (0, tl <| deferred := [] |>)
  | ev :: ds =>
      '(r, tl) ← timer_lst_insert_at ev (tl <| deferred := ds |>);
      if r <? 0 then Some (-1, tl <| deferred := ev :: ds |>) else timer_list_lst_deferred ds tl
  end.

Definition fr_timer_list_run (now : fr_time_t) (tl : tl_t) : option (Z * fr_time_t * tl_t) :=
  let h := in_handler tl in
  let tl := tl <| in_handler := true |> in
  '(ret, w, tl) ← timer_list_lst_run (S (Z.to_nat (pq_num_elements (lst tl)))) now 0 tl;
  let tl := tl <| in_handler := h |> in
  match deferred tl with
  | [] => Some (ret, w, tl)
  | ds => '(r, tl) ← timer_list_lst_deferred ds tl; Some (if r <? 0 then -1 else ret, w, tl)
  end.

(** ** Freeing the list *)

Fixpoint timer_list_free_loop (fuel : nat) (tl : tl_t) : option (Z * tl_t) :=
  match fuel with
  | O => None
  | S fuel =>
      '(ev, q) ← pq_peek (timer_cmp (timers tl)) (lst tl);
      let tl := tl <| lst := q |> in
      match ev with
      | None => Some (0, tl)
      | Some ev => '(r, tl) ← timer_free ev tl; if r <? 0 then Some (-1, tl) else timer_list_free_loop fuel tl
      end
  end.

(** The destructor _timer_list_free. *)
Definition timer_list_free (tl : tl_t) : option (Z * tl_t) :=
  if in_handler tl then Some (-1, tl) else timer_list_free_loop (S (Z.to_nat (pq_num_elements (lst tl)))) tl.

(** ** Questions *)

(** [now] is what the clock of the list says. *)
Definition fr_timer_remaining (now : fr_time_t) (ev : ptr) (tl : tl_t) : option fr_time_delta_t :=
  t ← timers tl !! ev;
  Some (if negb (armed t) then 0 else fr_time_sub_time_time now (when t)).

Definition fr_timer_list_num_events (tl : tl_t) : Z := u64 (pq_num_elements (lst tl) + Z.of_nat (length (deferred tl))).

Definition timer_list_when (tl : tl_t) : option (option fr_time_t * tl_t) :=
  '(ev, q) ← pq_peek (timer_cmp (timers tl)) (lst tl);
  match ev with
  | None => Some (None, tl <| lst := q |>)
  | Some ev => t ← timers tl !! ev; Some (Some (when t), tl <| lst := q |>)
  end.

Definition fr_timer_list_when (tl : tl_t) : option (fr_time_t * tl_t) :=
  '(w, tl) ← timer_list_when tl; Some (default 0 w, tl).
End WithQueue.

(** A list without a parent; [a] and [b] are random numbers. *)
Definition fr_timer_list_lst_alloc (mem : bool) (a b : Z) : option (fr_timer_list_t Lst.fr_lst_t) :=
  q ← Lst.fr_lst_alloc mem 0 a b (fun _ => 0);
  Some (MkTl q false [] ∅ ∅ []).
End Timer.
