(* ===== verification/TimerInv.v ===== *)
(** The invariant of a timer list (Timer): the tree has the armed timers that are
    not deferred, and the variables of the clients point to the timers. Arming,
    disarming and freeing keep it. *)

From stdpp Require Import gmap.
From S2P Require Import Prelude UtilTime Lst LstView PriorityQueue Timer.

Module TimerInv.
Import UtilTime PriorityQueue Timer.

Ltac set_fields := cbn [upd lst in_handler deferred timers vars calls when callback linked_ctx parent free_on_fire armed] in *.

#[export] Instance timer_order ts : LstView.LstOrder (timer_cmp ts).
Proof. split; intros; unfold timer_cmp, fr_time_cmp, Z.b2z in *; repeat case_match; simpl_bool; lia. Qed.

(** ** The armed timers *)

Definition armed_set (ts : gmap ptr fr_timer_t) : gset ptr := dom (filter (fun x => armed x.2 = true) ts).

Lemma elem_of_armed ts ev : ev ∈ armed_set ts <-> exists t, ts !! ev = Some t /\ armed t = true.
Proof.
  unfold armed_set. rewrite elem_of_dom. unfold is_Some. split; intros [t Ht]; exists t; [by apply map_lookup_filter_Some in Ht|by apply map_lookup_filter_Some].
Qed.

Lemma armed_set_size ts : (size (armed_set ts) <= size (dom ts))%nat.
Proof. apply subseteq_size. intros ev Hev. apply elem_of_armed in Hev as (t & Ht & _). by apply elem_of_dom_2 in Ht. Qed.

Lemma armed_set_arm ts ev t : ev ∉ armed_set ts -> armed t = true -> size (armed_set (<[ev := t]> ts)) = S (size (armed_set ts)).
Proof.
  intros Hev Ht. replace (armed_set (<[ev := t]> ts)) with ({[ev]} ∪ armed_set ts); [rewrite size_union by set_solver; by rewrite size_singleton|].
  apply leibniz_equiv. intros e. rewrite elem_of_union, elem_of_singleton, !elem_of_armed. destruct (decide (e = ev)) as [-> |Hne].
  - rewrite lookup_insert_eq. naive_solver.
  - rewrite lookup_insert_ne by done. naive_solver.
Qed.

(** [ts'] has no more than [ts] but for [ev], which is not armed in it. *)
Lemma armed_set_disarm ts ts' ev t : ts !! ev = Some t -> armed t = true -> (forall e, e <> ev -> ts' !! e = ts !! e) ->
  (forall t', ts' !! ev = Some t' -> armed t' = false) -> size (armed_set ts) = S (size (armed_set ts')).
Proof.
  intros Hev Ht Hother Hev'. replace (armed_set ts) with ({[ev]} ∪ armed_set ts').
  - rewrite size_union; [by rewrite size_singleton|]. intros e He1 He2. apply elem_of_singleton in He1 as ->. apply elem_of_armed in He2 as (t' & E & Ha).
    apply Hev' in E. congruence.
  - apply leibniz_equiv. intros e. rewrite elem_of_union, elem_of_singleton, !elem_of_armed. destruct (decide (e = ev)) as [-> |Hne]; [naive_solver|].
    rewrite Hother by done. naive_solver.
Qed.

Lemma armed_set_same ts ts' : (forall e, e ∈ armed_set ts' <-> e ∈ armed_set ts) -> armed_set ts' = armed_set ts.
Proof. intros H. by apply leibniz_equiv. Qed.

Section WithQueue.
Context {Q : Type} `{!PriorityQueue Q} `{!PriorityQueueLaws Q}.
Abbreviation tl_t := (fr_timer_list_t Q).

(** ** The invariant *)

(** [front] is what the last peek at the tree returned. *)
Record good (front : option ptr) (tl : tl_t) : Prop := {
  g_queue : pq_ok (timer_cmp (timers tl)) front (lst tl);
  g_nodup : NoDup (deferred tl);
  g_deferred : forall ev, ev ∈ deferred tl -> exists t, timers tl !! ev = Some t /\ armed t = true;
  g_main : forall ev, pq_has (lst tl) ev <-> exists t, timers tl !! ev = Some t /\ armed t = true /\ ev ∉ deferred tl;
  g_vars : forall v ev, vars tl !! v = Some ev <-> exists t, timers tl !! ev = Some t /\ parent t = v;
  g_num : pq_num_elements (lst tl) + Z.of_nat (length (deferred tl)) = Z.of_nat (size (armed_set (timers tl)));
  g_size : Z.of_nat (size (dom (timers tl))) <= 2 ^ 30
}.

(** The tree may be asked to extract the timer: it was just peeked at, or no other
    timer in the tree has the same time. *)
Definition may_extract (front : option ptr) (tl : tl_t) (ev : ptr) : Prop :=
  front = Some ev \/ forall e t te, timers tl !! ev = Some t -> pq_has (lst tl) e -> timers tl !! e = Some te -> when te = when t -> e = ev.

Lemma cmp_zero ts a b ta tb : ts !! a = Some ta -> ts !! b = Some tb -> timer_cmp ts a b = 0 <-> when tb = when ta.
Proof. intros Ha Hb. unfold timer_cmp, fr_time_cmp, Z.b2z. rewrite Ha, Hb. cbn. repeat case_match; simpl_bool; lia. Qed.

(** Comparisons only read the times of the timers in the tree. *)
Lemma queue_ext ts ts' fr (q : Q) : pq_ok (timer_cmp ts) fr q -> (forall e, pq_has q e -> when <$> ts' !! e = when <$> ts !! e) -> pq_ok (timer_cmp ts') fr q.
Proof.
  intros Hq Hw. eapply pq_ext; [exact Hq|]. intros a b Ha Hb. apply Hw in Ha, Hb. unfold timer_cmp.
  assert (forall o : option fr_timer_t, from_option when 0 o = default 0 (when <$> o)) as Hd by (by intros []). by rewrite !Hd, Ha, Hb.
Qed.

Lemma good_forget fr tl : good fr tl -> good None tl.
Proof. intros []. split; try done. by eapply pq_forget. Qed.

(** ** Disarming *)

(** What a timer list looks like after [ev] was disarmed. *)
Record disarmed (ev : ptr) (t : fr_timer_t) (tl tl' : tl_t) : Prop := {
  di_timers : timers tl' = <[ev := t <| armed := false |>]> (timers tl);
  di_vars : vars tl' = vars tl;
  di_handler : in_handler tl' = in_handler tl;
  di_calls : calls tl' = calls tl;
  di_deferred : deferred tl' = filter (fun e => e <> ev) (deferred tl);
  di_has : forall e, pq_has (lst tl') e <-> pq_has (lst tl) e /\ e <> ev
}.

Lemma filter_ne_notin (ev : ptr) (l : list ptr) : ev ∉ l -> filter (fun e => e <> ev) l = l.
Proof.
  induction l as [|x l IH]; intros Hev; [done|]. rewrite list.not_elem_of_cons in Hev. rewrite filter_cons_True by (intros ->; by destruct Hev).
  rewrite IH; [done|]. by destruct Hev.
Qed.

Lemma filter_ne_length (ev : ptr) (l : list ptr) : NoDup l -> ev ∈ l -> length l = S (length (filter (fun e => e <> ev) l)).
Proof.
  intros Hnd. induction Hnd as [|x l Hx Hnd IH]; intros Hev; [by apply list.not_elem_of_nil in Hev|]. destruct (decide (x = ev)) as [-> |Hne].
  - rewrite filter_cons_False by naive_solver. by rewrite filter_ne_notin.
  - rewrite filter_cons_True by done. apply list.elem_of_cons in Hev as [-> |Hev]; [done|]. cbn. by rewrite <- IH.
Qed.

(** Removing an armed timer from the tree or from the deferred ones keeps the
    invariant. *)
Lemma disarmed_good fr ev t (tl tl' : tl_t) : good fr tl -> timers tl !! ev = Some t -> armed t = true -> disarmed ev t tl tl' ->
  pq_ok (timer_cmp (timers tl)) None (lst tl') ->
  pq_num_elements (lst tl) + Z.of_nat (length (deferred tl)) = pq_num_elements (lst tl') + Z.of_nat (length (deferred tl')) + 1 -> good None tl'.
Proof.
  intros [Hq Hnd Hdef Hmain Hvars Hnum Hsize] Ht Ha [Et Ev _ _ Ed Eh] Hq' Hn. split; rewrite ?Et, ?Ev, ?Ed.
  - eapply queue_ext; [exact Hq'|]. intros e He. apply Eh in He as [_ He]. by rewrite lookup_insert_ne.
  - by apply list.NoDup_filter.
  - intros e He. apply list_elem_of_filter in He as [Hne He]. rewrite lookup_insert_ne by done. by apply Hdef.
  - intros e. rewrite Eh, Hmain. destruct (decide (e = ev)) as [-> |Hne].
    + rewrite lookup_insert_eq. split; [by intros [_ ?]|]. intros (t' & [= <-] & Ha' & _). done.
    + rewrite lookup_insert_ne by done. setoid_rewrite list_elem_of_filter. naive_solver.
  - intros v e. rewrite Hvars. destruct (decide (e = ev)) as [-> |Hne]; [|by rewrite lookup_insert_ne].
    rewrite lookup_insert_eq, Ht. split; intros (x & [= <-] & Hx); eexists; (split; [done|]); by destruct t.
  - rewrite (armed_set_disarm (timers tl) (<[ev := t <| armed := false |>]> (timers tl)) ev t) in Hnum; [rewrite Ed in Hn; lia|done|done| |].
    + intros e He. by rewrite lookup_insert_ne.
    + intros t'. rewrite lookup_insert_eq. by intros [= <-].
  - rewrite dom_insert_lookup_L; [done|by eexists].
Qed.

Lemma disarm_ok fr ev t (tl : tl_t) : good fr tl -> timers tl !! ev = Some t -> (pq_has (lst tl) ev -> may_extract fr tl ev) ->
  exists tl', fr_timer_disarm (Some ev) tl = Some (0, tl') /\ good None tl' /\ disarmed ev t tl tl' /\ pq_num_elements (lst tl') <= pq_num_elements (lst tl)
    /\ (pq_has (lst tl) ev -> pq_num_elements (lst tl) = pq_num_elements (lst tl') + 1).
Proof.
  intros Hg Ht Hmay. unfold fr_timer_disarm. rewrite Ht. cbn [mbind option_bind]. destruct (armed t) eqn:Ha; cbn [negb].
  - rewrite decide_True by (apply (g_vars _ _ Hg); by exists t). destruct (decide (ev ∈ deferred tl)) as [Hd|Hd]; cbn [mbind option_bind].
    + cbn [Z.ltb Z.compare]. eexists. split; [done|]. assert (~ pq_has (lst tl) ev) as Hno by (rewrite (g_main _ _ Hg); by intros (? & _ & _ & ?)).
      match goal with |- good None ?x /\ _ => assert (disarmed ev t tl x) as Hdis end.
      { split; set_fields; try done. intros e. split; [|by intros [? _]]. intros He. split; [done|]. by intros ->. }
      split; [|set_fields; by split; [done|split; [done|intros Hx]]]. eapply (disarmed_good fr ev t tl); [done|done|done|done| |].
      * set_fields. eapply pq_forget. apply Hg.
      * set_fields. rewrite (filter_ne_length ev (deferred tl)) by (done || apply Hg). lia.
    + unfold timer_lst_disarm. rewrite decide_False by done. assert (pq_has (lst tl) ev) as Hhas by (apply (g_main _ _ Hg); by exists t).
      destruct (pq_extract_ok (timer_cmp (timers tl)) fr ev (lst tl) (timer_order _) (g_queue _ _ Hg) Hhas) as (q & -> & Hq & Hn & He).
      { destruct (Hmay Hhas) as [Hf|Hu]; [by left|right]. intros e Hhe. pose proof Hhe as Hm. apply (g_main _ _ Hg) in Hm as (te & Hte & _ & _).
        rewrite (cmp_zero _ ev e t te Ht Hte). by apply (Hu e t te). }
      cbn [mbind option_bind]. change (0 =? 0) with true. cbv iota. cbn [Z.ltb Z.compare]. eexists. split; [done|].
      match goal with |- good None ?x /\ _ => assert (disarmed ev t tl x) as Hdis end.
      { split; set_fields; try done. by rewrite filter_ne_notin. }
      split; [|set_fields; split; [done|split; lia]]. eapply (disarmed_good fr ev t tl); try done. set_fields. lia.
  - assert (~ pq_has (lst tl) ev) as Hno by (intros Hx; apply (g_main _ _ Hg) in Hx as (t' & ? & ? & _); congruence).
    exists tl. split; [done|]. split; [by eapply good_forget|]. split; [|by split; [done|intros Hx]].
    assert (ev ∉ deferred tl) as Hd by (intros Hd; apply (g_deferred _ _ Hg) in Hd as (t' & ? & ?); congruence). split; try done.
    + rewrite insert_id; [done|]. rewrite Ht. by destruct t; cbn in *; subst.
    + by rewrite filter_ne_notin.
    + intros e. split; [|by intros [? _]]. intros He. split; [done|]. by intros ->.
Qed.

(** ** Freeing *)

Lemma good_delete fr ev t (tl : tl_t) : good fr tl -> timers tl !! ev = Some t -> armed t = false ->
  good fr (tl <| vars := delete (parent t) (vars tl) |> <| timers := delete ev (timers tl) |>).
Proof.
  intros [Hq Hnd Hdef Hmain Hvars Hnum Hsize] Ht Ha. assert (forall e te, timers tl !! e = Some te -> armed te = true -> e <> ev) as Hne by (intros; congruence).
  assert (vars tl !! parent t = Some ev) as Hp by (apply Hvars; by exists t). split; set_fields.
  - eapply queue_ext; [exact Hq|]. intros e He. apply Hmain in He as (te & Hte & Hae & _). rewrite lookup_delete_ne; [done|]. intros <-. by apply (Hne ev te).
  - done.
  - intros e He. destruct (Hdef e He) as (te & Hte & Hae). exists te. rewrite lookup_delete_ne; [done|]. intros <-. by apply (Hne ev te).
  - intros e. rewrite Hmain. split; intros (te & Hte & Hae & Hd); exists te; (split; [|done]).
    + rewrite lookup_delete_ne; [done|]. intros <-. by apply (Hne ev te).
    + by apply lookup_delete_Some in Hte as [_ Hte].
  - intros v e. destruct (decide (v = parent t)) as [-> |Hv].
    + rewrite lookup_delete_eq. split; [done|]. intros (te & Hte & Hpe). apply lookup_delete_Some in Hte as [Hee Hte]. exfalso. apply Hee.
      assert (vars tl !! parent t = Some e) as Hp' by (apply Hvars; by exists te). congruence.
    + rewrite lookup_delete_ne by done. rewrite Hvars. split; intros (te & Hte & Hpe); exists te; (split; [|done]).
      * rewrite lookup_delete_ne; [done|]. intros <-. congruence.
      * by apply lookup_delete_Some in Hte as [_ Hte].
  - rewrite Hnum. f_equal. f_equal. symmetry. apply armed_set_same. intros e. rewrite !elem_of_armed. split; intros (te & Hte & Hae); exists te; (split; [|done]).
    + by apply lookup_delete_Some in Hte as [_ Hte].
    + rewrite lookup_delete_ne; [done|]. intros <-. by apply (Hne ev te).
  - rewrite dom_delete_L. assert (size (dom (timers tl) ∖ {[ev]}) <= size (dom (timers tl)))%nat by (apply subseteq_size; set_solver). lia.
Qed.

Lemma free_ok fr ev t (tl : tl_t) : good fr tl -> timers tl !! ev = Some t -> (pq_has (lst tl) ev -> may_extract fr tl ev) ->
  exists tl', timer_free ev tl = Some (0, tl') /\ good None tl' /\ timers tl' = delete ev (timers tl) /\ vars tl' = delete (parent t) (vars tl)
    /\ in_handler tl' = in_handler tl /\ calls tl' = calls tl /\ deferred tl' = filter (fun e => e <> ev) (deferred tl)
    /\ (forall e, pq_has (lst tl') e <-> pq_has (lst tl) e /\ e <> ev) /\ pq_num_elements (lst tl') <= pq_num_elements (lst tl)
    /\ (pq_has (lst tl) ev -> pq_num_elements (lst tl) = pq_num_elements (lst tl') + 1).
Proof.
  intros Hg Ht Hmay. destruct (disarm_ok fr ev t tl Hg Ht Hmay) as (tl1 & E & Hg1 & [Et Ev Eh Ec Ed El] & Hn & Hn'). unfold timer_free. rewrite E. cbn [mbind option_bind].
  cbn [Z.ltb Z.compare]. assert (timers tl1 !! ev = Some (t <| armed := false |>)) as Ht1 by (rewrite Et; apply lookup_insert_eq). rewrite Ht1. cbn [mbind option_bind].
  change (parent (t <| armed := false |>)) with (parent t). rewrite decide_True by (apply (g_vars _ _ Hg1); by exists (t <| armed := false |>)).
  eexists. split; [done|]. split; [by apply (good_delete None ev (t <| armed := false |>) tl1 Hg1 Ht1)|]. set_fields. rewrite Et, Ev. rewrite delete_insert_eq. done.
Qed.

(** ** Arming *)

(** The timer of a variable, if it has one, may be touched. *)
Definition may_touch (tl : tl_t) (v : var) : Prop := forall ev, vars tl !! v = Some ev -> pq_has (lst tl) ev -> may_extract None tl ev.

(** [ev] can be armed for the variable [v]. *)
Definition ready (tl : tl_t) (v : var) (ev : ptr) : Prop :=
  (timers tl !! ev = None /\ vars tl !! v = None /\ Z.of_nat (size (dom (timers tl))) < 2 ^ 30)
  \/ (exists t, timers tl !! ev = Some t /\ armed t = false /\ parent t = v).

(** What an operation on the variable [v] leaves alone. *)
Record spares (v : var) (tl tl' : tl_t) : Prop := {
  sp_handler : in_handler tl' = in_handler tl;
  sp_calls : calls tl' = calls tl;
  sp_has : forall e, vars tl !! v <> Some e -> pq_has (lst tl) e -> pq_has (lst tl') e;
  sp_timers : forall e, pq_has (lst tl') e -> vars tl !! v <> Some e -> timers tl' !! e = timers tl !! e
}.

Lemma good_unarmed fr (tl : tl_t) e : good fr tl -> (forall t, timers tl !! e = Some t -> armed t = false) -> ~ pq_has (lst tl) e /\ e ∉ deferred tl.
Proof.
  intros Hg He. split.
  - intros Hh. apply (g_main _ _ Hg) in Hh as (t & Ht & Ha & _). apply He in Ht. congruence.
  - intros Hd. apply (g_deferred _ _ Hg) in Hd as (t & Ht & Ha). apply He in Ht. congruence.
Qed.

Lemma ready_unarmed (tl : tl_t) v ev : ready tl v ev -> forall t, timers tl !! ev = Some t -> armed t = false.
Proof. intros [(E & _)|(t0 & E & Ha & _)] t Ht; congruence. Qed.

Section Alloc.
Variable alloc : gset ptr -> option ptr.
(** Memory that is allocated is not in use, and there is not room for more than
    2^30 timers. *)
Hypothesis alloc_fresh : forall X ev, alloc X = Some ev -> (ev ∉ X) /\ Z.of_nat (size X) < 2 ^ 30.

Lemma alloc_ready (tl : tl_t) v : vars tl !! v = None -> match alloc (dom (timers tl)) with None => True | Some ev => ready tl v ev end.
Proof.
  intros Hv. destruct (alloc (dom (timers tl))) as [ev|] eqn:E; [|done]. apply alloc_fresh in E as [Hev Hs]. left. split; [|done]. by apply not_elem_of_dom in Hev.
Qed.

Lemma reuse_ok ctx v (tl : tl_t) : good None tl -> may_touch tl v ->
  exists o tl', timer_reuse alloc ctx v tl = Some (o, tl') /\ good None tl' /\ spares v tl tl' /\ match o with None => True | Some ev => ready tl' v ev end
    /\ (forall e, pq_has (lst tl') e <-> pq_has (lst tl) e /\ vars tl !! v <> Some e) /\ pq_num_elements (lst tl') <= pq_num_elements (lst tl).
Proof.
  intros Hg Hmay. unfold timer_reuse. destruct (vars tl !! v) as [ev|] eqn:Ev.
  - pose proof Ev as Hp. apply (g_vars _ _ Hg) in Hp as (t & Ht & Hpt). rewrite Ht. cbn [mbind option_bind].
    assert (pq_has (lst tl) ev -> may_extract None tl ev) as Hmay' by (by apply Hmay).
    assert (forall e, Some ev <> Some e <-> e <> ev) as Hsome by naive_solver.
    destruct (Nat.eqb_spec (linked_ctx t) ctx) as [Hctx|Hctx]; cbn [negb].
    + destruct (armed t) eqn:Ha.
      * destruct (disarm_ok None ev t tl Hg Ht Hmay') as (tl1 & -> & Hg1 & [Et Evs Eh Ec Ed El] & Hn & _). cbn [mbind option_bind]. change (0 =? 0) with true. cbv iota.
        exists (Some ev), tl1. split; [done|]. split; [done|]. split.
        { split; [done|done| |]; rewrite Ev; intros e; rewrite El, Hsome; [done|]. intros _ Hne. rewrite Et. by rewrite lookup_insert_ne. }
        split; [right; exists (t <| armed := false |>); rewrite Et, lookup_insert_eq; by split|]. split; [|done]. intros e. by rewrite El, Hsome.
      * exists (Some ev), tl. split; [done|]. split; [done|]. split; [by split|]. split; [right; by exists t|]. split; [|done].
        intros e. rewrite Hsome. split; [|by intros [? _]]. intros He. split; [done|]. intros ->.
        destruct (good_unarmed None tl ev Hg) as [Hno _]; [intros; congruence|done].
    + destruct (free_ok None ev t tl Hg Ht Hmay') as (tl1 & -> & Hg1 & Et & Evs & Eh & Ec & Ed & El & Hn & _). cbn [mbind option_bind].
      exists (alloc (dom (timers tl1))), tl1. split; [done|]. split; [done|]. split.
      { split; [done|done| |]; rewrite Ev; intros e; rewrite El, Hsome; [done|]. intros _ Hne. rewrite Et. by rewrite lookup_delete_ne. }
      split; [apply alloc_ready; rewrite Evs, Hpt; apply lookup_delete_eq|]. split; [|done]. intros e. by rewrite El, Hsome.
  - exists (alloc (dom (timers tl))), tl. split; [done|]. split; [done|]. split; [by split|]. split; [by apply alloc_ready|]. split; [|done]. naive_solver.
Qed.
End Alloc.
End WithQueue.
End TimerInv.
