(* ===== verification/TimerArm.v ===== *)
(** Arming a timer (Timer), inside a callback and outside of one, and the other
    calls of a callback: they keep the invariant (TimerInv), and inside a callback
    nothing is added to the tree. *)

From stdpp Require Import gmap.
From S2P Require Import Prelude UtilTime Lst LstView PriorityQueue Timer TimerInv.

Module TimerArm.
Import UtilTime PriorityQueue Timer TimerInv.

Section WithQueue.
Context {Q : Type} `{!PriorityQueue Q} `{!PriorityQueueLaws Q}.
Abbreviation tl_t := (fr_timer_list_t Q).

(** [ev] is armed, in the tree or as a deferred timer. *)
Lemma arm_good (tl tl' : tl_t) v ev T : good None tl -> ready tl v ev -> timers tl' = <[ev := T]> (timers tl) -> armed T = true -> parent T = v ->
  vars tl' = <[v := ev]> (vars tl) -> pq_ok (timer_cmp (timers tl')) None (lst tl') -> NoDup (deferred tl') ->
  (forall e, e <> ev -> e ∈ deferred tl' <-> e ∈ deferred tl) -> (forall e, pq_has (lst tl') e <-> pq_has (lst tl) e \/ (e = ev /\ ev ∉ deferred tl')) ->
  pq_num_elements (lst tl') + Z.of_nat (length (deferred tl')) = pq_num_elements (lst tl) + Z.of_nat (length (deferred tl)) + 1 -> good None tl'.
Proof.
  intros Hg Hr Et Ha Hp Ev Hq Hnd Hdef Hhas Hn. pose proof (ready_unarmed tl v ev Hr) as Hun. destruct (good_unarmed None tl ev Hg Hun) as [Hnh Hnd0].
  pose proof Hg as [_ _ Hdef0 Hmain0 Hvars0 Hnum0 Hsize0]. split; try done; rewrite ?Et, ?Ev.
  - intros e He. destruct (decide (e = ev)) as [-> |Hne]; [rewrite lookup_insert_eq; by exists T|]. rewrite lookup_insert_ne by done. by apply Hdef0, Hdef.
  - intros e. rewrite Hhas, Hmain0. destruct (decide (e = ev)) as [-> |Hne].
    + rewrite lookup_insert_eq. split.
      * intros [(t & Ht & Hat & _)|[_ Hd]]; [apply Hun in Ht; congruence|by exists T].
      * intros (t & _ & _ & Hd). by right.
    + rewrite lookup_insert_ne by done. pose proof (Hdef e Hne). naive_solver.
  - assert (forall e te, timers tl !! e = Some te -> parent te = v -> e = ev) as Huniq.
    { intros e te Hte Hpe. assert (vars tl !! v = Some e) as Hve by (apply Hvars0; by exists te). destruct Hr as [(_ & Hv & _)|(t & Ht & _ & Hpt)]; [congruence|].
      assert (vars tl !! v = Some ev) by (apply Hvars0; by exists t). congruence. }
    intros v' e. destruct (decide (v' = v)) as [-> |Hv].
    + rewrite lookup_insert_eq. destruct (decide (e = ev)) as [-> |Hne]; [rewrite lookup_insert_eq; naive_solver|]. rewrite lookup_insert_ne by done.
      split; [congruence|]. intros (te & Hte & Hpe). exfalso. by apply Hne, (Huniq e te).
    + rewrite lookup_insert_ne by done. destruct (decide (e = ev)) as [-> |Hne]; [|rewrite lookup_insert_ne by done; apply Hvars0]. rewrite lookup_insert_eq, Hvars0. split.
      * intros (t & Ht & Hpt). destruct Hr as [(E & _)|(t0 & Ht0 & _ & Hpt0)]; congruence.
      * intros (t & [= <-] & Hpt). congruence.
  - rewrite (armed_set_arm (timers tl) ev T); [lia| |done]. rewrite elem_of_armed. intros (t & Ht & Hat). apply Hun in Ht. congruence.
  - destruct Hr as [(E & _ & Hs)|(t & Ht & _)].
    + rewrite dom_insert_L, size_union by (apply not_elem_of_dom in E; set_solver). rewrite size_singleton. lia.
    + rewrite dom_insert_lookup_L by (by eexists). done.
Qed.

(** There is room for one more timer in the tree. *)
Lemma ready_room (tl : tl_t) v ev T : good None tl -> ready tl v ev -> armed T = true -> pq_num_elements (lst tl) < 2 ^ 30.
Proof.
  intros Hg Hr Ha. pose proof (ready_unarmed tl v ev Hr) as Hun. pose proof (g_num _ _ Hg) as Hn. pose proof (armed_set_size (<[ev := T]> (timers tl))) as Hs.
  rewrite armed_set_arm in Hs; [|rewrite elem_of_armed; intros (t & Ht & Hat); apply Hun in Ht; congruence|done].
  assert (Z.of_nat (size (dom (<[ev := T]> (timers tl)))) <= 2 ^ 30) as Hd; [|lia]. pose proof (g_size _ _ Hg). destruct Hr as [(E & _ & Hs')|(t & Ht & _)].
  - rewrite dom_insert_L, size_union by (apply not_elem_of_dom in E; set_solver). rewrite size_singleton. lia.
  - rewrite dom_insert_lookup_L by (by eexists). done.
Qed.

Lemma ready_queue (tl : tl_t) v ev T : good None tl -> ready tl v ev -> pq_ok (timer_cmp (<[ev := T]> (timers tl))) None (lst tl).
Proof.
  intros Hg Hr. destruct (good_unarmed None tl ev Hg (ready_unarmed tl v ev Hr)) as [Hnh _]. eapply queue_ext; [apply Hg|]. intros e He.
  rewrite lookup_insert_ne; [done|]. by intros ->.
Qed.

Section Alloc.
Variable alloc : gset ptr -> option ptr.
Hypothesis alloc_fresh : forall X ev, alloc X = Some ev -> (ev ∉ X) /\ Z.of_nat (size X) < 2 ^ 30.

(** In a callback the timer is deferred. *)
Lemma at_deferred mem ctx v w free cb (tl : tl_t) : good None tl -> may_touch tl v -> in_handler tl = true ->
  exists r tl', fr_timer_at alloc mem ctx v w free cb tl = Some (r, tl') /\ good None tl' /\ spares v tl tl'
    /\ (forall e, pq_has (lst tl') e <-> pq_has (lst tl) e /\ vars tl !! v <> Some e) /\ pq_num_elements (lst tl') <= pq_num_elements (lst tl).
Proof.
  intros Hg Hmay Hh. destruct (reuse_ok alloc alloc_fresh ctx v tl Hg Hmay) as (o & tl1 & E & Hg1 & Hsp & Hr & El & Hn). unfold fr_timer_at. rewrite E. cbn [mbind option_bind].
  destruct o as [ev|]; [|by exists (-1), tl1]. assert (in_handler tl1 = true) as Hh1 by (by rewrite (sp_handler _ _ _ Hsp)). set_fields. rewrite Hh1. cbn [mbind option_bind Z.ltb Z.compare].
  destruct (good_unarmed None tl1 ev Hg1 (ready_unarmed tl1 v ev Hr)) as [Hnh Hnd]. eexists 0, _. split; [done|]. split.
  - eapply (arm_good tl1 _ v ev (MkTimer w cb ctx v free true)); try done; set_fields.
    + by eapply ready_queue.
    + apply list.NoDup_app. split; [apply Hg1|]. split; [|apply NoDup_singleton]. intros e He Hx. apply list_elem_of_singleton in Hx as ->. done.
    + intros e Hne. rewrite list.elem_of_app, list_elem_of_singleton. naive_solver.
    + intros e. split; [by left|]. intros [?|[_ Hx]]; [done|]. exfalso. apply Hx. rewrite list.elem_of_app, list_elem_of_singleton. by right.
    + rewrite length_app. cbn. lia.
  - split; [|by set_fields]. destruct Hsp as [H1 H2 H3 H4]. split; set_fields; [done|done|done|]. intros e He Hv. rewrite lookup_insert_ne; [by apply H4|]. by intros ->.
Qed.

(** Outside of one it is in the tree, or freed when there is no memory. *)
Lemma at_inserted mem ctx v w free cb (tl : tl_t) : good None tl -> may_touch tl v -> in_handler tl = false ->
  exists r tl', fr_timer_at alloc mem ctx v w free cb tl = Some (r, tl') /\ good None tl' /\ in_handler tl' = false
    /\ ((r = 0 /\ exists ev, vars tl' !! v = Some ev /\ timers tl' !! ev = Some (MkTimer w cb ctx v free true)
           /\ forall e, pq_has (lst tl') e <-> e = ev \/ (pq_has (lst tl) e /\ vars tl !! v <> Some e))
        \/ (r = -1 /\ forall e, pq_has (lst tl') e <-> pq_has (lst tl) e /\ vars tl !! v <> Some e)).
Proof.
  intros Hg Hmay Hh. destruct (reuse_ok alloc alloc_fresh ctx v tl Hg Hmay) as (o & tl1 & E & Hg1 & Hsp & Hr & El & Hn). unfold fr_timer_at. rewrite E. cbn [mbind option_bind].
  assert (in_handler tl1 = false) as Hh1 by (by rewrite (sp_handler _ _ _ Hsp)). destruct o as [ev|]; [|exists (-1), tl1; split; [done|]; split; [done|]; split; [done|by right]]. set_fields. rewrite Hh1.
  set (T := MkTimer w cb ctx v free true). destruct (good_unarmed None tl1 ev Hg1 (ready_unarmed tl1 v ev Hr)) as [Hnh Hnd]. unfold timer_lst_insert_at. set_fields.
  destruct (pq_insert_ok (timer_cmp (<[ev := T]> (timers tl1))) None mem ev (lst tl1) (timer_order _) (ready_queue tl1 v ev T Hg1 Hr)
              (ready_room tl1 v ev T Hg1 Hr eq_refl)) as (r & q & -> & Hq & [(-> & _ & Hn' & He)|(-> & _ & Hn' & He)]); cbn [mbind option_bind Z.ltb Z.compare].
  - eexists 0, _. split; [done|]. split; [|split; [done|]; left; split; [done|]; exists ev; set_fields; rewrite !lookup_insert_eq; split; [done|]; split; [done|]; intros e; by rewrite He, El].
    eapply (arm_good tl1 _ v ev T); try done; set_fields.
    + apply Hg1.
    + intros e. rewrite He. naive_solver.
    + lia.
  - eexists (-1), _. split; [done|]. split; [|split; [done|]; right; split; [done|]; intros e; set_fields; by rewrite He, El].
    assert (forall e, pq_has (lst tl1) e -> e <> ev) as Hne by (intros e Hx ->; done).
    destruct Hr as [(Hfresh & Hv & _)|(t & Ht & Hat & Hpt)].
    + assert (delete ev (<[ev := T]> (timers tl1)) = timers tl1) as Edel by (rewrite delete_insert_eq; by apply delete_id).
      destruct Hg1. split; set_fields; rewrite ?Edel, ?delete_id by done; try done; [|intros e; by rewrite He|by rewrite Hn'].
      eapply queue_ext; [exact Hq|]. intros e Hx. apply He in Hx. by rewrite lookup_insert_ne by (intros <-; by apply (Hne ev)).
    + pose proof (good_delete None ev t tl1 Hg1 Ht Hat) as []. rewrite Hpt in *. split; set_fields; rewrite ?delete_insert_eq; try done; [|intros e; by rewrite He|by rewrite Hn'].
      eapply queue_ext; [exact Hq|]. intros e Hx. apply He, Hne in Hx. by rewrite lookup_delete_ne, lookup_insert_ne by done.
Qed.

(** ** The calls of a callback *)

Definition action_var (a : action) : var := match a with At _ v _ _ _ | Disarm v | Delete v => v end.

Lemma action_ok mem a (tl : tl_t) : good None tl -> may_touch tl (action_var a) -> match a with At _ _ _ _ _ => in_handler tl = true | _ => True end ->
  exists tl', do_action alloc mem a tl = Some tl' /\ good None tl' /\ spares (action_var a) tl tl' /\ (forall e, pq_has (lst tl') e -> pq_has (lst tl) e)
    /\ (forall e, pq_has (lst tl') e -> timers tl' !! e = timers tl !! e) /\ pq_num_elements (lst tl') <= pq_num_elements (lst tl).
Proof.
  intros Hg Hmay Hh. unfold do_action. destruct a as [ctx v w free cb|v|v]; cbn [action_var] in *.
  - destruct (at_deferred mem ctx v w free cb tl Hg Hmay Hh) as (r & tl' & -> & Hg' & Hsp & El & Hn). cbn [mbind option_bind]. exists tl'. split; [done|]. split; [done|].
    split; [done|]. split; [intros e; by rewrite El; intros [? _]|]. split; [|done]. intros e He. apply (sp_timers _ _ _ Hsp); [done|]. by apply El in He as [_ ?].
  - destruct (vars tl !! v) as [ev|] eqn:Ev.
    + pose proof Ev as Hp. apply (g_vars _ _ Hg) in Hp as (t & Ht & Hpt). destruct (disarm_ok None ev t tl Hg Ht) as (tl' & -> & Hg' & [Et Evs Eh Ec Ed El] & Hn & _); [by apply Hmay|].
      cbn [mbind option_bind]. exists tl'. split; [done|]. split; [done|].
      assert (forall e, pq_has (lst tl') e -> timers tl' !! e = timers tl !! e) as Hti by (intros e [_ He]%El; rewrite Et; by rewrite lookup_insert_ne).
      split; [split; [done|done| |by auto]; rewrite Ev; intros e Hne He; apply El; naive_solver|]. split; [intros e; rewrite El; by intros [? _]|done].
    + cbn. exists tl. split; [done|]. split; [done|]. split; [by split|done].
  - unfold fr_timer_delete. destruct (vars tl !! v) as [ev|] eqn:Ev.
    + pose proof Ev as Hp. apply (g_vars _ _ Hg) in Hp as (t & Ht & Hpt).
      destruct (free_ok None ev t tl Hg Ht) as (tl' & -> & Hg' & Et & Evs & Eh & Ec & Ed & El & Hn & _); [by apply Hmay|]. cbn [mbind option_bind]. change (0 =? 0) with true. cbv iota.
      eexists. split; [done|]. assert (delete v (vars tl') = vars tl') as Edel by (rewrite Evs, Hpt; apply delete_delete_eq).
      assert (forall e, pq_has (lst tl') e -> timers tl' !! e = timers tl !! e) as Hti by (intros e [_ He]%El; rewrite Et; by rewrite lookup_delete_ne).
      split; [destruct Hg'; split; set_fields; rewrite ?Edel; done|].
      split; [split; set_fields; [done|done| |by auto]; rewrite Ev; intros e Hne He; apply El; naive_solver|]. set_fields. split; [intros e; rewrite El; by intros [? _]|done].
    + cbn. exists tl. split; [done|]. split; [done|]. split; [by split|done].
Qed.
End Alloc.
End WithQueue.
End TimerArm.
