(* ===== verification/TimerRun.v ===== *)
(** Running a timer list (Timer): the loop ends although callbacks arm timers, and
    fires the timers that are due in the order of their times. *)

From stdpp Require Import gmap sorting.
From S2P Require Import Prelude UtilTime Lst LstView PriorityQueue Timer TimerInv TimerArm.

Module TimerRun.
Import UtilTime PriorityQueue Timer TimerInv TimerArm.

Section WithQueue.
Context {Q : Type} `{!PriorityQueue Q} `{!PriorityQueueLaws Q}.
Abbreviation tl_t := (fr_timer_list_t Q).
Variable alloc : gset ptr -> option ptr.
Hypothesis alloc_fresh : forall X ev, alloc X = Some ev -> (ev ∉ X) /\ Z.of_nat (size X) < 2 ^ 30.
Variable mem : bool.

(** ** The calls of a callback *)

(** Every timer that the calls take out of the tree may be extracted from it. *)
Fixpoint calm (l : list action) (tl : tl_t) : Prop :=
  match l with
  | [] => True
  | a :: l => may_touch tl (action_var a) /\ forall tl', do_action alloc mem a tl = Some tl' -> calm l tl'
  end.

(** From [tl] to [tl'] timers were taken out of the tree, those of variables in
    [touched] and no others. *)
Record shrinks (touched : var -> Prop) (tl tl' : tl_t) : Prop := {
  sh_handler : in_handler tl' = in_handler tl;
  sh_has : forall e, pq_has (lst tl') e -> pq_has (lst tl) e;
  sh_timers : forall e, pq_has (lst tl') e -> timers tl' !! e = timers tl !! e;
  sh_kept : forall e t, pq_has (lst tl) e -> timers tl !! e = Some t -> ~ touched (parent t) -> pq_has (lst tl') e;
  sh_num : pq_num_elements (lst tl') <= pq_num_elements (lst tl)
}.

Lemma shrinks_refl P tl : shrinks P tl tl.
Proof. by split. Qed.

Lemma shrinks_trans (P : var -> Prop) tl1 tl2 tl3 : shrinks P tl1 tl2 -> shrinks P tl2 tl3 -> shrinks P tl1 tl3.
Proof.
  intros [] []. split; [congruence|auto| | |lia].
  - intros e He. rewrite sh_timers1, sh_timers0 by auto. done.
  - intros e t He Ht HP. apply (sh_kept1 e t); [by apply (sh_kept0 e t)| |done]. rewrite sh_timers0; [done|]. by apply (sh_kept0 e t).
Qed.

Lemma actions_ok (P : var -> Prop) l : forall tl, good None tl -> in_handler tl = true -> calm l tl -> (forall a, a ∈ l -> P (action_var a)) ->
  exists tl', do_actions alloc mem l tl = Some tl' /\ good None tl' /\ shrinks P tl tl' /\ calls tl' = calls tl.
Proof.
  induction l as [|a l IH]; intros tl Hg Hh Hc HP; cbn [do_actions].
  - exists tl. split; [done|]. split; [done|]. split; [apply shrinks_refl|done].
  - destruct Hc as [Hmay Hc]. destruct (action_ok alloc alloc_fresh mem a tl Hg Hmay) as (tl1 & E & Hg1 & Hsp & Hhas & Hti & Hn); [by destruct a|]. rewrite E. cbn [mbind option_bind].
    assert (shrinks P tl tl1) as Hsh.
    { split; [apply Hsp|done|done| |done]. intros e t He Ht HnP. apply (sp_has _ _ _ Hsp); [|done]. intros Hv. apply HnP.
      apply (g_vars _ _ Hg) in Hv as (t' & Ht' & Hp). rewrite Ht in Ht'. injection Ht' as <-. rewrite Hp. apply HP, list.elem_of_cons. by left. }
    destruct (IH tl1 Hg1) as (tl' & -> & Hg' & Hsh' & Ec'); [by rewrite (sh_handler _ _ _ Hsh)|by apply Hc|intros b Hb; apply HP, list.elem_of_cons; by right|].
    exists tl'. split; [done|]. split; [done|]. split; [by eapply shrinks_trans|]. rewrite Ec'. apply Hsp.
Qed.

(** ** One round *)

Variable handler : nat -> var -> fr_time_t -> tl_t -> list action.

(** The variable points to no armed timer. *)
Definition idle (tl : tl_t) (v : var) : Prop := forall ev t, vars tl !! v = Some ev -> timers tl !! ev = Some t -> armed t = false.

(** [w] is the least time of a timer in the tree. *)
Definition least (tl : tl_t) (w : fr_time_t) : Prop :=
  (exists ev t, pq_has (lst tl) ev /\ timers tl !! ev = Some t /\ when t = w) /\ forall e t, pq_has (lst tl) e -> timers tl !! e = Some t -> w <= when t.

(** The loop ends here with [w]: no timer in the tree is due. *)
Definition stops (now : fr_time_t) (tl : tl_t) (w : fr_time_t) : Prop :=
  (w = 0 /\ forall e, ~ pq_has (lst tl) e) \/ (now < w /\ least tl w).

Lemma time_le ts a b ta tb : ts !! a = Some ta -> ts !! b = Some tb -> timer_cmp ts a b <= 0 -> when ta <= when tb.
Proof. intros Ha Hb. unfold timer_cmp, fr_time_cmp, Z.b2z. rewrite Ha, Hb. cbn. repeat case_match; simpl_bool; lia. Qed.

(** The least timer is disarmed, and freed if it asks for that. *)
Lemma fire_ok ev t tl : good (Some ev) tl -> timers tl !! ev = Some t -> pq_has (lst tl) ev ->
  exists tl1 tl2, fr_timer_disarm (Some ev) tl = Some (0, tl1)
    /\ (if free_on_fire t then '(_, tl) ← timer_free ev tl1; Some tl else Some tl1) = Some tl2
    /\ good None tl2 /\ calls tl2 = calls tl /\ idle tl2 (parent t) /\ shrinks (fun v => v = parent t) tl tl2 /\ ~ pq_has (lst tl2) ev
    /\ pq_num_elements (lst tl2) < pq_num_elements (lst tl).
Proof.
  intros Hg Ht Hev. destruct (disarm_ok (Some ev) ev t tl Hg Ht) as (tl1 & -> & Hg1 & [Et Ev Eh Ec Ed El] & Hn1 & Hn1'); [by left|]. specialize (Hn1' Hev).
  assert (timers tl1 !! ev = Some (t <| armed := false |>)) as Ht1 by (rewrite Et; apply lookup_insert_eq).
  assert (shrinks (fun v => v = parent t) tl tl1) as Hsh1.
  { split; [done|intros e He; by apply El|intros e [_ He]%El; rewrite Et; by rewrite lookup_insert_ne| |lia]. intros e te He Hte Hne. apply El. split; [done|].
    intros ->. apply Hne. congruence. }
  assert (~ pq_has (lst tl1) ev) as Hno by (rewrite El; by intros [_ ?]). exists tl1. destruct (free_on_fire t) eqn:Ef.
  - destruct (free_ok None ev _ tl1 Hg1 Ht1) as (tl2 & -> & Hg2 & Et2 & Ev2 & Eh2 & Ec2 & Ed2 & El2 & Hn2 & _); [done|]. cbn [mbind option_bind].
    exists tl2. split; [done|]. split; [done|]. split; [done|]. split; [by rewrite Ec2, Ec|]. split; [intros e te; rewrite Ev2; set_fields; by rewrite lookup_delete_eq|].
    split; [|split; [rewrite El2; by intros [_ ?]|lia]]. eapply shrinks_trans; [exact Hsh1|].
    split; [done|intros e; by rewrite El2; intros [? _]|intros e [_ He]%El2; rewrite Et2; by rewrite lookup_delete_ne| |lia].
    intros e te He Hte _. apply El2. split; [done|]. by intros ->.
  - exists tl1. split; [done|]. split; [done|]. split; [done|]. split; [done|]. split; [|split; [done|]; split; [done|lia]].
    intros e te Hve Hte. pose proof Hve as Hve'. apply (g_vars _ _ Hg1) in Hve' as (te' & Hte' & Hpe).
    assert (vars tl1 !! parent t = Some ev) as Hv2 by (apply (g_vars _ _ Hg1); by exists (t <| armed := false |>)).
    assert (e = ev) as -> by congruence. rewrite Ht1 in Hte. by injection Hte as <-.
Qed.

Lemma run_one_ok now fired fr tl : good fr tl ->
  (exists w tl', run_one now fired tl = Some (inl (fired, w, tl')) /\ good None tl' /\ calls tl' = calls tl /\ shrinks (fun _ => False) tl tl' /\ stops now tl' w)
  \/ (exists ev t tl', run_one now fired tl = Some (inr (ev, t, tl')) /\ good None tl' /\ calls tl' = calls tl /\ idle tl' (parent t)
        /\ pq_has (lst tl) ev /\ timers tl !! ev = Some t /\ when t <= now /\ (forall e te, pq_has (lst tl) e -> timers tl !! e = Some te -> when t <= when te)
        /\ shrinks (fun v => v = parent t) tl tl' /\ ~ pq_has (lst tl') ev /\ pq_num_elements (lst tl') < pq_num_elements (lst tl)).
Proof.
  intros Hg. unfold run_one. destruct (pq_num_ok _ _ _ (g_queue _ _ Hg)) as [Hpos Hzero]. destruct (Z.leb_spec (pq_num_elements (lst tl)) 0) as [Hn|Hn].
  - left. exists 0, tl. split; [done|]. split; [by eapply good_forget|]. split; [done|]. split; [apply shrinks_refl|]. left. split; [done|]. apply Hzero. lia.
  - destruct (pq_peek_ok _ _ _ (timer_order _) (g_queue _ _ Hg)) as (o & q & -> & Hq & Hnq & Hhq & Ho). cbn [mbind option_bind]. destruct o as [ev|]; cbn [mbind option_bind].
    2: { apply Hzero in Ho. lia. }
    destruct Ho as [Hev Hmin]. set (tl0 := tl <| lst := q |>). pose proof Hev as Hm. apply (g_main _ _ Hg) in Hm as (t & Ht & Ha & Hd).
    assert (good (Some ev) tl0) as Hg0.
    { destruct Hg. subst tl0. split; set_fields; try done; [intros e; by rewrite Hhq|by rewrite Hnq]. }
    assert (forall e te, pq_has (lst tl) e -> timers tl !! e = Some te -> when t <= when te) as Hle by (intros e te He Hte; by eapply time_le; [exact Ht|exact Hte|apply Hmin]).
    assert (shrinks (fun _ => False) tl tl0) as Hsh0 by (subst tl0; split; set_fields; [done|intros e; apply Hhq|done|intros e te He _ _; by apply Hhq|lia]).
    change (timers tl0) with (timers tl). rewrite Ht. cbn [mbind option_bind]. destruct (Z.ltb_spec now (when t)) as [Hw|Hw].
    + left. exists (when t), tl0. split; [done|]. split; [by eapply good_forget|]. split; [done|]. split; [done|]. right. split; [done|]. split.
      * exists ev, t. split; [by apply Hhq|done].
      * intros e te He Hte. apply (Hle e te); [by apply Hhq|done].
    + right. destruct (fire_ok ev t tl0 Hg0 Ht ltac:(by apply Hhq)) as (tl1 & tl2 & Hd1 & Hf2 & Hg2 & Ec2 & Hi2 & Hsh2 & Hno & Hn2).
      rewrite decide_True by (apply (g_vars _ _ Hg0); by exists t). rewrite Hd1. cbn [mbind option_bind]. change (0 =? 0) with true. cbn [negb]. rewrite Hf2. cbn [mbind option_bind].
      exists ev, t, tl2. do 4 (split; [done|]). do 4 (split; [done|]). split; [|split; [done|change (lst tl0) with q in Hn2; lia]].
      eapply shrinks_trans; [|exact Hsh2]. destruct Hsh0. split; try done. intros e te He Hte _. apply (sh_kept0 e te); [done|done|by intros []].
Qed.

(** ** The loop *)

(** What a run from [tl] to [tl'] did, with the timers that fired in [F]. *)
Record ran (now : fr_time_t) (tl tl' : tl_t) (F : list (ptr * fr_timer_t)) : Prop := {
  rn_handler : in_handler tl' = in_handler tl;
  rn_calls : calls tl' = calls tl ++ F;
  rn_has : forall e, pq_has (lst tl') e -> pq_has (lst tl) e;
  rn_timers : forall e, pq_has (lst tl') e -> timers tl' !! e = timers tl !! e;
  rn_due : forall e t, (e, t) ∈ F -> pq_has (lst tl) e /\ timers tl !! e = Some t /\ when t <= now;
  rn_sorted : StronglySorted (fun x y => when x.2 <= when y.2) F;
  rn_once : NoDup F.*1;
  rn_quiet : forall e t, pq_has (lst tl) e -> timers tl !! e = Some t ->
    (forall cb v w tl a, v <> parent t -> a ∈ handler cb v w tl -> action_var a <> parent t) -> (e, t) ∈ F \/ pq_has (lst tl') e
}.

(** The calls of every callback are calm. *)
Definition calm_handler (now : fr_time_t) : Prop :=
  forall cb v tl, good None tl -> in_handler tl = true -> idle tl v -> calm (handler cb v now tl) tl.

(** A timer fires and its callback runs before the rest of the run. *)
Lemma ran_cons now ev t tl tl1 tl2 tl' F : good None tl -> pq_has (lst tl) ev -> timers tl !! ev = Some t -> when t <= now ->
  (forall e te, pq_has (lst tl) e -> timers tl !! e = Some te -> when t <= when te) ->
  shrinks (fun v => v = parent t) tl tl1 -> ~ pq_has (lst tl1) ev ->
  shrinks (fun v => exists cb w tl a, a ∈ handler cb (parent t) w tl /\ action_var a = v) tl1 tl2 -> calls tl2 = calls tl ++ [(ev, t)] ->
  ran now tl2 tl' F -> ran now tl tl' ((ev, t) :: F).
Proof.
  intros Hg Hev Ht Hw Hle [] Hno [] Ec []. assert (forall e, pq_has (lst tl2) e -> pq_has (lst tl) e /\ timers tl2 !! e = timers tl !! e /\ e <> ev) as H2.
  { intros e He. split; [auto|]. split; [rewrite sh_timers1, sh_timers0; auto|]. intros ->. auto. }
  split.
  - congruence.
  - by rewrite rn_calls0, Ec, <- app_assoc.
  - intros e He. by apply H2, rn_has0.
  - intros e He. rewrite rn_timers0 by done. by apply H2, rn_has0.
  - intros e te Hin. apply list.elem_of_cons in Hin as [[= -> ->]|Hin]; [done|]. apply rn_due0 in Hin as (Hh & Hte & ?). apply H2 in Hh as (? & E & _).
    rewrite E in Hte. done.
  - constructor; [done|]. apply Forall_forall. intros [e te] Hin. apply list_elem_of_In in Hin. apply rn_due0 in Hin as (Hh & Hte & _).
    apply H2 in Hh as (Hh & E & _). rewrite E in Hte. cbn. by apply (Hle e te).
  - cbn. apply list.NoDup_cons. split; [|done]. intros Hin. apply list_elem_of_fmap in Hin as ([e te] & -> & Hin). apply rn_due0 in Hin as (Hh & _). by apply H2 in Hh as (_ & _ & ?).
  - intros e te He Hte Hq. destruct (decide (e = ev)) as [-> |Hne].
    { left. apply list.elem_of_cons. left. congruence. }
    assert (parent te <> parent t) as Hpar.
    { intros Hp. apply Hne. assert (vars tl !! parent t = Some e) by (apply (g_vars _ _ Hg); by exists te).
      assert (vars tl !! parent t = Some ev) by (apply (g_vars _ _ Hg); by exists t). congruence. }
    assert (pq_has (lst tl1) e) as H1 by (by apply (sh_kept0 e te)). assert (timers tl1 !! e = Some te) as Ht1 by (by rewrite sh_timers0).
    assert (pq_has (lst tl2) e) as He2 by (apply (sh_kept1 e te); [done|done|]; intros (cb & w & x & a & Ha & Hv); by apply (Hq cb (parent t) w x a)).
    destruct (rn_quiet0 e te) as [Hin|Hhas]; [done|by rewrite sh_timers1|done| |by right]. left. apply list.elem_of_cons. by right.
Qed.

Lemma loop_ok now : calm_handler now -> forall fuel fired tl, good None tl -> in_handler tl = true -> pq_num_elements (lst tl) < Z.of_nat fuel ->
  exists w tl' F, timer_list_lst_run alloc mem handler fuel now fired tl = Some (fired + Z.of_nat (length F), w, tl') /\ good None tl' /\ ran now tl tl' F /\ stops now tl' w.
Proof.
  intros Hcalm. induction fuel as [|fuel IH]; intros fired tl Hg Hh Hfuel; [destruct (pq_num_ok _ _ _ (g_queue _ _ Hg)); lia|]. cbn [timer_list_lst_run].
  destruct (run_one_ok now fired None tl Hg) as [(w & tl' & -> & Hg' & Ec & Hsh & Hst)|(ev & t & tl1 & -> & Hg1 & Ec & Hid & Hev & Ht & Hw & Hle & Hsh & Hno & Hn)]; cbn [mbind option_bind].
  - exists w, tl', []. split; [cbn; by rewrite Z.add_0_r|]. split; [done|]. split; [|done]. destruct Hsh. split; try done.
    + by rewrite Ec, app_nil_r.
    + intros e t He. by apply list.not_elem_of_nil in He.
    + constructor.
    + constructor.
    + intros e t He Ht _. right. apply (sh_kept0 e t); [done|done|by intros []].
  - set (tl2 := tl1 <| calls := calls tl1 ++ [(ev, t)] |>). assert (good None tl2) as Hg2 by (subst tl2; destruct Hg1; by split).
    assert (in_handler tl2 = true) as Hh2 by (subst tl2; set_fields; by rewrite (sh_handler _ _ _ Hsh)).
    destruct (actions_ok (fun v => exists cb w x a, a ∈ handler cb (parent t) w x /\ action_var a = v) (handler (callback t) (parent t) now tl2) tl2 Hg2 Hh2)
      as (tl3 & -> & Hg3 & Hsh3 & Ec3); [by apply Hcalm|intros a Ha; by eexists _, _, _, a|]. cbn [mbind option_bind].
    assert (pq_num_elements (lst tl3) < pq_num_elements (lst tl)) as Hn3 by (pose proof (sh_num _ _ _ Hsh3) as Hx; subst tl2; set_fields; lia).
    destruct (IH (fired + 1) tl3 Hg3) as (w & tl' & F & -> & Hg' & Hran & Hst); [by rewrite (sh_handler _ _ _ Hsh3)|lia|].
    exists w, tl', ((ev, t) :: F). split; [cbn [length]; do 3 f_equal; lia|]. split; [done|]. split; [|done].
    eapply (ran_cons now ev t tl tl1 tl3); try done; [|rewrite Ec3; subst tl2; set_fields; by rewrite Ec].
    destruct Hsh3. by split.
Qed.
End WithQueue.
End TimerRun.
