(* ===== verification/TimerSpec.v ===== *)
(** What a timer list (Timer) promises to its clients, with the tree of
    src/lib/util/lst.c behind it: the lists that calls can lead to, and what a run
    of one does. *)

From stdpp Require Import gmap sorting.
From S2P Require Import Prelude UtilTime Lst LstView LstBucket LstSpec PriorityQueue Timer TimerInv TimerArm TimerRun.

Module TimerSpec.
Import UtilTime PriorityQueue Timer TimerInv TimerArm TimerRun.

Section WithQueue.
Context {Q : Type} `{!PriorityQueue Q} `{!PriorityQueueLaws Q}.
Abbreviation tl_t := (fr_timer_list_t Q).

(** ** Deferred timers *)

Lemma good_armed fr (tl : tl_t) ev : good fr tl -> (exists t, timers tl !! ev = Some t /\ armed t = true) <-> pq_has (lst tl) ev \/ ev ∈ deferred tl.
Proof.
  intros Hg. rewrite (g_main _ _ Hg). split.
  - intros (t & Ht & Ha). destruct (decide (ev ∈ deferred tl)) as [|Hd]; [by right|left; by exists t].
  - intros [(t & Ht & Ha & _)|Hd]; [by exists t|]. by apply (g_deferred _ _ Hg).
Qed.

(** They go into the tree, all of them when there is memory; none is lost. *)
Lemma deferred_ok mem ds : forall tl : tl_t, good None tl -> deferred tl = ds ->
  exists r tl', timer_list_lst_deferred mem ds tl = Some (r, tl') /\ good None tl' /\ in_handler tl' = in_handler tl /\ timers tl' = timers tl /\ calls tl' = calls tl
    /\ ((r = 0 /\ deferred tl' = []) \/ (r = -1 /\ mem = false)).
Proof.
  induction ds as [|ev ds IH]; intros tl Hg Ed; cbn [timer_list_lst_deferred].
  - exists 0. eexists. split; [done|]. split; [|by repeat split; auto]. destruct Hg. split; set_fields; rewrite <- ?Ed; done.
  - unfold timer_lst_insert_at. set_fields. pose proof Hg as [Hq Hnd Hdef Hmain Hvars Hnum Hsize]. rewrite Ed in *. apply list.NoDup_cons in Hnd as [Hev Hnd].
    assert (~ pq_has (lst tl) ev) as Hno by (rewrite Hmain; intros (t & _ & _ & Hx); apply Hx, list.elem_of_cons; by left).
    destruct (pq_insert_ok _ None mem ev (lst tl) (timer_order (timers tl)) Hq) as (r & q & -> & Hq' & [(-> & _ & Hn & He)|(-> & Hm & Hn & He)]).
    { pose proof (armed_set_size (timers tl)). cbn [length] in Hnum. lia. }
    all: cbn [mbind option_bind Z.ltb Z.compare].
    + destruct (IH (tl <| deferred := ds |> <| lst := q |>)) as (r & tl' & -> & Hg' & Hr); [|done|].
      { destruct (Hdef ev) as (tev & Htev & Haev); [apply list.elem_of_cons; by left|]. split; set_fields; try done.
        - intros e He'. apply Hdef, list.elem_of_cons. by right.
        - intros e. rewrite He, Hmain. setoid_rewrite list.elem_of_cons. destruct (decide (e = ev)) as [-> |Hne]; naive_solver.
        - cbn [length] in Hnum. lia. }
      by exists r, tl'.
    + eexists (-1), _. split; [done|]. split; [|repeat split; right; split; [done|]; by destruct Hm].
      split; set_fields; rewrite ?Hn; try done; [by constructor|]. intros e. by rewrite He.
Qed.

(** ** Freeing *)

Lemma free_loop_ok fuel : forall fr (tl : tl_t), good fr tl -> pq_num_elements (lst tl) < Z.of_nat fuel ->
  exists tl', timer_list_free_loop fuel tl = Some (0, tl') /\ good None tl' /\ (forall e, ~ pq_has (lst tl') e)
    /\ forall e t, timers tl' !! e = Some t <-> timers tl !! e = Some t /\ ~ pq_has (lst tl) e.
Proof.
  induction fuel as [|fuel IH]; intros fr tl Hg Hn; [destruct (pq_num_ok _ _ _ (g_queue _ _ Hg)); lia|]. cbn [timer_list_free_loop].
  destruct (pq_peek_ok _ _ _ (timer_order _) (g_queue _ _ Hg)) as (o & q & -> & Hq & Hnq & Hhq & Ho). cbn [mbind option_bind]. set (tl0 := tl <| lst := q |>).
  assert (good o tl0) as Hg0 by (destruct Hg; subst tl0; split; set_fields; try done; [intros e; by rewrite Hhq|by rewrite Hnq]). destruct o as [ev|].
  - destruct Ho as [Hev _]. pose proof Hev as Hm. apply (g_main _ _ Hg) in Hm as (t & Ht & _).
    destruct (free_ok (Some ev) ev t tl0 Hg0 Ht ltac:(by left)) as (tl2 & -> & Hg2 & Et2 & _ & _ & _ & Ed2 & El2 & _ & Hn2). cbn [mbind option_bind Z.ltb Z.compare].
    change (lst tl0) with q in *. change (timers tl0) with (timers tl) in *. specialize (Hn2 ltac:(by apply Hhq)).
    destruct (IH None tl2 Hg2 ltac:(lia)) as (tl' & -> & Hg' & Hno & Hti). exists tl'. split; [done|]. split; [done|]. split; [done|]. intros e te.
    rewrite Hti, Et2, El2, Hhq, lookup_delete_Some. split; [|naive_solver].
    intros [[Hne Hte] Hx]. split; [done|]. intros He. by apply Hx.
  - exists tl0. split; [done|]. split; [done|]. split; [intros e He; by apply Hhq, Ho in He|]. intros e t. split; [|by intros [? _]]. intros Ht. split; [done|apply Ho].
Qed.

(** ** A run *)

Variable alloc : gset ptr -> option ptr.
Hypothesis alloc_fresh : forall X ev, alloc X = Some ev -> (ev ∉ X) /\ Z.of_nat (size X) < 2 ^ 30.
Variable handler : nat -> var -> fr_time_t -> tl_t -> list action.

Lemma run_ok mem now (tl : tl_t) : calm_handler alloc mem handler now -> good None tl ->
  exists r w tl1 tl' F, fr_timer_list_run alloc mem handler now tl = Some (r, w, tl') /\ good None tl' /\ in_handler tl' = in_handler tl /\ timers tl' = timers tl1 /\ calls tl' = calls tl1
    /\ ran handler now (tl <| in_handler := true |>) tl1 F /\ stops now tl1 w
    /\ ((r = Z.of_nat (length F) /\ deferred tl' = []) \/ (r = -1 /\ mem = false)).
Proof.
  intros Hc Hg. unfold fr_timer_list_run. set (tl0 := tl <| in_handler := true |>). assert (good None tl0) as Hg0 by (destruct Hg; by split).
  destruct (pq_num_ok _ _ _ (g_queue _ _ Hg)) as [Hpos _].
  destruct (loop_ok alloc alloc_fresh mem handler now Hc (S (Z.to_nat (pq_num_elements (lst tl0)))) 0 tl0 Hg0 eq_refl) as (w & tl1 & F & -> & Hg1 & Hran & Hst);
    [subst tl0; set_fields; lia|]. cbn [mbind option_bind]. set_fields. set (tl2 := tl1 <| in_handler := in_handler tl |>). assert (good None tl2) as Hg2 by (destruct Hg1; by split).
  destruct (deferred tl1) as [|d ds] eqn:Ed.
  - exists (0 + Z.of_nat (length F)), w, tl1, tl2, F. split; [done|]. split; [done|]. do 5 (split; [done|]). left. split; [lia|done].
  - destruct (deferred_ok mem (d :: ds) tl2 Hg2 Ed) as (r & tl' & -> & Hg' & Eh & Et & Ec & Hr). cbn [mbind option_bind]. eexists _, w, tl1, tl', F. split; [done|].
    split; [done|]. split; [done|]. split; [done|]. split; [done|]. split; [done|]. split; [done|].
    destruct Hr as [[-> Hd]|[-> Hm]]; cbn [Z.ltb Z.compare]; [left; split; [lia|done]|by right].
Qed.
End WithQueue.

(** ** Lists of timers in a tree *)

Abbreviation list_t := (fr_timer_list_t Lst.fr_lst_t).

Section Reachable.
Variable alloc : gset ptr -> option ptr.
Hypothesis alloc_fresh : forall X ev, alloc X = Some ev -> (ev ∉ X) /\ Z.of_nat (size X) < 2 ^ 30.
Variable handler : nat -> var -> fr_time_t -> list_t -> list action.

(** The lists that a client can bring about outside of callbacks, when no timer is
    taken out of the tree that has the same time as another one. *)
Inductive reachable : list_t -> Prop :=
  | reach_alloc a b tl : fr_timer_list_lst_alloc true a b = Some tl -> reachable tl
  | reach_call mem a tl tl' : reachable tl -> may_touch tl (action_var a) -> do_action alloc mem a tl = Some tl' -> reachable tl'
  | reach_run mem now r w tl tl' : reachable tl -> fr_timer_list_run alloc mem handler now tl = Some (r, w, tl') -> reachable tl'.

Lemma alloc_good a b tl : fr_timer_list_lst_alloc true a b = Some tl -> good None tl /\ tl = MkTl (lst tl) false [] ∅ ∅ [].
Proof.
  unfold fr_timer_list_lst_alloc. destruct (LstSpec.alloc_ok (timer_cmp ∅) 0 a b (fun _ => 0)) as (q & -> & HI & _); [lia|done|]. cbn [mbind option_bind].
  intros [= <-]. split; [|done]. assert (forall e, ~ LstSpec.inserted q e) as Hno by (intros e; rewrite (LstSpec.inserted_within _ q [] [0%nat] e HI); by intros [j Hj]).
  split; set_fields.
  - exact (LstSpec.tree_of _ q [] [0%nat] HI).
  - constructor.
  - intros ev Hev. by apply list.not_elem_of_nil in Hev.
  - intros ev. split; [intros He; by apply Hno in He|]. intros (t & Ht & _). by rewrite lookup_empty in Ht.
  - intros v ev. rewrite lookup_empty. split; [done|]. intros (t & Ht & _). by rewrite lookup_empty in Ht.
  - cbn. rewrite (LstBucket.inv_num _ _ _ _ HI). done.
  - rewrite dom_empty_L, size_empty. lia.
Qed.

Lemma call_good mem a (tl : list_t) : good None tl -> in_handler tl = false -> may_touch tl (action_var a) ->
  exists tl', do_action alloc mem a tl = Some tl' /\ good None tl' /\ in_handler tl' = false.
Proof.
  intros Hg Hh Hmay. destruct a as [ctx v w free cb|v|v].
  - destruct (at_inserted alloc alloc_fresh mem ctx v w free cb tl Hg Hmay Hh) as (r & tl' & E & Hg' & Hh' & _). exists tl'. unfold do_action. by rewrite E.
  - destruct (action_ok alloc alloc_fresh mem (Disarm v) tl Hg Hmay I) as (tl' & E & Hg' & Hsp & _). exists tl'. split; [done|]. split; [done|]. by rewrite (sp_handler _ _ _ Hsp).
  - destruct (action_ok alloc alloc_fresh mem (Delete v) tl Hg Hmay I) as (tl' & E & Hg' & Hsp & _). exists tl'. split; [done|]. split; [done|]. by rewrite (sp_handler _ _ _ Hsp).
Qed.

Lemma reachable_good tl : (forall mem now, calm_handler alloc mem handler now) -> reachable tl -> good None tl /\ in_handler tl = false.
Proof.
  intros Hc Hr. induction Hr as [a b tl E|mem a tl tl' Hr [Hg Hh] Hmay E|mem now r w tl tl' Hr [Hg Hh] E].
  - destruct (alloc_good a b tl E) as [Hg Etl]. split; [done|by rewrite Etl].
  - destruct (call_good mem a tl Hg Hh Hmay) as (tl2 & E2 & Hg2 & Hh2). rewrite E in E2. injection E2 as <-. done.
  - destruct (run_ok alloc alloc_fresh handler mem now tl (Hc mem now) Hg) as (r2 & w2 & tl1 & tl2 & F & E2 & Hg2 & Hh2 & _). rewrite E in E2. injection E2 as <- <- <-.
    split; [done|congruence].
Qed.
End Reachable.

(** No callback of another timer makes a call with the variable. *)
Definition quiet (handler : nat -> var -> fr_time_t -> list_t -> list action) (v : var) : Prop :=
  forall cb v' w tl a, v' <> v -> a ∈ handler cb v' w tl -> action_var a <> v.


(** ** An example *)

(** The lowest free address. *)
Definition first_free (X : gset ptr) : option ptr := if Z.of_nat (size X) <? 2 ^ 30 then Some (fresh X) else None.

Lemma first_free_ok X ev : first_free X = Some ev -> (ev ∉ X) /\ Z.of_nat (size X) < 2 ^ 30.
Proof. unfold first_free. case_if; [|done]. intros [= <-]. split; [apply is_fresh|done]. Qed.

(** Callback 1 arms its timer again, ten later. *)
Definition again (cb : nat) (v : var) (now : fr_time_t) (tl : list_t) : list action :=
  if (cb =? 1)%nat then [At 0 v (now + 10) false 1] else [].

Lemma again_calm mem now : calm_handler first_free mem again now.
Proof.
  intros cb v tl Hg Hh Hid. unfold again. case_if; [|done]. split; [|done]. intros ev Hv Hhas. cbn in Hv.
  apply (g_main _ _ Hg) in Hhas as (t & Ht & Ha & _). pose proof (Hid ev t Hv Ht). congruence.
Qed.

(** One timer at variable 5. *)
Lemma again_reachable : exists tl ev, reachable first_free again tl /\ timers tl !! ev = Some (MkTimer 100 1 0 5 false true) /\ forall e, LstSpec.inserted (lst tl) e <-> e = ev.
Proof.
  assert ((tl ← fr_timer_list_lst_alloc true 1 2654435761; '(r, _) ← fr_timer_at first_free true 0 5 100 false 1 tl; Some r) = Some 0) as Er by (vm_compute; reflexivity).
  destruct (fr_timer_list_lst_alloc true 1 2654435761) as [tl|] eqn:E; [|done]. cbn [mbind option_bind] in Er.
  destruct (alloc_good 1 2654435761 tl E) as [Hg Etl]. assert (vars tl = ∅ /\ in_handler tl = false) as [Ev Eh] by (by rewrite Etl).
  assert (may_touch tl 5) as Hm by (intros ev Hx; by rewrite Ev, lookup_empty in Hx).
  destruct (at_inserted first_free first_free_ok true 0 5 100 false 1 tl Hg Hm Eh) as (r & tl1 & E1 & Hg1 & Hh1 & Hr). rewrite E1 in Er. injection Er as ->.
  destruct Hr as [(_ & ev & _ & Ht & Hhas)|(? & _)]; [|done]. exists tl1, ev. split; [|split; [done|]].
  2: { intros e. change (LstSpec.inserted (lst tl1) e) with (pq_has (lst tl1) e). rewrite Hhas. split; [|by left]. intros [?|[He _]]; [done|].
       apply (g_main _ _ Hg) in He as (t & Hte & _). rewrite Etl in Hte. cbn in Hte. by rewrite lookup_empty in Hte. }
  apply (reach_call first_free again true (At 0 5 100 false 1) tl); [by eapply reach_alloc|done|]. unfold do_action. by rewrite E1.
Qed.




(** The time of the next event is the least time of the timers in the tree, and
    0 when there is none. *)
Theorem timer_list_when_next (alloc : gset ptr -> option ptr) (handler : nat -> var -> fr_time_t -> list_t -> list action) (tl : list_t)
  (Halloc : forall X ev, alloc X = Some ev -> (ev ∉ X) /\ Z.of_nat (size X) < 2 ^ 30)
  (Hcalm : forall mem now, calm_handler alloc mem handler now) (Hreach : reachable alloc handler tl) :
  exists w tl', fr_timer_list_when tl = Some (w, tl')
    /\ ((w = 0 /\ forall e, ~ LstSpec.inserted (lst tl) e)
        \/ ((exists ev t, LstSpec.inserted (lst tl) ev /\ timers tl !! ev = Some t /\ when t = w)
            /\ forall e t, LstSpec.inserted (lst tl) e -> timers tl !! e = Some t -> w <= when t)).
Proof.
  destruct (reachable_good alloc Halloc handler tl Hcalm Hreach) as [Hg Hh]. unfold fr_timer_list_when, timer_list_when.
  destruct (pq_peek_ok _ _ _ (timer_order _) (g_queue _ _ Hg)) as (o & q & -> & _ & _ & _ & Ho). cbn [mbind option_bind]. destruct o as [ev|].
  - destruct Ho as [Hev Hmin]. pose proof Hev as Hm. apply (g_main _ _ Hg) in Hm as (t & Ht & _). rewrite Ht. cbn [mbind option_bind]. eexists _, _. split; [done|]. right.
    split; [by exists ev, t|]. intros e te He Hte. by eapply time_le; [exact Ht|exact Hte|apply Hmin].
  - eexists _, _. split; [done|]. by left.
Qed.

Lemma timer_list_when_next_witness : exists tl tl', reachable first_free again tl /\ fr_timer_list_when tl = Some (100, tl').
Proof.
  destruct again_reachable as (tl & ev & Hr & Ht & Hin). exists tl.
  destruct (timer_list_when_next first_free again tl first_free_ok again_calm Hr) as (w & tl' & E & [[_ Hno]|[(e & t & He & Hte & Hw) _]]).
  - exfalso. apply (Hno ev). by apply Hin.
  - exists tl'. split; [done|]. apply Hin in He as ->. rewrite Ht in Hte. injection Hte as <-. cbn in Hw. by subst w.
Defined.

(** The destructor of a timer list frees the timers that are in the tree and no
    others, and sets the variables that pointed to them to NULL. *)
Theorem timer_list_free_all (alloc : gset ptr -> option ptr) (handler : nat -> var -> fr_time_t -> list_t -> list action) (tl : list_t)
  (Halloc : forall X ev, alloc X = Some ev -> (ev ∉ X) /\ Z.of_nat (size X) < 2 ^ 30)
  (Hcalm : forall mem now, calm_handler alloc mem handler now) (Hreach : reachable alloc handler tl) :
  exists tl', timer_list_free tl = Some (0, tl') /\ (forall v ev, vars tl' !! v = Some ev <-> vars tl !! v = Some ev /\ ~ LstSpec.inserted (lst tl) ev)
    /\ forall ev t, timers tl' !! ev = Some t <-> timers tl !! ev = Some t /\ ~ LstSpec.inserted (lst tl) ev.
Proof.
  destruct (reachable_good alloc Halloc handler tl Hcalm Hreach) as [Hg Hh]. unfold timer_list_free. rewrite Hh. destruct (pq_num_ok _ _ _ (g_queue _ _ Hg)) as [Hpos _].
  destruct (free_loop_ok (S (Z.to_nat (pq_num_elements (lst tl)))) None tl Hg ltac:(lia)) as (tl' & -> & Hg' & _ & Hti). exists tl'. split; [done|]. split; [|done].
  intros v ev. rewrite (g_vars _ _ Hg'), (g_vars _ _ Hg). setoid_rewrite Hti. change LstSpec.inserted with (@pq_has Lst.fr_lst_t _). naive_solver.
Qed.

Lemma timer_list_free_all_witness : exists tl tl' ev, reachable first_free again tl /\ timers tl !! ev <> None /\ timer_list_free tl = Some (0, tl') /\ timers tl' !! ev = None.
Proof.
  destruct again_reachable as (tl & ev & Hr & Ht & Hin). destruct (timer_list_free_all first_free again tl first_free_ok again_calm Hr) as (tl' & E & _ & Hti).
  exists tl, tl', ev. split; [done|]. split; [by rewrite Ht|]. split; [done|]. destruct (timers tl' !! ev) as [t|] eqn:Et; [|done]. exfalso.
  apply Hti in Et as [_ Hne]. by apply Hne, Hin.
Defined.

(** The time that remains until a timer fires is negative: the operands of the
    subtraction are in the wrong order. *)
Theorem timer_remaining_negative (tl : list_t) (ev : ptr) (t : fr_timer_t) (now : fr_time_t)
  (Ht : timers tl !! ev = Some t) (Ha : armed t = true) (Hnow : 0 <= now < when t) (Hw : when t < 2 ^ 63) : exists d, fr_timer_remaining now ev tl = Some d /\ d < 0.
Proof.
  unfold fr_timer_remaining. rewrite Ht. cbn [mbind option_bind]. rewrite Ha. cbn [negb]. eexists. split; [done|]. unfold fr_time_sub_time_time, fr_sub.
  rewrite fits_s64_in by (unfold is_s64, INT64_MIN, INT64_MAX; lia). lia.
Qed.

Lemma timer_remaining_negative_witness : exists (tl : list_t) ev, reachable first_free again tl /\ exists d, fr_timer_remaining 60 ev tl = Some d /\ d < 0.
Proof.
  destruct again_reachable as (tl & ev & Hr & Ht & _). exists tl, ev. split; [done|]. by apply (timer_remaining_negative tl ev _ 60 Ht); cbn; try lia.
Defined.

(** The time that a run reports is not that of the next event when a callback
    armed a timer: one timer fires and arms itself again for later, the run reports
    0, which stands for no more events, and the list has one. *)
Theorem timer_run_when_ignores_deferred :
  exists tl tl1 tl2, fr_timer_list_lst_alloc true 1 2654435761 = Some tl /\ fr_timer_at first_free true 0 5 100 false 1 tl = Some (0, tl1)
    /\ fr_timer_list_run first_free true again 100 tl1 = Some (1, 0, tl2) /\ fr_timer_list_num_events tl2 = 1.
Proof.
  assert ((tl ← fr_timer_list_lst_alloc true 1 2654435761; '(r1, tl1) ← fr_timer_at first_free true 0 5 100 false 1 tl;
           '(r2, w, tl2) ← fr_timer_list_run first_free true again 100 tl1; Some (r1, r2, w, fr_timer_list_num_events tl2)) = Some (0, 1, 0, 1)) as E by (vm_compute; reflexivity).
  destruct (fr_timer_list_lst_alloc true 1 2654435761) as [tl|]; [|done]. cbn [mbind option_bind] in E.
  destruct (fr_timer_at first_free true 0 5 100 false 1 tl) as [[r1 tl1]|] eqn:E1; [|done]. cbn [mbind option_bind] in E.
  destruct (fr_timer_list_run first_free true again 100 tl1) as [[[r2 w] tl2]|] eqn:E2; [|done]. cbn [mbind option_bind] in E. injection E as -> -> -> En.
  by exists tl, tl1, tl2.
Qed.

(** ** Disarming a timer that has the same time as another *)

Definition idle_handler (cb : nat) (v : var) (now : fr_time_t) (tl : list_t) : list action := [].

(** A timer that is in the tree but no longer armed fires, and stays in the tree. *)
Lemma stale_fires now fired (tl : list_t) ev t q : 0 < pq_num_elements (lst tl) -> pq_peek (timer_cmp (timers tl)) (lst tl) = Some (Some ev, q) ->
  timers tl !! ev = Some t -> armed t = false -> free_on_fire t = false -> when t <= now -> vars tl !! parent t = Some ev ->
  run_one now fired tl = Some (inr (ev, t, tl <| lst := q |>)).
Proof.
  intros Hn Hp Ht Ha Hf Hw Hv. unfold run_one. rewrite (proj2 (Z.leb_gt _ _)) by done. rewrite Hp. cbn [mbind option_bind]. set_fields. rewrite Ht. cbn [mbind option_bind].
  rewrite (proj2 (Z.ltb_ge _ _)) by done. rewrite decide_True by done. unfold fr_timer_disarm. set_fields. rewrite Ht. cbn [mbind option_bind]. rewrite Ha. cbn [negb mbind option_bind].
  change (0 =? 0) with true. cbn [negb]. by rewrite Hf.
Qed.

(** If the tree stays as it is, the loop does not end. *)
Lemma stale_loops alloc mem now ev t fuel : forall fired (tl : list_t), 0 < pq_num_elements (lst tl) ->
  pq_peek (timer_cmp (timers tl)) (lst tl) = Some (Some ev, lst tl) -> timers tl !! ev = Some t -> armed t = false -> free_on_fire t = false -> when t <= now ->
  vars tl !! parent t = Some ev -> timer_list_lst_run alloc mem idle_handler fuel now fired tl = None.
Proof.
  induction fuel as [|fuel IH]; intros fired tl Hn Hp Ht Ha Hf Hw Hv; [done|]. cbn [timer_list_lst_run].
  rewrite (stale_fires now fired tl ev t (lst tl)) by done. cbn [mbind option_bind do_actions idle_handler]. by apply IH.
Qed.

(** Three timers are armed, for 1, 2 and 2; the first fires at 1; the third is
    disarmed. *)
Definition equal_times : option list_t :=
  tl ← fr_timer_list_lst_alloc true 1 2654435761;
  '(_, tl) ← fr_timer_at first_free true 0 1 1 false 1 tl;
  '(_, tl) ← fr_timer_at first_free true 0 2 2 false 1 tl;
  '(_, tl) ← fr_timer_list_when tl;
  '(_, tl) ← fr_timer_at first_free true 0 3 2 false 1 tl;
  '(_, _, tl) ← fr_timer_list_run first_free true idle_handler 1 tl;
  '(_, tl) ← fr_timer_disarm (vars tl !! 3%nat) tl;
  Some tl.

End TimerSpec.
