(* ===== verification/Retry.v ===== *)
(** Retransmission timers of src/lib/util/retry.c (RFC 5080 section 2.2.1). The
    random numbers of [fr_rand] are a stream, of which the state keeps the number
    of values already taken; Rand provides one. Times are those of UtilTime and the products those
    of Uint128. *)

From S2P Require Import Prelude UtilTime Uint128 Rand.
Import UtilTime Uint128.

Module Retry.

Record fr_retry_config_t := MkRetryConfig {
  irt : fr_time_delta_t;
  mrt : fr_time_delta_t;
  mrd : fr_time_delta_t;
  mrc : Z }.

Inductive fr_retry_state_t := FR_RETRY_CONTINUE | FR_RETRY_MRC | FR_RETRY_MRD.

(** [taken] is not a field of the code: it counts the calls of [fr_rand]. *)
Record fr_retry_t := MkRetry {
  config : fr_retry_config_t;
  start : fr_time_t;
  end_ : fr_time_t;
  next : fr_time_t;
  updated : fr_time_t;
  rt : fr_time_delta_t;
  count : Z;
  replies : Z;
  state : fr_retry_state_t;
  taken : nat }.

Definition set_next (r : fr_retry_t) (t : fr_time_t) : fr_retry_t :=
  MkRetry (config r) (start r) (end_ r) t (updated r) (rt r) (count r) (replies r) (state r) (taken r).
Definition set_state (r : fr_retry_t) (s : fr_retry_state_t) : fr_retry_t :=
  MkRetry (config r) (start r) (end_ r) (next r) (updated r) (rt r) (count r) (replies r) s (taken r).

Section Timer.
(** The values of successive calls of [fr_rand]. *)
Variable fr_rand : nat -> Z.

(** [delay = uint128_mul64(scale, d); rt = delay >> 32] *)
Definition scaled_delay (scale : Z) (d : fr_time_delta_t) : option fr_time_delta_t :=
  match uint128_rshift (uint128_mul64 scale (u64 d)) 32 with
  | None => None
  | Some delay => Some (s64 (uint128_to_64 delay))
  end.

Definition fr_retry_init (taken : nat) (now : fr_time_t) (config : fr_retry_config_t) : option fr_retry_t :=
  let end0 := fr_time_add_time_delta now (mrd config) in
  let end1 :=
    if fr_time_cmp now end0 =? 0 then
      if mrc config =? 0 then fr_time_add_time_delta now (fr_time_delta_from_sec 86400)
      else fr_time_add_time_delta now (fr_time_delta_mul (mrt config) (mrc config))
    else end0 in
  if mrc config =? 1 then Some (MkRetry config now end1 end1 now (mrd config) 1 0 FR_RETRY_CONTINUE taken)
  else
    let scale := u64 (u64 (fr_rand taken + 2 ^ 32) - 2 ^ 31) in
    match scaled_delay scale (irt config) with
    | None => None
    | Some rt =>
        let next := fr_time_add_time_delta now rt in
        let next := if 0 <? fr_time_cmp next end1 then end1 else next in
        Some (MkRetry config now end1 next now rt 1 0 FR_RETRY_CONTINUE (S taken))
    end.

(** The delay computed in [fr_retry_next], and the calls of [fr_rand] so far. *)
Definition next_delay (r : fr_retry_t) : option (fr_time_delta_t * nat) :=
  let scale := u64 (u64 (fr_rand (taken r) - 2 ^ 31) + 2 ^ 33) in
  match scaled_delay scale (rt r) with
  | None => None
  | Some rt =>
      if (0 <? mrt (config r)) && (mrt (config r) <? rt) then
        let scale := u64 (u64 (fr_rand (S (taken r)) - 2 ^ 31) + 2 ^ 32) in
        match scaled_delay scale (mrt (config r)) with
        | None => None
        | Some rt => Some (rt, S (S (taken r)))
        end
      else Some (rt, S (taken r))
  end.

(** From the label [redo]: the state after, and the answer; [None] when the fuel
    runs out. *)
Fixpoint redo (fuel : nat) (r : fr_retry_t) (now : fr_time_t) : option (fr_retry_t * fr_retry_state_t) :=
  match fuel with
  | O => None
  | S fuel =>
      if 0 <=? fr_time_cmp now (end_ r) then Some (set_state r FR_RETRY_MRD, FR_RETRY_MRD)
      else
        match next_delay r with
        | None => None
        | Some (rt, n) =>
            let r := MkRetry (config r) (start r) (end_ r) (fr_time_add_time_delta (next r) rt) (updated r) rt
                       (count r) (replies r) (state r) n in
            if fr_time_add_time_delta (next r) (Z.quot rt 2) <? now then redo fuel r now
            else
              Some (if 0 <? fr_time_cmp (next r) (end_ r) then set_next r (end_ r) else r, FR_RETRY_CONTINUE)
        end
  end.

Definition fr_retry_next (fuel : nat) (r : fr_retry_t) (now : fr_time_t) : option (fr_retry_t * fr_retry_state_t) :=
  let r := MkRetry (config r) (start r) (end_ r) (next r) now (rt r) (u32 (count r + 1)) (replies r) (state r) (taken r) in
  if negb (mrc (config r) =? 0) && (mrc (config r) <? count r) then
    if mrc (config r) =? 1 then Some (set_state r FR_RETRY_MRD, FR_RETRY_MRD)
    else Some (set_state r FR_RETRY_MRC, FR_RETRY_MRC)
  else redo fuel r now.

(** ** Delays *)

Hypothesis rand_range : forall n, is_u32 (fr_rand n).

(** A delay of [scale / 2^32] times [d], rounded down. *)
Lemma scaled_delay_exact scale d :
  is_u64 scale -> 0 <= d < 2 ^ 63 -> scale * d / 2 ^ 32 < 2 ^ 63 ->
  scaled_delay scale d = Some (scale * d / 2 ^ 32).
Proof.
  intros Hs Hd Hlt. unfold scaled_delay. rewrite u64_id by (unfold is_u64; lia).
  destruct (mul64_exact scale d) as [E W]; [auto|unfold is_u64; lia|].
  destruct (rshift_wf_exact (uint128_mul64 scale d) 32 W ltac:(lia)) as (r & -> & V & [Wl Wh]).
  rewrite E in V. unfold val, is_u64 in *. assert (h r = 0) as Z0 by lia. rewrite Z0 in V.
  unfold uint128_to_64. replace (l r) with (scale * d / 2 ^ 32) by lia.
  rewrite s64_id; [done|]. unfold is_s64, INT64_MIN, INT64_MAX. split; [|lia].
  assert (0 <= scale * d / 2 ^ 32) by (apply Z.div_pos; nia). lia.
Qed.

(** The delay after one of [prev]: between one and a half and two and a half
    times it, or when that exceeds the maximum, between half and one and a half
    times the maximum. *)
Definition delay_ok (config : fr_retry_config_t) (prev d : fr_time_delta_t) : Prop :=
  (3 * prev / 2 <= d /\ 2 * d <= 5 * prev /\ (0 < mrt config -> d <= mrt config))
  \/ (0 < mrt config /\ mrt config / 2 <= d /\ 2 * d <= 3 * mrt config).

Definition wf_config (c : fr_retry_config_t) : Prop := is_u32 (mrc c) /\ (mrt c <= 0 \/ 2 <= mrt c <= 2 ^ 60).

(** A scale of [m] half units less half a unit, plus a random fraction below one. *)
Lemma scaled_bounds n k d :
  (k = 1 \/ k = 2) -> 0 <= d <= 2 ^ 60 ->
  exists e, scaled_delay (u64 (u64 (fr_rand n - 2 ^ 31) + k * 2 ^ 32)) d = Some e
  /\ (2 * k - 1) * d / 2 <= e /\ 2 * e <= (2 * k + 1) * d.
Proof.
  intros Hk Hd. pose proof (rand_range n) as Hr. unfold is_u32 in Hr.
  assert (u64 (u64 (fr_rand n - 2 ^ 31) + k * 2 ^ 32) = fr_rand n - 2 ^ 31 + k * 2 ^ 32) as ->.
  { unfold u64. rewrite Zplus_mod_idemp_l. apply Z.mod_small. lia. }
  set (s := fr_rand n - 2 ^ 31 + k * 2 ^ 32).
  assert ((2 * k - 1) * 2 ^ 31 <= s < (2 * k + 1) * 2 ^ 31) as Hs by (unfold s; lia). clearbody s.
  assert (2 * (s * d / 2 ^ 32) <= (2 * k + 1) * d) as U.
  { pose proof (Z.mul_div_le (s * d) (2 ^ 32) ltac:(lia)). nia. }
  exists (s * d / 2 ^ 32). split_and!; [apply scaled_delay_exact; unfold is_u64; lia| |exact U].
  apply Z.div_le_lower_bound; [lia|]. pose proof (Z.mul_div_le ((2 * k - 1) * d) 2 ltac:(lia)). nia.
Qed.

Lemma next_delay_ok r :
  wf_config (config r) -> 1 <= rt r <= 2 ^ 60 ->
  exists d n, next_delay r = Some (d, n) /\ delay_ok (config r) (rt r) d /\ 1 <= d <= 2 ^ 62.
Proof.
  intros [_ Hm] Hr. unfold next_delay.
  destruct (scaled_bounds (taken r) 2 (rt r)) as (e & E & L & U); [auto|lia|].
  change (2 * 2 ^ 32) with (2 ^ 33) in E. rewrite E. change (2 * 2 - 1) with 3 in L.
  assert (1 <= 3 * rt r / 2) by (apply Z.div_le_lower_bound; lia).
  destruct ((0 <? mrt (config r)) && (mrt (config r) <? e)) eqn:C; simpl_bool.
  - destruct (scaled_bounds (S (taken r)) 1 (mrt (config r))) as (e' & E' & L' & U'); [auto|lia|].
    change (1 * 2 ^ 32) with (2 ^ 32) in E'. rewrite E'. change (2 * 1 - 1) with 1 in L'. rewrite Z.mul_1_l in L'.
    assert (1 <= mrt (config r) / 2) by (apply Z.div_le_lower_bound; lia).
    do 2 eexists; split; [reflexivity|]. split; [right|]; lia.
  - do 2 eexists; split; [reflexivity|]. split; [left|lia]. split_and!; [lia|lia|].
    intros. apply andb_false_iff in C as [C|C]; simpl_bool; lia.
Qed.

(** Adding two non-negative times saturates at the largest. *)
Lemma add_nonneg a b :
  0 <= a <= INT64_MAX -> 0 <= b <= INT64_MAX -> fr_time_add_time_delta a b = Z.min (a + b) INT64_MAX.
Proof. intros. unfold fr_time_add_time_delta, fr_add. time_cases. Qed.

Lemma cmp_pos a b : (0 <? fr_time_cmp a b) = (b <? a).
Proof. unfold fr_time_cmp. destruct (Z.ltb_spec b a), (Z.ltb_spec a b); try lia; reflexivity. Qed.
Lemma cmp_nonneg a b : (0 <=? fr_time_cmp a b) = (b <=? a).
Proof. unfold fr_time_cmp. destruct (Z.leb_spec b a), (Z.ltb_spec b a), (Z.ltb_spec a b); try lia; reflexivity. Qed.

(** What a call that does not fail for the count leaves. *)
Definition continue_ok (r : fr_retry_t) (now : fr_time_t) (r' : fr_retry_t) : Prop :=
  now < end_ r /\ next r' <= end_ r /\ 1 <= rt r'
  /\ (next r' = end_ r \/ next r < next r' /\ now <= next r' + Z.quot (rt r') 2)
  /\ (exists prev, 1 <= prev /\ delay_ok (config r) prev (rt r')).

Definition same_timer (r r' : fr_retry_t) : Prop :=
  config r' = config r /\ start r' = start r /\ end_ r' = end_ r /\ updated r' = updated r
  /\ count r' = count r /\ replies r' = replies r.

Lemma redo_returns fuel r now :
  wf_config (config r) -> 1 <= rt r <= 2 ^ 60 -> 0 <= next r <= INT64_MAX -> end_ r <= INT64_MAX ->
  0 <= now <= 2 ^ 59 -> (Z.to_nat (now - next r) < fuel)%nat ->
  exists r' s, redo fuel r now = Some (r', s) /\ same_timer r r'
  /\ ((s = FR_RETRY_MRD /\ state r' = FR_RETRY_MRD /\ end_ r <= now)
      \/ (s = FR_RETRY_CONTINUE /\ state r' = state r /\ continue_ok r now r')).
Proof.
  revert r. induction fuel as [|fuel IH]; intros r Hc Hrt Hn Hend Hnow Hf; [lia|]. cbn [redo].
  rewrite cmp_nonneg. case_if.
  { do 2 eexists. split; [reflexivity|]. split; [split_and!; reflexivity|]. left. done. }
  destruct (next_delay_ok r Hc Hrt) as (d & n & -> & Hd & Hd').
  pose proof (Z.quot_div_nonneg d 2 ltac:(lia) ltac:(lia)) as Q.
  pose proof (Z.div_mod d 2 ltac:(lia)). pose proof (Z.mod_pos_bound d 2 ltac:(lia)).
  cbn zeta. cbn [next end_ config start updated count replies state].
  rewrite (add_nonneg (next r) d) by (unfold INT64_MAX in *; lia).
  rewrite add_nonneg by (unfold INT64_MAX in *; lia).
  case_if.
  - match goal with |- context [redo fuel ?x now] => destruct (IH x) as (r' & s & -> & Hs & Hr) end;
      cbn [config rt next]; auto; try (unfold INT64_MAX in *; lia).
    exists r', s. split; [done|]. split; [exact Hs|]. destruct Hr as [Hr|(-> & Hst & Hr)]; [left; exact Hr|right].
    split; [done|]. split; [exact Hst|]. destruct Hr as (? & ? & ? & Hx & Hy). split_and!; auto.
    cbn [next end_] in Hx. destruct Hx as [Hx|[Hx Hx']]; [left; done|right]. unfold INT64_MAX in *. lia.
  - do 2 eexists. split; [reflexivity|]. rewrite cmp_pos.
    split; [case_if; split_and!; reflexivity|]. right. split; [done|].
    case_if; cbn [state set_next]; (split; [done|]); split_and!; cbn [rt next set_next]; auto; try lia;
      try (exists (rt r); split; [lia|exact Hd]).
Qed.

(** A timer as [fr_retry_init] and [fr_retry_next] leave it; [lim] bounds the
    interval. *)
Definition wf_retry (lim : Z) (r : fr_retry_t) : Prop :=
  wf_config (config r) /\ 1 <= rt r <= lim /\ 0 <= next r <= INT64_MAX /\ end_ r <= INT64_MAX
  /\ 1 <= count r < UINT_MAX.

(** One iteration of the loop per nanosecond between the timer and now is
    enough: each moves the timer forward. *)
Definition next_fuel (r : fr_retry_t) (now : fr_time_t) : nat := S (Z.to_nat (now - next r)).

Lemma next_returns fuel r now :
  wf_retry (2 ^ 60) r -> 0 <= now <= 2 ^ 59 -> (next_fuel r now <= fuel)%nat ->
  exists r' s, fr_retry_next fuel r now = Some (r', s)
  /\ config r' = config r /\ start r' = start r /\ end_ r' = end_ r
  /\ updated r' = now /\ count r' = count r + 1
  /\ match s with
     | FR_RETRY_MRC => 1 < mrc (config r) <= count r
     | FR_RETRY_MRD => (mrc (config r) = 1 \/ (mrc (config r) = 0 \/ count r < mrc (config r)) /\ end_ r <= now)
     | FR_RETRY_CONTINUE => (mrc (config r) = 0 \/ count r < mrc (config r)) /\ state r' = state r /\ continue_ok r now r'
     end.
Proof.
  intros (Hc & Hrt & Hn & He & Hcnt) Hnow Hf. unfold fr_retry_next. cbn zeta. cbn [config count].
  rewrite u32_id by (unfold is_u32, UINT_MAX in *; lia). pose proof Hc as [Hm _]. unfold is_u32 in Hm.
  match goal with |- context [if ?b then _ else _] => destruct b eqn:E end.
  - simpl_bool. case_if.
    + do 2 eexists. split; [reflexivity|]. split_and!; try reflexivity. cbn. by left.
    + do 2 eexists. split; [reflexivity|]. split_and!; try reflexivity; cbn; lia.
  - assert (mrc (config r) = 0 \/ count r < mrc (config r)) as Hcount
      by (apply andb_false_iff in E as [E|E]; simpl_bool; lia).
    match goal with |- context [redo fuel ?x now] => destruct (redo_returns fuel x now) as (r' & s & -> & Hs & Hr) end;
      cbn [config rt next end_]; auto.
    destruct Hs as (? & ? & ? & ? & ? & ?). exists r', s. split; [done|]. split_and!; auto.
    destruct Hr as [(-> & _ & Hr)|(-> & Hst & Hr)]; auto.
Qed.

(** The interval stays below one and a half times the maximum. *)
Lemma next_keeps_wf r now r' :
  wf_retry (2 ^ 60) r -> 2 <= mrt (config r) <= 2 ^ 59 -> 0 <= now -> config r' = config r -> end_ r' = end_ r ->
  count r' = count r + 1 -> count r' < UINT_MAX -> continue_ok r now r' -> wf_retry (2 ^ 60) r'.
Proof.
  intros (Hc & Hrt & Hn & He & Hcnt) Hm Hnow Ec Ee Ek Hk (H1 & H2 & H3 & H4 & prev & Hp & Hd).
  unfold wf_retry. rewrite Ec, Ee, Ek in *. split_and!; auto; try apply Hc; try lia.
  destruct Hd as [(_ & _ & Hd)|(_ & _ & Hd)]; lia.
Qed.

(** The answers to calls at the given times: how often the caller was told to
    continue, and the last answer. *)
Fixpoint run (r : fr_retry_t) (times : list fr_time_t) : option (nat * fr_retry_state_t) :=
  match times with
  | [] => Some (O, FR_RETRY_CONTINUE)
  | now :: times =>
      match fr_retry_next (next_fuel r now) r now with
      | None => None
      | Some (r, FR_RETRY_CONTINUE) =>
          match run r times with Some (k, s) => Some (S k, s) | None => None end
      | Some (_, s) => Some (O, s)
      end
  end.

Lemma run_stops r times :
  wf_retry (2 ^ 60) r -> 2 <= mrt (config r) <= 2 ^ 59 -> 1 <= mrc (config r) -> count r <= mrc (config r) < UINT_MAX ->
  Forall (fun t => 0 <= t <= 2 ^ 59) times ->
  exists k s, run r times = Some (k, s) /\ (Z.of_nat k <= mrc (config r) - count r)
  /\ (mrc (config r) - count r < Z.of_nat (length times) -> s <> FR_RETRY_CONTINUE).
Proof.
  intros Hw Hm Hc Hcnt Ht. revert r Hw Hm Hc Hcnt. induction Ht as [|now times Hnow Ht IH]; intros r Hw Hm Hc Hcnt.
  { do 2 eexists; split; [reflexivity|]. cbn. split; lia. }
  cbn [run]. destruct (next_returns (next_fuel r now) r now Hw Hnow (le_n _)) as (r' & s & -> & E1 & E2 & E3 & E4 & E5 & Hs).
  destruct s; [|do 2 eexists; split; [reflexivity|]; split; [lia|discriminate]..].
  destruct Hs as (Hs & _ & Hk).
  destruct (IH r') as (k & s & -> & Hk1 & Hk2); rewrite ?E1, ?E5; try lia; auto.
  - apply (next_keeps_wf r now r'); auto; lia.
  - do 2 eexists; split; [reflexivity|]. rewrite E1, E5 in *. cbn [length]. split; [lia|]. intros. apply Hk2. lia.
Qed.

(** When a timer ends. *)
Definition end_time (now : fr_time_t) (c : fr_retry_config_t) : Z :=
  if mrd c =? 0 then if mrc c =? 0 then now + 86400 * NSEC else now + mrt c * mrc c else now + mrd c.

Lemma init_returns n now c :
  wf_config c -> 0 <= mrt c -> 2 <= irt c <= 2 ^ 60 -> 0 <= mrd c <= 2 ^ 60 -> mrt c * mrc c <= 2 ^ 62 -> 0 <= now <= 2 ^ 59 ->
  exists r, fr_retry_init n now c = Some r
  /\ config r = c /\ start r = now /\ updated r = now /\ count r = 1 /\ replies r = 0 /\ state r = FR_RETRY_CONTINUE
  /\ end_ r = end_time now c
  /\ if mrc c =? 1 then next r = end_ r /\ rt r = mrd c
     else irt c / 2 <= rt r /\ 2 * rt r <= 3 * irt c /\ next r = Z.min (now + rt r) (end_ r).
Proof.
  intros [Hmrc Hm] Hmrt Hirt Hmrd Hprod Hnow. unfold fr_retry_init, is_u32 in *. cbn zeta.
  rewrite (add_nonneg now (mrd c)), Z.min_l by (unfold INT64_MAX; lia).
  change (fr_time_delta_from_sec 86400) with (86400 * NSEC).
  rewrite (add_nonneg now (86400 * NSEC)), Z.min_l by (unfold INT64_MAX; lia).
  assert (fr_time_delta_mul (mrt c) (mrc c) = mrt c * mrc c) as ->
    by (unfold fr_time_delta_mul, fr_multiply; rewrite fits_s64_in; [done|]; unfold is_s64, INT64_MIN, INT64_MAX; nia).
  rewrite (add_nonneg now (mrt c * mrc c)), Z.min_l by (unfold INT64_MAX; nia).
  assert ((if fr_time_cmp now (now + mrd c) =? 0
           then if mrc c =? 0 then now + 86400 * NSEC else now + mrt c * mrc c else now + mrd c) = end_time now c) as ->.
  { unfold end_time, fr_time_cmp. destruct (Z.eqb_spec (mrd c) 0) as [-> |].
    - rewrite Z.add_0_r, Z.ltb_irrefl. reflexivity.
    - destruct (Z.ltb_spec (now + mrd c) now), (Z.ltb_spec now (now + mrd c)); try lia. reflexivity. }
  destruct (Z.eqb_spec (mrc c) 1).
  { eexists; split; [reflexivity|]. split_and!; reflexivity. }
  assert (u64 (u64 (fr_rand n + 2 ^ 32) - 2 ^ 31) = u64 (u64 (fr_rand n - 2 ^ 31) + 1 * 2 ^ 32)) as ->
    by (unfold u64; rewrite Zplus_mod_idemp_l, Zminus_mod_idemp_l; f_equal; lia).
  destruct (scaled_bounds n 1 (irt c)) as (e & -> & L & U); [auto|lia|].
  change (2 * 1 - 1) with 1 in L. rewrite Z.mul_1_l in L.
  assert (1 <= irt c / 2) by (apply Z.div_le_lower_bound; lia).
  rewrite (add_nonneg now e), (Z.min_l (now + e)), cmp_pos by (unfold INT64_MAX; lia).
  eexists; split; [reflexivity|]. cbn [config start updated count replies state end_ rt next].
  split_and!; auto; try lia. case_if; lia.
Qed.
End Timer.

(** ** Properties *)


(** C31: A timer whose configuration limits the number of packets and the
    interval stops: whatever the random numbers and the times of the calls, of
    any [mrc] calls after the initialisation one gives an answer other than
    continue, and at most [mrc - 1] retransmissions happen before. *)
Theorem retry_terminates (fr_rand : nat -> Z) (n : nat) (start_at : fr_time_t) (c : fr_retry_config_t) (times : list fr_time_t) :
  (forall n, is_u32 (fr_rand n)) ->
  2 <= mrc c < UINT_MAX -> 2 <= mrt c <= 2 ^ 59 -> mrt c * mrc c <= 2 ^ 61 -> 2 <= irt c <= 2 ^ 59 -> 0 <= mrd c <= 2 ^ 60 -> 0 <= start_at <= 2 ^ 59 ->
  Forall (fun t => 0 <= t <= 2 ^ 59) times ->
  exists r k s, fr_retry_init fr_rand n start_at c = Some r /\ run fr_rand r times = Some (k, s)
  /\ Z.of_nat k <= mrc c - 1 /\ (mrc c <= Z.of_nat (length times) -> s <> FR_RETRY_CONTINUE).
Proof.
  intros Hrand Hmrc Hmrt Hprod Hirt Hmrd Hs Ht. unfold UINT_MAX in Hmrc.
  assert (wf_config c) as Hc by (split; [unfold is_u32|]; lia).
  destruct (init_returns fr_rand Hrand n start_at c) as (r & -> & Ec & _ & _ & Ek & _ & _ & Ee & Hr); auto; try lia.
  destruct (Z.eqb_spec (mrc c) 1); [lia|]. destruct Hr as (H1 & H2 & H3).
  assert (start_at <= end_time start_at c <= INT64_MAX) as He
    by (unfold end_time, INT64_MAX; repeat case_if; nia).
  assert (1 <= irt c / 2) by (apply Z.div_le_lower_bound; lia).
  destruct (run_stops fr_rand Hrand r times) as (k & s & Er & Hk1 & Hk2); rewrite ?Ec, ?Ek; auto; unfold UINT_MAX; try lia.
  { split_and!; rewrite ?Ec; try apply Hc; unfold UINT_MAX; lia. }
  exists r, k, s. rewrite Ec, Ek in *. split_and!; auto. intros. apply Hk2. lia.
Qed.

(** A configuration of the tests: one second, at most three packets. *)
Definition sample_config : fr_retry_config_t := MkRetryConfig 1000000000 1000000000 0 3.


Lemma retry_terminates_witness :
  exists r k s, fr_retry_init (fun _ => 7) 0 0 sample_config = Some r
  /\ run (fun _ => 7) r [1000000000; 2000000000; 3000000000] = Some (k, s) /\ Z.of_nat k <= 3 - 1 /\ (3 <= 3 -> s <> FR_RETRY_CONTINUE).
Proof.
  apply (retry_terminates (fun _ => 7) 0 0 sample_config [1000000000; 2000000000; 3000000000]);
    try (cbn; unfold UINT_MAX; lia).
  - intros _. unfold is_u32. lia.
  - repeat constructor; lia.
Defined.
End Retry.
