(* ===== verification/Queues.v ===== *)
(** The two fixed-size queues of src/lib/util: fifo.c, a circular array with a
    count, and fring.c, a circular array whose slots are empty when NULL. A slot
    holds [None] for NULL; an access outside the allocated array is [None] as the
    result of the whole operation. *)

From S2P Require Import Prelude.

(** * fifo.c *)

Module Fifo.
Section Fifo.
Context {A : Type}.

(** [max] is at most 2^20, so that no index overflows. [data] has one slot more
    than [max], because of the one the structure declares. *)
Record fr_fifo_t := MkFifo {
  num : nat;
  first : nat;
  last : nat;
  max : nat;
  data : list (option A) }.

(** [memory] tells whether the allocation succeeds. *)
Definition fr_fifo_create (max : Z) (memory : bool) : option fr_fifo_t :=
  if (max <? 2) || (1024 * 1024 <? max) then None
  else if negb memory then None
  else Some (MkFifo 0 0 0 (Z.to_nat max) (replicate (S (Z.to_nat max)) None)).

(** The new queue and the return code. *)
Definition fr_fifo_push (fi : fr_fifo_t) (x : option A) : option (fr_fifo_t * Z) :=
  match x with
  | None => Some (fi, -1)
  | Some x =>
      if (max fi <=? num fi)%nat then Some (fi, -1)
      else if (last fi <? length (data fi))%nat then
        let d := <[last fi := Some x]> (data fi) in
        let l := S (last fi) in
        let l := if (max fi <=? l)%nat then 0%nat else l in
        Some (MkFifo (S (num fi)) (first fi) l (max fi) d, 0)
      else None
  end.

Definition fr_fifo_pop (fi : fr_fifo_t) : option (fr_fifo_t * option A) :=
  if (num fi =? 0)%nat then Some (fi, None)
  else
    match data fi !! first fi with
    | None => None
    | Some x =>
        let f := S (first fi) in
        let f := if (max fi <=? f)%nat then 0%nat else f in
        Some (MkFifo (num fi - 1) f (last fi) (max fi) (data fi), x)
    end.

Definition fr_fifo_peek (fi : fr_fifo_t) : option (option A) :=
  if (num fi =? 0)%nat then Some None else data fi !! first fi.

Definition fr_fifo_num_elements (fi : fr_fifo_t) : nat := num fi.

(** The loop of [_fifo_free] with [n] iterations left, at [i]: the arguments of
    [free_node], in order. *)
Fixpoint free_loop (n i : nat) (fi : fr_fifo_t) : option (list (option A)) :=
  match n with
  | O => Some []
  | S n =>
      let element := (i + first fi)%nat in
      let element := if (max fi <? element)%nat then (element - max fi)%nat else element in
      match data fi !! element with
      | None => None
      | Some x =>
          match free_loop n (S i) (MkFifo (num fi) (first fi) (last fi) (max fi) (<[element := None]> (data fi))) with
          | None => None
          | Some l => Some (x :: l)
          end
      end
  end.

Definition fifo_free (fi : fr_fifo_t) : option (list (option A)) := free_loop (num fi) 0 fi.

(** ** The queue it implements *)

Inductive op := Push (x : option A) | Pop | Peek | Num.
Inductive result := RCode (r : Z) | RData (x : option A) | RNum (n : nat).

Definition step (fi : fr_fifo_t) (o : op) : option (fr_fifo_t * result) :=
  match o with
  | Push x => match fr_fifo_push fi x with None => None | Some (fi, r) => Some (fi, RCode r) end
  | Pop => match fr_fifo_pop fi with None => None | Some (fi, x) => Some (fi, RData x) end
  | Peek => match fr_fifo_peek fi with None => None | Some x => Some (fi, RData x) end
  | Num => Some (fi, RNum (fr_fifo_num_elements fi))
  end.

(** A queue of at most [cap] elements: pushing NULL or into a full queue fails. *)
Definition queue_step (cap : nat) (q : list A) (o : op) : list A * result :=
  match o with
  | Push None => (q, RCode (-1))
  | Push (Some x) => if (cap <=? length q)%nat then (q, RCode (-1)) else (q ++ [x], RCode 0)
  | Pop => (tail q, RData (head q))
  | Peek => (q, RData (head q))
  | Num => (q, RNum (length q))
  end.

Fixpoint runs (fi : fr_fifo_t) (l : list op) : option (fr_fifo_t * list result) :=
  match l with
  | [] => Some (fi, [])
  | o :: l =>
      match step fi o with
      | None => None
      | Some (fi, r) => match runs fi l with None => None | Some (fi, rs) => Some (fi, r :: rs) end
      end
  end.

Fixpoint queue_runs (cap : nat) (q : list A) (l : list op) : list A * list result :=
  match l with
  | [] => (q, [])
  | o :: l => let '(q, r) := queue_step cap q o in let '(q, rs) := queue_runs cap q l in (q, r :: rs)
  end.

(** The index of the [i]-th element. *)
Definition slot (fi : fr_fifo_t) (i : nat) : nat :=
  if (max fi <=? first fi + i)%nat then (first fi + i - max fi)%nat else (first fi + i)%nat.

Definition holds (fi : fr_fifo_t) (q : list A) : Prop :=
  length (data fi) = S (max fi) /\ (first fi < max fi)%nat /\ num fi = length q /\ (num fi <= max fi)%nat
  /\ last fi = slot fi (num fi) /\ data fi !! max fi = Some None
  /\ (forall i x, q !! i = Some x -> data fi !! slot fi i = Some (Some x)).

Lemma slot_lt fi i : (first fi < max fi)%nat -> (i <= max fi)%nat -> (slot fi i < max fi)%nat.
Proof. intros. unfold slot. case_if; lia. Qed.

Lemma slot_inj fi i j : (first fi < max fi)%nat -> (i < max fi)%nat -> (j < max fi)%nat -> slot fi i = slot fi j -> i = j.
Proof. unfold slot. repeat case_if; lia. Qed.

Lemma push_holds fi q x : holds fi q ->
  match fr_fifo_push fi x with
  | None => False
  | Some (fi', r) => max fi' = max fi /\ exists q', queue_step (max fi) q (Push x) = (q', RCode r) /\ holds fi' q'
  end.
Proof.
  intros (Hd & Hf & Hn & Hm & Hl & Hz & Hq). unfold fr_fifo_push. destruct x as [x|]; cbn [queue_step].
  2: { split; [done|]. exists q. done. }
  rewrite Hn. case_if.
  { split; [done|]. exists q. done. }
  pose proof (slot_lt fi (num fi) Hf ltac:(lia)) as Hs. case_if; [|lia].
  split; [done|]. eexists; split; [reflexivity|].
  unfold holds, slot in *; cbn [num first last max data]. rewrite length_insert, length_app. cbn [length].
  assert (forall i, (i <= max fi)%nat -> last fi = first fi + i - (if max fi <=? first fi + i then max fi else 0) -> i < num fi -> False)%nat as Hne
    by (intros i ?; revert Hl; repeat case_if; lia).
  split_and!; auto; try lia.
  - revert Hl. destruct (Nat.leb_spec (max fi) (first fi + num fi)); intros ->; repeat case_if; lia.
  - rewrite list_lookup_insert_ne; [done|]. lia.
  - intros i y Hi. apply lookup_app_Some in Hi as [Hi|[Hi1 Hi2]].
    + pose proof (lookup_lt_Some _ _ _ Hi). rewrite list_lookup_insert_ne; [by apply Hq|].
      intros E. apply (Hne i); [lia| |lia]. rewrite E. case_if; lia.
    + apply list_lookup_singleton_Some in Hi2 as [Hi2 <-].
      assert (i = num fi) as -> by lia. rewrite <- Hl. apply list_lookup_insert_eq. lia.
Qed.

Lemma pop_holds fi q : holds fi q ->
  match fr_fifo_pop fi with
  | None => False
  | Some (fi', x) => max fi' = max fi /\ x = head q /\ holds fi' (tail q)
  end.
Proof.
  intros (Hd & Hf & Hn & Hm & Hl & Hz & Hq). unfold fr_fifo_pop. destruct q as [|x q]; cbn in Hn.
  { rewrite Hn. cbn. done. }
  rewrite Hn. cbn [Nat.eqb].
  pose proof (Hq 0%nat x eq_refl) as H0. unfold slot in H0. rewrite Nat.add_0_r in H0.
  destruct (Nat.leb_spec (max fi) (first fi)); [lia|]. rewrite H0. split; [done|]. split; [done|].
  unfold holds, slot in *. cbn [num first last max data tail]. split_and!; auto; try lia.
  - case_if; lia.
  - rewrite Hl, Hn. repeat case_if; lia.
  - intros i y Hi. pose proof (lookup_lt_Some _ _ _ Hi). rewrite <- (Hq (S i) y Hi). f_equal. repeat case_if; lia.
Qed.

Lemma peek_holds fi q : holds fi q -> fr_fifo_peek fi = Some (head q).
Proof.
  intros (Hd & Hf & Hn & Hm & Hl & Hz & Hq). unfold fr_fifo_peek. destruct q as [|x q]; cbn in Hn; rewrite Hn; [done|].
  cbn [Nat.eqb]. pose proof (Hq 0%nat x eq_refl) as H0. unfold slot in H0. rewrite Nat.add_0_r in H0.
  destruct (Nat.leb_spec (max fi) (first fi)); [lia|done].
Qed.

Lemma runs_hold fi q l : holds fi q ->
  exists fi', runs fi l = Some (fi', snd (queue_runs (max fi) q l)) /\ max fi' = max fi /\ holds fi' (fst (queue_runs (max fi) q l)).
Proof.
  revert fi q. induction l as [|o l IH]; intros fi q H; cbn [runs queue_runs]; [by exists fi|].
  assert (exists fi' r q', step fi o = Some (fi', r) /\ queue_step (max fi) q o = (q', r) /\ max fi' = max fi /\ holds fi' q')
    as (fi' & r & q' & -> & -> & Em & H').
  { destruct o as [x| | |]; cbn [step queue_step].
    - pose proof (push_holds fi q x H) as P. destruct (fr_fifo_push fi x) as [[fi' r]|]; [|done].
      destruct P as (Em & q' & E & H'). exists fi', (RCode r), q'. done.
    - pose proof (pop_holds fi q H) as P. destruct (fr_fifo_pop fi) as [[fi' x]|]; [|done].
      destruct P as (Em & -> & H'). do 3 eexists. done.
    - rewrite (peek_holds fi q H). do 3 eexists. done.
    - do 3 eexists. split; [reflexivity|]. unfold fr_fifo_num_elements. pose proof H as (_ & _ & -> & _). done. }
  destruct (IH fi' q' H') as (fi'' & -> & Em' & H''). rewrite Em in *.
  destruct (queue_runs (max fi) q' l) as [q'' rs]. exists fi''. split; [done|]. split; [congruence|done].
Qed.

Lemma create_holds max fi : fr_fifo_create max true = Some fi -> holds fi [] /\ Z.of_nat (Fifo.max fi) = max /\ 2 <= max <= 1048576.
Proof.
  unfold fr_fifo_create. intros H. case_if_in H; [done|]. cbn in H. injection H as <-. cbn.
  split; [|lia].
  unfold holds; cbn. rewrite length_replicate. split_and!; auto; try lia.
  - unfold slot; cbn. case_if; lia.
  - apply (lookup_replicate_2 (S (Z.to_nat max))). lia.
  - intros i x Hi. rewrite lookup_nil in Hi. done.
Qed.

(** The index [_fifo_free] uses for the [i]-th element. *)
Definition freed_slot (fi : fr_fifo_t) (i : nat) : nat :=
  if (max fi <? i + first fi)%nat then (i + first fi - max fi)%nat else (i + first fi)%nat.

Lemma free_loop_spec n i fi (f : nat -> option A) :
  (first fi < max fi)%nat -> (i + n <= max fi)%nat ->
  (forall j, (i <= j < i + n)%nat -> data fi !! freed_slot fi j = Some (f j)) ->
  free_loop n i fi = Some (map f (seq i n)).
Proof.
  revert i fi. induction n as [|n IH]; intros i fi Hf Hn Hd; [done|]. cbn [free_loop seq map].
  fold (freed_slot fi i). rewrite (Hd i) by lia.
  match goal with |- context [free_loop n (S i) ?x] => rewrite (IH (S i) x) end; cbn [first max data]; [done|lia..|].
  intros j Hj. unfold freed_slot in *. cbn [first max]. rewrite list_lookup_insert_ne; [apply Hd; lia|]. repeat case_if; lia.
Qed.

Lemma fifo_free_spec fi q : holds fi q ->
  fifo_free fi = Some (imap (fun i x => if (i =? max fi - first fi)%nat then None else Some x) q).
Proof.
  intros (Hd & Hf & Hn & Hm & Hl & Hz & Hq). unfold fifo_free.
  rewrite (free_loop_spec _ _ _ (fun i => if (i =? max fi - first fi)%nat then None else q !! i)); [|lia..|].
  - f_equal. rewrite Hn. apply list_eq. intros i. rewrite list_lookup_fmap, list_lookup_imap.
    destruct (q !! i) as [x|] eqn:E.
    + pose proof (lookup_lt_Some _ _ _ E). rewrite lookup_seq_lt by lia. cbn. rewrite E. done.
    + apply lookup_ge_None in E. rewrite lookup_seq_ge by lia. done.
  - intros j Hj. unfold freed_slot. destruct (Nat.eqb_spec j (max fi - first fi)) as [-> |].
    + case_if; [lia|]. replace (max fi - first fi + first fi)%nat with (max fi) by lia. done.
    + destruct (lookup_lt_is_Some_2 q j) as [x E]; [lia|]. rewrite E, <- (Hq j x E). f_equal.
      unfold slot. repeat case_if; lia.
Qed.
End Fifo.

(** ** Properties *)

(** For every sequence of pushes, pops, peeks and counts on a new queue, no
    access leaves the array and every answer is that of a first-in first-out
    queue of the configured capacity: a push fails only for NULL or when the
    queue is full, and elements come out in the order they went in. *)
Theorem fifo_refines_queue {A} (max : Z) (fi : fr_fifo_t (A:=A)) (l : list op) :
  fr_fifo_create max true = Some fi ->
  exists fi', runs fi l = Some (fi', snd (queue_runs (Z.to_nat max) [] l)).
Proof.
  intros H. destruct (create_holds max fi H) as (Hh & <- & _). rewrite Nat2Z.id.
  destruct (runs_hold fi [] l Hh) as (fi' & E & _). eauto.
Qed.

Lemma fifo_refines_queue_witness :
  exists fi', runs (MkFifo 0 0 0 2 [None; None; None]) [Push (Some 1); Push (Some 2); Push (Some 3); Pop; Push (Some 4); Pop; Pop]
    = Some (fi', [RCode 0; RCode 0; RCode (-1); RData (Some 1); RCode 0; RData (Some 2); RData (Some 4)]).
Proof. exact (fifo_refines_queue 2 (MkFifo 0 0 0 2 [None; None; None]) _ eq_refl). Defined.

(** Freeing a queue passes each element that is still in it to the
    destructor, in order, except the one in the first slot of the array when the
    contents wrap around: in its place the destructor is called with NULL, and
    that element is lost. *)
Theorem fifo_free_wrapped {A} (max : Z) (fi fi' : fr_fifo_t (A:=A)) (l : list op) (rs : list result) :
  fr_fifo_create max true = Some fi -> runs fi l = Some (fi', rs) ->
  fifo_free fi'
  = Some (imap (fun i x => if (i =? Z.to_nat max - first fi')%nat then None else Some x) (fst (queue_runs (Z.to_nat max) [] l))).
Proof.
  intros H E. destruct (create_holds max fi H) as (Hh & <- & _). rewrite Nat2Z.id.
  destruct (runs_hold fi [] l Hh) as (fi'' & E' & Em & H'). rewrite E' in E. injection E as -> _.
  rewrite (fifo_free_spec fi' _ H'), Em. done.
Qed.

Lemma fifo_free_wrapped_witness :
  fifo_free (MkFifo 2 1 1 2 [Some 3; Some 2; None]) = Some [Some 2; None].
Proof.
  exact (fifo_free_wrapped 2 (MkFifo 0 0 0 2 [None; None; None]) (MkFifo 2 1 1 2 [Some 3; Some 2; None])
           [Push (Some 1); Push (Some 2); Pop; Push (Some 3)] _ eq_refl eq_refl).
Defined.
End Fifo.

(** * fring.c *)

Module Fring.
Section Fring.
Context {A : Type}.

(** [size] is the mask of the indices, and [data] has as many slots. The mutex is
    not modelled: an operation is atomic. *)
Record fr_fring_t := MkFring {
  size : Z;
  in_ : Z;
  out : Z;
  data : list (option A) }.

(** [for (pow = 1; pow < size; pow <<= 1)], for at most [fuel] iterations. *)
Fixpoint pow_loop (fuel : nat) (pow size : Z) : option Z :=
  if pow <? size then
    match fuel with
    | O => None
    | S fuel => pow_loop fuel (shl32 pow 1) size
    end
  else Some pow.

(** [None] when the loop does not end; 32 shifts reach 0, where it stays. *)
Definition fr_fring_alloc (sz : Z) : option fr_fring_t :=
  match pow_loop 32 1 sz with
  | None => None
  | Some pow => let sz := u32 (pow - 1) in Some (MkFring sz 0 0 (replicate (Z.to_nat sz) None))
  end.

Definition advance (r : fr_fring_t) (x : A) : fr_fring_t :=
  let i := Z.land (u32 (in_ r + 1)) (size r) in
  let o := if i =? out r then Z.land (u32 (out r + 1)) (size r) else out r in
  MkFring (size r) i o (<[Z.to_nat (in_ r) := Some x]> (data r)).

(** The item freed, if one is. *)
Definition fr_fring_overwrite (r : fr_fring_t) (x : A) : option (fr_fring_t * Z * option A) :=
  match data r !! Z.to_nat (in_ r) with
  | None => None
  | Some (Some y) => Some (advance r x, 1, Some y)
  | Some None => Some (advance r x, 0, None)
  end.

Definition fr_fring_insert (r : fr_fring_t) (x : A) : option (fr_fring_t * Z) :=
  match data r !! Z.to_nat (in_ r) with
  | None => None
  | Some (Some _) => Some (r, -1)
  | Some None => Some (advance r x, 0)
  end.

Definition fr_fring_next (r : fr_fring_t) : option (fr_fring_t * option A) :=
  if out r =? in_ r then Some (r, None)
  else
    match data r !! Z.to_nat (out r) with
    | None => None
    | Some x =>
        Some (MkFring (size r) (in_ r) (Z.land (u32 (out r + 1)) (size r)) (<[Z.to_nat (out r) := None]> (data r)), x)
    end.

Fixpoint inserts (r : fr_fring_t) (l : list A) : option fr_fring_t :=
  match l with
  | [] => Some r
  | x :: l => match fr_fring_insert r x with Some (r, _) => inserts r l | None => None end
  end.

(** The smallest power of two that is not smaller than the size. *)
Lemma pow_loop_spec fuel k sz :
  (k <= 31)%nat -> sz <= 2 ^ 31 -> (31 - k <= fuel)%nat ->
  exists j, (k <= j <= 31)%nat /\ pow_loop fuel (2 ^ Z.of_nat k) sz = Some (2 ^ Z.of_nat j).
Proof.
  revert k. induction fuel as [|fuel IH]; intros k Hk Hs Hf; cbn [pow_loop].
  - assert (k = 31%nat) as -> by lia. case_if; [lia|]. by exists 31%nat.
  - case_if; [|by exists k].
    assert (k < 31)%nat as Hlt.
    { destruct (decide (k = 31%nat)) as [-> |]; [lia|lia]. }
    assert (shl32 (2 ^ Z.of_nat k) 1 = 2 ^ Z.of_nat (S k)) as ->.
    { unfold shl32. rewrite Z.shiftl_mul_pow2, Nat2Z.inj_succ, Z.pow_succ_r by lia. rewrite u32_id; [lia|].
      assert (0 < 2 ^ Z.of_nat k) by (apply Z.pow_pos_nonneg; lia).
      assert (2 ^ Z.of_nat k <= 2 ^ 30) by (apply Z.pow_le_mono_r; lia). unfold is_u32. lia. }
    destruct (IH (S k)) as (j & Hj & E); [lia|lia|lia|]. exists j. split; [lia|done].
Qed.

Lemma inserts_fill k l r :
  size r = 2 ^ k - 1 -> 0 <= k <= 31 -> out r = 0 -> Z.of_nat (length (data r)) = 2 ^ k - 1 ->
  0 <= in_ r -> in_ r + Z.of_nat (length l) <= 2 ^ k - 1 ->
  (forall i, (Z.to_nat (in_ r) <= i < length (data r))%nat -> data r !! i = Some None) ->
  exists r', inserts r l = Some r' /\ in_ r' = in_ r + Z.of_nat (length l) /\ length (data r') = length (data r).
Proof.
  intros Hs Hk. assert (2 ^ k <= 2 ^ 31) by (apply Z.pow_le_mono_r; lia). revert r Hs.
  induction l as [|x l IH]; intros r Hs Ho Hd Hi Hl Hn; cbn [inserts length] in *.
  { exists r. split_and!; auto; lia. }
  unfold fr_fring_insert. rewrite Hn by lia.
  assert (Z.land (u32 (in_ r + 1)) (size r) = in_ r + 1) as E.
  { rewrite u32_id by (unfold is_u32; lia). rewrite Hs. replace (2 ^ k - 1) with (Z.ones k) by (rewrite Z.ones_equiv; lia).
    rewrite Z.land_ones, Z.mod_small by lia. done. }
  destruct (IH (advance r x)) as (r' & -> & E1 & E2); unfold advance in *; cbn zeta; cbn [size in_ out data]; rewrite ?E, ?length_insert; auto; try lia.
  - destruct (Z.eqb_spec (in_ r + 1) (out r)); [lia|done].
  - intros i Hi'. rewrite list_lookup_insert_ne by lia. apply Hn. lia.
  - exists r'. cbn [in_ data] in E1, E2. rewrite length_insert in E2. rewrite E in E1. split_and!; auto; lia.
Qed.
End Fring.

(** A ring for [sz] items has one slot less than its indices range over: it
    takes [2 ^ k - 1] items and the next insert accesses the slot after the
    allocated array, for every size for which the allocation ends. *)
Theorem fring_overrun {A} (sz : Z) (x : A) :
  sz <= 2 ^ 31 ->
  exists k r, 0 <= k <= 31 /\ sz <= 2 ^ k /\ fr_fring_alloc sz = Some r
  /\ Z.of_nat (length (data r)) = 2 ^ k - 1
  /\ forall l, Z.of_nat (length l) = 2 ^ k - 1 ->
     exists r', inserts r l = Some r' /\ fr_fring_insert r' x = None /\ fr_fring_overwrite r' x = None.
Proof.
  intros Hs. destruct (pow_loop_spec 32 0 sz) as (j & Hj & E); [lia|lia|lia|].
  assert (2 ^ Z.of_nat j <= 2 ^ 31) by (apply Z.pow_le_mono_r; lia).
  assert (0 < 2 ^ Z.of_nat j) by (apply Z.pow_pos_nonneg; lia).
  exists (Z.of_nat j). unfold fr_fring_alloc. change (2 ^ Z.of_nat 0) with 1 in E. rewrite E.
  assert (sz <= 2 ^ Z.of_nat j) as Hle.
  { clear -E. revert E. generalize 1 as p. generalize 32%nat as n. induction n as [|n IH]; intros p; cbn [pow_loop]; case_if; try done.
    - by intros [= <-].
    - apply IH.
    - by intros [= <-]. }
  cbn zeta. rewrite u32_id by (unfold is_u32; lia).
  eexists; split; [lia|]. split; [done|]. split; [reflexivity|]. cbn [data]. rewrite length_replicate. split; [lia|].
  intros l Hl. destruct (inserts_fill (Z.of_nat j) l (MkFring (2 ^ Z.of_nat j - 1) 0 0 (replicate (Z.to_nat (2 ^ Z.of_nat j - 1)) None)))
    as (r' & -> & E1 & E2); cbn [size in_ out data]; rewrite ?length_replicate; try lia.
  { intros i Hi. apply lookup_replicate_2. lia. }
  exists r'. split; [done|]. cbn [in_ data] in E1, E2. rewrite length_replicate in E2.
  unfold fr_fring_insert, fr_fring_overwrite.
  assert (data r' !! Z.to_nat (in_ r') = None) as -> by (apply lookup_ge_None_2; lia). done.
Qed.

Lemma fring_overrun_witness :
  exists k r, 0 <= k <= 31 /\ 2 <= 2 ^ k /\ fr_fring_alloc 2 = Some r
  /\ Z.of_nat (length (data r)) = 2 ^ k - 1
  /\ forall l, Z.of_nat (length l) = 2 ^ k - 1 ->
     exists r', inserts r l = Some r' /\ fr_fring_insert r' 1 = None /\ fr_fring_overwrite r' 1 = None.
Proof. exact (fring_overrun 2 1 ltac:(lia)). Defined.
End Fring.
