(* ===== verification/RingBuffer.v ===== *)
(** The ring buffer of src/lib/io/ring_buffer.c, which hands out contiguous blocks
    of one array and takes them back in order. The bytes of the array do not
    matter to it: a block is its offset and length, and the buffer implements a
    first-in first-out queue of offsets, [live]. *)

From S2P Require Import Prelude.

Module RingBuffer.

Record fr_ring_buffer_t := MkRing {
  size : Z;
  data_start : Z;
  data_end : Z;
  write_offset : Z;
  reserved : Z;
  closed : bool }.

Definition round_up (size : Z) : Z :=
  let size := u64 (size - 1) in
  let size := Z.lor size (Z.shiftr size 1) in
  let size := Z.lor size (Z.shiftr size 2) in
  let size := Z.lor size (Z.shiftr size 4) in
  let size := Z.lor size (Z.shiftr size 8) in
  let size := Z.lor size (Z.shiftr size 16) in
  u64 (size + 1).

(** [memory] tells whether the allocations succeed. *)
Definition fr_ring_buffer_create (size : Z) (memory : bool) : option fr_ring_buffer_t :=
  if negb memory then None
  else
    let size := if size <? 1024 then 1024 else size in
    if Z.shiftl 1 30 <? size then None
    else Some (MkRing (round_up size) 0 0 0 0 false).

Definition set_reserved (rb : fr_ring_buffer_t) (n : Z) : fr_ring_buffer_t :=
  MkRing (size rb) (data_start rb) (data_end rb) (write_offset rb) n (closed rb).
Definition set_write (rb : fr_ring_buffer_t) (n : Z) : fr_ring_buffer_t :=
  MkRing (size rb) (data_start rb) (data_end rb) n (reserved rb) (closed rb).
Definition set_data (rb : fr_ring_buffer_t) (s e : Z) : fr_ring_buffer_t :=
  MkRing (size rb) s e (write_offset rb) (reserved rb) (closed rb).

(** The offset of the room, if there is some; [None] as the outer result when the
    assertion fails. *)
Definition fr_ring_buffer_reserve (rb : fr_ring_buffer_t) (n : Z) : option (fr_ring_buffer_t * option Z) :=
  if closed rb then Some (rb, None)
  else if write_offset rb <? data_start rb then
    if u64 (write_offset rb + n) <? data_start rb then Some (set_reserved rb n, Some (write_offset rb))
    else Some (rb, None)
  else if negb (write_offset rb =? data_end rb) then None
  else if u64 (write_offset rb + n) <=? size rb then Some (set_reserved rb n, Some (write_offset rb))
  else if n <? data_start rb then Some (set_reserved (set_write rb 0) n, Some 0)
  else Some (rb, None).

Definition fr_ring_buffer_alloc (rb : fr_ring_buffer_t) (n : Z) : option (fr_ring_buffer_t * option Z) :=
  if closed rb then Some (rb, None)
  else
    let rb := set_reserved rb (if n <=? reserved rb then reserved rb - n else 0) in
    if write_offset rb <? data_start rb then
      if u64 (write_offset rb + n) <? data_start rb then
        Some (set_write rb (u64 (write_offset rb + n)), Some (write_offset rb))
      else Some (rb, None)
    else if negb (write_offset rb =? data_end rb) then None
    else if u64 (write_offset rb + n) <=? size rb then
      let w := u64 (write_offset rb + n) in
      Some (set_data (set_write rb w) (data_start rb) w, Some (write_offset rb))
    else if n <? data_start rb then Some (set_write rb n, Some 0)
    else Some (rb, None).

(** The label [empty_buffer]; the flag tells whether the buffer itself is freed. *)
Definition empty_buffer (rb : fr_ring_buffer_t) : fr_ring_buffer_t * Z * bool :=
  (set_data (set_write rb 0) 0 0, 0, closed rb).

(** The part of [fr_ring_buffer_free] from the assertion. *)
Definition free_linear (rb : fr_ring_buffer_t) (n : Z) : option (fr_ring_buffer_t * Z * bool) :=
  if negb (write_offset rb =? data_end rb) then None
  else
    let block_size := u64 (data_end rb - data_start rb) in
    if block_size <? n then Some (rb, -1, false)
    else if n <? block_size then Some (set_data rb (data_start rb + n) (data_end rb), 0, false)
    else Some (empty_buffer rb).

Definition fr_ring_buffer_free (rb : fr_ring_buffer_t) (n : Z) : option (fr_ring_buffer_t * Z * bool) :=
  if n =? 0 then Some (rb, 0, false)
  else if write_offset rb <? data_start rb then
    let block_size := u64 (data_end rb - data_start rb) in
    if n <? block_size then Some (set_data rb (data_start rb + n) (data_end rb), 0, false)
    else
      let rb := set_data rb 0 (write_offset rb) in
      let n := n - block_size in
      if n =? write_offset rb then Some (empty_buffer rb)
      else if n =? 0 then Some (rb, 0, false)
      else free_linear rb n
  else free_linear rb n.

Definition fr_ring_buffer_close (rb : fr_ring_buffer_t) : fr_ring_buffer_t :=
  MkRing (size rb) (data_start rb) (data_end rb) (write_offset rb) (reserved rb) true.

Definition fr_ring_buffer_size (rb : fr_ring_buffer_t) : Z := size rb.

Definition fr_ring_buffer_used (rb : fr_ring_buffer_t) : option Z :=
  if write_offset rb <? data_start rb then Some (u64 (write_offset rb + u64 (data_end rb - data_start rb)))
  else if negb (write_offset rb =? data_end rb) then None
  else Some (u64 (data_end rb - data_start rb)).

(** The offset and the size it reports for the first block. *)
Definition fr_ring_buffer_start (rb : fr_ring_buffer_t) : Z * Z :=
  (data_start rb, if write_offset rb <? data_start rb then write_offset rb else u64 (data_end rb - data_start rb)).

(** ** The offsets in use *)

(** Oldest first. *)
Definition live (rb : fr_ring_buffer_t) : list Z :=
  seqZ (data_start rb) (data_end rb - data_start rb)
  ++ (if write_offset rb <? data_start rb then seqZ 0 (write_offset rb) else []).

(** The data is one block that ends where writing goes on, or two blocks with the
    newer one at the start of the array. *)
Definition inv (rb : fr_ring_buffer_t) : Prop :=
  1024 <= size rb <= 2 ^ 30
  /\ ((data_start rb = 0 /\ data_end rb = 0 /\ write_offset rb = 0)
      \/ (0 <= data_start rb < data_end rb /\ write_offset rb = data_end rb /\ data_end rb <= size rb)
      \/ (0 <= write_offset rb < data_start rb /\ data_start rb < data_end rb <= size rb)).

Inductive reachable : fr_ring_buffer_t -> Prop :=
  | reach_create n rb : 0 <= n -> fr_ring_buffer_create n true = Some rb -> reachable rb
  | reach_reserve rb n rb' p : reachable rb -> 0 <= n < 2 ^ 63 -> fr_ring_buffer_reserve rb n = Some (rb', p) -> reachable rb'
  | reach_alloc rb n rb' p : reachable rb -> 0 <= n < 2 ^ 63 -> fr_ring_buffer_alloc rb n = Some (rb', p) -> reachable rb'
  | reach_free rb n rb' c : reachable rb -> 0 <= n < 2 ^ 63 -> fr_ring_buffer_free rb n = Some (rb', c, false) -> reachable rb'
  | reach_close rb : reachable rb -> reachable (fr_ring_buffer_close rb).

(** ** Rounding up *)

(** Each bit of [y] is set when one of [k] bits of [x] from the same position on is. *)
Definition smeared (k x y : Z) : Prop :=
  forall i, 0 <= i -> Z.testbit y i = true <-> exists d, 0 <= d < k /\ Z.testbit x (i + d) = true.

Lemma smeared_step k x y : 0 < k -> smeared k x y -> smeared (k + k) x (Z.lor y (Z.shiftr y k)).
Proof.
  intros Hk H i Hi. rewrite Z.lor_spec, Z.shiftr_spec, orb_true_iff, (H i), (H (i + k)) by lia. split.
  - intros [(d & Hd & E)|(d & Hd & E)]; [exists d|exists (k + d)]; (split; [lia|]); [done|]. by rewrite Z.add_assoc.
  - intros (d & Hd & E). destruct (Z.lt_ge_cases d k); [left; exists d; split; [lia|done]|].
    right. exists (d - k). split; [lia|]. replace (i + k + (d - k)) with (i + d) by lia. done.
Qed.

Lemma smeared_ones x y : 0 < x < 2 ^ 32 -> 0 <= y -> smeared 32 x y -> y = 2 ^ (Z.log2 x + 1) - 1.
Proof.
  intros Hx Hy H. pose proof (Z.log2_nonneg x). assert (Z.log2 x < 32) by (apply Z.log2_lt_pow2; lia).
  rewrite Z.sub_1_r, <- Z.ones_equiv. apply Z.bits_inj_iff'. intros i Hi. rewrite Z.testbit_ones_nonneg by lia.
  apply eq_iff_eq_true. rewrite (H i Hi), Z.ltb_lt. split.
  - intros (d & Hd & E). destruct (Z.lt_ge_cases i (Z.log2 x + 1)); [done|].
    rewrite Z.bits_above_log2 in E by lia. done.
  - intros. exists (Z.log2 x - i). split; [lia|]. replace (i + (Z.log2 x - i)) with (Z.log2 x) by lia.
    apply Z.bit_log2. lia.
Qed.

Lemma round_up_spec n : 2 <= n <= 2 ^ 30 -> round_up n = 2 ^ Z.log2_up n.
Proof.
  intros Hn. unfold round_up. rewrite (u64_id (n - 1)) by (unfold is_u64; lia).
  assert (smeared 1 (n - 1) (n - 1)) as H0.
  { intros i Hi. split; [exists 0; rewrite Z.add_0_r; split; [lia|done]|].
    intros (d & Hd & E). replace d with 0 in E by lia. by rewrite Z.add_0_r in E. }
  pose proof (smeared_step 1 _ _ ltac:(lia) H0) as H1. pose proof (smeared_step 2 _ _ ltac:(lia) H1) as H2.
  pose proof (smeared_step 4 _ _ ltac:(lia) H2) as H3. pose proof (smeared_step 8 _ _ ltac:(lia) H3) as H4.
  pose proof (smeared_step 16 _ _ ltac:(lia) H4) as H5. cbn zeta.
  apply smeared_ones in H5; [|lia|].
  2: { assert (forall y k, 0 <= y -> 0 <= Z.lor y (Z.shiftr y k)) as Q
         by (intros; apply Z.lor_nonneg; split; [done|by apply Z.shiftr_nonneg]).
       repeat apply Q. lia. }
  rewrite H5. unfold Z.log2_up. destruct (Z.compare_spec 1 n); try lia. replace (n - 1) with (Z.pred n) by lia.
  assert (Z.log2 (Z.pred n) < 30) by (apply Z.log2_lt_pow2; lia). pose proof (Z.log2_nonneg (Z.pred n)).
  replace (Z.log2 (Z.pred n) + 1) with (Z.succ (Z.log2 (Z.pred n))) by lia.
  rewrite Z.sub_add. apply u64_id. unfold is_u64.
  assert (2 ^ Z.succ (Z.log2 (Z.pred n)) <= 2 ^ 30) by (apply Z.pow_le_mono_r; lia).
  assert (0 < 2 ^ Z.succ (Z.log2 (Z.pred n))) by (apply Z.pow_pos_nonneg; lia). lia.
Qed.

(** ** The invariant and the queue of offsets *)

Lemma create_inv n rb : 0 <= n -> fr_ring_buffer_create n true = Some rb ->
  inv rb /\ live rb = [] /\ size rb = 2 ^ Z.log2_up (Z.max 1024 n).
Proof.
  intros Hn. unfold fr_ring_buffer_create. cbn [negb]. change (Z.shiftl 1 30) with (2 ^ 30).
  intros H. destruct (Z.ltb_spec (2 ^ 30) (if n <? 1024 then 1024 else n)) as [|Hle]; [done|]. injection H as <-.
  replace (Z.max 1024 n) with (if n <? 1024 then 1024 else n) by (case_if; lia).
  set (k := if n <? 1024 then 1024 else n) in *. assert (1024 <= k) as Hk by (unfold k; case_if; lia). clearbody k.
  rewrite round_up_spec by lia. split; [|split; reflexivity].
  split; cbn [size data_start data_end write_offset]; [|auto].
  assert (10 <= Z.log2_up k <= 30) by (split; [apply (Z.log2_up_le_mono 1024)|change 30 with (Z.log2_up (2 ^ 30)); apply Z.log2_up_le_mono]; lia).
  change 1024 with (2 ^ 10). split; apply Z.pow_le_mono_r; lia.
Qed.

Lemma drop_seqZ a n k : 0 <= k -> drop (Z.to_nat k) (seqZ a n) = seqZ (a + k) (n - k).
Proof.
  intros Hk. apply list_eq. intros i. rewrite lookup_drop.
  destruct (decide (Z.of_nat i < n - k)) as [Hi|Hi].
  - rewrite !lookup_seqZ_lt by lia. f_equal. lia.
  - rewrite !lookup_seqZ_ge by lia. done.
Qed.

Lemma seqZ_join a m b n k : b = a + m -> 0 <= m -> 0 <= n -> k = m + n -> seqZ a k = seqZ a m ++ seqZ b n.
Proof. intros -> ? ? ->. by rewrite seqZ_app. Qed.

Lemma live_wf rb : inv rb -> NoDup (live rb) /\ Forall (fun o => 0 <= o < size rb) (live rb).
Proof.
  intros [Hs H]. unfold live. split.
  - apply list.NoDup_app. split_and!; [apply NoDup_seqZ| |case_if; [apply NoDup_seqZ|constructor]].
    intros x. rewrite elem_of_seqZ. case_if; [rewrite elem_of_seqZ; lia|intros _; apply not_elem_of_nil].
  - apply Forall_app. split; [|case_if; [|constructor]]; apply Forall_forall; intros x;
      rewrite <- list_elem_of_In, elem_of_seqZ; lia.
Qed.

Ltac ring_fields := cbn [size data_start data_end write_offset reserved closed set_data set_write set_reserved].

Ltac ring_cases :=
  repeat (ring_fields;
          match goal with
          | |- context [?a <? ?b] => destruct (Z.ltb_spec a b); try lia
          | |- context [?a <=? ?b] => destruct (Z.leb_spec a b); try lia
          | |- context [?a =? ?b] => destruct (Z.eqb_spec a b); try lia
          end); cbn [negb].

Lemma alloc_spec rb n : inv rb -> 0 <= n < 2 ^ 63 ->
  match fr_ring_buffer_alloc rb n with
  | None => False
  | Some (rb', Some p) => inv rb' /\ live rb' = live rb ++ seqZ p n
  | Some (rb', None) => inv rb' /\ live rb' = live rb
      /\ (closed rb = true
          \/ (write_offset rb < data_start rb /\ data_start rb <= write_offset rb + n)
          \/ (data_start rb <= write_offset rb /\ size rb < write_offset rb + n /\ data_start rb <= n))
  end.
Proof.
  intros [Hs H] Hn. unfold fr_ring_buffer_alloc. destruct (closed rb); [unfold inv; auto|]. cbn zeta.
  ring_fields. rewrite u64_id by (unfold is_u64; lia).
  ring_cases; unfold inv, live; ring_fields; ring_cases;
    (split; [lia|]); rewrite ?app_nil_r, <- ?app_assoc; try (split; [done|lia]); try done;
    first [apply seqZ_join; lia | f_equal; apply seqZ_join; lia].
Qed.

Lemma reserve_spec rb n : inv rb -> 0 <= n < 2 ^ 63 ->
  match fr_ring_buffer_reserve rb n with
  | None => False
  | Some (rb', p) => inv rb' /\ live rb' = live rb
      /\ (forall o, p = Some o -> 0 <= o /\ o + n <= size rb /\ reserved rb' = n /\ write_offset rb' = o
           /\ Forall (fun x => x < o \/ o + n <= x) (live rb))
  end.
Proof.
  intros [Hs H] Hn. unfold fr_ring_buffer_reserve. destruct (closed rb); [unfold inv; done|]. cbn zeta.
  rewrite u64_id by (unfold is_u64; lia).
  ring_cases; unfold inv, live; ring_fields; ring_cases; (split; [lia|]); (split; [by rewrite ?app_nil_r|]);
    intros o [=]; subst; ring_fields; split_and!; try lia;
    (rewrite ?app_nil_r; repeat (apply Forall_app; split); apply Forall_forall; intros x;
     rewrite <- list_elem_of_In, elem_of_seqZ; lia).
Qed.

Lemma drop_seqZ_app a m n l : 0 <= m -> 0 <= n ->
  drop (Z.to_nat n) (seqZ a m ++ l) = if n <=? m then seqZ (a + n) (m - n) ++ l else drop (Z.to_nat (n - m)) l.
Proof.
  intros. rewrite drop_app, length_seqZ, drop_seqZ by lia. case_if.
  - replace (Z.to_nat n - Z.to_nat m)%nat with 0%nat by lia. done.
  - rewrite (seqZ_nil _ (m - n)) by lia. cbn. f_equal. lia.
Qed.

Ltac seqZ_eq :=
  repeat match goal with |- context [seqZ ?a ?m] => rewrite (seqZ_nil a m) by lia end;
  rewrite ?app_nil_r, ?app_nil_l; try done;
  match goal with
  | |- seqZ _ _ ++ _ = seqZ _ _ ++ _ => f_equal; f_equal; lia
  | |- seqZ _ _ = seqZ _ _ => f_equal; lia
  end.

(** Freeing the oldest [n] bytes, or an error when there are not as many. *)
Lemma free_spec rb n : inv rb -> 0 <= n < 2 ^ 63 ->
  match fr_ring_buffer_free rb n with
  | None => False
  | Some (rb', c, f) => inv rb'
      /\ if n <=? Z.of_nat (length (live rb))
         then c = 0 /\ live rb' = drop (Z.to_nat n) (live rb)
              /\ f = (closed rb && (0 <? n) && (n =? Z.of_nat (length (live rb))))
         else c = -1 /\ f = false
              /\ live rb' = if write_offset rb <? data_start rb then seqZ 0 (write_offset rb) else live rb
  end.
Proof.
  intros Hinv Hn. pose proof Hinv as [Hs H].
  assert (Z.of_nat (length (live rb)) = data_end rb - data_start rb + (if write_offset rb <? data_start rb then write_offset rb else 0)) as El.
  { unfold live. rewrite length_app, length_seqZ. case_if; [rewrite length_seqZ|cbn [length]]; lia. }
  rewrite El. unfold fr_ring_buffer_free, free_linear, empty_buffer. cbn zeta. ring_fields.
  rewrite !u64_id by (unfold is_u64; lia).
  unfold inv, live.
  ring_cases; ring_fields; ring_cases; (split; [lia|]);
    rewrite ?drop_seqZ_app, ?drop_nil, ?app_nil_r, ?andb_true_r, ?andb_false_r, ?andb_true_l, ?andb_false_l by lia; ring_cases;
    rewrite ?drop_seqZ by lia.
  all: split_and!; try done; try lia; seqZ_eq.
Qed.

Lemma used_spec rb : inv rb -> fr_ring_buffer_used rb = Some (Z.of_nat (length (live rb))).
Proof.
  intros [Hs H]. unfold fr_ring_buffer_used, live. rewrite length_app, length_seqZ, (u64_id (data_end rb - data_start rb)) by (unfold is_u64; lia).
  ring_cases; rewrite ?length_seqZ, ?u64_id by (unfold is_u64; lia); cbn [length]; f_equal; lia.
Qed.

Lemma ring_reachable_inv rb : reachable rb -> inv rb.
Proof.
  induction 1 as [n rb Hn E|rb n rb' p _ IH Hn E|rb n rb' p _ IH Hn E|rb n rb' c _ IH Hn E|rb _ IH].
  - apply create_inv in E as [? _]; auto.
  - pose proof (reserve_spec rb n IH Hn) as P. rewrite E in P. apply P.
  - pose proof (alloc_spec rb n IH Hn) as P. rewrite E in P. destruct p; apply P.
  - pose proof (free_spec rb n IH Hn) as P. rewrite E in P. apply P.
  - exact IH.
Qed.

(** ** Properties *)


End RingBuffer.
