(* ===== verification/Message.v ===== *)
(** Sets of messages between threads: src/lib/io/message.c. Message headers are
    blocks of ring buffers of their own (RingBuffer), their data are blocks of
    others; when one is full another of twice the size is made. A ring has a
    number for its address, and a header the number of its ring and its offset.
    The bytes of the data do not matter: a message has an offset and a size. A
    function that fails an assertion, overflows a counter or follows a pointer to
    nothing has the result [None]. *)

From stdpp Require Import gmap.
From S2P Require Import Prelude RingBuffer.

Module Message.
Import RingBuffer.

Abbreviation MSG_ARRAY_SIZE := 16%Z (only parsing).
Definition CACHE_ALIGN (x : Z) : Z := u64 (x + 63) &z 18446744073709551552.
(** [sizeof(fr_message_t)] *)
Definition sizeof_message : Z := 48.
Definition INT_MAX : Z := 2147483647.

Inductive fr_message_status_t := FR_MESSAGE_FREE | FR_MESSAGE_USED | FR_MESSAGE_LOCALIZED | FR_MESSAGE_DONE.
#[export] Instance status_eq_dec : EqDecision fr_message_status_t.
Proof. solve_decision. Defined.

(** [data] is the offset in the ring buffer; the time [when] is left out. *)
Record fr_message_t := MkMessage {
  status : fr_message_status_t;
  rb : option nat;
  data : option Z;
  data_size : Z;
  rb_size : Z
}.
#[export] Instance eta_message : Eta fr_message_t := fun m => MkMessage (status m) (rb m) (data m) (data_size m) (rb_size m).

Notation address := (nat * Z)%type.

(** [rings] and [msgs] are the memory, [creates] counts the calls of
    [fr_ring_buffer_create]. The field [mr_cleaned] is not used by the code. *)
Record fr_message_set_t := MkSet {
  mr_current : Z;
  mr_max : Z;
  message_size : Z;
  rb_current : Z;
  rb_max : Z;
  max_allocation : Z;
  allocated : Z;
  freed : Z;
  mr_array : list (option nat);
  rb_array : list (option nat);
  rings : gmap nat fr_ring_buffer_t;
  msgs : gmap address fr_message_t;
  creates : nat
}.
#[export] Instance eta_set : Eta fr_message_set_t := fun s =>
  MkSet (mr_current s) (mr_max s) (message_size s) (rb_current s) (rb_max s) (max_allocation s) (allocated s) (freed s)
    (mr_array s) (rb_array s) (rings s) (msgs s) (creates s).

(** An entry of an array of rings that is not NULL. *)
Definition slot (l : list (option nat)) (i : Z) : option nat := r ← l !! Z.to_nat i; r.

(** [memory] is whether the [n]-th ring buffer can be allocated. *)
Section Code.
Context (memory : nat -> bool).
Notation set := fr_message_set_t.

Definition new_ring (sz : Z) (ms : set) : option nat * set :=
  let n := creates ms in
  let ms := ms <| creates := S n |> in
  match fr_ring_buffer_create sz (memory n) with
  | None => (None, ms)
  | Some r => (Some n, ms <| rings := <[n := r]> (rings ms) |>)
  end.

(** The talloc of the set itself is taken to succeed. *)
Definition fr_message_set_create (num_messages size ring_buffer_size : Z) : option set :=
  let num_messages := if num_messages <? 8 then 8 else num_messages in
  if negb (num_messages &z (num_messages - 1) =? 0) then None
  else if size <? sizeof_message then None
  else if 1024 <? size then None
  else
    let size := CACHE_ALIGN size in
    let ms := MkSet 0 0 size 0 0 0 0 0 (replicate 16 None) (replicate 16 None) ∅ ∅ 0 in
    let '(r, ms) := new_ring ring_buffer_size ms in
    match r with
    | None => None
    | Some r =>
        let ms := ms <| rb_array := <[0%nat := Some r]> (rb_array ms) |> in
        let '(q, ms) := new_ring (u64 (num_messages * size)) ms in
        match q with
        | None => None
        | Some q => Some (ms <| mr_array := <[0%nat := Some q]> (mr_array ms) |> <| max_allocation := ring_buffer_size / 2 |>)
        end
    end.

(** The message after the call, unless it was freed. *)
Definition fr_message_done (m : fr_message_t) : option (option fr_message_t) :=
  match status m with
  | FR_MESSAGE_USED => Some (Some (m <| status := FR_MESSAGE_DONE |>))
  | FR_MESSAGE_LOCALIZED => Some None
  | FR_MESSAGE_FREE | FR_MESSAGE_DONE => None
  end.

(** The copy, whose data are in memory of their own, and the message; [copied] is
    whether there was memory for both. *)
Definition fr_message_localize (m : fr_message_t) (size : Z) (copied : bool) : option fr_message_t * fr_message_t :=
  if negb (bool_decide (status m = FR_MESSAGE_USED)) then (None, m)
  else if size <=? sizeof_message then (None, m)
  else if negb copied then (None, m)
  else (Some (MkMessage FR_MESSAGE_LOCALIZED None (if data_size m =? 0 then None else Some 0) (data_size m) 0), m <| status := FR_MESSAGE_DONE |>).

(** *** Cleaning up *)

(** [fr_ring_buffer_free] on a ring in memory; its result is not looked at. *)
Definition ring_free (r : nat) (n : Z) (ms : set) : option set :=
  x ← rings ms !! r;
  '(x, _, _) ← fr_ring_buffer_free x n;
  Some (ms <| rings := <[r := x]> (rings ms) |>).

(** One message, the oldest of the ring; the flag says whether to go on. *)
Definition ring_gc_one (mr : nat) (ms : set) : option (bool * set) :=
  x ← rings ms !! mr;
  let '(o, n) := fr_ring_buffer_start x in
  if n =? 0 then Some (false, ms)
  else if n <? message_size ms then None
  else
    m ← msgs ms !! (mr, o);
    match status m with
    | FR_MESSAGE_FREE => None
    | FR_MESSAGE_DONE =>
        if INT_MAX <=? freed ms then None
        else
          let ms := ms <| freed := freed ms + 1 |> <| msgs := <[(mr, o) := m <| status := FR_MESSAGE_FREE |>]> (msgs ms) |> in
          ms ← (match rb m with
                | None => Some ms
                | Some b => ms ← ring_free b (rb_size m) ms;
                            Some (ms <| msgs := <[(mr, o) := MkMessage FR_MESSAGE_FREE None None 0 0]> (msgs ms) |>)
                end);
          ms ← ring_free mr (message_size ms) ms;
          Some (true, ms)
    | _ => Some (false, ms)
    end.

Fixpoint ring_gc_loop (fuel : nat) (mr : nat) (max cleaned : Z) (ms : set) : option (Z * set) :=
  match fuel with
  | O => None
  | S fuel =>
      '(more, ms) ← ring_gc_one mr ms;
      if negb more then Some (cleaned, ms)
      else if max <=? cleaned + 1 then Some (cleaned + 1, ms)
      else ring_gc_loop fuel mr max (cleaned + 1) ms
  end.

(** A ring has no more messages than bytes. *)
Definition fr_message_ring_gc (mr : nat) (max_to_clean : Z) (ms : set) : option (Z * set) :=
  x ← rings ms !! mr;
  u ← fr_ring_buffer_used x;
  ring_gc_loop (S (Z.to_nat u)) mr max_to_clean 0 ms.

(** All message rings, the smaller ones first; [n] are left. *)
Fixpoint gc_rings (n : nat) (i max total : Z) (ms : set) : option (Z * set) :=
  match n with
  | O => Some (total, ms)
  | S n =>
      r ← slot (mr_array ms) i;
      '(c, ms) ← fr_message_ring_gc r (max - total) ms;
      let total := total + c in
      if max <? total then None
      else if total =? max then Some (total, ms)
      else gc_rings n (i + 1) max total ms
  end.

(** From entry [n - 1] down: keep two rings, free the others that are empty. *)
Fixpoint free_arrays (n : nat) (used freed : Z) (l : list (option nat)) (rs : gmap nat fr_ring_buffer_t) : option (Z * list (option nat) * gmap nat fr_ring_buffer_t) :=
  match n with
  | O => Some (freed, l, rs)
  | S n =>
      r ← slot l (Z.of_nat n);
      if used <? 2 then free_arrays n (used + 1) freed l rs
      else
        x ← rs !! r;
        u ← fr_ring_buffer_used x;
        if u =? 0 then free_arrays n used (freed + 1) (<[n := None]> l) (delete r rs)
        else free_arrays n used freed l rs
  end.

(** The first free entry from [j] on, up to [i]. *)
Fixpoint next_empty (n : nat) (j : Z) (l : list (option nat)) (empty_slot : Z) : Z :=
  match n with
  | O => empty_slot
  | S n => match slot l j with None => j | Some _ => next_empty n (j + 1) l empty_slot end
  end.

(** Used entries move down; [n] are left from [i] on. *)
Fixpoint pack (n : nat) (i empty_slot : Z) (l : list (option nat)) : option (list (option nat)) :=
  match n with
  | O => Some l
  | S n =>
      match slot l i with
      | None => pack n (i + 1) (if empty_slot <? 0 then i else empty_slot) l
      | Some r =>
          if empty_slot <? 0 then pack n (i + 1) empty_slot l
          else if bool_decide (is_Some (slot l empty_slot)) then None
          else
            let l := <[Z.to_nat i := None]> (<[Z.to_nat empty_slot := Some r]> l) in
            pack n (i + 1) (next_empty (Z.to_nat (i - empty_slot)) (empty_slot + 1) l empty_slot) l
      end
  end.

(** Free and pack one of the two arrays, whose last entry is [max]: the number of
    rings freed, the array and the rings. *)
Definition coalesce (max : Z) (l : list (option nat)) (rs : gmap nat fr_ring_buffer_t) : option (Z * list (option nat) * gmap nat fr_ring_buffer_t) :=
  '(n, l, rs) ← free_arrays (Z.to_nat (max + 1)) 0 0 l rs;
  if n =? 0 then Some (n, l, rs)
  else
    l ← pack (Z.to_nat (max + 1)) 0 (-1) l;
    if forallb (fun i => bool_decide (is_Some (slot l i))) (seqZ 0 (max - n + 1)) then Some (n, l, rs) else None.

(** The free space in the rings from [i] on. *)
Fixpoint largest_free (n : nat) (i best size : Z) (ms : set) : option Z :=
  match n with
  | O => Some best
  | S n =>
      r ← slot (rb_array ms) i;
      x ← rings ms !! r;
      u ← fr_ring_buffer_used x;
      let f := u64 (fr_ring_buffer_size x - u) in
      if size <? f then largest_free n (i + 1) i f ms else largest_free n (i + 1) best size ms
  end.

Definition fr_message_gc (max_to_clean : Z) (ms : set) : option set :=
  '(total, ms) ← gc_rings (Z.to_nat (mr_max ms + 1)) 0 max_to_clean 0 ms;
  if total =? 0 then Some ms
  else
    '(n, l, rs) ← coalesce (mr_max ms) (mr_array ms) (rings ms);
    let ms := ms <| mr_array := l |> <| rings := rs |> in
    let ms := if n =? 0 then ms else ms <| mr_max := mr_max ms - n |> <| mr_current := mr_max ms - n |> in
    '(n, l, rs) ← coalesce (rb_max ms) (rb_array ms) (rings ms);
    let ms := ms <| rb_array := l |> <| rings := rs |> in
    let ms := if n =? 0 then ms else ms <| rb_max := rb_max ms - n |> <| rb_current := rb_max ms - n |> in
    r ← slot (rb_array ms) (rb_max ms);
    x ← rings ms !! r;
    u ← fr_ring_buffer_used x;
    best ← largest_free (Z.to_nat (rb_max ms)) 0 (rb_max ms) (u64 (fr_ring_buffer_size x - u)) ms;
    Some (ms <| rb_current := best |>).

(** *** Allocation *)

Definition new_message : fr_message_t := MkMessage FR_MESSAGE_USED None None 0 0.

(** [fr_ring_buffer_alloc] for a message, and its header zeroed. *)
Definition take_message (mr : nat) (ms : set) : option (option address * set) :=
  x ← rings ms !! mr;
  '(x, p) ← fr_ring_buffer_alloc x (message_size ms);
  let ms := ms <| rings := <[mr := x]> (rings ms) |> in
  match p with
  | None => Some (None, ms)
  | Some o => Some (Some (mr, o), ms <| msgs := <[(mr, o) := new_message]> (msgs ms) |>)
  end.

Definition fr_message_ring_alloc (mr : nat) (clean : bool) (ms : set) : option (option address * set) :=
  if clean then
    '(c, ms) ← fr_message_ring_gc mr 4 ms;
    if c =? 0 then Some (None, ms) else take_message mr ms
  else take_message mr ms.

(** From entry [n - 1] down. *)
Fixpoint any_message (n : nat) (ms : set) : option (option address * set) :=
  match n with
  | O => Some (None, ms)
  | S n =>
      mr ← slot (mr_array ms) (Z.of_nat n);
      '(a, ms) ← fr_message_ring_alloc mr true ms;
      match a with
      | Some a => Some (Some a, ms <| mr_current := Z.of_nat n |>)
      | None => any_message n ms
      end
  end.

(** A message ring of twice the size. *)
Definition double_messages (ms : set) : option (option address * set) :=
  if MSG_ARRAY_SIZE <=? mr_max ms + 1 then Some (None, ms)
  else
    r ← slot (mr_array ms) (mr_max ms);
    x ← rings ms !! r;
    let '(q, ms) := new_ring (u64 (fr_ring_buffer_size x * 2)) ms in
    match q with
    | None => Some (None, ms)
    | Some q =>
        let i := mr_max ms + 1 in
        fr_message_ring_alloc q false (ms <| mr_max := i |> <| mr_current := i |> <| mr_array := <[Z.to_nat i := Some q]> (mr_array ms) |>)
    end.

(** The message and whether the set was cleaned up. *)
Definition fr_message_get_message (ms : set) : option (option address * bool * set) :=
  if INT_MAX <=? allocated ms then None
  else
    let ms := ms <| allocated := allocated ms + 1 |> in
    mr ← slot (mr_array ms) (mr_current ms);
    '(a, ms) ← take_message mr ms;
    match a with
    | Some a => Some (Some a, false, ms)
    | None =>
        ms ← fr_message_gc 128 ms;
        mr ← slot (mr_array ms) (mr_current ms);
        '(a, ms) ← fr_message_ring_alloc mr true ms;
        match a with
        | Some a => Some (Some a, true, ms)
        | None =>
            '(a, ms) ← any_message (Z.to_nat (mr_max ms + 1)) ms;
            match a with
            | Some a => Some (Some a, true, ms)
            | None => '(a, ms) ← double_messages ms; Some (a, true, ms)
            end
        end
    end.

Definition set_message (a : address) (m : fr_message_t) (ms : set) : set := ms <| msgs := <[a := m]> (msgs ms) |>.

(** Room for the message in the ring at entry [i]: whether there is some. *)
Definition reserve_in (a : address) (i : Z) (ms : set) : option (bool * set) :=
  r ← slot (rb_array ms) i;
  m ← msgs ms !! a;
  x ← rings ms !! r;
  '(x, p) ← fr_ring_buffer_reserve x (rb_size m);
  Some (bool_decide (is_Some p), set_message a (m <| rb := Some r |> <| data := p |>) (ms <| rings := <[r := x]> (rings ms) |>)).

(** From entry [n - 1] down. *)
Fixpoint reserve_any (n : nat) (a : address) (ms : set) : option (bool * set) :=
  match n with
  | O => Some (false, ms)
  | S n =>
      '(ok, ms) ← reserve_in a (Z.of_nat n) ms;
      if ok : bool then Some (true, ms <| rb_current := Z.of_nat n |>) else reserve_any n a ms
  end.

(** The label [cleanup]. *)
Definition give_up_message (a : address) (ms : set) : option (option address * set) :=
  m ← msgs ms !! a;
  Some (None, set_message a (m <| rb := None |> <| status := FR_MESSAGE_DONE |>) ms).

(** The label [alloc_rb]. *)
Definition alloc_rb (a : address) (ms : set) : option (option address * set) :=
  r ← slot (rb_array ms) (rb_max ms);
  x ← rings ms !! r;
  let '(q, ms) := new_ring (u64 (fr_ring_buffer_size x * 2)) ms in
  match q with
  | None => give_up_message a ms
  | Some q =>
      let i := rb_max ms + 1 in
      '(ok, ms) ← reserve_in a i (ms <| rb_max := i |> <| rb_current := i |> <| rb_array := <[Z.to_nat i := Some q]> (rb_array ms) |>);
      if ok : bool then Some (Some a, ms) else give_up_message a ms
  end.

Definition fr_message_get_ring_buffer (a : address) (cleaned_up : bool) (ms : set) : option (option address * set) :=
  '(ok, ms) ← reserve_in a (rb_current ms) ms;
  if ok : bool then Some (Some a, ms)
  else if negb cleaned_up && (rb_max ms =? 0) then alloc_rb a ms
  else
    '(ok, ms) ← (if cleaned_up then Some (false, ms)
                 else ms ← fr_message_gc 128 ms; reserve_in a (rb_current ms) ms);
    if ok : bool then Some (Some a, ms)
    else
      '(ok, ms) ← reserve_any (Z.to_nat (rb_max ms + 1)) a ms;
      if ok : bool then Some (Some a, ms)
      else if MSG_ARRAY_SIZE <=? rb_max ms + 1 then give_up_message a ms
      else alloc_rb a ms.

Definition fr_message_reserve (reserve_size : Z) (ms : set) : option (option address * set) :=
  if max_allocation ms <? reserve_size then Some (None, ms)
  else
    '(a, cleaned_up, ms) ← fr_message_get_message ms;
    match a with
    | None => Some (None, ms)
    | Some a =>
        if reserve_size =? 0 then Some (Some a, ms)
        else
          m ← msgs ms !! a;
          fr_message_get_ring_buffer a cleaned_up (set_message a (m <| rb_size := CACHE_ALIGN reserve_size |>) ms)
    end.

(** [fr_ring_buffer_alloc] for the data of a message, which must get the room that
    was reserved. *)
Definition take_data (b : nat) (n : Z) (p : Z) (ms : set) : option set :=
  x ← rings ms !! b;
  '(x, q) ← fr_ring_buffer_alloc x n;
  q ← q;
  if q =? p then Some (ms <| rings := <[b := x]> (rings ms) |>) else None.

(** From the assertions on. *)
Definition alloc_reserved (a : address) (actual_packet_size : Z) (ms : set) : option (option address * set) :=
  m ← msgs ms !! a;
  if negb (bool_decide (status m = FR_MESSAGE_USED)) then None
  else
    b ← rb m;
    p ← data m;
    if negb (data_size m =? 0) then None
    else if rb_size m <? actual_packet_size then None
    else if actual_packet_size =? 0 then Some (Some a, set_message a (MkMessage (status m) None None 0 0) ms)
    else
      let n := CACHE_ALIGN actual_packet_size in
      ms ← take_data b n p ms;
      Some (Some a, set_message a (m <| data_size := actual_packet_size |> <| rb_size := n |>) ms).

Definition fr_message_alloc (a : option address) (actual_packet_size : Z) (ms : set) : option (option address * set) :=
  match a with
  | Some a => alloc_reserved a actual_packet_size ms
  | None =>
      '(a, ms) ← fr_message_reserve actual_packet_size ms;
      match a with
      | None => Some (None, ms)
      | Some a => alloc_reserved a actual_packet_size ms
      end
  end.

(** Message [a] cleans up all of the room [n] that was reserved for it when there
    is no message after it in the same block. *)
Definition extend_message (a a2 : address) (n : Z) (ms : set) : option set :=
  m ← msgs ms !! a;
  m2 ← msgs ms !! a2;
  p ← data m;
  p2 ← data m2;
  Some (if negb (bool_decide (rb m2 = rb m)) || (p2 <? p) then set_message a (m <| rb_size := n |>) ms else ms).

Definition fr_message_alloc_reserve (a : address) (actual_packet_size leftover reserve_size : Z) (ms : set) : option (option address * set) :=
  let align_size := CACHE_ALIGN actual_packet_size in
  m ← msgs ms !! a;
  if negb (bool_decide (status m = FR_MESSAGE_USED)) then None
  else
    b ← rb m;
    p ← data m;
    if rb_size m <? actual_packet_size then None
    else
      ms ← take_data b align_size p ms;
      let m_rb_size := rb_size m in
      let ms := set_message a (m <| data_size := actual_packet_size |> <| rb_size := align_size |>) ms in
      if leftover =? 0 then fr_message_reserve reserve_size ms
      else
        '(a2, _, ms) ← fr_message_get_message ms;
        match a2 with
        | None => Some (None, ms)
        | Some a2 =>
            let reserve_size := CACHE_ALIGN (u64 (reserve_size + (align_size - actual_packet_size))) in
            m2 ← msgs ms !! a2;
            x ← rings ms !! b;
            '(x, p2) ← fr_ring_buffer_reserve x reserve_size;
            let ms := set_message a2 (MkMessage (status m2) (Some b) p2 leftover reserve_size) (ms <| rings := <[b := x]> (rings ms) |>) in
            match p2 with
            | Some _ => Some (Some a2, ms)
            | None =>
                '(r, ms) ← fr_message_get_ring_buffer a2 false ms;
                match r with
                | None => m ← msgs ms !! a; Some (None, set_message a (m <| rb_size := m_rb_size |>) ms)
                | Some _ => ms ← extend_message a a2 m_rb_size ms; Some (Some a2, ms)
                end
            end
        end.

(** The messages in the rings from [i] on, converted to [int]. *)
Fixpoint messages_used (n : nat) (i used : Z) (ms : set) : option Z :=
  match n with
  | O => Some used
  | S n =>
      mr ← slot (mr_array ms) i;
      x ← rings ms !! mr;
      u ← fr_ring_buffer_used x;
      messages_used n (i + 1) ((used + u / message_size ms + 2 ^ 31) mod 2 ^ 32 - 2 ^ 31) ms
  end.

Definition fr_message_set_messages_used (ms : set) : option Z := messages_used (Z.to_nat (mr_max ms + 1)) 0 0 ms.

(** The limit [~0] is -1, so that one message of each ring is cleaned. *)
Fixpoint gc_each (n : nat) (i : Z) (ms : set) : option set :=
  match n with
  | O => Some ms
  | S n =>
      mr ← slot (mr_array ms) i;
      '(_, ms) ← fr_message_ring_gc mr (-1) ms;
      gc_each n (i + 1) ms
  end.

Definition fr_message_set_gc (ms : set) : option set :=
  ms ← gc_each (Z.to_nat (mr_max ms + 1)) 0 ms;
  fr_message_gc (Z.shiftl 1 24) ms.

(** *** Calls of users of the set *)

Inductive call :=
  | Alloc (n : Z)                  (* [fr_message_alloc] with no message *)
  | Reserve (n m : Z)              (* [fr_message_reserve] and [fr_message_alloc] *)
  | Done (a : address)
  | Localize (a : address) (n : Z) (copied : bool)
  | Gc.

Definition step (c : call) (ms : set) : option set :=
  match c with
  | Alloc n => '(_, ms) ← fr_message_alloc None n ms; Some ms
  | Reserve n k =>
      '(a, ms) ← fr_message_reserve n ms;
      match a with
      | None => Some ms
      | Some a => '(_, ms) ← fr_message_alloc (Some a) k ms; Some ms
      end
  | Done a => m ← msgs ms !! a; m ← fr_message_done m; m ← m; Some (set_message a m ms)
  | Localize a n copied => m ← msgs ms !! a; Some (set_message a (snd (fr_message_localize m n copied)) ms)
  | Gc => fr_message_set_gc ms
  end.

(** What users promise: they ask for some room and use no more of it, and they
    are done with a message they have. *)
Definition allowed (c : call) (ms : set) : bool :=
  match c with
  | Alloc n => 0 <? n
  | Reserve n k => (0 <? n) && (0 <=? k) && (k <=? n)
  | Done a => if msgs ms !! a is Some m then bool_decide (status m = FR_MESSAGE_USED) else false
  | Localize a _ _ => bool_decide (is_Some (msgs ms !! a))
  | Gc => true
  end.

(** The call ends the use of message [a]. *)
Definition ends (c : call) (a : address) : bool :=
  match c with
  | Done a' | Localize a' _ _ => bool_decide (a' = a)
  | _ => false
  end.

(** The set after [n] calls. *)
Inductive reachable : nat -> set -> Prop :=
  | reach_create num size rb_sz ms : num <= INT_MAX -> 0 <= rb_sz -> fr_message_set_create num size rb_sz = Some ms -> reachable 0 ms
  | reach_step n ms c ms' : reachable n ms -> allowed c ms = true -> step c ms = Some ms' -> reachable (S n) ms'.

Definition run (cs : list call) (ms : set) : option set :=
  foldl (fun r c => ms ← r; if allowed c ms then step c ms else None) (Some ms) cs.
End Code.
End Message.
