(* ===== verification/MessageRings.v ===== *)
(** The arrays of rings of a message set (Message): freeing the empty rings and
    packing the arrays keeps the others, in order. *)

From stdpp Require Import gmap.
From S2P Require Import Prelude RingBuffer Message.

Module MessageRings.
Import RingBuffer Message.

(** ** Rings *)

(** A ring of blocks of [k] bytes that are never only reserved. *)
Definition mring (k : Z) (x : fr_ring_buffer_t) : Prop :=
  inv x /\ closed x = false /\ (write_offset x < data_start x -> k <= write_offset x).

Lemma mring_alloc k x : mring k x -> 0 < k < 2 ^ 63 ->
  exists x' p, fr_ring_buffer_alloc x k = Some (x', p) /\ mring k x'
    /\ live x' = live x ++ match p with Some o => seqZ o k | None => [] end.
Proof.
  intros (Hi & Hc & Hw) Hk. pose proof (alloc_spec x k Hi ltac:(lia)) as P.
  destruct (fr_ring_buffer_alloc x k) as [[x' p]|] eqn:E; [|done]. exists x', p. split; [done|].
  assert (inv x' /\ live x' = live x ++ match p with Some o => seqZ o k | None => [] end) as [Hi' El]
    by (destruct p; [done|rewrite app_nil_r; intuition]).
  split; [|done]. split; [done|]. revert E. unfold fr_ring_buffer_alloc. rewrite Hc. cbn zeta. ring_fields.
  destruct Hi as [Hs Hx]. rewrite u64_id by (unfold is_u64; lia).
  ring_cases; intros [= <- <-]; ring_fields; (split; [done|lia]).
Qed.

Lemma live_nil x : inv x -> live x = [] -> data_start x = 0 /\ data_end x = 0 /\ write_offset x = 0.
Proof. intros [Hs H] E%(f_equal length). unfold live in E. rewrite length_app, length_seqZ in E. cbn in E. lia. Qed.

Lemma mring_start k x : 0 < k -> mring k x -> live x <> [] -> k <= Z.of_nat (length (live x)) ->
  exists l n, fr_ring_buffer_start x = (data_start x, n) /\ live x = data_start x :: l /\ 0 < n /\ k <= n.
Proof.
  intros Hk0 (Hi & Hc & Hw) Hne Hk. pose proof Hi as [Hs H]. unfold fr_ring_buffer_start.
  rewrite u64_id by (unfold is_u64; lia).
  assert (exists l, live x = data_start x :: l) as [l El].
  { unfold live in *. destruct (decide (0 < data_end x - data_start x)) as [Hp|Hp].
    - rewrite seqZ_cons by lia. eauto.
    - exfalso. apply Hne. rewrite seqZ_nil by lia. destruct (Z.ltb_spec (write_offset x) (data_start x)); [lia|done]. }
  exists l, (if write_offset x <? data_start x then write_offset x else data_end x - data_start x).
  split; [done|]. split; [done|].
  assert (Z.of_nat (length (live x)) = data_end x - data_start x + (if write_offset x <? data_start x then write_offset x else 0)).
  { unfold live. rewrite length_app, length_seqZ. case_if; [rewrite length_seqZ|cbn [length]]; lia. }
  destruct (Z.ltb_spec (write_offset x) (data_start x)); [lia|]. assert (0 < Z.of_nat (length (live x))) by (rewrite El; cbn [length]; lia). lia.
Qed.

(** Freeing what is there keeps the rest. *)
Lemma ring_take x n l1 l2 : inv x -> closed x = false -> 0 <= n < 2 ^ 63 -> live x = l1 ++ l2 -> Z.of_nat (length l1) = n ->
  exists x' c f, fr_ring_buffer_free x n = Some (x', c, f) /\ inv x' /\ closed x' = false /\ live x' = l2
    /\ (write_offset x' < data_start x' -> write_offset x' = write_offset x /\ write_offset x < data_start x).
Proof.
  intros Hi Hc Hn El <-. pose proof (free_spec x _ Hi Hn) as P.
  destruct (fr_ring_buffer_free x (Z.of_nat (length l1))) as [[[x' c] f]|] eqn:E; [|done]. exists x', c, f.
  destruct P as [Hi' P]. rewrite El, length_app in P. destruct (Z.leb_spec (Z.of_nat (length l1)) (Z.of_nat (length l1 + length l2))); [|lia].
  destruct P as (_ & P & _). rewrite Nat2Z.id, drop_app_length in P. split; [done|]. split; [done|].
  split; [|split; [done|]]; revert E; clear -Hi Hc; unfold fr_ring_buffer_free, free_linear, empty_buffer; cbn zeta; ring_fields;
    destruct Hi as [Hs H]; rewrite ?u64_id by (unfold is_u64; lia); ring_cases; intros [= <- <- <-]; ring_fields; try done; lia.
Qed.

(** What was reserved is what an allocation of no more than that gets. *)
Lemma alloc_reserved_room x n x' o k : inv x -> 0 <= n < 2 ^ 63 -> 0 <= k <= n ->
  fr_ring_buffer_reserve x n = Some (x', Some o) ->
  exists y, fr_ring_buffer_alloc x' k = Some (y, Some o).
Proof.
  intros [Hs H] Hn Hk. unfold fr_ring_buffer_reserve. destruct (closed x) eqn:Ec; [done|]. rewrite u64_id by (unfold is_u64; lia).
  ring_cases; intros [= <- <-]; unfold fr_ring_buffer_alloc; cbn zeta; ring_fields; rewrite Ec, ?u64_id by (unfold is_u64; lia);
    ring_cases; eauto.
Qed.

Lemma closed_kept x n : closed x = false ->
  match fr_ring_buffer_reserve x n with Some (x', _) => closed x' = false | None => True end
  /\ match fr_ring_buffer_alloc x n with Some (x', _) => closed x' = false | None => True end.
Proof.
  intros Hc. unfold fr_ring_buffer_reserve, fr_ring_buffer_alloc. rewrite Hc. cbn zeta. ring_fields.
  split; repeat case_match; simplify_eq; done.
Qed.

(** ** The arrays of rings *)

(** The entries up to [max] are [ids]. *)
Definition listed (max : Z) (l : list (option nat)) (ids : list nat) : Prop :=
  l = (Some <$> ids) ++ replicate (16 - length ids) None /\ Z.of_nat (length ids) = max + 1 /\ (1 <= length ids <= 16)%nat.

Lemma slot_middle l1 l2 (o : option nat) : slot (l1 ++ o :: l2) (Z.of_nat (length l1)) = o.
Proof. unfold slot. by rewrite Nat2Z.id, list_lookup_middle. Qed.

Lemma slot_listed max l ids i : listed max l ids -> 0 <= i <= max -> exists r, slot l i = Some r /\ ids !! Z.to_nat i = Some r /\ r ∈ ids.
Proof.
  intros (-> & Hl & _) Hi. destruct (lookup_lt_is_Some_2 ids (Z.to_nat i) ltac:(lia)) as [r Hr]. exists r.
  split; [|split; [done|by eapply list_elem_of_lookup_2]]. unfold slot. rewrite lookup_app_l by (rewrite length_fmap; lia).
  by rewrite list_lookup_fmap, Hr.
Qed.

Lemma listed_push max l ids r : listed max l ids -> max < 15 -> listed (max + 1) (<[Z.to_nat (max + 1) := Some r]> l) (ids ++ [r]).
Proof.
  intros (-> & Hl & Hn) Hm. unfold listed. rewrite length_app. cbn [length]. split; [|lia].
  destruct (16 - length ids)%nat as [|k] eqn:Ek; [lia|]. replace (16 - (length ids + 1))%nat with k by lia.
  replace (Z.to_nat (max + 1)) with (length (Some <$> ids) + 0)%nat by (rewrite length_fmap; lia).
  rewrite insert_app_r, fmap_app, <- app_assoc. done.
Qed.

(** An array after some of its rings were freed. *)
Definition survivor (dead : list nat) (r : nat) : option nat := if decide (r ∈ dead) then None else Some r.

Record freeing (used : Z) (ids dead : list nat) (rs rs' : gmap nat fr_ring_buffer_t) : Prop := {
  fr_dead : NoDup dead /\ (forall r, r ∈ dead -> r ∈ ids /\ exists x, rs !! r = Some x /\ live x = []);
  fr_rings : forall r, rs' !! r = if decide (r ∈ dead) then None else rs !! r;
  fr_left : Z.min (Z.of_nat (length ids)) (2 - used) <= Z.of_nat (length ids) - Z.of_nat (length dead)
}.

Lemma elem_of_snoc {A} (x y : A) l : x ∈ l ++ [y] <-> x ∈ l \/ x = y.
Proof. by rewrite elem_of_app, list_elem_of_singleton. Qed.

Lemma survivors_keep ids dead r : r ∉ dead -> survivor dead <$> ids ++ [r] = (survivor dead <$> ids) ++ [Some r].
Proof. intros Hd. rewrite fmap_app. cbn. unfold survivor at 2. by rewrite decide_False. Qed.

Lemma survivors_drop ids dead r : r ∉ ids -> survivor (dead ++ [r]) <$> ids ++ [r] = (survivor dead <$> ids) ++ [None].
Proof.
  intros Hr. rewrite fmap_app. cbn. unfold survivor at 2. rewrite decide_True by (apply elem_of_snoc; auto). f_equal.
  apply list_fmap_ext. intros i r' Hi%list_elem_of_lookup_2. unfold survivor.
  assert (r' <> r) by (intros ->; done). destruct (decide (r' ∈ dead)) as [Hin|Hin].
  - rewrite decide_True; [done|]. apply elem_of_snoc. auto.
  - rewrite decide_False; [done|]. rewrite elem_of_snoc. tauto.
Qed.

Lemma freeing_keep used used' ids dead rs rs' r : used' <= used + 1 -> freeing used' ids dead rs rs' -> freeing used (ids ++ [r]) dead rs rs'.
Proof.
  intros Hu [(D1 & D2) R L]. split; [split; [done|]|done|rewrite length_app; cbn [length]; lia].
  intros r' Hr. destruct (D2 r' Hr). split; [apply elem_of_snoc; auto|done].
Qed.

Lemma freeing_drop used ids dead rs rs' r x : 2 <= used -> r ∉ ids -> rs !! r = Some x -> live x = [] ->
  freeing used ids dead (delete r rs) rs' -> freeing used (ids ++ [r]) (dead ++ [r]) rs rs'.
Proof.
  intros Hu Hr Hx Hl [(D1 & D2) R L]. assert (r ∉ dead) as Hd by (intros Hin; by apply Hr, D2). split.
  - split.
    { apply list.NoDup_app. split_and!; [done|intros r' ? ->%list_elem_of_singleton; done|apply NoDup_singleton]. }
    intros r' [Hin| ->]%elem_of_snoc; [|split; [apply elem_of_snoc; auto|eauto]].
    destruct (D2 r' Hin) as (Hi & y & Hy & ?). rewrite lookup_delete_ne in Hy by (intros ->; done).
    split; [apply elem_of_snoc; auto|eauto].
  - intros r'. rewrite R. destruct (decide (r' ∈ dead)); [rewrite decide_True by (apply elem_of_snoc; auto); done|].
    destruct (decide (r' = r)) as [-> |]; [rewrite lookup_delete_eq, decide_True by (apply elem_of_snoc; auto); done|].
    rewrite decide_False by (rewrite elem_of_snoc; tauto). by rewrite lookup_delete_ne.
  - rewrite !length_app. cbn [length]. lia.
Qed.

Lemma free_arrays_spec ids : forall used n tail rs, 0 <= used <= 2 -> NoDup ids ->
  (forall r, r ∈ ids -> exists x, rs !! r = Some x /\ inv x) ->
  exists dead rs', free_arrays (length ids) used n ((Some <$> ids) ++ tail) rs
      = Some (n + Z.of_nat (length dead), (survivor dead <$> ids) ++ tail, rs')
    /\ freeing used ids dead rs rs'.
Proof.
  induction ids as [|r ids IH] using rev_ind; intros used n tail rs Hu Hnd Hr.
  { exists [], rs. cbn. rewrite Z.add_0_r. split; [done|]. split; [split; [constructor|intros ? []%elem_of_nil]|done|cbn; lia]. }
  apply list.NoDup_app in Hnd as (Hnd & Hni & _).
  assert (r ∉ ids) as Hrn by (intros Hin; apply (Hni r Hin), list_elem_of_singleton; done).
  assert (forall r', r' ∈ ids -> exists x, rs !! r' = Some x /\ inv x) as Hr' by (intros; apply Hr, elem_of_snoc; auto).
  rewrite length_app, Nat.add_comm, fmap_app, <- app_assoc. cbn [fmap list_fmap app Nat.add free_arrays length].
  replace (Z.of_nat (length ids)) with (Z.of_nat (length (Some <$> ids))) by (by rewrite length_fmap). rewrite slot_middle. cbn [mbind option_bind].
  assert (forall used', used' <= used + 1 -> 0 <= used' <= 2 -> exists dead rs',
    free_arrays (length ids) used' n ((Some <$> ids) ++ Some r :: tail) rs
      = Some (n + Z.of_nat (length dead), (survivor dead <$> ids ++ [r]) ++ tail, rs') /\ freeing used (ids ++ [r]) dead rs rs') as Hstay.
  { intros used' Hu1 Hu2. destruct (IH used' n (Some r :: tail) rs Hu2 Hnd Hr') as (dead & rs' & -> & F). exists dead, rs'.
    rewrite survivors_keep, <- app_assoc by (intros Hin; apply Hrn; by apply (fr_dead _ _ _ _ _ F)). split; [done|by eapply freeing_keep]. }
  destruct (Z.ltb_spec used 2); [apply Hstay; lia|].
  destruct (Hr r) as (x & Hx & Hix); [apply elem_of_snoc; auto|].
  rewrite Hx. cbn [mbind option_bind]. rewrite used_spec by done. cbn [mbind option_bind].
  destruct (Z.eqb_spec (Z.of_nat (length (live x))) 0) as [Hz|Hz]; [|apply Hstay; lia].
  replace (<[length ids := None]> ((Some <$> ids) ++ Some r :: tail)) with ((Some <$> ids) ++ None :: tail).
  2: { replace (length ids) with (length (Some <$> ids) + 0)%nat by (rewrite length_fmap; lia). by rewrite insert_app_r. }
  destruct (IH used (n + 1) (None :: tail) (delete r rs) Hu Hnd) as (dead & rs' & -> & F).
  { intros r' Hin. rewrite lookup_delete_ne by (intros ->; done). by apply Hr'. }
  exists (dead ++ [r]), rs'. rewrite survivors_drop, <- app_assoc, length_app by done. cbn [length].
  split; [f_equal; f_equal; f_equal; lia|]. eapply freeing_drop; eauto. apply length_zero_iff_nil. lia.
Qed.

(** ** Packing *)

Lemma next_empty_here n j l e : slot l j = None -> next_empty (S n) j l e = j.
Proof. intros E. cbn. by rewrite E. Qed.

Lemma slot_at (done : list nat) e o (t : list (option nat)) : slot ((Some <$> done) ++ replicate e None ++ o :: t) (Z.of_nat (length done + e)) = o.
Proof.
  rewrite app_assoc. replace (length done + e)%nat with (length ((Some <$> done) ++ replicate e (@None nat))); [apply slot_middle|].
  by rewrite length_app, length_fmap, length_replicate.
Qed.

Lemma insert_here {A} (l1 l2 : list A) x y : <[length l1 := x]> (l1 ++ y :: l2) = l1 ++ x :: l2.
Proof. induction l1 as [|? l1 IH]; cbn; [done|]. f_equal. apply IH. Qed.

(** The next used entry goes to the first free one. *)
Lemma move_down (done : list nat) e r (t : list (option nat)) :
  <[(length done + S e)%nat := None]> (<[length done := Some r]> ((Some <$> done) ++ replicate (S e) None ++ Some r :: t))
  = (Some <$> (done ++ [r])) ++ replicate (S e) None ++ t.
Proof.
  replace (<[length done := _]> _) with (((Some <$> done) ++ Some r :: replicate e None) ++ Some r :: t).
  2: { rewrite <- (length_fmap (@Some nat) done) at 1. cbn [replicate app]. by rewrite insert_here, <- app_assoc. }
  replace (length done + S e)%nat with (length ((Some <$> done) ++ Some r :: replicate e None)).
  2: { rewrite length_app, length_fmap. cbn. by rewrite length_replicate. }
  rewrite insert_here, fmap_app, replicate_S_end, <- !app_assoc. done.
Qed.

(** The first [length done] entries are used, the next [e] are free and [todo] is
    to be done. *)
Lemma pack_spec todo : forall (done : list nat) e tail,
  exists k, pack (length todo) (Z.of_nat (length done + e)) (if decide (e = 0%nat) then -1 else Z.of_nat (length done))
      ((Some <$> done) ++ replicate e None ++ todo ++ tail)
    = Some ((Some <$> (done ++ omap id todo)) ++ replicate k None ++ tail)
    /\ (e + length todo = length (omap id todo) + k)%nat.
Proof.
  induction todo as [|[r|] todo IH]; intros done e tail; cbn [length pack app].
  - exists e. cbn. rewrite app_nil_r. split; [done|lia].
  - rewrite slot_at. destruct e as [|e].
    { rewrite decide_True by done. cbn [Z.ltb Z.compare replicate app].
      destruct (IH (done ++ [r]) 0%nat tail) as (k & E & Hk). exists k.
      rewrite decide_True, fmap_app, <- app_assoc, length_app in E by done. cbn [length fmap list_fmap app replicate] in E. replace (Z.of_nat (length done + 0) + 1) with (Z.of_nat (length done + 1 + 0)) by lia.
      rewrite E. cbn. rewrite <- app_assoc. split; [done|lia]. }
    destruct (decide (S e = 0)%nat); [done|]. destruct (Z.ltb_spec (Z.of_nat (length done)) 0); [lia|].
    rewrite bool_decide_false.
    2: { rewrite <- (length_fmap (@Some nat) done). cbn [replicate app]. rewrite slot_middle. by intros []. }
    rewrite !Nat2Z.id, move_down. replace (Z.to_nat (Z.of_nat (length done + S e) - Z.of_nat (length done))) with (S e) by lia.
    rewrite next_empty_here.
    2: { replace (Z.of_nat (length done) + 1) with (Z.of_nat (length (Some <$> (done ++ [r])))) by (rewrite length_fmap, length_app; cbn; lia). apply slot_middle. }
    destruct (IH (done ++ [r]) (S e) tail) as (k & E & Hk). exists k. rewrite length_app in E. cbn [length] in E.
    destruct (decide (S e = 0)%nat); [done|].
    replace (Z.of_nat (length done + S e) + 1) with (Z.of_nat (length done + 1 + S e)) by lia.
    replace (Z.of_nat (length done) + 1) with (Z.of_nat (length done + 1)) by lia. rewrite E. cbn. rewrite <- app_assoc. split; [done|lia].
  - rewrite slot_at. destruct (IH done (S e) tail) as (k & E & Hk). exists k. cbn [omap list_omap]. rewrite replicate_S_end, <- app_assoc in E. cbn [app] in E.
    replace (Z.of_nat (length done + e) + 1) with (Z.of_nat (length done + S e)) by lia.
    destruct (decide (S e = 0)%nat); [done|].
    replace (if (if decide (e = 0%nat) then -1 else Z.of_nat (length done)) <? 0 then _ else _) with (Z.of_nat (length done)).
    2: { destruct (decide (e = 0)%nat) as [-> |]; cbn [Z.ltb Z.compare]; [lia|]. destruct (Z.ltb_spec (Z.of_nat (length done)) 0); lia. }
    rewrite E. split; [done|cbn; lia].
Qed.

(** ** Freeing and packing *)

Lemma omap_survivor dead (ids : list nat) : omap id (survivor dead <$> ids) = filter (fun r => r ∉ dead) ids.
Proof.
  induction ids as [|r ids IH]; [done|]. cbn [fmap list_fmap omap list_omap]. rewrite filter_cons. unfold survivor at 1, id at 1.
  destruct (decide (r ∈ dead)) as [Hr|Hr].
  - rewrite decide_False by tauto. exact IH.
  - rewrite decide_True by done. f_equal. exact IH.
Qed.

Lemma filter_dead_length (dead ids : list nat) : NoDup ids -> NoDup dead -> (forall r, r ∈ dead -> r ∈ ids) ->
  (length (filter (fun r => r ∉ dead) ids) + length dead = length ids)%nat.
Proof.
  intros Hi Hd Hs. rewrite <- length_app. apply Permutation_length, NoDup_Permutation; [|done|].
  - apply list.NoDup_app. split_and!; [by apply list.NoDup_filter| |done]. intros r [Hr _]%list_elem_of_filter. done.
  - intros r. rewrite elem_of_app, list_elem_of_filter. destruct (decide (r ∈ dead)); intuition.
Qed.

(** Only empty rings go, and two or all of them stay. *)
Record coalesced (max k : Z) (ids ids' : list nat) (rs rs' : gmap nat fr_ring_buffer_t) : Prop := {
  co_ids : NoDup ids' /\ forall r, r ∈ ids' -> r ∈ ids;
  co_rings : forall r, (r ∈ ids -> r ∈ ids') -> rs' !! r = rs !! r;
  co_gone : forall r, r ∈ ids -> r ∉ ids' -> exists x, rs !! r = Some x /\ live x = [];
  co_left : Z.min max 1 <= max - k /\ 0 <= k;
  co_none : k = 0 -> ids' = ids
}.

Lemma coalesce_spec max l ids rs : listed max l ids -> NoDup ids -> (forall r, r ∈ ids -> exists x, rs !! r = Some x /\ inv x) ->
  exists k l' ids' rs', coalesce max l rs = Some (k, l', rs') /\ listed (max - k) l' ids' /\ coalesced max k ids ids' rs rs'.
Proof.
  intros Hl Hnd Hr. pose proof Hl as (El & Hlen & Hn). unfold coalesce. rewrite El. replace (Z.to_nat (max + 1)) with (length ids) by lia.
  destruct (free_arrays_spec ids 0 0 (replicate (16 - length ids) None) rs ltac:(lia) Hnd Hr) as (dead & rs' & -> & [(D1 & D2) R L]).
  cbn [mbind option_bind]. rewrite Z.add_0_l.
  assert (coalesced max (Z.of_nat (length dead)) ids (filter (fun r => r ∉ dead) ids) rs rs') as Hco.
  { split.
    - split; [by apply list.NoDup_filter|]. intros r [_ ?]%list_elem_of_filter. done.
    - intros r Hk. rewrite R. destruct (decide (r ∈ dead)) as [Hin|]; [|done]. destruct (D2 r Hin) as [Hi _].
      apply Hk, list_elem_of_filter in Hi as [? _]. done.
    - intros r Hi Hf. apply D2. destruct (decide (r ∈ dead)); [done|]. exfalso. apply Hf, list_elem_of_filter. done.
    - lia.
    - intros E. destruct dead; [|cbn in E; lia]. clear. induction ids; [done|]. rewrite filter_cons, decide_True by apply not_elem_of_nil. by f_equal. }
  pose proof (filter_dead_length dead ids Hnd D1 (fun r H => proj1 (D2 r H))) as Hfl.
  destruct (Z.eqb_spec (Z.of_nat (length dead)) 0) as [Hz|Hz].
  { exists (Z.of_nat (length dead)). rewrite Hz in *. eexists _, ids, rs'. split; [done|]. rewrite Z.sub_0_r.
    replace (survivor dead <$> ids) with (Some <$> ids); [|destruct dead; [done|cbn in Hz; lia]]. rewrite <- El. split; [done|].
    by rewrite (co_none _ _ _ _ _ _ Hco eq_refl) in Hco. }
  destruct (pack_spec (survivor dead <$> ids) [] 0 (replicate (16 - length ids) None)) as (k & E & Hk). rewrite decide_True in E by done.
  cbn [length replicate app fmap list_fmap] in E, Hk. rewrite length_fmap in E, Hk. rewrite omap_survivor in E, Hk. change (Z.of_nat (0 + 0)) with 0 in E.
  rewrite E. cbn [mbind option_bind]. set (ids' := filter _ ids) in *. rewrite <- replicate_add.
  assert (listed (max - Z.of_nat (length dead)) ((Some <$> ids') ++ replicate (k + (16 - length ids)) None) ids') as Hl'.
  { split_and!; [f_equal; f_equal; lia|lia..]. }
  replace (forallb _ _) with true; [exists (Z.of_nat (length dead)); eauto 10|].
  symmetry. apply forallb_forall. intros i Hi%list_elem_of_In%elem_of_seqZ. apply bool_decide_eq_true.
  destruct (slot_listed _ _ _ i Hl' ltac:(lia)) as (r & -> & _). done.
Qed.

Lemma largest_free_spec ms ids n : forall i best sz, listed (rb_max ms) (rb_array ms) ids ->
  (forall r, r ∈ ids -> exists x, rings ms !! r = Some x /\ inv x) ->
  0 <= i -> i + Z.of_nat n <= rb_max ms -> 0 <= best <= rb_max ms ->
  exists b, largest_free n i best sz ms = Some b /\ 0 <= b <= rb_max ms.
Proof.
  induction n as [|n IH]; intros i best sz Hl Hr Hi Hn Hb; [eauto|]. cbn [largest_free].
  destruct (slot_listed _ _ _ i Hl ltac:(lia)) as (r & -> & _ & Hin). destruct (Hr r Hin) as (x & Hx & Hix).
  cbn [mbind option_bind]. rewrite Hx. cbn [mbind option_bind]. rewrite used_spec by done. cbn [mbind option_bind].
  case_if; apply IH; try done; lia.
Qed.
End MessageRings.
