(* ===== verification/MessageInv.v ===== *)
(** The invariant of message sets (Message): the blocks of the message rings are
    the headers of the messages, oldest first, and as many bytes of each data
    ring are in use as its messages hold. With one message ring the blocks of the
    data rings are the data of the messages, in order. *)

From stdpp Require Import gmap.
From S2P Require Import Prelude RingBuffer Message MessageRings.

Module MessageInv.
Import RingBuffer Message MessageRings.

Ltac set_fields :=
  cbn [upd mr_current mr_max message_size rb_current rb_max max_allocation allocated freed mr_array rb_array rings msgs creates
       status rb data data_size rb_size].

(** ** What messages hold *)

(** The bytes of ring [b] that were allocated for a message. *)
Definition part (M : gmap address fr_message_t) (b : nat) (a : address) : list Z :=
  match M !! a with
  | Some m => if bool_decide (rb m = Some b) && negb (data_size m =? 0)
              then match data m with Some p => seqZ p (rb_size m) | None => [] end
              else []
  | None => []
  end.

(** The bytes of the messages [Q] in ring [b]. *)
Definition held (M : gmap address fr_message_t) (b : nat) (Q : list address) : list Z := flat_map (part M b) Q.

(** The headers of the messages [Q] in message ring [r]. *)
Definition heads (k : Z) (r : nat) (Q : list address) : list Z :=
  flat_map (fun a => if decide (a.1 = r) then seqZ a.2 k else []) Q.

(** Between the calls of the functions a message was counted but is not allocated
    yet, or it has no data yet and may have room reserved for it. *)
Inductive phase := Idle | Counted | Pending (a : address).
Definition counted (p : phase) : Z := if p is Counted then 1 else 0.

(** A message of the set. *)
Record message_ok (pend : phase) (rbs : list nat) (a : address) (m : fr_message_t) : Prop := {
  mo_status : status m = FR_MESSAGE_USED \/ status m = FR_MESSAGE_DONE;
  mo_pend : pend = Pending a -> status m = FR_MESSAGE_USED /\ data_size m = 0;
  mo_bare : data_size m = 0 -> pend <> Pending a -> rb m = None;
  mo_data : data_size m <> 0 -> exists b p, rb m = Some b /\ b ∈ rbs /\ data m = Some p /\ 0 < rb_size m < 2 ^ 63 /\ data_size m <= rb_size m
}.

(** [Q] are the messages, in the order in which they were allocated. *)
Record good (pend : phase) (ms : fr_message_set_t) (mrs rbs : list nat) (Q : list address) : Prop := {
  g_mr : listed (mr_max ms) (mr_array ms) mrs;
  g_rb : listed (rb_max ms) (rb_array ms) rbs;
  g_current : 0 <= mr_current ms <= mr_max ms /\ 0 <= rb_current ms <= rb_max ms;
  g_ids : NoDup (mrs ++ rbs) /\ forall r, r ∈ mrs ++ rbs -> (r < creates ms)%nat;
  g_sizes : 64 <= message_size ms <= 1024 /\ 0 <= max_allocation ms < 2 ^ 62;
  g_mring : forall r, r ∈ mrs -> exists x, rings ms !! r = Some x /\ mring (message_size ms) x /\ live x = heads (message_size ms) r Q;
  g_ring : forall r, r ∈ rbs -> exists x, rings ms !! r = Some x /\ inv x /\ closed x = false
    /\ length (live x) = length (held (msgs ms) r Q) /\ (mr_max ms = 0 -> live x = held (msgs ms) r Q);
  g_queue : NoDup Q /\ forall a : address, a ∈ Q -> a.1 ∈ mrs /\ exists m, msgs ms !! a = Some m /\ message_ok pend rbs a m;
  g_free : forall (a : address) m, msgs ms !! a = Some m -> a ∉ Q -> status m = FR_MESSAGE_FREE;
  g_count : 0 <= freed ms /\ freed ms + Z.of_nat (length Q) + counted pend <= allocated ms <= INT_MAX;
  g_pending : forall a : address, pend = Pending a -> exists Q', Q = Q' ++ [a]
}.

(** Only messages that are done are changed. *)
Definition kept (ms ms' : fr_message_set_t) : Prop :=
  forall (a : address) m, msgs ms !! a = Some m -> status m = FR_MESSAGE_USED -> msgs ms' !! a = Some m.

Lemma msgs_kept_refl ms : kept ms ms.
Proof. by intros a m ? ?. Qed.
Lemma msgs_kept_trans ms1 ms2 ms3 : kept ms1 ms2 -> kept ms2 ms3 -> kept ms1 ms3.
Proof. intros H1 H2 a m Hm Hu. apply H2; [|done]. by apply H1. Qed.
#[export] Hint Resolve msgs_kept_refl : core.

(** ** Lists of messages *)

Lemma held_app M b Q1 Q2 : held M b (Q1 ++ Q2) = held M b Q1 ++ held M b Q2.
Proof. apply flat_map_app. Qed.
Lemma heads_app k r Q1 Q2 : heads k r (Q1 ++ Q2) = heads k r Q1 ++ heads k r Q2.
Proof. apply flat_map_app. Qed.

Lemma held_ext M M' b Q : (forall a, a ∈ Q -> M' !! a = M !! a) -> held M' b Q = held M b Q.
Proof.
  induction Q as [|a Q IH]; intros H; [done|]. cbn. f_equal; [unfold part; rewrite H by left; done|].
  apply IH. intros a' ?. apply H. by right.
Qed.

Lemma held_insert M b Q a m : a ∉ Q -> held (<[a := m]> M) b Q = held M b Q.
Proof. intros H. apply held_ext. intros a' Ha. apply lookup_insert_ne. intros ->. done. Qed.

(** The oldest message of a ring. *)
Lemma heads_cons k r Q o l : 0 < k -> heads k r Q = o :: l ->
  exists Q1 Q2, Q = Q1 ++ (r, o) :: Q2 /\ heads k r Q1 = [] /\ heads k r Q = seqZ o k ++ heads k r (Q1 ++ Q2).
Proof.
  intros Hk. induction Q as [|[r' o'] Q IH]; [done|]. cbn. destruct (decide (r' = r)) as [-> |]; intros E.
  - assert (o' = o) as -> by (rewrite seqZ_cons in E by lia; by injection E). exists [], Q. done.
  - destruct (IH E) as (Q1 & Q2 & -> & H1 & H2). exists ((r', o') :: Q1), Q2. split; [done|]. cbn.
    rewrite decide_False by done. done.
Qed.

Lemma heads_single k r Q : 0 < k -> (forall a, a ∈ Q -> a.1 = r) -> heads k r Q = [] -> Q = [].
Proof.
  intros Hk H E. destruct Q as [|a Q]; [done|]. cbn in E. rewrite decide_True in E by (apply H; left). by rewrite seqZ_cons in E.
Qed.

Lemma heads_other k r r' o Q1 Q2 : r <> r' -> heads k r (Q1 ++ (r', o) :: Q2) = heads k r (Q1 ++ Q2).
Proof. intros H. rewrite !heads_app. cbn. by rewrite decide_False by done. Qed.

Lemma part_none M b a m : M !! a = Some m -> rb m <> Some b -> part M b a = [].
Proof. intros H Hb. unfold part. rewrite H, bool_decide_false by done. done. Qed.

Lemma part_bare M b a m : M !! a = Some m -> data_size m = 0 -> part M b a = [].
Proof. intros H Hb. unfold part. rewrite H, Hb. cbn. by rewrite andb_false_r. Qed.

Lemma part_data M b a m p : M !! a = Some m -> rb m = Some b -> data_size m <> 0 -> data m = Some p -> part M b a = seqZ p (rb_size m).
Proof. intros H Hb Hn Hp. unfold part. rewrite H, Hb, Hp, bool_decide_true by done. by destruct (Z.eqb_spec (data_size m) 0). Qed.

(** ** Cleaning one message *)

(** What the collection leaves alone. *)
Definition fixed (ms ms' : fr_message_set_t) : Prop :=
  ms' = ms <| freed := freed ms' |> <| rings := rings ms' |> <| msgs := msgs ms' |>.

Section Good.
Context (pend : phase) (ms : fr_message_set_t) (mrs rbs : list nat).
Notation M := (msgs ms).
Notation k := (message_size ms).

(** The rings of the headers, and those of the data, for the messages [Q]. *)
Definition heads_in (RS : gmap nat fr_ring_buffer_t) (Q : list address) : Prop :=
  forall r, r ∈ mrs -> exists x, RS !! r = Some x /\ mring k x /\ live x = heads k r Q.
Definition data_in (RS : gmap nat fr_ring_buffer_t) (Q : list address) : Prop :=
  forall r, r ∈ rbs -> exists x, RS !! r = Some x /\ inv x /\ closed x = false
    /\ length (live x) = length (held M r Q) /\ (mr_max ms = 0 -> live x = held M r Q).

Lemma good_drop Q1 a Q2 m' RS : good pend ms mrs rbs (Q1 ++ a :: Q2) -> pend <> Pending a -> status m' = FR_MESSAGE_FREE ->
  heads_in RS (Q1 ++ Q2) -> data_in RS (Q1 ++ Q2) ->
  good pend (ms <| freed := freed ms + 1 |> <| msgs := <[a := m']> M |> <| rings := RS |>) mrs rbs (Q1 ++ Q2).
Proof.
  intros G Hp Hm' HH HD. pose proof (g_queue _ _ _ _ _ G) as [Hnd HQ]. rewrite <- Permutation_middle in Hnd.
  apply list.NoDup_cons in Hnd as [Hn Hnd].
  split; try apply G.
  - exact HH.
  - intros r Hr. set_fields. rewrite held_insert by done. by apply HD.
  - set_fields. split; [done|]. intros a' Ha'. destruct (HQ a') as (? & m & ? & ?).
    { rewrite elem_of_app in *. rewrite list.elem_of_cons. tauto. }
    split; [done|]. exists m. split; [|done]. rewrite lookup_insert_ne by (intros ->; done). done.
  - set_fields. intros a' m Hm Ha'. destruct (decide (a' = a)) as [-> |Hne].
    + rewrite lookup_insert_eq in Hm. by injection Hm as <-.
    + rewrite lookup_insert_ne in Hm by done. apply (g_free _ _ _ _ _ G _ _ Hm). rewrite elem_of_app in *. rewrite list.elem_of_cons. tauto.
  - set_fields. pose proof (g_count _ _ _ _ _ G) as [? C]. rewrite length_app in *. cbn [length] in C. lia.
  - intros a' Ha'. destruct (g_pending _ _ _ _ _ G a' Ha') as [Q' E]. destruct Q2 as [|a2 Q2 _] using rev_ind.
    + apply app_inj_tail in E as [_ ->]. done.
    + rewrite app_comm_cons, app_assoc in E. apply app_inj_tail in E as [_ ->]. exists (Q1 ++ Q2). by rewrite app_assoc.
Qed.

(** A message of the set that is done gives its data back. *)
Lemma free_data Q1 a Q2 m : good pend ms mrs rbs (Q1 ++ a :: Q2) -> M !! a = Some m -> status m = FR_MESSAGE_DONE ->
  (mr_max ms = 0 -> Q1 = []) ->
  match rb m with
  | None => data_in (rings ms) (Q1 ++ Q2)
  | Some b => exists x c f x', b ∈ rbs /\ rings ms !! b = Some x /\ fr_ring_buffer_free x (rb_size m) = Some (x', c, f)
                /\ data_in (<[b := x']> (rings ms)) (Q1 ++ Q2)
  end.
Proof.
  intros G Hm Hs H1. destruct (g_queue _ _ _ _ _ G) as [_ HQ]. destruct (HQ a) as (_ & m0 & Hm0 & [_ Hp Hb Hd]); [apply elem_of_app; right; left|].
  rewrite Hm in Hm0. injection Hm0 as <-. assert (pend <> Pending a) as Hpa by (intros [E _]%Hp; congruence).
  assert (forall r, rb m <> Some r -> held M r (Q1 ++ a :: Q2) = held M r (Q1 ++ Q2)) as Hother.
  { intros r Hr. rewrite !held_app. cbn. by rewrite (part_none M r a m). }
  destruct (rb m) as [b|] eqn:Erb.
  2: { intros r Hr. destruct (g_ring _ _ _ _ _ G r Hr) as (x & ? & ? & ? & ? & ?). exists x. rewrite <- Hother by done. done. }
  assert (data_size m <> 0) as Hnz by (intros E; specialize (Hb E Hpa); congruence).
  destruct (Hd Hnz) as (b' & p & [= <-] & Hbin & Hdata & Hsz & _).
  destruct (g_ring _ _ _ _ _ G b Hbin) as (x & Hx & Hi & Hc & Hlen & Hord).
  rewrite held_app in Hlen. cbn in Hlen. rewrite (part_data M b a m p), !length_app, length_seqZ in Hlen by done.
  destruct (ring_take x (rb_size m) (take (Z.to_nat (rb_size m)) (live x)) (drop (Z.to_nat (rb_size m)) (live x)))
    as (x' & c & f & Hf & Hi' & Hc' & Hl' & _); [done|done|lia|by rewrite take_drop|rewrite length_take; fold (held M b Q2) in Hlen; lia|].
  exists x, c, f, x'. split; [done|]. split; [done|]. split; [done|]. intros r Hr. destruct (decide (r = b)) as [-> |Hne].
  - exists x'. rewrite lookup_insert_eq. split; [done|]. split; [done|]. split; [done|]. rewrite Hl', length_drop, held_app, length_app. split.
    + fold (held M b Q2) in Hlen. lia.
    + intros Hz. specialize (Hord Hz). rewrite (H1 Hz) in *. cbn in Hord |- *. rewrite (part_data M b a m p) in Hord by done.
      rewrite Hord, drop_app_length'; [done|]. by rewrite length_seqZ.
  - rewrite lookup_insert_ne by done. destruct (g_ring _ _ _ _ _ G r Hr) as (y & ? & ? & ? & ? & ?). exists y. rewrite <- Hother by congruence. done.
Qed.
End Good.
End MessageInv.
