(* ===== verification/MessageGc.v ===== *)
(** Collecting the messages of a set that are done (Message) keeps the invariant
    (MessageInv) and changes no message that is in use. *)

From stdpp Require Import gmap.
From S2P Require Import Prelude RingBuffer Message MessageRings MessageInv.

Module MessageGc.
Import RingBuffer Message MessageRings MessageInv.

Lemma fixed_refl ms : fixed ms ms.
Proof. by destruct ms. Qed.
Lemma fixed_trans ms1 ms2 ms3 : fixed ms1 ms2 -> fixed ms2 ms3 -> fixed ms1 ms3.
Proof. unfold fixed. intros -> E. rewrite E. by destruct ms1, ms3. Qed.
#[export] Hint Resolve fixed_refl : core.

Lemma ring_free_eq r n ms x x' c f : rings ms !! r = Some x -> fr_ring_buffer_free x n = Some (x', c, f) ->
  ring_free r n ms = Some (ms <| rings := <[r := x']> (rings ms) |>).
Proof. intros Hx Hf. unfold ring_free. rewrite Hx. cbn [mbind option_bind]. by rewrite Hf. Qed.

(** One message ring means that the oldest message of it is the oldest. *)
Lemma first_of_one pend ms mrs rbs Q1 r o Q2 : good pend ms mrs rbs (Q1 ++ (r, o) :: Q2) ->
  heads (message_size ms) r Q1 = [] -> mr_max ms = 0 -> Q1 = [].
Proof.
  intros G HQ1 Hz. destruct (g_mr _ _ _ _ _ G) as (_ & Hl & _). rewrite Hz in Hl.
  destruct mrs as [|r0 [|]]; cbn in Hl; [lia| |lia]. destruct (g_queue _ _ _ _ _ G) as [_ HQ].
  assert (forall a, a ∈ Q1 ++ (r, o) :: Q2 -> a.1 = r0) as Hall by (intros a Ha; apply list_elem_of_singleton, HQ, Ha).
  assert (r = r0) as -> by (apply (Hall (r, o)), elem_of_app; right; left).
  apply (heads_single (message_size ms) r0); [pose proof (g_sizes _ _ _ _ _ G); lia| |done].
  intros a Ha. apply Hall, elem_of_app. by left.
Qed.

(** The oldest message of ring [mr] is done: it is freed. *)
Lemma ring_gc_done pend ms mrs rbs Q1 mr o Q2 m x : good pend ms mrs rbs (Q1 ++ (mr, o) :: Q2) -> mr ∈ mrs ->
  heads (message_size ms) mr Q1 = [] -> rings ms !! mr = Some x -> mring (message_size ms) x ->
  live x = seqZ o (message_size ms) ++ heads (message_size ms) mr (Q1 ++ Q2) ->
  fr_ring_buffer_start x = (o, (fr_ring_buffer_start x).2) -> message_size ms <= (fr_ring_buffer_start x).2 ->
  msgs ms !! (mr, o) = Some m -> status m = FR_MESSAGE_DONE ->
  exists ms', ring_gc_one mr ms = Some (true, ms') /\ good pend ms' mrs rbs (Q1 ++ Q2) /\ fixed ms ms' /\ kept ms ms'.
Proof.
  intros G Hmr HQ1 Hx Hmx El Hst Hn Hm Hs. pose proof (g_sizes _ _ _ _ _ G) as [Hk _]. set (k := message_size ms) in *.
  unfold ring_gc_one. rewrite Hx. cbn [mbind option_bind]. rewrite Hst.
  destruct (Z.eqb_spec (fr_ring_buffer_start x).2 0); [lia|]. destruct (Z.ltb_spec (fr_ring_buffer_start x).2 (message_size ms)); [lia|].
  rewrite Hm. cbn [mbind option_bind]. rewrite Hs. pose proof (g_count _ _ _ _ _ G) as [_ C]. rewrite length_app in C. cbn [length] in C.
  destruct (Z.leb_spec INT_MAX (freed ms)); [destruct pend; cbn in C; lia|]. cbn zeta.
  destruct (ring_take x k (seqZ o k) (heads k mr (Q1 ++ Q2))) as (x' & c & f & Hf & Hi' & Hc' & Hl' & Hw'); [apply Hmx|apply Hmx|lia|done|rewrite length_seqZ; lia|].
  assert (mring k x') as Hmx' by (split; [done|split; [done|]]; intros Hw; destruct (Hw' Hw) as [-> ?]; by apply Hmx).
  assert (pend <> Pending (mr, o)) as Hp.
  { intros Hp. destruct (g_queue _ _ _ _ _ G) as [_ HQ]. destruct (HQ (mr, o)) as (_ & m0 & Hm0 & [_ Hp' _ _]); [apply elem_of_app; right; left|].
    destruct (Hp' Hp). congruence. }
  assert (forall RS, (forall r, r ∈ mrs -> RS !! r = rings ms !! r) -> heads_in ms mrs (<[mr := x']> RS) (Q1 ++ Q2)) as HH.
  { intros RS HRS r Hr. destruct (decide (r = mr)) as [-> |Hne]; [rewrite lookup_insert_eq; eauto|].
    rewrite lookup_insert_ne, HRS by done. destruct (g_mring _ _ _ _ _ G r Hr) as (y & ? & ? & Hy). exists y.
    rewrite heads_other in Hy by done. done. }
  assert (forall r, r ∈ rbs -> r ∉ mrs) as Hdis.
  { intros r H1 H2. destruct (g_ids _ _ _ _ _ G) as [Hnd _]. apply list.NoDup_app in Hnd as (_ & Hd & _). by apply (Hd r). }
  assert (forall RS, data_in ms rbs RS (Q1 ++ Q2) -> data_in ms rbs (<[mr := x']> RS) (Q1 ++ Q2)) as HD.
  { intros RS H' r Hr. rewrite lookup_insert_ne by (intros ->; by apply (Hdis r)). by apply H'. }
  assert (forall m', kept ms (ms <| freed := freed ms + 1 |> <| msgs := <[(mr, o) := m']> (msgs ms) |>)) as Hkept.
  { intros m' a m0 Ha Hu. set_fields. rewrite lookup_insert_ne; [done|]. intros <-. congruence. }
  pose proof (free_data pend ms mrs rbs Q1 (mr, o) Q2 m G Hm Hs (first_of_one _ _ _ _ _ _ _ _ G HQ1)) as Hfree.
  destruct (rb m) as [b|] eqn:Erb.
  - destruct Hfree as (y & c' & f' & y' & Hb & Hy & Hfy & HDy). rewrite (ring_free_eq b _ _ y y' c' f'); [|exact Hy|exact Hfy]. cbn [mbind option_bind].
    rewrite (ring_free_eq mr _ _ x x' c f); [| |exact Hf].
    2: { set_fields. rewrite lookup_insert_ne; [done|]. intros ->. by apply (Hdis mr). }
    cbn [mbind option_bind]. eexists. split; [done|]. set_fields. rewrite insert_insert_eq. split; [|split; [done|apply Hkept]].
    apply (good_drop _ _ _ _ _ _ _ _ _ G); [done|done| |by apply HD]. apply HH. intros r Hr. rewrite lookup_insert_ne; [done|]. intros ->. by apply (Hdis r).
  - cbn [mbind option_bind]. rewrite (ring_free_eq mr _ _ x x' c f); [|exact Hx|exact Hf]. cbn [mbind option_bind].
    eexists. split; [done|]. split; [|split; [done|apply Hkept]]. apply (good_drop _ _ _ _ _ _ _ _ _ G); [done|done|by apply HH|by apply HD].
Qed.

Lemma fixed_size ms ms' : fixed ms ms' -> message_size ms' = message_size ms.
Proof. by intros ->. Qed.

Lemma ring_gc_one_ok pend ms mrs rbs Q mr : good pend ms mrs rbs Q -> mr ∈ mrs ->
  exists more ms' Q', ring_gc_one mr ms = Some (more, ms') /\ good pend ms' mrs rbs Q' /\ fixed ms ms' /\ kept ms ms'
    /\ (more = true -> (length (heads (message_size ms) mr Q') < length (heads (message_size ms) mr Q))%nat).
Proof.
  intros G Hmr. destruct (g_mring _ _ _ _ _ G mr Hmr) as (x & Hx & Hmx & El). pose proof (g_sizes _ _ _ _ _ G) as [Hk _].
  destruct (heads (message_size ms) mr Q) as [|o l] eqn:EQ.
  { exists false, ms, Q. split; [|done]. unfold ring_gc_one. rewrite Hx. cbn [mbind option_bind]. unfold fr_ring_buffer_start.
    destruct (live_nil x (proj1 Hmx) El) as (-> & -> & ->). done. }
  destruct (heads_cons (message_size ms) mr Q o l ltac:(lia) EQ) as (Q1 & Q2 & -> & HQ1 & EQ'). rewrite <- EQ, EQ' in El.
  destruct (mring_start (message_size ms) x ltac:(lia) Hmx) as (l' & n & Hst & Eh & Hn0 & Hn).
  { rewrite El, seqZ_cons by lia. done. }
  { rewrite El, length_app, length_seqZ. lia. }
  assert (data_start x = o) as Eo by (rewrite El, seqZ_cons in Eh by lia; by injection Eh). rewrite Eo in Hst.
  destruct (g_queue _ _ _ _ _ G) as [_ HQ]. destruct (HQ (mr, o)) as (_ & m & Hm & Hok); [apply elem_of_app; right; left|].
  destruct (mo_status _ _ _ _ Hok) as [Hs|Hs].
  - exists false, ms, (Q1 ++ (mr, o) :: Q2). split; [|done]. unfold ring_gc_one. rewrite Hx. cbn [mbind option_bind]. rewrite Hst.
    destruct (Z.eqb_spec n 0); [lia|]. destruct (Z.ltb_spec n (message_size ms)); [lia|]. rewrite Hm. cbn [mbind option_bind]. by rewrite Hs.
  - destruct (ring_gc_done pend ms mrs rbs Q1 mr o Q2 m x) as (ms' & E & G' & Hf & Hkept); try done; [by rewrite Hst|by rewrite Hst|].
    exists true, ms', (Q1 ++ Q2). split; [done|]. split; [done|]. split; [done|]. split; [done|]. intros _.
    rewrite <- EQ, EQ', length_app, length_seqZ. lia.
Qed.

Lemma ring_gc_loop_ok pend mrs rbs mr max fuel : forall ms Q cleaned, good pend ms mrs rbs Q -> mr ∈ mrs -> 0 <= cleaned ->
  (length (heads (message_size ms) mr Q) < fuel)%nat ->
  exists c ms' Q', ring_gc_loop fuel mr max cleaned ms = Some (c, ms') /\ good pend ms' mrs rbs Q' /\ fixed ms ms' /\ kept ms ms'
    /\ cleaned <= c /\ (cleaned < max -> c <= max).
Proof.
  induction fuel as [|fuel IH]; intros ms Q cleaned G Hmr Hc Hf; [lia|]. cbn [ring_gc_loop].
  destruct (ring_gc_one_ok pend ms mrs rbs Q mr G Hmr) as (more & ms' & Q' & -> & G' & Hfix & Hkept & Hless). cbn [mbind option_bind].
  destruct more; cbn [negb]; [|exists cleaned, ms', Q'; repeat (split; [done|]); lia].
  destruct (Z.leb_spec max (cleaned + 1)); [exists (cleaned + 1), ms', Q'; repeat (split; [done|]); lia|].
  destruct (IH ms' Q' (cleaned + 1) G' Hmr ltac:(lia)) as (c & ms2 & Q2 & -> & G2 & Hfix2 & Hkept2 & ? & ?).
  { rewrite (fixed_size ms ms') by done. specialize (Hless eq_refl). lia. }
  exists c, ms2, Q2. split; [done|]. split; [done|]. split; [by eapply fixed_trans|]. split; [by eapply msgs_kept_trans|]. lia.
Qed.

Lemma fr_message_ring_gc_ok pend ms mrs rbs Q mr max : good pend ms mrs rbs Q -> mr ∈ mrs ->
  exists c ms' Q', fr_message_ring_gc mr max ms = Some (c, ms') /\ good pend ms' mrs rbs Q' /\ fixed ms ms' /\ kept ms ms'
    /\ 0 <= c /\ (0 < max -> c <= max).
Proof.
  intros G Hmr. destruct (g_mring _ _ _ _ _ G mr Hmr) as (x & Hx & Hmx & El). unfold fr_message_ring_gc. rewrite Hx. cbn [mbind option_bind].
  rewrite used_spec by apply Hmx. cbn [mbind option_bind]. apply (ring_gc_loop_ok _ _ _ _ _ _ _ Q); [done|done|lia|]. rewrite El. lia.
Qed.

(** ** All rings *)

Lemma gc_rings_ok pend mrs rbs max n : forall ms Q i total, good pend ms mrs rbs Q -> 0 <= i -> i + Z.of_nat n = mr_max ms + 1 -> 0 <= total < max ->
  exists c ms' Q', gc_rings n i max total ms = Some (c, ms') /\ good pend ms' mrs rbs Q' /\ fixed ms ms' /\ kept ms ms'.
Proof.
  induction n as [|n IH]; intros ms Q i total G Hi Hn Ht; [exists total, ms, Q; done|]. cbn [gc_rings].
  destruct (slot_listed _ _ _ i (g_mr _ _ _ _ _ G) ltac:(lia)) as (r & -> & _ & Hr). cbn [mbind option_bind].
  destruct (fr_message_ring_gc_ok pend ms mrs rbs Q r (max - total) G Hr) as (c & ms' & Q' & -> & G' & Hfix & Hkept & Hc & Hle). cbn [mbind option_bind].
  destruct (Z.ltb_spec max (total + c)); [lia|]. destruct (Z.eqb_spec (total + c) max); [exists (total + c), ms', Q'; done|].
  destruct (IH ms' Q' (i + 1) (total + c)) as (c2 & ms2 & Q2 & -> & G2 & Hfix2 & Hkept2); [done|lia|rewrite Hfix; set_fields; lia|lia|].
  exists c2, ms2, Q2. split; [done|]. split; [done|]. split; [by eapply fixed_trans|by eapply msgs_kept_trans].
Qed.

Lemma gc_each_ok pend mrs rbs n : forall ms Q i, good pend ms mrs rbs Q -> 0 <= i -> i + Z.of_nat n = mr_max ms + 1 ->
  exists ms' Q', gc_each n i ms = Some ms' /\ good pend ms' mrs rbs Q' /\ fixed ms ms' /\ kept ms ms'.
Proof.
  induction n as [|n IH]; intros ms Q i G Hi Hn; [exists ms, Q; done|]. cbn [gc_each].
  destruct (slot_listed _ _ _ i (g_mr _ _ _ _ _ G) ltac:(lia)) as (r & -> & _ & Hr). cbn [mbind option_bind].
  destruct (fr_message_ring_gc_ok pend ms mrs rbs Q r (-1) G Hr) as (c & ms' & Q' & -> & G' & Hfix & Hkept & _ & _). cbn [mbind option_bind].
  destruct (IH ms' Q' (i + 1)) as (ms2 & Q2 & -> & G2 & Hfix2 & Hkept2); [done|lia|rewrite Hfix; set_fields; lia|].
  exists ms2, Q2. split; [done|]. split; [done|]. split; [by eapply fixed_trans|by eapply msgs_kept_trans].
Qed.

(** ** The arrays *)

Lemma heads_in_ring k r Q a : 0 < k -> a ∈ Q -> a.1 = r -> heads k r Q <> [].
Proof.
  intros Hk (Q1 & Q2 & ->)%list_elem_of_split <-. rewrite heads_app. cbn. rewrite decide_True by done. rewrite seqZ_cons by lia.
  intros [_ [=]]%app_eq_nil.
Qed.

Lemma mr_coalesce_ok pend ms mrs rbs Q : good pend ms mrs rbs Q ->
  exists n l rs mrs', coalesce (mr_max ms) (mr_array ms) (rings ms) = Some (n, l, rs)
    /\ let ms' := ms <| mr_array := l |> <| rings := rs |> in
       good pend (if n =? 0 then ms' else ms' <| mr_max := mr_max ms' - n |> <| mr_current := mr_max ms' - n |>) mrs' rbs Q.
Proof.
  intros G. destruct (g_ids _ _ _ _ _ G) as [Hnd Hnew]. pose proof Hnd as (Hnm & Hdis & Hnr)%list.NoDup_app.
  destruct (g_sizes _ _ _ _ _ G) as [Hk _].
  destruct (coalesce_spec (mr_max ms) (mr_array ms) mrs (rings ms)) as (n & l & mrs' & rs & E & Hl & [C1 C2 C3 C4 C5]); [apply G|done| |].
  { intros r Hr. destruct (g_mring _ _ _ _ _ G r Hr) as (x & ? & ? & ?). exists x. split; [done|apply H0]. }
  exists n, l, rs, mrs'. split; [done|]. cbn zeta. set (ms2 := if n =? 0 then _ else _).
  assert (ms2 = ms <| mr_array := l |> <| rings := rs |> <| mr_max := mr_max ms - n |> <| mr_current := mr_current ms2 |>) as Ems.
  { unfold ms2. destruct (Z.eqb_spec n 0) as [-> |]; [rewrite Z.sub_0_r|]; by destruct ms. }
  assert (0 <= mr_current ms2 <= mr_max ms - n) as Hcur.
  { destruct (g_current _ _ _ _ _ G). unfold ms2. destruct (Z.eqb_spec n 0); set_fields; lia. }
  rewrite Ems. clearbody ms2. clear Ems. split; set_fields; try apply G.
  - done.
  - split; [done|apply G].
  - split; [apply list.NoDup_app; split_and!; [apply C1| |done]; intros r Hr; by apply Hdis, C1|].
    intros r Hr. apply Hnew. rewrite elem_of_app in *. destruct Hr; [left; by apply C1|by right].
  - intros r Hr. rewrite C2 by done. apply G. by apply C1.
  - intros r Hr. rewrite C2 by (intros Hr'; exfalso; by apply (Hdis r)). destruct (g_ring _ _ _ _ _ G r Hr) as (x & ? & ? & ? & ? & Ho).
    exists x. repeat (split; [done|]). intros Hz. apply Ho. destruct (g_current _ _ _ _ _ G). lia.
  - destruct (g_queue _ _ _ _ _ G) as [? HQ]. split; [done|]. intros a Ha. destruct (HQ a Ha) as (Hin & ?). split; [|done].
    destruct (decide (a.1 ∈ mrs')) as [|Hout]; [done|]. exfalso. destruct (C3 _ Hin Hout) as (x & Hx & Hlx).
    destruct (g_mring _ _ _ _ _ G _ Hin) as (x' & Hx' & _ & Hlx'). rewrite Hx in Hx'. injection Hx' as <-. rewrite Hlx in Hlx'.
    by apply (heads_in_ring (message_size ms) a.1 Q a ltac:(lia) Ha eq_refl).
Qed.

Lemma rb_coalesce_ok pend ms mrs rbs Q : good pend ms mrs rbs Q ->
  exists n l rs rbs', coalesce (rb_max ms) (rb_array ms) (rings ms) = Some (n, l, rs)
    /\ let ms' := ms <| rb_array := l |> <| rings := rs |> in
       good pend (if n =? 0 then ms' else ms' <| rb_max := rb_max ms' - n |> <| rb_current := rb_max ms' - n |>) mrs rbs' Q.
Proof.
  intros G. destruct (g_ids _ _ _ _ _ G) as [Hnd Hnew]. pose proof Hnd as (Hnm & Hdis & Hnr)%list.NoDup_app.
  destruct (coalesce_spec (rb_max ms) (rb_array ms) rbs (rings ms)) as (n & l & rbs' & rs & E & Hl & [C1 C2 C3 C4 C5]); [apply G|done| |].
  { intros r Hr. destruct (g_ring _ _ _ _ _ G r Hr) as (x & ? & ? & ?). eauto. }
  exists n, l, rs, rbs'. split; [done|]. cbn zeta. set (ms2 := if n =? 0 then _ else _).
  assert (ms2 = ms <| rb_array := l |> <| rings := rs |> <| rb_max := rb_max ms - n |> <| rb_current := rb_current ms2 |>) as Ems.
  { unfold ms2. destruct (Z.eqb_spec n 0) as [-> |]; [rewrite Z.sub_0_r|]; by destruct ms. }
  assert (0 <= rb_current ms2 <= rb_max ms - n) as Hcur.
  { destruct (g_current _ _ _ _ _ G). unfold ms2. destruct (Z.eqb_spec n 0); set_fields; lia. }
  rewrite Ems. clearbody ms2. clear Ems. split; set_fields; try apply G.
  - done.
  - split; [apply G|done].
  - split; [apply list.NoDup_app; split_and!; [done| |apply C1]; intros r Hr Hr'; by apply (Hdis r Hr), C1|].
    intros r Hr. apply Hnew. rewrite elem_of_app in *. destruct Hr; [by left|right; by apply C1].
  - intros r Hr. rewrite C2 by (intros Hr'; exfalso; by apply (Hdis r)). by apply G.
  - intros r Hr. rewrite C2 by done. apply G. by apply C1.
  - destruct (g_queue _ _ _ _ _ G) as [? HQ]. split; [done|]. intros a Ha. destruct (HQ a Ha) as (Hin & m & Hm & [M1 M2 M3 M4]).
    split; [done|]. exists m. split; [done|]. split; try done. intros Hd. destruct (M4 Hd) as (b & p & Hb & Hbin & Hp & Hsz & Hle). exists b, p.
    repeat (split; [done|]). split; [|done]. destruct (decide (b ∈ rbs')) as [|Hout]; [done|]. exfalso. destruct (C3 _ Hbin Hout) as (x & Hx & Hlx).
    destruct (g_ring _ _ _ _ _ G _ Hbin) as (x' & Hx' & _ & _ & Hlx' & _). rewrite Hx in Hx'. injection Hx' as <-. rewrite Hlx in Hlx'.
    apply list_elem_of_split in Ha as (Q1 & Q2 & ->). rewrite held_app in Hlx'. cbn in Hlx'.
    rewrite (part_data _ _ _ m p), !length_app, length_seqZ in Hlx' by done. lia.
Qed.

(** ** The collection *)

Definition quiet (ms ms' : fr_message_set_t) : Prop :=
  kept ms ms' /\ message_size ms' = message_size ms /\ max_allocation ms' = max_allocation ms /\ allocated ms' = allocated ms.

Lemma quiet_refl ms : quiet ms ms.
Proof. done. Qed.
Lemma quiet_trans ms1 ms2 ms3 : quiet ms1 ms2 -> quiet ms2 ms3 -> quiet ms1 ms3.
Proof. intros (K1 & ? & ? & ?) (K2 & ? & ? & ?). split; [by eapply msgs_kept_trans|]. split_and!; congruence. Qed.
Lemma quiet_fixed ms ms' : fixed ms ms' -> kept ms ms' -> quiet ms ms'.
Proof. intros Hf Hk. split; [done|]. by rewrite Hf. Qed.
Lemma quiet_msgs ms ms' : msgs ms' = msgs ms -> message_size ms' = message_size ms -> max_allocation ms' = max_allocation ms ->
  allocated ms' = allocated ms -> quiet ms ms'.
Proof. intros E ? ? ?. split; [|done]. intros a m Hm _. by rewrite E. Qed.

Lemma good_current pend ms mrs rbs Q i : good pend ms mrs rbs Q -> 0 <= i <= rb_max ms -> good pend (ms <| rb_current := i |>) mrs rbs Q.
Proof. intros G Hi. split; try apply G. set_fields. split; [apply G|done]. Qed.

Lemma fr_message_gc_ok pend ms mrs rbs Q max : good pend ms mrs rbs Q -> 0 < max ->
  exists ms' mrs' rbs' Q', fr_message_gc max ms = Some ms' /\ good pend ms' mrs' rbs' Q' /\ quiet ms ms'.
Proof.
  intros G Hmax. unfold fr_message_gc. pose proof (g_current _ _ _ _ _ G) as [Hc _].
  destruct (gc_rings_ok pend mrs rbs max (Z.to_nat (mr_max ms + 1)) ms Q 0 0 G) as (t & ms1 & Q1 & -> & G1 & Hf1 & Hk1); [lia|lia|lia|].
  cbn [mbind option_bind]. pose proof (quiet_fixed _ _ Hf1 Hk1) as Hq1.
  destruct (Z.eqb_spec t 0) as [|Hnz]; [exists ms1, mrs, rbs, Q1; done|].
  destruct (mr_coalesce_ok _ _ _ _ _ G1) as (n & l & rs & mrs' & -> & G2). cbn [mbind option_bind]. cbn zeta in *. set (ms2 := if n =? 0 then _ else _) in *.
  assert (quiet ms1 ms2) as Hq2 by (unfold ms2; destruct (n =? 0); by apply quiet_msgs). clearbody ms2.
  destruct (rb_coalesce_ok _ _ _ _ _ G2) as (n' & l' & rs' & rbs' & -> & G3). cbn [mbind option_bind]. cbn zeta in *. set (ms3 := if n' =? 0 then _ else _) in *.
  assert (quiet ms2 ms3) as Hq3 by (unfold ms3; destruct (n' =? 0); by apply quiet_msgs). clearbody ms3.
  pose proof (g_current _ _ _ _ _ G3) as [_ Hc3].
  destruct (slot_listed _ _ _ (rb_max ms3) (g_rb _ _ _ _ _ G3) ltac:(lia)) as (r & -> & _ & Hr). cbn [mbind option_bind].
  destruct (g_ring _ _ _ _ _ G3 r Hr) as (x & -> & Hi & _). cbn [mbind option_bind]. rewrite used_spec by done. cbn [mbind option_bind].
  destruct (largest_free_spec ms3 rbs' (Z.to_nat (rb_max ms3)) 0 (rb_max ms3) (u64 (fr_ring_buffer_size x - Z.of_nat (length (live x)))))
    as (best & -> & Hb); [apply G3| |lia..|].
  { intros r' Hr'. destruct (g_ring _ _ _ _ _ G3 r' Hr') as (y & ? & ? & _). eauto. }
  cbn [mbind option_bind]. exists (ms3 <| rb_current := best |>), mrs', rbs', Q1. split; [done|]. split; [by apply good_current|].
  eapply quiet_trans; [exact Hq1|]. eapply quiet_trans; [exact Hq2|]. eapply quiet_trans; [exact Hq3|]. by apply quiet_msgs.
Qed.

Lemma fr_message_set_gc_ok pend ms mrs rbs Q : good pend ms mrs rbs Q ->
  exists ms' mrs' rbs' Q', fr_message_set_gc ms = Some ms' /\ good pend ms' mrs' rbs' Q' /\ quiet ms ms'.
Proof.
  intros G. unfold fr_message_set_gc. pose proof (g_current _ _ _ _ _ G) as [Hc _].
  destruct (gc_each_ok pend mrs rbs (Z.to_nat (mr_max ms + 1)) ms Q 0 G) as (ms1 & Q1 & -> & G1 & Hf1 & Hk1); [lia|lia|]. cbn [mbind option_bind].
  destruct (fr_message_gc_ok _ _ _ _ _ (Z.shiftl 1 24) G1) as (ms2 & mrs' & rbs' & Q2 & -> & G2 & Hq); [done|].
  exists ms2, mrs', rbs', Q2. split; [done|]. split; [done|]. eapply quiet_trans; [by apply quiet_fixed|done].
Qed.
End MessageGc.
