(* ===== verification/MessageAlloc.v ===== *)
(** Allocating a message and its data (Message) keeps the invariant (MessageInv):
    the new message is the last one, and its data are allocated where room was
    reserved for them. *)

From stdpp Require Import gmap.
From S2P Require Import Prelude RingBuffer Message MessageRings MessageInv MessageGc.

Module MessageAlloc.
Import RingBuffer Message MessageRings MessageInv MessageGc.

Definition well (p : phase) (ms : fr_message_set_t) : Prop := exists mrs rbs Q, good p ms mrs rbs Q.

(** ** Messages *)

(** [a] is not in use. *)
Definition fresh (ms : fr_message_set_t) (a : address) : Prop := forall m, msgs ms !! a = Some m -> status m <> FR_MESSAGE_USED.

Lemma fresh_kept ms ms' a : kept ms ms' -> fresh ms' a -> fresh ms a.
Proof. intros K F m Hm Hu. by apply (F m); [apply K|]. Qed.

Lemma message_ok_phase p p' rbs a m : p <> Pending a -> p' <> Pending a -> message_ok p rbs a m -> message_ok p' rbs a m.
Proof. intros H H' [M1 M2 M3 M4]. split; try done. intros Hd _. by apply M3. Qed.

Lemma heads_elem k r o Q : 0 < k -> (r, o) ∈ Q -> o ∈ heads k r Q.
Proof.
  intros Hk (Q1 & Q2 & ->)%list_elem_of_split. rewrite heads_app. apply elem_of_app. right. cbn. rewrite decide_True by done.
  rewrite seqZ_cons by lia. apply elem_of_app. do 2 left.
Qed.

Lemma good_take ms mrs rbs Q mr x x' o : good Counted ms mrs rbs Q -> mr ∈ mrs -> rings ms !! mr = Some x ->
  mring (message_size ms) x' -> live x' = live x ++ seqZ o (message_size ms) ->
  good (Pending (mr, o)) (ms <| rings := <[mr := x']> (rings ms) |> <| msgs := <[(mr, o) := new_message]> (msgs ms) |>) mrs rbs (Q ++ [(mr, o)])
  /\ (mr, o) ∉ Q.
Proof.
  intros G Hmr Hx Hmx' El. destruct (g_sizes _ _ _ _ _ G) as [Hk _]. destruct (g_mring _ _ _ _ _ G mr Hmr) as (x0 & Hx0 & Hmx & Elx).
  rewrite Hx in Hx0. injection Hx0 as <-. destruct (g_queue _ _ _ _ _ G) as [Hnd HQ].
  assert ((mr, o) ∉ Q) as Hnew.
  { intros Hin%(heads_elem (message_size ms)); [|lia]. rewrite <- Elx in Hin. destruct (live_wf x' (proj1 Hmx')) as [Hnl _]. rewrite El in Hnl.
    apply list.NoDup_app in Hnl as (_ & Hd & _). apply (Hd o Hin). rewrite elem_of_seqZ. lia. }
  split; [|done]. assert (forall r, r ∈ rbs -> r <> mr) as Hdis.
  { intros r Hr ->. destruct (g_ids _ _ _ _ _ G) as [Hni _]. apply list.NoDup_app in Hni as (_ & Hd & _). by apply (Hd mr). }
  split; set_fields; try apply G.
  - intros r Hr. rewrite heads_app. cbn. destruct (decide (mr = r)) as [-> |Hne].
    + rewrite lookup_insert_eq. exists x'. rewrite app_nil_r, <- Elx. done.
    + rewrite lookup_insert_ne, app_nil_r by done. by apply G.
  - intros r Hr. rewrite lookup_insert_ne by (intros ->; by apply (Hdis r)). rewrite held_app, held_insert by done. cbn.
    rewrite (part_bare _ r (mr, o) new_message), !app_nil_r; [by apply G|by rewrite lookup_insert_eq|done].
  - split; [apply list.NoDup_app; split_and!; [done|intros a Ha Hs%list_elem_of_singleton; subst a; done|apply NoDup_singleton]|].
    intros a [Ha| ->]%elem_of_snoc.
    + assert (a <> (mr, o)) by (intros ->; done). rewrite lookup_insert_ne by done. destruct (HQ a Ha) as (? & m & ? & ?).
      split; [done|]. exists m. split; [done|]. apply (message_ok_phase Counted); [done|congruence|done].
    + rewrite lookup_insert_eq. split; [done|]. eexists. split; [done|]. split; [by left|done|by intros _ []|done].
  - intros a m Hm Ha. rewrite elem_of_snoc in Ha. rewrite lookup_insert_ne in Hm by (intros <-; tauto). apply (g_free _ _ _ _ _ G a); tauto.
  - pose proof (g_count _ _ _ _ _ G) as [? C]. rewrite length_app. cbn [length counted] in *. lia.
  - intros a [= <-]. eauto.
Qed.

(** The message that an allocation found, if any. *)
Definition got (ms : fr_message_set_t) (r : option address) (ms' : fr_message_set_t) : Prop :=
  match r with
  | None => well Counted ms'
  | Some a => well (Pending a) ms' /\ msgs ms' !! a = Some new_message /\ fresh ms a
  end.

Lemma take_message_ok ms mrs rbs Q mr : good Counted ms mrs rbs Q -> mr ∈ mrs ->
  exists r ms', take_message mr ms = Some (r, ms') /\ got ms r ms' /\ quiet ms ms' /\ ms' = ms <| rings := rings ms' |> <| msgs := msgs ms' |>
    /\ (r = None -> good Counted ms' mrs rbs Q).
Proof.
  intros G Hmr. destruct (g_mring _ _ _ _ _ G mr Hmr) as (x & Hx & Hmx & El). destruct (g_sizes _ _ _ _ _ G) as [Hk _].
  unfold take_message. rewrite Hx. cbn [mbind option_bind]. destruct (mring_alloc _ _ Hmx ltac:(lia)) as (x' & p & -> & Hmx' & El').
  cbn [mbind option_bind]. cbn zeta. destruct p as [o|].
  - destruct (good_take ms mrs rbs Q mr x x' o G Hmr Hx Hmx' El') as [G' Hnew].
    assert (fresh ms (mr, o)) as Hf by (intros m Hm; rewrite (g_free _ _ _ _ _ G _ _ Hm Hnew); done).
    eexists _, _. split; [done|]. split; [split; [unfold well; eauto|]; split; [by set_fields; rewrite lookup_insert_eq|done]|].
    split; [|done]. split; [|done]. intros a m Hm Hu. set_fields. rewrite lookup_insert_ne; [done|]. intros <-. by apply (Hf m).
  - rewrite app_nil_r in El'. assert (good Counted (ms <| rings := <[mr := x']> (rings ms) |>) mrs rbs Q) as G'.
    { split; set_fields; try apply G.
      - intros r Hr. destruct (decide (mr = r)) as [-> |]; [rewrite lookup_insert_eq; exists x'; by rewrite El', El|].
        rewrite lookup_insert_ne by done. by apply G.
      - intros r Hr. rewrite lookup_insert_ne; [by apply G|]. intros ->. destruct (g_ids _ _ _ _ _ G) as [Hni _].
        apply list.NoDup_app in Hni as (_ & Hd & _). by apply (Hd r). }
    eexists _, _. split; [done|]. split; [unfold got, well; eauto|]. split; [by apply quiet_msgs|done].
Qed.

Lemma got_quiet ms0 ms r ms' : quiet ms0 ms -> got ms r ms' -> got ms0 r ms'.
Proof. intros Hq. destruct r; [|done]. intros (? & ? & ?). split; [done|]. split; [done|]. eapply fresh_kept; [apply Hq|done]. Qed.

Section Alloc.
Context (memory : nat -> bool).

Lemma ring_alloc_ok ms mrs rbs Q mr clean : good Counted ms mrs rbs Q -> mr ∈ mrs ->
  exists r ms', fr_message_ring_alloc mr clean ms = Some (r, ms') /\ got ms r ms' /\ quiet ms ms' /\ fixed ms ms'
    /\ (r = None -> exists Q', good Counted ms' mrs rbs Q').
Proof.
  intros G Hmr. unfold fr_message_ring_alloc. destruct clean.
  - destruct (fr_message_ring_gc_ok _ _ _ _ _ mr 4 G Hmr) as (c & ms1 & Q1 & -> & G1 & Hf1 & Hk1 & _). cbn [mbind option_bind].
    pose proof (quiet_fixed _ _ Hf1 Hk1) as Hq1. destruct (c =? 0).
    { exists None, ms1. split; [done|]. split; [exists mrs, rbs, Q1; done|]. eauto. }
    destruct (take_message_ok _ _ _ _ mr G1 Hmr) as (r & ms2 & -> & Hg & Hq2 & Hf2 & Hn). exists r, ms2. split; [done|].
    split; [by eapply got_quiet|]. split; [by eapply quiet_trans|]. split; [|eauto]. apply (fixed_trans _ ms1); [done|]. rewrite Hf2. by destruct ms1.
  - destruct (take_message_ok _ _ _ _ mr G Hmr) as (r & ms2 & -> & Hg & Hq2 & Hf2 & Hn). exists r, ms2. split; [done|]. split; [done|].
    split; [done|]. split; [|eauto]. rewrite Hf2. by destruct ms.
Qed.

Lemma well_current p ms i : well p ms -> 0 <= i <= mr_max ms -> well p (ms <| mr_current := i |>).
Proof.
  intros (mrs & rbs & Q & G) Hi. exists mrs, rbs, Q. split; try apply G. set_fields. split; [done|apply G].
Qed.

Lemma any_message_ok mrs rbs n : forall ms Q, good Counted ms mrs rbs Q -> Z.of_nat n <= mr_max ms + 1 ->
  exists r ms', any_message n ms = Some (r, ms') /\ got ms r ms' /\ quiet ms ms'.
Proof.
  induction n as [|n IH]; intros ms Q G Hn; [exists None, ms; split; [done|]; split; [exists mrs, rbs, Q; done|done]|]. cbn [any_message].
  destruct (slot_listed _ _ _ (Z.of_nat n) (g_mr _ _ _ _ _ G) ltac:(lia)) as (mr & -> & _ & Hmr). cbn [mbind option_bind].
  destruct (ring_alloc_ok ms mrs rbs Q mr true G Hmr) as (r & ms1 & -> & Hg & Hq & Hf & Hn1). cbn [mbind option_bind]. destruct r as [a|].
  - exists (Some a), (ms1 <| mr_current := Z.of_nat n |>). split; [done|]. destruct Hg as (? & ? & ?). split.
    + split; [|done]. apply well_current; [done|]. rewrite Hf. set_fields. lia.
    + eapply quiet_trans; [exact Hq|]. by apply quiet_msgs.
  - destruct (Hn1 eq_refl) as (Q1 & G1). destruct (IH ms1 Q1 G1) as (r & ms2 & -> & Hg2 & Hq2); [rewrite Hf; set_fields; lia|].
    exists r, ms2. split; [done|]. split; [by eapply got_quiet|by eapply quiet_trans].
Qed.

(** A new ring has a number of its own and is empty. *)
Lemma new_ring_ok sz ms : 0 <= sz ->
  match new_ring memory sz ms with
  | (None, ms') => ms' = ms <| creates := S (creates ms) |>
  | (Some q, ms') => q = creates ms /\ exists x, ms' = ms <| creates := S (creates ms) |> <| rings := <[q := x]> (rings ms) |>
      /\ inv x /\ closed x = false /\ live x = [] /\ write_offset x = data_start x
  end.
Proof.
  intros Hsz. unfold new_ring. destruct (memory (creates ms)); [|done]. destruct (fr_ring_buffer_create sz true) as [x|] eqn:E; [|done].
  split; [done|]. exists x. split; [done|]. pose proof E as (Hi & Hl & _)%create_inv; [|done]. split; [done|].
  revert E. unfold fr_ring_buffer_create. cbn [negb]. destruct (_ <? _); [done|]. intros [= <-]. done.
Qed.

Lemma good_creates p ms mrs rbs Q : good p ms mrs rbs Q -> good p (ms <| creates := S (creates ms) |>) mrs rbs Q.
Proof.
  intros G. split; set_fields; try apply G. destruct (g_ids _ _ _ _ _ G) as [? Hnew]. split; [done|]. intros r Hr. specialize (Hnew r Hr). lia.
Qed.

Lemma heads_nil k r Q : (forall a, a ∈ Q -> a.1 <> r) -> heads k r Q = [].
Proof.
  intros H. induction Q as [|a Q IH]; [done|]. cbn. rewrite decide_False by (apply H; left). apply IH. intros a' ?. apply H. by right.
Qed.

Lemma good_double ms mrs rbs Q q x : good Counted ms mrs rbs Q -> mr_max ms < 15 -> q = creates ms -> inv x -> closed x = false -> live x = [] ->
  write_offset x = data_start x ->
  good Counted (ms <| creates := S (creates ms) |> <| rings := <[q := x]> (rings ms) |> <| mr_max := mr_max ms + 1 |> <| mr_current := mr_max ms + 1 |>
    <| mr_array := <[Z.to_nat (mr_max ms + 1) := Some q]> (mr_array ms) |>) (mrs ++ [q]) rbs Q.
Proof.
  intros G Hm -> Hi Hc Hl Hw. destruct (g_ids _ _ _ _ _ G) as [Hnd Hnew]. destruct (g_current _ _ _ _ _ G) as [Hcur ?].
  assert (creates ms ∉ mrs ++ rbs) as Hq by (intros Hin%Hnew; lia). rewrite elem_of_app in Hq. destruct (g_queue _ _ _ _ _ G) as [Hnq HQ].
  split; set_fields; try apply G.
  - apply listed_push; [apply G|done].
  - split; [lia|done].
  - split.
    + rewrite <- app_assoc. cbn [app]. rewrite <- Permutation_middle. apply list.NoDup_cons. split; [by rewrite elem_of_app|done].
    + intros r. rewrite elem_of_app, elem_of_snoc. intros [[Hr| ->]|Hr]; [|lia|]; (assert (r < creates ms)%nat; [|lia]); apply Hnew, elem_of_app; auto.
  - intros r [Hr| ->]%elem_of_snoc.
    + rewrite lookup_insert_ne by (intros <-; tauto). by apply G.
    + rewrite lookup_insert_eq. exists x. split; [done|]. split; [split; [done|split; [done|lia]]|].
      rewrite heads_nil; [done|]. intros a Ha Hr. destruct (HQ a Ha) as [Hin _]. rewrite Hr in Hin. tauto.
  - intros r Hr. rewrite lookup_insert_ne by (intros <-; tauto). destruct (g_ring _ _ _ _ _ G r Hr) as (y & ? & ? & ? & ? & ?).
    exists y. repeat (split; [done|]). lia.
  - split; [done|]. intros a Ha. destruct (HQ a Ha) as [? ?]. split; [apply elem_of_snoc; auto|done].
Qed.

Lemma double_messages_ok ms mrs rbs Q : good Counted ms mrs rbs Q ->
  exists r ms', double_messages memory ms = Some (r, ms') /\ got ms r ms' /\ quiet ms ms'.
Proof.
  intros G. unfold double_messages. destruct (g_current _ _ _ _ _ G) as [Hcur _].
  destruct (Z.leb_spec MSG_ARRAY_SIZE (mr_max ms + 1)) as [|Hlt]; [exists None, ms; split; [done|]; split; [exists mrs, rbs, Q; done|done]|].
  destruct (slot_listed _ _ _ (mr_max ms) (g_mr _ _ _ _ _ G) ltac:(lia)) as (mr & -> & _ & Hmr). cbn [mbind option_bind].
  destruct (g_mring _ _ _ _ _ G mr Hmr) as (x & -> & _). cbn [mbind option_bind].
  assert (0 <= u64 (fr_ring_buffer_size x * 2)) as Hsz by (apply Z.mod_pos_bound; lia).
  pose proof (new_ring_ok (u64 (fr_ring_buffer_size x * 2)) ms Hsz) as Hn. destruct (new_ring memory _ ms) as [[q|] ms1].
  2: { subst ms1. eexists None, _. split; [done|]. split; [exists mrs, rbs, Q; by apply good_creates|by apply quiet_msgs]. }
  destruct Hn as (Hq & y & -> & Hi & Hc & Hl & Hw). set_fields.
  pose proof (good_double ms mrs rbs Q q y G ltac:(lia) Hq Hi Hc Hl Hw) as G1.
  destruct (ring_alloc_ok _ _ _ _ q false G1) as (r & ms2 & E & Hg & Hq2 & _ & _); [apply elem_of_snoc; auto|].
  exists r, ms2. split; [exact E|]. split; [eapply got_quiet; [|exact Hg]; by apply quiet_msgs|]. eapply quiet_trans; [|exact Hq2]. by apply quiet_msgs.
Qed.

Lemma good_count ms mrs rbs Q : good Idle ms mrs rbs Q -> allocated ms < INT_MAX -> good Counted (ms <| allocated := allocated ms + 1 |>) mrs rbs Q.
Proof.
  intros G Ha. split; set_fields; try apply G.
  - destruct (g_queue _ _ _ _ _ G) as [? HQ]. split; [done|]. intros a Hin. destruct (HQ a Hin) as (? & m & ? & ?). split; [done|].
    exists m. split; [done|]. by apply (message_ok_phase Idle).
  - pose proof (g_count _ _ _ _ _ G) as [? C]. cbn in *. lia.
  - done.
Qed.

Lemma well_idle ms : well Counted ms -> well Idle ms.
Proof.
  intros (mrs & rbs & Q & G). exists mrs, rbs, Q. split; try apply G.
  - destruct (g_queue _ _ _ _ _ G) as [? HQ]. split; [done|]. intros a Hin. destruct (HQ a Hin) as (? & m & ? & ?). split; [done|].
    exists m. split; [done|]. by apply (message_ok_phase Counted).
  - pose proof (g_count _ _ _ _ _ G) as [? C]. cbn in *. lia.
  - done.
Qed.

Lemma get_message_ok ms : well Idle ms -> allocated ms < INT_MAX ->
  exists r c ms', fr_message_get_message memory ms = Some (r, c, ms') /\ got ms r ms' /\ quiet (ms <| allocated := allocated ms + 1 |>) ms'.
Proof.
  intros (mrs & rbs & Q & G) Ha. unfold fr_message_get_message. destruct (Z.leb_spec INT_MAX (allocated ms)); [lia|]. cbn zeta.
  pose proof (good_count _ _ _ _ G Ha) as G0. set (ms0 := ms <| allocated := allocated ms + 1 |>) in *.
  assert (forall r ms', got ms0 r ms' -> got ms r ms') as Hg0 by (by intros [a|] ms').
  destruct (slot_listed _ _ _ (mr_current ms0) (g_mr _ _ _ _ _ G0) (proj1 (g_current _ _ _ _ _ G0))) as (mr & -> & _ & Hmr). cbn [mbind option_bind].
  destruct (take_message_ok _ _ _ _ mr G0 Hmr) as (r & ms1 & -> & Hg1 & Hq1 & _ & Hn1). cbn [mbind option_bind].
  destruct r as [a|]; [exists (Some a), false, ms1; split; [done|]; split; [by apply Hg0|done]|]. specialize (Hn1 eq_refl).
  destruct (fr_message_gc_ok _ _ _ _ _ 128 Hn1) as (ms2 & mrs2 & rbs2 & Q2 & -> & G2 & Hq2); [lia|]. cbn [mbind option_bind].
  pose proof (quiet_trans _ _ _ Hq1 Hq2) as Hq12.
  destruct (slot_listed _ _ _ (mr_current ms2) (g_mr _ _ _ _ _ G2) (proj1 (g_current _ _ _ _ _ G2))) as (mr2 & -> & _ & Hmr2). cbn [mbind option_bind].
  destruct (ring_alloc_ok _ _ _ _ mr2 true G2 Hmr2) as (r & ms3 & -> & Hg3 & Hq3 & _ & Hn3). cbn [mbind option_bind].
  pose proof (quiet_trans _ _ _ Hq12 Hq3) as Hq13.
  destruct r as [a|]; [exists (Some a), true, ms3; split; [done|]; split; [by apply Hg0, (got_quiet _ ms2)|done]|].
  destruct (Hn3 eq_refl) as (Q3 & G3).
  destruct (any_message_ok _ _ (Z.to_nat (mr_max ms3 + 1)) _ _ G3) as (r & ms4 & -> & Hg4 & Hq4); [destruct (g_current _ _ _ _ _ G3); lia|].
  cbn [mbind option_bind]. pose proof (quiet_trans _ _ _ Hq13 Hq4) as Hq14.
  destruct r as [a|]; [exists (Some a), true, ms4; split; [done|]; split; [by apply Hg0, (got_quiet _ ms3)|done]|].
  destruct Hg4 as (mrs4 & rbs4 & Q4 & G4). destruct (double_messages_ok _ _ _ _ G4) as (r & ms5 & -> & Hg5 & Hq5). cbn [mbind option_bind].
  exists r, true, ms5. split; [done|]. split; [by apply Hg0, (got_quiet _ ms4)|by eapply quiet_trans].
Qed.

(** ** Data *)

(** Nothing but message [a] and what is done changes. *)
Definition quiet_but (a : address) (ms ms' : fr_message_set_t) : Prop :=
  (forall a' m, a' <> a -> msgs ms !! a' = Some m -> status m = FR_MESSAGE_USED -> msgs ms' !! a' = Some m)
  /\ message_size ms' = message_size ms /\ max_allocation ms' = max_allocation ms /\ allocated ms' = allocated ms.

Lemma quiet_but_quiet a ms ms' : quiet ms ms' -> quiet_but a ms ms'.
Proof. intros [K ?]. split; [|done]. intros a' m _. apply K. Qed.
Lemma quiet_but_trans a ms1 ms2 ms3 : quiet_but a ms1 ms2 -> quiet_but a ms2 ms3 -> quiet_but a ms1 ms3.
Proof. intros (K1 & ? & ? & ?) (K2 & ? & ? & ?). split; [|split_and!; congruence]. intros a' m Hne Hm Hu. apply K2; [done| |done]. by apply K1. Qed.
Lemma quiet_but_set a m ms : quiet_but a ms (set_message a m ms).
Proof. split; [|done]. intros a' m' Hne Hm _. unfold set_message. set_fields. by rewrite lookup_insert_ne. Qed.

(** The message that is being allocated, with room for [n] bytes asked for. *)
Definition wants (a : address) (n : Z) (ms : fr_message_set_t) : Prop := exists m, msgs ms !! a = Some m /\ rb_size m = n.

(** It has room, which an allocation would find. *)
Definition ready (a : address) (n : Z) (ms : fr_message_set_t) : Prop :=
  exists m b p x, msgs ms !! a = Some m /\ rb_size m = n /\ rb m = Some b /\ data m = Some p /\ Some b ∈ rb_array ms /\ rings ms !! b = Some x
    /\ forall k, 0 <= k <= n -> exists y, fr_ring_buffer_alloc x k = Some (y, Some p).

Lemma held_bare M a m m' b Q : M !! a = Some m -> data_size m = 0 -> data_size m' = 0 -> held (<[a := m']> M) b Q = held M b Q.
Proof.
  intros Hm H1 H2. induction Q as [|a' Q IH]; [done|]. cbn. f_equal; [|exact IH]. destruct (decide (a' = a)) as [-> |].
  - rewrite (part_bare M b a m), (part_bare _ b a m'); [done|by rewrite lookup_insert_eq|done..].
  - unfold part. by rewrite lookup_insert_ne.
Qed.

(** The pending message changes to [m']. *)
Lemma good_set p a ms mrs rbs Q m' : good (Pending a) ms mrs rbs Q -> p <> Counted -> (forall a', p = Pending a' -> a' = a) ->
  data_size m' = 0 -> message_ok p rbs a m' -> good p (set_message a m' ms) mrs rbs Q.
Proof.
  intros G Hpc Hpa Hd Hok. destruct (g_pending _ _ _ _ _ G a eq_refl) as [Q' EQ]. assert (a ∈ Q) as Ha by (rewrite EQ; apply elem_of_snoc; auto).
  destruct (g_queue _ _ _ _ _ G) as [Hnd HQ]. destruct (HQ a Ha) as (_ & m & Hm & Hokm). destruct (mo_pend _ _ _ _ Hokm eq_refl) as [_ Hd0].
  unfold set_message. split; set_fields; try apply G.
  - intros r Hr. rewrite (held_bare _ a m) by done. by apply G.
  - split; [done|]. intros a' Ha'. destruct (HQ a' Ha') as (? & m1 & ? & ?). split; [done|]. destruct (decide (a' = a)) as [-> |Hne].
    + rewrite lookup_insert_eq. eauto.
    + rewrite lookup_insert_ne by done. exists m1. split; [done|]. apply (message_ok_phase (Pending a)); [congruence| |done].
      intros E. by apply Hne, Hpa.
  - intros a' m1 Hm1 Ha'. rewrite lookup_insert_ne in Hm1 by (intros <-; done). by apply (g_free _ _ _ _ _ G a').
  - pose proof (g_count _ _ _ _ _ G) as [? C]. cbn in C. destruct p; [cbn; lia|done|cbn; lia].
  - intros a' Ea. rewrite (Hpa a' Ea). eauto.
Qed.

(** A data ring changes without what is in use. *)
Lemma good_ring p ms mrs rbs Q b x x' : good p ms mrs rbs Q -> b ∈ rbs -> rings ms !! b = Some x -> inv x' -> closed x' = false -> live x' = live x ->
  good p (ms <| rings := <[b := x']> (rings ms) |>) mrs rbs Q.
Proof.
  intros G Hb Hx Hi Hc Hl. split; set_fields; try apply G.
  - intros r Hr. rewrite lookup_insert_ne; [by apply G|]. intros ->. destruct (g_ids _ _ _ _ _ G) as [Hni _].
    apply list.NoDup_app in Hni as (_ & Hd & _). by apply (Hd r).
  - intros r Hr. destruct (decide (b = r)) as [-> |]; [|rewrite lookup_insert_ne by done; by apply G].
    rewrite lookup_insert_eq. destruct (g_ring _ _ _ _ _ G r Hr) as (y & Hy & ? & ? & ? & ?). rewrite Hx in Hy. injection Hy as <-.
    exists x'. rewrite Hl. done.
Qed.

Lemma listed_elem max l ids r : listed max l ids -> r ∈ ids <-> Some r ∈ l.
Proof.
  intros (-> & _ & _). rewrite elem_of_app, list_elem_of_fmap. split; [eauto|].
  intros [(r' & [= <-] & ?)|[? ?]%elem_of_replicate]; done.
Qed.

Lemma reserve_in_ok a n i ms mrs rbs Q : good (Pending a) ms mrs rbs Q -> wants a n ms -> 0 <= n < 2 ^ 63 -> 0 <= i <= rb_max ms ->
  exists ok ms', reserve_in a i ms = Some (ok, ms') /\ good (Pending a) ms' mrs rbs Q /\ wants a n ms' /\ quiet_but a ms ms' /\ rb_max ms' = rb_max ms
    /\ (ok = true -> ready a n ms').
Proof.
  intros G (m & Hm & <-) Hn Hi. destruct (slot_listed _ _ _ i (g_rb _ _ _ _ _ G) Hi) as (r & Er & _ & Hr). unfold reserve_in. rewrite Er.
  cbn [mbind option_bind]. rewrite Hm. cbn [mbind option_bind]. destruct (g_ring _ _ _ _ _ G r Hr) as (x & Hx & Hix & Hcx & _). rewrite Hx. cbn [mbind option_bind].
  pose proof (reserve_spec x (rb_size m) Hix Hn) as P. destruct (closed_kept x (rb_size m) Hcx) as [Hck _].
  destruct (fr_ring_buffer_reserve x (rb_size m)) as [[x' p]|] eqn:E; [|done]. cbn [mbind option_bind]. destruct P as (Hi' & Hl' & _).
  destruct (g_queue _ _ _ _ _ G) as [_ HQ]. destruct (g_pending _ _ _ _ _ G a eq_refl) as [Q' EQ].
  destruct (HQ a) as (_ & m0 & Hm0 & Hok); [rewrite EQ; apply elem_of_snoc; auto|]. rewrite Hm in Hm0. injection Hm0 as <-.
  destruct (mo_pend _ _ _ _ Hok eq_refl) as [Hs Hd]. pose proof (good_ring _ _ _ _ _ _ _ x' G Hr Hx Hi' Hck Hl') as G1.
  eexists _, _. split; [done|]. split.
  { apply (good_set (Pending a) a); [done|done|by intros a' [= ->]|done|]. split; set_fields; [by left|done|by intros _ []|done]. }
  split; [eexists; unfold set_message; set_fields; rewrite lookup_insert_eq; done|].
  split; [eapply quiet_but_trans; [|apply quiet_but_set]; by apply quiet_but_quiet, quiet_msgs|]. split; [done|].
  intros Hp%bool_decide_eq_true. destruct p as [o|]; [|by destruct Hp]. eexists _, r, o, x'. unfold set_message. set_fields. rewrite !lookup_insert_eq.
  split; [done|]. split; [done|]. split; [done|]. split; [done|]. split; [by apply (listed_elem _ _ _ _ (g_rb _ _ _ _ _ G))|]. split; [done|].
  intros k Hk. by apply (alloc_reserved_room x (rb_size m)).
Qed.

Lemma reserve_any_ok a n k : forall ms mrs rbs Q, good (Pending a) ms mrs rbs Q -> wants a n ms -> 0 <= n < 2 ^ 63 -> Z.of_nat k <= rb_max ms + 1 ->
  exists ok ms', reserve_any k a ms = Some (ok, ms') /\ good (Pending a) ms' mrs rbs Q /\ wants a n ms' /\ quiet_but a ms ms' /\ (ok = true -> ready a n ms').
Proof.
  induction k as [|k IH]; intros ms mrs rbs Q G Hw Hn Hk; [exists false, ms; split; [done|]; split; [done|]; split; [done|]; split; [by apply quiet_but_quiet|done]|].
  cbn [reserve_any]. destruct (reserve_in_ok a n (Z.of_nat k) ms mrs rbs Q G Hw Hn ltac:(lia)) as (ok & ms1 & -> & G1 & Hw1 & Hq1 & Hm1 & Hr1).
  cbn [mbind option_bind]. destruct ok.
  - eexists _, _. split; [done|]. split; [apply good_current; [done|lia]|]. split; [done|].
    split; [eapply quiet_but_trans; [exact Hq1|]; by apply quiet_but_quiet, quiet_msgs|]. intros _. by apply Hr1.
  - destruct (IH ms1 mrs rbs Q G1 Hw1 Hn ltac:(lia)) as (ok & ms2 & -> & ? & ? & ? & ?). exists ok, ms2. split; [done|]. split; [done|]. split; [done|].
    split; [by eapply quiet_but_trans|done].
Qed.

(** How getting room for message [a] ends. *)
Definition ended (a : address) (n : Z) (r : option address) (ms' : fr_message_set_t) : Prop :=
  match r with
  | None => well Idle ms'
  | Some a' => a' = a /\ well (Pending a) ms' /\ ready a n ms'
  end.

Lemma give_up_ok a n ms mrs rbs Q : good (Pending a) ms mrs rbs Q ->
  exists r ms', give_up_message a ms = Some (r, ms') /\ ended a n r ms' /\ quiet_but a ms ms'.
Proof.
  intros G. destruct (g_queue _ _ _ _ _ G) as [_ HQ]. destruct (g_pending _ _ _ _ _ G a eq_refl) as [Q' EQ].
  destruct (HQ a) as (_ & m & Hm & Hok); [rewrite EQ; apply elem_of_snoc; auto|]. destruct (mo_pend _ _ _ _ Hok eq_refl) as [Hs Hd].
  unfold give_up_message. rewrite Hm. cbn [mbind option_bind]. eexists None, _. split; [done|]. split; [|apply quiet_but_set].
  exists mrs, rbs, Q. apply (good_set Idle a); [done|done|done|done|]. split; set_fields; [by right|done|done|done].
Qed.

Lemma good_double_rb p ms mrs rbs Q q x : good p ms mrs rbs Q -> rb_max ms < 15 -> q = creates ms -> inv x -> closed x = false -> live x = [] ->
  good p (ms <| creates := S (creates ms) |> <| rings := <[q := x]> (rings ms) |> <| rb_max := rb_max ms + 1 |> <| rb_current := rb_max ms + 1 |>
    <| rb_array := <[Z.to_nat (rb_max ms + 1) := Some q]> (rb_array ms) |>) mrs (rbs ++ [q]) Q.
Proof.
  intros G Hm -> Hi Hc Hl. destruct (g_ids _ _ _ _ _ G) as [Hnd Hnew]. destruct (g_current _ _ _ _ _ G) as [? Hcur].
  assert (creates ms ∉ mrs ++ rbs) as Hq by (intros Hin%Hnew; lia). rewrite elem_of_app in Hq. destruct (g_queue _ _ _ _ _ G) as [Hnq HQ].
  assert (held (msgs ms) (creates ms) Q = []) as Hheld.
  { clear -HQ Hq. induction Q as [|a Q IH]; [done|]. cbn. fold (held (msgs ms) (creates ms) Q). rewrite IH by (intros a' Ha'; apply HQ; by right). rewrite app_nil_r.
    destruct (HQ a ltac:(left)) as (_ & m & Hm & [_ _ _ Hd]). destruct (decide (data_size m = 0)) as [|Hnz]; [by apply (part_bare _ _ _ m)|].
    destruct (Hd Hnz) as (b & p' & Hb & Hin & _). apply (part_none _ _ _ m); [done|]. rewrite Hb. intros [= ->]. tauto. }
  split; set_fields; try apply G.
  - apply listed_push; [apply G|done].
  - split; [done|lia].
  - split.
    + rewrite app_assoc. rewrite <- Permutation_cons_append. apply list.NoDup_cons. split; [by rewrite elem_of_app|done].
    + intros r. rewrite elem_of_app, elem_of_snoc. intros [Hr|[Hr| ->]]; [| |lia]; (assert (r < creates ms)%nat; [|lia]); apply Hnew, elem_of_app; auto.
  - intros r Hr. rewrite lookup_insert_ne by (intros <-; tauto). by apply G.
  - intros r [Hr| ->]%elem_of_snoc.
    + rewrite lookup_insert_ne by (intros <-; tauto). by apply G.
    + rewrite lookup_insert_eq, Hheld. exists x. by rewrite Hl.
  - split; [done|]. intros a Ha. destruct (HQ a Ha) as (? & m & ? & [M1 M2 M3 M4]). split; [done|]. exists m. split; [done|]. split; try done.
    intros Hnz. destruct (M4 Hnz) as (b & p' & ? & ? & ? & ?). exists b, p'. split; [done|]. split; [apply elem_of_snoc; auto|done].
Qed.

Lemma alloc_rb_ok a n ms mrs rbs Q : good (Pending a) ms mrs rbs Q -> wants a n ms -> 0 <= n < 2 ^ 63 -> rb_max ms < 15 ->
  exists r ms', alloc_rb memory a ms = Some (r, ms') /\ ended a n r ms' /\ quiet_but a ms ms'.
Proof.
  intros G Hw Hn Hm. unfold alloc_rb. destruct (g_current _ _ _ _ _ G) as [_ Hcur].
  destruct (slot_listed _ _ _ (rb_max ms) (g_rb _ _ _ _ _ G) ltac:(lia)) as (b & -> & _ & Hb). cbn [mbind option_bind].
  destruct (g_ring _ _ _ _ _ G b Hb) as (x & -> & _). cbn [mbind option_bind].
  assert (0 <= u64 (fr_ring_buffer_size x * 2)) as Hsz by (apply Z.mod_pos_bound; lia).
  pose proof (new_ring_ok (u64 (fr_ring_buffer_size x * 2)) ms Hsz) as Hr. destruct (new_ring memory _ ms) as [[q|] ms1].
  2: { subst ms1. destruct (give_up_ok a n _ mrs rbs Q (good_creates _ _ _ _ _ G)) as (r & ms2 & -> & ? & Hq). exists r, ms2. split; [done|]. split; [done|].
       eapply quiet_but_trans; [|exact Hq]. by apply quiet_but_quiet, quiet_msgs. }
  destruct Hr as (Hq & y & -> & Hi & Hc & Hl & _). set_fields. pose proof (good_double_rb _ ms mrs rbs Q q y G Hm Hq Hi Hc Hl) as G1.
  set (ms1 := ms <| creates := _ |> <| rings := _ |> <| rb_max := _ |> <| rb_current := _ |> <| rb_array := _ |>) in *.
  assert (quiet_but a ms ms1) as Hq0 by (by apply quiet_but_quiet, quiet_msgs).
  destruct (reserve_in_ok a n (rb_max ms + 1) ms1 _ _ _ G1 Hw Hn) as (ok & ms2 & E & G2 & Hw2 & Hq2 & _ & Hr2); [unfold ms1; set_fields; lia|].
  rewrite E. cbn [mbind option_bind]. destruct ok.
  - exists (Some a), ms2. split; [done|]. split; [|by eapply quiet_but_trans]. split; [done|]. split; [eexists _, _, _; exact G2|by apply Hr2].
  - destruct (give_up_ok a n _ _ _ _ G2) as (r & ms3 & -> & ? & ?). exists r, ms3. split; [done|]. split; [done|].
    eapply quiet_but_trans; [exact Hq0|]. by eapply quiet_but_trans.
Qed.

Lemma wants_gc a n ms ms' mrs rbs Q : good (Pending a) ms mrs rbs Q -> wants a n ms -> quiet ms ms' -> wants a n ms'.
Proof.
  intros G (m & Hm & Hn) [K _]. exists m. split; [|done]. apply K; [done|]. destruct (g_pending _ _ _ _ _ G a eq_refl) as [Q' EQ].
  destruct (g_queue _ _ _ _ _ G) as [_ HQ]. destruct (HQ a) as (_ & m0 & Hm0 & Hok); [rewrite EQ; apply elem_of_snoc; auto|].
  rewrite Hm in Hm0. injection Hm0 as <-. by apply (mo_pend _ _ _ _ Hok).
Qed.

(** After both attempts failed. *)
Lemma reserve_last_ok a n ms mrs rbs Q : good (Pending a) ms mrs rbs Q -> wants a n ms -> 0 <= n < 2 ^ 63 ->
  exists r ms', ('(ok, ms) ← reserve_any (Z.to_nat (rb_max ms + 1)) a ms;
                 if ok : bool then Some (Some a, ms)
                 else if MSG_ARRAY_SIZE <=? rb_max ms + 1 then give_up_message a ms
                 else alloc_rb memory a ms) = Some (r, ms')
    /\ ended a n r ms' /\ quiet_but a ms ms'.
Proof.
  intros G Hw Hn. destruct (g_current _ _ _ _ _ G) as [_ Hcur].
  destruct (reserve_any_ok a n (Z.to_nat (rb_max ms + 1)) ms mrs rbs Q G Hw Hn) as (ok & ms1 & -> & G1 & Hw1 & Hq1 & Hr1); [lia|].
  cbn [mbind option_bind]. destruct ok.
  { exists (Some a), ms1. split; [done|]. split; [|done]. split; [done|]. split; [by exists mrs, rbs, Q|by apply Hr1]. }
  destruct (Z.leb_spec MSG_ARRAY_SIZE (rb_max ms1 + 1)) as [|Hlt].
  - destruct (give_up_ok a n _ _ _ _ G1) as (r & ms2 & -> & ? & ?). exists r, ms2. split; [done|]. split; [done|by eapply quiet_but_trans].
  - destruct (alloc_rb_ok a n _ _ _ _ G1 Hw1 Hn ltac:(lia)) as (r & ms2 & -> & ? & ?).
    exists r, ms2. split; [done|]. split; [done|by eapply quiet_but_trans].
Qed.

Lemma get_ring_buffer_ok a n cleaned ms mrs rbs Q : good (Pending a) ms mrs rbs Q -> wants a n ms -> 0 <= n < 2 ^ 63 ->
  exists r ms', fr_message_get_ring_buffer memory a cleaned ms = Some (r, ms') /\ ended a n r ms' /\ quiet_but a ms ms'.
Proof.
  intros G Hw Hn. unfold fr_message_get_ring_buffer.
  destruct (reserve_in_ok a n (rb_current ms) ms mrs rbs Q G Hw Hn (proj2 (g_current _ _ _ _ _ G))) as (ok & ms1 & -> & G1 & Hw1 & Hq1 & _ & Hr1).
  cbn [mbind option_bind]. destruct ok.
  { exists (Some a), ms1. split; [done|]. split; [|done]. split; [done|]. split; [by exists mrs, rbs, Q|by apply Hr1]. }
  destruct (negb cleaned && (rb_max ms1 =? 0)) eqn:Ec.
  { apply andb_true_iff in Ec as [_ Ez%Z.eqb_eq]. destruct (alloc_rb_ok a n _ _ _ _ G1 Hw1 Hn ltac:(lia)) as (r & ms2 & -> & ? & ?).
    exists r, ms2. split; [done|]. split; [done|by eapply quiet_but_trans]. }
  destruct cleaned; cbn [mbind option_bind].
  { destruct (reserve_last_ok a n _ _ _ _ G1 Hw1 Hn) as (r & ms2 & -> & ? & ?). exists r, ms2. split; [done|]. split; [done|by eapply quiet_but_trans]. }
  destruct (fr_message_gc_ok _ _ _ _ _ 128 G1) as (ms2 & mrs2 & rbs2 & Q2 & -> & G2 & Hq2); [lia|]. cbn [mbind option_bind].
  pose proof (wants_gc _ _ _ _ _ _ _ G1 Hw1 Hq2) as Hw2. pose proof (quiet_but_trans _ _ _ _ Hq1 (quiet_but_quiet a _ _ Hq2)) as Hq12.
  destruct (reserve_in_ok a n (rb_current ms2) ms2 mrs2 rbs2 Q2 G2 Hw2 Hn (proj2 (g_current _ _ _ _ _ G2))) as (ok & ms3 & -> & G3 & Hw3 & Hq3 & _ & Hr3).
  cbn [mbind option_bind]. pose proof (quiet_but_trans _ _ _ _ Hq12 Hq3) as Hq13. destruct ok.
  { exists (Some a), ms3. split; [done|]. split; [|done]. split; [done|]. split; [by exists mrs2, rbs2, Q2|by apply Hr3]. }
  destruct (reserve_last_ok a n _ _ _ _ G3 Hw3 Hn) as (r & ms4 & -> & ? & ?). exists r, ms4. split; [done|]. split; [done|by eapply quiet_but_trans].
Qed.

(** ** Reserving and allocating *)

Lemma CACHE_ALIGN_eq n : 0 <= n < 2 ^ 63 -> CACHE_ALIGN n = (n + 63) / 64 * 64.
Proof.
  intros Hn. unfold CACHE_ALIGN. rewrite u64_id by (unfold is_u64; lia). change 18446744073709551552 with (Z.ldiff (Z.ones 64) (Z.ones 6)).
  rewrite Z.ldiff_land, Z.land_assoc, (Z.land_ones (n + 63)), Z.mod_small, <- Z.ldiff_land, Z.ldiff_ones_r by lia.
  rewrite Z.shiftr_div_pow2, Z.shiftl_mul_pow2 by lia. done.
Qed.

Lemma CACHE_ALIGN_bounds n : 0 <= n < 2 ^ 63 -> n <= CACHE_ALIGN n < n + 64.
Proof. intros Hn. rewrite CACHE_ALIGN_eq by done. pose proof (Z.div_mod (n + 63) 64). pose proof (Z.mod_pos_bound (n + 63) 64). lia. Qed.

Lemma CACHE_ALIGN_mono k n : 0 <= k <= n -> n < 2 ^ 63 -> CACHE_ALIGN k <= CACHE_ALIGN n.
Proof. intros Hk Hn. rewrite !CACHE_ALIGN_eq by lia. apply Z.mul_le_mono_nonneg_r; [lia|]. apply Z.div_le_mono; lia. Qed.

(** One call: messages in use stay as they are, and at most one more is counted. *)
Definition progress (ms ms' : fr_message_set_t) : Prop :=
  kept ms ms' /\ message_size ms' = message_size ms /\ max_allocation ms' = max_allocation ms
  /\ allocated ms <= allocated ms' <= allocated ms + 1.

Lemma progress_quiet ms ms' : quiet ms ms' -> progress ms ms'.
Proof. intros (? & ? & ? & ?). split; [done|]. split; [done|]. split; [done|lia]. Qed.

(** Changes to a message that was not in use do not count. *)
Lemma progress_but ms ms1 ms2 a : progress ms ms1 -> fresh ms a -> quiet_but a ms1 ms2 -> progress ms ms2.
Proof.
  intros (K & ? & ? & ?) Hf (Q & ? & ? & ?). split; [|split_and!; [congruence|congruence|lia..]].
  intros a' m Hm Hu. apply Q; [intros ->; by apply (Hf m)| |done]. by apply K.
Qed.

Lemma reserve_ok n ms : well Idle ms -> allocated ms < INT_MAX -> 0 < n ->
  exists r ms', fr_message_reserve memory n ms = Some (r, ms') /\ progress ms ms'
    /\ match r with None => well Idle ms' | Some a => well (Pending a) ms' /\ ready a (CACHE_ALIGN n) ms' /\ fresh ms a /\ n <= max_allocation ms end.
Proof.
  intros W Ha Hn. unfold fr_message_reserve. destruct (Z.ltb_spec (max_allocation ms) n) as [|Hle].
  { exists None, ms. split; [done|]. split; [by apply progress_quiet|done]. }
  assert (max_allocation ms < 2 ^ 62) as Hmax by (destruct W as (? & ? & ? & G); apply (g_sizes _ _ _ _ _ G)).
  destruct (get_message_ok ms W Ha) as (r & c & ms1 & -> & Hg & (K & Hs1 & Hs2 & Hs3)). cbn [mbind option_bind].
  assert (progress ms ms1) as Hp1 by (split; [done|]; split; [done|]; split; [done|]; rewrite Hs3; set_fields; lia).
  destruct r as [a|]; [|exists None, ms1; split; [done|]; split; [done|by apply well_idle]].
  destruct Hg as ((mrs & rbs & Q & G) & Hnew & Hf). destruct (Z.eqb_spec n 0); [lia|]. rewrite Hnew. cbn [mbind option_bind].
  set (ms2 := set_message a _ ms1). pose proof (CACHE_ALIGN_bounds n ltac:(lia)).
  assert (good (Pending a) ms2 mrs rbs Q) as G2.
  { apply (good_set (Pending a) a); [done|done|by intros a' [= ->]|done|]. split; [by left|done|done|done]. }
  destruct (get_ring_buffer_ok a (CACHE_ALIGN n) c ms2 mrs rbs Q G2) as (r & ms3 & -> & He & Hq); [|lia|].
  { eexists. unfold ms2, set_message. set_fields. rewrite lookup_insert_eq. done. }
  assert (progress ms ms3) as Hp3.
  { eapply progress_but; [exact Hp1|exact Hf|]. eapply quiet_but_trans; [|exact Hq]. apply quiet_but_set. }
  exists r, ms3. split; [done|]. split; [done|]. destruct r as [a'|]; [|done]. destruct He as (-> & ? & ?). done.
Qed.

Lemma good_commit a ms mrs rbs Q m b p x y k n : good (Pending a) ms mrs rbs Q -> msgs ms !! a = Some m -> rb m = Some b -> b ∈ rbs ->
  data m = Some p -> rings ms !! b = Some x -> fr_ring_buffer_alloc x k = Some (y, Some p) -> 0 < k < 2 ^ 63 -> n <> 0 -> n <= k ->
  good Idle (set_message a (m <| data_size := n |> <| rb_size := k |>) (ms <| rings := <[b := y]> (rings ms) |>)) mrs rbs Q.
Proof.
  intros G Hm Hb Hbin Hp Hx Hy Hk Hn Hnk. destruct (g_pending _ _ _ _ _ G a eq_refl) as [Q' EQ].
  destruct (g_queue _ _ _ _ _ G) as [Hnd HQ]. assert (a ∈ Q) as Ha by (rewrite EQ; apply elem_of_snoc; auto).
  assert (a ∉ Q') as Ha'.
  { rewrite EQ in Hnd. apply list.NoDup_app in Hnd as (_ & Hd & _). intros Hin. apply (Hd a Hin). by apply list_elem_of_singleton. }
  destruct (HQ a Ha) as (_ & m0 & Hm0 & Hok). rewrite Hm in Hm0. injection Hm0 as <-. destruct (mo_pend _ _ _ _ Hok eq_refl) as [Hs Hd0].
  destruct (g_ring _ _ _ _ _ G b Hbin) as (x0 & Hx0 & Hi & Hc & _). rewrite Hx in Hx0. injection Hx0 as <-.
  pose proof (alloc_spec x k Hi ltac:(lia)) as P. rewrite Hy in P. destruct P as [Hi' Hl']. destruct (closed_kept x k Hc) as [_ Hc']. rewrite Hy in Hc'.
  set (m' := m <| data_size := n |> <| rb_size := k |>).
  assert (forall r, held (<[a := m']> (msgs ms)) r Q = held (msgs ms) r Q ++ part (<[a := m']> (msgs ms)) r a) as Hheld.
  { intros r. rewrite EQ, !held_app, held_insert by done. cbn. rewrite (part_bare (msgs ms) r a m), !app_nil_r by done. done. }
  unfold set_message. fold m'. split; set_fields; try apply G.
  - intros r Hr. rewrite lookup_insert_ne; [by apply G|]. intros ->. destruct (g_ids _ _ _ _ _ G) as [Hni _].
    apply list.NoDup_app in Hni as (_ & Hd & _). by apply (Hd r).
  - intros r Hr. rewrite Hheld. destruct (decide (b = r)) as [-> |Hne].
    + rewrite lookup_insert_eq. destruct (g_ring _ _ _ _ _ G r Hr) as (x1 & Hx1 & _ & _ & Hlen & Hord). rewrite Hx in Hx1. injection Hx1 as <-.
      rewrite (part_data _ r a m' p); [|by rewrite lookup_insert_eq|done..]. exists y. split; [done|]. split; [done|]. split; [done|].
      cbn [m' rb_size upd]. rewrite Hl', !length_app, Hlen. split; [done|]. intros Hz. by rewrite (Hord Hz).
    + rewrite lookup_insert_ne by done. rewrite (part_none _ r a m'), app_nil_r; [by apply G|by rewrite lookup_insert_eq|].
      cbn [m' rb upd]. rewrite Hb. congruence.
  - split; [done|]. intros a' Hin. destruct (HQ a' Hin) as (? & m1 & ? & ?). split; [done|]. destruct (decide (a' = a)) as [-> |Hne].
    + rewrite lookup_insert_eq. exists m'. split; [done|]. split; [by left|done|by intros|]. intros _. exists b, p. done.
    + rewrite lookup_insert_ne by done. exists m1. split; [done|]. apply (message_ok_phase (Pending a)); [congruence|done|done].
  - intros a' m1 Hm1 Hin. rewrite lookup_insert_ne in Hm1 by (intros <-; done). by apply (g_free _ _ _ _ _ G a').
  - done.
Qed.

Lemma alloc_reserved_ok a n k ms : well (Pending a) ms -> ready a n ms -> 0 <= k -> CACHE_ALIGN k <= n < 2 ^ 63 -> k < 2 ^ 62 ->
  exists ms', alloc_reserved a k ms = Some (Some a, ms') /\ well Idle ms' /\ quiet_but a ms ms'.
Proof.
  intros (mrs & rbs & Q & G) (m & b & p & x & Hm & Hn & Hb & Hp & Hin & Hx & Hroom) Hk Hkn Hk2. pose proof (CACHE_ALIGN_bounds k ltac:(lia)) as Hal.
  destruct (g_pending _ _ _ _ _ G a eq_refl) as [Q' EQ]. destruct (g_queue _ _ _ _ _ G) as [_ HQ].
  destruct (HQ a) as (_ & m0 & Hm0 & Hok); [rewrite EQ; apply elem_of_snoc; auto|]. rewrite Hm in Hm0. injection Hm0 as <-.
  destruct (mo_pend _ _ _ _ Hok eq_refl) as [Hs Hd]. apply (listed_elem _ _ _ _ (g_rb _ _ _ _ _ G)) in Hin.
  unfold alloc_reserved. rewrite Hm. cbn [mbind option_bind]. rewrite bool_decide_true by done. cbn [negb]. rewrite Hb, Hp, Hd. cbn [mbind option_bind Z.eqb negb].
  destruct (Z.ltb_spec (rb_size m) k); [lia|]. destruct (Z.eqb_spec k 0) as [-> |Hnz].
  - eexists. split; [done|]. split; [|apply quiet_but_set]. exists mrs, rbs, Q.
    apply (good_set Idle a); [done|done|done|done|]. split; set_fields; [by left|done|done|done].
  - destruct (Hroom (CACHE_ALIGN k) ltac:(lia)) as [y Hy]. unfold take_data. rewrite Hx. cbn [mbind option_bind]. rewrite Hy. cbn [mbind option_bind].
    rewrite Z.eqb_refl. cbn [mbind option_bind]. eexists. split; [done|]. split.
    + exists mrs, rbs, Q. eapply (good_commit a ms mrs rbs Q m b p x y); eauto; lia.
    + eapply quiet_but_trans; [|apply quiet_but_set]. by apply quiet_but_quiet, quiet_msgs.
Qed.
End Alloc.
End MessageAlloc.
