(* ===== verification/MessageSpec.v ===== *)
(** What message sets (Message) promise: no call of a user fails an assertion or
    follows a pointer to a ring that is gone, and the bytes in use are those of
    the messages. With one message ring no two messages share data; with two they
    can. *)

From stdpp Require Import gmap.
From S2P Require Import Prelude RingBuffer Message MessageRings MessageInv MessageGc MessageAlloc.

Module MessageSpec.
Import RingBuffer Message MessageRings MessageInv MessageGc MessageAlloc.

(** ** A new set *)

Lemma good_new k n r q x y : 64 <= k <= 1024 -> 0 <= n < 2 ^ 62 -> r <> q -> inv x -> closed x = false -> live x = [] ->
  inv y -> closed y = false -> live y = [] -> write_offset y = data_start y -> (r < 2)%nat -> (q < 2)%nat ->
  good Idle (MkSet 0 0 k 0 0 n 0 0 (<[0%nat := Some q]> (replicate 16 None)) (<[0%nat := Some r]> (replicate 16 None))
    (<[q := y]> (<[r := x]> ∅)) ∅ 2) [q] [r] [].
Proof.
  intros Hk Hn Hrq Hix Hcx Hlx Hiy Hcy Hly Hw Hr Hq. split; set_fields; try done.
  - split; [done|cbn; lia].
  - split; [done|cbn; lia].
  - split; [apply list.NoDup_cons; split; [rewrite list_elem_of_singleton; congruence|apply NoDup_singleton]|].
    intros r' Hr'. rewrite elem_of_app, !list_elem_of_singleton in Hr'. destruct Hr' as [-> | ->]; lia.
  - intros r' ->%list_elem_of_singleton. rewrite lookup_insert_eq. exists y. split; [done|]. split; [split; [done|split; [done|lia]]|done].
  - intros r' ->%list_elem_of_singleton. rewrite lookup_insert_ne, lookup_insert_eq by done. exists x. by rewrite Hlx.
  - split; [constructor|]. intros a []%elem_of_nil.
Qed.

Section Spec.
Context (memory : nat -> bool).

Lemma create_ok num size rb_sz ms : num <= INT_MAX -> 0 <= rb_sz -> fr_message_set_create memory num size rb_sz = Some ms ->
  well Idle ms /\ allocated ms = 0.
Proof.
  intros Hnum Hrb. unfold fr_message_set_create. set (n := if num <? 8 then 8 else num). destruct (negb _); [done|].
  destruct (Z.ltb_spec size sizeof_message) as [|H1]; [done|]. destruct (Z.ltb_spec 1024 size) as [|H2]; [done|]. unfold sizeof_message in H1. cbn zeta.
  set (ms0 := MkSet _ _ _ _ _ _ _ _ _ _ _ _ _).
  assert (64 <= CACHE_ALIGN size <= 1024) as Hsz by (rewrite CACHE_ALIGN_eq by lia; pose proof (Z.div_mod (size + 63) 64); pose proof (Z.mod_pos_bound (size + 63) 64); lia).
  assert (rb_sz < 2 ^ 63 \/ new_ring memory rb_sz ms0 = (None, ms0 <| creates := S (creates ms0) |>)) as [Hsmall|E].
  { destruct (Z.lt_ge_cases rb_sz (2 ^ 63)); [by left|right]. unfold new_ring, fr_ring_buffer_create. destruct (memory _); [|done]. cbn [negb].
    destruct (Z.ltb_spec rb_sz 1024); [lia|]. destruct (Z.ltb_spec (Z.shiftl 1 30) rb_sz) as [|Hl]; [done|]. change (Z.shiftl 1 30) with (2 ^ 30) in Hl. lia. }
  2: by rewrite E.
  pose proof (new_ring_ok memory rb_sz ms0 Hrb) as P. destruct (new_ring memory rb_sz ms0) as [[r|] ms1]; [|done].
  destruct P as (Hr & x & -> & Hix & Hcx & Hlx & _). set (ms1 := ms0 <| creates := _ |> <| rings := _ |> <| rb_array := _ |>).
  assert (0 <= u64 (n * CACHE_ALIGN size)) as Hsz2 by (apply Z.mod_pos_bound; lia).
  pose proof (new_ring_ok memory _ ms1 Hsz2) as P. destruct (new_ring memory _ ms1) as [[q|] ms2]; [|done].
  destruct P as (Hq & y & -> & Hiy & Hcy & Hly & Hw). intros [= <-]. split; [|done].
  exists [q], [r], []. apply (good_new (CACHE_ALIGN size) (rb_sz / 2) r q x y); try done.
  - split; [apply Z.div_pos; lia|]. apply Z.div_lt_upper_bound; lia.
  - rewrite Hr, Hq. done.
  - rewrite Hr. cbn. lia.
  - rewrite Hq. cbn. lia.
Qed.

(** ** One call *)

Lemma good_done a m ms mrs rbs Q : good Idle ms mrs rbs Q -> msgs ms !! a = Some m -> status m = FR_MESSAGE_USED ->
  good Idle (set_message a (m <| status := FR_MESSAGE_DONE |>) ms) mrs rbs Q.
Proof.
  intros G Hm Hs. destruct (g_queue _ _ _ _ _ G) as [Hnd HQ].
  assert (a ∈ Q) as Ha by (destruct (decide (a ∈ Q)) as [|Hn]; [done|]; pose proof (g_free _ _ _ _ _ G a m Hm Hn); congruence).
  set (m' := m <| status := FR_MESSAGE_DONE |>).
  assert (forall b, held (<[a := m']> (msgs ms)) b Q = held (msgs ms) b Q) as Hheld.
  { intros b. apply flat_map_ext. intros a'. unfold part. destruct (decide (a' = a)) as [-> |]; [by rewrite lookup_insert_eq, Hm|by rewrite lookup_insert_ne]. }
  unfold set_message. split; set_fields; try apply G.
  - intros r Hr. rewrite Hheld. by apply G.
  - split; [done|]. intros a' Ha'. destruct (HQ a' Ha') as (? & m1 & Hm1 & Hok). split; [done|]. destruct (decide (a' = a)) as [-> |].
    + rewrite lookup_insert_eq. exists m'. split; [done|]. rewrite Hm in Hm1. injection Hm1 as <-. destruct Hok as [M1 M2 M3 M4].
      split; [by right|done|exact M3|exact M4].
    + rewrite lookup_insert_ne by done. eauto.
  - intros a' m1 Hm1 Ha'. rewrite lookup_insert_ne in Hm1 by (intros <-; done). by apply (g_free _ _ _ _ _ G a').
Qed.

(** The calls that end the use of a message. *)
Lemma finish_ok a m m' ms : well Idle ms -> msgs ms !! a = Some m -> m' = m \/ (status m = FR_MESSAGE_USED /\ m' = m <| status := FR_MESSAGE_DONE |>) ->
  well Idle (set_message a m' ms).
Proof.
  intros (mrs & rbs & Q & G) Hm [-> |[Hs ->]]; exists mrs, rbs, Q; [|by apply good_done].
  replace (set_message a m ms) with ms; [done|]. unfold set_message. rewrite insert_id by done. by destruct ms.
Qed.

Lemma commit_ok n k ms a ms1 : well (Pending a) ms1 -> ready a (CACHE_ALIGN n) ms1 -> fresh ms a -> n <= max_allocation ms -> max_allocation ms < 2 ^ 62 ->
  0 <= k <= n -> progress ms ms1 ->
  exists ms2, alloc_reserved a k ms1 = Some (Some a, ms2) /\ well Idle ms2 /\ progress ms ms2.
Proof.
  intros W Hr Hf Hn Hmax Hk Hp. pose proof (CACHE_ALIGN_mono k n ltac:(lia) ltac:(lia)). pose proof (CACHE_ALIGN_bounds n ltac:(lia)).
  destruct (alloc_reserved_ok a (CACHE_ALIGN n) k ms1 W Hr) as (ms2 & E & W2 & Hq); [lia..|].
  exists ms2. split; [done|]. split; [done|]. by eapply progress_but.
Qed.

Lemma step_ok c ms : well Idle ms -> allocated ms < INT_MAX -> allowed c ms = true ->
  exists ms', step memory c ms = Some ms' /\ well Idle ms' /\ allocated ms' <= allocated ms + 1
    /\ forall a m, msgs ms !! a = Some m -> status m = FR_MESSAGE_USED -> ends c a = false -> msgs ms' !! a = Some m.
Proof.
  intros W Ha Hc. assert (max_allocation ms < 2 ^ 62) as Hmax by (destruct W as (? & ? & ? & G); apply (g_sizes _ _ _ _ _ G)).
  assert (forall ms', progress ms ms' -> allocated ms' <= allocated ms + 1
    /\ forall a m, msgs ms !! a = Some m -> status m = FR_MESSAGE_USED -> ends c a = false -> msgs ms' !! a = Some m) as Hpr.
  { intros ms' (K & _ & _ & ?). split; [lia|]. intros a m Hm Hu _. by apply K. }
  assert (forall a m', ends c a = true -> allocated (set_message a m' ms) <= allocated ms + 1
    /\ forall a' m, msgs ms !! a' = Some m -> status m = FR_MESSAGE_USED -> ends c a' = false -> msgs (set_message a m' ms) !! a' = Some m) as Hset.
  { intros a m' He. split; [unfold set_message; set_fields; lia|]. intros a' m Hm _ He'. unfold set_message. set_fields.
    rewrite lookup_insert_ne; [done|]. intros <-. congruence. }
  destruct c as [n|n k|a|a n cp|]; cbn [allowed] in Hc; cbn [step].
  - apply Z.ltb_lt in Hc. cbn [fr_message_alloc]. destruct (reserve_ok memory n ms W Ha Hc) as ([a|] & ms1 & -> & Hp & Hr); cbn [mbind option_bind].
    + destruct Hr as (W1 & Hr & Hf & Hn). destruct (commit_ok n n ms a ms1 W1 Hr Hf Hn Hmax ltac:(lia) Hp) as (ms2 & -> & W2 & Hp2).
      exists ms2. split; [done|]. split; [done|by apply Hpr].
    + exists ms1. split; [done|]. split; [done|by apply Hpr].
  - rewrite !andb_true_iff, Z.ltb_lt, !Z.leb_le in Hc. destruct Hc as [[Hn Hk] Hkn].
    destruct (reserve_ok memory n ms W Ha Hn) as ([a|] & ms1 & -> & Hp & Hr); cbn [mbind option_bind fr_message_alloc].
    + destruct Hr as (W1 & Hr & Hf & Hle). destruct (commit_ok n k ms a ms1 W1 Hr Hf Hle Hmax ltac:(lia) Hp) as (ms2 & -> & W2 & Hp2).
      exists ms2. split; [done|]. split; [done|by apply Hpr].
    + exists ms1. split; [done|]. split; [done|by apply Hpr].
  - destruct (msgs ms !! a) as [m|] eqn:Em; [|done]. apply bool_decide_eq_true in Hc. cbn [mbind option_bind]. unfold fr_message_done. rewrite Hc.
    cbn [mbind option_bind]. eexists. split; [done|]. split; [by apply (finish_ok a m); auto|]. apply Hset. by apply bool_decide_eq_true.
  - apply bool_decide_eq_true in Hc as [m Em]. rewrite Em. cbn [mbind option_bind]. eexists. split; [done|].
    split; [apply (finish_ok a m); [done|done|]|apply Hset; by apply bool_decide_eq_true]. unfold fr_message_localize.
    destruct (bool_decide_reflect (status m = FR_MESSAGE_USED)); cbn [negb]; [|by left]. destruct (n <=? sizeof_message); [by left|]. destruct cp; [by right|by left].
  - destruct W as (mrs & rbs & Q & G). destruct (fr_message_set_gc_ok _ _ _ _ _ G) as (ms' & mrs' & rbs' & Q' & E & G' & Hq).
    exists ms'. split; [done|]. split; [by exists mrs', rbs', Q'|]. by apply Hpr, progress_quiet.
Qed.

Lemma reachable_ok n ms : reachable memory n ms -> Z.of_nat n <= INT_MAX -> well Idle ms /\ allocated ms <= Z.of_nat n.
Proof.
  induction 1 as [num size rb_sz ms Hn Hr E|n ms c ms' _ IH Ha E]; intros Hb.
  - destruct (create_ok _ _ _ _ Hn Hr E). split; [done|lia].
  - destruct IH as [W Hc]; [lia|]. destruct (step_ok c ms W ltac:(lia) Ha) as (ms2 & E2 & W2 & Hc2 & _). rewrite E in E2. injection E2 as <-.
    split; [done|lia].
Qed.

(** ** Properties *)

Definition in_use (ms : fr_message_set_t) (a : address) : Prop := exists m, msgs ms !! a = Some m /\ status m <> FR_MESSAGE_FREE.

(** The bytes that message [a] holds of ring [b]. *)
Definition holds (ms : fr_message_set_t) (b : nat) (a : address) : Z :=
  match msgs ms !! a with
  | Some m => if decide (rb m = Some b) then rb_size m else 0
  | None => 0
  end.

Lemma good_in_use ms mrs rbs Q a : good Idle ms mrs rbs Q -> a ∈ Q <-> in_use ms a.
Proof.
  intros G. split.
  - intros Ha. destruct (g_queue _ _ _ _ _ G) as [_ HQ]. destruct (HQ a Ha) as (_ & m & Hm & Hok). exists m. split; [done|].
    by destruct (mo_status _ _ _ _ Hok) as [-> | ->].
  - intros (m & Hm & Hs). destruct (decide (a ∈ Q)) as [|Hn]; [done|]. by destruct (Hs (g_free _ _ _ _ _ G a m Hm Hn)).
Qed.

Lemma held_length ms mrs rbs Q b : good Idle ms mrs rbs Q -> Z.of_nat (length (held (msgs ms) b Q)) = foldr Z.add 0 (holds ms b <$> Q).
Proof.
  intros G. destruct (g_queue _ _ _ _ _ G) as [_ HQ]. assert (forall a, a ∈ Q -> Z.of_nat (length (part (msgs ms) b a)) = holds ms b a) as Hp.
  { intros a Ha. destruct (HQ a Ha) as (_ & m & Hm & Hok). unfold holds. rewrite Hm. destruct (decide (rb m = Some b)) as [Hb|Hb].
    - destruct (decide (data_size m = 0)) as [Hz|Hz]; [rewrite (mo_bare _ _ _ _ Hok Hz) in Hb by done; done|].
      destruct (mo_data _ _ _ _ Hok Hz) as (b' & p & _ & _ & Hp & ? & _). rewrite (part_data _ b a m p) by done. rewrite length_seqZ. lia.
    - by rewrite (part_none _ b a m). }
  clear -Hp. induction Q as [|a Q IH]; [done|]. cbn. rewrite length_app, Nat2Z.inj_add, Hp by left. f_equal. apply IH. intros a' ?. apply Hp. by right.
Qed.


Lemma held_disjoint M b Q a1 a2 x : NoDup (held M b Q) -> a1 ∈ Q -> a2 ∈ Q -> a1 <> a2 -> x ∈ part M b a1 -> x ∉ part M b a2.
Proof.
  intros Hnd H1 H2 Hne Hx1 Hx2. apply list_elem_of_split in H1 as (Q1 & Q2 & ->). rewrite held_app in Hnd. cbn in Hnd.
  assert (forall Q, a2 ∈ Q -> x ∈ held M b Q) as Hin by (intros Q ?; apply list_elem_of_In, in_flat_map; exists a2; by rewrite <- !list_elem_of_In).
  apply list.NoDup_app in Hnd as (_ & Hd1 & (_ & Hd2 & _)%list.NoDup_app).
  rewrite elem_of_app, list.elem_of_cons in H2. destruct H2 as [H2|[H2|H2]]; [|done|].
  - apply (Hd1 x (Hin _ H2)). apply elem_of_app. by left.
  - by apply (Hd2 x Hx1), Hin.
Qed.


(** Running calls from a new set stays in the states that can be reached. *)
Lemma run_reachable cs : forall n ms ms', reachable memory n ms -> run memory cs ms = Some ms' -> reachable memory (n + length cs) ms'.
Proof.
  induction cs as [|c cs IH]; intros n ms ms' Hr E; cbn in E.
  - injection E as <-. by rewrite Nat.add_0_r.
  - destruct (allowed c ms) eqn:Ea.
    + destruct (step memory c ms) as [ms1|] eqn:Es.
      * replace (n + length (c :: cs))%nat with (S n + length cs)%nat by (cbn; lia). apply (IH _ ms1); [by eapply reach_step|exact E].
      * exfalso. clear -E. induction cs; [done|auto].
    + exfalso. clear -E. induction cs; [done|auto].
Qed.
End Spec.

(** ** Runs *)

(** The set after [cs], with memory for every ring. *)
Definition session (num rb_sz : Z) (cs : list call) : option fr_message_set_t :=
  ms ← fr_message_set_create (fun _ => true) num 48 rb_sz;
  run (fun _ => true) cs ms.

Lemma session_reachable num rb_sz cs ms : num <= INT_MAX -> 0 <= rb_sz -> session num rb_sz cs = Some ms -> reachable (fun _ => true) (length cs) ms.
Proof.
  intros Hn Hr. unfold session. destruct (fr_message_set_create _ _ _ _) as [ms0|] eqn:E; [|done]. cbn [mbind option_bind].
  intros H. apply (run_reachable _ cs 0 ms0); [by eapply reach_create|done].
Qed.

(** Three messages; the first is done, the second was reserved with more room than
    it needs. *)
Definition small_run : list call := [Alloc 100; Reserve 500 70; Alloc 10; Done (1%nat, 0)].

Lemma session_lookup num rb_sz cs ms a : session num rb_sz cs = Some ms -> msgs ms !! a = (ms ← session num rb_sz cs; msgs ms !! a).
Proof. by intros ->. Qed.



(** Sixteen messages fill the first message ring, the next one goes to a second
    ring and is done at once. *)
Definition sharing_run : list call :=
  replicate 16 (Alloc 64) ++ [Alloc 128; Done (2%nat, 0)] ++ replicate 32 (Alloc 64) ++ [Alloc 832; Alloc 64; Alloc 64].


(** The sixteen messages of the first ring are done before the next one. *)
Definition done_run : list call :=
  replicate 16 (Alloc 64) ++ ((fun i => Done (1%nat, 64 * i)) <$> seqZ 0 16) ++ [Alloc 64].

(** A full message ring all of whose messages are done is emptied by the
    collection and then not used, since it is only used after one more message of
    it was cleaned: the next message makes a ring of twice the size and leaves the
    first one empty. *)
Theorem message_ring_doubled_when_empty :
  exists ms r x, session 8 4096 done_run = Some ms /\ mr_max ms = 1 /\ fr_message_set_messages_used ms = Some 1
    /\ slot (mr_array ms) 0 = Some r /\ rings ms !! r = Some x /\ fr_ring_buffer_used x = Some 0 /\ fr_ring_buffer_size x = 1024.
Proof.
  assert ((ms ← session 8 4096 done_run; r ← slot (mr_array ms) 0; x ← rings ms !! r; Some (mr_max ms, fr_message_set_messages_used ms, r, x))
    = Some (1, Some 1, 1%nat, MkRing 1024 0 0 0 0 false)) as H by (vm_compute; reflexivity).
  destruct (session 8 4096 done_run) as [ms|]; [|done]. cbn [mbind option_bind] in H.
  destruct (slot (mr_array ms) 0) as [r|] eqn:E1; [|done]. cbn [mbind option_bind] in H. destruct (rings ms !! r) as [x|] eqn:E2; [|done].
  cbn [mbind option_bind] in H. injection H as H1 H2 H3 H4. exists ms, r, x. subst. done.
Qed.

(** A message of 512 bytes, and another 512 reserved of which 64 are a packet and
    64 the start of the next one, which goes to a new ring. *)
Definition partial_run : option fr_message_set_t :=
  let memory := fun _ => true in
  ms ← session 8 1024 [Alloc 512];
  '(a, ms) ← fr_message_reserve memory 512 ms; a ← a;
  '(a2, ms) ← fr_message_alloc_reserve memory a 64 64 512 ms; a2 ← a2;
  '(a3, ms) ← fr_message_alloc_reserve memory a2 64 0 64 ms; a3 ← a3;
  '(_, ms) ← fr_message_alloc memory (Some a3) 64 ms;
  run memory [Done (1%nat, 0); Done a; Done a2; Done a3; Gc] ms.

(** A message whose next one moved to another ring is charged with all that
    was reserved for it, of which the ring gave out one part. When it is cleaned,
    the ring refuses to free so much, and the part stays in use when no message is
    left. *)
Theorem message_partial_leaks :
  exists ms b x, partial_run = Some ms /\ fr_message_set_messages_used ms = Some 0
    /\ slot (rb_array ms) 0 = Some b /\ rings ms !! b = Some x /\ fr_ring_buffer_used x = Some 64.
Proof.
  assert ((ms ← partial_run; r ← slot (rb_array ms) 0; x ← rings ms !! r; Some (fr_message_set_messages_used ms, fr_ring_buffer_used x))
    = Some (Some 0, Some 64)) as H by (vm_compute; reflexivity).
  destruct partial_run as [ms|]; [|done]. cbn [mbind option_bind] in H.
  destruct (slot (rb_array ms) 0) as [r|] eqn:E1; [|done]. cbn [mbind option_bind] in H. destruct (rings ms !! r) as [x|] eqn:E2; [|done].
  cbn [mbind option_bind] in H. injection H as H1 H2. exists ms, r, x. done.
Qed.
End MessageSpec.
