(* ===== verification/AtomicQueue.v ===== *)
(** The bounded queue for many producers and consumers of src/lib/io/atomic_queue.c.
    Every access to shared memory is one step of one thread and steps of any
    number of threads interleave (sequentially consistent memory). Indices and
    sequence numbers are unbounded: 2^63 operations do not happen. The queue is
    shown to be linearizable when it has at least two entries, and not to work
    with one. *)

From S2P Require Import Prelude.

Module AtomicQueue.
Section AtomicQueue.
Context {A : Type}.

(** Where a thread is, with its local variables. *)
Inductive local :=
  | Idle
  | PushLoad (data : A)                   (* head = load(aq->head) *)
  | PushSeq (data : A) (head : nat)       (* seq = aquire(entry->seq) *)
  | PushCas (data : A) (head : nat)       (* cas_incr(aq->head, head) *)
  | PushData (data : A) (head : nat)      (* entry->data = data *)
  | PushStore (data : A) (head : nat)     (* store(entry->seq, head + 1) *)
  | PopLoad                               (* tail = load(aq->tail) *)
  | PopSeq (tail : nat)                   (* seq = aquire(entry->seq) *)
  | PopCas (tail : nat)                   (* cas_incr(aq->tail, tail) *)
  | PopData (tail : nat)                  (* *p_data = entry->data *)
  | PopStore (tail : nat) (x : option A). (* store(entry->seq, tail + aq->size) *)

(** [pushed] is a history variable: what was pushed, in the order of the head
    indices that were taken. *)
Record fr_atomic_queue_t := MkAq {
  head : nat;
  tail : nat;
  size : nat;
  seqs : list nat;
  datas : list (option A);
  threads : nat -> local;
  pushed : list A }.

(** What a step tells the outside: an index was taken, or an operation returns. *)
Inductive event :=
  | Enq (data : A)
  | Deq
  | RetPush (ok : bool)
  | RetPop (x : option (option A)).

Definition fr_atomic_queue_alloc (size : nat) : option fr_atomic_queue_t :=
  if (size =? 0)%nat then None
  else Some (MkAq 0 0 size (seq 0 size) (replicate size None) (fun _ => Idle) []).

Definition fr_atomic_queue_size (aq : fr_atomic_queue_t) : nat := size aq.

Definition upd (f : nat -> local) (i : nat) (x : local) : nat -> local := fun j => if (j =? i)%nat then x else f j.

Definition goto (aq : fr_atomic_queue_t) (i : nat) (x : local) : fr_atomic_queue_t :=
  MkAq (head aq) (tail aq) (size aq) (seqs aq) (datas aq) (upd (threads aq) i x) (pushed aq).

(** [entry->seq] of the entry for an index. *)
Definition entry_seq (aq : fr_atomic_queue_t) (k : nat) : nat := nth (k mod size aq)%nat (seqs aq) 0%nat.

(** One step of thread [i], if it is inside an operation. *)
Definition step (aq : fr_atomic_queue_t) (i : nat) : option (fr_atomic_queue_t * option event) :=
  match threads aq i with
  | Idle => None
  | PushLoad data => Some (goto aq i (PushSeq data (head aq)), None)
  | PushSeq data h =>
      let diff := Z.of_nat (entry_seq aq h) - Z.of_nat h in
      if diff <? 0 then Some (goto aq i Idle, Some (RetPush false))
      else if 0 <? diff then Some (goto aq i (PushLoad data), None)
      else Some (goto aq i (PushCas data h), None)
  | PushCas data h =>
      if (head aq =? h)%nat then
        Some (MkAq (S h) (tail aq) (size aq) (seqs aq) (datas aq) (upd (threads aq) i (PushData data h)) (pushed aq ++ [data]),
              Some (Enq data))
      else Some (goto aq i (PushSeq data (head aq)), None)
  | PushData data h =>
      Some (MkAq (head aq) (tail aq) (size aq) (seqs aq) (<[(h mod size aq)%nat := Some data]> (datas aq))
              (upd (threads aq) i (PushStore data h)) (pushed aq), None)
  | PushStore data h =>
      Some (MkAq (head aq) (tail aq) (size aq) (<[(h mod size aq)%nat := S h]> (seqs aq)) (datas aq)
              (upd (threads aq) i Idle) (pushed aq), Some (RetPush true))
  | PopLoad => Some (goto aq i (PopSeq (tail aq)), None)
  | PopSeq t =>
      let diff := Z.of_nat (entry_seq aq t) - (Z.of_nat t + 1) in
      if diff <? 0 then Some (goto aq i Idle, Some (RetPop None))
      else if 0 <? diff then Some (goto aq i PopLoad, None)
      else Some (goto aq i (PopCas t), None)
  | PopCas t =>
      if (tail aq =? t)%nat then
        Some (MkAq (head aq) (S t) (size aq) (seqs aq) (datas aq) (upd (threads aq) i (PopData t)) (pushed aq), Some Deq)
      else Some (goto aq i (PopSeq (tail aq)), None)
  | PopData t => Some (goto aq i (PopStore t (nth (t mod size aq)%nat (datas aq) None)), None)
  | PopStore t x =>
      Some (MkAq (head aq) (tail aq) (size aq) (<[(t mod size aq)%nat := (t + size aq)%nat]> (seqs aq)) (datas aq)
              (upd (threads aq) i Idle) (pushed aq), Some (RetPop (Some x)))
  end.

(** Calling [fr_atomic_queue_push] with a pointer that is not NULL, and
    [fr_atomic_queue_pop]. *)
Definition fr_atomic_queue_push (aq : fr_atomic_queue_t) (i : nat) (data : A) : fr_atomic_queue_t := goto aq i (PushLoad data).
Definition fr_atomic_queue_pop (aq : fr_atomic_queue_t) (i : nat) : fr_atomic_queue_t := goto aq i PopLoad.

Inductive reachable (n : nat) : fr_atomic_queue_t -> Prop :=
  | reach_alloc aq : fr_atomic_queue_alloc n = Some aq -> reachable n aq
  | reach_push aq i data : reachable n aq -> threads aq i = Idle -> reachable n (fr_atomic_queue_push aq i data)
  | reach_pop aq i : reachable n aq -> threads aq i = Idle -> reachable n (fr_atomic_queue_pop aq i)
  | reach_step aq i aq' e : reachable n aq -> step aq i = Some (aq', e) -> reachable n aq'.

(** ** The queue it implements *)

(** What was pushed and not yet taken, oldest first. *)
Definition queue (aq : fr_atomic_queue_t) : list A := drop (tail aq) (pushed aq).

(** What a thread that has taken a tail index is going to return. *)
Definition promised (aq : fr_atomic_queue_t) (i : nat) : option A :=
  match threads aq i with
  | PopData t | PopStore t _ => pushed aq !! t
  | _ => None
  end.

(** ** The invariant *)

(** The index a thread has taken and not yet handed back, for a push and for a pop. *)
Definition wticket (x : local) : option nat := match x with PushData _ t | PushStore _ t => Some t | _ => None end.
Definition rticket (x : local) : option nat := match x with PopData t | PopStore t _ => Some t | _ => None end.

(** The entry at [k] serves index [c]: it is free or being written, or it is
    full and perhaps being read. *)
Definition slot_ok (aq : fr_atomic_queue_t) (k c : nat) : Prop :=
  (c mod size aq = k)%nat
  /\ ((seqs aq !! k = Some c /\ (head aq <= c < head aq + size aq \/ tail aq <= c < head aq /\ head aq <= c + size aq)%nat)
      \/ (seqs aq !! k = Some (S c) /\ (c < head aq <= c + size aq)%nat
          /\ exists x, pushed aq !! c = Some x /\ datas aq !! k = Some (Some x))).

Definition thread_ok (aq : fr_atomic_queue_t) (x : local) : Prop :=
  match x with
  | Idle | PushLoad _ | PopLoad => True
  | PushSeq _ h => (h <= head aq)%nat
  | PushCas _ h => (h <= head aq)%nat /\ (h = head aq -> seqs aq !! (h mod size aq)%nat = Some h)
  | PushData d t => (tail aq <= t < head aq)%nat /\ seqs aq !! (t mod size aq)%nat = Some t /\ pushed aq !! t = Some d
  | PushStore d t => (tail aq <= t < head aq)%nat /\ seqs aq !! (t mod size aq)%nat = Some t /\ pushed aq !! t = Some d
      /\ datas aq !! (t mod size aq)%nat = Some (Some d)
  | PopSeq t => (t <= tail aq)%nat
  | PopCas t => (t <= tail aq)%nat /\ (t = tail aq -> seqs aq !! (t mod size aq)%nat = Some (S t))
  | PopData t => (t < tail aq)%nat /\ seqs aq !! (t mod size aq)%nat = Some (S t)
  | PopStore t x => (t < tail aq)%nat /\ seqs aq !! (t mod size aq)%nat = Some (S t) /\ x = pushed aq !! t
  end.

Record inv (aq : fr_atomic_queue_t) : Prop := MkInv {
  inv_size : (2 <= size aq)%nat;
  inv_seqs : length (seqs aq) = size aq;
  inv_datas : length (datas aq) = size aq;
  inv_pushed : length (pushed aq) = head aq;
  inv_order : (tail aq <= head aq)%nat;
  inv_slot : forall k, (k < size aq)%nat -> exists c, slot_ok aq k c;
  inv_cover : forall t, (tail aq <= t < head aq)%nat ->
    seqs aq !! (t mod size aq)%nat = Some t \/ seqs aq !! (t mod size aq)%nat = Some (S t);
  inv_thread : forall i, thread_ok aq (threads aq i);
  inv_writer : forall i j t, wticket (threads aq i) = Some t -> wticket (threads aq j) = Some t -> i = j;
  inv_reader : forall i j t, rticket (threads aq i) = Some t -> rticket (threads aq j) = Some t -> i = j }.

Lemma mod_far n a b : (0 < n)%nat -> (a mod n = b mod n)%nat -> (a < b)%nat -> (a + n <= b)%nat.
Proof.
  intros Hn E Hlt. pose proof (Nat.div_mod_eq a n) as Ea. pose proof (Nat.div_mod_eq b n) as Eb. rewrite E in Ea.
  assert (a / n < b / n)%nat by nia. nia.
Qed.

Lemma mod_succ n a : (2 <= n)%nat -> (S a mod n <> a mod n)%nat.
Proof. intros Hn E. pose proof (mod_far n a (S a)). lia. Qed.

Lemma entry_seq_lookup aq k : inv aq -> seqs aq !! (k mod size aq)%nat = Some (entry_seq aq k).
Proof.
  intros H. unfold entry_seq. pose proof (inv_size _ H). pose proof (inv_seqs _ H).
  destruct (lookup_lt_is_Some_2 (seqs aq) (k mod size aq)%nat) as [x E].
  { pose proof (Nat.mod_upper_bound k (size aq)). lia. }
  rewrite E. f_equal. symmetry. by apply nth_lookup_Some.
Qed.

(** The index an entry serves is determined by its sequence number. *)
Lemma slot_serves aq t : inv aq -> exists c, slot_ok aq (t mod size aq)%nat c.
Proof. intros H. apply (inv_slot _ H). apply Nat.mod_upper_bound. pose proof (inv_size _ H). lia. Qed.

Lemma slot_full aq t : inv aq -> seqs aq !! (t mod size aq)%nat = Some (S t) ->
  (t < head aq <= t + size aq)%nat /\ exists x, pushed aq !! t = Some x /\ datas aq !! (t mod size aq)%nat = Some (Some x).
Proof.
  intros H E. destruct (slot_serves aq t H) as (c & Hc & [[E' _]|(E' & Hb & Hx)]); rewrite E in E'; injection E' as E'.
  - exfalso. apply (mod_succ (size aq) t); [apply H|]. congruence.
  - subst c. done.
Qed.

Lemma slot_free aq t : inv aq -> seqs aq !! (t mod size aq)%nat = Some t ->
  (head aq <= t < head aq + size aq \/ tail aq <= t < head aq /\ head aq <= t + size aq)%nat.
Proof.
  intros H E. destruct (slot_serves aq t H) as (c & Hc & [[E' Hb]|(E' & _)]); rewrite E in E'; injection E' as E'.
  - by subst c.
  - exfalso. apply (mod_succ (size aq) c); [apply H|]. congruence.
Qed.

Lemma upd_same f i x : upd f i x i = x.
Proof. unfold upd. by rewrite Nat.eqb_refl. Qed.
Lemma upd_other f i j x : j <> i -> upd f i x j = f j.
Proof. intros. unfold upd. destruct (Nat.eqb_spec j i); [done|done]. Qed.

(** A thread moves on without changing shared memory or taking an index. *)
Lemma goto_inv aq i x : inv aq -> thread_ok aq x ->
  (wticket x = None \/ wticket x = wticket (threads aq i)) -> (rticket x = None \/ rticket x = rticket (threads aq i)) ->
  inv (goto aq i x).
Proof.
  intros H Hx Hw Hr. destruct H as [H1 H2 H3 H4 H5 H6 H7 H8 H9 H10].
  constructor; cbn [size seqs datas pushed head tail goto]; auto.
  - intros j. change (thread_ok aq (upd (threads aq) i x j)). unfold upd. case_if; auto.
  - intros j k t. cbn [threads goto]. unfold upd. repeat case_if; intros E1 E2; try lia; try (eapply H9; eassumption).
    + destruct Hw as [Hw|Hw]; rewrite Hw in *; [done|]. subst. eapply H9; eassumption.
    + destruct Hw as [Hw|Hw]; rewrite Hw in *; [done|]. subst. eapply H9; eassumption.
  - intros j k t. cbn [threads goto]. unfold upd. repeat case_if; intros E1 E2; try lia; try (eapply H10; eassumption).
    + destruct Hr as [Hr|Hr]; rewrite Hr in *; [done|]. subst. eapply H10; eassumption.
    + destruct Hr as [Hr|Hr]; rewrite Hr in *; [done|]. subst. eapply H10; eassumption.
Qed.

Lemma mod_add_size aq c : inv aq -> ((c + size aq) mod size aq = c mod size aq)%nat.
Proof. intros H. pose proof (inv_size _ H). rewrite <- (Nat.mul_1_l (size aq)) at 1. apply Nat.Div0.mod_add. Qed.

Lemma push_cas_inv aq i d : inv aq -> threads aq i = PushCas d (head aq) ->
  inv (MkAq (S (head aq)) (tail aq) (size aq) (seqs aq) (datas aq) (upd (threads aq) i (PushData d (head aq))) (pushed aq ++ [d])).
Proof.
  intros H Hi. pose proof (inv_thread _ H i) as Ti. rewrite Hi in Ti. destruct Ti as [_ Ti]. specialize (Ti eq_refl).
  pose proof (mod_add_size aq) as Hadd. pose proof H as [H1 H2 H3 H4 H5 H6 H7 H8 H9 H10].
  constructor; cbn [size seqs datas pushed head tail threads]; auto.
  - rewrite length_app. cbn. lia.
  - intros k Hk. destruct (H6 k Hk) as (c & Hc & Hs). exists c. split; [done|]. cbn [size seqs datas pushed head tail].
    assert (forall s, seqs aq !! k = Some s -> (s = c \/ s = S c) -> (head aq = c + size aq)%nat -> False) as Hfar.
    { intros s0 Es Hor Eh. pose proof (Hadd c H) as E. rewrite <- Eh, Hc in E. rewrite E, Es in Ti. injection Ti as Ti. lia. }
    destruct Hs as [[Es Hs]|(Es & Hs & x & Hx)]; [left|right]; (split; [done|]); specialize (Hfar _ Es ltac:(auto)).
    + lia.
    + split; [lia|]. exists x. split; [|apply Hx]. apply lookup_app_l_Some, Hx.
  - intros t Ht. destruct (decide (t = head aq)) as [-> |]; [left; done|]. apply H7. lia.
  - intros j. unfold upd. case_if.
    + split; [cbn; lia|]. split; [done|]. cbn. rewrite lookup_app_r, H4, Nat.sub_diag by lia. done.
    + pose proof (H8 j) as Tj. destruct (threads aq j); cbn in *; auto; try lia.
      * destruct Tj as (? & ? & ?). split_and!; auto; try lia. by apply lookup_app_l_Some.
      * destruct Tj as (? & ? & ? & ?). split_and!; auto; try lia. by apply lookup_app_l_Some.
      * destruct Tj as (? & ? & ->). split_and!; auto. rewrite lookup_app_l by lia. done.
  - intros j k t. unfold upd. repeat case_if; intros E1 E2; try lia; try (eapply H9; eassumption); exfalso.
    + injection E1 as <-. pose proof (H8 k) as Tk. destruct (threads aq k); cbn in *; try done; injection E2 as ->; lia.
    + injection E2 as <-. pose proof (H8 j) as Tj. destruct (threads aq j); cbn in *; try done; injection E1 as ->; lia.
  - intros j k t. unfold upd. repeat case_if; intros E1 E2; try done; eapply H10; eassumption.
Qed.

Lemma pop_cas_inv aq i : inv aq -> threads aq i = PopCas (tail aq) ->
  inv (MkAq (head aq) (S (tail aq)) (size aq) (seqs aq) (datas aq) (upd (threads aq) i (PopData (tail aq))) (pushed aq)).
Proof.
  intros H Hi. pose proof (inv_thread _ H i) as Ti. rewrite Hi in Ti. destruct Ti as [_ Ti]. specialize (Ti eq_refl).
  destruct (slot_full aq _ H Ti) as (Hb & _). pose proof H as [H1 H2 H3 H4 H5 H6 H7 H8 H9 H10].
  assert (forall t, seqs aq !! (t mod size aq)%nat = Some t -> t <> tail aq) as Hne.
  { intros t Et ->. rewrite Ti in Et. injection Et. lia. }
  constructor; cbn [size seqs datas pushed head tail threads]; auto; try lia.
  - intros k Hk. destruct (H6 k Hk) as (c & Hc & Hs). exists c. split; [done|]. cbn [size seqs datas pushed head tail].
    destruct Hs as [[Es Hs]|(Es & Hs & Hx)]; [left|right]; (split; [done|]); [|done].
    assert (c <> tail aq) by (apply Hne; rewrite Hc; done). lia.
  - intros t Ht. apply H7. lia.
  - intros j. unfold upd. case_if.
    + cbn. split; [lia|done].
    + pose proof (H8 j) as Tj. destruct (threads aq j) as [| | | |d t|d t| | | | |]; cbn in *; auto; try lia.
      * destruct Tj as (? & E & ?). pose proof (Hne t E). split_and!; auto; lia.
      * destruct Tj as (? & E & ? & ?). pose proof (Hne t E). split_and!; auto; lia.
      * destruct Tj. split; [lia|done].
      * destruct Tj as (? & ? & ?). split_and!; auto; lia.
  - intros j k t. unfold upd. repeat case_if; intros E1 E2; try done; eapply H9; eassumption.
  - intros j k t. unfold upd. repeat case_if; intros E1 E2; try lia; try (eapply H10; eassumption); exfalso.
    + injection E1 as <-. pose proof (H8 k) as Tk. destruct (threads aq k); cbn in *; try done; injection E2 as ->; lia.
    + injection E2 as <-. pose proof (H8 j) as Tj. destruct (threads aq j); cbn in *; try done; injection E1 as ->; lia.
Qed.

Lemma push_data_inv aq i d t : inv aq -> threads aq i = PushData d t ->
  inv (MkAq (head aq) (tail aq) (size aq) (seqs aq) (<[(t mod size aq)%nat := Some d]> (datas aq))
         (upd (threads aq) i (PushStore d t)) (pushed aq)).
Proof.
  intros H Hi. pose proof (inv_thread _ H i) as Ti. rewrite Hi in Ti. destruct Ti as (Tb & Ts & Tp).
  pose proof H as [H1 H2 H3 H4 H5 H6 H7 H8 H9 H10].
  assert (t mod size aq < size aq)%nat by (apply Nat.mod_upper_bound; lia).
  constructor; cbn [size seqs datas pushed head tail threads]; auto.
  - by rewrite length_insert.
  - intros k Hk. destruct (H6 k Hk) as (c & Hc & Hs). exists c. split; [done|]. cbn [size seqs datas pushed head tail].
    destruct Hs as [Hs|(Es & Hs & x & Hx & Hd)]; [by left|right]. split; [done|]. split; [done|]. exists x. split; [done|].
    rewrite list_lookup_insert_ne; [done|]. intros E. subst k. rewrite E in Ts. rewrite Ts in Es. injection Es as ->.
    apply (mod_succ (size aq) c H1). congruence.
  - intros j. unfold upd. case_if.
    + cbn. split_and!; auto; try lia. apply list_lookup_insert_eq. lia.
    + pose proof (H8 j) as Tj. destruct (threads aq j) as [| | | |d' t'|d' t'| | | | |] eqn:Ej; cbn in *; auto.
      destruct Tj as (? & E & ? & ?). split_and!; auto; try lia. rewrite list_lookup_insert_ne; [done|].
      intros E'. rewrite <- E', Ts in E. injection E as ->.
      assert (j = i) by (apply (H9 j i t'); [by rewrite Ej|by rewrite Hi]). done.
  - intros j k t'. unfold upd. repeat case_if; intros E1 E2; try lia; try (eapply H9; eassumption); subst; cbn in *.
    + apply (H9 i k t'); [by rewrite Hi|done].
    + apply (H9 j i t'); [done|by rewrite Hi].
  - intros j k t'. unfold upd. repeat case_if; intros E1 E2; try done; eapply H10; eassumption.
Qed.

(** The entry for index [t] gets another sequence number [s]: what the threads
    and the other entries rely on is untouched. *)
Lemma store_seq_thread aq t s x :
  inv aq -> thread_ok aq x ->
  (forall u, (u mod size aq = t mod size aq)%nat -> wticket x <> Some u /\ rticket x <> Some u) ->
  (forall d, x = PushCas d (head aq) -> (head aq mod size aq <> t mod size aq)%nat) ->
  (x = PopCas (tail aq) -> (tail aq mod size aq <> t mod size aq)%nat) ->
  thread_ok (MkAq (head aq) (tail aq) (size aq) (<[(t mod size aq)%nat := s]> (seqs aq)) (datas aq) (threads aq) (pushed aq)) x.
Proof.
  intros H Hx Ht Hpush Hpop.
  assert (forall k, k <> (t mod size aq)%nat -> <[(t mod size aq)%nat := s]> (seqs aq) !! k = seqs aq !! k) as Hne
    by (intros; by apply list_lookup_insert_ne).
  destruct x as [| |d k|d k|d k|d k| |k|k|k|k y]; cbn in *; auto.
  - destruct Hx as [? Hx]. split; [done|]. intros ->. rewrite Hne; [by apply Hx|]. by apply (Hpush d).
  - rewrite Hne; [done|]. intros E. by destruct (Ht k E).
  - rewrite Hne; [done|]. intros E. by destruct (Ht k E).
  - destruct Hx as [? Hx]. split; [done|]. intros ->. rewrite Hne; [by apply Hx|]. by apply Hpop.
  - rewrite Hne; [done|]. intros E. by destruct (Ht k E).
  - rewrite Hne; [done|]. intros E. by destruct (Ht k E).
Qed.

Lemma push_store_inv aq i d t : inv aq -> threads aq i = PushStore d t ->
  inv (MkAq (head aq) (tail aq) (size aq) (<[(t mod size aq)%nat := S t]> (seqs aq)) (datas aq)
         (upd (threads aq) i Idle) (pushed aq)).
Proof.
  intros H Hi. pose proof (inv_thread _ H i) as Ti. rewrite Hi in Ti. destruct Ti as (Tb & Ts & Tp & Td).
  destruct (slot_free aq t H Ts) as [Hf|[_ Hf]]; [lia|]. pose proof H as [H1 H2 H3 H4 H5 H6 H7 H8 H9 H10].
  assert (t mod size aq < size aq)%nat by (apply Nat.mod_upper_bound; lia).
  assert (forall k, k <> (t mod size aq)%nat -> <[(t mod size aq)%nat := S t]> (seqs aq) !! k = seqs aq !! k) as Hne
    by (intros; by apply list_lookup_insert_ne).
  assert (<[(t mod size aq)%nat := S t]> (seqs aq) !! (t mod size aq)%nat = Some (S t)) as Heq
    by (apply list_lookup_insert_eq; lia).
  constructor; cbn [size seqs datas pushed head tail threads]; auto.
  - by rewrite length_insert.
  - intros k Hk. destruct (decide (k = (t mod size aq)%nat)) as [-> |Hkt].
    + exists t. split; [done|right]. cbn [size seqs datas pushed head tail]. split; [done|]. split; [lia|]. eauto.
    + destruct (H6 k Hk) as (c & Hc & Hs). exists c. split; [done|]. cbn [size seqs datas pushed head tail]. rewrite Hne; done.
  - intros u Hu. destruct (decide (u mod size aq = t mod size aq)%nat) as [Eu|Eu]; [|rewrite Hne by done; by apply H7].
    rewrite Eu, Heq. destruct (H7 u Hu) as [E|E]; rewrite Eu, Ts in E; injection E as ->; [by right|].
    exfalso. by apply (mod_succ (size aq) u H1).
  - intros j. unfold upd. case_if; [done|]. apply (store_seq_thread aq t (S t) (threads aq j) H (H8 j)); pose proof (H8 j) as Tj.
    + intros u Eu. split; intros E; destruct (threads aq j) eqn:Ej; try done; injection E as ->; cbn in Tj.
      * destruct Tj as (_ & Tj & _). rewrite Eu, Ts in Tj. injection Tj as ->. assert (j = i) by (apply (H9 j i u); [by rewrite Ej|by rewrite Hi]). done.
      * destruct Tj as (_ & Tj & _). rewrite Eu, Ts in Tj. injection Tj as ->. assert (j = i) by (apply (H9 j i u); [by rewrite Ej|by rewrite Hi]). done.
      * destruct Tj as (_ & Tj). rewrite Eu, Ts in Tj. injection Tj as ->. by apply (mod_succ (size aq) u H1).
      * destruct Tj as (_ & Tj & _). rewrite Eu, Ts in Tj. injection Tj as ->. by apply (mod_succ (size aq) u H1).
    + intros d' Ej E. rewrite Ej in Tj. destruct Tj as [_ Tj]. rewrite E, Ts in Tj. specialize (Tj eq_refl). injection Tj as Tj. lia.
    + intros Ej E. rewrite Ej in Tj. destruct Tj as [_ Tj]. rewrite E, Ts in Tj. specialize (Tj eq_refl). injection Tj as ->.
      by apply (mod_succ (size aq) (tail aq) H1).
  - intros j k u. unfold upd. repeat case_if; intros E1 E2; try done; eapply H9; eassumption.
  - intros j k u. unfold upd. repeat case_if; intros E1 E2; try done; eapply H10; eassumption.
Qed.

Lemma pop_store_inv aq i t x : inv aq -> threads aq i = PopStore t x ->
  inv (MkAq (head aq) (tail aq) (size aq) (<[(t mod size aq)%nat := (t + size aq)%nat]> (seqs aq)) (datas aq)
         (upd (threads aq) i Idle) (pushed aq)).
Proof.
  intros H Hi. pose proof (inv_thread _ H i) as Ti. rewrite Hi in Ti. destruct Ti as (Tb & Ts & _).
  destruct (slot_full aq t H Ts) as (Hf & _). pose proof (mod_add_size aq t H) as Hadd.
  pose proof H as [H1 H2 H3 H4 H5 H6 H7 H8 H9 H10].
  assert (t mod size aq < size aq)%nat by (apply Nat.mod_upper_bound; lia).
  assert (forall k, k <> (t mod size aq)%nat -> <[(t mod size aq)%nat := (t + size aq)%nat]> (seqs aq) !! k = seqs aq !! k) as Hne
    by (intros; by apply list_lookup_insert_ne).
  assert (<[(t mod size aq)%nat := (t + size aq)%nat]> (seqs aq) !! (t mod size aq)%nat = Some (t + size aq)%nat) as Heq
    by (apply list_lookup_insert_eq; lia).
  constructor; cbn [size seqs datas pushed head tail threads]; auto.
  - by rewrite length_insert.
  - intros k Hk. destruct (decide (k = (t mod size aq)%nat)) as [-> |Hkt].
    + exists (t + size aq)%nat. split; [done|left]. cbn [size seqs datas pushed head tail]. split; [done|]. lia.
    + destruct (H6 k Hk) as (c & Hc & Hs). exists c. split; [done|]. cbn [size seqs datas pushed head tail]. rewrite Hne; done.
  - intros u Hu. rewrite Hne; [by apply H7|]. intros Eu. pose proof (mod_far (size aq) t u). lia.
  - intros j. unfold upd. case_if; [done|]. apply (store_seq_thread aq t (t + size aq) (threads aq j) H (H8 j)); pose proof (H8 j) as Tj.
    + intros u Eu. split; intros E; destruct (threads aq j) eqn:Ej; try done; injection E as ->; cbn in Tj.
      * destruct Tj as (_ & Tj & _). rewrite Eu, Ts in Tj. injection Tj as <-. by apply (mod_succ (size aq) t H1).
      * destruct Tj as (_ & Tj & _). rewrite Eu, Ts in Tj. injection Tj as <-. by apply (mod_succ (size aq) t H1).
      * destruct Tj as (_ & Tj). rewrite Eu, Ts in Tj. injection Tj as ->. assert (j = i) by (apply (H10 j i u); [by rewrite Ej|by rewrite Hi]). done.
      * destruct Tj as (_ & Tj & _). rewrite Eu, Ts in Tj. injection Tj as ->. assert (j = i) by (apply (H10 j i u); [by rewrite Ej|by rewrite Hi]). done.
    + intros d' Ej E. rewrite Ej in Tj. destruct Tj as [_ Tj]. rewrite E, Ts in Tj. specialize (Tj eq_refl). injection Tj as Tj.
      rewrite <- Tj in E. by apply (mod_succ (size aq) t H1).
    + intros Ej E. rewrite Ej in Tj. destruct Tj as [_ Tj]. rewrite E, Ts in Tj. specialize (Tj eq_refl). injection Tj as Tj. lia.
  - intros j k u. unfold upd. repeat case_if; intros E1 E2; try done; eapply H9; eassumption.
  - intros j k u. unfold upd. repeat case_if; intros E1 E2; try done; eapply H10; eassumption.
Qed.

Lemma aq_alloc_inv n aq : (2 <= n)%nat -> fr_atomic_queue_alloc n = Some aq -> inv aq /\ size aq = n.
Proof.
  intros Hn. unfold fr_atomic_queue_alloc. case_if; [lia|]. intros [= <-]. split; [|done].
  constructor; cbn; auto; try lia.
  - apply length_seq.
  - apply length_replicate.
  - intros k Hk. exists k. split; [by apply Nat.mod_small|left]. cbn. split; [by apply lookup_seq_lt|lia].
  - done.
  - done.
Qed.

(** One step of a thread keeps the invariant. *)
Lemma step_inv aq i aq' e : inv aq -> step aq i = Some (aq', e) -> inv aq' /\ size aq' = size aq.
Proof.
  intros H Hs. pose proof (inv_thread _ H i) as Ti. unfold step in Hs.
  destruct (threads aq i) as [|d|d h|d h|d h|d h| |t|t|t|t x] eqn:E; cbn in Ti.
  - done.
  - injection Hs as <- _. split; [|done]. apply goto_inv; cbn; auto.
  - pose proof (entry_seq_lookup aq h H) as El. repeat case_if_in Hs; injection Hs as <- _; (split; [|done]); apply goto_inv; cbn; auto.
    split; [done|]. intros ->. rewrite El. f_equal. lia.
  - case_if_in Hs; injection Hs as <- _; (split; [|done]).
    + subst h. by apply push_cas_inv.
    + apply goto_inv; cbn; auto.
  - injection Hs as <- _. split; [|done]. by apply push_data_inv.
  - injection Hs as <- _. split; [|done]. by apply (push_store_inv aq i d).
  - injection Hs as <- _. split; [|done]. apply goto_inv; cbn; auto.
  - pose proof (entry_seq_lookup aq t H) as El. repeat case_if_in Hs; injection Hs as <- _; (split; [|done]); apply goto_inv; cbn; auto.
    split; [done|]. intros ->. rewrite El. f_equal. lia.
  - case_if_in Hs; injection Hs as <- _; (split; [|done]).
    + subst t. by apply pop_cas_inv.
    + apply goto_inv; cbn; auto.
  - injection Hs as <- _. split; [|done]. apply goto_inv; cbn; auto.
    + destruct Ti as [Ti1 Ti2]. split_and!; auto. destruct (slot_full aq t H Ti2) as (_ & x & -> & Hd).
      apply nth_lookup_Some with (d := None) in Hd. by rewrite Hd.
    + right. by rewrite E.
  - injection Hs as <- _. split; [|done]. by apply (pop_store_inv aq i t x).
Qed.

Lemma aq_reachable_inv n aq : (2 <= n)%nat -> reachable n aq -> inv aq /\ size aq = n.
Proof.
  intros Hn. induction 1 as [aq E|aq i d _ [IH Es] Hi|aq i _ [IH Es] Hi|aq i aq' e _ [IH Es] E].
  - by apply aq_alloc_inv.
  - split; [|done]. apply goto_inv; cbn; auto.
  - split; [|done]. apply goto_inv; cbn; auto.
  - apply step_inv in E as [? ?]; [|done]. split; [done|]. congruence.
Qed.

Lemma queue_bound aq : inv aq -> (head aq <= tail aq + size aq)%nat.
Proof.
  intros H. pose proof (inv_order _ H). pose proof (inv_size _ H). destruct (decide (tail aq = head aq)); [lia|].
  destruct (inv_cover _ H (tail aq)) as [E|E]; [lia| |].
  - destruct (slot_free aq _ H E); lia.
  - destruct (slot_full aq _ H E); lia.
Qed.

Lemma length_queue aq : inv aq -> length (queue aq) = (head aq - tail aq)%nat.
Proof. intros H. unfold queue. rewrite length_drop, (inv_pushed _ H). done. Qed.

(** Taking the head index appends to the queue, which had room. *)
Lemma enq_queue aq i d : inv aq -> threads aq i = PushCas d (head aq) ->
  (length (queue aq) < size aq)%nat /\ drop (tail aq) (pushed aq ++ [d]) = queue aq ++ [d].
Proof.
  intros H Hi. pose proof (inv_thread _ H i) as Ti. rewrite Hi in Ti. destruct Ti as [_ Ti]. specialize (Ti eq_refl).
  pose proof (queue_bound aq H). pose proof (inv_order _ H). pose proof (inv_size _ H). split.
  - rewrite length_queue by done. destruct (decide (head aq = tail aq + size aq)%nat) as [E|]; [|lia].
    pose proof (mod_add_size aq (tail aq) H) as Ea. rewrite <- E in Ea. rewrite Ea in Ti.
    destruct (inv_cover _ H (tail aq)) as [E'|E']; [lia|..]; rewrite E' in Ti; injection Ti; lia.
  - unfold queue. rewrite drop_app_le; [done|]. rewrite (inv_pushed _ H). lia.
Qed.

(** Taking the tail index removes the oldest element. *)
Lemma deq_queue aq i : inv aq -> threads aq i = PopCas (tail aq) ->
  exists x, pushed aq !! tail aq = Some x /\ queue aq = x :: drop (S (tail aq)) (pushed aq).
Proof.
  intros H Hi. pose proof (inv_thread _ H i) as Ti. rewrite Hi in Ti. destruct Ti as [_ Ti]. specialize (Ti eq_refl).
  destruct (slot_full aq _ H Ti) as (_ & x & Hx & _). exists x. split; [done|]. unfold queue. by apply drop_S.
Qed.

(** A push that gives up found an entry that has not been emptied. *)
Lemma push_full aq i d h : inv aq -> threads aq i = PushSeq d h -> (entry_seq aq h < h)%nat ->
  length (queue aq) = size aq
  \/ (size aq <= head aq < tail aq + size aq)%nat /\ seqs aq !! (head aq mod size aq)%nat = Some (S (head aq - size aq)).
Proof.
  intros H Hi Hlt. pose proof (inv_thread _ H i) as Ti. rewrite Hi in Ti. cbn in Ti.
  rewrite length_queue by done. pose proof (queue_bound aq H). pose proof (inv_order _ H).
  pose proof (entry_seq_lookup aq h H) as El. destruct (slot_serves aq h H) as (c & Hc & Hs).
  assert (c < h -> c + size aq <= h)%nat as Hfar by (intros; apply mod_far; auto; pose proof (inv_size _ H); lia).
  destruct Hs as [[E Hs]|(E & Hs & _)]; rewrite El in E; injection E as E; [lia|].
  assert (h = head aq) as -> by lia. destruct (decide (c < tail aq)%nat); [right|left; lia].
  split; [lia|]. rewrite El, E. do 2 f_equal. lia.
Qed.

(** A pop that gives up found the queue empty or its oldest element not written. *)
Lemma pop_empty aq i t : inv aq -> threads aq i = PopSeq t -> (entry_seq aq t < S t)%nat ->
  queue aq = [] \/ seqs aq !! (tail aq mod size aq)%nat = Some (tail aq).
Proof.
  intros H Hi Hlt. pose proof (inv_thread _ H i) as Ti. rewrite Hi in Ti. cbn in Ti.
  pose proof (queue_bound aq H). pose proof (inv_order _ H). pose proof (length_queue aq H) as Hq.
  pose proof (entry_seq_lookup aq t H) as El. destruct (slot_serves aq t H) as (c & Hc & Hs).
  assert (c < t -> c + size aq <= t)%nat as Hfar by (intros; apply mod_far; auto; pose proof (inv_size _ H); lia).
  destruct Hs as [[E Hs]|(E & Hs & _)]; rewrite El in E; injection E as E.
  - assert (c = t) as -> by lia. assert (t = tail aq) as -> by lia. right. by rewrite El, E.
  - left. apply length_zero_iff_nil. lia.
Qed.

(** A schedule of calls and steps, as a program to run. *)
Inductive action := CallPush (i : nat) (data : A) | CallPop (i : nat) | Step (i : nat).

Fixpoint exec (aq : fr_atomic_queue_t) (l : list action) : option (fr_atomic_queue_t * list event) :=
  match l with
  | [] => Some (aq, [])
  | CallPush i d :: l => match threads aq i with Idle => exec (fr_atomic_queue_push aq i d) l | _ => None end
  | CallPop i :: l => match threads aq i with Idle => exec (fr_atomic_queue_pop aq i) l | _ => None end
  | Step i :: l =>
      match step aq i with
      | None => None
      | Some (aq, e) =>
          match exec aq l with
          | None => None
          | Some (aq, es) => Some (aq, match e with Some e => e :: es | None => es end)
          end
      end
  end.

Lemma exec_reachable n l aq aq' es : reachable n aq -> exec aq l = Some (aq', es) -> reachable n aq'.
Proof.
  revert aq es. induction l as [|[i d|i|i] l IH]; intros aq es Hr; cbn [exec].
  - by intros [= <- _].
  - destruct (threads aq i) eqn:E; try done. apply IH. by apply reach_push.
  - destruct (threads aq i) eqn:E; try done. apply IH. by apply reach_pop.
  - destruct (step aq i) as [[aq1 e]|] eqn:E; [|done]. destruct (exec aq1 l) as [[aq2 es']|] eqn:E2; [|done].
    intros [= <- _]. eapply IH; [|done]. by eapply reach_step.
Qed.

Lemma promised_goto aq i x j : j <> i -> promised (goto aq i x) j = promised aq j.
Proof. intros. unfold promised. cbn. by rewrite upd_other. Qed.

(** What others have been promised survives a step. *)
Lemma step_promised aq i aq' e j : inv aq -> step aq i = Some (aq', e) -> j <> i -> promised aq' j = promised aq j.
Proof.
  intros H Hs Hj. pose proof (inv_thread _ H j) as Tj. pose proof (inv_order _ H). pose proof (inv_pushed _ H). unfold step in Hs.
  destruct (threads aq i); repeat case_if_in Hs; try done; injection Hs as <- _; try (by apply promised_goto);
    unfold promised; cbn [threads pushed]; rewrite upd_other by done; try done.
  destruct (threads aq j); cbn in Tj; try done; rewrite lookup_app_l by lia; done.
Qed.
End AtomicQueue.

(** ** Properties *)

(** C21: The queue is linearizable for any number of threads and any interleaving
    of their accesses, when it has at least two entries. A push takes effect when
    it takes the head index: it appends to a queue that has room. A pop takes
    effect when it takes the tail index: it removes the oldest element, and that
    element is what it later returns. No other step changes the queue or what a
    thread is going to return. A push fails only when the queue is full or the
    pop that empties its entry has not finished; a pop fails only when the queue
    is empty or the oldest element is still being written. *)
Theorem atomic_queue_linearizable {A} (n : nat) (aq aq' : fr_atomic_queue_t (A:=A)) (i : nat) (e : option event) :
  (2 <= n)%nat -> reachable n aq -> step aq i = Some (aq', e) ->
  (forall j, j <> i -> promised aq' j = promised aq j)
  /\ match e with
     | Some (Enq d) => (length (queue aq) < n)%nat /\ queue aq' = queue aq ++ [d]
     | Some Deq => exists x, queue aq = x :: queue aq' /\ promised aq' i = Some x
     | Some (RetPush true) => queue aq' = queue aq
     | Some (RetPush false) => queue aq' = queue aq
         /\ (length (queue aq) = n
             \/ (n <= head aq < tail aq + n)%nat /\ seqs aq !! (head aq mod n)%nat = Some (S (head aq - n)))
     | Some (RetPop (Some x)) => queue aq' = queue aq /\ x = promised aq i /\ is_Some x
     | Some (RetPop None) => queue aq' = queue aq
         /\ (queue aq = [] \/ seqs aq !! (tail aq mod n)%nat = Some (tail aq))
     | None => queue aq' = queue aq /\ promised aq' i = promised aq i
     end.
Proof.
  intros Hn Hr Hs. destruct (aq_reachable_inv n aq Hn Hr) as [H <-].
  split; [intros; by eapply step_promised|].
  pose proof (inv_thread _ H i) as Ti. unfold step in Hs.
  destruct (threads aq i) as [|d|d h|d h|d h|d h| |t|t|t|t x] eqn:E; cbn in Ti; repeat case_if_in Hs; try done;
    injection Hs as <- <-; try (split; [done|]; unfold promised; cbn; rewrite upd_same, E; done); try done.
  - split; [done|]. apply (push_full aq i d h); auto. lia.
  - subst h. by apply (enq_queue aq i d).
  - split; [done|]. apply (pop_empty aq i t); auto. lia.
  - subst t. destruct (deq_queue aq i H E) as (x & Hx & Hq). exists x. split; [done|].
    unfold promised. cbn. by rewrite upd_same.
  - split; [done|]. destruct Ti as (_ & Ts & ->). unfold promised. rewrite E. split; [done|].
    destruct (slot_full aq t H Ts) as (_ & x & -> & _). eauto.
Qed.

(** Thread 0 of a queue with two entries, about to take the head index. *)
Definition sample : fr_atomic_queue_t (A:=Z) :=
  match exec (MkAq 0 0 2 [0; 1]%nat [None; None] (fun _ => Idle) []) [CallPush 0 7; Step 0; Step 0] with
  | Some (aq, _) => aq
  | None => MkAq 0 0 2 [] [] (fun _ => Idle) []
  end.

Lemma atomic_queue_linearizable_witness :
  match step sample 0 with
  | Some (aq', Some (Enq d)) => (length (queue sample) < 2)%nat /\ queue aq' = queue sample ++ [d]
  | _ => False
  end.
Proof.
  assert (reachable 2 sample) as Hr.
  { apply (exec_reachable 2 [CallPush 0 7; Step 0; Step 0] (MkAq 0 0 2 [0; 1]%nat [None; None] (fun _ => Idle) []) _ []);
      [by apply reach_alloc|reflexivity]. }
  destruct (step sample 0) as [[aq' e]|] eqn:E; [|discriminate E].
  pose proof (atomic_queue_linearizable 2 sample aq' 0 e (le_n 2) Hr E) as [_ P].
  destruct e as [[d| | |]|]; try discriminate E. exact P.
Defined.

(** A queue with one entry, after two pushes. *)
Definition one_entry {A} (a b : A) : option (fr_atomic_queue_t * list event) :=
  match fr_atomic_queue_alloc 1 with
  | None => None
  | Some aq => exec aq [CallPush 0 a; Step 0; Step 0; Step 0; Step 0; Step 0; CallPush 0 b; Step 0; Step 0; Step 0; Step 0; Step 0]
  end.

(** A queue with one entry, which the allocation accepts, does not work: a
    second push succeeds and overwrites the first element, and then a pop runs
    for ever, returning neither an element nor that the queue is empty. *)
Theorem atomic_queue_one_entry {A} (a b : A) :
  match one_entry a b with
  | None => False
  | Some (aq, es) =>
      es = [Enq a; RetPush true; Enq b; RetPush true] /\ queue aq = [a; b] /\ datas aq = [Some b]
      /\ forall k, match exec aq (CallPop 0 :: replicate k (Step 0)) with Some (_, es) => es = [] | None => False end
  end.
Proof.
  assert (exists f, one_entry a b = Some (MkAq 2 0 1 [2%nat] [Some b] f [a; b], [Enq a; RetPush true; Enq b; RetPush true]) /\ f 0%nat = Idle)
    as (f & -> & Hf) by (eexists; split; [vm_compute; reflexivity|reflexivity]).
  split; [reflexivity|]. split; [reflexivity|]. split; [reflexivity|]. intros k.
  assert (forall g, (g 0%nat = PopLoad \/ g 0%nat = PopSeq 0) ->
    match exec (MkAq 2 0 1 [2%nat] [Some b] g [a; b]) (replicate k (Step 0)) with Some (_, es) => es = [] | None => False end) as Q.
  { induction k as [|k IH]; intros g Hg; [done|]. cbn [replicate exec]. unfold step. cbn [threads].
    destruct Hg as [-> | ->]; cbn -[exec upd].
    - specialize (IH (upd g 0 (PopSeq 0)) ltac:(by right)). unfold goto; cbn -[exec upd].
      destruct (exec _ _) as [[? ?]|]; done.
    - specialize (IH (upd g 0 PopLoad) ltac:(by left)). unfold goto; cbn -[exec upd].
      change (Z.of_nat 2 - (Z.of_nat 0 + 1)) with 1. cbn -[exec upd].
      destruct (exec _ _) as [[? ?]|]; done. }
  cbn [exec threads]. rewrite Hf. apply (Q (upd f 0 PopLoad)). by left.
Qed.
End AtomicQueue.
