(* ===== verification/BfdPacket.v ===== *)
(** BFD control packets (RFC 5880 section 4): the packed structure of
    src/protocols/bfd/bfd.h, which the code lays over the bytes of a datagram,
    and the checks of fr_bfd_packet_ok in src/protocols/bfd/base.c. The layout is
    that of a little-endian host, where the first bit field declared is in the
    low bits of its byte; the 32-bit fields are in host order, as the code reads
    and writes them. *)

From S2P Require Import Prelude.

Module BfdPacket.

Inductive bfd_session_state_t := BFD_STATE_ADMIN_DOWN | BFD_STATE_DOWN | BFD_STATE_INIT | BFD_STATE_UP.

Inductive bfd_diag_t :=
| BFD_DIAG_NONE | BFD_CTRL_EXPIRED | BFD_ECHO_FAILED | BFD_NEIGHBOR_DOWN | BFD_FORWARD_PLANE_RESET
| BFD_PATH_DOWN | BFD_CONCATENATED_PATH_DOWN | BFD_ADMIN_DOWN | BFD_REVERSE_CONCAT_PATH_DOWN.

Inductive bfd_auth_type_t :=
| BFD_AUTH_RESERVED | BFD_AUTH_SIMPLE | BFD_AUTH_KEYED_MD5 | BFD_AUTH_MET_KEYED_MD5
| BFD_AUTH_KEYED_SHA1 | BFD_AUTH_MET_KEYED_SHA1.

#[export] Instance bfd_session_state_t_eq_dec : EqDecision bfd_session_state_t.
Proof. solve_decision. Defined.
#[export] Instance bfd_auth_type_t_eq_dec : EqDecision bfd_auth_type_t.
Proof. solve_decision. Defined.

Definition state_num (s : bfd_session_state_t) : Z :=
  match s with BFD_STATE_ADMIN_DOWN => 0 | BFD_STATE_DOWN => 1 | BFD_STATE_INIT => 2 | BFD_STATE_UP => 3 end.

(** A two-bit field has no other value. *)
Definition state_of (x : Z) : bfd_session_state_t :=
  if x =? 0 then BFD_STATE_ADMIN_DOWN else if x =? 1 then BFD_STATE_DOWN
  else if x =? 2 then BFD_STATE_INIT else BFD_STATE_UP.

Definition diag_num (d : bfd_diag_t) : Z :=
  match d with
  | BFD_DIAG_NONE => 0 | BFD_CTRL_EXPIRED => 1 | BFD_ECHO_FAILED => 2 | BFD_NEIGHBOR_DOWN => 3
  | BFD_FORWARD_PLANE_RESET => 4 | BFD_PATH_DOWN => 5 | BFD_CONCATENATED_PATH_DOWN => 6
  | BFD_ADMIN_DOWN => 7 | BFD_REVERSE_CONCAT_PATH_DOWN => 8
  end.

Definition auth_num (a : bfd_auth_type_t) : Z :=
  match a with
  | BFD_AUTH_RESERVED => 0 | BFD_AUTH_SIMPLE => 1 | BFD_AUTH_KEYED_MD5 => 2 | BFD_AUTH_MET_KEYED_MD5 => 3
  | BFD_AUTH_KEYED_SHA1 => 4 | BFD_AUTH_MET_KEYED_SHA1 => 5
  end.

(** What a byte of the packet means as an authentication type. *)
Definition auth_of (x : Z) : option bfd_auth_type_t :=
  if x =? 0 then Some BFD_AUTH_RESERVED else if x =? 1 then Some BFD_AUTH_SIMPLE
  else if x =? 2 then Some BFD_AUTH_KEYED_MD5 else if x =? 3 then Some BFD_AUTH_MET_KEYED_MD5
  else if x =? 4 then Some BFD_AUTH_KEYED_SHA1 else if x =? 5 then Some BFD_AUTH_MET_KEYED_SHA1 else None.

(** The union of authentication sections is its 28 bytes. *)
Record bfd_packet_t := MkPacket {
  p_diag : Z; p_version : Z;
  p_multipoint : bool; p_demand : bool; p_auth_present : bool; p_control_plane_independent : bool;
  p_final : bool; p_poll : bool; p_state : bfd_session_state_t;
  p_detect_multi : Z; p_length : Z;
  p_my_disc : Z; p_your_disc : Z; p_desired_min_tx_interval : Z; p_required_min_rx_interval : Z;
  p_min_echo_rx_interval : Z;
  p_auth : bytes }.

#[export] Instance eta_bfd_packet_t : Eta bfd_packet_t := fun p =>
  MkPacket (p_diag p) (p_version p) (p_multipoint p) (p_demand p) (p_auth_present p) (p_control_plane_independent p)
    (p_final p) (p_poll p) (p_state p) (p_detect_multi p) (p_length p) (p_my_disc p) (p_your_disc p)
    (p_desired_min_tx_interval p) (p_required_min_rx_interval p) (p_min_echo_rx_interval p) (p_auth p).

Abbreviation FR_BFD_HEADER_LENGTH := 24%Z (only parsing).
Definition sizeof_auth : nat := 28.
Definition sizeof_packet : nat := 52.

(** Fields of the authentication sections: type, length and key identifier are
    common to all; the password follows; a sequence number and a digest come
    after a reserved byte. *)
Definition a_type (a : bytes) : Z := get a 0.
Definition a_len (a : bytes) : Z := get a 1.
Definition key_id (a : bytes) : Z := get a 2.
Definition get32 (l : bytes) (i : nat) : Z :=
  get l i + 256 * get l (i + 1) + 65536 * get l (i + 2) + 16777216 * get l (i + 3).
Definition put32 (x : Z) : bytes := [u8 x; u8 (Z.shiftr x 8); u8 (Z.shiftr x 16); u8 (Z.shiftr x 24)].
Definition sequence_no (a : bytes) : Z := get32 a 4.
Definition password_off : nat := 3.
Definition digest_off : nat := 8.
Definition sizeof_auth_md5 : Z := 24.
Definition sizeof_auth_sha1 : Z := 28.

(** The packet as the bytes of the structure. *)
Definition header_bytes (p : bfd_packet_t) : bytes :=
  [p_diag p + 32 * p_version p;
   Z.b2z (p_multipoint p) + 2 * Z.b2z (p_demand p) + 4 * Z.b2z (p_auth_present p) + 8 * Z.b2z (p_control_plane_independent p)
   + 16 * Z.b2z (p_final p) + 32 * Z.b2z (p_poll p) + 64 * state_num (p_state p);
   p_detect_multi p; p_length p]
  ++ put32 (p_my_disc p) ++ put32 (p_your_disc p) ++ put32 (p_desired_min_tx_interval p)
  ++ put32 (p_required_min_rx_interval p) ++ put32 (p_min_echo_rx_interval p).

Definition bfd_bytes (p : bfd_packet_t) : bytes := header_bytes p ++ p_auth p.

(** [(bfd_packet_t * ) buffer] *)
Definition bfd_cast (b : bytes) : bfd_packet_t :=
  let x := get b 1 in
  MkPacket (get b 0 mod 32) (get b 0 / 32)
    (Z.testbit x 0) (Z.testbit x 1) (Z.testbit x 2) (Z.testbit x 3) (Z.testbit x 4) (Z.testbit x 5) (state_of (x / 64))
    (get b 2) (get b 3) (get32 b 4) (get32 b 8) (get32 b 12) (get32 b 16) (get32 b 20) (take sizeof_auth (drop 24 b)).

(** The messages of [fr_bfd_packet_ok]. *)
Inductive bfd_error :=
| TooShort | WrongVersion | HeaderLengthTooSmall | HeaderLengthNotData | NotEnoughForAuth | AuthLengthMismatch
| SimpleLength | Md5Length | Sha1Length | InvalidAuthType | DetectMultiZero | Multipoint | MyDiscriminatorZero
| YourDiscriminatorZero.

Definition auth_section_check (p : bfd_packet_t) : option bfd_error :=
  let alen := a_len (p_auth p) in
  if p_length p <? FR_BFD_HEADER_LENGTH + 2 then Some NotEnoughForAuth
  else if negb (p_length p =? FR_BFD_HEADER_LENGTH + alen) then Some AuthLengthMismatch
  else
    match auth_of (a_type (p_auth p)) with
    | Some BFD_AUTH_SIMPLE => if (alen <? 3 + 1) || (3 + 16 <? alen) then Some SimpleLength else None
    | Some BFD_AUTH_KEYED_MD5 | Some BFD_AUTH_MET_KEYED_MD5 => if negb (alen =? 24) then Some Md5Length else None
    | Some BFD_AUTH_KEYED_SHA1 | Some BFD_AUTH_MET_KEYED_SHA1 => if negb (alen =? 28) then Some Sha1Length else None
    | _ => Some InvalidAuthType
    end.

(** [None] is success. *)
Definition fr_bfd_packet_ok (packet : bytes) (packet_len : Z) : option bfd_error :=
  if packet_len <? FR_BFD_HEADER_LENGTH then Some TooShort
  else
    let bfd := bfd_cast packet in
    if negb (p_version bfd =? 1) then Some WrongVersion
    else if p_length bfd <? FR_BFD_HEADER_LENGTH then Some HeaderLengthTooSmall
    else if packet_len <? p_length bfd then Some HeaderLengthNotData
    else
      match (if p_auth_present bfd then auth_section_check bfd else None) with
      | Some err => Some err
      | None =>
          if p_detect_multi bfd =? 0 then Some DetectMultiZero
          else if p_multipoint bfd then Some Multipoint
          else if p_my_disc bfd =? 0 then Some MyDiscriminatorZero
          else if (p_your_disc bfd =? 0) &&
                  negb (bool_decide (p_state bfd = BFD_STATE_DOWN) || bool_decide (p_state bfd = BFD_STATE_ADMIN_DOWN)) then
            Some YourDiscriminatorZero
          else None
      end.

(** ** The layout *)

Definition packet_wf (p : bfd_packet_t) : Prop :=
  0 <= p_diag p < 32 /\ 0 <= p_version p < 8 /\ is_u8 (p_detect_multi p) /\ is_u8 (p_length p) /\
  is_u32 (p_my_disc p) /\ is_u32 (p_your_disc p) /\ is_u32 (p_desired_min_tx_interval p) /\
  is_u32 (p_required_min_rx_interval p) /\ is_u32 (p_min_echo_rx_interval p) /\
  length (p_auth p) = sizeof_auth.

Lemma length_header p : length (header_bytes p) = 24%nat.
Proof. done. Qed.

Lemma get32_put x : is_u32 x -> get32 (put32 x) 0 = x.
Proof.
  unfold is_u32, get32, put32, get, u8. cbn [nth Nat.add]. intros.
  rewrite !Z.shiftr_div_pow2 by lia. change (2 ^ 8) with 256. change (2 ^ 16) with 65536. change (2 ^ 24) with 16777216.
  Z.to_euclidean_division_equations. lia.
Qed.

Lemma get32_at l i : (i + 4 <= length l)%nat -> get32 l i = get32 (take 4 (drop i l)) 0.
Proof.
  intros. unfold get32, get. rewrite !nth_lookup, !lookup_take, !lookup_drop, ?Nat.add_0_r.
  repeat (case_decide; [|lia]). done.
Qed.

Lemma flags_bits (a b c d e f : bool) (s : bfd_session_state_t) :
  let x := Z.b2z a + 2 * Z.b2z b + 4 * Z.b2z c + 8 * Z.b2z d + 16 * Z.b2z e + 32 * Z.b2z f + 64 * state_num s in
  Z.testbit x 0 = a /\ Z.testbit x 1 = b /\ Z.testbit x 2 = c /\ Z.testbit x 3 = d /\ Z.testbit x 4 = e /\
  Z.testbit x 5 = f /\ state_of (x / 64) = s.
Proof. destruct a, b, c, d, e, f, s; vm_compute; auto 10. Qed.

(** Reading the structure over its own bytes, whatever follows the part of the
    authentication section that was sent. *)
Lemma cast_bytes p a : packet_wf p -> length a = sizeof_auth -> bfd_cast (header_bytes p ++ a) = p <| p_auth := a |>.
Proof.
  intros (Hd & Hv & _ & _ & H1 & H2 & H3 & H4 & H5 & _) Ha.
  destruct p as [diag version mp dm ap cpi fin poll st dmul len d1 d2 d3 d4 d5 auth]. cbn in *.
  unfold bfd_cast, header_bytes. cbn [p_diag p_version p_multipoint p_demand p_auth_present p_control_plane_independent
    p_final p_poll p_state p_detect_multi p_length p_my_disc p_your_disc p_desired_min_tx_interval
    p_required_min_rx_interval p_min_echo_rx_interval app get nth].
  destruct (flags_bits mp dm ap cpi fin poll st) as (-> & -> & -> & -> & -> & -> & ->).
  rewrite !(get32_at (_ :: _)) by (cbn [length]; lia). cbn [drop take app put32].
  apply get32_put in H1, H2, H3, H4, H5. unfold put32 in *. rewrite drop_0, take_0, H1, H2, H3, H4, H5.
  rewrite take_ge by (rewrite Ha; done). unfold upd. cbn. f_equal; Z.to_euclidean_division_equations; lia.
Qed.
End BfdPacket.
