(* ===== verification/BfdSession.v ===== *)
(** BFD sessions (RFC 5880): the state machine, timers, poll sequence and
    authentication of src/listen/bfd/session.c, and the reception of a datagram in
    src/listen/bfd/proto_bfd_udp.c.

    A handler takes the session and returns it changed. The outside is seen
    through four parameters: the random numbers, whether a datagram can be sent,
    whether a packet can be handed to a worker, and the context SHA-1 finds on
    the stack. The session records what it sent, and keeps the two timers as when
    or in how long they fire; arming a timer that is armed replaces it, and a
    timer is disarmed before its callback runs. *)

From S2P Require Import Prelude BlockHash Md5 Sha1 UtilTime RadiusPacket RadiusSign BfdPacket.
Import UtilTime BfdPacket.

Module BfdSession.

Inductive bfd_state_change_t :=
| BFD_STATE_CHANGE_INVALID | BFD_STATE_CHANGE_NONE | BFD_STATE_CHANGE_ADMIN_DOWN | BFD_STATE_CHANGE_PEER_DOWN
| BFD_STATE_CHANGE_INIT | BFD_STATE_CHANGE_UP | BFD_STATE_CHANGE_TIMEOUT_DOWN.

#[export] Instance bfd_state_change_t_eq_dec : EqDecision bfd_state_change_t.
Proof. solve_decision. Defined.

(** The two callbacks of the transmission timer. *)
Inductive fr_timer_cb_t := bfd_send_packet_cb | bfd_unlang_send_packet_cb.

(** [sockfd] is what was given to sendfromto, [nr] what was given to the worker
    ([None] when no tracking entry could be had), and [draws] the number of
    random numbers used. [secret] is [client.secret]. *)
Record bfd_session_t := MkSession {
  secret : bytes;
  only_state_changes : bool;
  sockfd : list bytes;
  nr : list (option bytes);
  timeout_ev : option fr_time_t;
  packet_ev : option (fr_time_delta_t * fr_timer_cb_t);
  last_recv : fr_time_t;
  last_sent : fr_time_t;
  session_state : bfd_session_state_t;
  remote_session_state : bfd_session_state_t;
  local_disc : Z;
  remote_disc : Z;
  local_diag : bfd_diag_t;
  detect_multi : Z;
  desired_min_tx_interval : fr_time_delta_t;
  required_min_rx_interval : fr_time_delta_t;
  remote_min_rx_interval : fr_time_delta_t;
  my_min_echo_rx_interval : fr_time_delta_t;
  next_min_tx_interval : fr_time_delta_t;
  demand_mode : bool;
  remote_demand_mode : bool;
  doing_poll : bool;
  auth_seq_known : bool;
  auth_type : bfd_auth_type_t;
  recv_auth_seq : Z;
  xmit_auth_seq : Z;
  detection_time : fr_time_delta_t;
  detection_timeouts : Z;
  passive : bool;
  draws : nat }.

#[export] Instance eta_bfd_session_t : Eta bfd_session_t := fun s =>
  MkSession (secret s) (only_state_changes s) (sockfd s) (nr s) (timeout_ev s) (packet_ev s) (last_recv s) (last_sent s)
    (session_state s) (remote_session_state s) (local_disc s) (remote_disc s) (local_diag s) (detect_multi s)
    (desired_min_tx_interval s) (required_min_rx_interval s) (remote_min_rx_interval s) (my_min_echo_rx_interval s)
    (next_min_tx_interval s) (demand_mode s) (remote_demand_mode s) (doing_poll s) (auth_seq_known s) (auth_type s)
    (recv_auth_seq s) (xmit_auth_seq s) (detection_time s) (detection_timeouts s) (passive s) (draws s).

Definition secret_len (s : bfd_session_t) : Z := Z.of_nat (length (secret s)).

(** [s] is in state [x]. *)
Definition in_state (s x : bfd_session_state_t) : bool := bool_decide (s = x).

Section Session.
Context {Ctx : Type} `{DigestOps Ctx}.
Variable fr_rand : nat -> Z.
Variable send_ok : nat -> bool.
Variable track_ok : nat -> bool.
Variable stack : Sha1.fr_sha1_ctx.

(** ** Timers *)

Definition bfd_stop_control (s : bfd_session_t) : bfd_session_t := s <| timeout_ev := None |> <| packet_ev := None |>.

Definition bfd_session_admin_down (s : bfd_session_t) : bfd_session_t :=
  (bfd_stop_control s) <| session_state := BFD_STATE_ADMIN_DOWN |>.

(** The interval between packets: [None] when the peer does not want any. *)
Definition tx_interval (s : bfd_session_t) : option Z :=
  if 0 <=? fr_time_delta_cmp (desired_min_tx_interval s) (remote_min_rx_interval s) then
    Some (u64 (desired_min_tx_interval s))
  else if u64 (remote_min_rx_interval s) =? 0 then None
  else Some (u64 (remote_min_rx_interval s)).

(** The interval less the random part. *)
Definition tx_delay (detect_multi rand interval : Z) : Z :=
  let base := u64 (interval * 3) / 4 in
  let jitter := u64 (rand * (if detect_multi =? 1 then 644245094 else Z.shiftl 1 30)) in
  let jitter := Z.shiftr jitter 32 in
  let jitter := u64 (jitter * interval) in
  let jitter := Z.shiftr jitter 32 in
  u64 (base + jitter).

Definition bfd_start_packets (s : bfd_session_t) : bfd_session_t :=
  let s := s <| packet_ev := None |> in
  match tx_interval s with
  | None => s
  | Some interval =>
      let interval := tx_delay (detect_multi s) (fr_rand (draws s)) interval in
      let cb := if negb (only_state_changes s) then bfd_unlang_send_packet_cb else bfd_send_packet_cb in
      s <| draws := S (draws s) |> <| packet_ev := Some (s64 interval, cb) |>
  end.

Definition bfd_set_timeout (s : bfd_session_t) (when : fr_time_t) : bfd_session_t :=
  let delay := u64 (detection_time s) in
  let delay := u64 (delay * detect_multi s) in
  let delay := u64 (delay + Z.quot (detection_time s) 2) in
  let delta := fr_time_delta_from_usec (s64 delay) in
  s <| timeout_ev := Some (fr_time_add_time_delta when delta) |>.

Definition bfd_start_control (s : bfd_session_t) : bfd_session_t :=
  if remote_min_rx_interval s =? 0 then s
  else if (remote_disc s =? 0) && passive s then s
  else if remote_demand_mode s && in_state (session_state s) BFD_STATE_UP &&
          in_state (remote_session_state s) BFD_STATE_UP && negb (doing_poll s) then
    bfd_session_admin_down s
  else
    let s := bfd_set_timeout s (last_recv s) in
    bfd_start_packets s.

Definition bfd_start_poll (s : bfd_session_t) : bfd_session_t :=
  if doing_poll s then s
  else
    let s := if negb (remote_demand_mode s) then bfd_stop_control s else s in
    let s := s <| doing_poll := true |> in
    bfd_start_packets s.

Definition bfd_stop_poll (s : bfd_session_t) : bfd_session_t :=
  if negb (doing_poll s) then s
  else
    let s := s <| doing_poll := false |> in
    let s :=
      if 0 <? next_min_tx_interval s then
        s <| desired_min_tx_interval := next_min_tx_interval s |> <| next_min_tx_interval := 0 |>
      else s in
    if negb (remote_demand_mode s) then bfd_start_control (bfd_stop_control s)
    else bfd_stop_control s.

Definition bfd_set_desired_min_tx_interval (s : bfd_session_t) (value : fr_time_delta_t) : bfd_session_t :=
  if doing_poll s && in_state (session_state s) BFD_STATE_UP &&
     (0 <? fr_time_delta_cmp value (desired_min_tx_interval s)) then
    s <| next_min_tx_interval := value |>
  else
    let value :=
      if negb (in_state (session_state s) BFD_STATE_UP) && (fr_time_delta_cmp value (fr_time_delta_from_sec 1) <? 0) then
        fr_time_delta_from_sec 1
      else value in
    let s := s <| desired_min_tx_interval := value |> in
    if doing_poll s then s else bfd_start_poll (bfd_stop_control s).

(** ** Authentication *)

Definition set_auth (p : bfd_packet_t) (i : nat) (l : bytes) : bfd_packet_t := p <| p_auth := splice (p_auth p) i l |>.

Definition bfd_calc_simple (s : bfd_session_t) (p : bfd_packet_t) : bfd_packet_t :=
  let p := set_auth p password_off (secret s) in
  set_auth p 1 [u8 (3 + secret_len s)].

Definition bfd_auth_simple (s : bfd_session_t) (p : bfd_packet_t) : bfd_packet_t :=
  let p := set_auth p 0 [auth_num (auth_type s)] in
  let p := set_auth p 1 [u8 (3 + secret_len s)] in
  let p := p <| p_length := u8 (FR_BFD_HEADER_LENGTH + a_len (p_auth p)) |> in
  let p := set_auth p 2 [0] in
  bfd_calc_simple s p.

(** The digest is over the packet with the key in the place of the digest. *)
Definition bfd_calc_md5 (s : bfd_session_t) (p : bfd_packet_t) : bfd_packet_t :=
  let p := set_auth p digest_off (replicate 16 0) in
  let p := set_auth p digest_off (secret s) in
  set_auth p digest_off (Md5.fr_md5_calc (take (Z.to_nat (p_length p)) (bfd_bytes p))).

Definition bfd_auth_md5 (s : bfd_session_t) (p : bfd_packet_t) : bfd_packet_t * bfd_session_t :=
  let p := set_auth p 0 [auth_num (auth_type s)] in
  let p := set_auth p 1 [sizeof_auth_md5] in
  let p := p <| p_length := u8 (FR_BFD_HEADER_LENGTH + a_len (p_auth p)) |> in
  let p := set_auth p 2 [0] in
  let p := set_auth p 4 (put32 (xmit_auth_seq s)) in
  let s := s <| xmit_auth_seq := u32 (xmit_auth_seq s + 1) |> in
  (bfd_calc_md5 s p, s).

(** SHA-1 of a buffer; [None] does not occur (see [sha1_calc_eq]). *)
Definition sha1_calc (b : bytes) : bytes :=
  match Sha1.fr_sha1_final (Sha1.fr_sha1_update (Sha1.fr_sha1_init stack) b) with Some (d, _) => d | None => [] end.

Definition bfd_calc_sha1 (s : bfd_session_t) (p : bfd_packet_t) : bfd_packet_t :=
  let p := set_auth p digest_off (replicate 20 0) in
  let p := set_auth p digest_off (secret s) in
  set_auth p digest_off (sha1_calc (take (Z.to_nat (p_length p)) (bfd_bytes p))).

Definition bfd_auth_sha1 (s : bfd_session_t) (p : bfd_packet_t) : bfd_packet_t * bfd_session_t :=
  let p := set_auth p 0 [auth_num (auth_type s)] in
  let p := set_auth p 1 [sizeof_auth_sha1] in
  let p := p <| p_length := u8 (FR_BFD_HEADER_LENGTH + a_len (p_auth p)) |> in
  let p := set_auth p 2 [0] in
  let p := set_auth p 4 (put32 (xmit_auth_seq s)) in
  let s := s <| xmit_auth_seq := u32 (xmit_auth_seq s + 1) |> in
  (bfd_calc_sha1 s p, s).

Definition bfd_verify_sequence (s : bfd_session_t) (sequence_no : Z) (keyed : bool) : bool :=
  let start := recv_auth_seq s in
  let start := if keyed then u32 (start + 1) else start in
  let stop := u32 (start + u32 (3 * detect_multi s)) in
  if start <? stop then negb ((sequence_no <? start) || (stop <? sequence_no))
  else negb ((start <? sequence_no) && (sequence_no <? stop)).

Definition bfd_verify_simple (s : bfd_session_t) (p : bfd_packet_t) : bool :=
  if negb (a_len (p_auth p) =? 3 + secret_len s) then false
  else if negb (key_id (p_auth p) =? 0) then false
  else RadiusPacket.fr_digest_cmp (secret s) (take (length (secret s)) (drop password_off (p_auth p))) =? 0.

(** After the digest: the sequence number is checked, once one is known, and kept. *)
Definition verify_seq (s : bfd_session_t) (seq : Z) (keyed : bool) : bool * bfd_session_t :=
  if negb (auth_seq_known s) then (true, s <| auth_seq_known := true |> <| recv_auth_seq := seq |>)
  else if negb (bfd_verify_sequence s seq keyed) then (false, s)
  else (true, s <| recv_auth_seq := seq |>).

(** The digest field is put back as it was, so the packet is not changed. *)
Definition bfd_verify_md5 (s : bfd_session_t) (p : bfd_packet_t) : bool * bfd_session_t :=
  let a := p_auth p in
  if negb (a_len a =? sizeof_auth_md5) then (false, s)
  else if negb (key_id a =? 0) then (false, s)
  else
    let digest := take 16 (drop digest_off a) in
    let computed := take 16 (drop digest_off (p_auth (bfd_calc_md5 s p))) in
    if negb (RadiusPacket.fr_digest_cmp digest computed =? 0) then (false, s)
    else verify_seq s (sequence_no a) (a_type a =? auth_num BFD_AUTH_MET_KEYED_MD5).

Definition bfd_verify_sha1 (s : bfd_session_t) (p : bfd_packet_t) : bool * bfd_session_t :=
  let a := p_auth p in
  if negb (a_len a =? sizeof_auth_sha1) then (false, s)
  else if negb (key_id a =? 0) then (false, s)
  else
    let digest := take 20 (drop digest_off a) in
    let computed := take 20 (drop digest_off (p_auth (bfd_calc_sha1 s p))) in
    if negb (RadiusPacket.fr_digest_cmp digest computed =? 0) then (false, s)
    else verify_seq s (sequence_no a) (a_type a =? auth_num BFD_AUTH_MET_KEYED_SHA1).

(** The type that decides is the one the packet claims. *)
Definition bfd_authenticate (s : bfd_session_t) (p : bfd_packet_t) : bool * bfd_session_t :=
  match auth_of (a_type (p_auth p)) with
  | Some BFD_AUTH_SIMPLE => (bfd_verify_simple s p, s)
  | Some BFD_AUTH_KEYED_MD5 | Some BFD_AUTH_MET_KEYED_MD5 => bfd_verify_md5 s p
  | Some BFD_AUTH_KEYED_SHA1 | Some BFD_AUTH_MET_KEYED_SHA1 => bfd_verify_sha1 s p
  | Some BFD_AUTH_RESERVED | None => (false, s)
  end.

Definition bfd_sign (s : bfd_session_t) (p : bfd_packet_t) : bfd_packet_t * bfd_session_t :=
  if p_auth_present p then
    match auth_type s with
    | BFD_AUTH_RESERVED => (p, s)
    | BFD_AUTH_SIMPLE => (bfd_auth_simple s p, s)
    | BFD_AUTH_KEYED_MD5 | BFD_AUTH_MET_KEYED_MD5 => bfd_auth_md5 s p
    | BFD_AUTH_KEYED_SHA1 | BFD_AUTH_MET_KEYED_SHA1 => bfd_auth_sha1 s p
    end
  else (p, s).

(** ** Sending *)

Definition up_up (s : bfd_session_t) : bool :=
  in_state (session_state s) BFD_STATE_UP && in_state (remote_session_state s) BFD_STATE_UP.

Definition bfd_control_packet_init (s : bfd_session_t) : bfd_packet_t * bfd_session_t :=
  let demand := demand_mode s && up_up s in
  let s := if demand then bfd_stop_control s else s in
  (MkPacket (diag_num (local_diag s)) 1
     false demand (negb (bool_decide (auth_type s = BFD_AUTH_RESERVED))) false
     false false (session_state s)
     (u8 (detect_multi s)) FR_BFD_HEADER_LENGTH
     (local_disc s) (remote_disc s)
     (u32 (fr_time_delta_to_usec (desired_min_tx_interval s)))
     (u32 (fr_time_delta_to_usec (required_min_rx_interval s)))
     (u32 (fr_time_delta_to_usec (my_min_echo_rx_interval s)))
     (replicate sizeof_auth 0), s).

Definition bfd_send_init (s : bfd_session_t) : bfd_packet_t * bfd_session_t :=
  let '(p, s) := bfd_control_packet_init s in
  let p := p <| p_poll := doing_poll s |> in
  let s := if negb (p_demand p) then bfd_start_packets s else s in
  bfd_sign s p.

(** The bytes of a packet that are sent. *)
Definition wire (p : bfd_packet_t) : bytes := take (Z.to_nat (p_length p)) (bfd_bytes p).

Definition sendfromto (s : bfd_session_t) (p : bfd_packet_t) : bool * bfd_session_t :=
  (send_ok (length (sockfd s)), s <| sockfd := sockfd s ++ [wire p] |>).

Definition bfd_send_packet (s : bfd_session_t) (now : fr_time_t) : bfd_session_t :=
  let '(p, s) := bfd_send_init s in
  let s := s <| last_sent := now |> in
  let '(ok, s) := sendfromto s p in
  if negb ok then bfd_session_admin_down s else s.

Definition bfd_unlang_send_packet (s : bfd_session_t) (now : fr_time_t) : bfd_session_t :=
  let '(p, s) := bfd_send_init s in
  let s := s <| last_sent := now |> in
  if track_ok (length (nr s)) then s <| nr := nr s ++ [Some (wire p)] |> else s <| nr := nr s ++ [None] |>.

Definition bfd_poll_response (s : bfd_session_t) : bfd_session_t :=
  let '(p, s) := bfd_control_packet_init s in
  let p := p <| p_poll := false |> <| p_final := true |> in
  let '(p, s) := bfd_sign s p in
  let '(ok, s) := sendfromto s p in
  if negb ok then bfd_session_admin_down s else s.

Definition bfd_detection_timeout (s : bfd_session_t) (now : fr_time_t) : bfd_session_t :=
  let expired :=
    if negb (demand_mode s) then
      match session_state s with BFD_STATE_INIT | BFD_STATE_UP => true | _ => false end
    else negb (doing_poll s) in
  let s :=
    if expired then
      bfd_set_desired_min_tx_interval (s <| session_state := BFD_STATE_DOWN |> <| local_diag := BFD_CTRL_EXPIRED |>)
        (fr_time_delta_from_sec 1)
    else s in
  let s := s <| remote_disc := 0 |> in
  let s := if 2 <=? detection_timeouts s then s <| auth_seq_known := false |> else s in
  let s := s <| detection_timeouts := detection_timeouts s + 1 |> in
  bfd_set_timeout s now.

(** ** Receiving (section 6.8.6) *)

(** The checks that discard a packet; authentication may move the session's
    window of sequence numbers. *)
Definition packet_accepted (s : bfd_session_t) (p : bfd_packet_t) : bool * bfd_session_t :=
  if negb (p_your_disc p =? 0) && negb (p_your_disc p =? local_disc s) then (false, s)
  else if p_auth_present p && bool_decide (auth_type s = BFD_AUTH_RESERVED) then (false, s)
  else if negb (p_auth_present p) && negb (bool_decide (auth_type s = BFD_AUTH_RESERVED)) then (false, s)
  else if p_auth_present p then bfd_authenticate s p
  else (true, s).

(** What is kept of the packet. *)
Definition record_remote (s : bfd_session_t) (p : bfd_packet_t) : bfd_session_t :=
  let s := s <| remote_disc := p_my_disc p |> <| remote_session_state := p_state p |> <| remote_demand_mode := p_demand p |> in
  if (32 <? p_required_min_rx_interval p) && (p_required_min_rx_interval p <? USEC) then
    s <| remote_min_rx_interval := fr_time_delta_from_usec (p_required_min_rx_interval p) |>
  else s.

Definition update_detection (s : bfd_session_t) (p : bfd_packet_t) : bfd_session_t :=
  let tx := fr_time_delta_from_usec (p_desired_min_tx_interval p) in
  if negb (demand_mode s) then
    if tx <=? required_min_rx_interval s then s <| detection_time := required_min_rx_interval s |>
    else s <| detection_time := tx |>
  else if remote_min_rx_interval s <=? desired_min_tx_interval s then s <| detection_time := desired_min_tx_interval s |>
  else s <| detection_time := remote_min_rx_interval s |>.

(** The label [down]. *)
Definition peer_down (s : bfd_session_t) : bfd_session_t * bfd_state_change_t :=
  (s <| local_diag := BFD_NEIGHBOR_DOWN |> <| session_state := BFD_STATE_DOWN |>, BFD_STATE_CHANGE_PEER_DOWN).

(** The state machine, for a session that is not administratively down;
    [None] is the internal check of the code. *)
Definition state_machine (s : bfd_session_t) (p : bfd_packet_t) : option (bfd_session_t * bfd_state_change_t) :=
  let none := Some (s, BFD_STATE_CHANGE_NONE) in
  match p_state p with
  | BFD_STATE_ADMIN_DOWN => if negb (bool_decide (p_state p = BFD_STATE_DOWN)) then Some (peer_down s) else none
  | remote =>
      match session_state s with
      | BFD_STATE_DOWN =>
          match remote with
          | BFD_STATE_DOWN => Some (s <| session_state := BFD_STATE_INIT |>, BFD_STATE_CHANGE_INIT)
          | BFD_STATE_INIT => Some (s <| session_state := BFD_STATE_UP |>, BFD_STATE_CHANGE_UP)
          | _ => none
          end
      | BFD_STATE_INIT =>
          match remote with
          | BFD_STATE_INIT | BFD_STATE_UP => Some (s <| session_state := BFD_STATE_UP |>, BFD_STATE_CHANGE_UP)
          | _ => none
          end
      | BFD_STATE_UP => match remote with BFD_STATE_DOWN => Some (peer_down s) | _ => none end
      | BFD_STATE_ADMIN_DOWN => None
      end
  end.

(** The enumeration starts at 0 with INVALID. *)
Definition change_nonzero (c : bfd_state_change_t) : bool := negb (bool_decide (c = BFD_STATE_CHANGE_INVALID)).

(** Section 6.8.3: slow packets while the session is not Up. *)
Definition slow_down (s : bfd_session_t) (state_change : bfd_state_change_t) : bfd_session_t :=
  if change_nonzero state_change && negb (in_state (session_state s) BFD_STATE_UP) then
    bfd_set_desired_min_tx_interval s (fr_time_delta_from_sec 1)
  else s.

(** Section 6.6: demand mode of the peer stops the packets. *)
Definition follow_demand (s : bfd_session_t) : bfd_session_t :=
  let s := if remote_demand_mode s && up_up s then bfd_stop_control s else s in
  if negb (remote_demand_mode s) || negb (up_up s) then bfd_start_control s else s.

Definition answer_poll (s : bfd_session_t) (p : bfd_packet_t) : bfd_session_t :=
  if p_poll p then bfd_poll_response s else s.

(** The peer is reducing its interval. *)
Definition rearm_timers (s : bfd_session_t) (p : bfd_packet_t) : bfd_session_t :=
  if (fr_time_delta_from_usec (p_required_min_rx_interval p) <? remote_min_rx_interval s) && negb (demand_mode s)
  then bfd_start_control (bfd_stop_control s)
  else s.

Definition bfd_session_process (s : bfd_session_t) (p : bfd_packet_t) (now : fr_time_t) : bfd_session_t * bfd_state_change_t :=
  let '(ok, s) := packet_accepted s p in
  if negb ok then (s, BFD_STATE_CHANGE_INVALID)
  else
    let s := record_remote s p in
    let s := if doing_poll s && p_final p then bfd_stop_poll s else s in
    let s := update_detection s p in
    if in_state (session_state s) BFD_STATE_ADMIN_DOWN then (s, BFD_STATE_CHANGE_ADMIN_DOWN)
    else
      match state_machine s p with
      | None => (s, BFD_STATE_CHANGE_INVALID)
      | Some (s, state_change) =>
          let s := slow_down s state_change in
          let s := follow_demand s in
          let s := answer_poll s p in
          let s := s <| last_recv := now |> in
          let s := rearm_timers s p in
          (s, state_change)
      end.

(** ** Setting up *)

Definition bfd_session_init (s : bfd_session_t) : bfd_session_t :=
  let s := s <| session_state := BFD_STATE_DOWN |> in
  let s := s <| local_disc := fr_rand (draws s) |> <| draws := S (draws s) |> in
  let s := s <| remote_disc := 0 |> <| local_diag := BFD_DIAG_NONE |> <| remote_min_rx_interval := 1 |>
             <| remote_demand_mode := false |> <| recv_auth_seq := 0 |> in
  let s := s <| xmit_auth_seq := fr_rand (draws s) |> <| draws := S (draws s) |> in
  let s := s <| auth_seq_known := false |> in
  if negb (demand_mode s) then s <| detection_time := required_min_rx_interval s |>
  else s <| detection_time := desired_min_tx_interval s |>.

Definition bfd_session_start (s : bfd_session_t) : bfd_session_t := bfd_start_control s.

(** [mod_read] from the point where the peer was found: the session, and how many
    bytes of the wrapper and the packet go on to the worker. [sizeof(wrapper)] is
    the size of a pointer. *)
Definition mod_read (s : bfd_session_t) (only_changes : bool) (packet : bytes) (packet_len : Z) (now : fr_time_t)
    : bfd_session_t * Z :=
  match fr_bfd_packet_ok packet packet_len with
  | Some _ => (s, 0)
  | None =>
      let '(s, state_change) := bfd_session_process s (bfd_cast packet) now in
      match state_change with
      | BFD_STATE_CHANGE_INVALID | BFD_STATE_CHANGE_ADMIN_DOWN => (s, 0)
      | BFD_STATE_CHANGE_NONE => if only_changes then (s, 0) else (s, 8 + packet_len)
      | _ => (s, 8 + packet_len)
      end
  end.
End Session.
End BfdSession.
