(* ===== verification/BfdAuth.v ===== *)
(** Authentication of BFD packets (src/listen/bfd/session.c): what a session
    signs, the peer with the same secret accepts off the wire. *)

From S2P Require Import Prelude BlockHash Md5 Sha1 UtilTime RadiusPacket RadiusSign BfdPacket BfdSession.
Import UtilTime BfdPacket BfdSession.

Module BfdAuth.

(** ** The digested image *)

(** A section of which the digest field holds the key, padded with zeros. *)
Definition keyed (a key : bytes) (n : nat) : bytes := take digest_off a ++ key ++ replicate (n - length key) 0.

Lemma keyed_splice a key n :
  length a = sizeof_auth -> (length key <= n)%nat -> (n <= 20)%nat ->
  take (digest_off + n) (splice (splice a digest_off (replicate n 0)) digest_off key) = keyed a key n.
Proof.
  unfold keyed, sizeof_auth, digest_off. intros Ha Hk Hn. unfold splice at 1.
  assert (length (splice a 8 (replicate n 0)) = 28%nat) as Hl
    by (rewrite length_splice by (rewrite length_replicate; lia); done).
  rewrite take_app_ge by (rewrite length_take; lia). rewrite length_take, Hl. f_equal.
  - apply take_splice_le. lia.
  - replace (8 + n - 8 `min` 28)%nat with n by lia. rewrite take_app_ge by lia. f_equal.
    unfold splice. rewrite drop_app_ge by (rewrite length_take; lia). rewrite length_take.
    replace (8 + length key - 8 `min` length a)%nat with (length key) by lia.
    rewrite drop_app_le by (rewrite length_replicate; lia). rewrite drop_replicate.
    rewrite take_app_le by (rewrite length_replicate; lia). rewrite take_ge by (rewrite length_replicate; lia). done.
Qed.

Lemma take_keyed a key n : length a = sizeof_auth -> take digest_off (keyed a key n) = take digest_off a.
Proof.
  unfold keyed, sizeof_auth, digest_off. intros. rewrite take_app_le by (rewrite length_take; lia).
  rewrite take_take. done.
Qed.

(** Two sections that agree before the digest have the same image. *)
Lemma keyed_agree a b key n : take digest_off a = take digest_off b -> keyed a key n = keyed b key n.
Proof. unfold keyed. by intros ->. Qed.

(** ** The wire *)

Lemma header_ext p q : p <| p_auth := p_auth q |> = q -> header_bytes p = header_bytes q.
Proof. by intros <-. Qed.

Lemma wire_split p n : p_length p = FR_BFD_HEADER_LENGTH + Z.of_nat n -> wire p = header_bytes p ++ take n (p_auth p).
Proof.
  unfold wire, bfd_bytes. intros ->. replace (Z.to_nat (24 + Z.of_nat n)) with (24 + n)%nat by lia.
  rewrite take_app_ge by (rewrite length_header; lia). rewrite length_header. do 2 f_equal. lia.
Qed.

(** The receiver sees the packet that was sent; in its authentication section
    what follows the part on the wire is what its buffer held. *)
Lemma wire_cast p n stale :
  packet_wf p -> p_length p = FR_BFD_HEADER_LENGTH + Z.of_nat n -> (n <= sizeof_auth <= n + length stale)%nat ->
  bfd_cast (wire p ++ stale) = p <| p_auth := take n (p_auth p) ++ take (sizeof_auth - n) stale |>.
Proof.
  intros Hw Hn Hs. rewrite (wire_split p n Hn). pose proof Hw as (_ & _ & _ & _ & _ & _ & _ & _ & _ & Hl).
  replace ((header_bytes p ++ take n (p_auth p)) ++ stale) with
    (header_bytes p ++ (take n (p_auth p) ++ take (sizeof_auth - n) stale) ++ drop (sizeof_auth - n) stale)
    by (rewrite <- !app_assoc, take_drop; done).
  assert (forall a x, length a = sizeof_auth -> bfd_cast (header_bytes p ++ a ++ x) = bfd_cast (header_bytes p ++ a)) as Hx.
  { intros a x Ha. unfold bfd_cast, header_bytes, put32, get32, get. cbn [app nth Nat.add drop].
    rewrite !drop_0, take_app_le, (take_ge a) by lia. done. }
  rewrite Hx by (rewrite length_app, !length_take; lia).
  apply cast_bytes; [done|]. rewrite length_app, !length_take. lia.
Qed.

(** ** Digests, for a hash [H] of [n] bytes *)

Definition calc (n : nat) (H : bytes -> bytes) (key : bytes) (p : bfd_packet_t) : bfd_packet_t :=
  let p := set_auth p digest_off (replicate n 0) in
  let p := set_auth p digest_off key in
  set_auth p digest_off (H (take (Z.to_nat (p_length p)) (bfd_bytes p))).

(** The fields of the section before the digest. *)
Definition prefix_of (typ len seq : Z) : bytes := [typ; len; 0; 0] ++ put32 seq.

Definition signed (n : nat) (H : bytes -> bytes) (key : bytes) (p : bfd_packet_t) : Prop :=
  take n (drop digest_off (p_auth p)) = H (header_bytes p ++ keyed (p_auth p) key n).

#[export] Instance signed_dec n H key p : Decision (signed n H key p).
Proof. unfold signed. apply _. Defined.

Section Calc.
Variables (n : nat) (H : bytes -> bytes) (key : bytes).
Hypothesis Hn : (n <= 20)%nat.
Hypothesis Hkey : (length key <= n)%nat.
Hypothesis Hlen : forall b, (length b <= sizeof_packet)%nat -> length (H b) = n.

Lemma calc_image p :
  length (p_auth p) = sizeof_auth -> p_length p = FR_BFD_HEADER_LENGTH + Z.of_nat (digest_off + n) ->
  p_auth (calc n H key p) =
  splice (splice (splice (p_auth p) digest_off (replicate n 0)) digest_off key) digest_off
    (H (header_bytes p ++ keyed (p_auth p) key n)).
Proof.
  intros Ha Hl. unfold calc. cbn zeta. set (q := set_auth (set_auth p digest_off (replicate n 0)) digest_off key).
  assert (wire q = header_bytes p ++ keyed (p_auth p) key n) as Hw.
  { rewrite (wire_split q (digest_off + n) Hl). rewrite <- keyed_splice by done. done. }
  unfold wire in Hw. rewrite Hw. done.
Qed.

Lemma keyed_length a : length a = sizeof_auth -> length (keyed a key n) = (digest_off + n)%nat.
Proof. unfold keyed, digest_off, sizeof_auth. intros. rewrite !length_app, length_take, length_replicate. lia. Qed.

Lemma digest_size p : length (p_auth p) = sizeof_auth -> length (H (header_bytes p ++ keyed (p_auth p) key n)) = n.
Proof. intros. apply Hlen. rewrite length_app, length_header, keyed_length by done. unfold digest_off, sizeof_packet. lia. Qed.

(** The digest field after the calculation. *)
Lemma calc_field p :
  length (p_auth p) = sizeof_auth -> p_length p = FR_BFD_HEADER_LENGTH + Z.of_nat (digest_off + n) ->
  take n (drop digest_off (p_auth (calc n H key p))) = H (header_bytes p ++ keyed (p_auth p) key n).
Proof.
  intros Ha Hl. pose proof (digest_size p Ha) as Hd. rewrite calc_image by done. unfold sizeof_auth, digest_off in *.
  apply slice_splice; [|done]. rewrite Hd. splice_len.
Qed.

(** Calculating leaves everything else and makes the packet signed. *)
Lemma calc_signed p :
  length (p_auth p) = sizeof_auth -> p_length p = FR_BFD_HEADER_LENGTH + Z.of_nat (digest_off + n) ->
  let q := calc n H key p in
  signed n H key q /\ take digest_off (p_auth q) = take digest_off (p_auth p) /\
  length (p_auth q) = sizeof_auth /\ q = p <| p_auth := p_auth q |>.
Proof.
  intros Ha Hl q. pose proof (digest_size p Ha) as Hd.
  assert (take digest_off (p_auth q) = take digest_off (p_auth p)) as Ht.
  { unfold q. rewrite calc_image by done. unfold sizeof_auth, digest_off in *.
    rewrite !take_splice_le by splice_len. done. }
  repeat split.
  - unfold signed. unfold q at 1. rewrite calc_field by done.
    rewrite (keyed_agree (p_auth q) (p_auth p)) by done. done.
  - done.
  - unfold q. rewrite calc_image by done. unfold sizeof_auth, digest_off in *.
    splice_len.
Qed.

(** Recalculating over a packet finds its digest exactly when it is signed. *)
Lemma calc_check p :
  length (p_auth p) = sizeof_auth -> p_length p = FR_BFD_HEADER_LENGTH + Z.of_nat (digest_off + n) ->
  (RadiusPacket.fr_digest_cmp (take n (drop digest_off (p_auth p))) (take n (drop digest_off (p_auth (calc n H key p)))) =? 0)
  = bool_decide (signed n H key p).
Proof.
  intros Ha Hl. rewrite calc_field by done. apply fr_digest_cmp_eq.
  rewrite digest_size, length_take, length_drop by done. unfold sizeof_auth, digest_off in *. lia.
Qed.

(** The peer reads a signed packet off the wire as a signed packet. *)
Lemma signed_wire p stale :
  packet_wf p -> p_length p = FR_BFD_HEADER_LENGTH + Z.of_nat (digest_off + n) ->
  (sizeof_auth <= digest_off + n + length stale)%nat -> signed n H key p ->
  let q := bfd_cast (wire p ++ stale) in
  signed n H key q /\ take digest_off (p_auth q) = take digest_off (p_auth p) /\
  length (p_auth q) = sizeof_auth /\ p_length q = p_length p.
Proof.
  intros Hw Hl Hs Hsig q. pose proof Hw as (_ & _ & _ & _ & _ & _ & _ & _ & _ & Ha). unfold q.
  rewrite (wire_cast p (digest_off + n)) by (unfold sizeof_auth, digest_off in *; done || lia).
  unfold signed, upd. cbn [p_auth p_length]. unfold sizeof_auth, digest_off in *.
  assert (take 8 (take (8 + n) (p_auth p) ++ take (28 - (8 + n)) stale) = take 8 (p_auth p)) as Ht.
  { rewrite take_app_le by (rewrite length_take; lia). rewrite take_take. done. }
  repeat split.
  - rewrite (keyed_agree _ (p_auth p)) by done. rewrite <- Hsig.
    rewrite drop_app_le by (rewrite length_take; lia). rewrite take_app_le by (rewrite length_drop, length_take; lia).
    rewrite !take_drop_commute, take_take, Nat.min_id. done.
  - done.
  - rewrite length_app, !length_take. lia.
Qed.
End Calc.

(** ** Sections of each type *)

(** The lengths of secret that the configuration allows. *)
Definition key_ok (t : bfd_auth_type_t) (key : bytes) : Prop :=
  match t with
  | BFD_AUTH_RESERVED => True
  | BFD_AUTH_SIMPLE | BFD_AUTH_KEYED_MD5 | BFD_AUTH_MET_KEYED_MD5 => (1 <= length key <= 16)%nat
  | BFD_AUTH_KEYED_SHA1 | BFD_AUTH_MET_KEYED_SHA1 => (1 <= length key <= 20)%nat
  end.

(** How many bytes of the section are sent. *)
Definition auth_size (t : bfd_auth_type_t) (key : bytes) : nat :=
  match t with
  | BFD_AUTH_RESERVED => 0
  | BFD_AUTH_SIMPLE => 3 + length key
  | BFD_AUTH_KEYED_MD5 | BFD_AUTH_MET_KEYED_MD5 => 24
  | BFD_AUTH_KEYED_SHA1 | BFD_AUTH_MET_KEYED_SHA1 => 28
  end.

Lemma key_size t key : key_ok t key -> (auth_size t key <= sizeof_auth)%nat.
Proof. unfold sizeof_auth. destruct t; cbn; lia. Qed.

(** The sequence number that was signed is read back. *)
Lemma prefix_fields a t len seq :
  is_u32 seq -> take digest_off a = prefix_of t len seq -> length a = sizeof_auth ->
  a_type a = t /\ a_len a = len /\ key_id a = 0 /\ sequence_no a = seq.
Proof.
  intros Hs Ht Hl. assert (forall i, (i < 8)%nat -> get a i = get (prefix_of t len seq) i) as Hg.
  { intros i Hi. unfold get. rewrite !nth_lookup, <- Ht, lookup_take_lt by (unfold digest_off; lia). done. }
  unfold a_type, a_len, key_id, sequence_no. repeat (split; [rewrite Hg by lia; done|]).
  unfold get32. rewrite !Hg by lia. rewrite <- (get32_put seq Hs) at 5. done.
Qed.

Lemma simple_fields a (key : bytes) :
  take (3 + length key) a = [1; 3 + Z.of_nat (length key); 0] ++ key ->
  a_type a = 1 /\ a_len a = 3 + Z.of_nat (length key) /\ key_id a = 0 /\
  take (length key) (drop password_off a) = key.
Proof.
  intros Ht. assert (forall i, (i < 3)%nat -> get a i = get ([1; 3 + Z.of_nat (length key); 0] ++ key) i) as Hg.
  { intros i Hi. unfold get. rewrite !nth_lookup, <- Ht, lookup_take_lt by lia. done. }
  unfold a_type, a_len, key_id. repeat (split; [rewrite Hg by lia; done|]).
  unfold password_off. rewrite take_drop_commute, Ht. done.
Qed.

Lemma simple_section (key : bytes) (l : Z) :
  take (3 + length key)
    (splice (splice (splice (splice (splice (replicate sizeof_auth 0) 0 [1]) 1 [l]) 2 [0]) 3 key) 1 [l]) = [1; l; 0] ++ key.
Proof.
  change (splice (splice (splice (replicate sizeof_auth 0) 0 [1]) 1 [l]) 2 [0]) with (1 :: l :: 0 :: replicate 25 0).
  set (r := replicate 25 0). clearbody r. unfold splice. cbn [take drop app length Nat.add].
  rewrite take_0, app_nil_l, take_app_length. done.
Qed.

Section Auth.
Context {Ctx : Type} `{Hops : DigestOps Ctx} `{Hlaws : !DigestLaws Ctx}.
Hypothesis H16 : digest_len = 16%nat.
Hypothesis Hmax : 64 < digest_max.
Variable stack : Sha1.fr_sha1_ctx.
Hypothesis Hstack : length (Sha1.buffer stack) = 64%nat.

Abbreviation md5_calc := (Md5.fr_md5_calc (Ctx := Ctx)).

Lemma md5_calc_length b : (length b <= sizeof_packet)%nat -> length (md5_calc b) = 16%nat.
Proof.
  unfold sizeof_packet, Md5.fr_md5_calc. intros Hb. rewrite <- H16.
  rewrite (ctx_final_digest _ ([] ++ b)); [apply digest_length| |rewrite app_nil_l; lia].
  apply ctx_update_holds; [apply ctx_alloc_holds|cbn [length]; lia].
Qed.

(** The SHA-1 of a packet is SHA-1. *)
Lemma sha1_calc_eq b : (length b <= sizeof_packet)%nat -> sha1_calc stack b = Sha1.sha1 b.
Proof.
  unfold sizeof_packet, sha1_calc. intros Hb. pose proof (Sha1.chunks_final stack [b] Hstack) as Hf.
  cbn [fold_left concat] in Hf. rewrite app_nil_r in Hf. rewrite Hf; [done|].
  constructor; [unfold Sha1.sha1_chunk_max; lia|constructor].
Qed.

Lemma sha1_calc_length b : (length b <= sizeof_packet)%nat -> length (sha1_calc stack b) = 20%nat.
Proof. intros. rewrite sha1_calc_eq by done. apply Sha1.sha1_length. Qed.

(** What a packet signed for type [t] holds. *)
Definition good_auth (t : bfd_auth_type_t) (key : bytes) (seq : Z) (q : bfd_packet_t) : Prop :=
  length (p_auth q) = sizeof_auth /\
  match t with
  | BFD_AUTH_RESERVED => p_length q = FR_BFD_HEADER_LENGTH
  | BFD_AUTH_SIMPLE =>
      p_length q = FR_BFD_HEADER_LENGTH + Z.of_nat (3 + length key) /\
      take (3 + length key) (p_auth q) = [1; 3 + Z.of_nat (length key); 0] ++ key
  | BFD_AUTH_KEYED_MD5 | BFD_AUTH_MET_KEYED_MD5 =>
      p_length q = FR_BFD_HEADER_LENGTH + Z.of_nat (digest_off + 16) /\
      take digest_off (p_auth q) = prefix_of (auth_num t) 24 seq /\ signed 16 md5_calc key q
  | BFD_AUTH_KEYED_SHA1 | BFD_AUTH_MET_KEYED_SHA1 =>
      p_length q = FR_BFD_HEADER_LENGTH + Z.of_nat (digest_off + 20) /\
      take digest_off (p_auth q) = prefix_of (auth_num t) 28 seq /\ signed 20 (sha1_calc stack) key q
  end.

(** The section of [p] that [bfd_auth_md5] and [bfd_auth_sha1] fill before the digest. *)
Lemma fill_prefix a t len seq :
  a = replicate sizeof_auth 0 ->
  let b := splice (splice (splice (splice a 0 [t]) 1 [len]) 2 [0]) 4 (put32 seq) in
  length b = sizeof_auth /\ take digest_off b = prefix_of t len seq.
Proof. intros ->. done. Qed.

Lemma fill_calc n H t x seq key p :
  (length key <= n <= 20)%nat -> (forall b, (length b <= sizeof_packet)%nat -> length (H b) = n) ->
  p_auth p = replicate sizeof_auth 0 ->
  let p0 := set_auth (set_auth (set_auth (set_auth p 0 [t]) 1 [x]) 2 [0]) 4 (put32 seq) in
  let q := calc n H key (p0 <| p_length := FR_BFD_HEADER_LENGTH + Z.of_nat (digest_off + n) |>) in
  (length (p_auth q) = sizeof_auth /\ p_length q = FR_BFD_HEADER_LENGTH + Z.of_nat (digest_off + n) /\
   take digest_off (p_auth q) = prefix_of t x seq /\ signed n H key q) /\
  q = p <| p_length := p_length q |> <| p_auth := p_auth q |>.
Proof.
  intros Hn HH Ha p0 q. destruct (fill_prefix (p_auth p) t x seq Ha) as [H1 H2].
  destruct (calc_signed n H key ltac:(lia) ltac:(lia) HH
    (p0 <| p_length := FR_BFD_HEADER_LENGTH + Z.of_nat (digest_off + n) |>)) as (H3 & H4 & H5 & H6); [done|done|].
  fold q in H3, H4, H5, H6. rewrite H4. repeat split; done.
Qed.

Definition filled (p : bfd_packet_t) (t x seq : Z) (n : nat) : bfd_packet_t :=
  (set_auth (set_auth (set_auth (set_auth p 0 [t]) 1 [x]) 2 [0]) 4 (put32 seq))
    <| p_length := FR_BFD_HEADER_LENGTH + Z.of_nat (digest_off + n) |>.

Lemma auth_md5_eq s p :
  p_auth p = replicate sizeof_auth 0 ->
  bfd_auth_md5 s p = (calc 16 md5_calc (secret s) (filled p (auth_num (auth_type s)) 24 (xmit_auth_seq s) 16),
                      s <| xmit_auth_seq := u32 (xmit_auth_seq s + 1) |>).
Proof. destruct p. cbn [p_auth]. intros ->. reflexivity. Qed.

Lemma auth_sha1_eq s p :
  p_auth p = replicate sizeof_auth 0 ->
  bfd_auth_sha1 stack s p = (calc 20 (sha1_calc stack) (secret s) (filled p (auth_num (auth_type s)) 28 (xmit_auth_seq s) 20),
                       s <| xmit_auth_seq := u32 (xmit_auth_seq s + 1) |>).
Proof. destruct p. cbn [p_auth]. intros ->. reflexivity. Qed.

Lemma auth_simple_good s p :
  auth_type s = BFD_AUTH_SIMPLE -> (length (secret s) <= 16)%nat -> p_auth p = replicate sizeof_auth 0 ->
  let q := bfd_auth_simple s p in
  good_auth BFD_AUTH_SIMPLE (secret s) (xmit_auth_seq s) q /\ q = p <| p_length := p_length q |> <| p_auth := p_auth q |>.
Proof.
  intros Ht Hk Ha q. split; [|done].
  pose proof (simple_section (secret s) (3 + Z.of_nat (length (secret s)))) as Hs.
  assert (u8 (3 + secret_len s) = 3 + Z.of_nat (length (secret s))) as Hx
    by (unfold secret_len; apply u8_id; unfold is_u8; lia).
  assert (p_auth q = splice (splice (splice (splice (splice (p_auth p) 0 [1]) 1 [u8 (3 + secret_len s)]) 2 [0]) 3 (secret s))
     1 [u8 (3 + secret_len s)]) as Hq by (unfold q, bfd_auth_simple; rewrite Ht; done).
  assert (p_length q = u8 (FR_BFD_HEADER_LENGTH + a_len (splice (splice (p_auth p) 0 [1]) 1 [u8 (3 + secret_len s)]))) as Hl
    by (unfold q, bfd_auth_simple; rewrite Ht; done).
  rewrite Ha, Hx in Hq, Hl. unfold good_auth. rewrite Hq. repeat split; [| |done].
  - unfold sizeof_auth. splice_len.
  - rewrite Hl. change (a_len _) with (3 + Z.of_nat (length (secret s))).
    rewrite u8_id; unfold is_u8; lia.
Qed.

Lemma sign_good s p :
  key_ok (auth_type s) (secret s) -> p_auth p = replicate sizeof_auth 0 -> p_length p = FR_BFD_HEADER_LENGTH ->
  p_auth_present p = negb (bool_decide (auth_type s = BFD_AUTH_RESERVED)) ->
  let '(q, s') := bfd_sign stack s p in
  good_auth (auth_type s) (secret s) (xmit_auth_seq s) q /\
  s' = s <| xmit_auth_seq := xmit_auth_seq s' |> /\
  q = p <| p_length := p_length q |> <| p_auth := p_auth q |>.
Proof.
  intros Hk Ha Hl Hp. unfold bfd_sign. rewrite Hp.
  pose proof (fill_calc 16 md5_calc (auth_num (auth_type s)) 24 (xmit_auth_seq s) (secret s) p) as Hmd5.
  pose proof (fill_calc 20 (sha1_calc stack) (auth_num (auth_type s)) 28 (xmit_auth_seq s) (secret s) p) as Hsha1.
  pose proof (auth_simple_good s p) as Hs.
  destruct (auth_type s) eqn:Ht; cbn [key_ok] in Hk.
  - rewrite bool_decide_true by done. cbn [negb]. repeat split; [by rewrite Ha| |by destruct s|by destruct p].
    by unfold good_auth.
  - rewrite bool_decide_false by done. cbn [negb]. destruct Hs as [H1 H2]; [done|lia|done|]. split; [done|]. by destruct s.
  - rewrite bool_decide_false by done. cbn [negb]. rewrite auth_md5_eq by done. rewrite Ht.
    destruct Hmd5 as [(H1 & H2 & H3 & H4) H5]; [lia|apply md5_calc_length|done|].
    exact (conj (conj H1 (conj H2 (conj H3 H4))) (conj eq_refl H5)).
  - rewrite bool_decide_false by done. cbn [negb]. rewrite auth_md5_eq by done. rewrite Ht.
    destruct Hmd5 as [(H1 & H2 & H3 & H4) H5]; [lia|apply md5_calc_length|done|].
    exact (conj (conj H1 (conj H2 (conj H3 H4))) (conj eq_refl H5)).
  - rewrite bool_decide_false by done. cbn [negb]. rewrite auth_sha1_eq by done. rewrite Ht.
    destruct Hsha1 as [(H1 & H2 & H3 & H4) H5]; [lia|apply sha1_calc_length|done|].
    exact (conj (conj H1 (conj H2 (conj H3 H4))) (conj eq_refl H5)).
  - rewrite bool_decide_false by done. cbn [negb]. rewrite auth_sha1_eq by done. rewrite Ht.
    destruct Hsha1 as [(H1 & H2 & H3 & H4) H5]; [lia|apply sha1_calc_length|done|].
    exact (conj (conj H1 (conj H2 (conj H3 H4))) (conj eq_refl H5)).
Qed.

Lemma good_length t key seq q : good_auth t key seq q -> p_length q = FR_BFD_HEADER_LENGTH + Z.of_nat (auth_size t key).
Proof. clear Hstack H16 Hmax. intros [_ H]. destruct t; first [exact H | exact (proj1 H)]. Qed.

Lemma good_wire t key seq p stale :
  key_ok t key -> packet_wf p -> good_auth t key seq p -> (sizeof_auth <= length stale)%nat ->
  good_auth t key seq (bfd_cast (wire p ++ stale)).
Proof.
  intros Hk Hw Hg Hs. pose proof (good_length _ _ _ _ Hg) as Hl. pose proof (key_size _ _ Hk) as Hz.
  pose proof (wire_cast p _ stale Hw Hl ltac:(lia)) as Hc. destruct Hg as [Ha Hg].
  pose proof (fun a b => signed_wire 16 md5_calc key a b p stale Hw) as Hmd5.
  pose proof (fun a b => signed_wire 20 (sha1_calc stack) key a b p stale Hw) as Hsha1. unfold sizeof_auth in *.
  destruct t; cbn [auth_size key_ok] in *.
  - split; [rewrite Hc|by rewrite Hc]. cbn [upd p_auth]. unfold sizeof_auth. rewrite length_app, !length_take. lia.
  - rewrite Hc. split; [|split].
    + cbn [upd p_auth]. unfold sizeof_auth. rewrite length_app, !length_take. lia.
    + tauto.
    + cbn [upd p_auth]. rewrite take_app_le by (rewrite length_take; lia). rewrite take_take, Nat.min_id. tauto.
  - destruct Hg as (_ & H2 & H3). destruct Hmd5 as (M1 & M2 & M3 & M4); [lia|lia|done|lia|done|].
    rewrite <- M2 in H2. rewrite <- M4 in Hl. exact (conj M3 (conj Hl (conj H2 M1))).
  - destruct Hg as (_ & H2 & H3). destruct Hmd5 as (M1 & M2 & M3 & M4); [lia|lia|done|lia|done|].
    rewrite <- M2 in H2. rewrite <- M4 in Hl. exact (conj M3 (conj Hl (conj H2 M1))).
  - destruct Hg as (_ & H2 & H3). destruct Hsha1 as (M1 & M2 & M3 & M4); [lia|lia|done|lia|done|].
    rewrite <- M2 in H2. rewrite <- M4 in Hl. exact (conj M3 (conj Hl (conj H2 M1))).
  - destruct Hg as (_ & H2 & H3). destruct Hsha1 as (M1 & M2 & M3 & M4); [lia|lia|done|lia|done|].
    rewrite <- M2 in H2. rewrite <- M4 in Hl. exact (conj M3 (conj Hl (conj H2 M1))).
Qed.

(** Whether the sequence number of a packet is one the session takes. *)
Definition seq_ok (s : bfd_session_t) (t : bfd_auth_type_t) (seq : Z) : bool :=
  match t with
  | BFD_AUTH_RESERVED | BFD_AUTH_SIMPLE => true
  | BFD_AUTH_KEYED_MD5 | BFD_AUTH_KEYED_SHA1 => negb (auth_seq_known s) || bfd_verify_sequence s seq false
  | BFD_AUTH_MET_KEYED_MD5 | BFD_AUTH_MET_KEYED_SHA1 => negb (auth_seq_known s) || bfd_verify_sequence s seq true
  end.

Definition has_seq (t : bfd_auth_type_t) : bool :=
  match t with BFD_AUTH_RESERVED | BFD_AUTH_SIMPLE => false | _ => true end.

(** The session after a packet was authenticated. *)
Definition seq_taken (s : bfd_session_t) (t : bfd_auth_type_t) (seq : Z) : bfd_session_t :=
  if has_seq t then s <| auth_seq_known := true |> <| recv_auth_seq := seq |> else s.

Lemma verify_seq_eq s seq keyed :
  negb (auth_seq_known s) || bfd_verify_sequence s seq keyed = true ->
  verify_seq s seq keyed = (true, s <| auth_seq_known := true |> <| recv_auth_seq := seq |>).
Proof.
  unfold verify_seq. destruct (auth_seq_known s) eqn:Hk; cbn [negb orb]; [|done]. intros ->. cbn [negb].
  destruct s. cbn in Hk. subst. done.
Qed.

Lemma verify_simple_good s q :
  take (3 + length (secret s)) (p_auth q) = [1; 3 + secret_len s; 0] ++ secret s -> bfd_verify_simple s q = true.
Proof.
  intros Ht. destruct (simple_fields _ _ Ht) as (_ & H2 & H3 & H4). unfold bfd_verify_simple, secret_len.
  rewrite H2, H3, H4, Z.eqb_refl. cbn [negb]. change (0 =? 0) with true. cbn [negb].
  rewrite fr_digest_cmp_eq by done. by apply bool_decide_true.
Qed.

Lemma verify_md5_good s q t seq :
  (length (secret s) <= 16)%nat -> is_u32 seq -> length (p_auth q) = sizeof_auth ->
  p_length q = FR_BFD_HEADER_LENGTH + Z.of_nat (digest_off + 16) ->
  take digest_off (p_auth q) = prefix_of t 24 seq -> signed 16 md5_calc (secret s) q ->
  bfd_verify_md5 s q = verify_seq s seq (t =? auth_num BFD_AUTH_MET_KEYED_MD5).
Proof.
  intros Hk Hq Ha Hl Hp Hs. destruct (prefix_fields _ _ _ _ Hq Hp Ha) as (H1 & H2 & H3 & H4).
  pose proof (calc_check 16 md5_calc (secret s) ltac:(lia) Hk md5_calc_length q Ha Hl) as Hc.
  rewrite (bool_decide_true _ Hs) in Hc. unfold bfd_verify_md5. cbn zeta. rewrite H1, H2, H3, H4.
  change (bfd_calc_md5 s q) with (calc 16 md5_calc (secret s) q). rewrite Hc. done.
Qed.

Lemma verify_sha1_good s q t seq :
  (length (secret s) <= 20)%nat -> is_u32 seq -> length (p_auth q) = sizeof_auth ->
  p_length q = FR_BFD_HEADER_LENGTH + Z.of_nat (digest_off + 20) ->
  take digest_off (p_auth q) = prefix_of t 28 seq -> signed 20 (sha1_calc stack) (secret s) q ->
  bfd_verify_sha1 stack s q = verify_seq s seq (t =? auth_num BFD_AUTH_MET_KEYED_SHA1).
Proof.
  intros Hk Hq Ha Hl Hp Hs. destruct (prefix_fields _ _ _ _ Hq Hp Ha) as (H1 & H2 & H3 & H4).
  pose proof (calc_check 20 (sha1_calc stack) (secret s) ltac:(lia) Hk sha1_calc_length q Ha Hl) as Hc.
  rewrite (bool_decide_true _ Hs) in Hc. unfold bfd_verify_sha1. cbn zeta. rewrite H1, H2, H3, H4.
  change (bfd_calc_sha1 stack s q) with (calc 20 (sha1_calc stack) (secret s) q). rewrite Hc. done.
Qed.

(** A session accepts a packet signed with its secret, of any type, when the
    sequence number is in its window. *)
Lemma good_authenticates t seq s q :
  t <> BFD_AUTH_RESERVED -> key_ok t (secret s) -> is_u32 seq -> good_auth t (secret s) seq q -> seq_ok s t seq = true ->
  bfd_authenticate stack s q = (true, seq_taken s t seq).
Proof.
  intros Ht Hk Hq [Ha Hg] Hs. unfold bfd_authenticate.
  destruct t; [done|destruct Hg as (H1 & H2)|destruct Hg as (H1 & H2 & H3)..]; cbn [key_ok] in Hk.
  - destruct (simple_fields _ _ H2) as (-> & _). change (auth_of 1) with (Some BFD_AUTH_SIMPLE). cbn iota.
    rewrite verify_simple_good by done. done.
  - destruct (prefix_fields _ _ _ _ Hq H2 Ha) as (-> & _). cbn [auth_num]. change (auth_of 2) with (Some BFD_AUTH_KEYED_MD5).
    rewrite (verify_md5_good s q 2 seq) by (done || lia). by apply verify_seq_eq.
  - destruct (prefix_fields _ _ _ _ Hq H2 Ha) as (-> & _). cbn [auth_num]. change (auth_of 3) with (Some BFD_AUTH_MET_KEYED_MD5).
    rewrite (verify_md5_good s q 3 seq) by (done || lia). by apply verify_seq_eq.
  - destruct (prefix_fields _ _ _ _ Hq H2 Ha) as (-> & _). cbn [auth_num]. change (auth_of 4) with (Some BFD_AUTH_KEYED_SHA1).
    rewrite (verify_sha1_good s q 4 seq) by (done || lia). by apply verify_seq_eq.
  - destruct (prefix_fields _ _ _ _ Hq H2 Ha) as (-> & _). cbn [auth_num]. change (auth_of 5) with (Some BFD_AUTH_MET_KEYED_SHA1).
    rewrite (verify_sha1_good s q 5 seq) by (done || lia). by apply verify_seq_eq.
Qed.
End Auth.
End BfdAuth.
