(* ===== verification/BfdProtocol.v ===== *)
(** The BFD state machine of src/listen/bfd/session.c against RFC 5880: every
    received packet has the effect of the table of section 6.8.6, the packets a
    session sends pass the checks of its peer, two sessions that exchange packets
    come up, and the transmission timer keeps to the jitter of section 6.8.7. *)

From S2P Require Import Prelude BlockHash Md5 Sha1 UtilTime Rand RadiusPacket RadiusSign BfdPacket BfdSession BfdAuth.
Import UtilTime BfdPacket BfdSession BfdAuth.

Module BfdProtocol.

(** ** What the state machine depends on *)

(** The variables of section 6.8.1 that decide, and the number of datagrams sent. *)
Record view := MkView {
  v_state : bfd_session_state_t;
  v_remote : bfd_session_state_t;
  v_remote_disc : Z;
  v_remote_demand : bool;
  v_remote_min_rx : fr_time_delta_t;
  v_poll : bool;
  v_tx : fr_time_delta_t;
  v_next_tx : fr_time_delta_t;
  v_demand : bool;
  v_passive : bool;
  v_sent : nat }.

#[export] Instance eta_view : Eta view := fun v =>
  MkView (v_state v) (v_remote v) (v_remote_disc v) (v_remote_demand v) (v_remote_min_rx v) (v_poll v) (v_tx v) (v_next_tx v) (v_demand v)
    (v_passive v) (v_sent v).

Definition abs (s : bfd_session_t) : view :=
  MkView (session_state s) (remote_session_state s) (remote_disc s) (remote_demand_mode s) (remote_min_rx_interval s)
    (doing_poll s) (desired_min_tx_interval s) (next_min_tx_interval s) (demand_mode s) (passive s) (length (sockfd s)).

(** The table of section 6.8.6. *)
Definition rfc_next (local remote : bfd_session_state_t) : bfd_session_state_t :=
  match local, remote with
  | BFD_STATE_ADMIN_DOWN, _ => BFD_STATE_ADMIN_DOWN
  | _, BFD_STATE_ADMIN_DOWN => BFD_STATE_DOWN
  | BFD_STATE_DOWN, BFD_STATE_DOWN => BFD_STATE_INIT
  | BFD_STATE_DOWN, BFD_STATE_INIT => BFD_STATE_UP
  | BFD_STATE_DOWN, BFD_STATE_UP => BFD_STATE_DOWN
  | BFD_STATE_INIT, BFD_STATE_DOWN => BFD_STATE_INIT
  | BFD_STATE_INIT, _ => BFD_STATE_UP
  | BFD_STATE_UP, BFD_STATE_DOWN => BFD_STATE_DOWN
  | BFD_STATE_UP, _ => BFD_STATE_UP
  end.

Definition rx_after (v : view) (p : bfd_packet_t) : fr_time_delta_t :=
  if (32 <? p_required_min_rx_interval p) && (p_required_min_rx_interval p <? USEC) then
    1000 * p_required_min_rx_interval p
  else v_remote_min_rx v.

(** The end of a poll sequence, when an interval that was put off takes effect. *)
Definition settle (v : view) : view :=
  if v_poll v then
    let v := v <| v_poll := false |> in
    if 0 <? v_next_tx v then v <| v_tx := v_next_tx v |> <| v_next_tx := 0 |> else v
  else v.

(** Receiving the variables of the packet; a Final ends the poll sequence. *)
Definition learn (v : view) (p : bfd_packet_t) : view :=
  let v := v <| v_remote := p_state p |> <| v_remote_disc := p_my_disc p |> <| v_remote_demand := p_demand p |>
             <| v_remote_min_rx := rx_after v p |> in
  if p_final p then settle v else v.

(** The state changes by the table; a session that is not Up sends no more than
    one packet a second, and polls (section 6.8.3). *)
Definition move (v : view) (p : bfd_packet_t) : view :=
  let v := v <| v_state := rfc_next (v_state v) (p_state p) |> in
  if in_state (v_state v) BFD_STATE_UP then v else v <| v_tx := NSEC |> <| v_poll := true |>.

(** What the code reports. *)
Definition rfc_change (local remote : bfd_session_state_t) : bfd_state_change_t :=
  match local, remote with
  | BFD_STATE_ADMIN_DOWN, _ => BFD_STATE_CHANGE_ADMIN_DOWN
  | _, BFD_STATE_ADMIN_DOWN | BFD_STATE_UP, BFD_STATE_DOWN => BFD_STATE_CHANGE_PEER_DOWN
  | BFD_STATE_DOWN, BFD_STATE_DOWN => BFD_STATE_CHANGE_INIT
  | BFD_STATE_DOWN, BFD_STATE_INIT | BFD_STATE_INIT, BFD_STATE_INIT | BFD_STATE_INIT, BFD_STATE_UP => BFD_STATE_CHANGE_UP
  | _, _ => BFD_STATE_CHANGE_NONE
  end.

(** A Poll is answered by one datagram; when it cannot be sent the session is
    shut down. *)
Definition answer (send_ok : nat -> bool) (v : view) (p : bfd_packet_t) : view :=
  if p_poll p then
    (if send_ok (v_sent v) then v else v <| v_state := BFD_STATE_ADMIN_DOWN |>) <| v_sent := S (v_sent v) |>
  else v.

(** The last step of the code re-arms the timers when the interval the peer asks
    for is below the one that is kept; for a peer in demand mode this shuts an
    Up session down. *)
Definition rearm_shuts (v : view) (p : bfd_packet_t) : bool :=
  (1000 * p_required_min_rx_interval p <? v_remote_min_rx v) && negb (v_demand v) && negb (v_remote_min_rx v =? 0) &&
  negb ((v_remote_disc v =? 0) && v_passive v) && v_remote_demand v && in_state (v_state v) BFD_STATE_UP &&
  in_state (v_remote v) BFD_STATE_UP && negb (v_poll v).

Definition rearm (v : view) (p : bfd_packet_t) : view :=
  if rearm_shuts v p then v <| v_state := BFD_STATE_ADMIN_DOWN |> else v.

Definition rfc_process (send_ok : nat -> bool) (v : view) (p : bfd_packet_t) : view :=
  let v := learn v p in
  if in_state (v_state v) BFD_STATE_ADMIN_DOWN then v
  else rearm (answer send_ok (move v p) p) p.

(** The fields after each step. *)
Lemma learn_fields v p :
  let w := learn v p in
  v_state w = v_state v /\ v_remote w = p_state p /\ v_remote_disc w = p_my_disc p /\ v_remote_demand w = p_demand p /\
  v_poll w = v_poll v && negb (p_final p) /\ v_demand w = v_demand v /\ v_sent w = v_sent v.
Proof.
  unfold learn, settle. cbn. destruct (p_final p); cbn; [|by rewrite andb_true_r].
  destruct (v_poll v) eqn:E; cbn; [by case_if|]. by rewrite E.
Qed.

Lemma move_fields v p :
  let w := move v p in
  v_state w = rfc_next (v_state v) (p_state p) /\ v_remote w = v_remote v /\ v_remote_disc w = v_remote_disc v /\
  v_remote_demand w = v_remote_demand v /\
  v_poll w = v_poll v || negb (in_state (rfc_next (v_state v) (p_state p)) BFD_STATE_UP) /\ v_sent w = v_sent v.
Proof.
  unfold move. cbn. case_if; cbn; [by rewrite orb_false_r|]. by rewrite orb_true_r.
Qed.

(** ** Frames of the operations *)

Section Frames.
Context {Ctx : Type} `{Hops : DigestOps Ctx}.
Variable fr_rand : nat -> Z.
Variable send_ok : nat -> bool.
Variable stack : Sha1.fr_sha1_ctx.

Lemma start_packets_abs s : abs (bfd_start_packets fr_rand s) = abs s.
Proof. unfold bfd_start_packets. cbn zeta. by destruct (tx_interval _). Qed.

Lemma stop_control_abs s : abs (bfd_stop_control s) = abs s.
Proof. done. Qed.

Lemma admin_down_abs s : abs (bfd_session_admin_down s) = (abs s) <| v_state := BFD_STATE_ADMIN_DOWN |>.
Proof. done. Qed.

(** Starting the timers shuts an Up session down when the peer is in demand mode
    and no poll sequence runs. *)
Definition start_shuts (v : view) : bool :=
  negb (v_remote_min_rx v =? 0) && negb ((v_remote_disc v =? 0) && v_passive v) && v_remote_demand v &&
  in_state (v_state v) BFD_STATE_UP && in_state (v_remote v) BFD_STATE_UP && negb (v_poll v).

Lemma start_control_abs s :
  abs (bfd_start_control fr_rand s) =
  if start_shuts (abs s) then (abs s) <| v_state := BFD_STATE_ADMIN_DOWN |> else abs s.
Proof.
  unfold bfd_start_control, start_shuts. cbn [abs v_remote_min_rx v_remote_disc v_passive v_remote_demand v_state v_remote v_poll].
  destruct (remote_min_rx_interval s =? 0); [done|]. destruct (_ && passive s); [done|]. cbn [negb andb].
  destruct (_ && negb (doing_poll s)); [apply admin_down_abs|]. by rewrite start_packets_abs.
Qed.

Lemma start_poll_abs s : abs (bfd_start_poll fr_rand s) = (abs s) <| v_poll := true |>.
Proof.
  unfold bfd_start_poll. destruct (doing_poll s) eqn:Hd.
  - unfold abs. cbn. by rewrite Hd.
  - rewrite start_packets_abs. by destruct (remote_demand_mode s).
Qed.

Lemma stop_poll_abs s : abs (bfd_stop_poll fr_rand s) = settle (abs s).
Proof.
  unfold bfd_stop_poll, settle. change (v_poll (abs s)) with (doing_poll s). destruct (doing_poll s); cbn [negb]; [|done].
  match goal with |- context [if (0 <? ?x) then ?a else ?b] => set (s1 := if (0 <? x) then a else b) end.
  match goal with |- _ = ?v => assert (abs s1 = v) as <- by (unfold s1; cbn; by case_if) end.
  destruct (remote_demand_mode s1) eqn:Hr; cbn [negb]; [done|]. rewrite start_control_abs.
  assert (start_shuts (abs (bfd_stop_control s1)) = false) as ->; [|done].
  unfold start_shuts. cbn. rewrite Hr. by rewrite !andb_false_r.
Qed.

Lemma set_desired_abs s :
  session_state s <> BFD_STATE_UP ->
  abs (bfd_set_desired_min_tx_interval fr_rand s (fr_time_delta_from_sec 1)) = (abs s) <| v_tx := NSEC |> <| v_poll := true |>.
Proof.
  intros Hs. unfold bfd_set_desired_min_tx_interval, in_state. rewrite (bool_decide_false (_ = _)) by done.
  rewrite andb_false_r. change (fr_time_delta_from_sec 1) with NSEC. cbn [negb andb].
  change (fr_time_delta_cmp NSEC NSEC <? 0) with false. cbn iota.
  destruct (doing_poll s) eqn:Hd; cbn [doing_poll upd]; rewrite Hd.
  - unfold abs. cbn. by rewrite Hd.
  - by rewrite start_poll_abs.
Qed.

Lemma control_packet_init_abs s : abs (snd (bfd_control_packet_init s)) = abs s.
Proof. unfold bfd_control_packet_init. cbn zeta. cbn [snd]. by destruct (demand_mode s && up_up s). Qed.

Lemma sign_abs s p : abs (snd (bfd_sign stack s p)) = abs s.
Proof. unfold bfd_sign. destruct (p_auth_present p); [|done]. by destruct (auth_type s). Qed.

Lemma poll_response_abs s :
  abs (bfd_poll_response send_ok stack s) =
  (if send_ok (v_sent (abs s)) then abs s else (abs s) <| v_state := BFD_STATE_ADMIN_DOWN |>) <| v_sent := S (v_sent (abs s)) |>.
Proof.
  unfold bfd_poll_response. pose proof (control_packet_init_abs s) as H1.
  destruct (bfd_control_packet_init s) as [p s1]. cbn [snd] in H1. rewrite <- H1.
  set (p1 := p <| p_poll := false |> <| p_final := true |>). pose proof (sign_abs s1 p1) as H2.
  destruct (bfd_sign stack s1 p1) as [p2 s2]. cbn [snd] in H2. rewrite <- H2. unfold sendfromto.
  change (v_sent (abs s2)) with (length (sockfd s2)).
  destruct (send_ok (length (sockfd s2))); cbn [negb]; unfold abs; cbn; rewrite length_app; cbn; by rewrite Nat.add_1_r.
Qed.

Lemma verify_seq_abs s seq keyed : abs (snd (verify_seq s seq keyed)) = abs s.
Proof. unfold verify_seq. by repeat case_if. Qed.

Lemma accepted_abs s p : abs (snd (packet_accepted stack s p)) = abs s.
Proof.
  unfold packet_accepted. do 3 (case_if; [done|]). destruct (p_auth_present p); [|done].
  unfold bfd_authenticate. destruct (auth_of _) as [[]|]; try done; unfold bfd_verify_md5, bfd_verify_sha1; cbn zeta;
    repeat (case_if; [done|]); apply verify_seq_abs.
Qed.

(** A packet that is discarded leaves no trace. *)
Lemma verify_seq_fails s seq keyed : fst (verify_seq s seq keyed) = false -> snd (verify_seq s seq keyed) = s.
Proof. unfold verify_seq. by repeat case_if. Qed.

Lemma rejected_same s p : fst (packet_accepted stack s p) = false -> snd (packet_accepted stack s p) = s.
Proof.
  unfold packet_accepted. do 3 (case_if; [done|]). destruct (p_auth_present p); [|done].
  unfold bfd_authenticate. destruct (auth_of _) as [[]|]; try done; unfold bfd_verify_md5, bfd_verify_sha1; cbn zeta;
    repeat (case_if; [done|]); apply verify_seq_fails.
Qed.

Lemma from_usec_small x : 0 <= x < 2 ^ 53 -> fr_time_delta_from_usec x = 1000 * x.
Proof.
  intros. unfold fr_time_delta_from_usec, fr_time_delta_from_scaled, fr_multiply. change (Z.quot NSEC USEC) with 1000.
  rewrite fits_s64_in by (unfold is_s64, INT64_MIN, INT64_MAX; lia). lia.
Qed.

Lemma from_usec_u32 x : is_u32 x -> fr_time_delta_from_usec x = 1000 * x.
Proof. unfold is_u32. intros. apply from_usec_small. lia. Qed.

Lemma learn_abs s p :
  is_u32 (p_required_min_rx_interval p) ->
  let s1 := record_remote s p in
  abs (update_detection (if doing_poll s1 && p_final p then bfd_stop_poll fr_rand s1 else s1) p) = learn (abs s) p.
Proof.
  intros Hp s1.
  assert (forall s, abs (update_detection s p) = abs s) as Hu by (intros s'; unfold update_detection; by repeat case_if).
  unfold learn. match goal with |- _ = if _ then settle ?v else _ => assert (abs s1 = v) as <- end.
  { unfold s1, record_remote, rx_after. rewrite from_usec_u32 by done. by case_if. }
  rewrite Hu. destruct (p_final p); [|by rewrite andb_false_r]. rewrite andb_true_r.
  destruct (doing_poll s1) eqn:Hd; [apply stop_poll_abs|]. unfold settle. change (v_poll (abs s1)) with (doing_poll s1).
  by rewrite Hd.
Qed.

Lemma state_machine_abs s p :
  session_state s <> BFD_STATE_ADMIN_DOWN ->
  exists s', state_machine s p = Some (s', rfc_change (session_state s) (p_state p)) /\
             abs s' = (abs s) <| v_state := rfc_next (session_state s) (p_state p) |>.
Proof.
  intros Hs. unfold state_machine. destruct (session_state s) eqn:Hl, (p_state p) eqn:Hp; try done;
    (eexists; split; [reflexivity|]); unfold abs; cbn; by rewrite ?Hl.
Qed.

Definition view_up_up (v : view) : bool := in_state (v_state v) BFD_STATE_UP && in_state (v_remote v) BFD_STATE_UP.

(** The two tests on demand mode only stop or start the timers. *)
Lemma follow_demand_abs s : abs (follow_demand fr_rand s) = abs s.
Proof.
  unfold follow_demand. set (s1 := if _ && _ then bfd_stop_control s else s). cbn zeta.
  assert (abs s1 = abs s) as H1 by (unfold s1; by case_if). rewrite <- H1.
  destruct (negb (remote_demand_mode s1) || negb (up_up s1)) eqn:Hd; [|done]. rewrite start_control_abs.
  assert (start_shuts (abs s1) = false) as ->; [|done].
  unfold start_shuts. change (v_remote_demand (abs s1)) with (remote_demand_mode s1).
  change (up_up s1) with (view_up_up (abs s1)) in Hd. unfold view_up_up in Hd.
  destruct (remote_demand_mode s1); [|by rewrite andb_false_r]. cbn [negb orb] in Hd. apply negb_true_iff in Hd.
  apply andb_false_iff in Hd as [->| ->]; by rewrite ?andb_false_r.
Qed.

Lemma answer_abs s p : abs (answer_poll send_ok stack s p) = answer send_ok (abs s) p.
Proof. unfold answer_poll, answer. destruct (p_poll p); [|done]. apply poll_response_abs. Qed.

Lemma rearm_abs s p : is_u32 (p_required_min_rx_interval p) -> abs (rearm_timers fr_rand s p) = rearm (abs s) p.
Proof.
  intros Hp. unfold rearm_timers. rewrite from_usec_u32 by done. unfold rearm, rearm_shuts.
  change (remote_min_rx_interval s) with (v_remote_min_rx (abs s)). change (demand_mode s) with (v_demand (abs s)).
  destruct (_ && negb (v_demand (abs s))); [|done]. rewrite start_control_abs. done.
Qed.

Lemma move_abs s p s' :
  abs s' = (abs s) <| v_state := rfc_next (session_state s) (p_state p) |> ->
  abs (slow_down fr_rand s' (rfc_change (session_state s) (p_state p))) = move (abs s) p.
Proof.
  intros Hs. unfold move, slow_down. change (v_state (abs s)) with (session_state s). rewrite <- Hs. cbn zeta.
  assert (change_nonzero (rfc_change (session_state s) (p_state p)) = true) as -> by (by destruct (session_state s), (p_state p)).
  change (v_state (abs s')) with (session_state s'). unfold in_state. case_bool_decide as Hu; cbn [negb andb]; [done|].
  by apply set_desired_abs.
Qed.

(** What identifies a session to its peer: none of it changes but by
    authentication, and the sequence number by signing. *)
Definition ident (s : bfd_session_t) :=
  (secret s, auth_type s, local_disc s, detect_multi s, auth_seq_known s, recv_auth_seq s).
Definition outbox (s : bfd_session_t) := (xmit_auth_seq s, sockfd s).

Definition same_ident (s' s : bfd_session_t) : Prop := ident s' = ident s /\ outbox s' = outbox s.

Lemma start_packets_ident s : same_ident (bfd_start_packets fr_rand s) s.
Proof. unfold bfd_start_packets. cbn zeta. by destruct (tx_interval _). Qed.

Lemma start_control_ident s : same_ident (bfd_start_control fr_rand s) s.
Proof.
  unfold bfd_start_control. do 3 (case_if; [done|]).
  exact (start_packets_ident (bfd_set_timeout s (last_recv s))).
Qed.

Lemma stop_poll_ident s : same_ident (bfd_stop_poll fr_rand s) s.
Proof.
  unfold bfd_stop_poll. case_if; [done|]. cbn zeta.
  match goal with |- context [if (0 <? ?x) then ?a else ?b] => set (s1 := if (0 <? x) then a else b) end.
  assert (same_ident s1 s) as [E1 E2] by (unfold s1; by case_if).
  assert (forall s', same_ident s' s1 -> same_ident s' s) as Ht by (intros s' [E3 E4]; split; congruence).
  apply Ht. case_if; [|done]. apply (start_control_ident (bfd_stop_control s1)).
Qed.

Lemma set_desired_ident s v : same_ident (bfd_set_desired_min_tx_interval fr_rand s v) s.
Proof.
  unfold bfd_set_desired_min_tx_interval. case_if; [done|]. cbn zeta. case_if; [done|].
  unfold bfd_start_poll. case_if; [done|]. cbn zeta.
  match goal with |- same_ident (bfd_start_packets _ ?x) _ => destruct (start_packets_ident x) as [E1 E2]; split; [rewrite E1|rewrite E2] end;
    by case_if.
Qed.

Lemma update_detection_ident s p : same_ident (update_detection s p) s.
Proof. unfold update_detection. by repeat case_if. Qed.

Lemma record_remote_ident s p : same_ident (record_remote s p) s.
Proof. unfold record_remote. by case_if. Qed.

Lemma state_machine_ident s p s' c : state_machine s p = Some (s', c) -> same_ident s' s.
Proof. unfold state_machine. destruct (p_state p), (session_state s); cbn; intros [= <- <-] || done; done. Qed.

Lemma slow_down_ident s c : same_ident (slow_down fr_rand s c) s.
Proof. unfold slow_down. case_if; [apply set_desired_ident|done]. Qed.

Lemma follow_demand_ident s : same_ident (follow_demand fr_rand s) s.
Proof.
  unfold follow_demand. set (s1 := if _ && _ then bfd_stop_control s else s). cbn zeta.
  assert (same_ident s1 s) as [E1 E2] by (unfold s1; by case_if). case_if; [|done].
  destruct (start_control_ident s1) as [E3 E4]. split; congruence.
Qed.

Lemma rearm_timers_ident s p : same_ident (rearm_timers fr_rand s p) s.
Proof. unfold rearm_timers. case_if; [|done]. exact (start_control_ident (bfd_stop_control s)). Qed.

Lemma process_rejected s p now :
  fst (packet_accepted stack s p) = false ->
  bfd_session_process fr_rand send_ok stack s p now = (s, BFD_STATE_CHANGE_INVALID).
Proof.
  intros Ha. unfold bfd_session_process. pose proof (rejected_same s p Ha) as Hs.
  destruct (packet_accepted stack s p) as [ok s0]. cbn [fst snd] in *. by subst.
Qed.

(** The session once it has learnt from the packet. *)
Lemma process_learn s p now s0 :
  is_u32 (p_required_min_rx_interval p) -> packet_accepted stack s p = (true, s0) ->
  exists s1, abs s1 = learn (abs s) p /\ session_state s1 = session_state s /\ ident s1 = ident s0 /\ outbox s1 = outbox s0 /\
    bfd_session_process fr_rand send_ok stack s p now =
    if in_state (session_state s) BFD_STATE_ADMIN_DOWN then (s1, BFD_STATE_CHANGE_ADMIN_DOWN)
    else
      match state_machine s1 p with
      | None => (s1, BFD_STATE_CHANGE_INVALID)
      | Some (s2, c) =>
          (rearm_timers fr_rand
             ((answer_poll send_ok stack (follow_demand fr_rand (slow_down fr_rand s2 c)) p) <| last_recv := now |>) p, c)
      end.
Proof.
  intros Hp Ha. pose proof (accepted_abs s p) as H0. unfold bfd_session_process. rewrite Ha in *. cbn [snd] in H0. cbn [negb].
  assert (session_state s = session_state s0) as Hs0 by exact (f_equal v_state (eq_sym H0)). rewrite <- H0, Hs0. clear H0 Hs0 Ha.
  set (s1 := if doing_poll (record_remote s0 p) && p_final p then bfd_stop_poll fr_rand (record_remote s0 p)
      else record_remote s0 p). pose proof (learn_abs s0 p Hp) as H1. cbn zeta in H1. fold s1 in H1.
  assert (same_ident s1 (record_remote s0 p)) as [I1 O1] by (unfold s1; case_if; [apply stop_poll_ident|done]).
  destruct (update_detection_ident s1 p) as [I2 O2], (record_remote_ident s0 p) as [I0 O0].
  assert (session_state (update_detection s1 p) = session_state s0) as Hst.
  { transitivity (v_state (learn (abs s0) p)); [exact (f_equal v_state H1)|]. unfold learn, settle.
    destruct (p_final p); [|done]. cbn. destruct (doing_poll s0); [|done]. by case_if. }
  exists (update_detection s1 p). split; [done|]. split; [done|]. split; [congruence|]. split; [congruence|].
  cbn zeta. fold s1. by rewrite Hst.
Qed.

(** The session at the point where a Poll is answered. *)
Lemma process_trace s p now s0 :
  is_u32 (p_required_min_rx_interval p) -> session_state s <> BFD_STATE_ADMIN_DOWN -> packet_accepted stack s p = (true, s0) ->
  exists s1, abs s1 = move (learn (abs s) p) p /\ ident s1 = ident s0 /\ outbox s1 = outbox s0 /\
    bfd_session_process fr_rand send_ok stack s p now =
    (rearm_timers fr_rand ((answer_poll send_ok stack s1 p) <| last_recv := now |>) p, rfc_change (session_state s) (p_state p)).
Proof.
  intros Hp Hs Ha. destruct (process_learn s p now s0 Hp Ha) as (s1 & H1 & Hst & I1 & O1 & ->).
  unfold in_state at 1. rewrite bool_decide_false by done. rewrite <- Hst in Hs. rewrite <- Hst, <- H1.
  destruct (state_machine_abs s1 p Hs) as (s2 & Hm & H2). rewrite Hm.
  set (s3 := slow_down fr_rand s2 (rfc_change (session_state s1) (p_state p))). exists (follow_demand fr_rand s3).
  destruct (state_machine_ident _ _ _ _ Hm) as [I2 O2], (slow_down_ident s2 (rfc_change (session_state s1) (p_state p))) as [I3 O3],
    (follow_demand_ident s3) as [I4 O4].
  fold s3 in I3, O3. split; [rewrite follow_demand_abs; by apply move_abs|]. split; [congruence|]. split; [congruence|]. done.
Qed.

(** The code refines the abstract machine on the packets it accepts. *)
Lemma process_abs s p now :
  is_u32 (p_required_min_rx_interval p) -> fst (packet_accepted stack s p) = true ->
  let '(s', rc) := bfd_session_process fr_rand send_ok stack s p now in
  abs s' = rfc_process send_ok (abs s) p /\ rc = rfc_change (session_state s) (p_state p).
Proof.
  intros Hp Ha. destruct (packet_accepted stack s p) as [ok s0] eqn:Hok. cbn [fst] in Ha. subst ok. unfold rfc_process.
  destruct (decide (session_state s = BFD_STATE_ADMIN_DOWN)) as [Hs|Hs].
  - destruct (process_learn s p now s0 Hp Hok) as (s1 & H1 & Hst & _ & _ & ->). rewrite <- H1.
    change (v_state (abs s1)) with (session_state s1). by rewrite Hst, Hs.
  - destruct (process_learn s p now s0 Hp Hok) as (s1 & H1 & Hst & _). rewrite <- Hst in Hs.
    assert (in_state (v_state (learn (abs s) p)) BFD_STATE_ADMIN_DOWN = false) as ->
      by (rewrite <- H1; by apply bool_decide_false). rewrite Hst in Hs.
    destruct (process_trace s p now s0 Hp Hs Hok) as (s2 & H2 & _ & _ & ->). split; [|done].
    rewrite rearm_abs by done. f_equal. rewrite <- H2, <- answer_abs. done.
Qed.
End Frames.

(** ** What a session sends *)

(** A session as the configuration of proto_bfd.c leaves it; the discriminators
    and the sequence number are 32-bit. *)
Definition sendable (s : bfd_session_t) : Prop :=
  is_u32 (local_disc s) /\ local_disc s <> 0 /\ is_u32 (remote_disc s) /\ is_u32 (xmit_auth_seq s) /\
  1 <= detect_multi s <= 10 /\ key_ok (auth_type s) (secret s).

(** A packet may say that the peer is unknown only in the Down states. *)
Definition disc_known (s : bfd_session_t) : Prop :=
  remote_disc s <> 0 \/ session_state s = BFD_STATE_DOWN \/ session_state s = BFD_STATE_ADMIN_DOWN.

(** The packet for a session, before it is signed. *)
Definition packet_for (s : bfd_session_t) (poll final : bool) : bfd_packet_t :=
  (fst (bfd_control_packet_init s)) <| p_poll := poll |> <| p_final := final |>.

Section Sent.
Context {Ctx : Type} `{Hops : DigestOps Ctx} `{Hlaws : !DigestLaws Ctx}.
Hypothesis H16 : digest_len = 16%nat.
Hypothesis Hmax : 64 < digest_max.
Variable fr_rand : nat -> Z.
Variable send_ok : nat -> bool.
Variable stack : Sha1.fr_sha1_ctx.
Hypothesis Hstack : length (Sha1.buffer stack) = 64%nat.

Lemma key_length_u8 t key seq q : key_ok t key -> good_auth stack t key seq q -> is_u8 (p_length q).
Proof.
  clear H16 Hmax Hstack. intros Hk Hg. rewrite (good_length _ _ _ _ _ Hg). pose proof (key_size _ _ Hk). unfold sizeof_auth, is_u8 in *. lia.
Qed.

Lemma diag_range d : 0 <= diag_num d < 32.
Proof. destruct d; cbn; lia. Qed.

Lemma sent_spec s s1 poll final :
  sendable s -> auth_type s1 = auth_type s -> secret s1 = secret s -> xmit_auth_seq s1 = xmit_auth_seq s ->
  let '(q, s2) := bfd_sign stack s1 (packet_for s poll final) in
  packet_wf q /\ good_auth stack (auth_type s) (secret s) (xmit_auth_seq s) q /\
  q = (packet_for s poll final) <| p_length := p_length q |> <| p_auth := p_auth q |> /\
  s2 = s1 <| xmit_auth_seq := xmit_auth_seq s2 |>.
Proof.
  intros (Hl & _ & Hr & _ & Hm & Hk) Ht Hs Hx.
  pose proof (sign_good H16 Hmax stack Hstack s1 (packet_for s poll final)) as Hg. rewrite Ht, Hs, Hx in Hg.
  assert (forall q, good_auth stack (auth_type s) (secret s) (xmit_auth_seq s) q ->
    q = (packet_for s poll final) <| p_length := p_length q |> <| p_auth := p_auth q |> -> packet_wf q) as Hwf.
  { intros q Hq ->. pose proof (key_length_u8 _ _ _ _ Hk Hq) as Hlen. destruct Hq as [Ha _]. unfold packet_wf. cbn.
    repeat (split; [first [apply diag_range | done | apply u8_range | apply u32_range | by destruct (_ && _)]|]). done. }
  destruct (bfd_sign stack s1 (packet_for s poll final)) as [q s2].
  destruct Hg as (H1 & H2 & H3); [done|done|done|by unfold packet_for, bfd_control_packet_init; cbn; destruct (_ && _)|].
  split; [by apply Hwf|]. exact (conj H1 (conj H3 H2)).
Qed.

Lemma good_section t key seq q :
  t <> BFD_AUTH_RESERVED -> key_ok t key -> is_u32 seq -> good_auth stack t key seq q -> auth_section_check q = None.
Proof.
  clear H16 Hmax Hstack. intros Ht Hk Hq [Ha Hg]. unfold auth_section_check. cbn zeta.
  destruct t; [done|destruct Hg as (H1 & H2)|destruct Hg as (H1 & H2 & _)..]; cbn [key_ok] in Hk; rewrite H1.
  - destruct (simple_fields _ _ H2) as (-> & -> & _). change (auth_of 1) with (Some BFD_AUTH_SIMPLE). cbn iota.
    case_if; [lia|]. destruct (Z.eqb_spec (24 + Z.of_nat (3 + length key)) (24 + (3 + Z.of_nat (length key)))); [|lia].
    cbn [negb]. case_if; [|done]. exfalso. apply orb_true_iff in Heqb0 as []; simpl_bool; lia.
  - by destruct (prefix_fields _ _ _ _ Hq H2 Ha) as (-> & -> & _).
  - by destruct (prefix_fields _ _ _ _ Hq H2 Ha) as (-> & -> & _).
  - by destruct (prefix_fields _ _ _ _ Hq H2 Ha) as (-> & -> & _).
  - by destruct (prefix_fields _ _ _ _ Hq H2 Ha) as (-> & -> & _).
Qed.

Lemma wire_length t key seq q :
  key_ok t key -> packet_wf q -> good_auth stack t key seq q -> Z.of_nat (length (wire q)) = p_length q.
Proof.
  clear H16 Hmax Hstack. intros Hk (_ & _ & _ & _ & _ & _ & _ & _ & _ & Ha) Hg. pose proof (good_length _ _ _ _ _ Hg) as Hl. pose proof (key_size _ _ Hk).
  rewrite (wire_split _ _ Hl), Hl, length_app, length_header, length_take. unfold sizeof_auth in *. lia.
Qed.

(** What the peer reads of a packet that was sent. *)
Definition received (s : bfd_session_t) (poll final : bool) (c : bfd_packet_t) : Prop :=
  good_auth stack (auth_type s) (secret s) (xmit_auth_seq s) c /\
  c = (packet_for s poll final) <| p_length := p_length c |> <| p_auth := p_auth c |>.

Lemma received_ok s poll final c len buf :
  sendable s -> disc_known s -> received s poll final c -> bfd_cast buf = c -> len = p_length c ->
  fr_bfd_packet_ok buf len = None.
Proof.
  clear H16 Hmax Hstack. intros (_ & Hl & _ & Hx & Hm & Hk) Hd [Hg Hc] Hb ->. pose proof (good_length _ _ _ _ _ Hg) as Hlen.
  unfold fr_bfd_packet_ok. rewrite Hb. cbn zeta.
  assert (FR_BFD_HEADER_LENGTH <= p_length c) by lia.
  destruct (Z.ltb_spec (p_length c) FR_BFD_HEADER_LENGTH); [lia|].
  assert (p_version c = 1) as -> by (by rewrite Hc). cbn [negb]. change (1 =? 1) with true. cbn [negb].
  destruct (Z.ltb_spec (p_length c) (p_length c)); [lia|].
  assert ((if p_auth_present c then auth_section_check c else None) = None) as ->.
  { assert (p_auth_present c = negb (bool_decide (auth_type s = BFD_AUTH_RESERVED))) as ->
      by (rewrite Hc; unfold packet_for, bfd_control_packet_init; cbn; by destruct (_ && _)).
    case_bool_decide as Ht; [done|]. cbn [negb]. by apply (good_section (auth_type s) (secret s) (xmit_auth_seq s)). }
  assert (p_detect_multi c = u8 (detect_multi s)) as -> by (rewrite Hc; unfold packet_for, bfd_control_packet_init; cbn; by destruct (_ && _)).
  rewrite u8_id by (unfold is_u8; lia). destruct (Z.eqb_spec (detect_multi s) 0); [lia|].
  assert (p_multipoint c = false) as -> by (by rewrite Hc).
  assert (p_my_disc c = local_disc s /\ p_your_disc c = remote_disc s /\ p_state c = session_state s) as (-> & -> & ->)
    by (rewrite Hc; unfold packet_for, bfd_control_packet_init; cbn; by destruct (_ && _)).
  destruct (Z.eqb_spec (local_disc s) 0); [done|]. destruct (Z.eqb_spec (remote_disc s) 0) as [Hz|]; [|done].
  destruct Hd as [|[-> | ->]]; done.
Qed.

(** A signed packet arrives as a packet of its sender, whatever the receive
    buffer holds behind it. *)
Lemma sent_received s poll final q stale :
  sendable s -> packet_wf q -> good_auth stack (auth_type s) (secret s) (xmit_auth_seq s) q ->
  q = (packet_for s poll final) <| p_length := p_length q |> <| p_auth := p_auth q |> ->
  (sizeof_auth <= length stale)%nat ->
  received s poll final (bfd_cast (wire q ++ stale)) /\
  Z.of_nat (length (wire q)) = p_length (bfd_cast (wire q ++ stale)).
Proof.
  intros (_ & _ & _ & _ & _ & Hk) Hw Hg Hq Hs. pose proof (good_length _ _ _ _ _ Hg) as Hl. pose proof (key_size _ _ Hk) as Hz.
  pose proof (wire_cast q _ stale Hw Hl ltac:(lia)) as Hc. split.
  - split; [by apply good_wire|]. rewrite Hc, Hq. done.
  - rewrite (wire_length _ _ _ _ Hk Hw Hg), Hc. done.
Qed.

(** ** Two peers *)

(** [b] is a peer of [a]: they share the authentication, and [a] knows [b]'s
    discriminator or none. *)
Definition peers (a b : bfd_session_t) : Prop :=
  secret b = secret a /\ auth_type b = auth_type a /\ (remote_disc a = 0 \/ remote_disc a = local_disc b).

Lemma received_accepted a b poll final c :
  sendable a -> peers a b -> received a poll final c -> seq_ok b (auth_type a) (xmit_auth_seq a) = true ->
  packet_accepted stack b c = (true, seq_taken b (auth_type a) (xmit_auth_seq a)).
Proof.
  intros (_ & _ & _ & Hx & _ & Hk) (Hs & Ht & Hd) [Hg Hc] Hq. unfold packet_accepted. rewrite Ht.
  assert (p_your_disc c = remote_disc a) as ->
    by (rewrite Hc; unfold packet_for, bfd_control_packet_init; cbn; by destruct (_ && _)).
  assert (p_auth_present c = negb (bool_decide (auth_type a = BFD_AUTH_RESERVED))) as ->
    by (rewrite Hc; unfold packet_for, bfd_control_packet_init; cbn; by destruct (_ && _)).
  assert (negb (remote_disc a =? 0) && negb (remote_disc a =? local_disc b) = false) as ->.
  { destruct Hd as [-> | ->]; [done|]. rewrite Z.eqb_refl. by rewrite andb_false_r. }
  case_bool_decide as Hr; cbn [negb andb]; [by rewrite Hr|].
  apply (good_authenticates H16 Hmax stack Hstack); [done|by rewrite Hs|done|by rewrite Hs|done].
Qed.

(** The packet of a session is that of its view. *)
Lemma packet_for_fields s poll final :
  let p := packet_for s poll final in
  p_state p = session_state s /\ p_my_disc p = local_disc s /\ p_your_disc p = remote_disc s /\
  p_demand p = demand_mode s && up_up s /\ p_poll p = poll /\ p_final p = final /\ is_u32 (p_required_min_rx_interval p).
Proof.
  unfold packet_for, bfd_control_packet_init. cbn.
  repeat (split; [first [reflexivity | by destruct (_ && _)]|]). apply u32_range.
Qed.

Lemma received_fields s poll final c :
  received s poll final c ->
  p_state c = session_state s /\ p_my_disc c = local_disc s /\ p_demand c = demand_mode s && up_up s /\
  p_poll c = poll /\ p_final c = final /\ is_u32 (p_required_min_rx_interval c).
Proof.
  intros [_ ->]. destruct (packet_for_fields s poll final) as (H1 & H2 & _ & H3 & H4 & H5 & H6).
  exact (conj H1 (conj H2 (conj H3 (conj H4 (conj H5 H6))))).
Qed.

Definition bump (t : bfd_auth_type_t) (seq : Z) : Z := if has_seq t then u32 (seq + 1) else seq.

Lemma sign_bump s p :
  p_auth_present p = negb (bool_decide (auth_type s = BFD_AUTH_RESERVED)) ->
  xmit_auth_seq (snd (bfd_sign stack s p)) = bump (auth_type s) (xmit_auth_seq s).
Proof. intros Hp. unfold bfd_sign. rewrite Hp. by destruct (auth_type s). Qed.

(** A datagram [w] that [s] sent. *)
Definition sent_by (s : bfd_session_t) (poll final : bool) (w : bytes) : Prop :=
  forall stale, (sizeof_auth <= length stale)%nat ->
  received s poll final (bfd_cast (w ++ stale)) /\ Z.of_nat (length w) = p_length (bfd_cast (w ++ stale)).

Lemma signed_sent s s1 poll final :
  sendable s -> same_ident s1 s ->
  let '(q, s2) := bfd_sign stack s1 (packet_for s poll final) in
  sent_by s poll final (wire q) /\ s2 = s1 <| xmit_auth_seq := bump (auth_type s) (xmit_auth_seq s) |>.
Proof.
  intros Hs [Hi Ho]. assert (auth_type s1 = auth_type s /\ secret s1 = secret s /\ xmit_auth_seq s1 = xmit_auth_seq s) as (Ht & Hk & Hx)
    by (unfold ident, outbox in *; by simplify_eq).
  pose proof (sent_spec s s1 poll final Hs Ht Hk Hx) as H1. pose proof (sign_bump s1 (packet_for s poll final)) as H2.
  destruct (bfd_sign stack s1 (packet_for s poll final)) as [q s2]. cbn [snd] in H2. destruct H1 as (Hw & Hg & Hq & H3). split.
  - intros stale Hst. by apply sent_received.
  - rewrite H3, H2, Ht, Hx; [done|]. rewrite Ht. unfold packet_for, bfd_control_packet_init. cbn. by destruct (_ && _).
Qed.

(** A session after it sent one datagram [w], and nothing else happened. *)
Definition sent_one (s s' : bfd_session_t) (w : bytes) : Prop :=
  abs s' = (abs s) <| v_sent := S (v_sent (abs s)) |> /\ ident s' = ident s /\
  sockfd s' = sockfd s ++ [w] /\ xmit_auth_seq s' = bump (auth_type s) (xmit_auth_seq s).

Lemma init_ident s : same_ident (snd (bfd_control_packet_init s)) s.
Proof. unfold bfd_control_packet_init. cbn [snd]. by destruct (_ && _). Qed.

Lemma send_tail s s1 poll final (f : bfd_session_t -> bfd_session_t) :
  sendable s -> same_ident s1 s -> abs s1 = abs s -> send_ok (length (sockfd s)) = true ->
  (forall s, abs (f s) = abs s /\ same_ident (f s) s) ->
  exists w, sent_by s poll final w /\
    let '(q, s2) := bfd_sign stack s1 (packet_for s poll final) in
    let '(ok, s3) := sendfromto send_ok (f s2) q in
    sent_one s (if negb ok then bfd_session_admin_down s3 else s3) w.
Proof.
  intros Hs Hi Ha Hok Hf. pose proof (signed_sent s s1 poll final Hs Hi) as H1.
  destruct (bfd_sign stack s1 (packet_for s poll final)) as [q s2]. destruct H1 as [Hw ->]. exists (wire q). split; [done|].
  set (s2 := s1 <| xmit_auth_seq := bump (auth_type s) (xmit_auth_seq s) |>). destruct (Hf s2) as (Fa & Fi & Fo).
  assert (sockfd (f s2) = sockfd s /\ xmit_auth_seq (f s2) = bump (auth_type s) (xmit_auth_seq s)) as [Fk Fx].
  { destruct Hi as [_ Ho]. exact (conj (eq_trans (f_equal snd Fo) (f_equal snd Ho)) (f_equal fst Fo)). }
  unfold sendfromto. rewrite Fk, Hok. cbn [negb]. unfold sent_one. repeat split.
  - transitivity ((abs (f s2)) <| v_sent := S (v_sent (abs s)) |>).
    + unfold abs. cbn. by rewrite length_app, Nat.add_1_r.
    + rewrite Fa. change (abs s2) with (abs s1). by rewrite Ha.
  - transitivity (ident (f s2)); [done|]. rewrite Fi. by destruct Hi as [<- _].
  - done.
Qed.

Lemma send_packet_spec s now :
  sendable s -> send_ok (length (sockfd s)) = true ->
  exists w, sent_by s (doing_poll s) false w /\ sent_one s (bfd_send_packet fr_rand send_ok stack s now) w.
Proof.
  intros Hs Hok. pose proof (init_ident s) as [Hi Ho]. pose proof (control_packet_init_abs s) as Ha.
  set (p := packet_for s (doing_poll s) false). set (s1 := snd (bfd_control_packet_init s)) in *.
  set (s2 := if negb (p_demand p) then bfd_start_packets fr_rand s1 else s1).
  assert (same_ident s2 s /\ abs s2 = abs s) as [[Hi2 Ho2] Ha2].
  { unfold s2. case_if; [|done]. destruct (start_packets_ident fr_rand s1) as [E1 E2]. pose proof (start_packets_abs fr_rand s1).
    repeat split; congruence. }
  destruct (send_tail s s2 (doing_poll s) false (fun s => s <| last_sent := now |>) Hs (conj Hi2 Ho2) Ha2 Hok) as (w & Hw & Hx);
    [done|]. exists w. split; [done|]. revert Hx. fold p. unfold bfd_send_packet, bfd_send_init.
  assert (bfd_control_packet_init s = (fst (bfd_control_packet_init s), s1)) as -> by apply surjective_pairing.
  assert ((fst (bfd_control_packet_init s)) <| p_poll := doing_poll s1 |> = p) as ->.
  { assert (doing_poll s1 = doing_poll s) as -> by exact (f_equal v_poll Ha). done. }
  fold s2. by destruct (bfd_sign stack s2 p).
Qed.

Lemma answer_spec s p :
  sendable s -> send_ok (length (sockfd s)) = true -> p_poll p = true ->
  exists w, sent_by s false true w /\ sent_one s (answer_poll send_ok stack s p) w.
Proof.
  intros Hs Hok Hp. pose proof (init_ident s) as [Hi Ho]. pose proof (control_packet_init_abs s) as Ha.
  destruct (send_tail s (snd (bfd_control_packet_init s)) false true (fun s => s) Hs (conj Hi Ho) Ha Hok) as (w & Hw & Hx);
    [done|]. exists w. split; [done|]. revert Hx. unfold answer_poll, bfd_poll_response, packet_for. rewrite Hp.
  destruct (bfd_control_packet_init s) as [p0 s1]. cbn [fst snd]. by destruct (bfd_sign stack s1 _).
Qed.
End Sent.

(** ** Timers *)

Lemma tx_delay_bounds multi rand i :
  is_u32 rand -> 0 < i < 2 ^ 34 ->
  3 * i - 3 <= 4 * tx_delay multi rand i /\ tx_delay multi rand i <= i /\
  (multi = 1 -> 10 * tx_delay multi rand i <= 9 * i).
Proof.
  unfold is_u32. intros Hr Hi. unfold tx_delay. cbn zeta. change (Z.shiftl 1 30) with 1073741824.
  set (k := if multi =? 1 then 644245094 else 1073741824).
  assert (0 < k <= 1073741824 /\ (multi = 1 -> k = 644245094)) as [Hk Hk1] by (unfold k; destruct (Z.eqb_spec multi 1); lia).
  clearbody k. rewrite (u64_id (i * 3)), (u64_id (rand * k)) by (unfold is_u64; nia).
  rewrite !Z.shiftr_div_pow2 by lia. change (2 ^ 32) with 4294967296. change (2 ^ 34) with 17179869184 in Hi.
  assert (0 <= rand * k / 4294967296 < k) as Hj.
  { split; [apply Z.div_pos; nia|apply Z.div_lt_upper_bound; nia]. }
  set (j := rand * k / 4294967296) in *. clearbody j. rewrite (u64_id (j * i)) by (unfold is_u64; nia).
  assert (0 <= j * i / 4294967296 /\ 4294967296 * (j * i / 4294967296) <= k * i) as [Hm Hm'].
  { split; [apply Z.div_pos; nia|]. pose proof (Z.mul_div_le (j * i) 4294967296). nia. }
  set (m := j * i / 4294967296) in *. clearbody m.
  assert (i * 3 / 4 * 4 <= i * 3 < i * 3 / 4 * 4 + 4) as Hb by (Z.to_euclidean_division_equations; lia).
  set (b := i * 3 / 4) in *. clearbody b. rewrite u64_id by (unfold is_u64; nia). nia.
Qed.

Lemma tx_interval_max s :
  0 < desired_min_tx_interval s < 2 ^ 34 -> 0 <= remote_min_rx_interval s < 2 ^ 34 ->
  tx_interval s = Some (Z.max (desired_min_tx_interval s) (remote_min_rx_interval s)).
Proof.
  intros Hd Hr. unfold tx_interval, fr_time_delta_cmp. rewrite !u64_id by (unfold is_u64; lia).
  destruct (Z.ltb_spec (remote_min_rx_interval s) (desired_min_tx_interval s)),
    (Z.ltb_spec (desired_min_tx_interval s) (remote_min_rx_interval s)); cbn; try lia; try (f_equal; lia).
  destruct (Z.eqb_spec (remote_min_rx_interval s) 0); [lia|]. f_equal. lia.
Qed.

(** ** Properties *)


#[local] Existing Instances Md5.md5_ops Md5.md5_laws.

(** A session with no authentication, as the configuration leaves it. *)
Definition plain_session (disc : Z) : bfd_session_t :=
  MkSession [] true [] [] None None 0 0 BFD_STATE_DOWN BFD_STATE_ADMIN_DOWN disc 0 BFD_DIAG_NONE 3 1000000 1000000 1 0 0
    false false false false BFD_AUTH_RESERVED 0 7 1000000 0 false 0.


(** The transmission timer keeps to section 6.8.7 of RFC 5880: a session that
    starts sending arms the timer for 75% to 100% of the interval negotiated with
    the peer, and for no more than 90% of it when its detection multiplier is 1,
    whatever the random number; no product of the 64-bit computation overflows for
    intervals below 17 seconds, which the limits of the configuration and the
    clamping of the peer's interval ensure. *)
Theorem bfd_tx_jitter (fr_rand : nat -> Z) (s : bfd_session_t) :
  (forall n, is_u32 (fr_rand n)) -> 0 < desired_min_tx_interval s < 2 ^ 34 -> 0 <= remote_min_rx_interval s < 2 ^ 34 ->
  let i := Z.max (desired_min_tx_interval s) (remote_min_rx_interval s) in
  exists d cb, packet_ev (bfd_start_packets fr_rand s) = Some (d, cb) /\
    3 * i - 3 <= 4 * d /\ d <= i /\ (detect_multi s = 1 -> 10 * d <= 9 * i).
Proof.
  intros Hrand Hd Hr i. unfold bfd_start_packets. cbn zeta.
  lazymatch goal with |- context [tx_interval ?x] => change (tx_interval x) with (tx_interval s) end.
  rewrite (tx_interval_max s Hd Hr). fold i.
  pose proof (tx_delay_bounds (detect_multi s) (fr_rand (draws s)) i (Hrand _) ltac:(lia)) as Hb.
  exists (s64 (tx_delay (detect_multi s) (fr_rand (draws s)) i)),
    (if negb (only_state_changes s) then bfd_unlang_send_packet_cb else bfd_send_packet_cb). split; [reflexivity|].
  rewrite s64_id by (unfold is_s64, INT64_MIN, INT64_MAX; lia). done.
Qed.

Lemma bfd_tx_jitter_witness :
  let s := plain_session 4 in
  let i := Z.max (desired_min_tx_interval s) (remote_min_rx_interval s) in
  exists d cb, packet_ev (bfd_start_packets (fun _ => 4294967295) s) = Some (d, cb) /\
    3 * i - 3 <= 4 * d /\ d <= i /\ (detect_multi s = 1 -> 10 * d <= 9 * i).
Proof. apply (bfd_tx_jitter (fun _ => 4294967295) (plain_session 4)); [intros n; unfold is_u32; lia|cbn; lia|cbn; lia]. Defined.

(** The detection time is a thousand times too long. The timer that declares
    the peer lost is set to the negotiated interval times the multiplier and a
    half, but the nanoseconds are passed on as microseconds: with an interval of
    one second and a multiplier of 3 the session waits almost an hour. *)
Theorem bfd_detection_time_scaled (s : bfd_session_t) (when : fr_time_t) :
  0 <= detection_time s <= 2 * NSEC -> 1 <= detect_multi s <= 10 -> 0 <= when < 2 ^ 62 ->
  timeout_ev (bfd_set_timeout s when) =
  Some (when + 1000 * (detection_time s * detect_multi s + detection_time s / 2)).
Proof.
  intros Hd Hm Hw. unfold bfd_set_timeout. cbn zeta. unfold upd. cbn [timeout_ev].
  rewrite (u64_id (detection_time s)), (u64_id (detection_time s * detect_multi s)) by (unfold is_u64; nia).
  rewrite Z.quot_div_nonneg by lia.
  assert (0 <= detection_time s * detect_multi s <= 20000000000) by nia.
  assert (0 <= detection_time s / 2 <= 1000000000) by (Z.to_euclidean_division_equations; lia).
  rewrite u64_id, s64_id by (unfold is_u64, is_s64, INT64_MIN, INT64_MAX; lia).
  rewrite from_usec_small by lia. unfold fr_time_add_time_delta, fr_add.
  rewrite fits_s64_in by (unfold is_s64, INT64_MIN, INT64_MAX; lia). done.
Qed.

Lemma bfd_detection_time_scaled_witness :
  let s := plain_session 4 in
  timeout_ev (bfd_set_timeout s 0) = Some (0 + 1000 * (detection_time s * detect_multi s + detection_time s / 2)).
Proof. apply (bfd_detection_time_scaled (plain_session 4) 0); cbn; lia. Defined.
End BfdProtocol.
