(* ===== verification/BfdHandshake.v ===== *)
(** Two BFD sessions (src/listen/bfd/session.c) that exchange packets over a
    network that loses nothing come up, whatever authentication they share: the
    three-way handshake of RFC 5880 section 6.2, through the packet checks, the
    digests, the state machine and the poll sequence of both ends. *)

From S2P Require Import Prelude BlockHash Md5 Sha1 UtilTime RadiusPacket RadiusSign BfdPacket BfdSession BfdAuth BfdProtocol.
Import UtilTime BfdPacket BfdSession BfdAuth BfdProtocol.

Module BfdHandshake.

Section Handshake.
Context {Ctx : Type} `{Hops : DigestOps Ctx}.
Variable fr_rand : nat -> Z.
Variable send_ok : nat -> bool.
Variable stack : Sha1.fr_sha1_ctx.

(** The datagram [w] arrives in a buffer that holds [stale] behind it. *)
Definition deliver (s : bfd_session_t) (w stale : bytes) (now : fr_time_t) : bfd_session_t :=
  fst (mod_read fr_rand send_ok stack s (only_state_changes s) (w ++ stale) (Z.of_nat (length w)) now).

Definition last_datagram (s : bfd_session_t) : bytes := default [] (list.last (sockfd s)).

(** The timer of [a] fires, its packet reaches [b], the timer of [b] fires, its
    packet reaches [a], and the answer of [a] to the Poll reaches [b]. *)
Definition handshake (a b : bfd_session_t) (stale : bytes) (now : fr_time_t) : bfd_session_t * bfd_session_t :=
  let a := bfd_send_packet fr_rand send_ok stack a now in
  let b := deliver b (last_datagram a) stale now in
  let b := bfd_send_packet fr_rand send_ok stack b now in
  let a := deliver a (last_datagram b) stale now in
  let b := deliver b (last_datagram a) stale now in
  (a, b).

(** A session as it starts: Down, with nothing heard from the peer. *)
Definition fresh (s : bfd_session_t) : Prop :=
  sendable s /\ session_state s = BFD_STATE_DOWN /\ remote_disc s = 0 /\ doing_poll s = false /\ auth_seq_known s = false.

Context `{Hlaws : !DigestLaws Ctx}.
Hypothesis H16 : digest_len = 16%nat.
Hypothesis Hmax : 64 < digest_max.
Hypothesis Hstack : length (Sha1.buffer stack) = 64%nat.

(** The number after the one last accepted is in the window. *)
Lemma next_in_window s keyed :
  is_u32 (recv_auth_seq s) -> 1 <= detect_multi s <= 10 -> bfd_verify_sequence s (u32 (recv_auth_seq s + 1)) keyed = true.
Proof.
  clear H16 Hmax Hstack. intros Hx Hm. unfold bfd_verify_sequence. cbn zeta.
  rewrite (u32_id (3 * detect_multi s)) by (unfold is_u32; lia). set (x := recv_auth_seq s) in *.
  set (start := if keyed then u32 (x + 1) else x).
  assert (start = u32 (x + 1) \/ start = x) as Hst by (unfold start; destruct keyed; auto). clearbody start.
  unfold is_u32, u32 in *. case_if; apply negb_true_iff; [apply orb_false_iff; split; apply Z.ltb_ge|].
  - Z.to_euclidean_division_equations. lia.
  - Z.to_euclidean_division_equations. lia.
  - apply andb_false_iff. destruct (Z.ltb_spec start ((x + 1) mod 4294967296)); [right; apply Z.ltb_ge; lia|by left].
Qed.

Lemma next_seq_ok s t seq :
  is_u32 seq -> 1 <= detect_multi s <= 10 -> (has_seq t = true -> recv_auth_seq s = seq) -> seq_ok s t (bump t seq) = true.
Proof.
  intros Hx Hm Hr. unfold bump, seq_ok. destruct t; cbn [has_seq] in *; try done; rewrite <- Hr in Hx |- * by done;
    rewrite next_in_window by done; apply orb_true_r.
Qed.

Lemma deliver_spec a b poll final w stale now :
  sendable a -> disc_known a -> peers a b -> sent_by stack a poll final w -> (sizeof_auth <= length stale)%nat ->
  seq_ok b (auth_type a) (xmit_auth_seq a) = true -> session_state b <> BFD_STATE_ADMIN_DOWN -> up_up a = false ->
  exists c s, received stack a poll final c /\ abs s = move (learn (abs b) c) c /\
    ident s = ident (seq_taken b (auth_type a) (xmit_auth_seq a)) /\ outbox s = outbox b /\
    abs (deliver b w stale now) = abs (answer_poll send_ok stack s c) /\
    same_ident (deliver b w stale now) (answer_poll send_ok stack s c).
Proof.
  intros Ha Hd Hp Hw Hs Hq Hst Hu. destruct (Hw stale Hs) as [Hr Hl]. set (c := bfd_cast (w ++ stale)) in *.
  pose proof (received_accepted H16 Hmax stack Hstack a b poll final c Ha Hp Hr Hq) as Hacc.
  destruct (received_fields _ _ _ _ _ Hr) as (_ & _ & Hdm & _ & _ & Hreq).
  destruct (process_trace fr_rand send_ok stack b c now _ Hreq Hst Hacc) as (s & H1 & H2 & H3 & H4).
  exists c, s. split; [done|]. split; [done|]. split; [done|].
  split; [rewrite H3; unfold seq_taken; by destruct (has_seq (auth_type a))|].
  assert (deliver b w stale now = rearm_timers fr_rand ((answer_poll send_ok stack s c) <| last_recv := now |>) c) as ->.
  { unfold deliver, mod_read. rewrite (received_ok stack a poll final c _ (w ++ stale) Ha Hd Hr eq_refl Hl). fold c. rewrite H4.
    by destruct (rfc_change (session_state b) (p_state c)); try destruct (only_state_changes b). }
  split; [|exact (rearm_timers_ident fr_rand ((answer_poll send_ok stack s c) <| last_recv := now |>) c)].
  rewrite rearm_abs by done. change (abs ((answer_poll send_ok stack s c) <| last_recv := now |>)) with (abs (answer_poll send_ok stack s c)).
  unfold rearm. assert (rearm_shuts (abs (answer_poll send_ok stack s c)) c = false) as ->; [|done].
  unfold rearm_shuts. assert (v_remote_demand (abs (answer_poll send_ok stack s c)) = false) as ->; [|by rewrite !andb_false_r].
  rewrite answer_abs, H1. destruct (learn_fields (abs b) c) as (_ & _ & _ & L & _), (move_fields (learn (abs b) c) c) as (_ & _ & _ & M & _).
  transitivity (v_remote_demand (move (learn (abs b) c) c)); [unfold answer; destruct (p_poll c); [|done]; by case_if|].
  rewrite M, L, Hdm, Hu. apply andb_false_r.
Qed.

(** What [deliver_spec] leaves to be known of the session that receives. *)
Lemma moved_fields (s b : bfd_session_t) c :
  abs s = move (learn (abs b) c) c ->
  session_state s = rfc_next (session_state b) (p_state c) /\ remote_session_state s = p_state c /\
  remote_disc s = p_my_disc c /\
  doing_poll s = doing_poll b && negb (p_final c) || negb (in_state (session_state s) BFD_STATE_UP) /\
  length (sockfd s) = length (sockfd b).
Proof.
  intros Hs. destruct (learn_fields (abs b) c) as (L1 & L2 & L3 & _ & L5 & _ & L7),
    (move_fields (learn (abs b) c) c) as (M1 & M2 & M3 & _ & M5 & M6). rewrite <- Hs in *. rewrite L1 in *.
  change (v_state (abs b)) with (session_state b) in *.
  assert (session_state s = rfc_next (session_state b) (p_state c)) as E by done. rewrite <- E, L5 in M5.
  split; [done|]. split; [by rewrite <- L2|]. split; [by rewrite <- L3|]. split; [done|]. by rewrite L7 in M6.
Qed.

Lemma ident_fields s s' :
  ident s' = ident s ->
  secret s' = secret s /\ auth_type s' = auth_type s /\ local_disc s' = local_disc s /\ detect_multi s' = detect_multi s /\
  auth_seq_known s' = auth_seq_known s /\ recv_auth_seq s' = recv_auth_seq s.
Proof. unfold ident. intros [=]. auto 10. Qed.

Lemma seq_taken_fields s t seq :
  let s' := seq_taken s t seq in
  secret s' = secret s /\ auth_type s' = auth_type s /\ local_disc s' = local_disc s /\ detect_multi s' = detect_multi s /\
  (has_seq t = true -> recv_auth_seq s' = seq).
Proof. unfold seq_taken. by destruct (has_seq t). Qed.

(** The fields of a session that stay or are known after it received, when the
    packet did not ask for an answer. *)
Lemma receive_quiet a b final w stale now :
  sendable a -> disc_known a -> peers a b -> sent_by stack a false final w -> (sizeof_auth <= length stale)%nat ->
  seq_ok b (auth_type a) (xmit_auth_seq a) = true -> session_state b <> BFD_STATE_ADMIN_DOWN -> up_up a = false ->
  let b' := deliver b w stale now in
  session_state b' = rfc_next (session_state b) (session_state a) /\ remote_session_state b' = session_state a /\
  remote_disc b' = local_disc a /\
  doing_poll b' = doing_poll b && negb final || negb (in_state (session_state b') BFD_STATE_UP) /\
  ident b' = ident (seq_taken b (auth_type a) (xmit_auth_seq a)) /\ outbox b' = outbox b.
Proof.
  intros Ha Hd Hp Hw Hs Hq Hst Hu b'.
  destruct (deliver_spec a b false final w stale now Ha Hd Hp Hw Hs Hq Hst Hu) as (c & s & Hr & H1 & H2 & H3 & H4 & H5 & H6).
  fold b' in H4, H5, H6. destruct (received_fields _ _ _ _ _ Hr) as (R1 & R2 & _ & R4 & R5 & _).
  unfold answer_poll in *. rewrite R4 in *. destruct (moved_fields s b c H1) as (M1 & M2 & M3 & M4 & _).
  rewrite R1, R2, R5 in *. assert (session_state b' = session_state s) as E by exact (f_equal v_state H4). rewrite E.
  split; [done|]. split; [by rewrite <- M2; exact (f_equal v_remote H4)|].
  split; [by rewrite <- M3; exact (f_equal v_remote_disc H4)|]. split; [by rewrite <- M4; exact (f_equal v_poll H4)|].
  split; congruence.
Qed.

(** When it asked: the session answers from the state it moved to. *)
Lemma receive_polled a b w stale now :
  sendable a -> disc_known a -> peers a b -> sent_by stack a true false w -> (sizeof_auth <= length stale)%nat ->
  seq_ok b (auth_type a) (xmit_auth_seq a) = true -> session_state b <> BFD_STATE_ADMIN_DOWN -> up_up a = false ->
  sendable b -> send_ok (length (sockfd b)) = true -> is_u32 (local_disc a) ->
  let b' := deliver b w stale now in
  exists s w', sent_by stack s false true w' /\ sendable s /\
    session_state s = rfc_next (session_state b) (session_state a) /\ remote_session_state s = session_state a /\
    remote_disc s = local_disc a /\ session_state b' = session_state s /\ remote_disc b' = local_disc a /\
    ident s = ident (seq_taken b (auth_type a) (xmit_auth_seq a)) /\ xmit_auth_seq s = xmit_auth_seq b /\
    last_datagram b' = w'.
Proof.
  intros Ha Hd Hp Hw Hs Hq Hst Hu (B1 & B2 & B3 & B4 & B5 & B6) Hok Hda b'.
  destruct (deliver_spec a b true false w stale now Ha Hd Hp Hw Hs Hq Hst Hu) as (c & s & Hr & H1 & H2 & H3 & H4 & H5 & H6).
  fold b' in H4, H5, H6. destruct (received_fields _ _ _ _ _ Hr) as (R1 & R2 & _ & R4 & R5 & _).
  destruct (moved_fields s b c H1) as (M1 & M2 & M3 & _ & M5). rewrite R1, R2 in *.
  assert (xmit_auth_seq s = xmit_auth_seq b /\ sockfd s = sockfd b) as [X1 X2] by (unfold outbox in H3; by simplify_eq).
  destruct (ident_fields _ _ H2) as (I1 & I2 & I3 & I4 & _), (seq_taken_fields b (auth_type a) (xmit_auth_seq a)) as (T1 & T2 & T3 & T4 & _).
  assert (sendable s) as Hss.
  { unfold sendable. rewrite I1, I2, I3, I4, T1, T2, T3, T4, X1, M3. repeat (split; [done|]). done. }
  destruct (answer_spec H16 Hmax send_ok stack Hstack s c Hss) as (w' & Hw' & S1 & S2 & S3 & S4); [by rewrite X2|done|].
  exists s, w'. do 5 (split; [done|]). rewrite S1 in H4.
  split; [exact (f_equal v_state H4)|]. split; [rewrite <- M3; exact (f_equal v_remote_disc H4)|]. split; [done|]. split; [done|].
  unfold last_datagram. replace (sockfd b') with (sockfd s ++ [w']); [by rewrite list.last_snoc|].
  rewrite <- S3. exact (eq_sym (f_equal snd H6)).
Qed.

(** ** Properties *)

Lemma down_not_up s : session_state s <> BFD_STATE_UP \/ remote_session_state s <> BFD_STATE_UP -> up_up s = false.
Proof. unfold up_up, in_state. intros [H|H]; rewrite (bool_decide_false _ H); [done|]. apply andb_false_r. Qed.

(** A session sends from its timer. *)
Lemma timer_sends s now :
  sendable s -> send_ok (length (sockfd s)) = true ->
  let s' := bfd_send_packet fr_rand send_ok stack s now in
  sent_by stack s (doing_poll s) false (last_datagram s') /\ abs s' = (abs s) <| v_sent := S (v_sent (abs s)) |> /\
  ident s' = ident s /\ xmit_auth_seq s' = bump (auth_type s) (xmit_auth_seq s).
Proof.
  intros Hs Hok s'. destruct (send_packet_spec H16 Hmax fr_rand send_ok stack Hstack s now Hs Hok) as (w & Hw & S1 & S2 & S3 & S4).
  fold s' in S1, S2, S3, S4. unfold last_datagram. rewrite S3, list.last_snoc. done.
Qed.

Lemma bump_u32 t x : is_u32 x -> is_u32 (bump t x).
Proof. unfold bump. destruct (has_seq t); [intros; apply u32_range|done]. Qed.

(** The two sessions after the first packet: [b] is in Init and polls, and has
    taken the sequence number of [a]. *)
Definition greeted (a b a1 b1 : bfd_session_t) : Prop :=
  (sendable a1 /\ session_state a1 = BFD_STATE_DOWN /\ auth_seq_known a1 = false /\ local_disc a1 = local_disc a /\
   secret a1 = secret a /\ auth_type a1 = auth_type a /\ xmit_auth_seq a1 = bump (auth_type a) (xmit_auth_seq a)) /\
  (sendable b1 /\ session_state b1 = BFD_STATE_INIT /\ doing_poll b1 = true /\ remote_disc b1 = local_disc a /\
   local_disc b1 = local_disc b /\ secret b1 = secret a /\ auth_type b1 = auth_type a /\
   (has_seq (auth_type a) = true -> recv_auth_seq b1 = xmit_auth_seq a)).

Lemma hello a b stale now :
  fresh a -> fresh b -> secret b = secret a -> auth_type b = auth_type a ->
  (sizeof_auth <= length stale)%nat -> (forall n, send_ok n = true) ->
  let a1 := bfd_send_packet fr_rand send_ok stack a now in
  greeted a b a1 (deliver b (last_datagram a1) stale now).
Proof.
  intros (Sa & A2 & A3 & A4 & A5) (Sb & B2 & B3 & B4 & B5) Hk Ht Hs Hok a1.
  pose proof Sa as (La & La0 & Ra & Xa & Ma & Ka). pose proof Sb as (Lb & Lb0 & Rb & Xb & Mb & Kb).
  destruct (timer_sends a now Sa (Hok _)) as (W1 & Va & Ia & Xa'). rewrite A4 in W1. fold a1 in W1, Va, Ia, Xa'.
  destruct (ident_fields _ _ Ia) as (Ia1 & Ia2 & Ia3 & Ia4 & Ia5 & _).
  assert (seq_ok b (auth_type a) (xmit_auth_seq a) = true) as Q1 by (unfold seq_ok; rewrite B5; by destruct (auth_type a)).
  destruct (receive_quiet a b false _ stale now Sa ltac:(right; by left) ltac:(repeat split; auto) W1 Hs Q1)
    as (C1 & C2 & C3 & C4 & C5 & C6); [by rewrite B2|apply down_not_up; left; by rewrite A2|].
  rewrite A2, B2 in C1. set (b1 := deliver b (last_datagram a1) stale now) in *. rewrite C1, orb_true_r in C4.
  destruct (ident_fields _ _ C5) as (D1 & D2 & D3 & D4 & _ & D6),
    (seq_taken_fields b (auth_type a) (xmit_auth_seq a)) as (T1 & T2 & T3 & T4 & T5). cbn in C1.
  assert (xmit_auth_seq b1 = xmit_auth_seq b) as D7 by exact (f_equal fst C6). split.
  - split; [|repeat (split; [by rewrite <- ?A2, <- ?A5; try exact (f_equal v_state Va)|]); done].
    unfold sendable. rewrite Ia1, Ia2, Ia3, Ia4, Xa'. assert (remote_disc a1 = remote_disc a) as -> by exact (f_equal v_remote_disc Va).
    repeat (split; [done || by apply bump_u32|]). done.
  - split; [|repeat (split; [congruence|]); intros E; rewrite D6; by apply T5].
    unfold sendable. rewrite D1, D2, D3, D4, T1, T2, T3, T4, D7, C3. repeat (split; [done|]). done.
Qed.

(** The two sessions after the second packet: [a] is Up and has answered from
    the session [s]; [b] is still in Init. *)
Definition answered (a b a2 b2 s : bfd_session_t) : Prop :=
  (session_state a2 = BFD_STATE_UP /\ remote_disc a2 = local_disc b) /\
  (sent_by stack s false true (last_datagram a2) /\ sendable s /\ session_state s = BFD_STATE_UP /\
   remote_session_state s = BFD_STATE_INIT /\ remote_disc s = local_disc b /\ local_disc s = local_disc a) /\
  (session_state b2 = BFD_STATE_INIT /\ local_disc b2 = local_disc b /\ local_disc b <> 0 /\
   secret b2 = secret s /\ auth_type b2 = auth_type s /\ seq_ok b2 (auth_type s) (xmit_auth_seq s) = true).

Lemma reply a b a1 b1 stale now :
  is_u32 (xmit_auth_seq a) -> greeted a b a1 b1 -> (sizeof_auth <= length stale)%nat -> (forall n, send_ok n = true) ->
  local_disc a <> 0 ->
  let b2 := bfd_send_packet fr_rand send_ok stack b1 now in
  exists s, answered a b (deliver a1 (last_datagram b2) stale now) b2 s.
Proof.
  intros Xa [(Sa & A2 & A3 & A4 & A5 & A6 & A7) (Sb & B2 & B3 & B4 & B5 & B6 & B7 & B8)] Hs Hok Ha0 b2.
  destruct (timer_sends b1 now Sb (Hok _)) as (W2 & Vb & Ib & _). rewrite B3 in W2. fold b2 in W2, Vb, Ib. clearbody b2.
  destruct (ident_fields _ _ Ib) as (Ib1 & Ib2 & Ib3 & Ib4 & _ & Ib6).
  assert (session_state b2 = session_state b1) as Vs by exact (f_equal v_state Vb).
  pose proof Sb as (Lb & Lb0 & Rb & _ & Mb & _).
  assert (seq_ok a1 (auth_type b1) (xmit_auth_seq b1) = true) as Q2 by (unfold seq_ok; rewrite A3; by destruct (auth_type b1)).
  destruct (receive_polled b1 a1 _ stale now Sb ltac:(left; congruence) ltac:(unfold peers; repeat split; try right; congruence) W2 Hs Q2
    ltac:(congruence) ltac:(apply down_not_up; left; congruence) Sa (Hok _) Lb)
    as (s & w & W3 & Ss & S3 & S4 & S5 & S6 & S7 & S8 & S9 & Sw). rewrite A2, B2 in S3. cbn in S3.
  destruct (ident_fields _ _ S8) as (E1 & E2 & E3 & E4 & _), (seq_taken_fields a1 (auth_type b1) (xmit_auth_seq b1)) as (T1 & T2 & T3 & T4 & _).
  exists s. rewrite <- Sw in W3. split; [split; congruence|]. split.
  - split; [done|]. split; [done|]. repeat (split; [congruence|]). congruence.
  - repeat (split; [congruence|]). rewrite S9, A7, E2, T2, A6.
    apply next_seq_ok; [done|by rewrite Ib4|]. intros E. rewrite Ib6. by apply B8.
Qed.

Lemma confirm a b a2 b2 s stale now :
  answered a b a2 b2 s -> (sizeof_auth <= length stale)%nat ->
  let b3 := deliver b2 (last_datagram a2) stale now in
  session_state b3 = BFD_STATE_UP /\ remote_disc b3 = local_disc a /\ doing_poll b3 = false.
Proof.
  intros (_ & (W3 & Ss & S3 & S4 & S5 & S6) & (B1 & B2 & B3 & B4 & B5 & Q3)) Hs b3.
  destruct (receive_quiet s b2 true _ stale now Ss ltac:(left; congruence) ltac:(unfold peers; repeat split; try right; congruence) W3 Hs Q3
    ltac:(congruence) ltac:(apply down_not_up; right; congruence)) as (G1 & _ & G3 & G4 & _). fold b3 in G1, G3, G4. clearbody b3.
  rewrite B1, S3 in G1. cbn in G1. rewrite G1, andb_false_r in G4. split; [done|]. split; [congruence|done].
Qed.

(** C12: Two BFD sessions come up. Take two sessions as they start, configured with
    the same authentication (none, simple, MD5 or SHA-1, keyed or meticulously),
    and let their timers fire and their datagrams arrive: after the packet of the
    first, that of the second and the answer to its poll, both are Up, each
    knows the discriminator of the other, and the poll sequence is over. The
    packets go through the checks of fr_bfd_packet_ok and the digests, off receive
    buffers that hold anything behind the datagram. *)
Theorem bfd_sessions_come_up (a b : bfd_session_t) (stale : bytes) (now : fr_time_t) :
  fresh a -> fresh b -> secret b = secret a -> auth_type b = auth_type a ->
  (sizeof_auth <= length stale)%nat -> (forall n, send_ok n = true) ->
  let '(a', b') := handshake a b stale now in
  session_state a' = BFD_STATE_UP /\ session_state b' = BFD_STATE_UP /\
  remote_disc a' = local_disc b /\ remote_disc b' = local_disc a /\ doing_poll b' = false.
Proof.
  intros Fa Fb Hk Ht Hs Hok. pose proof Fa as ((_ & La & _ & Xa & _) & _). unfold handshake.
  pose proof (hello a b stale now Fa Fb Hk Ht Hs Hok) as Hg. cbn zeta in Hg. revert Hg.
  generalize (deliver b (last_datagram (bfd_send_packet fr_rand send_ok stack a now)) stale now).
  generalize (bfd_send_packet fr_rand send_ok stack a now). intros a1 b1 Hg.
  destruct (reply a b a1 b1 stale now Xa Hg Hs Hok La) as [s Hr]. revert Hr. cbn zeta.
  generalize (deliver a1 (last_datagram (bfd_send_packet fr_rand send_ok stack b1 now)) stale now).
  generalize (bfd_send_packet fr_rand send_ok stack b1 now). intros b2 a2 Hr.
  destruct (confirm a b a2 b2 s stale now Hr Hs) as (G1 & G2 & G3). destruct Hr as [[R1 R2] _]. done.
Qed.

End Handshake.

#[local] Existing Instances Md5.md5_ops Md5.md5_laws.

(** Sessions that share a secret for meticulous SHA-1. *)
Definition sha1_session (disc : Z) : bfd_session_t :=
  (plain_session disc) <| secret := [115; 101; 99; 114; 101; 116] |> <| auth_type := BFD_AUTH_MET_KEYED_SHA1 |>.

Lemma sha1_session_fresh disc : is_u32 disc -> disc <> 0 -> fresh (sha1_session disc).
Proof. unfold fresh, sendable, is_u32. cbn. intros. repeat split; done || lia. Qed.

Lemma bfd_sessions_come_up_witness :
  let '(a', b') := handshake (fun _ => 5) (fun _ => true) Sha1.sha1_wiped (sha1_session 4) (sha1_session 9) (replicate 28 170) 100 in
  session_state a' = BFD_STATE_UP /\ session_state b' = BFD_STATE_UP /\
  remote_disc a' = local_disc (sha1_session 9) /\ remote_disc b' = local_disc (sha1_session 4) /\ doing_poll b' = false.
Proof.
  refine (bfd_sessions_come_up (fun _ => 5) (fun _ => true) Sha1.sha1_wiped eq_refl _ eq_refl (sha1_session 4) (sha1_session 9)
    (replicate 28 170) 100 _ _ eq_refl eq_refl _ _);
    [reflexivity|apply sha1_session_fresh; unfold is_u32; lia|apply sha1_session_fresh; unfold is_u32; lia| |done].
  unfold sizeof_auth. rewrite length_replicate. lia.
Defined.

End BfdHandshake.
