(* ===== verification/RadiusId.v ===== *)
(** The eight-bit identifiers of outgoing RADIUS packets: src/protocols/radius/id.c
    and id.h. Free identifiers wait in a circular array, least recently used first;
    each identifier in use has the packet that holds it. *)

From stdpp Require Import gmap.
From S2P Require Import Prelude RadiusPacket.

Module RadiusId.

Definition ptr : Type := nat.
Definition NULL : ptr := 0%nat.

(** The fields of a packet that are used here, and the packets in memory. *)
Record fr_packet_t := MkPacket { code : Z; packet_id : Z }.
Definition packets : Type := gmap ptr fr_packet_t.

Record fr_radius_id_ctx_t := MkIdCtx { request_ctx : ptr; packet : ptr; response : ptr; retry_ctx : ptr }.

Record fr_radius_id_t := MkTrack {
  num_free_ids : Z;
  free_start : Z;
  free_end : Z;
  id : list fr_radius_id_ctx_t;
  free_ids : list Z
}.
#[export] Instance eta_track : Eta fr_radius_id_t := fun t => MkTrack (num_free_ids t) (free_start t) (free_end t) (id t) (free_ids t).

(** [l[i]], and [l[i] = v]. *)
Definition load {A} (l : list A) (i : Z) : option A := if i <? 0 then None else l !! Z.to_nat i.
Definition store {A} (l : list A) (i : Z) (v : A) : option (list A) :=
  if (0 <=? i) && (i <? Z.of_nat (length l)) then Some (<[Z.to_nat i := v]> l) else None.

Section Code.

(** Whether assertions are compiled out. *)
Context (NDEBUG : bool).

Definition fr_assert (c : option bool) : option unit := if NDEBUG then Some tt else b ← c; if (b : bool) then Some tt else None.

Definition swap (l : list Z) (i j : Z) : option (list Z) :=
  x ← load l i; y ← load l j; l ← store l j x; store l i y.

(** The shuffle from [i] down to 1, with the [k]-th random number first. *)
Fixpoint shuffle (fr_rand : nat -> Z) (k i : nat) (l : list Z) : option (list Z) :=
  match i with
  | O => Some l
  | S i' =>
      let j := fr_rand k mod (Z.of_nat i + 1) in
      l ← (if j =? Z.of_nat i then Some l else swap l (Z.of_nat i) j);
      shuffle fr_rand (S k) i' l
  end.

(** [memory] says whether [talloc_zero] succeeds. *)
Definition fr_radius_id_alloc (memory : bool) (fr_rand : nat -> Z) : option (option fr_radius_id_t) :=
  if negb memory then Some None
  else
    ids ← shuffle fr_rand 0 255 (seqZ 0 256);
    Some (Some (MkTrack 256 0 0 (replicate 256 (MkIdCtx NULL NULL NULL NULL)) ids)).

(** The identifier that is returned stands for the address of [track->id[id]]. *)
Definition fr_radius_id_pop (mem : packets) (track : fr_radius_id_t) (pkt : ptr) : option (fr_radius_id_t * packets * Z) :=
  i ← load (free_ids track) (free_start track);
  _ ← fr_assert (Some (0 <=? i));
  _ ← fr_assert (Some (i <? 256));
  _ ← fr_assert (c ← load (id track) i; Some (packet c =? NULL)%nat);
  free ← store (free_ids track) (free_start track) (-1);
  let track := track <| free_ids := free |> <| free_start := (free_start track + 1) &z 0xff |> in
  _ ← fr_assert (Some (0 <? num_free_ids track));
  let track := track <| num_free_ids := num_free_ids track - 1 |> in
  ids ← store (id track) i (MkIdCtx NULL pkt NULL NULL);
  p ← mem !! pkt;
  Some (track <| id := ids |>, <[pkt := MkPacket (code p) i]> mem, i).

Definition fr_radius_id_push (mem : packets) (track : fr_radius_id_t) (pkt : ptr) : option fr_radius_id_t :=
  p ← mem !! pkt;
  _ ← fr_assert (Some (0 <=? packet_id p));
  _ ← fr_assert (Some (packet_id p <? 256));
  _ ← fr_assert (c ← load (id track) (packet_id p); Some (packet c =? pkt)%nat);
  _ ← fr_assert (Some (num_free_ids track <? 256));
  _ ← fr_assert (Some (negb (free_start track =? free_end track)));
  _ ← fr_assert (Some (0 <=? free_end track));
  _ ← fr_assert (Some (free_end track <? 256));
  _ ← fr_assert (x ← load (free_ids track) (free_end track); Some (x =? -1));
  free ← store (free_ids track) (free_end track) (packet_id p);
  let track := track <| free_ids := free |> <| free_end := (free_end track + 1) &z 0xff |> in
  c ← load (id track) (packet_id p);
  ids ← store (id track) (packet_id p) (MkIdCtx (request_ctx c) NULL (response c) (retry_ctx c));
  Some (track <| id := ids |> <| num_free_ids := num_free_ids track + 1 |>).

Definition fr_radius_id_find (track : fr_radius_id_t) (i : Z) : option fr_radius_id_ctx_t :=
  _ ← fr_assert (Some (0 <=? i));
  _ ← fr_assert (Some (i <? 256));
  load (id track) i.

(** The loop with [n] iterations left, at [i]. *)
Fixpoint force_loop (n : nat) (i : Z) (track : fr_radius_id_t) (want : Z) : option (fr_radius_id_t * Z) :=
  match n with
  | O => Some (track, -1)
  | S n =>
      x ← load (free_ids track) ((free_start track + i) &z 0xff);
      if negb (x =? want) then force_loop n (i + 1) track want
      else if i =? 0 then Some (track, 0)
      else
        first ← load (free_ids track) (free_start track);
        free ← store (free_ids track) (free_start track) want;
        free ← store free ((free_start track + i) &z 0xff) first;
        Some (track <| free_ids := free |>, 0)
  end.

Definition fr_radius_id_force (track : fr_radius_id_t) (want : Z) : option (fr_radius_id_t * Z) :=
  _ ← fr_assert (Some (0 <=? want));
  _ ← fr_assert (Some (want <? 256));
  force_loop 256 0 track want.

(** *** One set of identifiers for each packet code *)

Definition fr_radius_code_id_t : Type := list (option fr_radius_id_t).

Definition assert_code (c : Z) : option unit :=
  _ ← fr_assert (Some (0 <? c));
  fr_assert (Some (c <? RadiusPacket.FR_RADIUS_CODE_MAX)).

Definition fr_radius_code_id_alloc (memory : bool) (fr_rand : nat -> Z) (codes : fr_radius_code_id_t) (c : Z) : option (fr_radius_code_id_t * Z) :=
  _ ← assert_code c;
  _ ← fr_assert (t ← load codes c; Some (negb (bool_decide (is_Some t))));
  t ← fr_radius_id_alloc memory fr_rand;
  codes ← store codes c t;
  Some (codes, match (t : option fr_radius_id_t) with Some _ => 0 | None => -1 end).

(** A null pointer is dereferenced where there is no set for the code. *)
Definition fr_radius_code_id_pop (mem : packets) (codes : fr_radius_code_id_t) (pkt : ptr) : option (fr_radius_code_id_t * packets * Z) :=
  p ← mem !! pkt;
  _ ← assert_code (code p);
  t ← load codes (code p);
  track ← t;
  '(track, mem, i) ← fr_radius_id_pop mem track pkt;
  codes ← store codes (code p) (Some track);
  Some (codes, mem, i).

Definition fr_radius_code_id_push (mem : packets) (codes : fr_radius_code_id_t) (pkt : ptr) : option fr_radius_code_id_t :=
  p ← mem !! pkt;
  _ ← assert_code (code p);
  t ← load codes (code p);
  track ← t;
  track ← fr_radius_id_push mem track pkt;
  store codes (code p) (Some track).

Definition fr_radius_code_id_find (codes : fr_radius_code_id_t) (c i : Z) : option (option fr_radius_id_ctx_t) :=
  _ ← assert_code c;
  t ← load codes c;
  match t with None => Some None | Some track => ctx ← fr_radius_id_find track i; Some (Some ctx) end.

Definition fr_radius_code_id_force (codes : fr_radius_code_id_t) (c i : Z) : option (fr_radius_code_id_t * Z) :=
  _ ← assert_code c;
  t ← load codes c;
  match t with
  | None => Some (codes, -1)
  | Some track => '(track, r) ← fr_radius_id_force track i; codes ← store codes c (Some track); Some (codes, r)
  end.
End Code.

(** ** Arrays *)

Lemma load_in {A} (l : list A) i : 0 <= i < Z.of_nat (length l) -> exists x, load l i = Some x.
Proof. intros H. unfold load. destruct (i <? 0) eqn:E; [lia|]. apply lookup_lt_is_Some. lia. Qed.

Lemma load_range {A} (l : list A) i x : load l i = Some x -> 0 <= i < Z.of_nat (length l).
Proof. unfold load. destruct (i <? 0) eqn:E; [done|]. intros H%lookup_lt_Some. lia. Qed.

Lemma store_in {A} (l : list A) i v :
  0 <= i < Z.of_nat (length l) ->
  exists l', store l i v = Some l' /\ length l' = length l /\ forall j, load l' j = if j =? i then Some v else load l j.
Proof.
  intros H. unfold store. replace ((0 <=? i) && (i <? Z.of_nat (length l))) with true by lia. eexists. split; [done|].
  rewrite length_insert. split; [done|]. intros j. unfold load. destruct (j <? 0) eqn:E.
  - by replace (j =? i) with false by lia.
  - destruct (j =? i) eqn:F; [replace j with i by lia; rewrite list_lookup_insert_eq by lia; done|].
    rewrite list_lookup_insert_ne by lia. done.
Qed.

Lemma land_0xff x : x &z 0xff = x mod 256.
Proof. change 0xff with (Z.ones 8). by rewrite Z.land_ones. Qed.

(** ** The identifiers as a queue *)

(** The free identifiers in the order of their use, and who holds the others. *)
Record ids := MkIds { free : list Z; holder : gmap Z ptr }.

Definition slot (l : list Z) (k : Z) : Z := default (-1) (l !! Z.to_nat k).

Record rep (t : fr_radius_id_t) (s : ids) : Prop := {
  rep_length : length (id t) = 256%nat /\ length (free_ids t) = 256%nat;
  rep_start : 0 <= free_start t < 256;
  rep_end : free_end t = (free_start t + Z.of_nat (length (free s))) mod 256;
  rep_num : num_free_ids t = Z.of_nat (length (free s));
  rep_slot k : 0 <= k < 256 -> load (free_ids t) ((free_start t + k) mod 256) = Some (slot (free s) k);
  rep_nodup : NoDup (free s);
  rep_free i : i ∈ free s <-> 0 <= i < 256 /\ holder s !! i = None;
  rep_held i : 0 <= i < 256 -> packet <$> load (id t) i = Some (default NULL (holder s !! i));
  rep_holder i p : holder s !! i = Some p -> 0 <= i < 256 /\ p <> NULL }.

(** Taking the next identifier, giving one back, and moving one to the front. *)
Definition ids_pop (mem : packets) (s : ids) (pkt : ptr) : option (ids * packets * Z) :=
  match free s with
  | [] => None
  | i :: fs => p ← mem !! pkt; Some (MkIds fs (<[i := pkt]> (holder s)), <[pkt := MkPacket (code p) i]> mem, i)
  end.

(** Only by the packet that holds it; where assertions are compiled in, not when
    all are in use. *)
Definition ids_push (NDEBUG : bool) (mem : packets) (s : ids) (pkt : ptr) : option ids :=
  p ← mem !! pkt;
  if bool_decide (holder s !! packet_id p = Some pkt) && (NDEBUG || negb (length (free s) =? 0)%nat)
  then Some (MkIds (free s ++ [packet_id p]) (delete (packet_id p) (holder s))) else None.

Definition to_front (k : nat) (l : list Z) : list Z :=
  match l, l !! k with x :: _, Some y => <[k := x]> (<[0%nat := y]> l) | _, _ => l end.

Definition ids_force (s : ids) (want : Z) : option (ids * Z) :=
  if negb ((0 <=? want) && (want <? 256)) then None
  else match list_find (eq want) (free s) with None => Some (s, -1) | Some (k, _) => Some (MkIds (to_front k (free s)) (holder s), 0) end.

Definition ids_find (s : ids) (i : Z) : option ptr :=
  if negb ((0 <=? i) && (i <? 256)) then None else Some (default NULL (holder s !! i)).

(** There are at most 256 of them, and fewer when one is held. *)
Lemma distinct_ids l x : NoDup l -> (forall i, i ∈ l -> 0 <= i < 256) -> 0 <= x < 256 -> x ∉ l -> (length l < 256)%nat.
Proof.
  intros Hn Hr Hx Hi. assert (x :: l ⊆+ seqZ 0 256) as H%submseteq_length.
  { apply NoDup_submseteq; [by apply list.NoDup_cons|]. intros y [-> | Hy]%elem_of_cons; apply elem_of_seqZ; [lia|]. apply Hr in Hy. lia. }
  rewrite length_seqZ in H. cbn [length] in H. lia.
Qed.

Lemma few_ids l : NoDup l -> (forall i, i ∈ l -> 0 <= i < 256) -> (length l <= 256)%nat.
Proof.
  intros Hn Hr. assert (l ⊆+ seqZ 0 256) as H%submseteq_length; [|rewrite length_seqZ in H; lia].
  apply NoDup_submseteq; [done|]. intros y Hy%Hr. apply elem_of_seqZ. lia.
Qed.

Lemma slot_nil k : slot [] k = -1.
Proof. done. Qed.
Lemma slot_cons x l k : 0 <= k -> slot (x :: l) (k + 1) = slot l k.
Proof. intros H. unfold slot. by replace (Z.to_nat (k + 1)) with (S (Z.to_nat k)) by lia. Qed.
Lemma slot_past l k : Z.of_nat (length l) <= k -> slot l k = -1.
Proof. intros H. unfold slot. by rewrite lookup_ge_None_2 by lia. Qed.
Lemma slot_app l x k : 0 <= k -> slot (l ++ [x]) k = if k =? Z.of_nat (length l) then x else slot l k.
Proof.
  intros H. unfold slot. destruct (k =? Z.of_nat (length l)) eqn:E.
  - rewrite lookup_app_r by lia. by replace (Z.to_nat k - length l)%nat with 0%nat by lia.
  - destruct (decide (k < Z.of_nat (length l))); [by rewrite lookup_app_l by lia|].
    rewrite !lookup_ge_None_2; rewrite ?length_app; cbn [length]; lia || done.
Qed.

Lemma ring_inj a k k' : 0 <= k < 256 -> 0 <= k' < 256 -> (a + k) mod 256 = (a + k') mod 256 -> k = k'.
Proof. intros. Z.to_euclidean_division_equations. lia. Qed.

(** Exchanging two elements. *)
Lemma exchange_permutation (l : list Z) i j x y : l !! i = Some x -> l !! j = Some y -> <[j := x]> (<[i := y]> l) ≡ₚ l.
Proof.
  intros Hi Hj. pose proof (lookup_lt_Some _ _ _ Hi). pose proof (lookup_lt_Some _ _ _ Hj).
  apply Permutation_inj. split; [by rewrite !length_insert|].
  exists (fun k => if decide (k = i) then j else if decide (k = j) then i else k). split.
  - intros a b. repeat case_decide; congruence.
  - intros k. destruct (decide (k = j)) as [-> |].
    + rewrite list_lookup_insert_eq by (rewrite length_insert; lia). case_decide; congruence.
    + rewrite list_lookup_insert_ne by done. case_decide; [subst; by rewrite list_lookup_insert_eq by lia|]. by rewrite list_lookup_insert_ne by done.
Qed.

Lemma to_front_permutation k l : to_front k l ≡ₚ l.
Proof. unfold to_front. destruct l as [|x l]; [done|]. destruct ((x :: l) !! k) as [y|] eqn:E; [|done]. by apply exchange_permutation. Qed.

Lemma slot_to_front k l j want : 0 <= j -> l !! k = Some want ->
  slot (to_front k l) j = if j =? Z.of_nat k then slot l 0 else if j =? 0 then want else slot l j.
Proof.
  intros Hj Hk. pose proof (lookup_lt_Some _ _ _ Hk). unfold to_front, slot. destruct l as [|x l]; [done|]. rewrite Hk.
  destruct (j =? Z.of_nat k) eqn:E.
  - replace (Z.to_nat j) with k by lia. by rewrite list_lookup_insert_eq by (rewrite length_insert; done).
  - rewrite list_lookup_insert_ne by lia. destruct (j =? 0) eqn:F; [by replace (Z.to_nat j) with 0%nat by lia|].
    by rewrite list_lookup_insert_ne by lia.
Qed.

Section Steps.
Context (NDEBUG : bool).

Lemma assert_true c : c = Some true -> fr_assert NDEBUG c = Some tt.
Proof. intros ->. unfold fr_assert. by destruct NDEBUG. Qed.

Ltac pass tac := repeat (rewrite assert_true by tac; cbn [mbind option_bind]).

Lemma pop_refines mem t s pkt s' mem' i :
  rep t s -> pkt <> NULL -> ids_pop mem s pkt = Some (s', mem', i) ->
  exists t', fr_radius_id_pop NDEBUG mem t pkt = Some (t', mem', i) /\ rep t' s'.
Proof.
  intros R Hp H. unfold ids_pop in H. destruct s as [[|i0 fs] h]; [done|]. cbn in H. destruct (mem !! pkt) as [p|] eqn:Ep; [|done].
  injection H as <- <- <-. pose proof (rep_start _ _ R) as Hs. destruct (rep_length _ _ R) as [Hl1 Hl2].
  assert (load (free_ids t) (free_start t) = Some i0) as Hh.
  { pose proof (rep_slot _ _ R 0 ltac:(lia)) as H. by rewrite Z.add_0_r, Z.mod_small in H by lia. }
  destruct (proj1 (rep_free _ _ R i0)) as [Hi Hn]; [cbn; by left|]. pose proof (rep_held _ _ R i0 Hi) as Hc. cbn in Hn. cbn in Hc. rewrite Hn in Hc.
  destruct (load (id t) i0) as [c|] eqn:Ec; [|done]. cbn in Hc. injection Hc as Hc.
  destruct (store_in (free_ids t) (free_start t) (-1)) as (free' & Es & Hl3 & Hf); [lia|].
  destruct (store_in (id t) i0 (MkIdCtx NULL pkt NULL NULL)) as (ids' & Es' & Hl4 & Hf'); [lia|].
  pose proof (rep_num _ _ R) as Hm. cbn in Hm. pose proof (rep_nodup _ _ R) as Hd. apply list.NoDup_cons in Hd as [Hd1 Hd2]. cbn in Hd1.
  assert (length fs < 256)%nat as Hlen.
  { apply (distinct_ids fs i0); [done| |done|done]. intros j Hj. apply (rep_free _ _ R j). cbn. by right. }
  eexists. split.
  - unfold fr_radius_id_pop. rewrite Hh. cbn [mbind option_bind]. pass ltac:(rewrite ?Ec; cbn; rewrite ?Hc; f_equal; lia || done).
    rewrite Es. cbn. pass ltac:(f_equal; lia). rewrite Es'. cbn. by rewrite Ep.
  - split; cbn.
    + lia.
    + rewrite land_0xff. apply Z.mod_pos_bound. lia.
    + rewrite (rep_end _ _ R), land_0xff. cbn. rewrite Zplus_mod_idemp_l. f_equal. lia.
    + lia.
    + intros k Hk. rewrite land_0xff, Zplus_mod_idemp_l, Hf. destruct (_ =? _) eqn:E.
      * rewrite slot_past; [done|]. Z.to_euclidean_division_equations. lia.
      * rewrite <- (slot_cons i0) by lia. rewrite <- (rep_slot _ _ R) by (Z.to_euclidean_division_equations; lia). do 2 f_equal. lia.
    + done.
    + intros j. destruct (decide (j = i0)) as [-> |Hj].
      * rewrite lookup_insert_eq. split; [done|]. intros []. done.
      * rewrite lookup_insert_ne by done. rewrite <- (rep_free _ _ R j). cbn. rewrite elem_of_cons. split; [by right|]. by intros [|].
    + intros j Hj. rewrite Hf'. destruct (j =? i0) eqn:E.
      * replace j with i0 by lia. by rewrite lookup_insert_eq.
      * rewrite lookup_insert_ne by lia. by apply (rep_held _ _ R).
    + intros j q. destruct (decide (j = i0)) as [-> |Hj].
      * rewrite lookup_insert_eq. intros [= <-]. done.
      * rewrite lookup_insert_ne by done. apply (rep_holder _ _ R).
Qed.

Lemma push_refines mem t s pkt s' :
  rep t s -> ids_push NDEBUG mem s pkt = Some s' -> exists t', fr_radius_id_push NDEBUG mem t pkt = Some t' /\ rep t' s'.
Proof.
  intros R H. unfold ids_push in H. destruct (mem !! pkt) as [[co i]|] eqn:Ep; [|done]. cbn in H.
  destruct (bool_decide _ && _) eqn:E; [|done]. apply andb_prop in E as [Hh%bool_decide_eq_true_1 He]. injection H as <-.
  destruct (rep_holder _ _ R _ _ Hh) as [Hi Hp]. destruct (rep_length _ _ R) as [Hl1 Hl2]. pose proof (rep_start _ _ R) as Hs.
  assert (i ∉ free s) as Hni by (intros [_ ?]%(rep_free _ _ R); congruence).
  assert (length (free s) < 256)%nat as Hlen by (apply (distinct_ids _ i); [apply (rep_nodup _ _ R)|intros j Hj; by apply (rep_free _ _ R)|done|done]).
  pose proof (rep_end _ _ R) as Hend. pose proof (rep_num _ _ R) as Hm. remember (Z.of_nat (length (free s))) as n eqn:En.
  assert (0 <= free_end t < 256) by (rewrite Hend; apply Z.mod_pos_bound; lia).
  assert (load (free_ids t) (free_end t) = Some (-1)) as Hlast.
  { rewrite Hend, (rep_slot _ _ R) by lia. by rewrite slot_past by lia. }
  pose proof (rep_held _ _ R i Hi) as Hc. rewrite Hh in Hc. cbn in Hc. destruct (load (id t) i) as [c|] eqn:Ec; [|done]. injection Hc as Hc.
  destruct (store_in (free_ids t) (free_end t) i) as (free' & Es & Hl3 & Hf); [lia|].
  destruct (store_in (id t) i (MkIdCtx (request_ctx c) NULL (response c) (retry_ctx c))) as (ids' & Es' & Hl4 & Hf'); [lia|].
  assert (NDEBUG = true \/ free_start t <> free_end t) as Hne.
  { destruct NDEBUG; [by left|right]. assert (0 < n) by (rewrite En; destruct (free s); [done|cbn; lia]). assert (n < 256) by lia. rewrite Hend. Z.to_euclidean_division_equations; lia. }
  eexists. split.
  - unfold fr_radius_id_push. rewrite Ep. cbn [mbind option_bind packet_id].
    pass ltac:(rewrite ?Ec, ?Hlast; cbn; rewrite ?Hc, ?Nat.eqb_refl; f_equal; lia || done).
    replace (fr_assert NDEBUG (Some (negb (free_start t =? free_end t)))) with (Some tt) by (destruct Hne as [-> |]; [done|symmetry; apply assert_true; f_equal; lia]).
    cbn [mbind option_bind]. pass ltac:(rewrite ?Ec, ?Hlast; cbn; rewrite ?Hc, ?Nat.eqb_refl; f_equal; lia || done). rewrite Es. cbn. rewrite Ec. cbn. by rewrite Es'.
  - split; cbn [id free_ids free_start free_end num_free_ids free holder upd].
    + cbn. lia.
    + done.
    + cbn. rewrite land_0xff, Hend, length_app. cbn. rewrite Zplus_mod_idemp_l. f_equal. lia.
    + cbn. rewrite length_app. cbn. lia.
    + intros k Hk. cbn. rewrite Hf, slot_app by lia. rewrite <- En. destruct (_ =? free_end t) eqn:E.
      * rewrite Hend in E. assert (k = n) as -> by (apply (ring_inj (free_start t)); lia). by rewrite Z.eqb_refl.
      * replace (k =? n) with false; [by apply (rep_slot _ _ R)|]. destruct (k =? n) eqn:F; [|done]. replace k with n in E by lia. lia.
    + apply list.NoDup_app. split; [apply (rep_nodup _ _ R)|]. split; [|apply NoDup_singleton]. intros x Hx ->%list_elem_of_singleton. done.
    + intros j. rewrite elem_of_app, list_elem_of_singleton, (rep_free _ _ R). destruct (decide (j = i)) as [-> |Hj].
      * rewrite lookup_delete_eq. split; [done|]. by right.
      * rewrite lookup_delete_ne by done. split; [intros [|]; done|]. by left.
    + intros j Hj. cbn. rewrite Hf'. destruct (j =? i) eqn:E.
      * replace j with i by lia. by rewrite lookup_delete_eq.
      * rewrite lookup_delete_ne by lia. by apply (rep_held _ _ R).
    + intros j q [_ Hq]%lookup_delete_Some. by apply (rep_holder _ _ R).
Qed.

Lemma exchange_rep t s k want free' :
  rep t s -> free s !! k = Some want -> 0 < Z.of_nat k < 256 -> length free' = 256%nat ->
  (forall j, load free' j = if j =? (free_start t + Z.of_nat k) mod 256 then Some (slot (free s) 0) else if j =? free_start t then Some want else load (free_ids t) j) ->
  rep (t <| free_ids := free' |>) (MkIds (to_front k (free s)) (holder s)).
Proof.
  intros R Hk Hk' Hl Hf. destruct (rep_length _ _ R) as [Hl1 Hl2]. pose proof (rep_start _ _ R) as Hs.
  pose proof (to_front_permutation k (free s)) as HP.
  split; cbn; rewrite ?(Permutation_length HP); [done|done|apply (rep_end _ _ R)|apply (rep_num _ _ R)| | | |apply (rep_held _ _ R)|apply (rep_holder _ _ R)].
  - intros j Hj. rewrite Hf, (slot_to_front _ _ _ want) by (lia || done). destruct (_ =? (free_start t + Z.of_nat k) mod 256) eqn:E.
    + assert (j = Z.of_nat k) as -> by (apply (ring_inj (free_start t)); lia). by rewrite Z.eqb_refl.
    + replace (j =? Z.of_nat k) with false by (destruct (j =? Z.of_nat k) eqn:G; [replace j with (Z.of_nat k) in E by lia; lia|done]).
      destruct (_ =? free_start t) eqn:F.
      * replace (j =? 0) with true; [done|]. Z.to_euclidean_division_equations; lia.
      * replace (j =? 0) with false; [by apply (rep_slot _ _ R)|]. destruct (j =? 0) eqn:G; [|done]. replace j with 0 in F by lia. rewrite Z.add_0_r, Z.mod_small in F by lia. lia.
  - rewrite HP. apply (rep_nodup _ _ R).
  - intros i. rewrite HP. apply (rep_free _ _ R).
Qed.

(** At [k], where the slots before were others. *)
Lemma force_loop_refines n k t s want :
  rep t s -> 0 <= want < 256 -> (k + n = 256)%nat -> (forall j, (j < k)%nat -> free s !! j <> Some want) ->
  exists t' s' r, force_loop n (Z.of_nat k) t want = Some (t', r) /\ ids_force s want = Some (s', r) /\ rep t' s'.
Proof.
  intros R Hw. revert k. induction n as [|n IH]; intros k Hk Hbefore.
  - exists t, s, (-1). split; [done|]. split; [|done]. unfold ids_force. replace (negb _) with false by lia.
    replace (list_find (eq want) (free s)) with (@None (nat * Z)); [done|]. symmetry. apply list_find_None, Forall_lookup_2. intros j x Hj ->.
    apply (Hbefore j); [|done]. apply lookup_lt_Some in Hj. pose proof (few_ids (free s) (rep_nodup _ _ R)) as Hfew.
    assert (length (free s) <= 256)%nat by (apply Hfew; intros i Hi; by apply (rep_free _ _ R)). lia.
  - cbn [force_loop]. rewrite land_0xff, (rep_slot _ _ R) by lia. cbn [mbind option_bind]. destruct (slot (free s) (Z.of_nat k) =? want) eqn:E; cbn [negb].
    + assert (free s !! k = Some want) as Hw'. { apply Z.eqb_eq in E. unfold slot in E. rewrite Nat2Z.id in E. destruct (free s !! k); cbn in E; [by f_equal|lia]. }
      assert (list_find (eq want) (free s) = Some (k, want)) as Hfind by (apply list_find_Some; split; [done|]; split; [done|]; intros j y Hj Hjk ->; by apply (Hbefore j)).
      unfold ids_force. replace (negb _) with false by lia. rewrite Hfind. destruct (Z.of_nat k =? 0) eqn:F.
      * exists t, (MkIds (to_front k (free s)) (holder s)), 0. split; [done|]. split; [done|]. replace k with 0%nat in * by lia.
        replace (to_front 0 (free s)) with (free s); [by destruct s|]. unfold to_front. destruct (free s) as [|x l]; [done|]. cbn in Hw' |- *. by injection Hw' as ->.
      * destruct (rep_length _ _ R) as [Hl1 Hl2]. pose proof (rep_start _ _ R) as Hs.
        destruct (store_in (free_ids t) (free_start t) want) as (f1 & E1 & L1 & F1); [lia|].
        destruct (store_in f1 ((free_start t + Z.of_nat k) mod 256) (slot (free s) 0)) as (f2 & E2 & L2 & F2); [rewrite L1, Hl2; apply Z.mod_pos_bound; lia|].
        eexists _, _, 0. split; [|split; [done|]].
        -- pose proof (rep_slot _ _ R 0 ltac:(lia)) as H0. rewrite Z.add_0_r, Z.mod_small in H0 by lia. rewrite H0. cbn [mbind option_bind].
           rewrite E1. cbn [mbind option_bind]. by rewrite E2.
        -- apply (exchange_rep t s k want); [done|done|lia|lia|]. intros j. rewrite F2, F1. done.
    + replace (Z.of_nat k + 1) with (Z.of_nat (S k)) by lia. apply IH; [lia|]. intros j Hj. destruct (decide (j = k)) as [-> |]; [|apply Hbefore; lia].
      intros Hc. apply Z.eqb_neq in E. apply E. unfold slot. by rewrite Nat2Z.id, Hc.
Qed.

Lemma force_refines t s want s' r :
  rep t s -> ids_force s want = Some (s', r) -> exists t', fr_radius_id_force NDEBUG t want = Some (t', r) /\ rep t' s'.
Proof.
  intros R H. assert (0 <= want < 256) as Hw by (unfold ids_force in H; destruct (negb _) eqn:E; [done|lia]).
  destruct (force_loop_refines 256 0 t s want R Hw) as (t' & s2 & r2 & H1 & H2 & H3); [done|intros; lia|].
  rewrite H in H2. injection H2 as <- <-. exists t'. split; [|done]. unfold fr_radius_id_force. pass ltac:(f_equal; lia). done.
Qed.

Lemma find_refines t s i p : rep t s -> ids_find s i = Some p -> packet <$> fr_radius_id_find NDEBUG t i = Some p.
Proof.
  intros R H. unfold ids_find in H. destruct (negb _) eqn:E; [done|]. injection H as <-. unfold fr_radius_id_find. pass ltac:(f_equal; lia).
  apply (rep_held _ _ R). lia.
Qed.
End Steps.

(** ** A new set of identifiers *)

Lemma swap_permutation l i j :
  0 <= i < Z.of_nat (length l) -> 0 <= j < Z.of_nat (length l) -> exists l', swap l i j = Some l' /\ l' ≡ₚ l.
Proof.
  intros Hi Hj. destruct (load_in l i Hi) as [x Hx], (load_in l j Hj) as [y Hy]. unfold swap. rewrite Hx, Hy. cbn [mbind option_bind].
  unfold store. replace ((0 <=? j) && _) with true by lia. cbn [mbind option_bind]. rewrite length_insert. replace ((0 <=? i) && _) with true by lia.
  eexists. split; [done|]. unfold load in Hx, Hy. replace (i <? 0) with false in Hx by lia. replace (j <? 0) with false in Hy by lia. by apply exchange_permutation.
Qed.

Lemma shuffle_permutation fr_rand k i l : (i < length l)%nat -> exists l', shuffle fr_rand k i l = Some l' /\ l' ≡ₚ l.
Proof.
  revert k l. induction i as [|i IH]; intros k l Hi; [by exists l|]. cbn [shuffle].
  assert (0 <= fr_rand k mod (Z.of_nat (S i) + 1) < Z.of_nat (S i) + 1) by (apply Z.mod_pos_bound; lia). destruct (_ =? _) eqn:E; cbn [mbind option_bind].
  - apply IH. lia.
  - destruct (swap_permutation l (Z.of_nat (S i)) (fr_rand k mod (Z.of_nat (S i) + 1))) as (l1 & -> & H1); [lia|lia|]. cbn [mbind option_bind].
    destruct (IH (S k) l1) as (l2 & -> & H2); [rewrite (Permutation_length H1); lia|]. exists l2. split; [done|]. by rewrite H2.
Qed.

(** The order of the first use. *)
Definition initial (fr_rand : nat -> Z) : list Z := default [] (shuffle fr_rand 0 255 (seqZ 0 256)).

Lemma initial_permutation fr_rand : shuffle fr_rand 0 255 (seqZ 0 256) = Some (initial fr_rand) /\ initial fr_rand ≡ₚ seqZ 0 256.
Proof. unfold initial. destruct (shuffle_permutation fr_rand 0 255 (seqZ 0 256)) as (l & -> & H); [rewrite length_seqZ; lia|]. done. Qed.

Lemma alloc_rep fr_rand :
  exists t, fr_radius_id_alloc true fr_rand = Some (Some t) /\ rep t (MkIds (initial fr_rand) ∅).
Proof.
  destruct (initial_permutation fr_rand) as [E HP]. unfold fr_radius_id_alloc. rewrite E. cbn [mbind option_bind negb]. eexists. split; [done|].
  pose proof (Permutation_length HP) as Hl. rewrite length_seqZ in Hl. split; cbn [id free_ids free_start free_end num_free_ids free holder].
  - rewrite length_replicate. split; [done|]. lia.
  - lia.
  - rewrite Hl. done.
  - rewrite Hl. done.
  - intros k Hk. rewrite Z.add_0_l, Z.mod_small by lia. unfold load, slot. replace (k <? 0) with false by lia.
    destruct (initial fr_rand !! Z.to_nat k) eqn:F; [done|]. apply lookup_ge_None in F. lia.
  - rewrite HP. apply NoDup_seqZ.
  - intros i. rewrite HP, elem_of_seqZ. split; [|intros; lia]. intros. split; [lia|done].
  - intros i Hi. unfold load. replace (i <? 0) with false by lia. by rewrite lookup_replicate_2 by lia.
  - done.
Qed.

(** ** Sets for each code *)

Definition code_ids : Type := gmap Z ids.

Inductive op :=
| Alloc (c : Z) (memory : bool) (fr_rand : nat -> Z)
| Pop (pkt : ptr)
| Push (pkt : ptr)
| Find (c i : Z)
| Force (c i : Z).

(** What a call returns; [Found] is the packet of the context that was found. *)
Inductive result := Ret (r : Z) | Found (pkt : option ptr).
#[export] Instance result_eq_dec : EqDecision result.
Proof. solve_decision. Defined.

Definition is_code (c : Z) : bool := (0 <? c) && (c <? RadiusPacket.FR_RADIUS_CODE_MAX).

Lemma is_code_range c : is_code c = true -> 0 < c < 53.
Proof. unfold is_code. lia. Qed.

Section Run.
Context (NDEBUG : bool).

Definition spec_step (cs : code_ids) (mem : packets) (o : op) : option (code_ids * packets * result) :=
  match o with
  | Alloc c memory fr_rand =>
      if is_code c && bool_decide (cs !! c = None)
      then Some (if (memory : bool) then (<[c := MkIds (initial fr_rand) ∅]> cs, mem, Ret 0) else (cs, mem, Ret (-1))) else None
  | Pop pkt =>
      p ← mem !! pkt; s ← cs !! code p; '(s, mem, i) ← ids_pop mem s pkt; Some (<[code p := s]> cs, mem, Ret i)
  | Push pkt => p ← mem !! pkt; s ← cs !! code p; s ← ids_push NDEBUG mem s pkt; Some (<[code p := s]> cs, mem, Ret 0)
  | Find c i =>
      if is_code c
      then match cs !! c with None => Some (cs, mem, Found None) | Some s => p ← ids_find s i; Some (cs, mem, Found (Some p)) end else None
  | Force c i =>
      if is_code c
      then match cs !! c with None => Some (cs, mem, Ret (-1)) | Some s => '(s, r) ← ids_force s i; Some (<[c := s]> cs, mem, Ret r) end else None
  end.

Definition code_step (codes : fr_radius_code_id_t) (mem : packets) (o : op) : option (fr_radius_code_id_t * packets * result) :=
  match o with
  | Alloc c memory fr_rand => '(codes, r) ← fr_radius_code_id_alloc NDEBUG memory fr_rand codes c; Some (codes, mem, Ret r)
  | Pop pkt => '(codes, mem, i) ← fr_radius_code_id_pop NDEBUG mem codes pkt; Some (codes, mem, Ret i)
  | Push pkt => codes ← fr_radius_code_id_push NDEBUG mem codes pkt; Some (codes, mem, Ret 0)
  | Find c i => ctx ← fr_radius_code_id_find NDEBUG codes c i; Some (codes, mem, Found (packet <$> ctx))
  | Force c i => '(codes, r) ← fr_radius_code_id_force NDEBUG codes c i; Some (codes, mem, Ret r)
  end.

Fixpoint spec_run (cs : code_ids) (mem : packets) (os : list op) : option (code_ids * packets * list result) :=
  match os with
  | [] => Some (cs, mem, [])
  | o :: os => '(cs, mem, r) ← spec_step cs mem o; '(cs, mem, rs) ← spec_run cs mem os; Some (cs, mem, r :: rs)
  end.

Fixpoint code_run (codes : fr_radius_code_id_t) (mem : packets) (os : list op) : option (fr_radius_code_id_t * packets * list result) :=
  match os with
  | [] => Some (codes, mem, [])
  | o :: os => '(codes, mem, r) ← code_step codes mem o; '(codes, mem, rs) ← code_run codes mem os; Some (codes, mem, r :: rs)
  end.

Definition no_codes : fr_radius_code_id_t := replicate 53 None.

Record rep_codes (codes : fr_radius_code_id_t) (cs : code_ids) : Prop := {
  codes_length : length codes = 53%nat;
  codes_range c s : cs !! c = Some s -> is_code c = true;
  codes_none c : is_code c = true -> cs !! c = None -> load codes c = Some None;
  codes_some c s : cs !! c = Some s -> exists t, load codes c = Some (Some t) /\ rep t s }.

Lemma no_codes_rep : rep_codes no_codes ∅.
Proof.
  split; [done|done| |done]. intros c Hc _. unfold is_code in Hc. unfold load.
  replace (c <? 0) with false by lia. apply lookup_replicate_2. lia.
Qed.

Lemma assert_code_ok c : is_code c = true -> assert_code NDEBUG c = Some tt.
Proof. unfold is_code. intros H. unfold assert_code. rewrite !assert_true by (f_equal; lia). done. Qed.

(** One set is replaced. *)
Lemma codes_store codes cs c t s :
  rep_codes codes cs -> is_code c = true -> rep t s ->
  exists codes', store codes c (Some t) = Some codes' /\ rep_codes codes' (<[c := s]> cs).
Proof.
  intros [Hl Hr Hn Hs] Hc R. assert (0 <= c < Z.of_nat (length codes)) by (unfold is_code in Hc; lia).
  destruct (store_in codes c (Some t)) as (codes' & E & Hl' & Hf); [lia|]. exists codes'. split; [done|]. split; [lia| | |].
  - intros d s' [[-> _]|[_ Hd]]%lookup_insert_Some; [done|]. by eapply Hr.
  - intros d Hd [Hne Hd']%lookup_insert_None. rewrite Hf. replace (d =? c) with false by lia. by apply Hn.
  - intros d s' [[-> ->]|[Hne Hd]]%lookup_insert_Some; rewrite Hf.
    + rewrite Z.eqb_refl. by eexists.
    + replace (d =? c) with false by lia. by apply Hs.
Qed.

(** The step of the code that goes with a step of the specification. *)
Definition refines_at (o : op) : Prop := forall codes cs mem cs' mem' r,
  rep_codes codes cs -> mem !! NULL = None -> spec_step cs mem o = Some (cs', mem', r) ->
  exists codes', code_step codes mem o = Some (codes', mem', r) /\ rep_codes codes' cs' /\ mem' !! NULL = None.

Lemma id_alloc_step c memory fr_rand : refines_at (Alloc c memory fr_rand).
Proof.
  intros codes cs mem cs' mem' r R Hmem. cbn [spec_step code_step].
  destruct (is_code c && _) eqn:E; [|done]. apply andb_prop in E as [Hc Hn%bool_decide_eq_true_1].
  pose proof (codes_none _ _ R c Hc Hn) as Hl. unfold fr_radius_code_id_alloc. rewrite (assert_code_ok c Hc), assert_true by (by rewrite Hl).
  cbn [mbind option_bind]. destruct memory; intros [= <- <- <-].
  + destruct (alloc_rep fr_rand) as (t & -> & Rt). cbn [mbind option_bind].
    destruct (codes_store _ _ c t _ R Hc Rt) as (codes' & -> & R'). cbn. by eexists.
  + cbn. unfold store. rewrite (codes_length _ _ R). pose proof (is_code_range c Hc). change (Z.of_nat 53) with 53; replace ((0 <=? c) && (c <? 53)) with true by lia. cbn.
    eexists. split; [done|]. split; [|done]. unfold load in Hl. replace (c <? 0) with false in Hl by lia. by rewrite list_insert_id.
Qed.

Lemma id_pop_step pkt : refines_at (Pop pkt).
Proof.
  intros codes cs mem cs' mem' r R Hmem. cbn [spec_step code_step].
  destruct (mem !! pkt) as [p|] eqn:Ep; [|done]. cbn [mbind option_bind]. destruct (cs !! code p) as [s|] eqn:Es; [|done]. cbn [mbind option_bind].
  destruct (ids_pop mem s pkt) as [[[s' m] i]|] eqn:E; [|done]. cbn. intros [= <- <- <-].
  pose proof (codes_range _ _ R _ _ Es) as Hc. destruct (codes_some _ _ R _ _ Es) as (t & Hl & Rt).
  assert (pkt <> NULL) as Hp by congruence.
  destruct (pop_refines NDEBUG mem t s pkt s' m i Rt Hp E) as (t' & E' & Rt'). destruct (codes_store _ _ _ t' _ R Hc Rt') as (codes' & E2 & R').
  exists codes'. unfold fr_radius_code_id_pop. rewrite Ep. cbn [mbind option_bind]. rewrite (assert_code_ok _ Hc). cbn [mbind option_bind]. rewrite Hl.
  cbn [mbind option_bind]. rewrite E'. cbn. rewrite E2. cbn. split; [done|]. split; [done|].
  unfold ids_pop in E. destruct (free s); [done|]. rewrite Ep in E. cbn in E. injection E as <- <- <-. etransitivity; [by apply lookup_insert_ne|done].
Qed.

Lemma id_push_step pkt : refines_at (Push pkt).
Proof.
  intros codes cs mem cs' mem' r R Hmem. cbn [spec_step code_step].
  destruct (mem !! pkt) as [p|] eqn:Ep; [|done]. cbn [mbind option_bind]. destruct (cs !! code p) as [s|] eqn:Es; [|done]. cbn [mbind option_bind].
  destruct (ids_push NDEBUG mem s pkt) as [s'|] eqn:E; [|done]. cbn. intros [= <- <- <-].
  pose proof (codes_range _ _ R _ _ Es) as Hc. destruct (codes_some _ _ R _ _ Es) as (t & Hl & Rt).
  destruct (push_refines NDEBUG mem t s pkt s' Rt E) as (t' & E' & Rt'). destruct (codes_store _ _ _ t' _ R Hc Rt') as (codes' & E2 & R').
  exists codes'. unfold fr_radius_code_id_push. rewrite Ep. cbn [mbind option_bind]. rewrite (assert_code_ok _ Hc). cbn [mbind option_bind]. rewrite Hl.
  cbn [mbind option_bind]. rewrite E'. cbn. by rewrite E2.
Qed.

Lemma id_find_step c i : refines_at (Find c i).
Proof.
  intros codes cs mem cs' mem' r R Hmem. cbn [spec_step code_step].
  destruct (is_code c) eqn:Hc; [|done]. unfold fr_radius_code_id_find. rewrite (assert_code_ok _ Hc). cbn [mbind option_bind].
  destruct (cs !! c) as [s|] eqn:Es.
  + destruct (codes_some _ _ R _ _ Es) as (t & -> & Rt). destruct (ids_find s i) as [p|] eqn:E; [|done]. intros [= <- <- <-].
    pose proof (find_refines NDEBUG t s i p Rt E) as H. cbn [mbind option_bind]. destruct (fr_radius_id_find NDEBUG t i) as [ctx|]; [|done].
    cbn in H |- *. injection H as ->. by eexists.
  + rewrite (codes_none _ _ R c Hc Es). intros [= <- <- <-]. by eexists.
Qed.

Lemma id_force_step c i : refines_at (Force c i).
Proof.
  intros codes cs mem cs' mem' r R Hmem. cbn [spec_step code_step].
  destruct (is_code c) eqn:Hc; [|done]. unfold fr_radius_code_id_force. rewrite (assert_code_ok _ Hc). cbn [mbind option_bind].
  destruct (cs !! c) as [s|] eqn:Es.
  + destruct (codes_some _ _ R _ _ Es) as (t & -> & Rt). destruct (ids_force s i) as [[s' r']|] eqn:E; [|done]. cbn. intros [= <- <- <-].
    destruct (force_refines NDEBUG t s i s' r' Rt E) as (t' & -> & Rt'). destruct (codes_store _ _ _ t' _ R Hc Rt') as (codes' & E2 & R'). cbn. rewrite E2.
    by eexists.
  + rewrite (codes_none _ _ R c Hc Es). intros [= <- <- <-]. by eexists.
Qed.

Lemma step_refines o : refines_at o.
Proof. destruct o; [apply id_alloc_step|apply id_pop_step|apply id_push_step|apply id_find_step|apply id_force_step]. Qed.

Lemma id_run_refines os codes cs mem cs' mem' rs :
  rep_codes codes cs -> mem !! NULL = None -> spec_run cs mem os = Some (cs', mem', rs) ->
  exists codes', code_run codes mem os = Some (codes', mem', rs) /\ rep_codes codes' cs'.
Proof.
  revert codes cs mem rs. induction os as [|o os IH]; intros codes cs mem rs R Hmem; cbn [spec_run code_run].
  - intros [= <- <- <-]. by eexists.
  - destruct (spec_step cs mem o) as [[[cs1 mem1] r]|] eqn:E; [|done]. cbn [mbind option_bind].
    destruct (step_refines o codes cs mem cs1 mem1 r R Hmem E) as (codes1 & -> & R1 & Hmem1). cbn [mbind option_bind].
    destruct (spec_run cs1 mem1 os) as [[[cs2 mem2] rs2]|] eqn:E2; [|done]. cbn. intros [= <- <- <-].
    destruct (IH codes1 cs1 mem1 rs2 R1 Hmem1 E2) as (codes' & -> & R'). by eexists.
Qed.
End Run.

(** ** When all are in use *)

Lemma exhausted_pop NDEBUG mem t s pkt : rep t s -> free s = [] -> fr_radius_id_pop NDEBUG mem t pkt = None.
Proof.
  intros R Hf. pose proof (rep_start _ _ R) as Hs. pose proof (rep_slot _ _ R 0 ltac:(lia)) as H. rewrite Hf, Z.add_0_r, Z.mod_small in H by lia.
  unfold fr_radius_id_pop. rewrite H. cbn [mbind option_bind slot]. destruct NDEBUG; [|done]. cbn.
  destruct (store (free_ids t) (free_start t) (-1)); done.
Qed.

Lemma exhausted_push mem t s pkt : rep t s -> free s = [] -> fr_radius_id_push false mem t pkt = None.
Proof.
  intros R Hf. pose proof (rep_start _ _ R) as Hs. pose proof (rep_end _ _ R) as H. rewrite Hf in H. cbn in H. rewrite Z.add_0_r, Z.mod_small in H by lia.
  unfold fr_radius_id_push. destruct (mem !! pkt) as [p|]; [|done]. rewrite H, Z.eqb_refl. cbn [mbind option_bind fr_assert negb].
  repeat match goal with |- (match ?b with _ => _ end) ≫= _ = None => destruct b; [|done]; cbn [mbind option_bind] | |- (?o ≫= _) ≫= _ = None => destruct o; [|done]; cbn [mbind option_bind] end.
  done.
Qed.

(** ** What the identifiers promise *)

(** C17: From no sets at all, any sequence of calls that keeps the contract returns what
    it would return on queues of free identifiers: an identifier is given back by
    the packet that holds it, none is taken when all are in use and, where
    assertions are compiled in, none is given back then. In each set the
    identifiers that wait and those in use are the numbers below 256, none twice,
    so that no two packets of a code have the same identifier. The first order of a
    set is a permutation of the numbers below 256, whatever the random numbers. *)
Theorem radius_ids_refine_queues NDEBUG mem os cs mem' rs :
  mem !! NULL = None -> spec_run NDEBUG ∅ mem os = Some (cs, mem', rs) ->
  (exists codes, code_run NDEBUG no_codes mem os = Some (codes, mem', rs)) /\
  (forall c s, cs !! c = Some s -> NoDup (free s) /\ forall i, 0 <= i < 256 <-> i ∈ free s \/ is_Some (holder s !! i)) /\
  (forall fr_rand, initial fr_rand ≡ₚ seqZ 0 256).
Proof.
  intros Hmem H. destruct (id_run_refines NDEBUG os no_codes ∅ mem cs mem' rs no_codes_rep Hmem H) as (codes & E & R).
  split; [by exists codes|]. split; [|intros; apply initial_permutation].
  intros c s Hc. destruct (codes_some _ _ R _ _ Hc) as (t & _ & Rt). split; [apply (rep_nodup _ _ Rt)|]. intros i. rewrite (rep_free _ _ Rt). split.
  - intros Hi. destruct (holder s !! i) eqn:F; [by right|by left].
  - intros [[]|[p Hp]]; [done|]. by apply (rep_holder _ _ Rt i p).
Qed.

Lemma radius_ids_refine_queues_witness :
  let mem : packets := {[1%nat := MkPacket 1 0; 2%nat := MkPacket 1 0]} in
  exists codes mem', code_run false no_codes mem [Alloc 1 true (fun _ => 0); Pop 1%nat; Pop 2%nat; Push 1%nat; Find 1 2; Force 1 200; Pop 1%nat] =
    Some (codes, mem', [Ret 0; Ret 1; Ret 2; Ret 0; Found (Some 2%nat); Ret 0; Ret 200]).
Proof.
  intros mem. set (os := [Alloc 1 true (fun _ => 0); Pop 1%nat; Pop 2%nat; Push 1%nat; Find 1 2; Force 1 200; Pop 1%nat]).
  destruct (spec_run false ∅ mem os) as [[[cs mem'] rs]|] eqn:E; [|by vm_compute in E].
  destruct (radius_ids_refine_queues false mem os cs mem' rs eq_refl E) as [[codes H] _]. exists codes, mem'. rewrite H. do 2 f_equal.
  vm_compute in E. injection E as _ _ <-. reflexivity.
Defined.

(** When all 256 identifiers of a code are in use, asking for another one is an
    access outside the array of contexts, or fails an assertion, and never returns
    [NULL]; where assertions are compiled in, giving one of them back fails one as
    well. *)
Theorem radius_ids_exhausted NDEBUG mem os cs mem' rs c s pkt p :
  mem !! NULL = None -> spec_run NDEBUG ∅ mem os = Some (cs, mem', rs) -> cs !! c = Some s -> free s = [] -> mem' !! pkt = Some p -> code p = c ->
  exists codes, code_run NDEBUG no_codes mem os = Some (codes, mem', rs) /\
    fr_radius_code_id_pop NDEBUG mem' codes pkt = None /\ (NDEBUG = false -> fr_radius_code_id_push NDEBUG mem' codes pkt = None).
Proof.
  intros Hmem H Hc Hf Hp <-. destruct (id_run_refines NDEBUG os no_codes ∅ mem cs mem' rs no_codes_rep Hmem H) as (codes & E & R).
  exists codes. split; [done|]. pose proof (codes_range _ _ R _ _ Hc) as Hi. destruct (codes_some _ _ R _ _ Hc) as (t & Hl & Rt). split.
  - unfold fr_radius_code_id_pop. rewrite Hp. cbn [mbind option_bind]. rewrite (assert_code_ok NDEBUG _ Hi). cbn [mbind option_bind]. rewrite Hl.
    cbn [mbind option_bind]. by rewrite (exhausted_pop NDEBUG mem' t s).
  - intros ->. unfold fr_radius_code_id_push. rewrite Hp. cbn [mbind option_bind]. rewrite (assert_code_ok false _ Hi). cbn [mbind option_bind]. rewrite Hl.
    cbn [mbind option_bind]. by rewrite (exhausted_push mem' t s).
Qed.

Lemma radius_ids_exhausted_witness :
  let mem : packets := list_to_map (map (fun n => (n, MkPacket 1 0)) (seq 1 257)) in
  let os := Alloc 1 true (fun _ => 0) :: map Pop (seq 1 256) in
  exists codes mem' rs, code_run false no_codes mem os = Some (codes, mem', rs) /\ fr_radius_code_id_pop false mem' codes 257%nat = None /\
    length (filter (eq (Ret 0)) rs) = 2%nat.
Proof.
  intros mem os.
  assert (match spec_run false ∅ mem os with
          | Some (cs, mem', rs) => match cs !! 1, mem' !! 257%nat with
                                   | Some s, Some p => bool_decide (free s = [] /\ code p = 1 /\ length (filter (eq (Ret 0)) rs) = 2%nat)
                                   | _, _ => false
                                   end
          | None => false
          end = true) as Hc by (by vm_compute).
  destruct (spec_run false ∅ mem os) as [[[cs mem'] rs]|] eqn:E; [|done]. destruct (cs !! 1) as [s|] eqn:Es; [|done].
  destruct (mem' !! 257%nat) as [p|] eqn:Ep; [|done]. apply bool_decide_eq_true_1 in Hc as (Hf & Hp & Hr).
  assert (mem !! NULL = None) as Hn by (by vm_compute).
  destruct (radius_ids_exhausted false mem os cs mem' rs 1 s 257%nat p Hn E Es Hf Ep Hp) as (codes & H1 & H2 & _).
  exists codes, mem', rs. exact (conj H1 (conj H2 Hr)).
Defined.

End RadiusId.
