(* ===== verification/Connection.v ===== *)
(** The connection state machine: src/lib/server/connection.c. A connection opens,
    closes and reopens a handle through callbacks of its user and tells watchers
    about its states. Callbacks may signal the connection while it runs them, so
    signals are deferred; every function may in the end call every other. Each is
    written over the function [call] that runs the others; [exec] ties the knot. *)

From S2P Require Import Prelude.

Module Connection.

Inductive connection_state_t :=
| CONNECTION_STATE_HALTED | CONNECTION_STATE_INIT | CONNECTION_STATE_CONNECTING | CONNECTION_STATE_TIMEOUT
| CONNECTION_STATE_CONNECTED | CONNECTION_STATE_SHUTDOWN | CONNECTION_STATE_FAILED | CONNECTION_STATE_CLOSED.
#[export] Instance connection_state_eq_dec : EqDecision connection_state_t.
Proof. solve_decision. Defined.

Inductive connection_reason_t := CONNECTION_FAILED | CONNECTION_EXPIRED.
#[export] Instance connection_reason_eq_dec : EqDecision connection_reason_t.
Proof. solve_decision. Defined.

Inductive connection_dsignal_t :=
| CONNECTION_DSIGNAL_INIT | CONNECTION_DSIGNAL_CONNECTED | CONNECTION_DSIGNAL_RECONNECT_FAILED
| CONNECTION_DSIGNAL_RECONNECT_EXPIRED | CONNECTION_DSIGNAL_SHUTDOWN | CONNECTION_DSIGNAL_HALT | CONNECTION_DSIGNAL_FREE.
#[export] Instance connection_dsignal_eq_dec : EqDecision connection_dsignal_t.
Proof. solve_decision. Defined.

(** The functions that watch: the notification of
    [connection_deferred_signal_process], the cleanup of a file descriptor, and
    those of the user. *)
Inductive connection_watch_t := deferred_signal_connection_on_halted | connection_signal_on_fd_cleanup | user_watch (n : nat).
#[export] Instance connection_watch_eq_dec : EqDecision connection_watch_t.
Proof. solve_decision. Defined.

Record connection_watch_entry_t := MkEntry { addr : nat; func : connection_watch_t; oneshot : bool; enabled : bool }.

(** The function a timer calls. *)
Inductive timer := reconnect_delay_done | connection_timed_out.

(** The callbacks of the user, and what is recorded of a run. *)
Inductive callback := Init | Open | Close | Shutdown | Failed | Watch (n : nat).
Inductive event := Transition (from to : connection_state_t) | Called (c : callback) (ret : connection_state_t).

(** [in_handler] is whether the pointer is set, [on_halted] an address, [ev] the
    function of the armed timer. [deferred_freed] is the flag on the stack of
    [connection_deferred_signal_process], [alive] is false once the memory is freed,
    [calls] counts the callbacks and [timers] the calls of [fr_timer_in]. *)
Record connection_t := MkConn {
  state : connection_state_t;
  prev : connection_state_t;
  reconnected : Z;
  timed_out : Z;
  in_handler : bool;
  is_closed : bool;
  processing_signals : bool;
  watch_pre : connection_state_t -> list connection_watch_entry_t;
  watch_post : connection_state_t -> list connection_watch_entry_t;
  next_watcher : option nat;
  has_init : bool;
  has_open : bool;
  has_close : bool;
  has_shutdown : bool;
  has_failed : bool;
  ev : option timer;
  connection_timeout : Z;
  reconnection_delay : Z;
  deferred_signals : list connection_dsignal_t;
  on_halted : nat;
  signals_pause : Z;
  fd_event : bool;
  deferred_freed : bool;
  alive : bool;
  next_addr : nat;
  calls : nat;
  timers : nat;
  trace : list event
}.
#[export] Instance eta_connection : Eta connection_t := fun s =>
  MkConn (state s) (prev s) (reconnected s) (timed_out s) (in_handler s) (is_closed s) (processing_signals s) (watch_pre s) (watch_post s)
    (next_watcher s) (has_init s) (has_open s) (has_close s) (has_shutdown s) (has_failed s) (ev s) (connection_timeout s) (reconnection_delay s)
    (deferred_signals s) (on_halted s) (signals_pause s) (fd_event s) (deferred_freed s) (alive s) (next_addr s) (calls s) (timers s) (trace s).

(** ** Outcomes *)

Inductive outcome (A : Type) := Ok (a : A) | Abort | UseAfterFree | NoFuel.
Arguments Ok {A}. Arguments Abort {A}. Arguments UseAfterFree {A}. Arguments NoFuel {A}.

#[export] Instance outcome_bind : MBind outcome := fun A B f m =>
  match m with Ok a => f a | Abort => Abort | UseAfterFree => UseAfterFree | NoFuel => NoFuel end.

(** ** What callbacks may do *)

Inductive signal := Sinit | Sconnected | Sreconnect (reason : connection_reason_t) | Sshutdown | Shalt.

Inductive action :=
| Signal (sg : signal)
| Free
| Pause
| Resume
| AddWatch (pre : bool) (st : connection_state_t) (f : connection_watch_t) (once : bool)
| DelWatch (pre : bool) (st : connection_state_t) (f : connection_watch_t)
| EnableWatch (a : nat) (b : bool)
| OnFd (inserted : bool).

(** The functions that call each other. *)
Inductive command := Enter (st : connection_state_t) | Process | Do (a : action) | WatchCall (pre : bool) (st : connection_state_t).

Section Code.
(** Whether assertions are compiled out; what the [n]-th callback does and returns;
    whether the [n]-th timer can be inserted. *)
Context (NDEBUG : bool) (response : nat -> list action * connection_state_t) (timer_ok : nat -> bool).
Context (fuel : nat) (call : command -> connection_t -> outcome connection_t).

Definition touch (s : connection_t) : outcome connection_t := if alive s then Ok s else UseAfterFree.
Definition fr_assert (b : bool) (s : connection_t) : outcome connection_t := if NDEBUG || b then Ok s else Abort.

(** The macro returns from the function that uses it. *)
Definition BAD_STATE_TRANSITION (s : connection_t) : outcome connection_t := if NDEBUG then Ok s else Abort.

Definition STATE_TRANSITION (new : connection_state_t) (s : connection_t) : connection_t :=
  s <| trace := trace s ++ [Transition (state s) new] |> <| prev := state s |> <| state := new |>.

Definition DEFER_SIGNALS (s : connection_t) : bool := in_handler s || negb (signals_pause s =? 0).

Definition connection_deferred_signal_add (sg : connection_dsignal_t) (s : connection_t) : connection_t :=
  if bool_decide (list.last (deferred_signals s) = Some sg) then s else s <| deferred_signals := deferred_signals s ++ [sg] |>.

(** *** Lists of watchers *)

Definition watchers (pre : bool) (st : connection_state_t) (s : connection_t) : list connection_watch_entry_t :=
  if pre then watch_pre s st else watch_post s st.

Definition set_watchers (pre : bool) (st : connection_state_t) (l : list connection_watch_entry_t) (s : connection_t) : connection_t :=
  let upd_fun f st' := if decide (st' = st) then l else f st' in
  if pre then s <| watch_pre := upd_fun (watch_pre s) |> else s <| watch_post := upd_fun (watch_post s) |>.

(** [fr_dlist_next]; an entry that is not in the list was freed. *)
Fixpoint after (a : nat) (l : list connection_watch_entry_t) : option (option connection_watch_entry_t) :=
  match l with
  | [] => None
  | e :: l => if (addr e =? a)%nat then Some (head l) else after a l
  end.
Definition fr_dlist_next (l : list connection_watch_entry_t) (cur : option nat) : outcome (option connection_watch_entry_t) :=
  match cur with
  | None => Ok (head l)
  | Some a => match after a l with Some e => Ok e | None => UseAfterFree end
  end.

(** [fr_dlist_remove]: the list without the entry, and the entry before it. *)
Fixpoint before (a : nat) (last : option nat) (l : list connection_watch_entry_t) : option nat :=
  match l with
  | [] => None
  | e :: l => if (addr e =? a)%nat then last else before a (Some (addr e)) l
  end.
Definition fr_dlist_remove (l : list connection_watch_entry_t) (a : nat) : list connection_watch_entry_t * option nat :=
  (List.filter (fun e => negb (addr e =? a)%nat) l, before a None l).

Definition connection_add_watch (pre : bool) (st : connection_state_t) (f : connection_watch_t) (once : bool) (s : connection_t) : connection_t :=
  set_watchers pre st (watchers pre st s ++ [MkEntry (next_addr s) f once true]) s <| next_addr := S (next_addr s) |>.

Definition connection_del_watch (pre : bool) (st : connection_state_t) (f : connection_watch_t) (s : connection_t) : connection_t :=
  match List.find (fun e => bool_decide (func e = f)) (watchers pre st s) with
  | None => s
  | Some e =>
      let '(l, p) := fr_dlist_remove (watchers pre st s) (addr e) in
      let s := if bool_decide (next_watcher s = Some (addr e)) then s <| next_watcher := p |> else s in
      set_watchers pre st l s
  end.

(** [connection_watch_enable] and [connection_watch_disable], also with another
    [uctx]; the entry is in one of the lists unless it was freed. *)
Definition set_enabled (a : nat) (b : bool) (l : list connection_watch_entry_t) : list connection_watch_entry_t :=
  map (fun e => if (addr e =? a)%nat then MkEntry (addr e) (func e) (oneshot e) b else e) l.
Definition all_states : list connection_state_t :=
  [CONNECTION_STATE_HALTED; CONNECTION_STATE_INIT; CONNECTION_STATE_CONNECTING; CONNECTION_STATE_TIMEOUT; CONNECTION_STATE_CONNECTED;
   CONNECTION_STATE_SHUTDOWN; CONNECTION_STATE_FAILED; CONNECTION_STATE_CLOSED].
Definition is_entry (a : nat) (s : connection_t) : bool :=
  existsb (fun st => existsb (fun e => (addr e =? a)%nat) (watch_post s st) || existsb (fun e => (addr e =? a)%nat) (watch_pre s st)) all_states.
Definition connection_watch_enable (a : nat) (b : bool) (s : connection_t) : outcome connection_t :=
  if is_entry a s
  then Ok (s <| watch_pre := fun st => set_enabled a b (watch_pre s st) |> <| watch_post := fun st => set_enabled a b (watch_post s st) |>)
  else UseAfterFree.

(** *** Calling the user *)

Fixpoint actions (l : list action) (s : connection_t) : outcome connection_t :=
  match l with [] => Ok s | a :: l => s ← call (Do a) s; actions l s end.

(** A callback runs, and what it returns. *)
Definition user (c : callback) (s : connection_t) : outcome (connection_state_t * connection_t) :=
  let '(l, ret) := response (calls s) in
  s ← actions l (s <| calls := S (calls s) |> <| trace := trace s ++ [Called c ret] |>);
  Ok (ret, s).

(** [HANDLER_BEGIN], the body, [HANDLER_END]. *)
Definition handler {A} (body : connection_t -> outcome (A * connection_t)) (s : connection_t) : outcome (A * connection_t) :=
  let prev_handler := in_handler s in
  '(r, s) ← body (s <| in_handler := true |>);
  s ← touch s;
  let s := s <| in_handler := prev_handler |> in
  s ← (if (signals_pause s =? 0) && negb (in_handler s) then call Process s else Ok s);
  Ok (r, s).

Definition signal_on_fd_cleanup (st : connection_state_t) (s : connection_t) : outcome connection_t :=
  s ← match st with
      | CONNECTION_STATE_CLOSED => Ok (connection_del_watch true CONNECTION_STATE_CONNECTED connection_signal_on_fd_cleanup s)
      | CONNECTION_STATE_CONNECTED => Ok (connection_del_watch true CONNECTION_STATE_CLOSED connection_signal_on_fd_cleanup s)
      | _ => fr_assert false s
      end;
  Ok (s <| fd_event := false |>).

Definition call_watch (f : connection_watch_t) (s : connection_t) : outcome connection_t :=
  match f with
  | deferred_signal_connection_on_halted => Ok (s <| deferred_freed := true |>)
  | connection_signal_on_fd_cleanup => signal_on_fd_cleanup (state s) s
  | user_watch n => '(_, s) ← user (Watch n) s; Ok s
  end.

(** The loop over a list, which callbacks may change. *)
Fixpoint watch_loop (n : nat) (pre : bool) (st : connection_state_t) (s : connection_t) : outcome connection_t :=
  match n with
  | O => NoFuel
  | S n =>
      s ← touch s;
      e ← fr_dlist_next (watchers pre st s) (next_watcher s);
      match e with
      | None => Ok (s <| next_watcher := None |>)
      | Some e =>
          let s := s <| next_watcher := Some (addr e) |> in
          if negb (enabled e) then watch_loop n pre st s
          else
            let s := if oneshot e
                     then let '(l, p) := fr_dlist_remove (watchers pre st s) (addr e) in set_watchers pre st l (s <| next_watcher := p |>)
                     else s in
            s ← call_watch (func e) s;
            watch_loop n pre st s
      end
  end.

Definition connection_watch_call (pre : bool) (st : connection_state_t) (s : connection_t) : outcome connection_t :=
  s ← fr_assert (bool_decide (next_watcher s = None)) s;
  watch_loop fuel pre st s.

(** [WATCH_PRE] and [WATCH_POST]. *)
Definition WATCH (pre : bool) (s : connection_t) : outcome connection_t :=
  s ← touch s;
  match watchers pre (state s) s with
  | [] => Ok s
  | _ => let st := state s in '(_, s) ← handler (fun s => s ← call (WatchCall pre st) s; Ok (tt, s)) s; Ok s
  end.

(** [fr_timer_in] *)
Definition fr_timer_in (t : timer) (s : connection_t) : bool * connection_t :=
  let ok := timer_ok (timers s) in
  (ok, if ok then s <| timers := S (timers s) |> <| ev := Some t |> else s <| timers := S (timers s) |>).

(** *** States *)

Definition connection_state_enter_closed (s : connection_t) : outcome connection_t :=
  s ← touch s;
  match state s with
  | CONNECTION_STATE_CONNECTING | CONNECTION_STATE_CONNECTED | CONNECTION_STATE_FAILED =>
      let s := STATE_TRANSITION CONNECTION_STATE_CLOSED s <| ev := None |> in
      s ← WATCH true s;
      s ← touch s;
      s ← fr_assert (negb (is_closed s)) s;
      s ← (if has_close s && negb (is_closed s)
           then '(_, s) ← handler (fun s => '(ret, s) ← user Close s; Ok (ret, s <| is_closed := true |>)) s; Ok s
           else Ok (s <| is_closed := true |>));
      WATCH false s
  | _ => BAD_STATE_TRANSITION s
  end.

Definition connection_state_enter_shutdown (s : connection_t) : outcome connection_t :=
  s ← touch s;
  match state s with
  | CONNECTION_STATE_CONNECTED =>
      let s := STATE_TRANSITION CONNECTION_STATE_SHUTDOWN s in
      s ← WATCH true s;
      s ← touch s;
      '(ret, s) ← handler (user Shutdown) s;
      if decide (ret = CONNECTION_STATE_SHUTDOWN) then
        s ← WATCH false s;
        s ← touch s;
        if 0 <? connection_timeout s then
          let '(ok, s) := fr_timer_in connection_timed_out s in
          if ok then Ok s else call (Enter CONNECTION_STATE_CLOSED) s
        else Ok s
      else call (Enter CONNECTION_STATE_FAILED) s
  | _ => BAD_STATE_TRANSITION s
  end.

(** The end of [connection_state_enter_failed]. *)
Definition after_failed (was : connection_state_t) (s : connection_t) : outcome connection_t :=
  s ← touch s;
  match was with
  | CONNECTION_STATE_INIT | CONNECTION_STATE_CONNECTED | CONNECTION_STATE_CONNECTING | CONNECTION_STATE_SHUTDOWN =>
      if 0 <? reconnection_delay s then
        let '(ok, s) := fr_timer_in reconnect_delay_done s in
        if ok then Ok s else call (Enter CONNECTION_STATE_HALTED) s
      else call (Enter CONNECTION_STATE_HALTED) s
  | CONNECTION_STATE_TIMEOUT => call (Enter CONNECTION_STATE_INIT) s
  | _ => fr_assert false s
  end.

Definition connection_state_enter_failed (s : connection_t) : outcome connection_t :=
  s ← touch s;
  s ← fr_assert (negb (bool_decide (state s = CONNECTION_STATE_FAILED))) s;
  let was := state s in
  let s := STATE_TRANSITION CONNECTION_STATE_FAILED (s <| ev := None |>) in
  s ← WATCH true s;
  s ← touch s;
  '(ret, s) ← (if has_failed s then handler (user Failed) s else Ok (CONNECTION_STATE_INIT, s));
  s ← WATCH false s;
  s ← match was with
      | CONNECTION_STATE_CONNECTED | CONNECTION_STATE_CONNECTING | CONNECTION_STATE_TIMEOUT | CONNECTION_STATE_SHUTDOWN =>
          call (Enter CONNECTION_STATE_CLOSED) s
      | _ => Ok s
      end;
  s ← touch s;
  if has_failed s && negb (bool_decide (ret = CONNECTION_STATE_INIT)) then call (Enter CONNECTION_STATE_HALTED) s
  else after_failed was s.

Definition connection_state_enter_timeout (s : connection_t) : outcome connection_t :=
  s ← touch s;
  match state s with
  | CONNECTION_STATE_CONNECTING | CONNECTION_STATE_SHUTDOWN =>
      let s := STATE_TRANSITION CONNECTION_STATE_TIMEOUT s in
      call (Enter CONNECTION_STATE_FAILED) (s <| timed_out := u64 (timed_out s + 1) |>)
  | _ => BAD_STATE_TRANSITION s
  end.

Definition connection_state_enter_halted (s : connection_t) : outcome connection_t :=
  s ← touch s;
  s ← fr_assert (is_closed s) s;
  match state s with
  | CONNECTION_STATE_FAILED | CONNECTION_STATE_CLOSED =>
      let s := STATE_TRANSITION CONNECTION_STATE_HALTED (s <| ev := None |>) in
      s ← WATCH true s;
      WATCH false s
  | _ => BAD_STATE_TRANSITION s
  end.

Definition connection_state_enter_connected (s : connection_t) : outcome connection_t :=
  s ← touch s;
  s ← fr_assert (bool_decide (state s = CONNECTION_STATE_CONNECTING \/ state s = CONNECTION_STATE_INIT)) s;
  let s := STATE_TRANSITION CONNECTION_STATE_CONNECTED s <| ev := None |> in
  s ← WATCH true s;
  s ← touch s;
  '(ret, s) ← (if has_open s then handler (user Open) s else Ok (CONNECTION_STATE_CONNECTED, s));
  if decide (ret = CONNECTION_STATE_CONNECTED) then WATCH false s else call (Enter CONNECTION_STATE_FAILED) s.

Definition connection_state_enter_connecting (s : connection_t) : outcome connection_t :=
  s ← touch s;
  match state s with
  | CONNECTION_STATE_INIT =>
      let s := STATE_TRANSITION CONNECTION_STATE_CONNECTING s in
      s ← WATCH true s;
      s ← WATCH false s;
      s ← touch s;
      if 0 <? connection_timeout s then
        let '(ok, s) := fr_timer_in connection_timed_out s in
        if ok then Ok s else call (Enter CONNECTION_STATE_FAILED) s
      else Ok s
  | _ => BAD_STATE_TRANSITION s
  end.

Definition connection_state_enter_init (s : connection_t) : outcome connection_t :=
  s ← touch s;
  match state s with
  | CONNECTION_STATE_HALTED | CONNECTION_STATE_CLOSED | CONNECTION_STATE_FAILED =>
      let s := STATE_TRANSITION CONNECTION_STATE_INIT (s <| reconnected := u64 (reconnected s + 1) |>) in
      s ← WATCH true s;
      s ← touch s;
      '(ret, s) ← (if has_init s then handler (user Init) s else Ok (CONNECTION_STATE_CONNECTING, s));
      match ret with
      | CONNECTION_STATE_CONNECTING | CONNECTION_STATE_CONNECTED =>
          s ← touch s;
          s ← WATCH false (s <| is_closed := false |>);
          call (Enter ret) s
      | _ => call (Enter CONNECTION_STATE_FAILED) s
      end
  | _ => BAD_STATE_TRANSITION s
  end.

(** *** Signals *)

Definition connection_signal_init (s : connection_t) : outcome connection_t :=
  if DEFER_SIGNALS s then Ok (connection_deferred_signal_add CONNECTION_DSIGNAL_INIT s)
  else match state s with CONNECTION_STATE_HALTED => call (Enter CONNECTION_STATE_INIT) s | _ => Ok s end.

Definition connection_signal_connected (s : connection_t) : outcome connection_t :=
  s ← fr_assert (negb (has_open s)) s;
  if DEFER_SIGNALS s then Ok (connection_deferred_signal_add CONNECTION_DSIGNAL_CONNECTED s)
  else match state s with CONNECTION_STATE_CONNECTING => call (Enter CONNECTION_STATE_CONNECTED) s | _ => Ok s end.

Definition connection_signal_reconnect (reason : connection_reason_t) (s : connection_t) : outcome connection_t :=
  if DEFER_SIGNALS s then
    Ok (connection_deferred_signal_add
          (if bool_decide (reason = CONNECTION_EXPIRED) && has_shutdown s then CONNECTION_DSIGNAL_RECONNECT_EXPIRED
           else CONNECTION_DSIGNAL_RECONNECT_FAILED) s)
  else
    match state s with
    | CONNECTION_STATE_CLOSED | CONNECTION_STATE_INIT => Ok s
    | CONNECTION_STATE_HALTED => call (Do (Signal Sinit)) s
    | CONNECTION_STATE_SHUTDOWN => if decide (reason = CONNECTION_EXPIRED) then Ok s else call (Enter CONNECTION_STATE_FAILED) s
    | CONNECTION_STATE_CONNECTED =>
        if decide (reason = CONNECTION_EXPIRED)
        then call (Enter (if has_shutdown s then CONNECTION_STATE_SHUTDOWN else CONNECTION_STATE_CLOSED)) s
        else call (Enter CONNECTION_STATE_FAILED) s
    | CONNECTION_STATE_CONNECTING | CONNECTION_STATE_TIMEOUT | CONNECTION_STATE_FAILED => call (Enter CONNECTION_STATE_FAILED) s
    end.

Definition connection_signal_shutdown (s : connection_t) : outcome connection_t :=
  if DEFER_SIGNALS s then Ok (connection_deferred_signal_add CONNECTION_DSIGNAL_SHUTDOWN s)
  else
    let close_and_halt s :=
      s ← call (Enter CONNECTION_STATE_CLOSED) s; s ← touch s; s ← fr_assert (is_closed s) s; call (Enter CONNECTION_STATE_HALTED) s in
    match state s with
    | CONNECTION_STATE_HALTED | CONNECTION_STATE_SHUTDOWN => Ok s
    | CONNECTION_STATE_INIT | CONNECTION_STATE_CLOSED => call (Enter CONNECTION_STATE_HALTED) s
    | CONNECTION_STATE_CONNECTED => if has_shutdown s then call (Enter CONNECTION_STATE_SHUTDOWN) s else close_and_halt s
    | CONNECTION_STATE_CONNECTING | CONNECTION_STATE_TIMEOUT | CONNECTION_STATE_FAILED => close_and_halt s
    end.

Definition connection_signal_halt (s : connection_t) : outcome connection_t :=
  if DEFER_SIGNALS s then Ok (connection_deferred_signal_add CONNECTION_DSIGNAL_HALT s)
  else
    match state s with
    | CONNECTION_STATE_HALTED => Ok s
    | CONNECTION_STATE_INIT | CONNECTION_STATE_CLOSED => call (Enter CONNECTION_STATE_HALTED) s
    | _ =>
        s ← (if is_closed s then Ok s else call (Enter CONNECTION_STATE_CLOSED) s);
        s ← touch s;
        s ← fr_assert (is_closed s) s;
        call (Enter CONNECTION_STATE_HALTED) s
    end.

Definition connection_signal (sg : signal) : connection_t -> outcome connection_t :=
  match sg with
  | Sinit => connection_signal_init
  | Sconnected => connection_signal_connected
  | Sreconnect reason => connection_signal_reconnect reason
  | Sshutdown => connection_signal_shutdown
  | Shalt => connection_signal_halt
  end.

(** [talloc_free]: the destructor [_connection_free], and the memory is released
    unless it refuses. *)
Definition connection_free (s : connection_t) : outcome connection_t :=
  s ← touch s;
  let s := s <| ev := None |> in
  if DEFER_SIGNALS s then Ok (connection_deferred_signal_add CONNECTION_DSIGNAL_FREE s)
  else
    s ← match state s with
        | CONNECTION_STATE_HALTED => Ok s
        | CONNECTION_STATE_CONNECTING | CONNECTION_STATE_CONNECTED =>
            s ← call (Enter CONNECTION_STATE_CLOSED) s; call (Enter CONNECTION_STATE_HALTED) s
        | _ => call (Enter CONNECTION_STATE_HALTED) s
        end;
    s ← touch s;
    Ok (s <| alive := false |>).

(** One deferred signal. *)
Definition deferred_action (d : connection_dsignal_t) : action :=
  match d with
  | CONNECTION_DSIGNAL_INIT => Signal Sinit
  | CONNECTION_DSIGNAL_CONNECTED => Signal Sconnected
  | CONNECTION_DSIGNAL_RECONNECT_FAILED => Signal (Sreconnect CONNECTION_FAILED)
  | CONNECTION_DSIGNAL_RECONNECT_EXPIRED => Signal (Sreconnect CONNECTION_EXPIRED)
  | CONNECTION_DSIGNAL_SHUTDOWN => Signal Sshutdown
  | CONNECTION_DSIGNAL_HALT => Signal Shalt
  | CONNECTION_DSIGNAL_FREE => Free
  end.

(** The loop; the flag says that it ended with all signals processed. *)
Fixpoint process_loop (n : nat) (s : connection_t) : outcome (bool * connection_t) :=
  match n with
  | O => NoFuel
  | S n =>
      s ← touch s;
      match deferred_signals s with
      | [] => Ok (true, s)
      | d :: ds =>
          s ← call (Do (deferred_action d)) (s <| deferred_signals := ds |>);
          if bool_decide (d = CONNECTION_DSIGNAL_FREE) then Ok (false, s)
          else if deferred_freed s then Ok (false, s)
          else process_loop n s
      end
  end.

Definition connection_deferred_signal_process (s : connection_t) : outcome connection_t :=
  s ← touch s;
  if processing_signals s then Ok s
  else
    s ← connection_watch_enable (on_halted s) true (s <| deferred_freed := false |>);
    '(all, s) ← process_loop fuel (s <| processing_signals := true |>);
    if (all : bool) then connection_watch_enable (on_halted s) false (s <| processing_signals := false |>) else Ok s.

Definition connection_signals_pause (s : connection_t) : connection_t := s <| signals_pause := u32 (signals_pause s + 1) |>.

Definition connection_signals_resume (s : connection_t) : outcome connection_t :=
  let s := if 0 <? signals_pause s then s <| signals_pause := signals_pause s - 1 |> else s in
  if 0 <? signals_pause s then Ok s
  else if in_handler s then Ok s else call Process s.

(** [inserted] is whether [fr_event_fd_insert] succeeds. *)
Definition connection_signal_on_fd (inserted : bool) (s : connection_t) : outcome connection_t :=
  if negb inserted then call (Enter CONNECTION_STATE_FAILED) s
  else
    let s := s <| fd_event := true |> in
    let s := connection_add_watch true CONNECTION_STATE_CLOSED connection_signal_on_fd_cleanup true s in
    Ok (connection_add_watch true CONNECTION_STATE_CONNECTED connection_signal_on_fd_cleanup true s).

Definition perform (a : action) (s : connection_t) : outcome connection_t :=
  s ← touch s;
  match a with
  | Signal sg => connection_signal sg s
  | Free => connection_free s
  | Pause => Ok (connection_signals_pause s)
  | Resume => connection_signals_resume s
  | AddWatch pre st f once => Ok (connection_add_watch pre st f once s)
  | DelWatch pre st f => Ok (connection_del_watch pre st f s)
  | EnableWatch a b => connection_watch_enable a b s
  | OnFd inserted => connection_signal_on_fd inserted s
  end.

Definition run (c : command) : connection_t -> outcome connection_t :=
  match c with
  | Enter CONNECTION_STATE_HALTED => connection_state_enter_halted
  | Enter CONNECTION_STATE_INIT => connection_state_enter_init
  | Enter CONNECTION_STATE_CONNECTING => connection_state_enter_connecting
  | Enter CONNECTION_STATE_TIMEOUT => connection_state_enter_timeout
  | Enter CONNECTION_STATE_CONNECTED => connection_state_enter_connected
  | Enter CONNECTION_STATE_SHUTDOWN => connection_state_enter_shutdown
  | Enter CONNECTION_STATE_FAILED => connection_state_enter_failed
  | Enter CONNECTION_STATE_CLOSED => connection_state_enter_closed
  | Process => connection_deferred_signal_process
  | Do a => perform a
  | WatchCall pre st => connection_watch_call pre st
  end.
End Code.

Section Exec.
Context (NDEBUG : bool) (response : nat -> list action * connection_state_t) (timer_ok : nat -> bool).

Fixpoint exec (fuel : nat) (c : command) (s : connection_t) : outcome connection_t :=
  match fuel with
  | O => NoFuel
  | S fuel => run NDEBUG response timer_ok fuel (exec fuel) c s
  end.

(** *** What the event loop calls *)

Inductive input := Api (a : action) | TimerExpired | Writable | Errored.

Definition _reconnect_delay_done (fuel : nat) (s : connection_t) : outcome connection_t :=
  match state s with
  | CONNECTION_STATE_FAILED | CONNECTION_STATE_CLOSED => exec fuel (Enter CONNECTION_STATE_INIT) s
  | _ => BAD_STATE_TRANSITION NDEBUG s
  end.

(** A timer that is not armed does not expire; without events on the descriptor
    there are none. *)
Definition step (fuel : nat) (i : input) (s : connection_t) : outcome connection_t :=
  match i with
  | Api a => exec fuel (Do a) s
  | TimerExpired =>
      match ev s with
      | None => Ok s
      | Some reconnect_delay_done => _reconnect_delay_done fuel (s <| ev := None |>)
      | Some connection_timed_out => exec fuel (Enter CONNECTION_STATE_TIMEOUT) (s <| ev := None |>)
      end
  | Writable => if fd_event s then exec fuel (Enter CONNECTION_STATE_CONNECTED) (s <| fd_event := false |>) else Ok s
  | Errored => if fd_event s then exec fuel (Enter CONNECTION_STATE_FAILED) s else Ok s
  end.

Fixpoint steps (fuel : nat) (l : list input) (s : connection_t) : outcome connection_t :=
  match l with [] => Ok s | i :: l => s ← step fuel i s; steps fuel l s end.
End Exec.

(** The first attempt is not counted. *)
Definition connection_get_num_reconnected (s : connection_t) : Z := if reconnected s =? 0 then 0 else reconnected s - 1.

(** [connection_alloc] *)
Definition connection_alloc (i o c sh f : bool) (timeout delay : Z) : connection_t :=
  MkConn CONNECTION_STATE_HALTED CONNECTION_STATE_HALTED 0 0 false true false (fun _ => [])
    (fun st => if decide (st = CONNECTION_STATE_HALTED) then [MkEntry 0 deferred_signal_connection_on_halted true false] else [])
    None i o c sh f None timeout delay [] 0 0 false false true 1 0 0 [].

End Connection.
