(* ===== verification/ConnectionSpec.v ===== *)
(** The connection state machine (Connection): what holds whatever the callbacks do,
    and the life of a connection whose callbacks do not signal it. *)

From S2P Require Import Prelude Connection.
Import Connection.

Module ConnectionSpec.

(** ** Outcomes *)

Lemma bind_ok {A B} (m : outcome A) (f : A -> outcome B) b : (m ≫= f) = Ok b -> exists a, m = Ok a /\ f a = Ok b.
Proof. destruct m; cbn; try discriminate. intros H. by eexists. Qed.

Ltac inv_ok :=
  repeat match goal with
  | H : (_ ≫= _) = Ok _ |- _ => apply bind_ok in H; destruct H as (? & ? & H)
  | H : touch _ = Ok _ |- _ => unfold touch in H
  | H : fr_assert _ _ _ = Ok _ |- _ => unfold fr_assert in H
  | H : BAD_STATE_TRANSITION _ _ = Ok _ |- _ => unfold BAD_STATE_TRANSITION in H
  | H : (let '(_, _) := ?p in _) = Ok _ |- _ => destruct p eqn:?
  | H : (if ?b then _ else _) = Ok _ |- _ => destruct b eqn:?
  | H : match ?x with _ => _ end = Ok _ |- _ => destruct x eqn:?
  | H : Ok _ = Ok _ |- _ => injection H as H
  | H : Abort = Ok _ |- _ => discriminate H
  | H : UseAfterFree = Ok _ |- _ => discriminate H
  | H : NoFuel = Ok _ |- _ => discriminate H
  | p : (_ * _)%type |- _ => destruct p
  | H : (_, _) = (_, _) |- _ => injection H as H
  | H : ?x = ?y |- _ => is_var x; subst x
  | H : ?x = ?y |- _ => is_var y; subst y
  end.

(** ** A stuck queue *)

(** While signals are being processed, the queue only grows. *)
Definition grows (s s' : connection_t) : Prop :=
  processing_signals s = true -> processing_signals s' = true /\ deferred_signals s `prefix_of` deferred_signals s'.

Lemma grows_same s s' : processing_signals s' = processing_signals s -> deferred_signals s' = deferred_signals s -> grows s s'.
Proof. intros Hp Hd H. rewrite Hp, Hd. done. Qed.

#[local] Instance grows_preorder : PreOrder grows.
Proof.
  split; [intros s H; done|]. intros s1 s2 s3 H12 H23 H. destruct (H12 H) as [Hp Hd]. destruct (H23 Hp) as [Hp' Hd']. split; [done|]. by etransitivity.
Qed.

Lemma grows_add d s : grows s (connection_deferred_signal_add d s).
Proof. intros H. unfold connection_deferred_signal_add. case_bool_decide; [done|]. cbn. split; [done|]. by exists [d]. Qed.

Lemma same_set_watchers pre st l s :
  processing_signals (set_watchers pre st l s) = processing_signals s /\ deferred_signals (set_watchers pre st l s) = deferred_signals s.
Proof. by destruct pre. Qed.

Lemma grows_set_watchers pre st l s : grows s (set_watchers pre st l s).
Proof. destruct pre; by apply grows_same. Qed.

Lemma grows_del_watch pre st f s : grows s (connection_del_watch pre st f s).
Proof.
  unfold connection_del_watch. destruct (find _ _) as [e|]; [|reflexivity]. destruct (fr_dlist_remove _ _) as [l p].
  case_bool_decide; [|apply grows_set_watchers]. etransitivity; [|apply grows_set_watchers]. by apply grows_same.
Qed.

Lemma grows_add_watch pre st f once s : grows s (connection_add_watch pre st f once s).
Proof. unfold connection_add_watch. etransitivity; [|apply grows_set_watchers]. by apply grows_same. Qed.

(** Follows the states one after the other. *)
Ltac chase :=
  unfold grows, STATE_TRANSITION in *; cbn in *; let Hp := fresh in intros Hp;
  repeat match goal with H : ?P = true -> _ /\ _, H' : ?P = true |- _ => destruct (H H'); clear H end;
  try congruence;
  split; [done|]; try done;
  repeat (first [eassumption | etransitivity; [eassumption|]]).

Section Grows.
Context (NDEBUG : bool) (response : nat -> list action * connection_state_t) (timer_ok : nat -> bool).
Context (fuel : nat) (call : command -> connection_t -> outcome connection_t).
Context (Hcall : forall c s s', call c s = Ok s' -> grows s s').

Lemma actions_grows l s s' : actions call l s = Ok s' -> grows s s'.
Proof using Hcall.
  revert s. induction l as [|a l IH]; intros s H; cbn [actions] in H; inv_ok; [reflexivity|].
  etransitivity; [by eapply Hcall|]. by apply IH.
Qed.

Ltac calls := repeat match goal with H : call _ _ = Ok _ |- _ => apply Hcall in H | H : actions _ _ _ = Ok _ |- _ => apply actions_grows in H end.

Lemma user_grows c s r s' : user response call c s = Ok (r, s') -> grows s s'.
Proof using Hcall. unfold user. intros H. inv_ok. calls. chase. Qed.

Lemma handler_grows {A} (body : connection_t -> outcome (A * connection_t)) s r s' :
  (forall s r s', body s = Ok (r, s') -> grows s s') -> handler call body s = Ok (r, s') -> grows s s'.
Proof using Hcall. intros Hb H. unfold handler in H. inv_ok; calls; match goal with H : body _ = Ok _ |- _ => apply Hb in H end; chase. Qed.

Lemma call_watch_grows f s s' : call_watch NDEBUG response call f s = Ok s' -> grows s s'.
Proof using Hcall.
  destruct f; cbn [call_watch]; [intros [= <-]; by apply grows_same| |].
  - unfold signal_on_fd_cleanup. intros H. inv_ok; try (by apply grows_same); (etransitivity; [apply grows_del_watch|by apply grows_same]).
  - intros H. inv_ok. by eapply user_grows.
Qed.

Lemma watch_loop_grows n pre st s s' : watch_loop NDEBUG response call n pre st s = Ok s' -> grows s s'.
Proof using Hcall.
  revert s. induction n as [|n IH]; intros s H; [done|]. cbn [watch_loop] in H. inv_ok; [..|by apply grows_same].
  - apply IH in H. chase.
  - apply IH in H. match goal with H : call_watch _ _ _ _ _ = Ok _ |- _ => apply call_watch_grows in H end. etransitivity; [|exact H].
    etransitivity; [|eassumption]. destruct (oneshot _); [|by apply grows_same]. destruct (fr_dlist_remove _ _) as [l p].
    etransitivity; [|apply grows_set_watchers]. by apply grows_same.
Qed.

Lemma WATCH_grows pre s s' : WATCH call pre s = Ok s' -> grows s s'.
Proof using Hcall.
  unfold WATCH. intros H. inv_ok; [reflexivity|]. eapply handler_grows; [|eassumption]. intros ?? ? Hb. cbn beta in Hb. inv_ok. calls. eassumption.
Qed.

Lemma enable_grows a b s s' : connection_watch_enable a b s = Ok s' -> grows s s'.
Proof. unfold connection_watch_enable. intros H. inv_ok. by apply grows_same. Qed.

Lemma timer_grows t s ok s' : fr_timer_in timer_ok t s = (ok, s') -> grows s s'.
Proof. unfold fr_timer_in. intros [= <- <-]. destruct (timer_ok _); by apply grows_same. Qed.

(** What was called, in order. *)
Ltac grown :=
  inv_ok;
  repeat match goal with
  | H : call _ _ = Ok _ |- _ => apply Hcall in H
  | H : WATCH _ _ _ = Ok _ |- _ => apply WATCH_grows in H
  | H : handler _ (user _ _ _) _ = Ok _ |- _ => apply handler_grows in H; [|intros; by eapply user_grows]
  | H : handler _ _ _ = Ok _ |- _ => apply handler_grows in H; [|clear H; intros ??? H; cbn beta in H; inv_ok; match goal with H : user _ _ _ _ = Ok _ |- _ => apply user_grows in H end; chase]
  | H : connection_watch_enable _ _ _ = Ok _ |- _ => apply enable_grows in H
  | H : fr_timer_in _ _ _ = _ |- _ => apply timer_grows in H
  end;
  try discriminate; try (chase; fail); try reflexivity.

Lemma enter_grows st s s' : run NDEBUG response timer_ok fuel call (Enter st) s = Ok s' -> grows s s'.
Proof using Hcall.
  destruct st; cbn [run]; intros H;
    [unfold connection_state_enter_halted in H|unfold connection_state_enter_init in H|unfold connection_state_enter_connecting in H
    |unfold connection_state_enter_timeout in H|unfold connection_state_enter_connected in H|unfold connection_state_enter_shutdown in H
    |unfold connection_state_enter_failed, after_failed in H|unfold connection_state_enter_closed in H]; grown.
Qed.

Lemma signal_grows sg s s' : connection_signal NDEBUG call sg s = Ok s' -> grows s s'.
Proof using Hcall.
  destruct sg; cbn [connection_signal]; intros H;
    [unfold connection_signal_init in H|unfold connection_signal_connected in H|unfold connection_signal_reconnect in H
    |unfold connection_signal_shutdown in H|unfold connection_signal_halt in H]; grown; apply grows_add.
Qed.

Lemma perform_grows a s s' : perform NDEBUG call a s = Ok s' -> grows s s'.
Proof using Hcall.
  unfold perform. intros H. inv_ok; [by eapply signal_grows| | | | | |by eapply enable_grows|].
  - unfold connection_free in H. grown. etransitivity; [|apply grows_add]. by apply grows_same.
  - by apply grows_same.
  - unfold connection_signals_resume in H. set (s1 := if 0 <? signals_pause x then x <| signals_pause := signals_pause x - 1 |> else x) in H.
    assert (grows x s1) as H1 by (unfold s1; destruct (0 <? _); by apply grows_same). clearbody s1. grown; done.
  - apply grows_add_watch.
  - apply grows_del_watch.
  - unfold connection_signal_on_fd in H. grown.
Qed.

Lemma process_grows s s' : connection_deferred_signal_process fuel call s = Ok s' -> grows s s'.
Proof. unfold connection_deferred_signal_process. intros H. inv_ok; intros Hp; (done || congruence). Qed.

Lemma run_grows c s s' : run NDEBUG response timer_ok fuel call c s = Ok s' -> grows s s'.
Proof using Hcall.
  destruct c as [st| |a|pre st]; [apply enter_grows|apply process_grows|apply perform_grows|].
  cbn [run]. unfold connection_watch_call. intros H. inv_ok; by eapply watch_loop_grows.
Qed.
End Grows.

Lemma exec_grows NDEBUG response timer_ok fuel c s s' : exec NDEBUG response timer_ok fuel c s = Ok s' -> grows s s'.
Proof.
  revert c s s'. induction fuel as [|fuel IH]; intros c s s' H; [done|]. by eapply run_grows.
Qed.

Lemma steps_grows NDEBUG response timer_ok fuel l s s' : steps NDEBUG response timer_ok fuel l s = Ok s' -> grows s s'.
Proof.
  revert s. induction l as [|i l IH]; intros s H; cbn [steps] in H; inv_ok; [reflexivity|]. etransitivity; [|by apply IH].
  destruct i; cbn [step] in *; inv_ok; try reflexivity; unfold _reconnect_delay_done in *; inv_ok; try (by apply grows_same);
    match goal with H : exec _ _ _ _ _ _ = Ok _ |- _ => apply exec_grows in H; chase end.
Qed.

(** The loop ends with an empty queue only where nothing was halted. *)
Lemma process_loop_freed call n s s' : deferred_freed s = false -> process_loop call n s = Ok (true, s') -> deferred_freed s' = false.
Proof.
  revert s. induction n as [|n IH]; intros s Hs H; [done|]. cbn [process_loop] in H. inv_ok; try discriminate; [done|]. by eapply IH.
Qed.

Lemma process_loop_grows call n s b s' :
  (forall c s s', call c s = Ok s' -> grows s s') -> processing_signals s = true -> process_loop call n s = Ok (b, s') -> processing_signals s' = true.
Proof.
  intros Hcall. revert s. induction n as [|n IH]; intros s Hs H; [done|]. cbn [process_loop] in H.
  inv_ok; try done; match goal with H : call _ _ = Ok ?x |- _ => apply Hcall in H; destruct (H Hs) as [Hx _] end; [done|done|]. by eapply IH.
Qed.

Lemma process_stuck NDEBUG response timer_ok fuel s s' :
  exec NDEBUG response timer_ok fuel Process s = Ok s' -> processing_signals s = false -> deferred_freed s' = true -> processing_signals s' = true.
Proof.
  destruct fuel as [|fuel]; [done|]. cbn [exec run]. unfold connection_deferred_signal_process, connection_watch_enable. intros H Hs Hf. inv_ok.
  - congruence.
  - exfalso. match goal with H : process_loop _ _ _ = Ok _ |- _ => apply process_loop_freed in H; [|done] end. cbn in Hf. congruence.
  - match goal with H : process_loop _ _ _ = Ok _ |- _ => apply process_loop_grows in H; [done|intros; by eapply exec_grows|done] end.
Qed.

(** When a deferred signal halted the connection, the flag that says so is taken for
    one that says the connection was freed: the connection stays marked as
    processing its signals, and whatever happens to it later, no deferred signal
    is processed again, the queue only grows. *)
Theorem connection_stuck_after_deferred_halt NDEBUG response timer_ok fuel fuel' s s1 l s2 :
  exec NDEBUG response timer_ok fuel Process s = Ok s1 -> processing_signals s = false -> deferred_freed s1 = true ->
  steps NDEBUG response timer_ok fuel' l s1 = Ok s2 ->
  processing_signals s2 = true /\ deferred_signals s1 `prefix_of` deferred_signals s2.
Proof. intros H Hs Hf Hl. apply (steps_grows _ _ _ _ _ _ _ Hl). by eapply process_stuck. Qed.

Lemma connection_stuck_after_deferred_halt_witness :
  let s := (connection_alloc true true true false true 5 5) <| state := CONNECTION_STATE_CLOSED |> <| deferred_signals := [CONNECTION_DSIGNAL_HALT] |> in
  let response n := (([] : list action), if (n =? 1)%nat then CONNECTION_STATE_CONNECTED else CONNECTION_STATE_CONNECTING) in
  exists s1 s2, exec false response (fun _ => true) 9 Process s = Ok s1 /\
    steps false response (fun _ => true) 9 [Api Pause; Api (Signal Sinit); Api Resume] s1 = Ok s2 /\ state s2 = CONNECTION_STATE_HALTED /\
    deferred_signals s2 = [CONNECTION_DSIGNAL_INIT] /\ processing_signals s2 = true.
Proof.
  intros s response. destruct (exec false response (fun _ => true) 9 Process s) as [s1| | |] eqn:E1; try (vm_compute in E1; discriminate).
  destruct (steps false response (fun _ => true) 9 [Api Pause; Api (Signal Sinit); Api Resume] s1) as [s2| | |] eqn:E2;
    try (vm_compute in E1; injection E1 as <-; vm_compute in E2; discriminate).
  destruct (connection_stuck_after_deferred_halt false response (fun _ => true) 9 9 s s1 [Api Pause; Api (Signal Sinit); Api Resume] s2 E1 eq_refl) as [H _];
    [vm_compute in E1; injection E1 as <-; reflexivity|exact E2|].
  exists s1, s2. split; [done|]. split; [done|]. vm_compute in E1. injection E1 as <-. vm_compute in E2. injection E2 as <-. by vm_compute.
Defined.

End ConnectionSpec.
