(* ===== verification/ConnectionLife.v ===== *)
(** The life of a connection (Connection) whose callbacks do not signal it: it never
    fails an assertion, always comes to rest, and opens and closes its handle in
    turn. *)

From S2P Require Import Prelude Connection ConnectionSpec.
Import Connection.

Module ConnectionLife.

(** ** Watchers that do nothing *)

Notation entry := connection_watch_entry_t.
Notation on_halted_func := deferred_signal_connection_on_halted.
Notation cleanup_func := connection_signal_on_fd_cleanup.

Definition lists (s : connection_t) (pre : bool) (st : connection_state_t) : list entry := watchers pre st s.

(** The lists of watchers as [connection_alloc] and the interface leave them: no
    entry is twice in them; the notification of
    [connection_deferred_signal_process] is in its place and disabled; the cleanup
    of a descriptor is where [connection_signal_on_fd] puts it. *)
Record watch_ok (oh na : nat) (w : bool -> connection_state_t -> list entry) : Prop := {
  ok_nodup pre st : NoDup (map addr (w pre st));
  ok_unique pre st e pre' st' e' : e ∈ w pre st -> e' ∈ w pre' st' -> addr e = addr e' -> pre = pre' /\ st = st';
  ok_halted : exists e, e ∈ w false CONNECTION_STATE_HALTED /\ addr e = oh;
  ok_disabled pre st e : e ∈ w pre st -> addr e = oh -> enabled e = false /\ func e = on_halted_func;
  ok_fresh pre st e : e ∈ w pre st -> (addr e < na)%nat;
  ok_func pre st e : e ∈ w pre st -> func e = on_halted_func -> addr e = oh;
  ok_cleanup pre st e : e ∈ w pre st -> func e = cleanup_func -> pre = true /\ (st = CONNECTION_STATE_CLOSED \/ st = CONNECTION_STATE_CONNECTED) }.

Lemma watch_ok_sublist oh na w w' :
  watch_ok oh na w -> (forall pre st, w' pre st `sublist_of` w pre st) -> (exists e, e ∈ w' false CONNECTION_STATE_HALTED /\ addr e = oh) -> watch_ok oh na w'.
Proof.
  intros [H1 H2 H3 H4 Hf H5 H6] Hs He. assert (forall pre st e, e ∈ w' pre st -> e ∈ w pre st) as Hi by (intros pre st e He'; by eapply elem_of_sublist).
  split; eauto. intros pre st. eapply sublist_NoDup; [apply (H1 pre st)|]. by apply (fmap_sublist addr).
Qed.

(** A new entry, and one that is switched on or off. *)
Lemma watch_ok_add oh na w w' pre st e :
  watch_ok oh na w -> addr e = na -> func e <> on_halted_func ->
  (func e = cleanup_func -> pre = true /\ (st = CONNECTION_STATE_CLOSED \/ st = CONNECTION_STATE_CONNECTED)) ->
  (forall pre' st', w' pre' st' = if decide (pre' = pre /\ st' = st) then w pre st ++ [e] else w pre' st') -> watch_ok oh (S na) w'.
Proof.
  intros Hok Ha Hf Hc Hw.
  assert (forall x p q, x ∈ w' p q -> x ∈ w p q \/ (x = e /\ p = pre /\ q = st)) as Hi.
  { intros x p q. rewrite Hw. case_decide as Hd; [destruct Hd as [-> ->]|tauto]. rewrite elem_of_app, list_elem_of_singleton. tauto. }
  pose proof (ok_fresh _ _ _ Hok) as Hfr. pose proof (ok_halted _ _ _ Hok) as (eh & Heh & Hah). specialize (Hfr _ _ _ Heh) as Hoh.
  split.
  - intros p q. rewrite Hw. case_decide; [|apply Hok]. rewrite map_app. apply list.NoDup_app. split; [apply Hok|]. split; [|apply NoDup_singleton].
    intros x (y & <- & Hy)%list_elem_of_In%in_map_iff Ex%list_elem_of_singleton. apply list_elem_of_In in Hy. specialize (Hfr _ _ _ Hy). lia.
  - intros p q x p' q' x' [H|[-> [-> ->] ] ]%Hi [H'|[-> [-> ->] ] ]%Hi Hx; [by eapply (ok_unique _ _ _ Hok)| | |done]; exfalso.
    + specialize (Hfr _ _ _ H). lia.
    + specialize (Hfr _ _ _ H'). lia.
  - exists eh. split; [|done]. rewrite Hw. case_decide as Hd; [|done]. destruct Hd as [<- <-]. apply elem_of_app. by left.
  - intros p q x [H|[-> _] ]%Hi Hx; [by apply (ok_disabled _ _ _ Hok p q)|lia].
  - intros p q x [H|[-> _] ]%Hi; [specialize (Hfr _ _ _ H); lia|lia].
  - intros p q x [H|[-> _] ]%Hi Hx; [by apply (ok_func _ _ _ Hok p q)|done].
  - intros p q x [H|[-> [-> ->] ] ]%Hi Hx; [by apply (ok_cleanup _ _ _ Hok p q x)|auto].
Qed.

Lemma set_enabled_addr a b l : map addr (set_enabled a b l) = map addr l.
Proof. unfold set_enabled. rewrite map_map. apply map_ext. intros e. by destruct (addr e =? a)%nat. Qed.

Lemma set_enabled_elem a b l e : e ∈ set_enabled a b l -> exists x, x ∈ l /\ addr x = addr e /\ func x = func e /\ (addr e <> a -> x = e).
Proof.
  intros (x & <- & Hx%list_elem_of_In)%list_elem_of_In%in_map_iff. exists x. split; [done|].
  destruct (addr x =? a)%nat eqn:E; [|done]. apply Nat.eqb_eq in E. by cbn.
Qed.

Lemma watch_ok_enable oh na w w' a b :
  watch_ok oh na w -> a <> oh -> (forall pre st, w' pre st = set_enabled a b (w pre st)) -> watch_ok oh na w'.
Proof.
  intros Hok Ha Hw. split.
  - intros pre st. rewrite Hw, set_enabled_addr. apply Hok.
  - intros p q x p' q' x' Hx Hx' E. rewrite Hw in Hx, Hx'. apply set_enabled_elem in Hx as (y & Hy & Ey & _). apply set_enabled_elem in Hx' as (y' & Hy' & Ey' & _).
    apply (ok_unique _ _ _ Hok p q y p' q' y'); congruence.
  - destruct (ok_halted _ _ _ Hok) as (eh & Heh & Hah). exists eh. split; [|done]. rewrite Hw. apply list_elem_of_In, in_map_iff. exists eh.
    split; [|by apply list_elem_of_In]. destruct (addr eh =? a)%nat eqn:E; [apply Nat.eqb_eq in E; congruence|done].
  - intros p q x Hx Eo. rewrite Hw in Hx. apply set_enabled_elem in Hx as (y & Hy & Ey & _ & Hs). rewrite <- Hs by congruence. apply (ok_disabled _ _ _ Hok p q); congruence.
  - intros p q x Hx. rewrite Hw in Hx. apply set_enabled_elem in Hx as (y & Hy & <- & _). by apply (ok_fresh _ _ _ Hok p q).
  - intros p q x Hx Ef. rewrite Hw in Hx. apply set_enabled_elem in Hx as (y & Hy & <- & E & _). apply (ok_func _ _ _ Hok p q); congruence.
  - intros p q x Hx Ef. rewrite Hw in Hx. apply set_enabled_elem in Hx as (y & Hy & _ & E & _). apply (ok_cleanup _ _ _ Hok p q y); congruence.
Qed.

(** *** The list functions *)

Lemma after_split l a l1 e l2 :
  l = l1 ++ e :: l2 -> addr e = a -> NoDup (map addr l) -> after a l = Some (head l2).
Proof.
  intros -> <- Hn. induction l1 as [|x l1 IH]; cbn [app after]; [by rewrite Nat.eqb_refl|].
  cbn in Hn. apply list.NoDup_cons in Hn as [Hx Hn]. destruct (addr x =? addr e)%nat eqn:E; [|by apply IH].
  exfalso. apply Hx. apply Nat.eqb_eq in E. rewrite E. apply list_elem_of_In, in_map, in_or_app. right. by left.
Qed.

Lemma before_split l1 e l2 p : NoDup (map addr (l1 ++ e :: l2)) -> before (addr e) p (l1 ++ e :: l2) = match list.last l1 with Some x => Some (addr x) | None => p end.
Proof.
  revert p. induction l1 as [|x l1 IH]; intros p Hn; cbn [app before]; [by rewrite Nat.eqb_refl|].
  cbn in Hn. apply list.NoDup_cons in Hn as [Hx Hn]. destruct (addr x =? addr e)%nat eqn:E.
  - exfalso. apply Hx. apply Nat.eqb_eq in E. rewrite E. apply list_elem_of_In, in_map, in_or_app. right. by left.
  - rewrite IH by done. destruct l1; [done|]. rewrite list.last_cons_cons. by destruct (list.last _) eqn:F; [|apply list.last_None in F].
Qed.

Lemma remove_split l1 e l2 :
  NoDup (map addr (l1 ++ e :: l2)) -> fr_dlist_remove (l1 ++ e :: l2) (addr e) = (l1 ++ l2, addr <$> list.last l1).
Proof.
  intros Hn. unfold fr_dlist_remove. rewrite before_split by done. f_equal.
  assert (forall l, addr e ∉ map addr l -> List.filter (fun x => negb (addr x =? addr e)%nat) l = l) as Hf.
  { induction l as [|x l IH]; intros Hx; [done|]. cbn in *. apply not_elem_of_cons in Hx as [Hx1 Hx2].
    replace (addr x =? addr e)%nat with false by (symmetry; by apply Nat.eqb_neq). cbn. by rewrite IH. }
  rewrite map_app in Hn. cbn in Hn. apply list.NoDup_app in Hn as (H1 & H2 & H3). apply list.NoDup_cons in H3 as [H3 H4].
  rewrite List.filter_app. cbn. rewrite Nat.eqb_refl. cbn. rewrite !Hf; [done|done|]. intros Hx. apply (H2 _ Hx). by left.
Qed.

Lemma next_split l1 l2 cur : NoDup (map addr (l1 ++ l2)) -> cur = addr <$> list.last l1 -> fr_dlist_next (l1 ++ l2) cur = Ok (head l2).
Proof.
  intros Hn ->. destruct l1 as [|e l1 _] using rev_ind; [done|]. rewrite last_snoc. cbn [fmap option_fmap option_map fr_dlist_next].
  by rewrite (after_split _ (addr e) l1 e l2) by (rewrite <- ?app_assoc in *; done).
Qed.

Lemma sublist_remove (l1 l2 : list entry) e : l1 ++ l2 `sublist_of` l1 ++ e :: l2.
Proof. apply sublist_app; [done|]. by apply sublist_cons. Qed.

(** *** What they leave behind *)

(** Watchers that do not signal may change these fields and no others. *)
Record noise := MkNoise {
  n_pre : connection_state_t -> list entry;
  n_post : connection_state_t -> list entry;
  n_calls : nat;
  n_trace : list event;
  n_fd : bool;
  n_freed : bool
}.

Definition with_noise (x : noise) (s : connection_t) : connection_t :=
  MkConn (state s) (prev s) (reconnected s) (timed_out s) (in_handler s) (is_closed s) (processing_signals s) (n_pre x) (n_post x)
    (next_watcher s) (has_init s) (has_open s) (has_close s) (has_shutdown s) (has_failed s) (ev s) (connection_timeout s) (reconnection_delay s)
    (deferred_signals s) (on_halted s) (signals_pause s) (n_fd x) (n_freed x) (alive s) (next_addr s) (n_calls x) (timers s) (n_trace x).
Definition noise_of (s : connection_t) : noise := MkNoise (watch_pre s) (watch_post s) (calls s) (trace s) (fd_event s) (deferred_freed s).

Lemma with_noise_of s : with_noise (noise_of s) s = s.
Proof. by destruct s. Qed.

(** What is recorded, but for the watchers. *)
Definition visible (t : list event) : list event := List.filter (fun e => match e with Called (Watch _) _ => false | _ => true end) t.

Lemma visible_app t t' : visible (t ++ t') = visible t ++ visible t'.
Proof. apply List.filter_app. Qed.

(** At most [N] watchers wait for a state. *)
Definition harmless (N : nat) (s : connection_t) (x : noise) : Prop :=
  watch_ok (on_halted s) (next_addr s) (lists (with_noise x s)) /\ (forall pre st, length (lists (with_noise x s) pre st) <= N)%nat /\
  visible (n_trace x) = visible (trace s).

Lemma lists_next s a pre st : lists (s <| next_watcher := a |>) pre st = lists s pre st.
Proof. by destruct pre. Qed.

Lemma lists_set_watchers pre st l s pre' st' :
  lists (set_watchers pre st l s) pre' st' = if decide (pre' = pre /\ st' = st) then l else lists s pre' st'.
Proof.
  unfold lists, watchers, set_watchers. destruct pre, pre'; cbn; repeat case_decide; intuition congruence.
Qed.

(** Removing the other cleanup from its list. *)
Lemma del_cleanup_silent N st other s :
  st <> other -> (forall a, next_watcher s = Some a -> exists e, e ∈ lists s true st /\ addr e = a) ->
  watch_ok (on_halted s) (next_addr s) (lists s) -> (forall pre st, length (lists s pre st) <= N)%nat ->
  exists x, connection_del_watch true other cleanup_func s = with_noise x s /\ harmless N s x /\ lists (with_noise x s) true st = lists s true st.
Proof.
  intros Hne Hnext Hok HN. unfold connection_del_watch. destruct (find _ _) as [e|] eqn:E.
  - apply find_some in E as [Hi%list_elem_of_In Hf]. case_bool_decide as Hf'; [|done].
    apply list_elem_of_split in Hi as Hi'. destruct Hi' as (l1 & l2 & Hl). change (lists s true other = l1 ++ e :: l2) in Hl.
    pose proof (ok_nodup _ _ _ Hok true other) as Hn. unfold lists in Hl, Hn. rewrite Hl in Hn |- *. rewrite remove_split by done.
    rewrite bool_decide_false.
    2:{ intros H. destruct (Hnext _ H) as (e' & He' & Ha). destruct (ok_unique _ _ _ Hok true st e' true other e He') as [_ ?]; [|done|done].
        unfold lists. rewrite Hl. apply elem_of_app. right. by left. }
    exists (noise_of (set_watchers true other (l1 ++ l2) s)). split; [by destruct s|].
    assert (forall pre st', lists (with_noise (noise_of (set_watchers true other (l1 ++ l2) s)) s) pre st' = lists (set_watchers true other (l1 ++ l2) s) pre st') as Hls by done.
    assert (forall pre st', lists (set_watchers true other (l1 ++ l2) s) pre st' `sublist_of` lists s pre st') as Hsub.
    { intros pre st'. rewrite lists_set_watchers. case_decide as Hd; [|done]. destruct Hd as [-> ->]. unfold lists. rewrite Hl. apply sublist_remove. }
    split; [split; [|split]|].
    + apply (watch_ok_sublist _ _ (lists s)); [done|done|]. destruct (ok_halted _ _ _ Hok) as (eh & Heh & Hah). exists eh. split; [|done]. rewrite Hls, lists_set_watchers.
      rewrite decide_False by (intros []; done). done.
    + intros pre st'. rewrite Hls. etransitivity; [by apply sublist_length, Hsub|]. apply HN.
    + done.
    + rewrite Hls, lists_set_watchers, decide_False by (intros []; congruence). done.
  - exists (noise_of s). rewrite with_noise_of. done.
Qed.

(** ** The life of a handle *)

(** Which state may follow which. *)
Definition edge (a b : connection_state_t) : bool :=
  match a, b with
  | CONNECTION_STATE_HALTED, CONNECTION_STATE_INIT => true
  | CONNECTION_STATE_INIT, (CONNECTION_STATE_CONNECTING | CONNECTION_STATE_CONNECTED | CONNECTION_STATE_FAILED) => true
  | CONNECTION_STATE_CONNECTING, (CONNECTION_STATE_CONNECTED | CONNECTION_STATE_TIMEOUT | CONNECTION_STATE_FAILED | CONNECTION_STATE_CLOSED) => true
  | CONNECTION_STATE_TIMEOUT, CONNECTION_STATE_FAILED => true
  | CONNECTION_STATE_CONNECTED, (CONNECTION_STATE_SHUTDOWN | CONNECTION_STATE_FAILED | CONNECTION_STATE_CLOSED) => true
  | CONNECTION_STATE_SHUTDOWN, (CONNECTION_STATE_TIMEOUT | CONNECTION_STATE_FAILED) => true
  | CONNECTION_STATE_FAILED, (CONNECTION_STATE_CLOSED | CONNECTION_STATE_HALTED | CONNECTION_STATE_INIT) => true
  | CONNECTION_STATE_CLOSED, (CONNECTION_STATE_HALTED | CONNECTION_STATE_INIT) => true
  | _, _ => false
  end.

Definition opens (ret : connection_state_t) : bool :=
  bool_decide (ret = CONNECTION_STATE_CONNECTING \/ ret = CONNECTION_STATE_CONNECTED).

(** The state and whether there is a handle, after an event that may come there: a
    handle is made in INIT where there is none, used while there is one, and
    closed in CLOSED where there is one. *)
Definition scan_step (p : connection_state_t * bool) (e : event) : option (connection_state_t * bool) :=
  let '(st, h) := p in
  match e with
  | Transition a b => if bool_decide (a = st) && edge a b then Some (b, h) else None
  | Called Init ret => if bool_decide (st = CONNECTION_STATE_INIT) && negb h then Some (st, opens ret) else None
  | Called Open _ => if bool_decide (st = CONNECTION_STATE_CONNECTED) && h then Some (st, h) else None
  | Called Shutdown _ => if bool_decide (st = CONNECTION_STATE_SHUTDOWN) && h then Some (st, h) else None
  | Called Failed _ => if bool_decide (st = CONNECTION_STATE_FAILED) then Some (st, h) else None
  | Called Close _ => if bool_decide (st = CONNECTION_STATE_CLOSED) && h then Some (st, false) else None
  | Called (Watch _) _ => Some (st, h)
  end.

Definition scan (l : list event) : option (connection_state_t * bool) :=
  fold_left (fun o e => p ← o; scan_step p e) l (Some (CONNECTION_STATE_HALTED, false)).

Lemma scan_app l e : scan (l ++ [e]) = p ← scan l; scan_step p e.
Proof. unfold scan. by rewrite fold_left_app. Qed.

(** The functions and times that were given to [connection_alloc]. *)
Record conf := MkConf { c_open : bool; c_shutdown : bool; c_failed : bool; c_timeout : Z; c_delay : Z }.

Section Silent.
Context (NDEBUG : bool) (response : nat -> list action * connection_state_t) (timer_ok : nat -> bool).
Context (Hsilent : forall n, fst (response n) = []).

Lemma exec_S n c s : exec NDEBUG response timer_ok (S n) c s = run NDEBUG response timer_ok n (exec NDEBUG response timer_ok n) c s.
Proof. reflexivity. Qed.

Lemma user_silent call c s :
  user response call c s =
  Ok (snd (response (calls s)), s <| calls := S (calls s) |> <| trace := trace s ++ [Called c (snd (response (calls s)))] |>).
Proof using Hsilent. unfold user. specialize (Hsilent (calls s)). destruct (response (calls s)) as [l r]. cbn in Hsilent. by subst l. Qed.

Lemma harmless_refl N s : watch_ok (on_halted s) (next_addr s) (lists s) -> (forall pre st, length (lists s pre st) <= N)%nat -> harmless N s (noise_of s).
Proof. intros H1 H2. unfold harmless. rewrite with_noise_of. done. Qed.

Lemma harmless_trans N s x y : harmless N s x -> harmless N (with_noise x s) y -> harmless N s y.
Proof. intros (H1 & H2 & H3) (H4 & H5 & H6). split; [done|]. split; [done|]. change (visible (n_trace y) = visible (n_trace x)) in H6. congruence. Qed.

Lemma call_watch_silent N call pre st e s :
  state s = st -> func e <> on_halted_func -> (func e = cleanup_func -> pre = true /\ (st = CONNECTION_STATE_CLOSED \/ st = CONNECTION_STATE_CONNECTED)) ->
  (forall a, next_watcher s = Some a -> exists e, e ∈ lists s pre st /\ addr e = a) ->
  watch_ok (on_halted s) (next_addr s) (lists s) -> (forall pre st, length (lists s pre st) <= N)%nat ->
  exists x, call_watch NDEBUG response call (func e) s = Ok (with_noise x s) /\ harmless N s x /\ lists (with_noise x s) pre st = lists s pre st.
Proof using Hsilent.
  intros Hst Hf Hc Hnext Hok HN. destruct (func e) as [| |n]; [done| |]; cbn [call_watch].
  - destruct (Hc eq_refl) as [-> Hst']. unfold signal_on_fd_cleanup. rewrite Hst.
    assert (exists other, st <> other /\ match st with
            | CONNECTION_STATE_CLOSED => Ok (connection_del_watch true CONNECTION_STATE_CONNECTED cleanup_func s)
            | CONNECTION_STATE_CONNECTED => Ok (connection_del_watch true CONNECTION_STATE_CLOSED cleanup_func s)
            | _ => fr_assert NDEBUG false s end = Ok (connection_del_watch true other cleanup_func s)) as (other & Hne & ->).
    { destruct Hst' as [-> | ->]; eexists; (split; [|reflexivity]; done). }
    destruct (del_cleanup_silent N st other s Hne Hnext Hok HN) as (x & -> & Hx & Hl). cbn [mbind outcome_bind].
    exists (MkNoise (n_pre x) (n_post x) (n_calls x) (n_trace x) false (n_freed x)). done.
  - rewrite user_silent. cbn [mbind outcome_bind]. exists (MkNoise (watch_pre s) (watch_post s) (S (calls s)) (trace s ++ [Called (Watch n) (snd (response (calls s)))]) (fd_event s) (deferred_freed s)).
    split; [done|].
    split; [|done]. split; [done|]. split; [done|]. cbn. rewrite visible_app. cbn. by rewrite app_nil_r.
Qed.

(** The entry that comes next is taken out of the list where it is for one call. *)
Lemma take_entry N pre st s done e rest :
  lists s pre st = done ++ e :: rest -> watch_ok (on_halted s) (next_addr s) (lists s) -> addr e <> on_halted s -> (forall pre st, length (lists s pre st) <= N)%nat ->
  let s0 := s <| next_watcher := Some (addr e) |> in
  let s1 := if oneshot e then let '(l, p) := fr_dlist_remove (watchers pre st s0) (addr e) in set_watchers pre st l (s0 <| next_watcher := p |>) else s0 in
  exists done' x, s1 = (with_noise x s) <| next_watcher := addr <$> list.last done' |> /\ lists (with_noise x s) pre st = done' ++ rest /\ harmless N s x.
Proof.
  intros Hl Hok Hoh HN s0 s1. pose proof (ok_nodup _ _ _ Hok pre st) as Hnd. rewrite Hl in Hnd. unfold s1, s0. clear s1 s0. destruct (oneshot e).
  - change (watchers pre st (s <| next_watcher := Some (addr e) |>)) with (lists s pre st). rewrite Hl, remove_split by done.
    exists done, (noise_of (set_watchers pre st (done ++ rest) s)).
    assert (forall pre' st', lists (with_noise (noise_of (set_watchers pre st (done ++ rest) s)) s) pre' st' = if decide (pre' = pre /\ st' = st) then done ++ rest else lists s pre' st') as Hls.
    { intros. rewrite <- lists_set_watchers. by destruct pre. }
    split; [by destruct pre|]. split; [rewrite Hls, decide_True by done; done|].
    assert (forall pre' st', lists (with_noise (noise_of (set_watchers pre st (done ++ rest) s)) s) pre' st' `sublist_of` lists s pre' st') as Hsub.
    { intros. rewrite Hls. case_decide as Hd; [|done]. destruct Hd as [-> ->]. rewrite Hl. apply sublist_remove. }
    split; [|split].
    + apply (watch_ok_sublist _ _ (lists s)); [done|done|]. destruct (ok_halted _ _ _ Hok) as (eh & Heh & Hah). exists eh. split; [|done]. rewrite Hls.
      case_decide as Hd; [|done]. destruct Hd as [<- <-]. rewrite Hl in Heh. apply elem_of_app in Heh. apply elem_of_app. destruct Heh as [|[-> |]%elem_of_cons]; [by left|congruence|by right].
    + intros. etransitivity; [by apply sublist_length, Hsub|]. apply HN.
    + by destruct pre.
  - exists (done ++ [e]), (noise_of s). rewrite with_noise_of, last_snoc. split; [done|]. split; [by rewrite <- app_assoc|]. by apply harmless_refl.
Qed.

Lemma watch_loop_silent N call pre st rest : forall n done s,
  alive s = true -> state s = st -> lists s pre st = done ++ rest -> next_watcher s = addr <$> list.last done ->
  watch_ok (on_halted s) (next_addr s) (lists s) -> (forall pre st, length (lists s pre st) <= N)%nat -> (length rest < n)%nat ->
  exists x, watch_loop NDEBUG response call n pre st s = Ok ((with_noise x s) <| next_watcher := None |>) /\ harmless N s x.
Proof using Hsilent.
  induction rest as [|e rest IH]; intros [|n] done s Ha Hst Hl Hnext Hok HN Hn; cbn [length] in Hn; try lia.
  - cbn [watch_loop]. unfold touch. rewrite Ha. cbn [mbind outcome_bind]. change (watchers pre st s) with (lists s pre st).
    rewrite Hl, next_split by (try done; rewrite <- Hl; apply Hok). cbn. exists (noise_of s). rewrite with_noise_of. split; [done|]. by apply harmless_refl.
  - cbn [watch_loop]. unfold touch. rewrite Ha. cbn [mbind outcome_bind]. change (watchers pre st s) with (lists s pre st).
    pose proof (ok_nodup _ _ _ Hok pre st) as Hnd. rewrite Hl in Hnd. rewrite Hl, next_split by done. cbn [head mbind outcome_bind].
    assert (e ∈ lists s pre st) as Hin by (rewrite Hl; apply elem_of_app; right; by left).
    destruct (enabled e) eqn:Een; cbn [negb].
    + assert (addr e <> on_halted s) as Hoh by (intros Hoh; destruct (ok_disabled _ _ _ Hok pre st e Hin Hoh); congruence).
      assert (func e <> on_halted_func) as Hf by (intros Hf; by apply Hoh, (ok_func _ _ _ Hok pre st)).
      destruct (take_entry N pre st s done e rest Hl Hok Hoh HN) as (done' & x & -> & Hl' & Hx). set (s1 := (with_noise x s) <| next_watcher := _ |>).
      destruct Hx as (Hx1 & Hx2 & Hx3).
      assert (func e = cleanup_func -> pre = true /\ (st = CONNECTION_STATE_CLOSED \/ st = CONNECTION_STATE_CONNECTED)) as Hc by apply (ok_cleanup _ _ _ Hok pre st e Hin).
      assert (forall a, next_watcher s1 = Some a -> exists e, e ∈ lists s1 pre st /\ addr e = a) as Hnx.
      { intros a. cbn. destruct (list.last done') as [el|] eqn:El; [|discriminate]. intros [= <-]. exists el. split; [|reflexivity].
        unfold s1. rewrite lists_next, Hl'. apply elem_of_app. left. by apply last_Some_elem_of. }
      destruct (call_watch_silent N call pre st e s1 Hst Hf Hc Hnx Hx1 Hx2) as (y & -> & (Hy1 & Hy2 & Hy3) & Hly).
      cbn [mbind outcome_bind]. destruct (IH n done' (with_noise y s1) Ha Hst) as (z & -> & Hz1 & Hz2 & Hz3); [rewrite Hly; exact Hl'|reflexivity|exact Hy1|exact Hy2|lia|].
      exists z. split; [reflexivity|]. split; [exact Hz1|]. split; [exact Hz2|]. rewrite Hz3. etransitivity; [exact Hy3|exact Hx3].
    + pose (s1 := s <| next_watcher := Some (addr e) |>). destruct (IH n (done ++ [e]) s1 Ha Hst) as (x & Ex & Hx);
        [unfold s1; rewrite lists_next, <- app_assoc; exact Hl|rewrite last_snoc; reflexivity|exact Hok|exact HN|lia|]. exists x. split; [exact Ex|exact Hx].
Qed.

(** Nothing is going on. *)
Record quiet (N : nat) (s : connection_t) : Prop := {
  q_alive : alive s = true;
  q_handler : in_handler s = false;
  q_processing : processing_signals s = false;
  q_deferred : deferred_signals s = [];
  q_pause : signals_pause s = 0;
  q_next : next_watcher s = None;
  q_watch : watch_ok (on_halted s) (next_addr s) (lists s);
  q_bound pre st : (length (lists s pre st) <= N)%nat }.

Lemma quiet_noise N s x : quiet N s -> harmless N s x -> quiet N (with_noise x s).
Proof. intros [] (H1 & H2 & H3). split; done. Qed.

Lemma set_enabled_back oh na w pre st : watch_ok oh na w -> set_enabled oh false (set_enabled oh true (w pre st)) = w pre st.
Proof.
  intros Hok. unfold set_enabled. rewrite map_map. rewrite <- (map_id (w pre st)) at 2. apply map_ext_in. intros e He%list_elem_of_In.
  destruct (addr e =? oh)%nat eqn:E; cbn; rewrite E; [|done]. apply Nat.eqb_eq in E. destruct (ok_disabled _ _ _ Hok pre st e He E) as [Hd _].
  destruct e; cbn in *. by rewrite Hd.
Qed.

Lemma is_entry_halted oh s : (exists e, e ∈ lists s false CONNECTION_STATE_HALTED /\ addr e = oh) -> is_entry oh s = true.
Proof.
  intros (e & He%list_elem_of_In & <-). unfold is_entry. apply existsb_exists. exists CONNECTION_STATE_HALTED. split; [by left|].
  apply orb_true_iff. left. apply existsb_exists. exists e. split; [done|apply Nat.eqb_refl].
Qed.

Lemma enable_ok a b s : (exists e, e ∈ lists s false CONNECTION_STATE_HALTED /\ addr e = a) ->
  connection_watch_enable a b s = Ok (s <| watch_pre := fun st => set_enabled a b (watch_pre s st) |> <| watch_post := fun st => set_enabled a b (watch_post s st) |>).
Proof. intros H. unfold connection_watch_enable. by rewrite is_entry_halted. Qed.

Lemma enabled_halted a b s : (exists e, e ∈ lists s false CONNECTION_STATE_HALTED /\ addr e = a) ->
  exists e, e ∈ set_enabled a b (watch_post s CONNECTION_STATE_HALTED) /\ addr e = a.
Proof.
  intros (e & He & Ha). assert (a ∈ map addr (set_enabled a b (watch_post s CONNECTION_STATE_HALTED))) as Hi.
  { rewrite set_enabled_addr, list_elem_of_In, <- Ha. by apply in_map, list_elem_of_In. }
  apply list_elem_of_In, in_map_iff in Hi as (e' & Ha' & He'). exists e'. split; [by apply list_elem_of_In|done].
Qed.

(** No signal waits: the queue is looked at, and nothing happens. *)
Definition processed (s : connection_t) : noise :=
  MkNoise (fun st => set_enabled (on_halted s) false (set_enabled (on_halted s) true (watch_pre s st)))
    (fun st => set_enabled (on_halted s) false (set_enabled (on_halted s) true (watch_post s st))) (calls s) (trace s) (fd_event s) false.

Lemma process_quiet N fuel s :
  quiet N s -> exec NDEBUG response timer_ok (S (S fuel)) Process s = Ok (with_noise (processed s) s) /\ harmless N s (processed s).
Proof.
  intros [Ha Hh Hp Hd Hs Hn Hw HN]. split.
  - cbn [exec run]. unfold connection_deferred_signal_process, touch. rewrite Ha. cbn [mbind outcome_bind]. rewrite Hp.
    rewrite enable_ok by apply (ok_halted _ _ _ Hw). cbn [mbind outcome_bind process_loop]. unfold touch. cbn. rewrite Ha. cbn. rewrite Hd. cbn.
    rewrite enable_ok by apply enabled_halted, (ok_halted _ _ _ Hw). unfold with_noise. rewrite Hp. reflexivity.
  - assert (forall pre st, lists (with_noise (processed s) s) pre st = lists s pre st) as Hl by (intros [] st; [exact (set_enabled_back _ _ (lists s) true st Hw)|exact (set_enabled_back _ _ (lists s) false st Hw)]).
    split; [|split; [|reflexivity]].
    + apply (watch_ok_sublist _ _ (lists s)); [done|intros; by rewrite Hl|]. rewrite Hl. apply Hw.
    + intros. by rewrite Hl.
Qed.

Lemma quiet_handler N s : quiet N s -> watch_ok (on_halted s) (next_addr s) (lists s) /\ (forall pre st, length (lists s pre st) <= N)%nat.
Proof. intros []. done. Qed.

(** Where a handler ends, no signal waits. *)
Lemma handler_end {A} N fuel (body : connection_t -> outcome (A * connection_t)) s r s1 :
  body (s <| in_handler := true |>) = Ok (r, s1 <| in_handler := true |>) -> in_handler s = false -> quiet N s1 ->
  exists y, handler (exec NDEBUG response timer_ok (S (S fuel))) body s = Ok (r, with_noise y s1) /\ harmless N s1 y.
Proof.
  intros Hb Hs Hq. destruct (process_quiet N fuel s1 Hq) as [Hp Hh]. exists (processed s1). split; [|exact Hh].
  unfold handler. rewrite Hb. cbn [mbind outcome_bind]. generalize dependent (exec NDEBUG response timer_ok (S (S fuel))). intros call Hp. destruct s1.
  destruct Hq as [Ha Hq _ _ Hz _ _ _]. cbn in *. subst. rewrite Hs. cbn. unfold upd. cbn. rewrite Hp. reflexivity.
Qed.

Lemma WATCH_quiet N fuel pre s :
  quiet N s -> (N + 2 <= fuel)%nat -> exists x, WATCH (exec NDEBUG response timer_ok (S fuel)) pre s = Ok (with_noise x s) /\ harmless N s x.
Proof using Hsilent.
  intros Hq Hf. unfold WATCH, touch. rewrite (q_alive _ _ Hq). cbn [mbind outcome_bind]. destruct (quiet_handler N s Hq) as [Hok HN].
  destruct (watchers pre (state s) s) as [|e l] eqn:E.
  - exists (noise_of s). rewrite with_noise_of. split; [done|]. by apply harmless_refl.
  - destruct fuel as [|fuel]; [lia|]. set (s1 := s <| in_handler := true |>).
    destruct (watch_loop_silent N (exec NDEBUG response timer_ok (S fuel)) pre (state s) (lists s pre (state s)) (S fuel) [] s1) as (x & Ex & Hx);
      [apply Hq|reflexivity|by destruct pre|apply Hq|by destruct pre|by destruct pre|specialize (HN pre (state s)); lia|].
    destruct (handler_end N fuel (fun s0 => s2 ← exec NDEBUG response timer_ok (S (S fuel)) (WatchCall pre (state s)) s0; Ok (tt, s2)) s tt (with_noise x s)) as (y & -> & Hy).
    + rewrite exec_S. cbn [run]. unfold connection_watch_call, fr_assert. cbn [next_watcher upd]. rewrite (q_next _ _ Hq), bool_decide_true, orb_true_r by done.
      cbn [mbind outcome_bind]. fold s1. rewrite Ex. cbn [mbind outcome_bind]. unfold s1, with_noise. rewrite (q_next _ _ Hq). reflexivity.
    + apply Hq.
    + exact (quiet_noise N s x Hq Hx).
    + exists y. split; [reflexivity|]. exact (harmless_trans N s x y Hx Hy).
Qed.

Lemma handler_user_quiet N fuel c s :
  quiet N s -> (forall n, c <> Watch n) ->
  exists r y, handler (exec NDEBUG response timer_ok (S (S fuel))) (user response (exec NDEBUG response timer_ok (S (S fuel))) c) s = Ok (r, with_noise y s) /\
    quiet N (with_noise y s) /\ visible (n_trace y) = visible (trace s) ++ [Called c r].
Proof using Hsilent.
  intros Hq Hc. set (r := snd (response (calls s))).
  set (x := MkNoise (watch_pre s) (watch_post s) (S (calls s)) (trace s ++ [Called c r]) (fd_event s) (deferred_freed s)).
  assert (quiet N (with_noise x s)) as Hx by (destruct Hq; split; done).
  destruct (handler_end N fuel (user response (exec NDEBUG response timer_ok (S (S fuel))) c) s r (with_noise x s)) as (y & Hy & Hh);
    [rewrite user_silent; reflexivity|apply Hq|exact Hx|].
  exists r, y. split; [exact Hy|]. split; [exact (quiet_noise N _ y Hx Hh)|]. destruct Hh as (_ & _ & ->). unfold x. cbn [n_trace with_noise trace].
  rewrite visible_app. f_equal. destruct c; try done. by destruct (Hc n).
Qed.

(** In a state, with or without a handle, with an armed timer. *)
Record good (N : nat) (cf : conf) (st : connection_state_t) (h : bool) (t : option timer) (s : connection_t) : Prop := {
  g_quiet : quiet N s;
  g_state : state s = st;
  g_scan : scan (visible (trace s)) = Some (st, h);
  g_closed : is_closed s = negb h;
  g_ev : ev s = t;
  g_conf : MkConf (has_open s) (has_shutdown s) (has_failed s) (connection_timeout s) (reconnection_delay s) = cf;
  g_init : has_init s = true /\ has_close s = true }.

Lemma good_ev N cf st h t s t' : good N cf st h t s -> good N cf st h t' (s <| ev := t' |>).
Proof. intros [[] ]. split; try done. Qed.

Lemma good_transition N cf st h t s new : good N cf st h t s -> edge st new = true -> good N cf new h t (STATE_TRANSITION new s).
Proof.
  intros [[Ha Hh Hp Hd Hs Hn Hw HN] Hst Hsc Hc He Hcf Hi] Hedge. split; try done.
  unfold STATE_TRANSITION. cbn [trace upd]. rewrite visible_app. change (visible [Transition (state s) new]) with [Transition (state s) new].
  rewrite scan_app, Hsc. cbn [mbind option_bind scan_step]. by rewrite Hst, bool_decide_true, Hedge.
Qed.

Lemma good_watch N cf st h t s fuel pre :
  good N cf st h t s -> (N + 3 <= fuel)%nat -> exists s', WATCH (exec NDEBUG response timer_ok fuel) pre s = Ok s' /\ good N cf st h t s'.
Proof using Hsilent.
  intros G Hf. destruct fuel as [|fuel]; [lia|]. destruct (WATCH_quiet N fuel pre s) as (x & Ex & Hx); [apply G|lia|].
  exists (with_noise x s). split; [exact Ex|]. pose proof (quiet_noise N s x (g_quiet _ _ _ _ _ _ G) Hx) as Hq. destruct G, Hx as (_ & _ & Hv).
  split; try done. cbn [trace with_noise]. by rewrite Hv.
Qed.

(** A callback that leaves the handle as it is. *)
Lemma good_user N cf st h t s fuel c :
  good N cf st h t s -> (3 <= fuel)%nat -> (forall n, c <> Watch n) -> (forall r, scan_step (st, h) (Called c r) = Some (st, h)) ->
  exists r s', handler (exec NDEBUG response timer_ok fuel) (user response (exec NDEBUG response timer_ok fuel) c) s = Ok (r, s') /\ good N cf st h t s'.
Proof using Hsilent.
  intros G Hf Hc Hstep. destruct fuel as [|[|fuel]]; [lia|lia|]. destruct (handler_user_quiet N fuel c s) as (r & y & Ey & Hq & Hv); [apply G|done|].
  exists r, (with_noise y s). split; [exact Ey|]. destruct G. split; try done. cbn [trace with_noise]. rewrite Hv, scan_app, g_scan0. cbn [mbind option_bind]. apply Hstep.
Qed.

Lemma touch_good N cf st h t s : good N cf st h t s -> touch s = Ok s.
Proof. intros G. unfold touch. by rewrite (q_alive _ _ (g_quiet _ _ _ _ _ _ G)). Qed.

Lemma assert_good b s : b = true -> fr_assert NDEBUG b s = Ok s.
Proof. intros ->. unfold fr_assert. by rewrite orb_true_r. Qed.

Notation run_to f c s s' := (exec NDEBUG response timer_ok f c s = Ok s').

Lemma good_close N cf t s fuel :
  good N cf CONNECTION_STATE_CLOSED true t s -> (3 <= fuel)%nat ->
  exists s', ('(_, s) ← handler (exec NDEBUG response timer_ok fuel)
    (fun s => '(ret, s) ← user response (exec NDEBUG response timer_ok fuel) Close s; Ok (ret, s <| is_closed := true |>)) s; Ok s) = Ok s' /\
    good N cf CONNECTION_STATE_CLOSED false t s'.
Proof using Hsilent.
  intros G Hf. destruct fuel as [|[|fuel]]; [lia|lia|]. set (r := snd (response (calls s))).
  set (x := MkNoise (watch_pre s) (watch_post s) (S (calls s)) (trace s ++ [Called Close r]) (fd_event s) (deferred_freed s)).
  set (s1 := (with_noise x s) <| is_closed := true |>). assert (quiet N s1) as Hx by (destruct G as [[] ]; split; done).
  destruct (handler_end N fuel (fun s => '(ret, s) ← user response (exec NDEBUG response timer_ok (S (S fuel))) Close s; Ok (ret, s <| is_closed := true |>)) s r s1)
    as (y & Ey & Hy); [rewrite user_silent; reflexivity|apply G|exact Hx|].
  rewrite Ey. cbn [mbind outcome_bind]. eexists. split; [reflexivity|]. pose proof (quiet_noise N s1 y Hx Hy) as Hq. destruct Hy as (_ & _ & Hv). destruct G.
  split; try done. cbn [trace with_noise]. rewrite Hv. unfold s1, x. cbn [trace with_noise upd n_trace]. rewrite visible_app.
  change (visible [Called Close r]) with [Called Close r]. by rewrite scan_app, g_scan0.
Qed.

(** Runs one function up to its first watchers. *)
Ltac begin G f := destruct f as [|f]; [lia|]; rewrite exec_S; cbn [run];
  unfold connection_state_enter_closed, connection_state_enter_halted, connection_state_enter_init, connection_state_enter_connecting,
    connection_state_enter_connected, connection_state_enter_timeout, connection_state_enter_shutdown, connection_state_enter_failed;
  rewrite (touch_good _ _ _ _ _ _ G); cbn [mbind outcome_bind]; rewrite ?(g_state _ _ _ _ _ _ G).
Ltac advance G := rewrite ?(touch_good _ _ _ _ _ _ G); cbn [mbind outcome_bind].

Lemma enter_closed_good N cf st t s f :
  good N cf st true t s -> (st = CONNECTION_STATE_CONNECTING \/ st = CONNECTION_STATE_CONNECTED \/ st = CONNECTION_STATE_FAILED) -> (N + 4 <= f)%nat ->
  exists s', run_to f (Enter CONNECTION_STATE_CLOSED) s s' /\ good N cf CONNECTION_STATE_CLOSED false None s'.
Proof using Hsilent.
  intros G Hst Hf. begin G f.
  assert (good N cf CONNECTION_STATE_CLOSED true None (STATE_TRANSITION CONNECTION_STATE_CLOSED (s <| ev := None |>))) as G1.
  { apply good_transition with (st := st); [by eapply good_ev|]. by destruct Hst as [-> |[-> | ->]]. }
  destruct (good_watch _ _ _ _ _ _ f true G1) as (s1 & E1 & G2); [lia|]. destruct (good_close _ _ _ _ f G2) as (s2 & E2 & G3); [lia|].
  destruct (good_watch _ _ _ _ _ _ f false G3) as (s3 & E3 & G4); [lia|].
  exists s3. split; [|done]. destruct Hst as [-> |[-> | ->]]; rewrite E1; cbn [mbind outcome_bind]; advance G2;
    rewrite assert_good by (by rewrite (g_closed _ _ _ _ _ _ G2)); cbn [mbind outcome_bind]; rewrite (proj2 (g_init _ _ _ _ _ _ G2));
    rewrite (g_closed _ _ _ _ _ _ G2); cbn [negb andb]; rewrite E2; exact E3.
Qed.

Lemma enter_halted_good N cf st t s f :
  good N cf st false t s -> (st = CONNECTION_STATE_FAILED \/ st = CONNECTION_STATE_CLOSED) -> (N + 4 <= f)%nat ->
  exists s', run_to f (Enter CONNECTION_STATE_HALTED) s s' /\ good N cf CONNECTION_STATE_HALTED false None s'.
Proof using Hsilent.
  intros G Hst Hf. begin G f. rewrite assert_good by (by rewrite (g_closed _ _ _ _ _ _ G)). cbn [mbind outcome_bind]. rewrite (g_state _ _ _ _ _ _ G).
  assert (good N cf CONNECTION_STATE_HALTED false None (STATE_TRANSITION CONNECTION_STATE_HALTED (s <| ev := None |>))) as G1.
  { apply good_transition with (st := st); [by eapply good_ev|]. by destruct Hst as [-> | ->]. }
  destruct (good_watch _ _ _ _ _ _ f true G1) as (s1 & E1 & G2); [lia|]. destruct (good_watch _ _ _ _ _ _ f false G2) as (s2 & E2 & G3); [lia|].
  exists s2. split; [|done]. destruct Hst as [-> | ->]; rewrite E1; exact E2.
Qed.

Lemma good_timer N cf st h t s tm :
  good N cf st h t s -> exists s', fr_timer_in timer_ok tm s = (timer_ok (timers s), s') /\ good N cf st h (if timer_ok (timers s) then Some tm else t) s'.
Proof.
  intros G. unfold fr_timer_in. destruct (timer_ok (timers s)); eexists; (split; [reflexivity|]); destruct G as [[] ]; split; try done; split; done.
Qed.

(** [connection_state_enter_failed], up to where the handle is closed. *)
Lemma enter_failed_start N cf was h t s f :
  good N cf was h t s -> edge was CONNECTION_STATE_FAILED = true -> h = negb (bool_decide (was = CONNECTION_STATE_INIT)) -> (N + 4 <= f)%nat ->
  exists ret s', good N cf (if h then CONNECTION_STATE_CLOSED else CONNECTION_STATE_FAILED) false None s' /\
    exec NDEBUG response timer_ok (S f) (Enter CONNECTION_STATE_FAILED) s =
    if c_failed cf && negb (bool_decide (ret = CONNECTION_STATE_INIT)) then exec NDEBUG response timer_ok f (Enter CONNECTION_STATE_HALTED) s'
    else after_failed NDEBUG timer_ok (exec NDEBUG response timer_ok f) was s'.
Proof using Hsilent.
  intros G Hedge Hh Hf. rewrite exec_S. cbn [run]. unfold connection_state_enter_failed. rewrite (touch_good _ _ _ _ _ _ G). cbn [mbind outcome_bind].
  rewrite (g_state _ _ _ _ _ _ G), assert_good by (by destruct was). cbn [mbind outcome_bind].
  assert (good N cf CONNECTION_STATE_FAILED h None (STATE_TRANSITION CONNECTION_STATE_FAILED (s <| ev := None |>))) as G1 by (apply good_transition with (st := was); [by eapply good_ev|done]).
  destruct (good_watch _ _ _ _ _ _ f true G1) as (s1 & E1 & G2); [lia|]. rewrite (g_state _ _ _ _ _ _ G), E1. cbn [mbind outcome_bind]. advance G2.
  assert (has_failed s1 = c_failed cf) as Hcf by (by rewrite <- (g_conf _ _ _ _ _ _ G2)). rewrite Hcf.
  assert (exists ret s2, (if c_failed cf then handler (exec NDEBUG response timer_ok f) (user response (exec NDEBUG response timer_ok f) Failed) s1
            else Ok (CONNECTION_STATE_INIT, s1)) = Ok (ret, s2) /\ good N cf CONNECTION_STATE_FAILED h None s2) as (ret & s2 & E2 & G3).
  { destruct (c_failed cf); [|by eexists _, _]. apply (good_user N); [done|lia|done|done]. }
  rewrite E2. cbn [mbind outcome_bind]. destruct (good_watch _ _ _ _ _ _ f false G3) as (s3 & E3 & G4); [lia|]. rewrite E3. cbn [mbind outcome_bind].
  assert (exists s4, match was with
      | CONNECTION_STATE_CONNECTED | CONNECTION_STATE_CONNECTING | CONNECTION_STATE_TIMEOUT | CONNECTION_STATE_SHUTDOWN =>
          exec NDEBUG response timer_ok f (Enter CONNECTION_STATE_CLOSED) s3
      | _ => Ok s3 end = Ok s4 /\ good N cf (if h then CONNECTION_STATE_CLOSED else CONNECTION_STATE_FAILED) false None s4) as (s4 & E4 & G5).
  { subst h. destruct was; try done; try (apply (enter_closed_good N cf _ _ _ _ G4); [tauto|lia]). by eexists. }
  rewrite E4. cbn [mbind outcome_bind]. advance G5. exists ret, s4. split; [done|].
  replace (has_failed s4) with (c_failed cf) by (by rewrite <- (g_conf _ _ _ _ _ _ G5)). reflexivity.
Qed.

Definition timeout_timer (cf : conf) : option timer := if 0 <? c_timeout cf then Some connection_timed_out else None.

(** The connection waits for something from outside. *)
Definition at_rest (cf : conf) (st : connection_state_t) (h : bool) (t : option timer) : Prop :=
  match st with
  | CONNECTION_STATE_HALTED => h = false /\ t = None
  | CONNECTION_STATE_CONNECTING | CONNECTION_STATE_SHUTDOWN => h = true /\ t = timeout_timer cf
  | CONNECTION_STATE_CONNECTED => h = true /\ t = None
  | CONNECTION_STATE_CLOSED => h = false /\ (t = None \/ t = Some reconnect_delay_done)
  | CONNECTION_STATE_FAILED => h = false /\ t = Some reconnect_delay_done
  | CONNECTION_STATE_INIT | CONNECTION_STATE_TIMEOUT => False
  end.
Definition settled (N : nat) (cf : conf) (s : connection_t) : Prop := exists st h t, good N cf st h t s /\ at_rest cf st h t.

Lemma halted_settled N cf s : good N cf CONNECTION_STATE_HALTED false None s -> settled N cf s.
Proof. intros G. by exists CONNECTION_STATE_HALTED, false, None. Qed.

Lemma enter_failed_good N cf was h t s f :
  good N cf was h t s -> edge was CONNECTION_STATE_FAILED = true -> h = negb (bool_decide (was = CONNECTION_STATE_INIT)) ->
  was <> CONNECTION_STATE_TIMEOUT -> (N + 5 <= f)%nat ->
  exists s', run_to f (Enter CONNECTION_STATE_FAILED) s s' /\ settled N cf s'.
Proof using Hsilent.
  intros G Hedge Hh Hne Hf. destruct f as [|f]; [lia|]. destruct (enter_failed_start N cf was h t s f G Hedge Hh) as (ret & s1 & G1 & ->); [lia|].
  set (st := if h then CONNECTION_STATE_CLOSED else CONNECTION_STATE_FAILED) in *.
  assert (exists s', run_to f (Enter CONNECTION_STATE_HALTED) s1 s' /\ settled N cf s') as Hhalt.
  { destruct (enter_halted_good N cf st None s1 f G1) as (s' & E & G'); [destruct h; tauto|lia|]. exists s'. split; [done|]. by apply halted_settled. }
  destruct (c_failed cf && _); [done|]. unfold after_failed. advance G1.
  assert (reconnection_delay s1 = c_delay cf) as Hd by (by rewrite <- (g_conf _ _ _ _ _ _ G1)). rewrite Hd.
  assert (exists s', (if 0 <? c_delay cf then let '(ok, s) := fr_timer_in timer_ok reconnect_delay_done s1 in if ok then Ok s else exec NDEBUG response timer_ok f (Enter CONNECTION_STATE_HALTED) s
     else exec NDEBUG response timer_ok f (Enter CONNECTION_STATE_HALTED) s1) = Ok s' /\ settled N cf s') as Hend.
  { destruct (0 <? c_delay cf); [|done]. destruct (good_timer _ _ _ _ _ _ reconnect_delay_done G1) as (s2 & -> & G2). destruct (timer_ok (timers s1)).
    - exists s2. split; [done|]. exists st, false, (Some reconnect_delay_done). split; [done|]. unfold st. destruct h; cbn; tauto.
    - destruct (enter_halted_good N cf st None s2 f G2) as (s' & E & G'); [unfold st; destruct h; tauto|lia|]. exists s'. split; [done|]. by apply halted_settled. }
  destruct was; try done.
Qed.

Lemma enter_connecting_good N cf s f :
  good N cf CONNECTION_STATE_INIT true None s -> (N + 6 <= f)%nat ->
  exists s', run_to f (Enter CONNECTION_STATE_CONNECTING) s s' /\ settled N cf s'.
Proof using Hsilent.
  intros G Hf. begin G f. pose proof (good_transition _ _ _ _ _ _ CONNECTION_STATE_CONNECTING G eq_refl) as G1.
  destruct (good_watch _ _ _ _ _ _ f true G1) as (s1 & -> & G2); [lia|]. cbn [mbind outcome_bind].
  destruct (good_watch _ _ _ _ _ _ f false G2) as (s2 & -> & G3); [lia|]. cbn [mbind outcome_bind]. advance G3.
  replace (connection_timeout s2) with (c_timeout cf) by (by rewrite <- (g_conf _ _ _ _ _ _ G3)).
  destruct (0 <? c_timeout cf) eqn:E.
  - destruct (good_timer _ _ _ _ _ _ connection_timed_out G3) as (s3 & -> & G4). destruct (timer_ok (timers s2)).
    + exists s3. split; [done|]. exists CONNECTION_STATE_CONNECTING, true, (Some connection_timed_out). split; [done|]. cbn. unfold timeout_timer. by rewrite E.
    + apply (enter_failed_good N cf CONNECTION_STATE_CONNECTING true None); [done|done|done|done|lia].
  - exists s2. split; [done|]. exists CONNECTION_STATE_CONNECTING, true, None. split; [done|]. cbn. unfold timeout_timer. by rewrite E.
Qed.

Lemma enter_connected_good N cf st t s f :
  good N cf st true t s -> (st = CONNECTION_STATE_CONNECTING \/ st = CONNECTION_STATE_INIT) -> (N + 6 <= f)%nat ->
  exists s', run_to f (Enter CONNECTION_STATE_CONNECTED) s s' /\ settled N cf s'.
Proof using Hsilent.
  intros G Hst Hf. begin G f. rewrite assert_good by (by apply bool_decide_true). cbn [mbind outcome_bind].
  assert (good N cf CONNECTION_STATE_CONNECTED true None (STATE_TRANSITION CONNECTION_STATE_CONNECTED (s <| ev := None |>))) as G1.
  { apply good_transition with (st := st); [by eapply good_ev|]. by destruct Hst as [-> | ->]. }
  destruct (good_watch _ _ _ _ _ _ f true G1) as (s1 & -> & G2); [lia|]. cbn [mbind outcome_bind]. advance G2.
  replace (has_open s1) with (c_open cf) by (by rewrite <- (g_conf _ _ _ _ _ _ G2)).
  assert (exists ret s2, (if c_open cf then handler (exec NDEBUG response timer_ok f) (user response (exec NDEBUG response timer_ok f) Open) s1
            else Ok (CONNECTION_STATE_CONNECTED, s1)) = Ok (ret, s2) /\ good N cf CONNECTION_STATE_CONNECTED true None s2) as (ret & s2 & -> & G3).
  { destruct (c_open cf); [|by eexists _, _]. apply (good_user N); [done|lia|done|done]. }
  cbn [mbind outcome_bind]. destruct (decide (ret = CONNECTION_STATE_CONNECTED)).
  - destruct (good_watch _ _ _ _ _ _ f false G3) as (s3 & -> & G4); [lia|]. exists s3. split; [done|]. by exists CONNECTION_STATE_CONNECTED, true, None.
  - apply (enter_failed_good N cf CONNECTION_STATE_CONNECTED true None); [done|done|done|done|lia].
Qed.

(** The callback that makes the handle. *)
Lemma good_init N cf t s fuel :
  good N cf CONNECTION_STATE_INIT false t s -> (3 <= fuel)%nat ->
  exists r s', handler (exec NDEBUG response timer_ok fuel) (user response (exec NDEBUG response timer_ok fuel) Init) s = Ok (r, s') /\
    if opens r then good N cf CONNECTION_STATE_INIT true t (s' <| is_closed := false |>) /\ touch s' = Ok s' else good N cf CONNECTION_STATE_INIT false t s'.
Proof using Hsilent.
  intros G Hf. destruct fuel as [|[|fuel]]; [lia|lia|]. destruct (handler_user_quiet N fuel Init s) as (r & y & Ey & Hq & Hv); [apply G|done|].
  exists r, (with_noise y s). split; [exact Ey|].
  assert (scan (visible (n_trace y)) = Some (CONNECTION_STATE_INIT, opens r)) as Hs by (by rewrite Hv, scan_app, (g_scan _ _ _ _ _ _ G)).
  destruct G, Hq. destruct (opens r); [|by split].
  split; [split; try done; split; done|]. unfold touch. by rewrite q_alive0.
Qed.

Lemma enter_init_good N cf st s f :
  good N cf st false None s -> edge st CONNECTION_STATE_INIT = true -> (N + 7 <= f)%nat ->
  exists s', run_to f (Enter CONNECTION_STATE_INIT) s s' /\ settled N cf s'.
Proof using Hsilent.
  intros G Hst Hf. begin G f. set (s0 := s <| reconnected := u64 (reconnected s + 1) |>).
  assert (good N cf st false None s0) as G0 by (destruct G as [[] ]; split; try done; split; done).
  pose proof (good_transition _ _ _ _ _ _ CONNECTION_STATE_INIT G0 Hst) as G1.
  destruct (good_watch _ _ _ _ _ _ f true G1) as (s1 & E1 & G2); [lia|]. destruct (good_init _ _ _ _ f G2) as (r & s2 & E2 & G3); [lia|].
  assert (exists s', match r with
      | CONNECTION_STATE_CONNECTING | CONNECTION_STATE_CONNECTED =>
          s ← touch s2; s ← WATCH (exec NDEBUG response timer_ok f) false (s <| is_closed := false |>); exec NDEBUG response timer_ok f (Enter r) s
      | _ => exec NDEBUG response timer_ok f (Enter CONNECTION_STATE_FAILED) s2 end = Ok s' /\ settled N cf s') as (s' & E' & H').
  { destruct (opens r) eqn:Hr.
    - destruct G3 as [G3 Ht]. destruct (good_watch _ _ _ _ _ _ f false G3) as (s3 & E3 & G4); [lia|]. unfold opens in Hr. apply bool_decide_eq_true_1 in Hr as [-> | ->];
        rewrite Ht; cbn [mbind outcome_bind]; rewrite E3; cbn [mbind outcome_bind].
      + apply enter_connecting_good; [done|lia].
      + apply (enter_connected_good N cf CONNECTION_STATE_INIT None); [done|tauto|lia].
    - unfold opens in Hr. apply bool_decide_eq_false_1 in Hr.
      destruct (enter_failed_good N cf CONNECTION_STATE_INIT false None s2 f) as (s' & E' & H'); [done|done|done|done|lia|].
      exists s'. split; [|done]. destruct r; try done; exfalso; tauto. }
  exists s'. split; [|done]. destruct st; try done; rewrite E1; cbn [mbind outcome_bind]; advance G2; rewrite (proj1 (g_init _ _ _ _ _ _ G2)), E2; exact E'.
Qed.

Lemma enter_timeout_good N cf st t s f :
  good N cf st true t s -> (st = CONNECTION_STATE_CONNECTING \/ st = CONNECTION_STATE_SHUTDOWN) -> (N + 9 <= f)%nat ->
  exists s', run_to f (Enter CONNECTION_STATE_TIMEOUT) s s' /\ settled N cf s'.
Proof using Hsilent.
  intros G Hst Hf. begin G f.
  assert (good N cf CONNECTION_STATE_TIMEOUT true t (STATE_TRANSITION CONNECTION_STATE_TIMEOUT s)) as G1 by (apply good_transition with (st := st); [done|]; by destruct Hst as [-> | ->]).
  set (s1 := (STATE_TRANSITION CONNECTION_STATE_TIMEOUT s) <| timed_out := u64 (timed_out (STATE_TRANSITION CONNECTION_STATE_TIMEOUT s) + 1) |>).
  assert (good N cf CONNECTION_STATE_TIMEOUT true t s1) as G2 by (destruct G1 as [[] ]; split; try done; split; done).
  destruct f as [|f]; [lia|]. destruct (enter_failed_start N cf CONNECTION_STATE_TIMEOUT true t s1 f G2 eq_refl eq_refl) as (ret & s2 & G3 & E3); [lia|].
  assert (exists s', run_to (S f) (Enter CONNECTION_STATE_FAILED) s1 s' /\ settled N cf s') as (s' & E' & H').
  { rewrite E3. destruct (c_failed cf && _).
    - destruct (enter_halted_good N cf CONNECTION_STATE_CLOSED None s2 f G3) as (s' & E & G'); [tauto|lia|]. exists s'. split; [done|]. by apply halted_settled.
    - unfold after_failed. advance G3. apply (enter_init_good N cf CONNECTION_STATE_CLOSED); [done|done|lia]. }
  exists s'. split; [|done]. destruct Hst as [-> | ->]; exact E'.
Qed.

(** Where the timer of the shutdown can be inserted. *)
Lemma enter_shutdown_good N cf s f :
  (forall n, timer_ok n = true) -> good N cf CONNECTION_STATE_CONNECTED true None s -> (N + 6 <= f)%nat ->
  exists s', run_to f (Enter CONNECTION_STATE_SHUTDOWN) s s' /\ settled N cf s'.
Proof using Hsilent.
  intros Hok G Hf. begin G f. pose proof (good_transition _ _ _ _ _ _ CONNECTION_STATE_SHUTDOWN G eq_refl) as G1.
  destruct (good_watch _ _ _ _ _ _ f true G1) as (s1 & -> & G2); [lia|]. cbn [mbind outcome_bind]. advance G2.
  destruct (good_user _ _ _ _ _ _ f Shutdown G2) as (ret & s2 & -> & G3); [lia|done|done|]. cbn [mbind outcome_bind].
  destruct (decide (ret = CONNECTION_STATE_SHUTDOWN)).
  - destruct (good_watch _ _ _ _ _ _ f false G3) as (s3 & -> & G4); [lia|]. cbn [mbind outcome_bind]. advance G4.
    replace (connection_timeout s3) with (c_timeout cf) by (by rewrite <- (g_conf _ _ _ _ _ _ G4)). destruct (0 <? c_timeout cf) eqn:E.
    + destruct (good_timer _ _ _ _ _ _ connection_timed_out G4) as (s4 & -> & G5). rewrite Hok in *. exists s4. split; [done|].
      exists CONNECTION_STATE_SHUTDOWN, true, (Some connection_timed_out). split; [done|]. cbn. unfold timeout_timer. by rewrite E.
    + exists s3. split; [done|]. exists CONNECTION_STATE_SHUTDOWN, true, None. split; [done|]. cbn. unfold timeout_timer. by rewrite E.
  - apply (enter_failed_good N cf CONNECTION_STATE_SHUTDOWN true None); [done|done|done|done|lia].
Qed.

(** *** The interface *)

(** What has to be given for the lists of watchers to be replaced. *)
Lemma good_relist N M cf st h t s s' :
  good N cf st h t s -> watch_ok (on_halted s') (next_addr s') (lists s') -> (forall pre q, length (lists s' pre q) <= M)%nat ->
  s' = s <| watch_pre := watch_pre s' |> <| watch_post := watch_post s' |> <| next_addr := next_addr s' |> <| fd_event := fd_event s' |> -> good M cf st h t s'.
Proof. intros [[] ] Hw HM E. rewrite E in *. by split. Qed.

Lemma good_mono N M cf st h t s : good N cf st h t s -> (N <= M)%nat -> good M cf st h t s.
Proof. intros [[] ] ?. split; try done. split; try done. intros pre st'. specialize (q_bound0 pre st'). lia. Qed.

Lemma settled_mono N M cf s : settled N cf s -> (N <= M)%nat -> settled M cf s.
Proof. intros (st & h & t & G & R) ?. exists st, h, t. split; [by eapply good_mono|done]. Qed.

Lemma add_watch_good N cf st h t s pre q w once :
  good N cf st h t s -> w <> on_halted_func -> (w = cleanup_func -> pre = true /\ (q = CONNECTION_STATE_CLOSED \/ q = CONNECTION_STATE_CONNECTED)) ->
  good (S N) cf st h t (connection_add_watch pre q w once s).
Proof.
  intros G Hw Hc. pose (e := MkEntry (next_addr s) w once true).
  assert (forall p' q', lists (connection_add_watch pre q w once s) p' q' = if decide (p' = pre /\ q' = q) then lists s pre q ++ [e] else lists s p' q') as Hl.
  { intros p' q'. etransitivity; [apply lists_set_watchers|]. case_decide; [by destruct pre|by destruct p']. }
  apply (good_relist N (S N) _ _ _ _ s); [done| | |].
  - replace (on_halted (connection_add_watch pre q w once s)) with (on_halted s) by (by destruct pre).
    replace (next_addr (connection_add_watch pre q w once s)) with (S (next_addr s)) by (by destruct pre).
    apply (watch_ok_add _ _ (lists s) _ pre q e); [apply G|done|done|done|done].
  - intros p' q'. rewrite Hl. pose proof (q_bound _ _ (g_quiet _ _ _ _ _ _ G)) as HN. case_decide.
    + rewrite length_app. specialize (HN pre q). cbn. lia.
    + specialize (HN p' q'). lia.
  - by destruct s, pre.
Qed.

Lemma del_watch_good N cf st h t s pre q n : good N cf st h t s -> good N cf st h t (connection_del_watch pre q (user_watch n) s).
Proof.
  intros G. unfold connection_del_watch. destruct (find _ _) as [e|] eqn:E; [|done].
  apply find_some in E as [Hi%list_elem_of_In Hf]. case_bool_decide as Hf'; [|done].
  pose proof (q_watch _ _ (g_quiet _ _ _ _ _ _ G)) as Hok. rewrite (q_next _ _ (g_quiet _ _ _ _ _ _ G)).
  apply list_elem_of_split in Hi as Hi'. destruct Hi' as (l1 & l2 & Hl). pose proof (ok_nodup _ _ _ Hok pre q) as Hn. unfold lists in Hn. rewrite Hl in Hn |- *.
  rewrite remove_split by done. rewrite bool_decide_false by done. cbn [fst snd].
  assert (forall p' q', lists (set_watchers pre q (l1 ++ l2) s) p' q' `sublist_of` lists s p' q') as Hsub.
  { intros p' q'. rewrite lists_set_watchers. case_decide as Hd; [|done]. destruct Hd as [-> ->]. unfold lists. rewrite Hl. apply sublist_remove. }
  apply (good_relist N N _ _ _ _ s); [done| | |].
  - replace (on_halted (set_watchers pre q (l1 ++ l2) s)) with (on_halted s) by (by destruct pre).
    replace (next_addr (set_watchers pre q (l1 ++ l2) s)) with (next_addr s) by (by destruct pre).
    apply (watch_ok_sublist _ _ (lists s)); [done|done|]. destruct (ok_halted _ _ _ Hok) as (eh & Heh & Hah). exists eh. split; [|done].
    rewrite lists_set_watchers. case_decide as Hd; [|done]. destruct Hd as [<- <-]. unfold lists in Heh. rewrite Hl in Heh.
    apply elem_of_app in Heh as [Heh|[-> |Heh]%list.elem_of_cons]; apply elem_of_app; [by left| |by right].
    exfalso. destruct (ok_disabled _ _ _ Hok false CONNECTION_STATE_HALTED e Hi Hah). congruence.
  - intros p' q'. etransitivity; [by apply sublist_length, Hsub|]. apply G.
  - by destruct s, pre.
Qed.

Lemma enable_watch_good N cf st h t s a b :
  good N cf st h t s -> is_entry a s = true -> a <> on_halted s -> exists s', connection_watch_enable a b s = Ok s' /\ good N cf st h t s'.
Proof.
  intros G He Ha. unfold connection_watch_enable. rewrite He. eexists. split; [reflexivity|].
  assert (forall p q, lists (s <| watch_pre := fun st => set_enabled a b (watch_pre s st) |> <| watch_post := fun st => set_enabled a b (watch_post s st) |>) p q
          = set_enabled a b (lists s p q)) as Hl by (by intros [] q).
  apply (good_relist N N _ _ _ _ s); [done| | |].
  - apply (watch_ok_enable _ _ (lists s) _ a b); [apply G|done|exact Hl].
  - intros p q. rewrite Hl. unfold set_enabled. rewrite length_map. apply G.
  - by destruct s.
Qed.

Lemma defer_good N cf st h t s : good N cf st h t s -> DEFER_SIGNALS s = false.
Proof. intros [[] ]. unfold DEFER_SIGNALS. by rewrite q_handler0, q_pause0. Qed.

(** To CLOSED, then to HALTED. *)
Lemma close_halt_good N cf st t s f :
  good N cf st true t s -> (st = CONNECTION_STATE_CONNECTING \/ st = CONNECTION_STATE_CONNECTED \/ st = CONNECTION_STATE_FAILED) -> (N + 4 <= f)%nat ->
  exists s1 s2, run_to f (Enter CONNECTION_STATE_CLOSED) s s1 /\ touch s1 = Ok s1 /\ is_closed s1 = true /\
    run_to f (Enter CONNECTION_STATE_HALTED) s1 s2 /\ good N cf CONNECTION_STATE_HALTED false None s2.
Proof using Hsilent.
  intros G Hst Hf. destruct (enter_closed_good _ _ _ _ _ f G Hst Hf) as (s1 & E1 & G1).
  destruct (enter_halted_good _ _ _ _ _ f G1) as (s2 & E2 & G2); [tauto|lia|].
  exists s1, s2. by rewrite (touch_good _ _ _ _ _ _ G1), (g_closed _ _ _ _ _ _ G1).
Qed.

Lemma stay N cf st h t s : good N cf st h t s -> at_rest cf st h t -> exists s', Ok s = Ok s' /\ settled N cf s'.
Proof. intros. exists s. split; [done|]. by exists st, h, t. Qed.

Ltac signalled G f := destruct f as [|f]; [lia|]; rewrite exec_S; cbn [run]; unfold perform; advance G; cbn [connection_signal];
  unfold connection_signal_init, connection_signal_connected, connection_signal_reconnect, connection_signal_shutdown, connection_signal_halt;
  rewrite ?(defer_good _ _ _ _ _ _ G), ?(g_state _ _ _ _ _ _ G).

Lemma signal_init_good N cf st h t s f :
  good N cf st h t s -> at_rest cf st h t -> (N + 8 <= f)%nat -> exists s', run_to f (Do (Signal Sinit)) s s' /\ settled N cf s'.
Proof using Hsilent.
  intros G R Hf. signalled G f. destruct st; try (by eapply stay). destruct R as [-> ->]. apply (enter_init_good N cf CONNECTION_STATE_HALTED); [done|done|lia].
Qed.

Lemma signal_connected_good N cf st h t s f :
  good N cf st h t s -> at_rest cf st h t -> c_open cf = false -> (N + 8 <= f)%nat -> exists s', run_to f (Do (Signal Sconnected)) s s' /\ settled N cf s'.
Proof using Hsilent.
  intros G R Ho Hf. signalled G f. replace (has_open s) with false by (by rewrite <- Ho, <- (g_conf _ _ _ _ _ _ G)). rewrite assert_good by done. cbn [mbind outcome_bind].
  rewrite (defer_good _ _ _ _ _ _ G), (g_state _ _ _ _ _ _ G).
  destruct st; try (by eapply stay). destruct R as [-> ->]. eapply enter_connected_good; [done|tauto|lia].
Qed.

Lemma closed_settled N cf s : good N cf CONNECTION_STATE_CLOSED false None s -> settled N cf s.
Proof. intros G. exists CONNECTION_STATE_CLOSED, false, None. split; [done|]. cbn. auto. Qed.

Lemma signal_reconnect_good N cf st h t s f reason :
  (c_shutdown cf = true -> forall n, timer_ok n = true) ->
  good N cf st h t s -> at_rest cf st h t -> st <> CONNECTION_STATE_FAILED -> (N + 9 <= f)%nat ->
  exists s', run_to f (Do (Signal (Sreconnect reason))) s s' /\ settled N cf s'.
Proof using Hsilent.
  intros Hok G R Hst Hf. signalled G f.
  destruct st; try (by eapply stay); try done.
  - apply (signal_init_good N cf CONNECTION_STATE_HALTED h t); [done|done|lia].
  - destruct R as [-> ->]. apply (enter_failed_good N cf CONNECTION_STATE_CONNECTING true (timeout_timer cf)); [done|done|done|done|lia].
  - destruct R as [-> ->]. case_decide; [|apply (enter_failed_good N cf CONNECTION_STATE_CONNECTED true None); [done|done|done|done|lia]].
    replace (has_shutdown s) with (c_shutdown cf) by (by rewrite <- (g_conf _ _ _ _ _ _ G)). destruct (c_shutdown cf).
    + apply enter_shutdown_good; [auto|done|lia].
    + destruct (enter_closed_good _ _ _ _ _ f G) as (s' & E & G'); [tauto|lia|]. exists s'. split; [done|]. by apply closed_settled.
  - case_decide; [by eapply stay|]. destruct R as [-> ->].
    apply (enter_failed_good N cf CONNECTION_STATE_SHUTDOWN true (timeout_timer cf)); [done|done|done|done|lia].
Qed.

Lemma signal_shutdown_good N cf st h t s f :
  (c_shutdown cf = true -> forall n, timer_ok n = true) ->
  good N cf st h t s -> at_rest cf st h t -> st <> CONNECTION_STATE_FAILED -> (N + 9 <= f)%nat ->
  exists s', run_to f (Do (Signal Sshutdown)) s s' /\ settled N cf s'.
Proof using Hsilent.
  intros Hok G R Hst Hf. signalled G f.
  assert (h = true -> (st = CONNECTION_STATE_CONNECTING \/ st = CONNECTION_STATE_CONNECTED) -> exists s',
     (s ← exec NDEBUG response timer_ok f (Enter CONNECTION_STATE_CLOSED) s; s ← touch s; s ← fr_assert NDEBUG (is_closed s) s; exec NDEBUG response timer_ok f (Enter CONNECTION_STATE_HALTED) s)
      = Ok s' /\ settled N cf s') as Hch.
  { intros -> Hs. destruct (close_halt_good _ _ _ _ _ f G) as (s1 & s2 & -> & Ht & Hc & E2 & G2); [tauto|lia|]. cbn [mbind outcome_bind].
    rewrite Ht. cbn [mbind outcome_bind]. rewrite assert_good by done. cbn [mbind outcome_bind]. exists s2. split; [done|]. by apply halted_settled. }
  destruct st; try (by eapply stay); try done.
  - destruct R as [-> ->]. by apply Hch; [|left].
  - destruct R as [-> ->]. replace (has_shutdown s) with (c_shutdown cf) by (by rewrite <- (g_conf _ _ _ _ _ _ G)). destruct (c_shutdown cf).
    + apply enter_shutdown_good; [auto|done|lia].
    + by apply Hch; [|right].
  - destruct R as [-> _]. destruct (enter_halted_good _ _ _ _ _ f G) as (s' & E & G'); [tauto|lia|]. exists s'. split; [done|]. by apply halted_settled.
Qed.

Lemma signal_halt_good N cf st h t s f :
  good N cf st h t s -> at_rest cf st h t -> st <> CONNECTION_STATE_SHUTDOWN -> (N + 9 <= f)%nat ->
  exists s', run_to f (Do (Signal Shalt)) s s' /\ settled N cf s' /\ state s' = CONNECTION_STATE_HALTED.
Proof using Hsilent.
  intros G R Hst Hf. signalled G f. rewrite (g_closed _ _ _ _ _ _ G).
  assert (forall s', good N cf CONNECTION_STATE_HALTED false None s' -> settled N cf s' /\ state s' = CONNECTION_STATE_HALTED) as Hd
    by (intros s' G'; split; [by apply halted_settled|apply G']).
  destruct st; try done; destruct R as [-> HR]; cbn [negb].
  1: exists s; split; [done|]; apply Hd; by rewrite HR in G.
  3: { destruct (enter_halted_good _ _ _ _ _ f G) as (s' & E & G'); [tauto|lia|]. cbn [mbind outcome_bind]. advance G. rewrite assert_good by (by rewrite (g_closed _ _ _ _ _ _ G)). eauto. }
  3: { destruct (enter_halted_good _ _ _ _ _ f G) as (s' & E & G'); [tauto|lia|]. eauto. }
  all: destruct (close_halt_good _ _ _ _ _ f G) as (s1 & s2 & -> & Ht & Hc & E2 & G2); [tauto|lia|]; cbn [mbind outcome_bind];
    rewrite Ht; cbn [mbind outcome_bind]; rewrite assert_good by done; cbn [mbind outcome_bind]; eauto.
Qed.

(** What may be asked of a connection at rest: [connection_signal_connected] where
    there is no callback to do it, the descriptor while it connects, a reconnection
    or a shutdown unless it waits in FAILED, a halt unless it shuts down, and any
    watchers of the user's. *)
Definition allowed (s : connection_t) (i : input) : bool :=
  match i with
  | Api (Signal Sinit) | TimerExpired => true
  | Api (Signal Sconnected) => negb (has_open s)
  | Api (Signal (Sreconnect _)) | Api (Signal Sshutdown) => bool_decide (state s <> CONNECTION_STATE_FAILED)
  | Api (Signal Shalt) => bool_decide (state s <> CONNECTION_STATE_SHUTDOWN)
  | Api (AddWatch _ _ (user_watch _) _) | Api (DelWatch _ _ (user_watch _)) => true
  | Api (EnableWatch a _) => is_entry a s && negb (a =? on_halted s)%nat
  | Api (OnFd _) | Writable | Errored => bool_decide (state s = CONNECTION_STATE_CONNECTING)
  | Api _ => false
  end.

Lemma keep N cf st h t s : good N cf st h t s -> at_rest cf st h t -> settled N cf s.
Proof. intros. by exists st, h, t. Qed.

Lemma watches_step N cf st h t s i f :
  good N cf st h t s -> at_rest cf st h t -> (N + 9 <= f)%nat -> allowed s i = true ->
  match i with Api (AddWatch _ _ _ _ | DelWatch _ _ _ | EnableWatch _ _ | OnFd _) => True | _ => False end ->
  exists s', step NDEBUG response timer_ok f i s = Ok s' /\ settled (S (S N)) cf s'.
Proof using Hsilent.
  intros G R Hf Ha Hi. pose proof (good_mono _ (S N) _ _ _ _ _ G ltac:(lia)) as G'. destruct f as [|f]; [lia|].
  destruct i as [[sg| | | |pre q w once|pre q w|a b|[] ]| | |]; try done; cbn [step]; rewrite exec_S; cbn [run]; unfold perform; advance G.
  - destruct w as [| |n]; try done. eexists. split; [done|]. apply (keep _ _ st h t); [|done]. by apply add_watch_good.
  - destruct w as [| |n]; try done. eexists. split; [done|]. apply (keep _ _ st h t); [|done]. apply (good_mono N); [|lia]. by apply del_watch_good.
  - apply andb_true_iff in Ha as [He Hne]. apply negb_true_iff, Nat.eqb_neq in Hne.
    destruct (enable_watch_good N cf st h t s a b) as (s' & E & Gs); [done|done|done|]. exists s'. split; [exact E|]. apply (keep _ _ st h t); [|done]. apply (good_mono N); [done|lia].
  - eexists. split; [reflexivity|]. apply (keep _ _ st h t); [|done]. apply add_watch_good; [|done|tauto]. apply add_watch_good; [|done|tauto].
    destruct G as [[] ]. split; try done; split; done.
  - cbn in Ha. apply bool_decide_eq_true_1 in Ha. rewrite (g_state _ _ _ _ _ _ G) in Ha. subst st. destruct R as [-> ->].
    destruct (enter_failed_good N cf CONNECTION_STATE_CONNECTING true (timeout_timer cf) s f) as (s' & E & H); [done|done|done|done|lia|].
    exists s'. split; [exact E|]. by apply (settled_mono N); [|lia].
Qed.

Lemma signal_step N cf st h t s sg f :
  (c_shutdown cf = true -> forall n, timer_ok n = true) ->
  good N cf st h t s -> at_rest cf st h t -> (N + 9 <= f)%nat -> allowed s (Api (Signal sg)) = true ->
  exists s', step NDEBUG response timer_ok f (Api (Signal sg)) s = Ok s' /\ settled N cf s'.
Proof using Hsilent.
  intros Hok G R Hf Ha. cbn [step]. cbn in Ha. rewrite (g_state _ _ _ _ _ _ G) in Ha. destruct sg; try apply bool_decide_eq_true_1 in Ha.
  - apply (signal_init_good N cf st h t); [done|done|lia].
  - apply (signal_connected_good N cf st h t); [done|done| |lia]. rewrite <- (g_conf _ _ _ _ _ _ G). by apply negb_true_iff in Ha.
  - by apply (signal_reconnect_good N cf st h t).
  - by apply (signal_shutdown_good N cf st h t).
  - destruct (signal_halt_good N cf st h t s f) as (s' & E & H & _); eauto.
Qed.

Lemma event_step N cf st h t s i f :
  good N cf st h t s -> at_rest cf st h t -> (N + 9 <= f)%nat -> allowed s i = true -> match i with Api _ => False | _ => True end ->
  exists s', step NDEBUG response timer_ok f i s = Ok s' /\ settled N cf s'.
Proof using Hsilent.
  intros G R Hf Ha Hi. destruct i as [a| | |]; [done| | |]; cbn [step].
  - rewrite (g_ev _ _ _ _ _ _ G). destruct t as [[] |]; [| |by eapply stay]; pose proof (good_ev _ _ _ _ _ _ None G) as G0.
    + assert (h = false /\ (st = CONNECTION_STATE_FAILED \/ st = CONNECTION_STATE_CLOSED)) as [-> Hst].
      { destruct st; cbn in R; unfold timeout_timer in R; try destruct (0 <? c_timeout cf); intuition congruence. }
      destruct (enter_init_good N cf st _ f G0) as (s' & E & H); [by destruct Hst as [-> | ->]|lia|]. exists s'. split; [|done].
      unfold _reconnect_delay_done. rewrite (g_state _ _ _ _ _ _ G0). by destruct Hst as [-> | ->].
    + assert (h = true /\ (st = CONNECTION_STATE_CONNECTING \/ st = CONNECTION_STATE_SHUTDOWN)) as [-> Hst].
      { destruct st; cbn in R; unfold timeout_timer in R; try destruct (0 <? c_timeout cf); intuition congruence. }
      apply (enter_timeout_good N cf st None); [done|done|lia].
  - cbn in Ha. apply bool_decide_eq_true_1 in Ha. rewrite (g_state _ _ _ _ _ _ G) in Ha. subst st. destruct (fd_event s); [|by eapply stay].
    destruct R as [-> ->]. eapply enter_connected_good; [|by left|lia]. destruct G as [[] ]. split; try done; split; done.
  - cbn in Ha. apply bool_decide_eq_true_1 in Ha. rewrite (g_state _ _ _ _ _ _ G) in Ha. subst st. destruct (fd_event s); [|by eapply stay].
    destruct R as [-> ->]. by apply (enter_failed_good N cf CONNECTION_STATE_CONNECTING true (timeout_timer cf)); [| | | |lia].
Qed.

Lemma step_settled N cf s i f :
  (c_shutdown cf = true -> forall n, timer_ok n = true) -> settled N cf s -> (N + 9 <= f)%nat -> allowed s i = true ->
  exists s', step NDEBUG response timer_ok f i s = Ok s' /\ settled (S (S N)) cf s'.
Proof using Hsilent.
  intros Hok (st & h & t & G & R) Hf Ha.
  assert (forall o, (exists s', o = Ok s' /\ settled N cf s') -> exists s', o = Ok s' /\ settled (S (S N)) cf s') as Hm
    by (intros o (s' & E & H); exists s'; split; [done|]; by apply (settled_mono N); [|lia]).
  destruct i as [a| | |]; [|by eapply Hm, event_step..].
  destruct a; try done; [by eapply Hm, signal_step|by eapply watches_step..].
Qed.

Lemma free_settled N cf s f :
  settled N cf s -> state s <> CONNECTION_STATE_SHUTDOWN -> (N + 9 <= f)%nat ->
  exists s', run_to f (Do Free) s s' /\ alive s' = false /\ scan (visible (trace s')) = Some (CONNECTION_STATE_HALTED, false).
Proof using Hsilent.
  intros (st & h & t & G & R) Hst Hf. rewrite (g_state _ _ _ _ _ _ G) in Hst. destruct f as [|f]; [lia|]. rewrite exec_S. cbn [run]. unfold perform, connection_free.
  rewrite ?(touch_good _ _ _ _ _ _ G). cbn [mbind outcome_bind]. rewrite ?(touch_good _ _ _ _ _ _ G). cbn [mbind outcome_bind].
  pose (s1 := s <| ev := None |>). assert (good N cf st h None s1) as G1 by (by eapply good_ev). change (s <| ev := None |>) with s1.
  rewrite (defer_good _ _ _ _ _ _ G1), (g_state _ _ _ _ _ _ G1).
  assert (forall s2, good N cf CONNECTION_STATE_HALTED false None s2 -> exists s', (s ← Ok s2; s ← touch s; Ok (s <| alive := false |>)) = Ok s' /\
    alive s' = false /\ scan (visible (trace s')) = Some (CONNECTION_STATE_HALTED, false)) as Hend.
  { intros s2 G2. cbn [mbind outcome_bind]. rewrite (touch_good _ _ _ _ _ _ G2). eexists. split; [reflexivity|]. split; [done|]. apply G2. }
  destruct st; try done; destruct R as [-> _].
  1: by apply Hend.
  3,4: destruct (enter_halted_good _ _ _ _ _ f G1) as (s2 & -> & G2); [tauto|lia|]; by apply Hend.
  all: destruct (close_halt_good _ _ _ _ _ f G1) as (s2 & s3 & -> & Ht & Hc & E2 & G2); [tauto|lia|]; cbn [mbind outcome_bind]; rewrite E2; by apply Hend.
Qed.

(** The inputs are allowed in the states they meet. *)
Fixpoint admissible (fuel : nat) (l : list input) (s : connection_t) : bool :=
  match l with
  | [] => true
  | i :: l => allowed s i && match step NDEBUG response timer_ok fuel i s with Ok s => admissible fuel l s | _ => true end
  end.

Lemma steps_settled cf f l : forall N s,
  (c_shutdown cf = true -> forall n, timer_ok n = true) -> settled N cf s -> (N + 2 * length l + 9 <= f)%nat -> admissible f l s = true ->
  exists s', steps NDEBUG response timer_ok f l s = Ok s' /\ settled (N + 2 * length l) cf s'.
Proof using Hsilent.
  induction l as [|i l IH]; intros N s Hok H Hf Ha; cbn [steps admissible length] in *.
  - exists s. split; [done|]. by rewrite Nat.mul_0_r, Nat.add_0_r.
  - apply andb_true_iff in Ha as [Hi Ha]. destruct (step_settled N cf s i f) as (s1 & E & H1); [done|done|lia|done|].
    rewrite E in Ha |- *. cbn [mbind outcome_bind]. destruct (IH (S (S N)) s1) as (s' & E' & H'); [done|done|lia|done|].
    exists s'. split; [done|]. by replace (N + 2 * S (length l))%nat with (S (S N) + 2 * length l)%nat by lia.
Qed.

(** *** What it must not be asked *)

Lemma closed_refused N cf t s f :
  good N cf CONNECTION_STATE_SHUTDOWN true t s -> exec NDEBUG response timer_ok (S f) (Enter CONNECTION_STATE_CLOSED) s = if NDEBUG then Ok s else Abort.
Proof. intros G. rewrite exec_S. cbn [run]. unfold connection_state_enter_closed. advance G. by rewrite (g_state _ _ _ _ _ _ G). Qed.

Lemma halted_refused N cf t s f :
  good N cf CONNECTION_STATE_SHUTDOWN true t s -> exec NDEBUG response timer_ok (S f) (Enter CONNECTION_STATE_HALTED) s = if NDEBUG then Ok s else Abort.
Proof.
  intros G. rewrite exec_S. cbn [run]. unfold connection_state_enter_halted. advance G. rewrite (g_closed _ _ _ _ _ _ G). unfold fr_assert.
  destruct NDEBUG; cbn [orb negb mbind outcome_bind]; [|done]. by rewrite (g_state _ _ _ _ _ _ G).
Qed.

(** Closing a second time. *)
Lemma closed_twice N cf t s f :
  NDEBUG = false -> good N cf CONNECTION_STATE_FAILED false t s -> (N + 4 <= f)%nat ->
  exec NDEBUG response timer_ok f (Enter CONNECTION_STATE_CLOSED) s = Abort.
Proof using Hsilent.
  intros Hd G Hf. begin G f.
  assert (good N cf CONNECTION_STATE_CLOSED false None (STATE_TRANSITION CONNECTION_STATE_CLOSED (s <| ev := None |>))) as G1
    by (apply good_transition with (st := CONNECTION_STATE_FAILED); [by eapply good_ev|done]).
  destruct (good_watch _ _ _ _ _ _ f true G1) as (s1 & -> & G2); [lia|]. cbn [mbind outcome_bind]. advance G2.
  rewrite (g_closed _ _ _ _ _ _ G2). unfold fr_assert. by rewrite Hd.
Qed.

Lemma signal_refused N cf s sg f :
  NDEBUG = false -> settled N cf s -> (N + 9 <= f)%nat -> allowed s (Api (Signal sg)) = false -> exec NDEBUG response timer_ok f (Do (Signal sg)) s = Abort.
Proof using Hsilent.
  intros Hd (st & h & t & G & R) Hf Ha. cbn in Ha. rewrite (g_state _ _ _ _ _ _ G) in Ha.
  destruct sg; [done| |apply bool_decide_eq_false_1, dec_stable in Ha; subst st..]; signalled G f; (destruct f as [|f]; [lia|]).
  - apply negb_false_iff in Ha. rewrite Ha. unfold fr_assert. by rewrite Hd.
  - rewrite exec_S. cbn [run]. unfold connection_state_enter_failed. advance G. rewrite (g_state _ _ _ _ _ _ G). unfold fr_assert. by rewrite Hd.
  - destruct R as [-> _]. rewrite (closed_twice N cf t); [done|done|done|lia].
  - destruct R as [-> _]. rewrite (g_closed _ _ _ _ _ _ G). cbn [negb]. rewrite (closed_refused N cf t) by done. by rewrite Hd.
Qed.

Lemma shutdown_refused N cf s f :
  settled N cf s -> state s = CONNECTION_STATE_SHUTDOWN -> (N + 9 <= f)%nat ->
  exec NDEBUG response timer_ok f (Do Free) s = (if NDEBUG then Ok (s <| ev := None |> <| alive := false |>) else Abort) /\
  exec NDEBUG response timer_ok f (Do (Signal Shalt)) s = (if NDEBUG then Ok s else Abort).
Proof.
  intros (st & h & t & G & R) Hst Hf. rewrite (g_state _ _ _ _ _ _ G) in Hst. subst st. destruct R as [-> _]. split.
  - destruct f as [|[|f] ]; [lia|lia|]. rewrite exec_S. cbn [run]. unfold perform, connection_free. rewrite ?(touch_good _ _ _ _ _ _ G). cbn [mbind outcome_bind]. rewrite ?(touch_good _ _ _ _ _ _ G). cbn [mbind outcome_bind].
    pose (s1 := s <| ev := None |>). assert (good N cf CONNECTION_STATE_SHUTDOWN true None s1) as G1 by (by eapply good_ev). change (s <| ev := None |>) with s1.
    rewrite (defer_good _ _ _ _ _ _ G1), (g_state _ _ _ _ _ _ G1), (halted_refused N cf None) by done. destruct NDEBUG; [|done]. cbn [mbind outcome_bind]. by advance G1.
  - signalled G f. destruct f as [|f]; [lia|]. rewrite (g_closed _ _ _ _ _ _ G). cbn [negb]. rewrite (closed_refused N cf t) by done. destruct NDEBUG eqn:E; [|done]. cbn [mbind outcome_bind].
    advance G. unfold fr_assert. cbn [orb mbind outcome_bind]. rewrite <- E at 1. rewrite (halted_refused N cf t) by done. by rewrite E.
Qed.
End Silent.

Lemma alloc_settled o sh f timeout delay : settled 1 (MkConf o sh f timeout delay) (connection_alloc true o true sh f timeout delay).
Proof.
  exists CONNECTION_STATE_HALTED, false, None. split; [|done]. split; try done. split; try done.
  - assert (forall pre st e, e ∈ lists (connection_alloc true o true sh f timeout delay) pre st -> pre = false /\ st = CONNECTION_STATE_HALTED /\ e = MkEntry 0 on_halted_func true false) as Hi.
    { intros [] st e He; [by apply not_elem_of_nil in He|]. unfold lists in He. cbn in He. case_decide; [|by apply not_elem_of_nil in He]. by apply list_elem_of_singleton in He. }
    split.
    + intros [] st; [apply NoDup_nil_2|]. unfold lists. cbn. case_decide; [apply NoDup_singleton|apply NoDup_nil_2].
    + intros p q x p' q' x' (-> & -> & ->)%Hi (-> & -> & ->)%Hi. done.
    + eexists. split; [by left|done].
    + by intros p q x (-> & -> & ->)%Hi.
    + intros p q x (-> & -> & ->)%Hi. cbn. lia.
    + by intros p q x (-> & -> & ->)%Hi.
    + by intros p q x (-> & -> & ->)%Hi.
  - intros [] st; [apply Nat.le_0_l|]. unfold lists. cbn. case_decide; cbn; lia.
Qed.

(** ** The life of a connection *)



(** The signals that a connection at rest must not be given are exactly those
    that fail an assertion: a reconnection or a shutdown while it waits in FAILED,
    a halt while it shuts down, [connection_signal_connected] where there is an
    [open] callback. Without assertions a halt in SHUTDOWN is lost, and a
    connection freed there is released with its handle open. *)
Theorem connection_refused NDEBUG response timer_ok o sh f timeout delay l fuel s :
  (forall n, fst (response n) = []) -> (sh = true -> forall n, timer_ok n = true) -> (2 * length l + 10 <= fuel)%nat ->
  admissible NDEBUG response timer_ok fuel l (connection_alloc true o true sh f timeout delay) = true ->
  steps NDEBUG response timer_ok fuel l (connection_alloc true o true sh f timeout delay) = Ok s ->
  (NDEBUG = false -> forall sg, step NDEBUG response timer_ok fuel (Api (Signal sg)) s = Abort <-> allowed s (Api (Signal sg)) = false) /\
  (state s = CONNECTION_STATE_SHUTDOWN ->
     step NDEBUG response timer_ok fuel (Api Free) s = (if NDEBUG then Ok (s <| ev := None |> <| alive := false |>) else Abort) /\
     step NDEBUG response timer_ok fuel (Api (Signal Shalt)) s = (if NDEBUG then Ok s else Abort) /\
     scan (visible (trace s)) = Some (CONNECTION_STATE_SHUTDOWN, true)).
Proof.
  intros Hs Ht Hf Ha E.
  destruct (steps_settled NDEBUG response timer_ok Hs (MkConf o sh f timeout delay) fuel l 1 (connection_alloc true o true sh f timeout delay))
    as (s' & E' & H); [done|apply alloc_settled|lia|done|]. rewrite E in E'. injection E' as <-. split.
  - intros Hd sg. destruct (allowed s (Api (Signal sg))) eqn:Hal.
    + split; [|done]. intros HA. destruct (step_settled NDEBUG response timer_ok Hs _ (MkConf o sh f timeout delay) s (Api (Signal sg)) fuel Ht H) as (s' & E' & _); [lia|done|congruence].
    + split; [done|]. intros _. by apply (signal_refused NDEBUG response timer_ok Hs (1 + 2 * length l) (MkConf o sh f timeout delay)); [| |lia|].
  - intros Hst. destruct (shutdown_refused NDEBUG response timer_ok (1 + 2 * length l) (MkConf o sh f timeout delay) s fuel H Hst) as [H1 H2]; [lia|].
    split; [exact H1|]. split; [exact H2|]. destruct H as (st & h & t & G & R). rewrite (g_state _ _ _ _ _ _ G) in Hst. subst st. destruct R as [-> _]. apply G.
Qed.

(** A halt after a shutdown has begun. *)
Lemma connection_refused_witness :
  exists s, steps false (fun n => ([], nth n [CONNECTION_STATE_CONNECTED; CONNECTION_STATE_SHUTDOWN] CONNECTION_STATE_HALTED)) (fun _ => true) 14
    [Api (Signal Sinit); Api (Signal Sshutdown)] (connection_alloc true false true true false 5 3) = Ok s /\ state s = CONNECTION_STATE_SHUTDOWN /\
    step false (fun n => ([], nth n [CONNECTION_STATE_CONNECTED; CONNECTION_STATE_SHUTDOWN] CONNECTION_STATE_HALTED)) (fun _ => true) 14 (Api (Signal Shalt)) s = Abort.
Proof.
  pose (response := fun n : nat => (([] : list action), nth n [CONNECTION_STATE_CONNECTED; CONNECTION_STATE_SHUTDOWN] CONNECTION_STATE_HALTED)).
  destruct (steps false response (fun _ => true) 14 [Api (Signal Sinit); Api (Signal Sshutdown)] (connection_alloc true false true true false 5 3)) as [s| | |] eqn:E;
    try (vm_compute in E; discriminate).
  assert (state s = CONNECTION_STATE_SHUTDOWN) as Hst by (vm_compute in E; by injection E as <-).
  exists s. split; [exact E|]. split; [exact Hst|].
  refine (proj2 (proj1 (connection_refused false response (fun _ => true) false true false 5 3 _ 14 s _ _ _ _ E) eq_refl Shalt) _); [done|done|cbn; lia|by vm_compute|].
  cbn. by rewrite Hst.
Defined.

End ConnectionLife.
