(* ===== verification/HashTable.v ===== *)
(** The hash table: src/lib/util/hash.c. The chains of its buckets are kept in the
    order of the reversed hash, so that a table that has grown can leave new buckets
    empty and split the chain of another when one is first needed. Entries are in a
    memory of nodes and linked by their addresses, as in the code. *)

From stdpp Require Import gmap.
From S2P Require Import Prelude.

Module HashTable.

Abbreviation FR_HASH_NUM_BUCKETS := 64%Z (only parsing).
Abbreviation GROW_FACTOR := 2%Z (only parsing).

(** *** Bits *)

Definition reversed_byte : list Z :=
  [0; 128; 64; 192; 32; 160; 96; 224; 16; 144; 80; 208; 48; 176; 112; 240; 8; 136; 72; 200; 40; 168; 104; 232; 24; 152; 88; 216; 56; 184; 120; 248;
   4; 132; 68; 196; 36; 164; 100; 228; 20; 148; 84; 212; 52; 180; 116; 244; 12; 140; 76; 204; 44; 172; 108; 236; 28; 156; 92; 220; 60; 188; 124; 252;
   2; 130; 66; 194; 34; 162; 98; 226; 18; 146; 82; 210; 50; 178; 114; 242; 10; 138; 74; 202; 42; 170; 106; 234; 26; 154; 90; 218; 58; 186; 122; 250;
   6; 134; 70; 198; 38; 166; 102; 230; 22; 150; 86; 214; 54; 182; 118; 246; 14; 142; 78; 206; 46; 174; 110; 238; 30; 158; 94; 222; 62; 190; 126; 254;
   1; 129; 65; 193; 33; 161; 97; 225; 17; 145; 81; 209; 49; 177; 113; 241; 9; 137; 73; 201; 41; 169; 105; 233; 25; 153; 89; 217; 57; 185; 121; 249;
   5; 133; 69; 197; 37; 165; 101; 229; 21; 149; 85; 213; 53; 181; 117; 245; 13; 141; 77; 205; 45; 173; 109; 237; 29; 157; 93; 221; 61; 189; 125; 253;
   3; 131; 67; 195; 35; 163; 99; 227; 19; 147; 83; 211; 51; 179; 115; 243; 11; 139; 75; 203; 43; 171; 107; 235; 27; 155; 91; 219; 59; 187; 123; 251;
   7; 135; 71; 199; 39; 167; 103; 231; 23; 151; 87; 215; 55; 183; 119; 247; 15; 143; 79; 207; 47; 175; 111; 239; 31; 159; 95; 223; 63; 191; 127; 255].

Definition parent_byte : list Z :=
  [0; 0; 0; 1; 0; 1; 2; 3; 0; 1; 2; 3; 4; 5; 6; 7; 0; 1; 2; 3; 4; 5; 6; 7; 8; 9; 10; 11; 12; 13; 14; 15;
   0; 1; 2; 3; 4; 5; 6; 7; 8; 9; 10; 11; 12; 13; 14; 15; 16; 17; 18; 19; 20; 21; 22; 23; 24; 25; 26; 27; 28; 29; 30; 31;
   0; 1; 2; 3; 4; 5; 6; 7; 8; 9; 10; 11; 12; 13; 14; 15; 16; 17; 18; 19; 20; 21; 22; 23; 24; 25; 26; 27; 28; 29; 30; 31;
   32; 33; 34; 35; 36; 37; 38; 39; 40; 41; 42; 43; 44; 45; 46; 47; 48; 49; 50; 51; 52; 53; 54; 55; 56; 57; 58; 59; 60; 61; 62; 63;
   0; 1; 2; 3; 4; 5; 6; 7; 8; 9; 10; 11; 12; 13; 14; 15; 16; 17; 18; 19; 20; 21; 22; 23; 24; 25; 26; 27; 28; 29; 30; 31;
   32; 33; 34; 35; 36; 37; 38; 39; 40; 41; 42; 43; 44; 45; 46; 47; 48; 49; 50; 51; 52; 53; 54; 55; 56; 57; 58; 59; 60; 61; 62; 63;
   64; 65; 66; 67; 68; 69; 70; 71; 72; 73; 74; 75; 76; 77; 78; 79; 80; 81; 82; 83; 84; 85; 86; 87; 88; 89; 90; 91; 92; 93; 94; 95;
   96; 97; 98; 99; 100; 101; 102; 103; 104; 105; 106; 107; 108; 109; 110; 111; 112; 113; 114; 115; 116; 117; 118; 119; 120; 121; 122; 123; 124; 125; 126; 127].

Definition reverse (key : Z) : Z :=
  Z.shiftl (get reversed_byte (Z.to_nat (key &z 255))) 24 |z
  Z.shiftl (get reversed_byte (Z.to_nat (Z.shiftr key 8 &z 255))) 16 |z
  Z.shiftl (get reversed_byte (Z.to_nat (Z.shiftr key 16 &z 255))) 8 |z
  get reversed_byte (Z.to_nat (Z.shiftr key 24 &z 255)).

Definition parent_of (key : Z) : Z :=
  if 16777215 <? key then (key &z 16777215) |z Z.shiftl (get parent_byte (Z.to_nat (Z.shiftr key 24))) 24
  else if 65535 <? key then (key &z 65535) |z Z.shiftl (get parent_byte (Z.to_nat (Z.shiftr key 16))) 16
  else if 255 <? key then (key &z 255) |z Z.shiftl (get parent_byte (Z.to_nat (Z.shiftr key 8))) 8
  else get parent_byte (Z.to_nat key).

(** *** The table *)

(** The address of [ht->null], or of an entry. *)
Inductive ptr := null | node (a : nat).
#[export] Instance ptr_eq_dec : EqDecision ptr.
Proof. solve_decision. Defined.

Record fr_hash_entry_t {D : Type} := MkEntry { next : ptr; reversed : Z; key : Z; data : D }.
Arguments fr_hash_entry_t : clear implicits. Arguments MkEntry {D}.
#[export] Instance eta_entry D : Eta (fr_hash_entry_t D) := fun e => MkEntry (next e) (reversed e) (key e) (data e).

(** A bucket is NULL until it is used; [mem] holds the entries. *)
Record fr_hash_table_t {D : Type} := MkTable {
  num_elements : Z;
  num_buckets : Z;
  next_grow : Z;
  mask : Z;
  buckets : list (option ptr);
  mem : gmap nat (fr_hash_entry_t D)
}.
Arguments fr_hash_table_t : clear implicits. Arguments MkTable {D}.
#[export] Instance eta_table D : Eta (fr_hash_table_t D) := fun h =>
  MkTable (num_elements h) (num_buckets h) (next_grow h) (mask h) (buckets h) (mem h).

Record fr_hash_iter_t := MkIter { bucket : Z; inode : ptr }.

(** The address of a pointer to an entry. *)
Inductive loc := Bucket (i : Z) | Next (a : nat).

Section Code.
(** The functions that the table was made with; whether there is one to free data. *)
Context {D : Type} (hash : D -> Z) (cmp : D -> D -> Z) (has_free : bool).
Notation table := (fr_hash_table_t D).

Definition load (l : loc) (ht : table) : option ptr :=
  match l with
  | Bucket i => b ← buckets ht !! Z.to_nat i; b
  | Next a => e ← mem ht !! a; Some (next e)
  end.

Definition store (l : loc) (p : ptr) (ht : table) : option table :=
  match l with
  | Bucket i => _ ← buckets ht !! Z.to_nat i; Some (ht <| buckets := <[Z.to_nat i := Some p]> (buckets ht) |>)
  | Next a => e ← mem ht !! a; Some (ht <| mem := <[a := e <| next := p |>]> (mem ht) |>)
  end.

(** The number of entries, which bounds the length of a chain. *)
Definition chain_fuel (ht : table) : nat := S (size (mem ht)).

Fixpoint list_find (fuel : nat) (ht : table) (cur : ptr) (rev : Z) (d : D) : option (option nat) :=
  match cur, fuel with
  | null, _ => Some None
  | _, O => None
  | node a, S fuel =>
      e ← mem ht !! a;
      if reversed e =? rev then
        let c := cmp d (data e) in
        if 0 <? c then Some None
        else if c <? 0 then list_find fuel ht (next e) rev d
        else Some (Some a)
      else if rev <? reversed e then Some None
      else list_find fuel ht (next e) rev d
  end.

(** Where the entry goes, unless there is one like it. *)
Fixpoint insert_loop (fuel : nat) (ht : table) (last : loc) (cur : ptr) (rev : Z) (d : D) : option (option loc) :=
  match cur, fuel with
  | null, _ => Some (Some last)
  | _, O => None
  | node a, S fuel =>
      e ← mem ht !! a;
      if rev <? reversed e then Some (Some last)
      else
        let last := Next a in
        if reversed e =? rev then
          let c := cmp d (data e) in
          if 0 <? c then Some (Some last)
          else if c <? 0 then insert_loop fuel ht last (next e) rev d
          else Some None
        else insert_loop fuel ht last (next e) rev d
  end.

Definition list_insert (ht : table) (head : loc) (n : nat) : option (bool * table) :=
  e ← mem ht !! n;
  cur ← load head ht;
  l ← insert_loop (chain_fuel ht) ht head cur (reversed e) (data e);
  match l with
  | None => Some (false, ht)
  | Some last =>
      p ← load last ht;
      ht ← store (Next n) p ht;
      ht ← store last (node n) ht;
      Some (true, ht)
  end.

Fixpoint delete_loop (fuel : nat) (ht : table) (last : loc) (cur : ptr) (n : nat) : option loc :=
  match cur, fuel with
  | null, _ => Some last
  | _, O => None
  | node a, S fuel =>
      if (a =? n)%nat then Some last
      else e ← mem ht !! a; delete_loop fuel ht (Next a) (next e) n
  end.

Definition list_delete (ht : table) (head : loc) (n : nat) : option table :=
  cur ← load head ht;
  last ← delete_loop (chain_fuel ht) ht head cur n;
  e ← mem ht !! n;
  store last (next e) ht.

(** The chain of a bucket that is split: entries that belong elsewhere start the
    chain of their own bucket. *)
Fixpoint fixup_loop (fuel : nat) (ht : table) (last : loc) (cur : ptr) (this : Z) : option table :=
  match cur, fuel with
  | null, _ => Some ht
  | _, O => None
  | node a, S fuel =>
      e ← mem ht !! a;
      let real_entry := key e &z mask ht in
      ht ← (if real_entry =? this then Some ht
            else ht ← store last null ht; store (Bucket real_entry) cur ht);
      e ← mem ht !! a;
      fixup_loop fuel ht (Next a) (next e) real_entry
  end.

Fixpoint fixup (fuel : nat) (ht : table) (entry : Z) : option table :=
  match fuel with
  | O => None
  | S fuel =>
      let parent_entry := parent_of entry in
      b ← buckets ht !! Z.to_nat parent_entry;
      ht ← (match b with None => fixup fuel ht parent_entry | Some _ => Some ht end);
      cur ← load (Bucket parent_entry) ht;
      ht ← fixup_loop (chain_fuel ht) ht (Bucket parent_entry) cur parent_entry;
      b ← buckets ht !! Z.to_nat entry;
      match b with None => store (Bucket entry) null ht | Some _ => Some ht end
  end.

(** A bucket has at most 32 ancestors. *)
Definition fr_hash_table_fixup (ht : table) (entry : Z) : option table := fixup 33 ht entry.

(** [realloc] is whether the array can be enlarged; an array of no elements would be
    freed. *)
Definition fr_hash_table_grow (realloc : bool) (ht : table) : option table :=
  let n := u32 (GROW_FACTOR * num_buckets ht) in
  if negb realloc then Some ht
  else if n =? 0 then None
  else Some (MkTable (num_elements ht) n (u32 (next_grow ht * GROW_FACTOR)) (u32 (n - 1)) (resize (Z.to_nat n) None (buckets ht)) (mem ht)).

(** [if (!ht->buckets[entry]) fr_hash_table_fixup(ht, entry);] *)
Definition ensure (ht : table) (entry : Z) : option table :=
  b ← buckets ht !! Z.to_nat entry;
  match b with None => fr_hash_table_fixup ht entry | Some _ => Some ht end.

Definition hash_table_find (ht : table) (k : Z) (d : D) : option (option nat * table) :=
  let entry := k &z mask ht in
  let rev := reverse k in
  ht ← ensure ht entry;
  head ← load (Bucket entry) ht;
  n ← list_find (chain_fuel ht) ht head rev d;
  Some (n, ht).

Definition fr_hash_table_find_by_key (ht : table) (k : Z) (d : D) : option (option D * table) :=
  '(n, ht) ← hash_table_find ht k d;
  match n with
  | None => Some (None, ht)
  | Some a => e ← mem ht !! a; Some (Some (data e), ht)
  end.

Definition fr_hash_table_find (ht : table) (d : D) : option (option D * table) := fr_hash_table_find_by_key ht (hash d) d.

(** [alloc] is the address of the entry, unless there is no memory. *)
Definition fr_hash_table_insert (alloc : option nat) (realloc : bool) (ht : table) (d : D) : option (bool * table) :=
  let k := hash d in
  let entry := k &z mask ht in
  let rev := reverse k in
  ht ← ensure ht entry;
  match alloc with
  | None => Some (false, ht)
  | Some n =>
      '(done, ht) ← list_insert (ht <| mem := <[n := MkEntry null rev k d]> (mem ht) |>) (Bucket entry) n;
      if negb done then Some (false, ht <| mem := delete n (mem ht) |>)
      else
        let ht := ht <| num_elements := u32 (num_elements ht + 1) |> in
        ht ← (if next_grow ht <=? num_elements ht then fr_hash_table_grow realloc ht else Some ht);
        Some (true, ht)
  end.

(** The result, what is in [old], and what was freed; [want] is whether [old] is
    given. *)
Definition fr_hash_table_replace (want : bool) (alloc : option nat) (realloc : bool) (ht : table) (d : D) : option (Z * option D * list D * table) :=
  '(n, ht) ← hash_table_find ht (hash d) d;
  match n with
  | None =>
      '(done, ht) ← fr_hash_table_insert alloc realloc ht d;
      Some (if done : bool then 1 else -1, None, [], ht)
  | Some a =>
      e ← mem ht !! a;
      Some (0, if want then Some (data e) else None, if negb want && has_free then [data e] else [],
            ht <| mem := <[a := e <| data := d |>]> (mem ht) |>)
  end.

Definition fr_hash_table_remove (ht : table) (d : D) : option (option D * table) :=
  let k := hash d in
  let entry := k &z mask ht in
  let rev := reverse k in
  ht ← ensure ht entry;
  head ← load (Bucket entry) ht;
  n ← list_find (chain_fuel ht) ht head rev d;
  match n with
  | None => Some (None, ht)
  | Some a =>
      ht ← list_delete ht (Bucket entry) a;
      let ht := ht <| num_elements := u32 (num_elements ht - 1) |> in
      e ← mem ht !! a;
      Some (Some (data e), ht <| mem := delete a (mem ht) |>)
  end.

(** With what was freed. *)
Definition fr_hash_table_delete (ht : table) (d : D) : option (bool * list D * table) :=
  '(old, ht) ← fr_hash_table_remove ht d;
  match old with
  | None => Some (false, [], ht)
  | Some x => Some (true, if has_free then [x] else [], ht)
  end.

Definition fr_hash_table_num_elements (ht : table) : Z := num_elements ht.

(** *** Iterating *)

(** The search for a bucket that is not empty, downwards. *)
Fixpoint iter_loop (fuel : nat) (ht : table) (i : Z) : option (option D * table * fr_hash_iter_t) :=
  match fuel with
  | O => None
  | S fuel =>
      ht ← ensure ht i;
      p ← load (Bucket i) ht;
      match p with
      | null => if i =? 0 then Some (None, ht, MkIter i null) else iter_loop fuel ht (i - 1)
      | node a => e ← mem ht !! a; Some (Some (data e), ht, MkIter i (next e))
      end
  end.

Definition fr_hash_table_iter_next (ht : table) (iter : fr_hash_iter_t) : option (option D * table * fr_hash_iter_t) :=
  match inode iter with
  | node a => e ← mem ht !! a; Some (Some (data e), ht, MkIter (bucket iter) (next e))
  | null => if bucket iter =? 0 then Some (None, ht, iter) else iter_loop (Z.to_nat (bucket iter)) ht (bucket iter - 1)
  end.

Definition fr_hash_table_iter_init (ht : table) : option (option D * table * fr_hash_iter_t) :=
  fr_hash_table_iter_next ht (MkIter (num_buckets ht) null).

(** The array has [num] elements. *)
Fixpoint flatten_loop (fuel : nat) (num : Z) (item : option D) (ht : table) (iter : fr_hash_iter_t) (out : list D) : option (list D * table) :=
  match item, fuel with
  | None, _ => Some (out, ht)
  | _, O => None
  | Some d, S fuel =>
      if Z.of_nat (length out) <? num then
        '(item, ht, iter) ← fr_hash_table_iter_next ht iter;
        flatten_loop fuel num item ht iter (out ++ [d])
      else None
  end.

Definition fr_hash_table_flatten (ht : table) : option (list D * table) :=
  let num := fr_hash_table_num_elements ht in
  '(item, ht, iter) ← fr_hash_table_iter_init ht;
  flatten_loop (chain_fuel ht) num item ht iter [].

Fixpoint fill_loop (n : nat) (ht : table) : option table :=
  match n with
  | O => Some ht
  | S n => ht ← ensure ht (Z.of_nat n); fill_loop n ht
  end.
Definition fr_hash_table_fill (ht : table) : option table := fill_loop (Z.to_nat (num_buckets ht)) ht.

(** *** The whole table *)

Fixpoint chain_data (fuel : nat) (ht : table) (cur : ptr) : option (list D) :=
  match cur, fuel with
  | null, _ => Some []
  | _, O => None
  | node a, S fuel => e ← mem ht !! a; l ← chain_data fuel ht (next e); Some (data e :: l)
  end.

(** What is freed with the table. *)
Definition _fr_hash_table_free (ht : table) : option (list D) :=
  if has_free then
    ls ← mapM (fun b => match b with None => Some [] | Some p => chain_data (chain_fuel ht) ht p end) (buckets ht);
    Some (concat ls)
  else Some [].

Definition _fr_hash_table_alloc : table :=
  MkTable 0 FR_HASH_NUM_BUCKETS (Z.shiftl FR_HASH_NUM_BUCKETS 1 + Z.shiftr FR_HASH_NUM_BUCKETS 1) (FR_HASH_NUM_BUCKETS - 1)
    (<[0%nat := Some null]> (replicate (Z.to_nat FR_HASH_NUM_BUCKETS) None)) ∅.
End Code.

End HashTable.
