(* ===== verification/HashBits.v ===== *)
(** The bits of a hash (HashTable): [reverse] is the reversal of a word, [parent_of]
    clears its highest bit, and the order of reversed hashes keeps the entries of
    a bucket together. *)

From stdpp Require Import gmap.
From S2P Require Import Prelude HashTable.
Import HashTable.

Module HashBits.

Lemma for_bytes (f : Z -> bool) : forallb f (seqZ 0 256) = true -> forall b, 0 <= b < 256 -> f b = true.
Proof. intros H b Hb. rewrite forallb_forall in H. apply H, list_elem_of_In, elem_of_seqZ. lia. Qed.

Lemma reversed_byte_bits b i : 0 <= b < 256 -> 0 <= i < 8 -> Z.testbit (get reversed_byte (Z.to_nat b)) i = Z.testbit b (7 - i).
Proof.
  intros Hb Hi. pose proof (for_bytes (fun b => forallb (fun i => Bool.eqb (Z.testbit (get reversed_byte (Z.to_nat b)) i) (Z.testbit b (7 - i))) (seqZ 0 8))
    ltac:(by vm_compute) b Hb) as H. cbv beta in H. rewrite forallb_forall in H. apply eqb_prop, H, list_elem_of_In, elem_of_seqZ. lia.
Qed.

Lemma reversed_byte_range b : 0 <= b < 256 -> 0 <= get reversed_byte (Z.to_nat b) < 2 ^ 8.
Proof.
  intros Hb. pose proof (for_bytes (fun b => (0 <=? get reversed_byte (Z.to_nat b)) && (get reversed_byte (Z.to_nat b) <? 256)) ltac:(by vm_compute) b Hb) as H.
  cbv beta in H. simpl_bool. by change (2 ^ 8) with 256.
Qed.

Lemma byte_at k s : 0 <= Z.shiftr k s &z 255 < 256.
Proof. change 255 with (Z.ones 8). rewrite Z.land_ones by lia. apply Z.mod_pos_bound. lia. Qed.

(** One octet of the result. *)
Lemma testbit_octet k s t i : is_u32 k -> 0 <= s -> 0 <= t -> 0 <= i ->
  Z.testbit (Z.shiftl (get reversed_byte (Z.to_nat (Z.shiftr k s &z 255))) t) i = (t <=? i) && (i <? t + 8) && Z.testbit k (s + 7 - (i - t)).
Proof.
  intros Hk Hs Ht Hi. rewrite Z.shiftl_spec by done. destruct (t <=? i) eqn:E1; simpl_bool; cbn [andb]; [|by rewrite Z.testbit_neg_r by lia].
  destruct (i <? t + 8) eqn:E2; simpl_bool; cbn [andb].
  - rewrite reversed_byte_bits by (try apply byte_at; lia). change 255 with (Z.ones 8). rewrite Z.land_spec, Z.shiftr_spec, Z.testbit_ones_nonneg by lia.
    rewrite (proj2 (Z.ltb_lt _ _)) by lia. rewrite andb_true_r. f_equal. lia.
  - apply (testbit_above 8); [apply reversed_byte_range, byte_at|lia].
Qed.

Lemma testbit_reverse k i : is_u32 k -> 0 <= i < 32 -> Z.testbit (reverse k) i = Z.testbit k (31 - i).
Proof.
  intros Hk Hi. unfold reverse. replace (k &z 255) with (Z.shiftr k 0 &z 255) by (by rewrite Z.shiftr_0_r).
  rewrite <- (Z.shiftl_0_r (get reversed_byte (Z.to_nat (Z.shiftr k 24 &z 255)))). rewrite !Z.lor_spec, !testbit_octet by (done || lia).
  destruct (Z.lt_ge_cases i 8); [|destruct (Z.lt_ge_cases i 16); [|destruct (Z.lt_ge_cases i 24)]];
    repeat match goal with
    | |- context [?a <=? ?b] => first [rewrite (proj2 (Z.leb_le a b)) by lia | rewrite (proj2 (Z.leb_gt a b)) by lia]
    | |- context [?a <? ?b] => first [rewrite (proj2 (Z.ltb_lt a b)) by lia | rewrite (proj2 (Z.ltb_ge a b)) by lia]
    end;
    cbn [andb orb]; rewrite ?orb_false_r; f_equal; lia.
Qed.

Lemma reverse_range k : is_u32 k -> 0 <= reverse k < 2 ^ 32.
Proof.
  intros Hk. unfold reverse. assert (forall s, 0 <= get reversed_byte (Z.to_nat (Z.shiftr k s &z 255)) < 2 ^ 8) as H by (intros; apply reversed_byte_range, byte_at).
  pose proof (H 0) as H0. rewrite Z.shiftr_0_r in H0. pose proof (H 8) as H1. pose proof (H 16) as H2. pose proof (H 24) as H3.
  repeat apply (lor_range 32); try lia; rewrite Z.shiftl_mul_pow2 by lia; lia.
Qed.

(** *** Ancestors *)

Lemma parent_byte_spec b : 0 < b < 256 -> get parent_byte (Z.to_nat b) = b mod 2 ^ Z.log2 b.
Proof.
  intros Hb. pose proof (for_bytes (fun b => (b =? 0) || (get parent_byte (Z.to_nat b) =? b mod 2 ^ Z.log2 b)) ltac:(by vm_compute) b ltac:(lia)) as H.
  cbv beta in H. apply orb_true_iff in H as [H|H]; simpl_bool; lia.
Qed.

(** The octet that has the highest bit. *)
Lemma parent_octet k s : 0 <= s -> 2 ^ s <= k < 2 ^ (s + 8) ->
  (k &z Z.ones s) |z Z.shiftl (get parent_byte (Z.to_nat (Z.shiftr k s))) s = k mod 2 ^ Z.log2 k.
Proof.
  intros Hs Hk. set (h := Z.shiftr k s).
  assert (0 < h < 256) as Hh.
  { unfold h. rewrite Z.shiftr_div_pow2 by done. rewrite Z.pow_add_r in Hk by lia. change (2 ^ 8) with 256 in Hk.
    split; [apply Z.div_str_pos; lia|apply Z.div_lt_upper_bound; lia]. }
  assert (Z.log2 k = Z.log2 h + s) as Hl.
  { unfold h. rewrite Z.log2_shiftr by lia. assert (s <= Z.log2 k) by (apply Z.log2_le_pow2; lia). lia. }
  rewrite parent_byte_spec by done. pose proof (Z.log2_nonneg h). apply Z.bits_inj_iff'. intros i Hi.
  rewrite Z.lor_spec, Z.land_spec, Z.testbit_ones_nonneg, Z.shiftl_spec by lia.
  destruct (Z.lt_ge_cases i s).
  - rewrite (Z.testbit_neg_r _ (i - s)) by lia. rewrite Z.mod_pow2_bits_low by lia. rewrite (proj2 (Z.ltb_lt i s)) by lia. by rewrite andb_true_r, orb_false_r.
  - rewrite (proj2 (Z.ltb_ge i s)) by lia. rewrite andb_false_r. cbn [orb]. destruct (Z.lt_ge_cases i (Z.log2 k)).
    + rewrite !Z.mod_pow2_bits_low by lia. unfold h. rewrite Z.shiftr_spec by lia. f_equal. lia.
    + rewrite !Z.mod_pow2_bits_high by lia. done.
Qed.

(** [parent_of] clears the highest bit. *)
Lemma parent_of_spec k : 0 < k < 2 ^ 32 -> parent_of k = k mod 2 ^ Z.log2 k.
Proof.
  intros Hk. unfold parent_of. repeat case_if.
  - apply (parent_octet k 24); lia.
  - apply (parent_octet k 16); lia.
  - apply (parent_octet k 8); lia.
  - apply parent_byte_spec. lia.
Qed.

Lemma parent_of_0 : parent_of 0 = 0.
Proof. done. Qed.

(** *** The order of the chains *)

(** The bits of the reversed hash that come from those that choose a bucket of
    [2 ^ K]. *)
Definition top (K k : Z) : Z := Z.shiftr (reverse k) (32 - K).

Lemma top_mono K x y : 0 <= K <= 32 -> reverse x <= reverse y -> top K x <= top K y.
Proof. intros HK H. unfold top. rewrite !Z.shiftr_div_pow2 by lia. apply Z.div_le_mono; lia. Qed.

Lemma testbit_top K k i : is_u32 k -> 0 <= K <= 32 -> 0 <= i < K -> Z.testbit (top K k) i = Z.testbit k (K - 1 - i).
Proof. intros Hk HK Hi. unfold top. rewrite Z.shiftr_spec by lia. rewrite testbit_reverse by (done || lia). f_equal. lia. Qed.

Lemma top_range K k : is_u32 k -> 0 <= K <= 32 -> 0 <= top K k < 2 ^ K.
Proof. intros Hk HK. apply shiftr_range; [lia|lia|]. replace (K + (32 - K)) with 32 by lia. by apply reverse_range. Qed.

Lemma top_eq K x y : is_u32 x -> is_u32 y -> 0 <= K <= 32 -> (top K x = top K y <-> x mod 2 ^ K = y mod 2 ^ K).
Proof.
  intros Hx Hy HK. split; intros H.
  - apply (word_ext K); [apply Z.mod_pos_bound; lia|apply Z.mod_pos_bound; lia|lia|]. intros i Hi. rewrite !Z.mod_pow2_bits_low by lia.
    replace i with (K - 1 - (K - 1 - i)) by lia. rewrite <- (testbit_top K x), <- (testbit_top K y) by (done || lia). by rewrite H.
  - apply (word_ext K); [by apply top_range|by apply top_range|lia|]. intros i Hi. rewrite !testbit_top by (done || lia).
    rewrite <- (Z.mod_pow2_bits_low x K), <- (Z.mod_pow2_bits_low y K) by lia. by rewrite H.
Qed.

(** An ancestor comes first. *)
Lemma reverse_ancestor x j : is_u32 x -> 0 <= j <= 32 -> reverse (x mod 2 ^ j) <= reverse x.
Proof.
  intros Hx Hj. assert (is_u32 (x mod 2 ^ j)) as Hm.
  { pose proof (Z.mod_pos_bound x (2 ^ j) ltac:(lia)). split; [lia|]. apply Z.le_lt_trans with x; [|apply Hx]. apply Z.mod_le; [apply Hx|lia]. }
  replace (reverse (x mod 2 ^ j)) with (Z.shiftl (Z.shiftr (reverse x) (32 - j)) (32 - j)).
  - rewrite Z.shiftl_mul_pow2, Z.shiftr_div_pow2 by lia. rewrite Z.mul_comm. apply Z.mul_div_le. lia.
  - apply (word_ext 32); [|by apply reverse_range|lia|].
    + rewrite Z.shiftl_mul_pow2, Z.shiftr_div_pow2 by lia. pose proof (reverse_range x Hx) as Hr. split.
      * apply Z.mul_nonneg_nonneg; [apply Z.div_pos; lia|lia].
      * rewrite Z.mul_comm. eapply Z.le_lt_trans; [apply Z.mul_div_le; lia|lia].
    + intros i Hi. rewrite testbit_reverse by (done || lia). rewrite Z.shiftl_spec by lia. destruct (Z.lt_ge_cases i (32 - j)).
      * rewrite Z.testbit_neg_r by lia. by rewrite Z.mod_pow2_bits_high by lia.
      * rewrite Z.shiftr_spec by lia. rewrite testbit_reverse by (done || lia). rewrite Z.mod_pow2_bits_low by lia. f_equal. lia.
Qed.

End HashBits.
