(* ===== verification/HashChain.v ===== *)
(** The chains of a hash table (HashTable) in memory, and how one is split. *)

From stdpp Require Import gmap.
From S2P Require Import Prelude HashTable HashBits.
Import HashTable HashBits.

Module HashChain.

Lemma filter_none {A} (P : A -> Prop) `{forall x, Decision (P x)} (l : list A) : (forall x, x ∈ l -> ~ P x) -> filter P l = [].
Proof.
  induction l as [|x l IH]; intros Hl; [done|]. rewrite list.filter_cons_False by (apply Hl; by left). apply IH. intros y Hy. apply Hl. by right.
Qed.

Lemma filter_every {A} (P : A -> Prop) `{forall x, Decision (P x)} (l : list A) : (forall x, x ∈ l -> P x) -> filter P l = l.
Proof.
  induction l as [|x l IH]; intros Hl; [done|]. rewrite list.filter_cons_True by (apply Hl; by left). f_equal. apply IH. intros y Hy. apply Hl. by right.
Qed.

Section Chain.
Context {D : Type}.
Notation table := (fr_hash_table_t D).
Notation entry := (fr_hash_entry_t D).
Implicit Types (ht : table) (m : gmap nat entry) (l : list nat) (p q : ptr) (i : Z).

(** ** Segments of chains *)

(** From [p] through the entries [l] one comes to [q]. *)
Fixpoint seg m p l q : Prop :=
  match l with
  | [] => p = q
  | a :: l => p = node a /\ exists e, m !! a = Some e /\ seg m (next e) l q
  end.

Lemma seg_app m l1 : forall p l2 q, seg m p (l1 ++ l2) q <-> exists r, seg m p l1 r /\ seg m r l2 q.
Proof.
  induction l1 as [|a l1 IH]; intros p l2 q; cbn.
  - split; [by exists p|]. by intros (r & -> & H).
  - setoid_rewrite IH. split.
    + intros (-> & e & He & r & H1 & H2). exists r. eauto 6.
    + intros (r & (-> & e & He & H1) & H2). eauto 8.
Qed.

Lemma seg_frame m m' l : forall p q, (forall a e, a ∈ l -> m !! a = Some e -> exists e', m' !! a = Some e' /\ next e' = next e) -> seg m p l q -> seg m' p l q.
Proof.
  induction l as [|a l IH]; intros p q Hm; cbn; [done|]. intros (-> & e & He & H). split; [done|].
  destruct (Hm a e) as (e' & He' & Hn); [by left|done|]. exists e'. split; [done|]. rewrite Hn. apply IH; [|done]. intros b e2 Hb. apply Hm. by right.
Qed.

Lemma seg_lookup m p l q a : seg m p l q -> a ∈ l -> is_Some (m !! a).
Proof.
  revert p. induction l as [|b l IH]; intros p; cbn; [by intros _ H%not_elem_of_nil|]. intros (-> & e & He & H) [-> |Ha]%list.elem_of_cons; [by exists e|by eapply IH].
Qed.

(** The pointer to the first entry, and where the pointer after the last one is. *)
Definition head_of l : ptr := match l with [] => null | a :: _ => node a end.
Definition endloc i l : loc := match list.last l with None => Bucket i | Some a => Next a end.

Lemma endloc_snoc i l a : endloc i (l ++ [a]) = Next a.
Proof. unfold endloc. by rewrite list.last_snoc. Qed.

Lemma seg_head m p l : seg m p l null -> p = head_of l.
Proof. destruct l; cbn; [done|]. by intros [-> _]. Qed.

(** What the code never changes in an entry. *)
Definition info m : gmap nat (Z * Z * D) := (fun e => (reversed e, key e, data e)) <$> m.

Lemma info_lookup m a x : info m !! a = Some x <-> exists e, m !! a = Some e /\ x = (reversed e, key e, data e).
Proof. unfold info. rewrite lookup_fmap, fmap_Some. done. Qed.

Lemma info_some m m' a : info m = info m' -> is_Some (m !! a) -> is_Some (m' !! a).
Proof.
  intros H [e He]. assert (info m !! a = Some (reversed e, key e, data e)) as Hi by (apply info_lookup; eauto).
  rewrite H in Hi. apply info_lookup in Hi as (e' & He' & _). by exists e'.
Qed.

Lemma info_iff m m' a : info m = info m' -> is_Some (m' !! a) <-> is_Some (m !! a).
Proof. intros H. split; intros; by eapply info_some. Qed.

Lemma info_dom m a : is_Some (info m !! a) <-> is_Some (m !! a).
Proof. unfold info. by rewrite lookup_fmap, fmap_is_Some. Qed.

Lemma info_eq m m' a x : info m' = info m -> m' !! a = Some x -> exists y, m !! a = Some y /\ reversed y = reversed x /\ key y = key x /\ data y = data x.
Proof.
  intros H Hx. assert (info m' !! a = Some (reversed x, key x, data x)) as Hi by (apply info_lookup; eauto).
  rewrite H in Hi. apply info_lookup in Hi as (y & Hy & E). exists y. by injection E as -> -> ->.
Qed.

Definition bkt ht i : option (option ptr) := buckets ht !! Z.to_nat i.
Definition inited ht i : Prop := exists p, bkt ht i = Some (Some p).

Definition same_size ht ht' : Prop :=
  num_elements ht' = num_elements ht /\ num_buckets ht' = num_buckets ht /\ next_grow ht' = next_grow ht /\ mask ht' = mask ht.

(** Writing the pointer after the last entry of a segment. *)
Lemma store_seg ht i p l q q' :
  0 <= i -> bkt ht i = Some (Some p) -> seg (mem ht) p l q -> NoDup l ->
  load (endloc i l) ht = Some q /\
  exists ht' p', store (endloc i l) q' ht = Some ht' /\ seg (mem ht') p' l q' /\ buckets ht' = <[Z.to_nat i := Some p']> (buckets ht) /\
    info (mem ht') = info (mem ht) /\ (forall a, a ∉ l -> mem ht' !! a = mem ht !! a) /\ same_size ht ht'.
Proof.
  intros Hi Hb Hs Hn. destruct l as [|a l' _] using rev_ind.
  - cbn in Hs. subst q. cbn [endloc list.last load store]. unfold bkt in Hb. rewrite Hb. split; [done|]. eexists _, q'. split; [reflexivity|]. done.
  - rewrite endloc_snoc. apply seg_app in Hs as (r & H1 & -> & e & He & Hq). cbn in Hq. cbn [load store]. rewrite He. cbn. split; [by rewrite Hq|].
    eexists _, p. split; [reflexivity|]. cbn. apply list.NoDup_app in Hn as (Hn1 & Hn2 & _).
    assert (a ∉ l') as Ha by (intros H; apply (Hn2 _ H); by left).
    split; [|split; [|split; [|split]]].
    + apply seg_app. exists (node a). split.
      * apply (seg_frame (mem ht)); [|done]. intros b e' Hb' He'. exists e'. split; [|done]. rewrite lookup_insert_ne; [done|]. by intros ->.
      * split; [done|]. eexists. split; [apply lookup_insert_eq|]. done.
    + symmetry. by apply list_insert_id.
    + unfold info. rewrite fmap_insert. apply insert_id. rewrite lookup_fmap, He. done.
    + intros b Hb'. apply lookup_insert_ne. intros ->. apply Hb'. apply elem_of_app. right. by left.
    + done.
Qed.

(** ** The chains of a table *)

(** There are [2 ^ K] buckets and [C i] is the chain of bucket [i]. *)
Record shape (K : Z) (C : Z -> list nat) ht : Prop := {
  s_K : 6 <= K <= 31;
  s_num : num_buckets ht = 2 ^ K;
  s_mask : mask ht = 2 ^ K - 1;
  s_grow : next_grow ht = u32 (5 * 2 ^ (K - 1));
  s_len : length (buckets ht) = Z.to_nat (2 ^ K);
  s_chain i p : 0 <= i < 2 ^ K -> bkt ht i = Some (Some p) -> seg (mem ht) p (C i) null;
  s_empty i : 0 <= i < 2 ^ K -> bkt ht i = Some None -> C i = [];
  s_nodup i : 0 <= i < 2 ^ K -> NoDup (C i);
  s_disj i j a : 0 <= i < 2 ^ K -> 0 <= j < 2 ^ K -> a ∈ C i -> a ∈ C j -> i = j;
  s_dom a : is_Some (mem ht !! a) <-> exists i, 0 <= i < 2 ^ K /\ a ∈ C i }.

Lemma bkt_some K C ht i : shape K C ht -> 0 <= i < 2 ^ K -> is_Some (bkt ht i).
Proof. intros S Hi. unfold bkt. apply lookup_lt_is_Some. rewrite (s_len _ _ _ S). lia. Qed.

Lemma inited_dec ht i : inited ht i \/ ~ inited ht i.
Proof. unfold inited. destruct (bkt ht i) as [[p|]|]; [left; by exists p|right; by intros [p ?]|right; by intros [p ?]]. Qed.

Lemma not_inited K C ht i : shape K C ht -> 0 <= i < 2 ^ K -> ~ inited ht i -> bkt ht i = Some None.
Proof. intros S Hi H. destruct (bkt_some K C ht i S Hi) as [[p|] E]; [|done]. exfalso. apply H. by exists p. Qed.

Lemma chain_length K C ht i : shape K C ht -> 0 <= i < 2 ^ K -> (length (C i) <= size (mem ht))%nat.
Proof.
  intros S Hi. rewrite <- (size_list_to_set (C := gset nat)) by by apply (s_nodup _ _ _ S). rewrite <- size_dom. apply subseteq_size.
  intros a Ha%elem_of_list_to_set. apply elem_of_dom, (s_dom _ _ _ S). eauto.
Qed.

Lemma shape_ext K C C' ht : shape K C ht -> (forall i, 0 <= i < 2 ^ K -> C' i = C i) -> shape K C' ht.
Proof.
  intros [] HC. split; try done.
  - intros i p Hi. rewrite HC by done. eauto.
  - intros i Hi. rewrite HC by done. eauto.
  - intros i Hi. rewrite HC by done. eauto.
  - intros i j a Hi Hj. rewrite !HC by done. eauto.
  - intros a. rewrite s_dom0. split; intros (i & Hi & Ha); exists i; (split; [done|]); [by rewrite HC|by rewrite <- HC].
Qed.

Lemma bkt_insert K C ht ht' i j b : shape K C ht -> 0 <= i < 2 ^ K -> 0 <= j -> buckets ht' = <[Z.to_nat i := b]> (buckets ht) ->
  bkt ht' j = if decide (j = i) then Some b else bkt ht j.
Proof.
  intros S Hi Hj E. unfold bkt. rewrite E. case_decide as Hd.
  - subst. apply list_lookup_insert_eq. rewrite (s_len _ _ _ S). lia.
  - apply list_lookup_insert_ne. lia.
Qed.

(** The end of a chain becomes the chain of a bucket that has none. *)
Lemma cut K C ht t r l1 a l2 :
  shape K C ht -> 0 <= t < 2 ^ K -> 0 <= r < 2 ^ K -> inited ht t -> bkt ht r = Some None -> C t = l1 ++ a :: l2 ->
  exists ht', (ht ← store (endloc t l1) null ht; store (Bucket r) (node a) ht) = Some ht' /\
    shape K (fun i => if decide (i = t) then l1 else if decide (i = r) then a :: l2 else C i) ht' /\
    info (mem ht') = info (mem ht) /\ same_size ht ht' /\ (forall i, 0 <= i -> inited ht' i <-> inited ht i \/ i = r).
Proof.
  intros S Ht Hr [p Hp] Hn Hc. assert (r <> t) as Hrt by congruence. pose proof (s_chain _ _ _ S t p Ht Hp) as Hs. pose proof (s_nodup _ _ _ S t Ht) as Hnd. rewrite Hc in Hs, Hnd.
  apply seg_app in Hs as (q & H1 & H2). apply list.NoDup_app in Hnd as (Hnd1 & Hnd2 & Hnd3).
  destruct (store_seg ht t p l1 q null) as (_ & h1 & p' & E1 & G1 & B1 & I1 & F1 & S1); [lia|done|done|done|].
  rewrite E1. cbn [mbind option_bind]. cbn [store].
  assert (bkt h1 r = Some None) as Hr1 by (rewrite (bkt_insert K C ht h1 t r (Some p') S Ht ltac:(lia) B1), decide_False by done; done).
  unfold bkt in Hr1. rewrite Hr1. cbn [mbind option_bind]. eexists. split; [reflexivity|].
  set (h2 := h1 <| buckets := _ |>).
  assert (forall i, 0 <= i -> bkt h2 i = if decide (i = r) then Some (Some (node a)) else if decide (i = t) then Some (Some p') else bkt ht i) as Hb.
  { intros i Hi. rewrite <- (bkt_insert K C ht h1 t i (Some p') S Ht Hi B1). unfold bkt, h2. cbn. case_decide as Hd.
    - subst. apply list_lookup_insert_eq. rewrite B1, length_insert, (s_len _ _ _ S). lia.
    - apply list_lookup_insert_ne. lia. }
  assert (forall b, b ∉ l1 -> mem h2 !! b = mem ht !! b) as Hf by exact F1.
  assert (seg (mem h2) (node a) (a :: l2) null) as G2.
  { destruct H2 as (-> & H2). apply (seg_frame (mem ht)); [|done]. intros b e Hb' He. exists e. split; [|done]. rewrite Hf; [done|]. intros H. by apply (Hnd2 b). }
  split; [|split; [done|split; [done|]]].
  - destruct S as [s1 s2 s3 s4 s5 s6 s7 s8 s9 s10], S1 as (z1 & z2 & z3 & z4). split; try done; cbn; try congruence.
    + by rewrite length_insert, B1, length_insert.
    + intros i pi Hi. rewrite Hb by lia. destruct (decide (i = t)) as [-> |Hit]; [|destruct (decide (i = r)) as [-> |Hir]].
      * rewrite decide_False by done. intros [= <-]. exact G1.
      * intros [= <-]. exact G2.
      * intros Hpi. apply (seg_frame (mem ht)); [|by apply s6].
        intros b e Hbi He. exists e. split; [|done]. rewrite Hf; [done|]. intros Hbl. apply Hit, (s9 i t b); [done|done|done|]. rewrite Hc. apply elem_of_app. by left.
    + intros i Hi. rewrite Hb by lia. repeat case_decide; try done; try congruence. by apply s7.
    + intros i Hi. repeat case_decide; [done|done|by apply s8].
    + intros i j b Hi Hj. assert (forall i, 0 <= i < 2 ^ K -> b ∈ (if decide (i = t) then l1 else if decide (i = r) then a :: l2 else C i) -> b ∈ C (if decide (i = r) then t else i)) as Hin.
      { intros k Hk. repeat case_decide; subst; try done; rewrite ?Hc, ?elem_of_app; try tauto. }
      intros H1' H2'. pose proof (Hin i Hi H1') as X1. pose proof (Hin j Hj H2') as X2.
      assert (forall k, 0 <= k < 2 ^ K -> 0 <= (if decide (k = r) then t else k) < 2 ^ K) as Hrg by (intros k Hk; destruct (decide (k = r)); [exact Ht|exact Hk]).
      pose proof (s9 _ _ b (Hrg i Hi) (Hrg j Hj) X1 X2) as X. repeat case_decide; subst; try done; try congruence.
      * exfalso. by apply (Hnd2 b).
      * exfalso. by apply (Hnd2 b).
    + intros b. change (mem h2) with (mem h1). rewrite <- (info_iff _ _ _ I1), s10. split.
      * intros (i & Hi & Hbi). destruct (decide (i = t)) as [-> |Hit].
        -- rewrite Hc, elem_of_app in Hbi. destruct Hbi; [exists t|exists r]; (split; [done|]); [by rewrite decide_True|by rewrite decide_False, decide_True].
        -- exists i. split; [done|]. rewrite decide_False by done. case_decide; [|done]. subst. rewrite (s7 r Hr Hn) in Hbi. by apply not_elem_of_nil in Hbi.
      * intros (i & Hi & Hbi). repeat case_decide; subst; [exists t|exists t|exists i]; (split; [done|]); rewrite ?Hc, ?elem_of_app; auto.
  - intros i Hi. unfold inited. rewrite Hb by done. destruct (decide (i = r)) as [-> |]; [|destruct (decide (i = t)) as [-> |]].
    + split; [by right|]. intros _. by eexists.
    + split; [|intros _; by eexists]. intros _. left. by exists p.
    + split; [by left|]. by intros [|].
Qed.
(** ** Splitting a chain *)

Lemma land_mask K k : 0 <= K -> k &z (2 ^ K - 1) = k mod 2 ^ K.
Proof. intros HK. rewrite <- Z.land_ones by done. f_equal. rewrite Z.ones_equiv. lia. Qed.

Definition keyof (I : gmap nat (Z * Z * D)) (a : nat) : Z := match I !! a with Some (_, k, _) => k | None => 0 end.

Lemma keyof_info m a e : m !! a = Some e -> keyof (info m) a = key e.
Proof. intros H. unfold keyof. by rewrite (proj2 (info_lookup m a _) (ex_intro _ e (conj H eq_refl))). Qed.

Section Split.
Context (K : Z) (I : gmap nat (Z * Z * D)) (parent : Z) (C : Z -> list nat) (init : Z -> Prop).
Definition real (a : nat) : Z := keyof I a mod 2 ^ K.

(** The chains when the entries [done] have been looked at; those to come are still
    at the end of one of them. *)
Definition parts (done : list nat) (i : Z) : list nat := (if decide (i = parent) then [] else C i) ++ filter (fun a => real a = i) done.
Definition this_of (done : list nat) : Z := match list.last done with None => parent | Some z => real z end.

(** Entries of one bucket are next to each other, and none of the others has its
    own bucket yet. *)
Context (Hparent : 0 <= parent < 2 ^ K).
Context (Hrun : forall d1 a d2, d1 ++ a :: d2 = C parent -> real a <> this_of d1 -> real a <> parent /\ (forall x, x ∈ d1 -> real x <> real a)).
Context (Hnew : forall a, a ∈ C parent -> real a <> parent -> ~ init (real a)).

Lemma parts_end done a : parts (done ++ [a]) (real a) = parts done (real a) ++ [a].
Proof. unfold parts. rewrite list.filter_app, list.filter_cons_True by done. by rewrite app_assoc. Qed.

Lemma parts_other done a i : real a <> i -> parts (done ++ [a]) i = parts done i.
Proof. intros H. unfold parts. rewrite list.filter_app, list.filter_cons_False by done. by rewrite app_nil_r. Qed.

Lemma this_snoc done a : this_of (done ++ [a]) = real a.
Proof. unfold this_of. by rewrite list.last_snoc. Qed.

Lemma real_range a : 0 <= K -> 0 <= real a < 2 ^ K.
Proof. intros. apply Z.mod_pos_bound. lia. Qed.

Lemma fixup_loop_spec rest : forall done fuel ht,
  done ++ rest = C parent -> shape K (fun i => parts done i ++ if decide (i = this_of done) then rest else []) ht -> info (mem ht) = I ->
  (forall i, 0 <= i < 2 ^ K -> inited ht i <-> (init i \/ i = parent) \/ exists x, x ∈ done /\ real x = i) ->
  (forall i, 0 <= i < 2 ^ K -> ~ init i -> i <> parent -> C i = []) -> (length rest < fuel)%nat ->
  exists ht', fixup_loop fuel ht (endloc (this_of done) (parts done (this_of done))) (head_of rest) (this_of done) = Some ht' /\
    shape K (parts (done ++ rest)) ht' /\ info (mem ht') = I /\ same_size ht ht' /\
    (forall i, 0 <= i < 2 ^ K -> inited ht' i <-> (init i \/ i = parent) \/ exists x, x ∈ C parent /\ real x = i).
Proof using Hparent Hrun Hnew.
  induction rest as [|a rest IH]; intros done fuel ht Hl S HI Hin HC Hf.
  - exists ht. rewrite app_nil_r in *. split; [by destruct fuel|]. split; [|split; [done|split; [done|by rewrite <- Hl]]].
    apply (shape_ext K _ _ ht S). intros i Hi. case_decide; by rewrite app_nil_r.
  - destruct fuel as [|fuel]; [cbn in Hf; lia|]. cbn [head_of fixup_loop].
    pose proof (s_K _ _ _ S) as HK. set (t := this_of done) in *.
    assert (0 <= t < 2 ^ K) as Ht by (unfold t, this_of; destruct (list.last done); [apply real_range; lia|done]).
    assert (inited ht t) as Hti.
    { apply Hin; [done|]. unfold t, this_of. destruct (list.last done) as [z|] eqn:E; [|auto]. right. exists z. split; [|done]. by apply list.last_Some_elem_of in E. }
    assert (is_Some (mem ht !! a)) as [e He].
    { apply (s_dom _ _ _ S). exists t. split; [done|]. rewrite decide_True by done. apply elem_of_app. right. by left. }
    assert (key e &z mask ht = real a) as Hr.
    { rewrite (s_mask _ _ _ S), land_mask by lia. unfold real. rewrite <- HI. by rewrite (keyof_info _ _ e He). }
    rewrite He. cbn [mbind option_bind]. rewrite Hr.
    assert (exists ht1, (if real a =? t then Some ht else ht ← store (endloc t (parts done t)) null ht; store (Bucket (real a)) (node a) ht) = Some ht1 /\
      shape K (fun i => parts (done ++ [a]) i ++ if decide (i = this_of (done ++ [a])) then rest else []) ht1 /\ info (mem ht1) = I /\ same_size ht ht1 /\
      (forall i, 0 <= i < 2 ^ K -> inited ht1 i <-> (init i \/ i = parent) \/ exists x, x ∈ done ++ [a] /\ real x = i)) as (ht1 & -> & S1 & I1 & Z1 & N1).
    { destruct (real a =? t) eqn:E; simpl_bool.
      - exists ht. split; [done|]. split; [|split; [done|split; [done|]]].
        + apply (shape_ext K _ _ ht S). intros i Hi. rewrite this_snoc, E. case_decide as Hd; [|by rewrite parts_other by congruence].
          subst i. rewrite <- E at 1. rewrite parts_end, E. by rewrite <- app_assoc.
        + intros i Hi. rewrite Hin by done. setoid_rewrite elem_of_app. split; [|intros [?|(x & [Hx|Hx%list_elem_of_singleton] & Hxi)]]; [intros [?|(x & Hx & Hxi)]; eauto 6|auto|eauto 6|].
          subst. destruct Hti as [p Hp]. apply Hin; [done|]. rewrite E. by exists p.
      - destruct (Hrun done a rest Hl E) as [Hap Had]. pose proof (real_range a ltac:(lia)) as Hra.
        assert (~ init (real a)) as Hni by (apply Hnew; [rewrite <- Hl; apply elem_of_app; right; by left|done]).
        assert (bkt ht (real a) = Some None) as Hb.
        { apply (not_inited K _ ht _ S Hra). rewrite Hin by done. intros [[?|?]|(x & Hx & Hxa)]; [done|done|by apply (Had x)]. }
        destruct (cut K _ ht t (real a) (parts done t) a rest S Ht Hra Hti Hb) as (ht1 & E1 & S1 & I1 & Z1 & N1); [by rewrite decide_True|].
        exists ht1. split; [exact E1|]. split; [|split; [congruence|split; [done|]]].
        + apply (shape_ext K _ _ ht1 S1). intros i Hi. rewrite this_snoc. destruct (decide (i = real a)) as [-> |Hia].
          * rewrite decide_False by done. rewrite parts_end. unfold parts at 1. rewrite decide_False by done. rewrite HC by done. cbn [app].
            replace (filter (fun x => real x = real a) done) with (@nil nat); [done|]. symmetry. by apply filter_none.
          * rewrite parts_other, app_nil_r by done. case_decide as Hit; [by subst|]. by rewrite app_nil_r.
        + intros i Hi. rewrite N1 by lia. rewrite Hin by done. setoid_rewrite elem_of_app. split.
          * intros [[?|(x & Hx & Hxi)]| ->]; [auto|eauto 6|]. right. exists a. split; [right; by left|done].
          * intros [?|(x & [Hx|Hx%list_elem_of_singleton] & Hxi)]; [auto|eauto 6|]. subst. by right. }
    cbn [mbind option_bind].
    assert (exists e1, mem ht1 !! a = Some e1 /\ next e1 = head_of rest) as (e1 & He1 & Hn1).
    { assert (inited ht1 (real a)) as [p Hp]. { apply N1; [apply real_range; lia|]. right. exists a. split; [apply elem_of_app; right; by left|done]. }
      pose proof (s_chain _ _ _ S1 (real a) p (real_range a ltac:(lia)) Hp) as Hs. rewrite this_snoc, decide_True, parts_end in Hs by done.
      rewrite <- app_assoc in Hs. apply seg_app in Hs as (q & _ & Hq & e1 & He1 & Hs). exists e1. split; [done|]. by eapply seg_head. }
    rewrite He1. cbn [mbind option_bind]. rewrite Hn1.
    destruct (IH (done ++ [a]) fuel ht1) as (ht' & E' & S' & I' & Z' & N'); [by rewrite <- app_assoc|done|done|done|done|cbn in Hf; lia|].
    rewrite this_snoc, parts_end, endloc_snoc in E'. exists ht'. rewrite <- app_assoc in S'. split; [done|]. split; [done|]. split; [done|]. split; [|done].
    destruct Z1 as (? & ? & ? & ?), Z' as (? & ? & ? & ?). repeat split; congruence.
Qed.
End Split.
End Chain.
End HashChain.
