(* ===== verification/HashInv.v ===== *)
(** The invariant of a hash table (HashTable): which chain an entry is in, and that
    [fr_hash_table_fixup] keeps it. *)

From stdpp Require Import gmap sorting.
From S2P Require Import Prelude HashTable HashBits HashChain.
Import HashTable HashBits HashChain.

Module HashInv.

(** ** Ancestors of a bucket *)

Definition anc (i r : Z) : Prop := exists j, 0 <= j /\ i = r mod 2 ^ j.

Lemma mod_mod_pow k a b : 0 <= b <= a -> (k mod 2 ^ a) mod 2 ^ b = k mod 2 ^ b.
Proof.
  intros H. apply Z.bits_inj_iff'. intros i Hi. destruct (Z.lt_ge_cases i b).
  - by rewrite !Z.mod_pow2_bits_low by lia.
  - by rewrite !(Z.mod_pow2_bits_high _ b) by lia.
Qed.

Lemma pow_pos a : 0 <= a -> 0 < 2 ^ a.
Proof. lia. Qed.

Lemma anc_refl r : 0 <= r -> anc r r.
Proof. intros H. exists (Z.log2 r + 1). pose proof (Z.log2_nonneg r). split; [lia|]. symmetry. apply Z.mod_small. split; [done|].
  destruct (Z.eq_dec r 0) as [-> |]; [done|]. pose proof (Z.log2_spec r ltac:(lia)). rewrite Z.add_1_r. lia. Qed.

Lemma anc_range i r : 0 <= r -> anc i r -> 0 <= i <= r.
Proof. intros H (j & Hj & ->). pose proof (pow_pos j Hj). split; [by apply Z.mod_pos_bound|by apply Z.mod_le]. Qed.

Lemma anc_trans i j r : anc i j -> anc j r -> anc i r.
Proof.
  intros (a & Ha & ->) (b & Hb & ->). destruct (Z.le_ge_cases a b).
  - exists a. split; [done|]. by apply mod_mod_pow.
  - exists b. split; [done|]. pose proof (pow_pos a Ha). pose proof (Z.mod_pos_bound r (2 ^ b) (pow_pos b Hb)). apply Z.mod_small.
    split; [lia|]. apply Z.lt_le_trans with (2 ^ b); [lia|]. apply Z.pow_le_mono_r; lia.
Qed.

Lemma anc_total i j r : 0 <= r -> anc i r -> anc j r -> i <= j -> anc i j.
Proof.
  intros Hr (a & Ha & ->) (b & Hb & ->) Hij. destruct (Z.le_ge_cases a b).
  - exists a. split; [done|]. symmetry. by apply mod_mod_pow.
  - assert (r mod 2 ^ b <= r mod 2 ^ a) as Hle.
    { rewrite <- (mod_mod_pow r a b) by lia. apply Z.mod_le; [|apply pow_pos; lia]. apply Z.mod_pos_bound, pow_pos. lia. }
    replace (r mod 2 ^ a) with (r mod 2 ^ b) by lia. apply anc_refl. apply Z.mod_pos_bound, pow_pos. lia.
Qed.

Lemma anc_parent i r : 0 < r < 2 ^ 32 -> anc i r -> i <> r -> anc i (parent_of r).
Proof.
  intros Hr (a & Ha & ->) Hne. rewrite parent_of_spec by done. exists a. split; [done|]. symmetry. apply mod_mod_pow. split; [done|].
  destruct (Z.le_gt_cases a (Z.log2 r)); [done|]. exfalso. apply Hne, Z.mod_small. pose proof (Z.log2_spec r ltac:(lia)) as [_ H1]. split; [lia|].
  apply Z.lt_le_trans with (2 ^ Z.succ (Z.log2 r)); [done|]. apply Z.pow_le_mono_r; lia.
Qed.

Lemma parent_anc r : 0 < r < 2 ^ 32 -> anc (parent_of r) r.
Proof. intros Hr. rewrite parent_of_spec by done. exists (Z.log2 r). split; [apply Z.log2_nonneg|done]. Qed.

Lemma parent_lt r n : 0 < r < 2 ^ 32 -> r < 2 ^ n -> 0 <= parent_of r < r /\ parent_of r < 2 ^ (n - 1).
Proof.
  intros Hr Hn. rewrite parent_of_spec by done. pose proof (Z.log2_spec r ltac:(lia)) as [H1 H2]. pose proof (Z.log2_nonneg r).
  pose proof (Z.mod_pos_bound r (2 ^ Z.log2 r) ltac:(lia)). assert (Z.log2 r < n) by (apply Z.log2_lt_pow2; lia).
  pose proof (Z.pow_le_mono_r 2 (Z.log2 r) (n - 1) ltac:(lia) ltac:(lia)). lia.
Qed.

Lemma anc_grow i r K : 0 <= K -> 0 <= r -> anc i r -> i < 2 ^ K -> anc i (r mod 2 ^ K).
Proof.
  intros HK Hr (a & Ha & ->) Hi. destruct (Z.le_ge_cases a K).
  - exists a. split; [done|]. symmetry. by apply mod_mod_pow.
  - assert (r mod 2 ^ a = r mod 2 ^ K) as ->; [|apply anc_refl, Z.mod_pos_bound, pow_pos, HK].
    rewrite <- (mod_mod_pow r a K) by lia. symmetry. apply Z.mod_small. split; [|done]. apply Z.mod_pos_bound, pow_pos, Ha.
Qed.

Section Inv.
Context {D : Type} (hash : D -> Z) (Hhash : forall d, is_u32 (hash d)).
Notation table := (fr_hash_table_t D).

(** ** The invariant *)

(** An entry whose own bucket is [r] is in the chain of the nearest ancestor of [r]
    that is in use. *)
Definition own (init : Z -> Prop) (i r : Z) : Prop := anc i r /\ forall j, anc j r -> init j -> j <= i.

Definition kf (ht : table) (a : nat) : Z := keyof (info (mem ht)) a.

Record good (K : Z) (C : Z -> list nat) (ht : table) : Prop := {
  g_shape : shape K C ht;
  g_zero : inited ht 0;
  g_info a e : mem ht !! a = Some e -> reversed e = reverse (key e) /\ key e = hash (data e);
  g_sorted i : 0 <= i < 2 ^ K -> StronglySorted (fun a b => reverse (kf ht a) <= reverse (kf ht b)) (C i);
  g_own i a : 0 <= i < 2 ^ K -> a ∈ C i -> own (inited ht) i (kf ht a mod 2 ^ K) }.

Lemma kf_lookup (ht : table) a e : mem ht !! a = Some e -> kf ht a = key e.
Proof. apply keyof_info. Qed.

Lemma kf_u32 K C ht a : good K C ht -> is_u32 (kf ht a).
Proof using Hhash.
  intros G. unfold kf, keyof. destruct (info (mem ht) !! a) as [[[r k] d]|] eqn:E; [|done]. apply info_lookup in E as (e & He & [= -> -> ->]).
  destruct (g_info _ _ _ G a e He) as [_ ->]. apply Hhash.
Qed.

Lemma nonempty_inited K C (ht : table) i a : shape K C ht -> 0 <= i < 2 ^ K -> a ∈ C i -> inited ht i.
Proof.
  intros S Hi Ha. destruct (inited_dec ht i) as [H|H]; [done|]. rewrite (s_empty _ _ _ S i Hi) in Ha; [by apply not_elem_of_nil in Ha|].
  by eapply not_inited.
Qed.

(** Entries of one bucket are next to each other. *)
Lemma runs K C ht p : good K C ht -> 0 <= p < 2 ^ K -> forall d1 a d2, d1 ++ a :: d2 = C p ->
  real K (info (mem ht)) a <> this_of K (info (mem ht)) p d1 ->
  real K (info (mem ht)) a <> p /\ (forall x, x ∈ d1 -> real K (info (mem ht)) x <> real K (info (mem ht)) a).
Proof using Hhash.
  intros G Hp d1 a d2 Hl Hne. pose proof (s_K _ _ _ (g_shape _ _ _ G)) as HK. destruct d1 as [|w d1 _] using rev_ind; [by split; [|intros x Hx%not_elem_of_nil]|].
  rewrite this_snoc in Hne. pose proof (g_sorted _ _ _ G p Hp) as Hs. rewrite <- Hl in Hs.
  assert (forall x y, (x = y \/ (fun a b => reverse (kf ht a) <= reverse (kf ht b)) x y) -> top K (kf ht x) <= top K (kf ht y)) as Ht.
  { intros x y [-> |H]; [done|]. apply top_mono; [lia|done]. }
  assert (forall x y, real K (info (mem ht)) x = real K (info (mem ht)) y <-> top K (kf ht x) = top K (kf ht y)) as He.
  { intros. symmetry. apply top_eq; [by eapply kf_u32|by eapply kf_u32|lia]. }
  rewrite <- app_assoc in Hs. apply StronglySorted_app in Hs as (Hdz & _ & Hza). cbn in Hza. apply StronglySorted_cons in Hza as [Hza _].
  apply list.Forall_cons in Hza as [Hza _].
  assert (top K (kf ht w) < top K (kf ht a)) as Hlt. { pose proof (Ht w a (or_intror Hza)). rewrite He in Hne. lia. }
  split.
  - intros Hap. assert (w ∈ C p) as Hz by (rewrite <- Hl; apply elem_of_app; left; apply elem_of_app; right; by left).
    destruct (g_own _ _ _ G p w Hp Hz) as [(j & Hj & Hpz) _]. pose proof (kf_u32 _ _ _ w G) as Hu.
    assert (top K p <= top K (kf ht w)) as Hpt.
    { apply top_mono; [lia|]. destruct (Z.le_ge_cases j K).
      - rewrite mod_mod_pow in Hpz by lia. rewrite Hpz. apply reverse_ancestor; [done|lia].
      - rewrite Z.mod_small in Hpz; [rewrite Hpz; apply reverse_ancestor; [done|lia]|].
        pose proof (Z.mod_pos_bound (kf ht w) (2 ^ K) ltac:(lia)). pose proof (Z.pow_le_mono_r 2 K j ltac:(lia) ltac:(lia)). lia. }
    assert (top K p = top K (kf ht a)) as Hpa; [|lia]. apply top_eq; [|by eapply kf_u32|lia|].
    + split; [lia|]. apply Z.lt_le_trans with (2 ^ K); [lia|]. change 4294967296 with (2 ^ 32). apply Z.pow_le_mono_r; lia.
    + rewrite Z.mod_small by lia. done.
  - intros x Hx. apply elem_of_app in Hx as [Hx|Hx%list_elem_of_singleton]; [|by subst; intros E; apply Hne].
    rewrite He. specialize (Hdz x w Hx ltac:(by left)). pose proof (Ht x w (or_intror Hdz)). lia.
Qed.

(** The entries with each hash, in the order of their chain. *)
Definition grp (I : gmap nat (Z * Z * D)) (k : Z) (l : list nat) : list nat := filter (fun a => keyof I a = k) l.

Definition groups (K : Z) (I : gmap nat (Z * Z * D)) (C : Z -> list nat) (M : Z -> list nat) : Prop :=
  (forall i k, 0 <= i < 2 ^ K -> grp I k (C i) = [] \/ grp I k (C i) = M k) /\
  (forall k, exists i, 0 <= i < 2 ^ K /\ grp I k (C i) = M k).

Lemma grp_real K I k i l : grp I k (filter (fun a => real K I a = i) l) = if decide (k mod 2 ^ K = i) then grp I k l else [].
Proof.
  unfold grp. case_decide as Hd.
  - rewrite list_filter_filter. apply list_filter_iff. intros a. unfold real. split; [tauto|]. by intros ->.
  - apply filter_none. intros a [Ha _]%list_elem_of_filter Hk. apply Hd. by rewrite <- Hk.
Qed.

Lemma sorted_filter {A} (R : relation A) (P : A -> Prop) `{forall x, Decision (P x)} (l : list A) : StronglySorted R l -> StronglySorted R (filter P l).
Proof.
  induction l as [|x l IH]; [done|]. intros [Hx Hl]%StronglySorted_cons. rewrite list.filter_cons. case_decide; [|by apply IH].
  apply StronglySorted_cons. split; [|by apply IH]. rewrite list.Forall_forall in *. intros y [_ Hy]%list_elem_of_filter. by apply Hx.
Qed.

(** A new bucket below [p] takes nothing from the other chains. *)
Lemma own_keep (init init' : Z -> Prop) p i r :
  0 <= r -> init p -> init i -> i <> p -> (forall j, 0 <= j <= r -> init' j -> init j \/ own init p j) -> own init i r -> own init' i r.
Proof.
  intros Hr Hp Hi Hne Hn [Ha Hm]. split; [done|]. intros j Hj Hij. destruct (Hn j (anc_range _ _ Hr Hj) Hij) as [H|[Hpj Hpm]]; [by apply Hm|].
  destruct (Z.le_gt_cases j i); [done|]. exfalso. apply Hne. assert (anc i j) as Hij' by (apply (anc_total i j r); [done|done|done|lia]).
  pose proof (Hpm i Hij' Hi). pose proof (Hm p (anc_trans _ _ _ Hpj Hj) Hp). lia.
Qed.

Section Fix.
Context (K : Z) (C : Z -> list nat) (ht : table) (G : good K C ht) (p : Z) (Hp : 0 <= p < 2 ^ K) (Hpi : inited ht p).
Let I : gmap nat (Z * Z * D) := info (mem ht).
Let C' : Z -> list nat := parts K I p C (C p).

Lemma in_range_K i : 0 <= i < 2 ^ K -> 0 <= K.
Proof using G. intros _. pose proof (s_K _ _ _ (g_shape _ _ _ G)). lia. Qed.

Lemma parts_inited i : inited ht i -> i <> p -> 0 <= i < 2 ^ K -> C' i = C i.
Proof using G Hp Hpi.
  intros Hi Hne Hr. unfold C', parts. rewrite decide_False by done. rewrite (filter_none _ (C p)); [apply app_nil_r|].
  intros a Ha Hai. destruct (g_own _ _ _ G p a Hp Ha) as [H1 H2]. change (kf ht a mod 2 ^ K) with (real K I a) in H1, H2. rewrite Hai in H1, H2.
  apply Hne. pose proof (anc_range _ _ (proj1 Hr) H1). pose proof (H2 i (anc_refl i (proj1 Hr)) Hi). lia.
Qed.

Lemma parts_new i : ~ inited ht i \/ i = p -> 0 <= i < 2 ^ K -> C' i = filter (fun a => real K I a = i) (C p).
Proof using G.
  intros Hi Hr. unfold C', parts. case_decide; [done|]. destruct Hi as [Hi|Hi]; [|done].
  rewrite (s_empty _ _ _ (g_shape _ _ _ G) i Hr); [done|]. apply (not_inited K C); [apply G|done|done].
Qed.

Lemma parts_groups M : groups K I C M -> groups K I C' M.
Proof using G Hp Hpi.
  intros [G1 G2]. pose proof (s_K _ _ _ (g_shape _ _ _ G)) as HK.
  assert (forall i k, 0 <= i < 2 ^ K -> grp I k (C' i) = [] \/ grp I k (C' i) = M k) as G1'.
  { intros i k Hi. destruct (inited_dec ht i) as [Hii|Hii]; [destruct (decide (i = p))|].
    - rewrite parts_new, grp_real by auto. case_decide; [by apply G1|by left].
    - rewrite parts_inited by done. by apply G1.
    - rewrite parts_new, grp_real by auto. case_decide; [by apply G1|by left]. }
  split; [done|]. intros k. assert (0 <= k mod 2 ^ K < 2 ^ K) as Hk by (apply Z.mod_pos_bound; lia).
  destruct (decide (M k = [])) as [Hm|Hm]. { exists 0. split; [lia|]. destruct (G1' 0 k) as [H|H]; [lia|congruence|done]. }
  destruct (G2 k) as (i & Hi & Hgi). destruct (decide (i = p)) as [-> |Hne].
  - exists (k mod 2 ^ K). split; [done|]. destruct (inited_dec ht (k mod 2 ^ K)) as [Hii|Hii]; [destruct (decide (k mod 2 ^ K = p)) as [E|E]|].
    + rewrite parts_new, grp_real by auto. by rewrite decide_True.
    + exfalso. apply Hm. rewrite <- Hgi. apply filter_none. intros a Ha Hak. destruct (g_own _ _ _ G p a Hp Ha) as [H1 H2].
      unfold kf in H1, H2. change (info (mem ht)) with I in H1, H2. rewrite Hak in H1, H2. apply E. pose proof (anc_range _ _ (proj1 Hk) H1). pose proof (H2 _ (anc_refl _ (proj1 Hk)) Hii). lia.
    + rewrite parts_new, grp_real by auto. by rewrite decide_True.
  - exists i. split; [done|]. rewrite parts_inited; [done| |done|done]. destruct (grp I k (C i)) as [|a l] eqn:E; [congruence|].
    apply (nonempty_inited K C ht i a); [apply G|done|]. assert (a ∈ grp I k (C i)) as Ha by (rewrite E; by left). by apply list_elem_of_filter in Ha as [_ ?].
Qed.

Lemma parts_sorted i : 0 <= i < 2 ^ K -> StronglySorted (fun a b => reverse (keyof I a) <= reverse (keyof I b)) (C' i).
Proof using G Hp Hpi.
  intros Hi. destruct (inited_dec ht i) as [Hii|Hii]; [destruct (decide (i = p))|].
  - rewrite parts_new by auto. apply sorted_filter, (g_sorted _ _ _ G p Hp).
  - rewrite parts_inited by done. apply (g_sorted _ _ _ G i Hi).
  - rewrite parts_new by auto. apply sorted_filter, (g_sorted _ _ _ G p Hp).
Qed.

Lemma parts_own init' i a : (forall j, 0 <= j < 2 ^ K -> init' j -> inited ht j \/ own (inited ht) p j) -> 0 <= i < 2 ^ K -> a ∈ C' i -> own init' i (keyof I a mod 2 ^ K).
Proof using G Hp Hpi.
  intros Hn Hi Ha. assert (0 <= keyof I a mod 2 ^ K < 2 ^ K) as Hr by (apply Z.mod_pos_bound; pose proof (s_K _ _ _ (g_shape _ _ _ G)); lia).
  assert (a ∈ filter (fun a => real K I a = i) (C p) -> own init' i (keyof I a mod 2 ^ K)) as Hf.
  { intros [Hai _]%list_elem_of_filter. unfold real in Hai. rewrite Hai. split; [apply anc_refl, Hi|]. intros j Hj _. by apply (anc_range _ _ (proj1 Hi) Hj). }
  destruct (inited_dec ht i) as [Hii|Hii]; [destruct (decide (i = p))|].
  - apply Hf. rewrite <- parts_new by auto. done.
  - rewrite parts_inited in Ha by done. apply (own_keep (inited ht) init' p i); [lia|done|done|done| |by apply (g_own _ _ _ G)]. intros j Hj. apply Hn. lia.
  - apply Hf. rewrite <- parts_new by auto. done.
Qed.

Lemma split_spec :
  exists ht', (cur ← load (Bucket p) ht; fixup_loop (chain_fuel ht) ht (Bucket p) cur p) = Some ht' /\ shape K C' ht' /\ info (mem ht') = I /\ same_size ht ht' /\
    (forall i, 0 <= i < 2 ^ K -> inited ht' i <-> inited ht i \/ exists x, x ∈ C p /\ real K I x = i).
Proof using G Hp Hpi Hhash.
  pose proof (g_shape _ _ _ G) as S. destruct Hpi as [q Hq]. pose proof (s_chain _ _ _ S p q Hp Hq) as Hs.
  cbn [load]. unfold bkt in Hq. rewrite Hq. cbn [mbind option_bind]. rewrite (seg_head _ _ _ Hs).
  destruct (fixup_loop_spec K I p C (inited ht) Hp) with (rest := C p) (done := @nil nat) (fuel := chain_fuel ht) (ht := ht) as (ht' & E & S' & I' & Z' & N').
  - by apply runs.
  - intros a Ha Hne Hia. apply Hne. destruct (g_own _ _ _ G p a Hp Ha) as [H1 H2]. change (kf ht a mod 2 ^ K) with (real K I a) in H1, H2.
    pose proof (s_K _ _ _ S). assert (0 <= real K I a) as Hr by (apply Z.mod_pos_bound; lia). pose proof (anc_range _ _ Hr H1). pose proof (H2 _ (anc_refl _ Hr) Hia). lia.
  - done.
  - apply (shape_ext K C); [done|]. intros i Hi. unfold parts, this_of. cbn. rewrite app_nil_r. case_decide; [by subst|]. by rewrite app_nil_r.
  - done.
  - intros i Hi. split; [by left; left|]. intros [[H| ->]|(x & Hx & _)]; [done|by exists q|by apply not_elem_of_nil in Hx].
  - intros i Hi Hn _. apply (s_empty _ _ _ S i Hi). by apply (not_inited K C).
  - unfold chain_fuel. pose proof (chain_length K C ht p S Hp). lia.
  - exists ht'. unfold this_of, parts, endloc in E. cbn in E. rewrite decide_True in E by done. cbn in E. split; [exact E|]. split; [exact S'|]. split; [done|]. split; [done|].
    intros i Hi. rewrite N' by done. split; [|tauto]. intros [[H| ->]|H]; [by left|left; by exists q|by right].
Qed.
End Fix.

(** What the use of a bucket keeps. *)
Record kept (K : Z) (C : Z -> list nat) (ht : table) (C' : Z -> list nat) (ht' : table) : Prop := {
  k_info : info (mem ht') = info (mem ht);
  k_size : same_size ht ht';
  k_init i : 0 <= i < 2 ^ K -> inited ht i -> inited ht' i;
  k_groups M : groups K (info (mem ht)) C M -> groups K (info (mem ht)) C' M }.

Lemma kept_refl K C ht : kept K C ht C ht.
Proof. by split. Qed.

Lemma kept_trans K C ht C1 ht1 C2 ht2 : kept K C ht C1 ht1 -> kept K C1 ht1 C2 ht2 -> kept K C ht C2 ht2.
Proof.
  intros [a1 b1 c1 d1] [a2 b2 c2 d2]. rewrite a1 in d2. split; [congruence| |eauto|eauto].
  destruct b1 as (? & ? & ? & ?), b2 as (? & ? & ? & ?). repeat split; congruence.
Qed.

Lemma shape_empty_bucket K C (ht : table) e : shape K C ht -> 0 <= e < 2 ^ K -> bkt ht e = Some None ->
  exists ht', store (Bucket e) null ht = Some ht' /\ shape K C ht' /\ mem ht' = mem ht /\ same_size ht ht' /\ (forall i, 0 <= i -> inited ht' i <-> inited ht i \/ i = e).
Proof.
  intros S He Hb. cbn [store]. unfold bkt in Hb. rewrite Hb. cbn [mbind option_bind]. eexists. split; [reflexivity|]. set (h := ht <| buckets := _ |>).
  assert (forall i, 0 <= i -> bkt h i = if decide (i = e) then Some (Some null) else bkt ht i) as Hh by (intros i Hi; by apply (bkt_insert K C ht h e i (Some null))).
  split; [|split; [done|split; [done|]]].
  - pose proof (s_empty _ _ _ S e He Hb) as Hc. destruct S. split; try done.
    + cbn. by rewrite length_insert.
    + intros i q Hi. rewrite Hh by lia. case_decide as Hd; [|by apply s_chain0]. intros [= <-]. rewrite Hd. by rewrite Hc.
    + intros i Hi. rewrite Hh by lia. case_decide; [done|]. by apply s_empty0.
  - intros i Hi. unfold inited. rewrite Hh by done. case_decide as Hd; [|by split; [left|intros [|]]]. split; [by right|]. intros _. by eexists.
Qed.

(** The bucket's ancestor is in use. *)
Lemma fixup_last K C ht e p :
  good K C ht -> 0 <= e < 2 ^ K -> 0 <= p < e -> inited ht p -> inited ht e \/ own (inited ht) p e ->
  exists ht' C', (cur ← load (Bucket p) ht; ht ← fixup_loop (chain_fuel ht) ht (Bucket p) cur p; b ← buckets ht !! Z.to_nat e;
      match b with None => store (Bucket e) null ht | Some _ => Some ht end) = Some ht' /\
    good K C' ht' /\ kept K C ht C' ht' /\ inited ht' e /\ (forall j, 0 <= j < 2 ^ K -> inited ht j -> e < j -> C' j = C j).
Proof using Hhash.
  intros G He Hp Hpi Ho. assert (0 <= p < 2 ^ K) as Hpr by lia.
  destruct (split_spec K C ht G p Hpr Hpi) as (h1 & E1 & S1 & I1 & Z1 & N1). set (C' := parts K (info (mem ht)) p C (C p)) in *.
  destruct (load (Bucket p) ht) as [cur|]; [|done]. cbn [mbind option_bind] in E1 |- *. rewrite E1. cbn [mbind option_bind].
  destruct (bkt_some K C' h1 e S1 He) as [b Hb]. unfold bkt in Hb. rewrite Hb. cbn [mbind option_bind].
  assert (exists h2, match b with None => store (Bucket e) null h1 | Some _ => Some h1 end = Some h2 /\ shape K C' h2 /\ mem h2 = mem h1 /\ same_size h1 h2 /\
    (forall i, 0 <= i -> inited h2 i <-> inited h1 i \/ i = e)) as (h2 & -> & S2 & M2 & Z2 & N2).
  { destruct b as [q|]; [|by apply shape_empty_bucket]. exists h1. split; [done|]. split; [done|]. split; [done|]. split; [done|].
    intros i Hi. split; [by left|]. intros [H| ->]; [done|by exists q]. }
  exists h2, C'. split; [done|].
  assert (info (mem h2) = info (mem ht)) as I2 by (by rewrite M2, I1).
  assert (forall i, 0 <= i < 2 ^ K -> inited ht i -> inited h2 i) as Hmono by (intros i Hi H; apply N2; [lia|]; left; apply N1; auto).
  split; [|split; [|split]].
  - split; [done| | | |].
    + apply Hmono; [lia|apply G].
    + intros a x Hx. destruct (info_eq _ _ _ _ I2 Hx) as (y & Hy & <- & <- & <-). by apply (g_info _ _ _ G a).
    + intros i Hi. unfold kf. rewrite I2. by apply parts_sorted.
    + intros i a Hi Ha. unfold kf. rewrite I2. apply (parts_own K C ht G p Hpr Hpi); [|done|done]. intros j Hj Hj2.
      apply N2 in Hj2 as [Hj1| ->]; [|done|lia]. apply N1 in Hj1 as [Hj0|(x & Hx & <-)]; [by left| |done]. right. by apply (g_own _ _ _ G).
  - split; [done| |done|].
    + destruct Z1 as (? & ? & ? & ?), Z2 as (? & ? & ? & ?). repeat split; congruence.
    + intros M HM. by apply parts_groups.
  - apply N2; [lia|]. by right.
  - intros j Hj Hij Hlt. apply parts_inited; [done|done|done|done|lia|done].
Qed.

Lemma K_range K C ht e : good K C ht -> 0 <= e < 2 ^ K -> e < 2 ^ 32.
Proof. intros G He. pose proof (s_K _ _ _ (g_shape _ _ _ G)). pose proof (Z.pow_le_mono_r 2 K 32 ltac:(lia) ltac:(lia)). lia. Qed.

Lemma fixup_S n (ht : table) e :
  fixup (S n) ht e =
    (b ← buckets ht !! Z.to_nat (parent_of e);
     ht ← (match b with None => fixup n ht (parent_of e) | Some _ => Some ht end);
     cur ← load (Bucket (parent_of e)) ht;
     ht ← fixup_loop (chain_fuel ht) ht (Bucket (parent_of e)) cur (parent_of e);
     b ← buckets ht !! Z.to_nat e;
     match b with None => store (Bucket e) null ht | Some _ => Some ht end).
Proof. done. Qed.

Lemma fixup_ok n : forall K C ht e,
  good K C ht -> 0 <= e < 2 ^ K -> e < 2 ^ Z.of_nat n -> ~ inited ht e ->
  exists ht' C', fixup (S n) ht e = Some ht' /\ good K C' ht' /\ kept K C ht C' ht' /\ inited ht' e /\
    (forall j, 0 <= j < 2 ^ K -> inited ht j -> e < j -> C' j = C j).
Proof using Hhash.
  induction n as [|n IH]; intros K C ht e G He Hn Hei.
  { exfalso. apply Hei. replace e with 0 by (change (2 ^ Z.of_nat 0) with 1 in Hn; lia). apply G. }
  assert (0 < e) as Hpos by (destruct (Z.eq_dec e 0) as [-> |]; [exfalso; apply Hei, G|lia]). pose proof (K_range _ _ _ _ G He) as H32.
  destruct (parent_lt e (Z.of_nat (S n))) as [Hp Hpn]; [lia|done|]. replace (Z.of_nat (S n) - 1) with (Z.of_nat n) in Hpn by lia.
  set (p := parent_of e) in *. rewrite fixup_S. fold p.
  destruct (bkt_some K C ht p (g_shape _ _ _ G)) as [b Hb]; [lia|]. unfold bkt in Hb. rewrite Hb. cbn [mbind option_bind].
  assert (exists h1 C1, match b with None => fixup (S n) ht p | Some _ => Some ht end = Some h1 /\ good K C1 h1 /\ kept K C ht C1 h1 /\ inited h1 p /\
    (forall j, 0 <= j < 2 ^ K -> inited ht j -> e < j -> C1 j = C j)) as (h1 & C1 & -> & G1 & K1 & P1 & J1).
  { destruct b as [q|]; [exists ht, C; split; [done|]; split; [done|]; split; [apply kept_refl|]; split; [by exists q|done]|].
    destruct (IH K C ht p G) as (h1 & C1 & E1 & G1 & K1 & P1 & J1); [lia|done|intros [q Hq]; unfold bkt in Hq; congruence|].
    exists h1, C1. split; [done|]. split; [done|]. split; [done|]. split; [done|]. intros j Hj Hij Hlt. apply J1; [done|done|lia]. }
  cbn [mbind option_bind]. destruct (fixup_last K C1 h1 e p G1 He) as (h2 & C2 & E2 & G2 & K2 & P2 & J2); [lia|done| |].
  - destruct (inited_dec h1 e) as [Hei1|Hei1]; [by left|right]. split; [by apply parent_anc; lia|]. intros j Hj Hji. assert (anc j p) as Hjp.
    { apply anc_parent; [lia|done|]. intros ->. by apply Hei1. }
    apply (anc_range j p); [lia|done].
  - exists h2, C2. split; [exact E2|]. split; [done|]. split; [by eapply kept_trans|]. split; [done|].
    intros j Hj Hij Hlt. rewrite J2; [by apply J1|done|by apply (k_init _ _ _ _ _ K1)|done].
Qed.

Lemma ensure_ok K C ht e :
  good K C ht -> 0 <= e < 2 ^ K ->
  exists ht' C', ensure ht e = Some ht' /\ good K C' ht' /\ kept K C ht C' ht' /\ inited ht' e /\
    (forall j, 0 <= j < 2 ^ K -> inited ht j -> e < j -> C' j = C j).
Proof using Hhash.
  intros G He. unfold ensure. destruct (bkt_some K C ht e (g_shape _ _ _ G) He) as [b Hb]. unfold bkt in Hb. rewrite Hb. cbn [mbind option_bind].
  destruct b as [q|].
  - exists ht, C. split; [done|]. split; [done|]. split; [apply kept_refl|]. split; [by exists q|done].
  - apply (fixup_ok 32); [done|done|by eapply K_range|]. intros [q Hq]. unfold bkt in Hq. congruence.
Qed.
End Inv.
End HashInv.
