(* ===== verification/HashOps.v ===== *)
(** What the operations of a hash table (HashTable) do to its chains. *)

From stdpp Require Import gmap sorting.
From S2P Require Import Prelude HashTable HashBits HashChain HashInv.
Import HashTable HashBits HashChain HashInv.

Module HashOps.

(** ** Entries with one hash *)

(** How the code searches, inserts, replaces and removes among the entries that
    have the same hash. *)
Section Group.
Context {D : Type} (cmp : D -> D -> Z).

Fixpoint gfind (d : D) (l : list D) : option D :=
  match l with
  | [] => None
  | x :: l => if 0 <? cmp d x then None else if cmp d x <? 0 then gfind d l else Some x
  end.

Fixpoint ginsert (d : D) (l : list D) : option (list D) :=
  match l with
  | [] => Some [d]
  | x :: l => if 0 <? cmp d x then Some (x :: d :: l) else if cmp d x <? 0 then cons x <$> ginsert d l else None
  end.

(** [f] is what becomes of the entry that is found. *)
Fixpoint gchange (f : D -> list D) (d : D) (l : list D) : list D :=
  match l with
  | [] => []
  | x :: l => if 0 <? cmp d x then x :: l else if cmp d x <? 0 then x :: gchange f d l else f x ++ l
  end.

Lemma gchange_none f d l : gfind d l = None -> gchange f d l = l.
Proof.
  induction l as [|y l IH]; [done|]. cbn. destruct (0 <? cmp d y); [done|]. destruct (cmp d y <? 0); [|done]. intros H. by rewrite IH.
Qed.
End Group.

Section Ops.
Context {D : Type} (hash : D -> Z) (cmp : D -> D -> Z) (Hhash : forall d, is_u32 (hash d)).
Notation table := (fr_hash_table_t D).
Notation entry := (fr_hash_entry_t D).

(** The data of the entries. *)
Definition dat (I : gmap nat (Z * Z * D)) (l : list nat) : list D := omap (fun a => snd <$> I !! a) l.

Lemma dat_app I l1 l2 : dat I (l1 ++ l2) = dat I l1 ++ dat I l2.
Proof. apply omap_app. Qed.

Lemma dat_cons (m : gmap nat entry) a e l : m !! a = Some e -> dat (info m) (a :: l) = data e :: dat (info m) l.
Proof. intros H. unfold dat. cbn. by rewrite (proj2 (info_lookup m a _) (ex_intro _ e (conj H eq_refl))). Qed.

Lemma reverse_inj x y : is_u32 x -> is_u32 y -> reverse x = reverse y -> x = y.
Proof.
  intros Hx Hy H. assert (x mod 2 ^ 32 = y mod 2 ^ 32) as E. { apply top_eq; [done|done|lia|]. unfold top. by rewrite H. }
  rewrite !Z.mod_small in E; [done|exact Hy|exact Hx].
Qed.

(** The chain of entries, as a search walks along it. *)
Definition sorted_chain (m : gmap nat entry) (l : list nat) : Prop :=
  StronglySorted (fun a b => reverse (keyof (info m) a) <= reverse (keyof (info m) b)) l /\
  forall a e, a ∈ l -> m !! a = Some e -> reversed e = reverse (key e) /\ is_u32 (key e).

Lemma sorted_tail m a l : sorted_chain m (a :: l) -> sorted_chain m l.
Proof. intros [[_ H1]%StronglySorted_cons H2]. split; [done|]. intros b e Hb. apply H2. by right. Qed.

Lemma sorted_prefix m l1 l2 : sorted_chain m (l1 ++ l2) -> sorted_chain m l1.
Proof. intros [(_ & H1 & _)%StronglySorted_app H2]. split; [done|]. intros a e Ha. apply H2. apply elem_of_app. by left. Qed.

(** After an entry with a larger reversed hash there is none with hash [k]. *)
Lemma grp_past m a e l k : sorted_chain m (a :: l) -> m !! a = Some e -> reverse k < reversed e -> grp (info m) k (a :: l) = [].
Proof.
  intros [[Hs _]%StronglySorted_cons Hi] He Hk. destruct (Hi a e ltac:(by left) He) as [Hr _]. apply filter_none. rewrite list.Forall_forall in Hs.
  intros x [-> |Hx]%list.elem_of_cons E; [rewrite (keyof_info _ _ _ He) in E; rewrite E in Hr; lia|]. specialize (Hs x Hx). cbv beta in Hs. rewrite (keyof_info _ _ _ He), E in Hs. lia.
Qed.

Lemma grp_skip m a e l k : sorted_chain m (a :: l) -> m !! a = Some e -> reversed e <> reverse k -> grp (info m) k (a :: l) = grp (info m) k l.
Proof.
  intros [_ Hi] He Hk. unfold grp. apply list.filter_cons_False. rewrite (keyof_info _ _ _ He). intros <-. apply Hk. by apply (Hi a e ltac:(by left) He).
Qed.

Lemma grp_take m a e l k : is_u32 k -> sorted_chain m (a :: l) -> m !! a = Some e -> reversed e = reverse k -> grp (info m) k (a :: l) = a :: grp (info m) k l.
Proof.
  intros Hu [_ Hi] He Hk. unfold grp. apply list.filter_cons_True. rewrite (keyof_info _ _ _ He). destruct (Hi a e ltac:(by left) He) as [Hr Hke].
  apply reverse_inj; [done|done|congruence].
Qed.

(** *** The search *)

Lemma list_find_spec (ht : table) k d l : is_u32 k -> forall fuel p, seg (mem ht) p l null -> sorted_chain (mem ht) l -> (length l < fuel)%nat ->
  exists r, list_find cmp fuel ht p (reverse k) d = Some r /\
    match r with
    | None => gfind cmp d (dat (info (mem ht)) (grp (info (mem ht)) k l)) = None
    | Some a => exists g1 g2 e, grp (info (mem ht)) k l = g1 ++ a :: g2 /\ mem ht !! a = Some e /\
        gfind cmp d (dat (info (mem ht)) (grp (info (mem ht)) k l)) = Some (data e) /\
        forall f, gchange cmp f d (dat (info (mem ht)) (grp (info (mem ht)) k l)) = dat (info (mem ht)) g1 ++ f (data e) ++ dat (info (mem ht)) g2
    end.
Proof.
  intros Hk. induction l as [|a l IH]; intros fuel p Hs Hc Hf; cbn in Hs; [subst p; exists None; split; [by destruct fuel|done]|].
  destruct Hs as (-> & e & He & Hs). destruct fuel as [|fuel]; [cbn in Hf; lia|]. cbn [list_find]. rewrite He. cbn [mbind option_bind].
  destruct (IH fuel (next e) Hs (sorted_tail _ _ _ Hc)) as (r & Er & Hr); [cbn in Hf; lia|].
  destruct (reversed e =? reverse k) eqn:E1; simpl_bool.
  - rewrite (grp_take _ a e) by done. rewrite (dat_cons _ a e) by done. cbn [gfind gchange]. destruct (0 <? cmp d (data e)) eqn:E2; [by exists None|].
    destruct (cmp d (data e) <? 0) eqn:E3.
    + exists r. split; [done|]. destruct r as [b|]; [|done]. destruct Hr as (g1 & g2 & eb & Hg & Heb & Hfi & Hch). exists (a :: g1), g2, eb.
      split; [by rewrite Hg|]. split; [done|]. split; [done|]. intros f. rewrite Hch. by rewrite (dat_cons _ a e).
    + exists (Some a). split; [done|]. by exists [], (grp (info (mem ht)) k l), e.
  - destruct (reverse k <? reversed e) eqn:E2; simpl_bool.
    + exists None. split; [done|]. by rewrite (grp_past _ a e) by done.
    + rewrite (grp_skip _ a e) by done. by exists r.
Qed.

(** *** The place of a new entry *)

Definition insert_result (I : gmap nat (Z * Z * D)) (i k : Z) (d : D) (pre rest : list nat) (r : option loc) : Prop :=
  match r with
  | None => ginsert cmp d (dat I (grp I k rest)) = None
  | Some last => exists r1 r2, rest = r1 ++ r2 /\ last = endloc i (pre ++ r1) /\
      (forall x, x ∈ r1 -> reverse (keyof I x) <= reverse k) /\ (forall y, y ∈ r2 -> reverse k <= reverse (keyof I y)) /\
      ginsert cmp d (dat I (grp I k rest)) = Some (dat I (grp I k r1) ++ d :: dat I (grp I k r2))
  end.

Lemma insert_loop_spec (ht : table) i k d rest : is_u32 k -> forall fuel pre p, seg (mem ht) p rest null -> sorted_chain (mem ht) rest -> (length rest < fuel)%nat ->
  exists r, insert_loop cmp fuel ht (endloc i pre) p (reverse k) d = Some r /\ insert_result (info (mem ht)) i k d pre rest r.
Proof.
  intros Hk. induction rest as [|a l IH]; intros fuel pre p Hs Hc Hf.
  { cbn in Hs. subst p. exists (Some (endloc i pre)). split; [by destruct fuel|]. exists [], []. split; [done|]. split; [by rewrite app_nil_r|].
    split; [by intros x Hx%not_elem_of_nil|]. split; [by intros x Hx%not_elem_of_nil|done]. }
  cbn in Hs. destruct Hs as (-> & e & He & Hs). destruct fuel as [|fuel]; [cbn in Hf; lia|].
  cbn [insert_loop]. rewrite He. cbn [mbind option_bind]. rewrite <- (endloc_snoc i pre a).
  pose proof (sorted_tail _ _ _ Hc) as Hc'. pose proof Hc as [[Hsa _]%StronglySorted_cons Hia]. rewrite list.Forall_forall in Hsa.
  destruct (Hia a e ltac:(by left) He) as [Hra Hua]. pose proof (keyof_info _ _ _ He) as Hka. cbv beta in Hsa. rewrite Hka in Hsa.
  destruct (IH fuel (pre ++ [a]) (next e) Hs Hc') as (r & Er & Hr); [cbn in Hf; lia|].
  destruct (reverse k <? reversed e) eqn:E1; simpl_bool; [|destruct (reversed e =? reverse k) eqn:E2; simpl_bool].
  - exists (Some (endloc i pre)). split; [done|]. exists [], (a :: l). rewrite app_nil_r. split; [done|]. split; [done|].
    split; [by intros x Hx%not_elem_of_nil|]. rewrite (grp_past _ a e) by done. split; [|done].
    intros y [-> |Hy]%list.elem_of_cons; [rewrite Hka; lia|]. specialize (Hsa y Hy). lia.
  - unfold insert_result. rewrite (grp_take _ a e), (dat_cons _ a e) by done. cbn [ginsert]. destruct (0 <? cmp d (data e)) eqn:E3; [|destruct (cmp d (data e) <? 0) eqn:E4].
    + eexists. split; [reflexivity|]. exists [a], l. split; [done|]. split; [done|]. split; [|split].
      * intros x ->%list_elem_of_singleton. rewrite Hka. lia.
      * intros y Hy. specialize (Hsa y Hy). lia.
      * rewrite (grp_take _ a e []); [|done| |done|done]. by rewrite (dat_cons _ a e).
        split; [apply StronglySorted_cons; split; constructor|]. intros x ex ->%list_elem_of_singleton. intros Hx. rewrite He in Hx. by injection Hx as <-.
    + exists r. split; [done|]. destruct r as [last|]; [|by rewrite Hr]. destruct Hr as (r1 & r2 & -> & -> & H1 & H2 & H3). exists (a :: r1), r2.
      split; [done|]. split; [by rewrite <- app_assoc|]. split; [|split; [done|]].
      * intros x [-> |Hx]%list.elem_of_cons; [rewrite Hka; lia|by apply H1].
      * rewrite H3. cbn [fmap option_fmap option_map]. rewrite (grp_take _ a e r1); [by rewrite (dat_cons _ a e)|done| |done|done].
        by apply (sorted_prefix _ (a :: r1) r2).
    + exists None. by split.
  - exists r. split; [done|]. unfold insert_result in *. rewrite (grp_skip _ a e) by done. destruct r as [last|]; [|done].
    destruct Hr as (r1 & r2 & -> & -> & H1 & H2 & H3). exists (a :: r1), r2. split; [done|]. split; [by rewrite <- app_assoc|]. split; [|split; [done|]].
    + intros x [-> |Hx]%list.elem_of_cons; [rewrite Hka; lia|by apply H1].
    + rewrite H3. rewrite (grp_skip _ a e r1); [done| |done|done]. by apply (sorted_prefix _ (a :: r1) r2).
Qed.

(** *** The entry to delete *)

Lemma delete_loop_spec (ht : table) i n l2 l1 : forall fuel pre p, seg (mem ht) p (l1 ++ n :: l2) null -> n ∉ l1 -> (length (l1 ++ n :: l2) < fuel)%nat ->
  delete_loop fuel ht (endloc i pre) p n = Some (endloc i (pre ++ l1)).
Proof.
  induction l1 as [|a l1 IH]; intros fuel pre p Hs Hn Hf; (destruct fuel as [|fuel]; [cbn in Hf; lia|]); cbn in Hs; destruct Hs as (-> & e & He & Hs); cbn [delete_loop].
  - by rewrite Nat.eqb_refl, app_nil_r.
  - apply not_elem_of_cons in Hn as [Hna Hn]. rewrite (proj2 (Nat.eqb_neq a n)) by congruence. rewrite He. cbn [mbind option_bind].
    rewrite <- (endloc_snoc i pre a). rewrite (IH fuel (pre ++ [a]) (next e)); [by rewrite <- app_assoc|done|done|cbn in Hf; lia].
Qed.

(** ** Changing one chain *)

Definition same_dims (ht ht' : table) : Prop := num_buckets ht' = num_buckets ht /\ next_grow ht' = next_grow ht /\ mask ht' = mask ht.

Definition with_chain (C : Z -> list nat) (e : Z) (l : list nat) (i : Z) : list nat := if decide (i = e) then l else C i.

Lemma shape_update K C (ht ht' : table) e p' l' :
  shape K C ht -> 0 <= e < 2 ^ K -> same_dims ht ht' -> buckets ht' = <[Z.to_nat e := Some p']> (buckets ht) -> seg (mem ht') p' l' null -> NoDup l' ->
  (forall i a, 0 <= i < 2 ^ K -> i <> e -> a ∈ C i -> mem ht' !! a = mem ht !! a) ->
  (forall i a, 0 <= i < 2 ^ K -> i <> e -> a ∈ C i -> a ∉ l') ->
  (forall a, is_Some (mem ht' !! a) <-> a ∈ l' \/ exists i, 0 <= i < 2 ^ K /\ i <> e /\ a ∈ C i) ->
  shape K (with_chain C e l') ht' /\ (forall i, 0 <= i -> inited ht' i <-> inited ht i \/ i = e).
Proof.
  intros S He (Z1 & Z2 & Z3) Hb Hs Hn Hf Hd Hdom.
  assert (forall i, 0 <= i -> bkt ht' i = if decide (i = e) then Some (Some p') else bkt ht i) as Hbk by (intros; by apply (bkt_insert K C)).
  unfold with_chain. split.
  - destruct S. split; try congruence; try done.
    + by rewrite Hb, length_insert.
    + intros i p Hi. rewrite Hbk by lia. case_decide as Hie; [by intros [= <-]|]. intros Hp. apply (seg_frame (mem ht)); [|by apply s_chain0].
      intros a x Ha Hx. exists x. by rewrite (Hf i a Hi Hie Ha).
    + intros i Hi. rewrite Hbk by lia. case_decide; [done|]. by apply s_empty0.
    + intros i Hi. case_decide; [done|]. by apply s_nodup0.
    + intros i j a Hi Hj. destruct (decide (i = e)) as [-> |Hie], (decide (j = e)) as [-> |Hje]; try done; intros H1 H2.
      * exfalso. by apply (Hd j a).
      * exfalso. by apply (Hd i a).
      * by apply (s_disj0 i j a).
    + intros a. rewrite Hdom. split.
      * intros [Ha|(i & Hi & Hne & Ha)]; [exists e; by rewrite decide_True|exists i; by rewrite decide_False].
      * intros (i & Hi & Ha). case_decide; [by left|]. right. by exists i.
  - intros i Hi. unfold inited. rewrite Hbk by done. case_decide as Hie; [|by split; [left|intros [|]]]. split; [by right|]. intros _. by exists p'.
Qed.

Lemma shape_insert K C (ht : table) e l1 l2 n x :
  shape K C ht -> 0 <= e < 2 ^ K -> inited ht e -> C e = l1 ++ l2 -> mem ht !! n = None ->
  exists ht', (p ← load (endloc e l1) (ht <| mem := <[n := x]> (mem ht) |>);
      ht ← store (Next n) p (ht <| mem := <[n := x]> (mem ht) |>); store (endloc e l1) (node n) ht) = Some ht' /\
    shape K (with_chain C e (l1 ++ n :: l2)) ht' /\ info (mem ht') = <[n := (reversed x, key x, data x)]> (info (mem ht)) /\ same_size ht ht' /\
    (forall i, 0 <= i -> inited ht' i <-> inited ht i \/ i = e).
Proof.
  intros S He [p Hp] Hc Hn. pose proof (s_chain _ _ _ S e p He Hp) as Hs. pose proof (s_nodup _ _ _ S e He) as Hnd. rewrite Hc in Hs, Hnd.
  assert (forall i, 0 <= i < 2 ^ K -> n ∉ C i) as Hni. { intros i Hi Ha. destruct (proj2 (s_dom _ _ _ S n)) as [y Hy]; [by exists i|congruence]. }
  assert ((n ∉ l1) /\ (n ∉ l2)) as [Hn1 Hn2]. { specialize (Hni e He). rewrite Hc in Hni. apply not_elem_of_app in Hni. done. }
  apply list.NoDup_app in Hnd as (Hnd1 & Hnd2 & Hnd3). apply seg_app in Hs as (q & H1 & H2).
  set (h1 := ht <| mem := <[n := x]> (mem ht) |>).
  assert (forall (h : table) l r t, (forall a, a <> n -> mem h !! a = mem ht !! a) -> n ∉ l -> seg (mem ht) r l t -> seg (mem h) r l t) as Hfr.
  { intros h l r t Hh Hnl. apply seg_frame. intros a y Ha Hy. exists y. split; [|done]. rewrite Hh; [done|]. by intros ->. }
  destruct (store_seg h1 e p l1 q (node n)) as [-> _]; [lia|done| |done|].
  { apply Hfr; [|done|done]. intros a Ha. by apply lookup_insert_ne. }
  cbn [mbind option_bind store]. unfold h1 at 1. cbn. rewrite lookup_insert_eq. cbn.
  set (h2 := h1 <| mem := <[n := x <| next := q |>]> (mem h1) |>).
  assert (forall a, a <> n -> mem h2 !! a = mem ht !! a) as Hm2 by (intros a Ha; cbn; by rewrite !lookup_insert_ne).
  destruct (store_seg h2 e p l1 q (node n)) as (_ & h3 & p' & E3 & G3 & B3 & I3 & F3 & Z3); [lia|done|by apply Hfr|done|].
  exists h3. split; [exact E3|].
  assert (forall a, a ∉ l1 -> a <> n -> mem h3 !! a = mem ht !! a) as Hm3 by (intros; rewrite F3 by done; by apply Hm2).
  assert (info (mem h3) = <[n := (reversed x, key x, data x)]> (info (mem ht))) as HI.
  { rewrite I3. unfold h2, h1, info. cbn. rewrite !fmap_insert. cbn. by rewrite insert_insert_eq. }
  assert (forall i a, 0 <= i < 2 ^ K -> i <> e -> a ∈ C i -> a ∉ l1 ++ n :: l2) as Hdis.
  { intros i a Hi Hne Ha Hl. apply Hne, (s_disj _ _ _ S i e a); [done|done|done|]. rewrite Hc. apply elem_of_app.
    apply elem_of_app in Hl as [Hl|[-> |Hl]%list.elem_of_cons]; [by left| |by right]. by apply Hni in Ha. }
  destruct (shape_update K C ht h3 e p' (l1 ++ n :: l2)) as [S' N']; [done|done| |done| | | |done| |].
  - by destruct Z3 as (_ & ? & ? & ?).
  - apply seg_app. exists (node n). split; [done|]. split; [done|]. exists (x <| next := q |>). split.
    + rewrite F3 by done. apply lookup_insert_eq.
    + apply (seg_frame (mem ht)); [|done]. intros a y Ha Hy. exists y. split; [|done]. rewrite Hm3; [done|intros H; by apply (Hnd2 a)|by intros ->].
  - apply list.NoDup_app. split; [done|]. split; [|by apply list.NoDup_cons]. intros a Ha [-> |Hb]%list.elem_of_cons; [done|]. by apply (Hnd2 a).
  - intros i a Hi Hne Ha. specialize (Hdis i a Hi Hne Ha). apply not_elem_of_app in Hdis as [? [? ?]%not_elem_of_cons]. by apply Hm3.
  - intros a. rewrite <- (info_dom (mem h3)), HI. rewrite lookup_insert_is_Some. rewrite info_dom, (s_dom _ _ _ S a). split.
    + intros [<- |[_ (i & Hi & Ha)]]; [left; apply elem_of_app; right; by left|]. destruct (decide (i = e)) as [-> |Hne]; [|right; by exists i].
      left. rewrite Hc in Ha. apply elem_of_app in Ha as [Ha|Ha]; apply elem_of_app; [by left|right; by right].
    + intros [[Ha|[-> |Ha]%list.elem_of_cons]%elem_of_app|(i & Hi & Hne & Ha)].
      * right. split; [by intros ->|]. exists e. split; [done|]. rewrite Hc. apply elem_of_app. by left.
      * by left.
      * right. split; [by intros ->|]. exists e. split; [done|]. rewrite Hc. apply elem_of_app. by right.
      * right. split; [|by exists i]. intros ->. by apply (Hni i).
  - split; [done|]. split; [done|]. split; [|done]. by destruct Z3 as (? & ? & ? & ?).
Qed.

Lemma shape_delete K C (ht : table) e l1 l2 n x :
  shape K C ht -> 0 <= e < 2 ^ K -> inited ht e -> C e = l1 ++ n :: l2 -> mem ht !! n = Some x ->
  exists ht', store (endloc e l1) (next x) ht = Some ht' /\ (exists y, mem ht' !! n = Some y /\ data y = data x) /\ same_size ht ht' /\
    info (mem ht') = info (mem ht) /\
    shape K (with_chain C e (l1 ++ l2)) (ht' <| mem := delete n (mem ht') |>) /\ (forall i, 0 <= i -> inited ht' i <-> inited ht i \/ i = e).
Proof.
  intros S He [p Hp] Hc Hn. pose proof (s_chain _ _ _ S e p He Hp) as Hs. pose proof (s_nodup _ _ _ S e He) as Hnd. rewrite Hc in Hs, Hnd.
  apply list.NoDup_app in Hnd as (Hnd1 & Hnd2 & [Hnl2 Hnd3]%list.NoDup_cons). apply seg_app in Hs as (q & H1 & -> & x' & Hx' & H2).
  rewrite Hn in Hx'. injection Hx' as <-. assert (n ∉ l1) as Hnl1 by (intros H; apply (Hnd2 n H); by left).
  destruct (store_seg ht e p l1 (node n) (next x)) as (_ & h & p' & E & G & B & I & F & Z); [lia|done|done|done|].
  exists h. split; [done|]. split. { exists x. by rewrite F. } split; [done|]. split; [done|].
  set (h' := h <| mem := delete n (mem h) |>).
  assert (forall a, a ∉ l1 -> a <> n -> mem h' !! a = mem ht !! a) as Hm by (intros; cbn; rewrite lookup_delete_ne by done; by apply F).
  assert (forall i a, 0 <= i < 2 ^ K -> i <> e -> a ∈ C i -> a ∉ l1 ++ n :: l2) as Hdis.
  { intros i a Hi Hne Ha Hl. apply Hne, (s_disj _ _ _ S i e a); [done|done|done|]. by rewrite Hc. }
  destruct (shape_update K C ht h' e p' (l1 ++ l2)) as [S' N']; [done|done| |done| | | | | |].
  - by destruct Z as (_ & ? & ? & ?).
  - apply seg_app. exists (next x). split.
    + apply (seg_frame (mem h)); [|done]. intros a y Ha Hy. exists y. split; [|done]. cbn. rewrite lookup_delete_ne; [done|]. by intros ->.
    + apply (seg_frame (mem ht)); [|done]. intros a y Ha Hy. exists y. split; [|done]. rewrite Hm; [done|intros H; apply (Hnd2 a H); by right|by intros ->].
  - apply list.NoDup_app. split; [done|]. split; [|done]. intros a Ha Hb. apply (Hnd2 a Ha). by right.
  - intros i a Hi Hne Ha. specialize (Hdis i a Hi Hne Ha). apply not_elem_of_app in Hdis as [? [? ?]%not_elem_of_cons]. by apply Hm.
  - intros i a Hi Hne Ha Hl. apply (Hdis i a Hi Hne Ha). apply elem_of_app in Hl as [?|?]; apply elem_of_app; [by left|right; by right].
  - intros a. cbn. rewrite lookup_delete_is_Some, (info_iff _ _ a (eq_sym I)), (s_dom _ _ _ S a). split.
    + intros [Hna (i & Hi & Ha)]. destruct (decide (i = e)) as [-> |Hne]; [|right; by exists i]. left. rewrite Hc in Ha.
      apply elem_of_app in Ha as [?|[?|?]%list.elem_of_cons]; apply elem_of_app; [by left|congruence|by right].
    + intros [Ha|(i & Hi & Hne & Ha)].
      * split; [intros ->; by apply elem_of_app in Ha as [?|?]|]. exists e. split; [done|]. rewrite Hc. apply elem_of_app in Ha as [?|?]; apply elem_of_app; [by left|right; by right].
      * split; [|by exists i]. intros ->. apply (Hdis i a Hi Hne Ha). apply elem_of_app. right. by left.
  - done.
Qed.
End Ops.
End HashOps.
