(* ===== verification/HashSpec.v ===== *)
(** What a hash table (HashTable) does: it behaves as a collection of groups of
    elements with the same hash, and as a map where hashes do not collide. *)

From stdpp Require Import gmap sorting.
From S2P Require Import Prelude HashTable HashBits HashChain HashInv HashOps.
Import HashTable HashBits HashChain HashInv HashOps.

Module HashSpec.

Lemma sorted_ext {A} (R R' : relation A) (l : list A) : (forall a b, a ∈ l -> b ∈ l -> R a b -> R' a b) -> StronglySorted R l -> StronglySorted R' l.
Proof.
  induction l as [|x l IH]; intros H Hs; [constructor|]. apply StronglySorted_cons in Hs as [Hx Hs]. apply StronglySorted_cons. split.
  - rewrite list.Forall_forall in *. intros y Hy. apply H; [by left|by right|by apply Hx].
  - apply IH; [|done]. intros a b Ha Hb. apply H; by right.
Qed.

Section Spec.
Context {D : Type} (hash : D -> Z) (cmp : D -> D -> Z) (Hhash : forall d, is_u32 (hash d)).
Notation table := (fr_hash_table_t D).
Notation entry := (fr_hash_entry_t D).
Notation infos := (gmap nat (Z * Z * D)).

(** ** The table as groups *)

(** [G k] is the list of the elements with hash [k]. *)
Record rep (G : Z -> list D) (ht : table) (K : Z) (C : Z -> list nat) (M : Z -> list nat) : Prop := {
  r_good : good hash K C ht;
  r_K : K <= 30;
  r_groups : groups K (info (mem ht)) C M;
  r_dat k : is_u32 k -> dat (info (mem ht)) (M k) = G k;
  r_num : num_elements ht = Z.of_nat (size (mem ht)) }.

Lemma rep_kept G ht K C M C' ht' : rep G ht K C M -> good hash K C' ht' -> kept K C ht C' ht' -> rep G ht' K C' M.
Proof.
  intros [] H [k1 k2 k3 k4]. split; [done|done| | |].
  - rewrite k1. by apply k4.
  - intros k Hk. rewrite k1. by apply r_dat0.
  - destruct k2 as (-> & _). rewrite r_num0. f_equal. rewrite <- (map_size_fmap (fun e => (reversed e, key e, data e)) (mem ht)).
    rewrite <- (map_size_fmap (fun e => (reversed e, key e, data e)) (mem ht')). f_equal. symmetry. exact k1.
Qed.

(** The chain where the elements with hash [k] are. *)
Lemma owner G ht K C M k : rep G ht K C M -> inited ht (k mod 2 ^ K) ->
  grp (info (mem ht)) k (C (k mod 2 ^ K)) = M k /\ (forall i, 0 <= i < 2 ^ K -> i <> k mod 2 ^ K -> grp (info (mem ht)) k (C i) = []).
Proof.
  intros [HG _ [G1 G2] _ _] Hi. pose proof (s_K _ _ _ (g_shape _ _ _ _ HG)) as HK. assert (0 <= k mod 2 ^ K < 2 ^ K) as Hr by (apply Z.mod_pos_bound; lia).
  assert (forall i, 0 <= i < 2 ^ K -> i <> k mod 2 ^ K -> grp (info (mem ht)) k (C i) = []) as Ho.
  { intros i Hir Hne. apply filter_none. intros a Ha Hk. destruct (g_own _ _ _ _ HG i a Hir Ha) as [H1 H2]. unfold kf in H1, H2. rewrite Hk in H1, H2.
    apply Hne. pose proof (anc_range _ _ (proj1 Hr) H1). pose proof (H2 _ (anc_refl _ (proj1 Hr)) Hi). lia. }
  split; [|done]. destruct (G2 k) as (i & Hir & Hg). destruct (decide (i = k mod 2 ^ K)) as [-> |Hne]; [done|].
  rewrite (Ho i Hir Hne) in Hg. destruct (G1 (k mod 2 ^ K) k Hr) as [H|H]; congruence.
Qed.

(** Using the bucket of a hash. *)
Lemma focus G ht K C M k : rep G ht K C M -> is_u32 k ->
  exists ht' C', ensure ht (k &z mask ht) = Some ht' /\ rep G ht' K C' M /\ k &z mask ht = k mod 2 ^ K /\ 0 <= k mod 2 ^ K < 2 ^ K /\
    inited ht' (k mod 2 ^ K) /\ kept K C ht C' ht' /\
    (forall j, 0 <= j < 2 ^ K -> inited ht j -> k mod 2 ^ K < j -> C' j = C j).
Proof using Hhash.
  intros R Hk. pose proof (s_K _ _ _ (g_shape _ _ _ _ (r_good _ _ _ _ _ R))) as HK.
  assert (0 <= k mod 2 ^ K < 2 ^ K) as Hr by (apply Z.mod_pos_bound; lia).
  assert (k &z mask ht = k mod 2 ^ K) as He by (rewrite (s_mask _ _ _ (g_shape _ _ _ _ (r_good _ _ _ _ _ R))); apply land_mask; lia). rewrite He.
  destruct (ensure_ok hash Hhash K C ht (k mod 2 ^ K) (r_good _ _ _ _ _ R) Hr) as (ht' & C' & E & G' & K' & I' & J').
  exists ht', C'. split; [done|]. split; [by eapply rep_kept|]. done.
Qed.

Lemma chain_sorted K C ht i : good hash K C ht -> 0 <= i < 2 ^ K -> sorted_chain (mem ht) (C i).
Proof using Hhash.
  intros HG Hi. split; [apply (g_sorted _ _ _ _ HG i Hi)|]. intros a e Ha He. destruct (g_info _ _ _ _ HG a e He) as [H1 H2]. split; [done|]. rewrite H2. apply Hhash.
Qed.

Lemma load_head K C (ht : table) i : shape K C ht -> 0 <= i < 2 ^ K -> inited ht i -> load (Bucket i) ht = Some (head_of (C i)) /\ seg (mem ht) (head_of (C i)) (C i) null.
Proof.
  intros S Hi [p Hp]. pose proof (s_chain _ _ _ S i p Hi Hp) as Hs. rewrite <- (seg_head _ _ _ Hs). split; [|done]. cbn [load]. unfold bkt in Hp. by rewrite Hp.
Qed.

(** The search, in the bucket. *)
Lemma find_in_bucket G ht K C M k d : rep G ht K C M -> is_u32 k -> inited ht (k mod 2 ^ K) ->
  exists r, (head ← load (Bucket (k mod 2 ^ K)) ht; list_find cmp (chain_fuel ht) ht head (reverse k) d) = Some r /\
    match r with
    | None => gfind cmp d (G k) = None
    | Some a => exists g1 g2 x, M k = g1 ++ a :: g2 /\ mem ht !! a = Some x /\ gfind cmp d (G k) = Some (data x) /\
        forall f, gchange cmp f d (G k) = dat (info (mem ht)) g1 ++ f (data x) ++ dat (info (mem ht)) g2
    end.
Proof using Hhash.
  intros R Hk Hi. pose proof (r_good _ _ _ _ _ R) as HG. pose proof (g_shape _ _ _ _ HG) as S. pose proof (s_K _ _ _ S) as HK.
  assert (0 <= k mod 2 ^ K < 2 ^ K) as Hr by (apply Z.mod_pos_bound; lia). destruct (load_head K C ht _ S Hr Hi) as [-> Hs]. cbn [mbind option_bind].
  destruct (list_find_spec cmp ht k d (C (k mod 2 ^ K)) Hk (chain_fuel ht) _ Hs) as (r & Er & Hres); [by apply (chain_sorted K)| |].
  { unfold chain_fuel. pose proof (chain_length K C ht _ S Hr). lia. }
  exists r. split; [done|]. destruct (owner _ _ _ _ _ _ R Hi) as [Ho _]. rewrite Ho, (r_dat _ _ _ _ _ R k Hk) in Hres. done.
Qed.

Lemma find_node G ht K C M k d : rep G ht K C M -> is_u32 k ->
  exists r ht' C', hash_table_find cmp ht k d = Some (r, ht') /\ rep G ht' K C' M /\ kept K C ht C' ht' /\ inited ht' (k mod 2 ^ K) /\
    match r with
    | None => gfind cmp d (G k) = None
    | Some a => exists g1 g2 x, M k = g1 ++ a :: g2 /\ mem ht' !! a = Some x /\ gfind cmp d (G k) = Some (data x) /\
        forall f, gchange cmp f d (G k) = dat (info (mem ht')) g1 ++ f (data x) ++ dat (info (mem ht')) g2
    end.
Proof using Hhash.
  intros R Hk. destruct (focus _ _ _ _ _ k R Hk) as (ht' & C' & E & R' & He & Hr & Hi & Hkept & _).
  destruct (find_in_bucket _ _ _ _ _ k d R' Hk Hi) as (r & Er & Hres). exists r, ht', C'. split; [|done].
  unfold hash_table_find. rewrite E. cbn [mbind option_bind]. rewrite He. destruct (load (Bucket (k mod 2 ^ K)) ht') as [h|]; [|done]. cbn [mbind option_bind] in Er |- *.
  by rewrite Er.
Qed.

(** ** Changes *)

Definition with_group {A} (G : Z -> A) (k : Z) (l : A) (k' : Z) : A := if decide (k' = k) then l else G k'.

Lemma dat_ext (I I' : infos) l : (forall a, a ∈ l -> I' !! a = I !! a) -> dat I' l = dat I l.
Proof. intros H. unfold dat. induction l as [|a l IH]; [done|]. cbn. rewrite (H a) by (by left). rewrite IH; [done|]. intros b Hb. apply H. by right. Qed.

Lemma grp_ext (I I' : infos) k l : (forall a, a ∈ l -> keyof I' a = keyof I a) -> grp I' k l = grp I k l.
Proof.
  intros H. unfold grp. induction l as [|a l IH]; [done|]. rewrite !list.filter_cons. rewrite (H a) by (by left). rewrite IH; [done|]. intros b Hb. apply H. by right.
Qed.

Lemma grp_sub (I : infos) k l a : a ∈ grp I k l -> a ∈ l /\ keyof I a = k.
Proof. intros [H1 H2]%list_elem_of_filter. done. Qed.

Lemma M_in G ht K C M k a : rep G ht K C M -> a ∈ M k -> exists i, 0 <= i < 2 ^ K /\ a ∈ C i /\ keyof (info (mem ht)) a = k.
Proof. intros [_ _ [_ G2] _ _] Ha. destruct (G2 k) as (i & Hi & Hg). rewrite <- Hg in Ha. apply grp_sub in Ha as [? ?]. eauto. Qed.

(** One chain changes, and one group with it. *)
Lemma groups_update K (I I' : infos) C M k l g :
  groups K I C M -> 0 <= k mod 2 ^ K < 2 ^ K ->
  (forall i a, 0 <= i < 2 ^ K -> i <> k mod 2 ^ K -> a ∈ C i -> keyof I' a = keyof I a) ->
  (forall i, 0 <= i < 2 ^ K -> i <> k mod 2 ^ K -> grp I k (C i) = []) ->
  grp I' k l = g -> (forall k', k' <> k -> grp I' k' l = grp I k' (C (k mod 2 ^ K))) ->
  groups K I' (with_chain C (k mod 2 ^ K) l) (with_group M k g).
Proof.
  intros [G1 G2] Hr Hkey Ho Hg Hk. set (e := k mod 2 ^ K) in *.
  assert (forall i k', 0 <= i < 2 ^ K -> k' <> k -> grp I' k' (with_chain C e l i) = grp I k' (C i)) as Hsame.
  { intros i k' Hi Hne. unfold with_chain. case_decide as Hd; [subst i; by apply Hk|]. apply grp_ext. intros a Ha. by apply (Hkey i). }
  assert (forall i, 0 <= i < 2 ^ K -> grp I' k (with_chain C e l i) = if decide (i = e) then g else []) as Hown.
  { intros i Hi. unfold with_chain. case_decide as Hd; [done|]. rewrite <- (Ho i Hi Hd). apply grp_ext. intros a Ha. by apply (Hkey i). }
  unfold with_group. split.
  - intros i k' Hi. case_decide as Hd; [subst k'; rewrite Hown by done; case_decide; auto|]. rewrite Hsame by done. by apply G1.
  - intros k'. case_decide as Hd; [subst k'; exists e; rewrite Hown, decide_True by done; done|]. destruct (G2 k') as (i & Hi & H). exists i. by rewrite Hsame.
Qed.

(** The invariant of a table whose chain [e] became [l]. *)
Lemma good_update K C ht ht' e l :
  good hash K C ht -> 0 <= e < 2 ^ K -> inited ht e -> shape K (with_chain C e l) ht' -> (forall i, 0 <= i -> inited ht' i <-> inited ht i \/ i = e) ->
  (forall a x, mem ht' !! a = Some x -> reversed x = reverse (key x) /\ key x = hash (data x)) ->
  (forall i a, 0 <= i < 2 ^ K -> i <> e -> a ∈ C i -> kf ht' a = kf ht a) ->
  StronglySorted (fun a b => reverse (kf ht' a) <= reverse (kf ht' b)) l -> (forall a, a ∈ l -> own (inited ht) e (kf ht' a mod 2 ^ K)) ->
  good hash K (with_chain C e l) ht'.
Proof.
  intros HG He Hei S' N' Hinfo Hkey Hsort Hown. assert (forall i r, 0 <= r < 2 ^ K -> own (inited ht) i r -> own (inited ht') i r) as Hm.
  { intros i r Hr [H1 H2]. split; [done|]. intros j Hj Hjn. apply H2; [done|]. pose proof (anc_range _ _ (proj1 Hr) Hj). apply N' in Hjn as [?| ->]; [done|done|lia]. }
  pose proof (s_K _ _ _ S') as HK. assert (forall a, 0 <= kf ht' a mod 2 ^ K < 2 ^ K) as Hrg by (intros; apply Z.mod_pos_bound; lia).
  split; [done| |done| |].
  - apply N'; [lia|]. left. apply HG.
  - intros i Hi. unfold with_chain. case_decide as Hd; [done|]. apply (sorted_ext (fun a b => reverse (kf ht a) <= reverse (kf ht b))); [|by apply (g_sorted _ _ _ _ HG)].
    intros a b Ha Hb. by rewrite !(Hkey i) by done.
  - intros i a Hi. unfold with_chain. case_decide as Hd; intros Ha; [subst i; apply Hm; [apply Hrg|by apply Hown]|].
    apply Hm; [apply Hrg|]. rewrite (Hkey i) by done. by apply (g_own _ _ _ _ HG).
Qed.

Lemma own_self (init : Z -> Prop) r : 0 <= r -> own init r r.
Proof. intros Hr. split; [by apply anc_refl|]. intros j Hj _. by apply (anc_range j r). Qed.

Lemma good_num K C ht n : good hash K C ht -> good hash K C (ht <| num_elements := n |>).
Proof. intros [[] ]. split; try done; split; done. Qed.

Lemma info_size (m : gmap nat entry) : size (info m) = size m.
Proof. apply map_size_fmap. Qed.

(** *** A new element *)

Section Insert.
Context (G : Z -> list D) (ht : table) (K : Z) (C M : Z -> list nat) (R : rep G ht K C M) (d : D) (n : nat) (Hn : mem ht !! n = None).
Let k : Z := hash d.
Let e : Z := k mod 2 ^ K.
Context (Hi : inited ht e).
Let x : entry := MkEntry null (reverse k) k d.
Let I : infos := info (mem ht).
Let I1 : infos := <[n := (reverse k, k, d)]> I.

Lemma e_range : 0 <= e < 2 ^ K.
Proof using R. apply Z.mod_pos_bound. pose proof (s_K _ _ _ (g_shape _ _ _ _ (r_good _ _ _ _ _ R))). lia. Qed.

Lemma not_in_chain i : 0 <= i < 2 ^ K -> n ∉ C i.
Proof using R Hn.
  intros Hr Ha. destruct (proj2 (s_dom _ _ _ (g_shape _ _ _ _ (r_good _ _ _ _ _ R)) n)) as [y Hy]; [by exists i|congruence].
Qed.

Lemma I1_ne a : a <> n -> I1 !! a = I !! a.
Proof. intros. by apply lookup_insert_ne. Qed.

Lemma keyof_ne a : a <> n -> keyof I1 a = keyof I a.
Proof. intros. unfold keyof. by rewrite I1_ne. Qed.

Lemma keyof_n : keyof I1 n = k.
Proof. unfold keyof, I1. by rewrite lookup_insert_eq. Qed.

Lemma grp_I1 k' l : n ∉ l -> grp I1 k' l = grp I k' l.
Proof. intros H. apply grp_ext. intros a Ha. apply keyof_ne. by intros ->. Qed.

Lemma dat_I1 l : n ∉ l -> dat I1 l = dat I l.
Proof. intros H. apply dat_ext. intros a Ha. apply I1_ne. by intros ->. Qed.

Lemma grp_dat_I1 k' l : n ∉ l -> dat I1 (grp I1 k' l) = dat I (grp I k' l).
Proof. intros H. rewrite grp_I1 by done. apply dat_I1. by intros [? _]%grp_sub. Qed.

Lemma info_new : info (<[n := x]> (mem ht)) = I1.
Proof. unfold info. by rewrite fmap_insert. Qed.

(** Where the search for the place ends. *)
Lemma place : exists r, insert_loop cmp (chain_fuel (ht <| mem := <[n := x]> (mem ht) |>)) (ht <| mem := <[n := x]> (mem ht) |>) (Bucket e) (head_of (C e)) (reverse k) d = Some r /\
  insert_result cmp I1 e k d [] (C e) r /\ ginsert cmp d (dat I1 (grp I1 k (C e))) = ginsert cmp d (G k).
Proof using R Hn Hi Hhash.
  pose proof (r_good _ _ _ _ _ R) as HG. pose proof (g_shape _ _ _ _ HG) as S. pose proof e_range as Hr. pose proof (not_in_chain e Hr) as Hnc.
  destruct (load_head K C ht e S Hr Hi) as [_ Hs]. set (h1 := ht <| mem := <[n := x]> (mem ht) |>).
  assert (forall a, a ∈ C e -> mem h1 !! a = mem ht !! a) as Hm by (intros a Ha; apply lookup_insert_ne; by intros ->).
  destruct (insert_loop_spec cmp h1 e k d (C e) (Hhash d) (chain_fuel h1) [] (head_of (C e))) as (r & Er & Hres).
  - apply (seg_frame (mem ht)); [|done]. intros a y Ha Hy. exists y. by rewrite Hm.
  - destruct (chain_sorted K C ht e HG Hr) as [H1 H2]. split.
    + apply (sorted_ext (fun a b => reverse (keyof I a) <= reverse (keyof I b))); [|exact H1]. intros a b Ha Hb.
      change (info (mem h1)) with (info (<[n := x]> (mem ht))). rewrite info_new. rewrite !keyof_ne; [done|by intros ->|by intros ->].
    + intros a y Ha Hy. rewrite Hm in Hy by done. by apply (H2 a).
  - unfold chain_fuel, h1. cbn. rewrite map_size_insert_None by done. pose proof (chain_length K C ht e S Hr). lia.
  - exists r. change (info (mem h1)) with (info (<[n := x]> (mem ht))) in Hres. rewrite info_new in Hres. split; [exact Er|]. split; [done|].
    f_equal. rewrite grp_dat_I1 by done. destruct (owner _ _ _ _ _ k R Hi) as [Ho _]. change (grp I k (C e) = M k) in Ho. rewrite Ho. apply (r_dat _ _ _ _ _ R), Hhash.
Qed.

Lemma rep_insert : exists b ht', list_insert cmp (ht <| mem := <[n := x]> (mem ht) |>) (Bucket e) n = Some (b, ht') /\
  match ginsert cmp d (G k) with
  | None => b = false /\ ht' = ht <| mem := <[n := x]> (mem ht) |>
  | Some g => b = true /\ same_size ht ht' /\ exists C' M', rep (with_group G k g) (ht' <| num_elements := num_elements ht + 1 |>) K C' M'
  end.
Proof using R Hn Hi Hhash.
  pose proof (r_good _ _ _ _ _ R) as HG. pose proof (g_shape _ _ _ _ HG) as S. pose proof e_range as Hr. pose proof (not_in_chain e Hr) as Hnc.
  destruct place as (r & Er & Hres & Hgi). destruct (load_head K C ht e S Hr Hi) as [Hl _].
  set (h1 := ht <| mem := <[n := x]> (mem ht) |>) in *. unfold list_insert. replace (mem h1 !! n) with (Some x) by (symmetry; apply lookup_insert_eq). cbn [mbind option_bind].
  change (load (Bucket e) h1) with (load (Bucket e) ht). rewrite Hl. cbn [mbind option_bind]. change (reversed x) with (reverse k). change (data x) with d. rewrite Er. cbn [mbind option_bind].
  unfold insert_result in Hres. rewrite Hgi in Hres. destruct r as [last|]; [|rewrite Hres; by exists false, h1].
  destruct Hres as (l1 & l2 & Hc & -> & Ho1 & Ho2 & ->). cbn [app].
  destruct (shape_insert K C ht e l1 l2 n x S Hr Hi Hc Hn) as (ht' & E' & S' & I' & Z' & N'). fold h1 in E'.
  assert ((n ∉ l1) /\ (n ∉ l2)) as [Hn1 Hn2] by (rewrite Hc in Hnc; apply not_elem_of_app in Hnc; done).
  exists true, ht'. split.
  { destruct (load (endloc e l1) h1) as [p|]; [|done]. cbn [mbind option_bind] in E' |- *. destruct (store (Next n) p h1) as [h2|]; [|done]. cbn [mbind option_bind] in E' |- *. by rewrite E'. }
  split; [done|]. split; [done|]. change (info (mem ht') = I1) in I'.
  assert (forall i a, 0 <= i < 2 ^ K -> a ∈ C i -> keyof I1 a = keyof I a) as Hkey by (intros i a Hir Ha; apply keyof_ne; intros ->; by apply (not_in_chain i)).
  exists (with_chain C e (l1 ++ n :: l2)), (with_group M k (grp I1 k (l1 ++ n :: l2))). split.
  - apply good_num. apply (good_update K C ht ht' e); [done|done|done|done|done| | | |].
    + intros a y Hy. assert (info (mem ht') !! a = Some (reversed y, key y, data y)) as Hyi by (apply info_lookup; eauto). rewrite I' in Hyi.
      destruct (decide (a = n)) as [-> |Han]; [unfold I1 in Hyi; rewrite lookup_insert_eq in Hyi; by injection Hyi as <- <- <-|].
      rewrite I1_ne in Hyi by done. apply info_lookup in Hyi as (y' & Hy' & E). injection E as -> -> ->. by apply (g_info _ _ _ _ HG a).
    + intros i a Hir _ Ha. unfold kf. rewrite I'. by apply (Hkey i).
    + unfold kf. rewrite I'. pose proof (g_sorted _ _ _ _ HG e Hr) as Hs. rewrite Hc in Hs. apply StronglySorted_app in Hs as (Ho & Hs1 & Hs2).
      assert (forall a, a ∈ l1 \/ a ∈ l2 -> keyof I1 a = keyof I a) as Hk12 by (intros a Ha; apply (Hkey e); [done|]; rewrite Hc; apply elem_of_app; tauto).
      apply StronglySorted_app. split; [|split].
      * intros a b Ha [-> |Hb]%list.elem_of_cons; [rewrite keyof_n; by apply Ho1|]. rewrite !Hk12 by tauto. by apply Ho.
      * apply (sorted_ext (fun a b => reverse (kf ht a) <= reverse (kf ht b))); [|done]. intros a b Ha Hb. by rewrite !Hk12 by tauto.
      * apply StronglySorted_cons. split; [apply list.Forall_forall; intros y Hy; rewrite keyof_n; by apply Ho2|].
        apply (sorted_ext (fun a b => reverse (kf ht a) <= reverse (kf ht b))); [|done]. intros a b Ha Hb. by rewrite !Hk12 by tauto.
    + intros a Ha. unfold kf. rewrite I'. destruct (decide (a = n)) as [-> |Han]; [rewrite keyof_n; apply own_self; lia|]. rewrite keyof_ne by done. apply (g_own _ _ _ _ HG); [done|].
      rewrite Hc. apply elem_of_app in Ha as [?|[?|?]%list.elem_of_cons]; apply elem_of_app; [by left|done|by right].
  - apply R.
  - change (mem (ht' <| num_elements := num_elements ht + 1 |>)) with (mem ht'). rewrite I'. apply (groups_update K I); [apply R|done| | |done|].
    + intros i a Hir _ Ha. by apply (Hkey i).
    + by apply (owner _ _ _ _ _ k R Hi).
    + intros k' Hne. fold e. rewrite Hc. unfold grp. rewrite !list.filter_app, list.filter_cons_False by (rewrite keyof_n; congruence).
      fold (grp I1 k' l1) (grp I1 k' l2) (grp I k' l1) (grp I k' l2). by rewrite !grp_I1.
  - intros k' Hk'. change (mem (ht' <| num_elements := num_elements ht + 1 |>)) with (mem ht'). rewrite I'. unfold with_group. case_decide as Hd.
    + unfold grp. rewrite list.filter_app, list.filter_cons_True by apply keyof_n. rewrite dat_app. f_equal. unfold dat at 1. cbn. unfold I1 at 1. rewrite lookup_insert_eq. done.
    + rewrite dat_I1; [by apply (r_dat _ _ _ _ _ R)|]. intros Ha. destruct (M_in _ _ _ _ _ _ _ R Ha) as (i & Hir & Hai & _). by apply (not_in_chain i).
  - change (num_elements ht + 1 = Z.of_nat (size (mem ht'))). rewrite (r_num _ _ _ _ _ R), <- (info_size (mem ht')), I'. unfold I1. rewrite map_size_insert_None; [unfold I; rewrite info_size; lia|].
    unfold I, info. by rewrite lookup_fmap, Hn.
Qed.
End Insert.

(** *** Twice as many buckets *)

Lemma good_grow K C (ht : table) ht' :
  good hash K C ht -> K <= 29 -> num_buckets ht' = 2 ^ (K + 1) -> mask ht' = 2 ^ (K + 1) - 1 -> next_grow ht' = u32 (5 * 2 ^ (K + 1 - 1)) ->
  buckets ht' = buckets ht ++ replicate (Z.to_nat (2 ^ K)) None -> mem ht' = mem ht ->
  good hash (K + 1) (fun i => if decide (i < 2 ^ K) then C i else []) ht'.
Proof.
  intros HG HK Hn Hm Hg Hb Hmem. pose proof (g_shape _ _ _ _ HG) as S. pose proof (s_K _ _ _ S) as HK6.
  assert (2 ^ (K + 1) = 2 ^ K + 2 ^ K) as H2 by (rewrite Z.pow_add_r by lia; lia).
  assert (forall i, 0 <= i < 2 ^ (K + 1) -> bkt ht' i = if decide (i < 2 ^ K) then bkt ht i else Some None) as Hbk.
  { intros i Hi. unfold bkt. rewrite Hb. pose proof (s_len _ _ _ S). case_decide; [apply lookup_app_l; lia|]. rewrite lookup_app_r by lia.
    apply lookup_replicate. split; [done|lia]. }
  assert (forall i, 0 <= i < 2 ^ (K + 1) -> inited ht' i <-> inited ht i /\ i < 2 ^ K) as Hin.
  { intros i Hi. unfold inited. rewrite Hbk by done. case_decide; split; try tauto; try lia. by intros [p Hp]. }
  split.
  - destruct S. split; try done; try lia.
    + rewrite Hb, length_app, length_replicate, s_len0. lia.
    + intros i p Hi. rewrite Hbk by done. case_decide; [|done]. intros Hp. rewrite Hmem. apply s_chain0; [lia|done].
    + intros i Hi. rewrite Hbk by done. case_decide; [|done]. apply s_empty0. lia.
    + intros i Hi. case_decide; [apply s_nodup0; lia|constructor].
    + intros i j a Hi Hj. repeat case_decide; try (by intros H'%not_elem_of_nil); try (by intros _ H'%not_elem_of_nil). apply s_disj0; lia.
    + intros a. rewrite Hmem, s_dom0. split.
      * intros (i & Hi & Ha). exists i. split; [lia|]. by rewrite decide_True by lia.
      * intros (i & Hi & Ha). case_decide; [|by apply not_elem_of_nil in Ha]. exists i. split; [lia|done].
  - apply Hin; [lia|]. split; [apply HG|lia].
  - rewrite Hmem. apply HG.
  - intros i Hi. case_decide; [|constructor]. unfold kf. rewrite Hmem. apply (g_sorted _ _ _ _ HG). lia.
  - intros i a Hi Ha. case_decide; [|by apply not_elem_of_nil in Ha]. unfold kf. rewrite Hmem. fold (kf ht a).
    destruct (g_own _ _ _ _ HG i a ltac:(lia) Ha) as [H1 H3]. set (r := kf ht a mod 2 ^ (K + 1)).
    assert (0 <= r < 2 ^ (K + 1)) as Hr by (apply Z.mod_pos_bound; lia).
    assert (kf ht a mod 2 ^ K = r mod 2 ^ K) as E by (symmetry; apply mod_mod_pow; lia). rewrite E in H1, H3. split.
    + apply (anc_trans _ (r mod 2 ^ K)); [done|]. exists K. split; [lia|done].
    + intros j Hj Hjn. pose proof (anc_range _ _ (proj1 Hr) Hj). apply Hin in Hjn as [Hjn Hlt]; [|lia]. apply H3; [|done]. apply anc_grow; [lia|lia|done|done].
Qed.

Lemma groups_grow K (I : infos) C M : 0 <= K -> groups K I C M -> groups (K + 1) I (fun i => if decide (i < 2 ^ K) then C i else []) M.
Proof.
  intros HK [G1 G2]. assert (2 ^ (K + 1) = 2 ^ K + 2 ^ K) as H2 by (rewrite Z.pow_add_r by lia; lia). split.
  - intros i k Hi. case_decide; [apply G1; lia|by left].
  - intros k. destruct (G2 k) as (i & Hi & H). exists i. rewrite decide_True by lia. split; [lia|done].
Qed.

Lemma rep_grow G ht K C M realloc : rep G ht K C M -> num_elements ht < 2 ^ 31 -> next_grow ht <= num_elements ht ->
  exists ht' K' C' , fr_hash_table_grow realloc ht = Some ht' /\ rep G ht' K' C' M /\ num_elements ht' = num_elements ht /\ mem ht' = mem ht.
Proof.
  intros [HG HK Hgr Hd Hnum] Hlt Hle. pose proof (g_shape _ _ _ _ HG) as S. pose proof (s_K _ _ _ S) as HK6.
  assert (K <= 29) as HK29.
  { destruct (Z.eq_dec K 30) as [-> |]; [|lia]. rewrite (s_grow _ _ _ S) in Hle. change (u32 (5 * 2 ^ (30 - 1))) with 2684354560 in Hle. change (2 ^ 31) with 2147483648 in Hlt. lia. }
  assert (2 ^ 6 <= 2 ^ K <= 2 ^ 29) as H2K by (split; apply Z.pow_le_mono_r; lia).
  assert (2 * 2 ^ K = 2 ^ (K + 1)) as H2 by (rewrite Z.pow_add_r by lia; lia).
  unfold fr_hash_table_grow. destruct realloc; [|exists ht, K, C; split; [done|]; split; [by split|done]].
  rewrite (s_num _ _ _ S). assert (u32 (2 * 2 ^ K) = 2 ^ (K + 1)) as -> by (rewrite H2; apply u32_id; unfold is_u32; lia).
  cbn [negb]. rewrite (proj2 (Z.eqb_neq _ _)) by lia. eexists _, (K + 1), _. split; [reflexivity|].
  set (ht' := MkTable _ _ _ _ _ _). split; [|done]. split; [|lia| |done|done].
  - apply (good_grow K C ht); [done|done|done| | | |done].
    + cbn. apply u32_id. unfold is_u32. lia.
    + cbn. rewrite (s_grow _ _ _ S). assert (2 * 2 ^ (K - 1) = 2 ^ K) as H1 by (rewrite <- Z.pow_succ_r by lia; f_equal; lia).
      rewrite (u32_id (5 * 2 ^ (K - 1))) by (unfold is_u32; lia). replace (K + 1 - 1) with K by lia. f_equal. lia.
    + cbn. rewrite resize_ge; [|rewrite (s_len _ _ _ S); lia]. f_equal. f_equal. rewrite (s_len _ _ _ S). lia.
  - apply groups_grow; [lia|done].
Qed.

(** *** [fr_hash_table_insert] *)

Lemma insert_ok G ht K C M alloc realloc d : rep G ht K C M -> num_elements ht < 2 ^ 31 - 1 -> (forall n, alloc = Some n -> mem ht !! n = None) ->
  exists b ht' K' C' M', fr_hash_table_insert hash cmp alloc realloc ht d = Some (b, ht') /\ num_elements ht' = num_elements ht + (if b then 1 else 0) /\
    match alloc, ginsert cmp d (G (hash d)) with
    | Some _, Some g => b = true /\ rep (with_group G (hash d) g) ht' K' C' M'
    | _, _ => b = false /\ rep G ht' K' C' M'
    end.
Proof using Hhash.
  intros R Hlt Hal. unfold fr_hash_table_insert. destruct (focus _ _ _ _ _ (hash d) R (Hhash d)) as (h1 & C1 & -> & R1 & He & Hr & Hi & Hk & _). cbn [mbind option_bind].
  assert (num_elements h1 = num_elements ht) as Hnum by apply (k_size _ _ _ _ _ Hk).
  destruct alloc as [n|]; [|exists false, h1, K, C1, M; split; [done|]; split; [lia|done]].
  assert (mem h1 !! n = None) as Hn.
  { destruct (mem h1 !! n) as [y|] eqn:E; [|done]. destruct (info_eq _ _ _ _ (k_info _ _ _ _ _ Hk) E) as (z & Hz & _). by rewrite (Hal n eq_refl) in Hz. }
  destruct (rep_insert G h1 K C1 M R1 d n Hn Hi) as (b & h2 & E2 & H2). rewrite He, E2. cbn [mbind option_bind].
  destruct (ginsert cmp d (G (hash d))) as [g|].
  - destruct H2 as (-> & Z2 & C2 & M2 & R2). cbn [negb]. assert (num_elements h2 = num_elements h1) as Hn2 by apply Z2.
    pose proof (r_num _ _ _ _ _ R1) as Hsz. rewrite Hn2. rewrite u32_id by (unfold is_u32; lia). set (h3 := h2 <| num_elements := num_elements h1 + 1 |>) in *.
    destruct (next_grow h3 <=? num_elements h3) eqn:Eg; simpl_bool.
    + destruct (rep_grow _ h3 K C2 M2 realloc R2) as (h4 & K4 & C4 & -> & R4 & N4 & _); [cbn; lia|done|]. cbn [mbind option_bind].
      exists true, h4, K4, C4, M2. split; [done|]. split; [rewrite N4; cbn; lia|done].
    + exists true, h3, K, C2, M2. split; [done|]. split; [cbn; lia|done].
  - destruct H2 as (-> & ->). cbn [negb]. eexists false, _, K, C1, M. split; [reflexivity|]. split; [cbn; lia|]. split; [done|].
    replace (h1 <| mem := _ |> <| mem := _ |>) with h1; [done|]. destruct h1 as [a1 a2 a3 a4 a5 mm]. cbn in *. unfold upd. f_equal. by rewrite delete_insert_id.
Qed.

(** *** An element goes *)

Lemma chain_split_unique (l1 l2 m1 m2 : list nat) a : a ∉ l1 -> a ∉ m1 -> l1 ++ a :: l2 = m1 ++ a :: m2 -> l1 = m1 /\ l2 = m2.
Proof.
  revert m1. induction l1 as [|x l1 IH]; intros [|y m1]; cbn; intros H1 H2 E.
  - by injection E as ->.
  - injection E as -> _. exfalso. apply H2. by left.
  - injection E as -> _. exfalso. apply H1. by left.
  - injection E as -> E. apply not_elem_of_cons in H1 as [_ H1], H2 as [_ H2]. by destruct (IH m1 H1 H2 E) as [-> ->].
Qed.

Lemma rep_delete G ht K C M d a g1 g2 x :
  rep G ht K C M -> inited ht (hash d mod 2 ^ K) -> M (hash d) = g1 ++ a :: g2 -> mem ht !! a = Some x ->
  exists ht' x', list_delete ht (Bucket (hash d mod 2 ^ K)) a = Some ht' /\ mem ht' !! a = Some x' /\ data x' = data x /\ num_elements ht' = num_elements ht /\ 0 < num_elements ht /\
    exists C' M', rep (with_group G (hash d) (dat (info (mem ht)) g1 ++ dat (info (mem ht)) g2)) (ht' <| num_elements := num_elements ht - 1 |> <| mem := delete a (mem ht') |>) K C' M'.
Proof using Hhash.
  intros R Hi HM Hx. pose proof (r_good _ _ _ _ _ R) as HG. pose proof (g_shape _ _ _ _ HG) as S. pose proof (s_K _ _ _ S) as HK. set (k := hash d) in *. set (e := k mod 2 ^ K) in *.
  assert (0 <= e < 2 ^ K) as Hr by (apply Z.mod_pos_bound; lia). destruct (owner _ _ _ _ _ k R Hi) as [Ho1 Ho2]. fold e in Ho1, Ho2.
  assert (a ∈ C e /\ keyof (info (mem ht)) a = k) as [Ha Hka] by (apply grp_sub; rewrite Ho1, HM; apply elem_of_app; right; by left).
  apply list_elem_of_split in Ha as (l1 & l2 & Hc). pose proof (s_nodup _ _ _ S e Hr) as Hnd. rewrite Hc in Hnd. apply list.NoDup_app in Hnd as (Hnd1 & Hnd2 & [Hal2 Hnd3]%list.NoDup_cons).
  assert (a ∉ l1) as Hal1 by (intros H; apply (Hnd2 a H); by left). destruct (load_head K C ht e S Hr Hi) as [Hl Hs]. rewrite Hc in Hs.
  destruct (shape_delete K C ht e l1 l2 a x S Hr Hi Hc Hx) as (ht' & E & (x' & Hx' & Hd') & Z' & I' & S' & N').
  assert (0 < num_elements ht) as Hpos.
  { rewrite (r_num _ _ _ _ _ R). assert (size (mem ht) <> 0)%nat; [|lia]. intros H0%map_size_empty_inv. rewrite H0 in Hx. done. }
  exists ht', x'. split; [|split; [done|split; [done|split; [apply Z'|split; [done|]]]]].
  { unfold list_delete. rewrite Hl. cbn [mbind option_bind]. rewrite <- Hc in Hs. pose proof (chain_length K C ht e S Hr) as Hlen. rewrite Hc in Hs, Hlen |- *.
    change (Bucket e) with (endloc e []). rewrite (delete_loop_spec ht e a l2 l1); [|done|done|unfold chain_fuel; lia]. cbn [mbind option_bind app]. by rewrite Hx. }
  set (I := info (mem ht)) in *. set (h3 := ht' <| num_elements := _ |> <| mem := _ |>).
  assert (info (mem h3) = delete a I) as I3 by (cbn; unfold info; rewrite fmap_delete; f_equal; exact I').
  assert (forall b, b <> a -> keyof (delete a I) b = keyof I b) as Hkey by (intros b Hb; unfold keyof; by rewrite lookup_delete_ne).
  assert (forall k' l, a ∉ l -> grp (delete a I) k' l = grp I k' l) as Hgrp by (intros k' l Hal; apply grp_ext; intros b Hb; apply Hkey; by intros ->).
  assert (forall l, a ∉ l -> dat (delete a I) l = dat I l) as Hdat by (intros l Hal; apply dat_ext; intros b Hb; apply lookup_delete_ne; by intros ->).
  assert (a ∉ l1 ++ l2) as Hal by (apply not_elem_of_app; done).
  assert (forall i b, 0 <= i < 2 ^ K -> i <> e -> b ∈ C i -> b <> a) as Hother.
  { intros i b Hir Hne Hb ->. apply Hne, (s_disj _ _ _ S i e a); [done|done|done|]. rewrite Hc. apply elem_of_app. right. by left. }
  assert (grp I k l1 = g1 /\ grp I k l2 = g2) as [Hg1 Hg2].
  { assert (NoDup (M k)) as Hm by (rewrite <- Ho1; apply list.NoDup_filter, (s_nodup _ _ _ S e Hr)). rewrite HM in Hm. apply list.NoDup_app in Hm as (_ & Hm & _).
    apply (chain_split_unique _ _ _ _ a); [by intros [? _]%grp_sub|intros H; apply (Hm a H); by left|]. rewrite <- HM, <- Ho1, Hc. unfold grp. by rewrite list.filter_app, list.filter_cons_True. }
  exists (with_chain C e (l1 ++ l2)), (with_group M k (grp (delete a I) k (l1 ++ l2))). split.
  - apply (good_update K C ht h3 e); [done|done|done| |done| | | |].
    + destruct S'. split; done.
    + intros b y Hy. cbn in Hy. apply lookup_delete_Some in Hy as [_ Hy]. destruct (info_eq _ _ _ _ I' Hy) as (y' & Hy' & <- & <- & <-). by apply (g_info _ _ _ _ HG b).
    + intros i b Hir Hne Hb. unfold kf. rewrite I3. apply Hkey. by apply (Hother i).
    + unfold kf. rewrite I3. pose proof (g_sorted _ _ _ _ HG e Hr) as Hso. rewrite Hc in Hso. apply StronglySorted_app in Hso as (Ho & Hs1 & [_ Hs2]%StronglySorted_cons).
      apply (sorted_ext (fun a b => reverse (keyof I a) <= reverse (keyof I b))); [intros b c Hb Hcc; rewrite !Hkey; [done|by intros ->|by intros ->]|].
      apply StronglySorted_app. split; [|done]. intros b c Hb Hcc. apply Ho; [done|by right].
    + intros b Hb. unfold kf. rewrite I3, Hkey by (by intros ->). apply (g_own _ _ _ _ HG); [done|]. rewrite Hc. apply elem_of_app in Hb as [?|?]; apply elem_of_app; [by left|right; by right].
  - apply R.
  - rewrite I3. apply (groups_update K I); [apply R|done| |done|done|].
    + intros i b Hir Hne Hb. apply Hkey. by apply (Hother i).
    + intros k' Hne. fold e. rewrite Hgrp, Hc by done. unfold grp. rewrite !list.filter_app. by rewrite list.filter_cons_False by congruence.
  - intros k' Hk'. rewrite I3. unfold with_group. case_decide as Hd.
    + rewrite Hgrp by done. unfold grp. rewrite list.filter_app, dat_app. fold (grp I k l1) (grp I k l2). rewrite Hg1, Hg2.
      by rewrite !Hdat by (rewrite <- ?Hg1, <- ?Hg2; by intros [? _]%grp_sub).
    + rewrite Hdat; [by apply (r_dat _ _ _ _ _ R)|]. intros Ham. destruct (M_in _ _ _ _ _ _ _ R Ham) as (i & _ & _ & H). apply Hd. fold I in H. congruence.
  - change (num_elements ht - 1 = Z.of_nat (size (mem h3))). rewrite (r_num _ _ _ _ _ R), <- (info_size (mem h3)), I3.
    rewrite map_size_delete_Some; [unfold I; rewrite info_size; rewrite (r_num _ _ _ _ _ R) in Hpos; lia|]. apply info_dom. by exists x.
Qed.

Lemma remove_ok G ht K C M d : rep G ht K C M -> num_elements ht < 2 ^ 31 ->
  exists ht' C' M', fr_hash_table_remove hash cmp ht d = Some (gfind cmp d (G (hash d)), ht') /\
    num_elements ht' = num_elements ht - match gfind cmp d (G (hash d)) with Some _ => 1 | None => 0 end /\
    rep (with_group G (hash d) (gchange cmp (fun _ => []) d (G (hash d)))) ht' K C' M'.
Proof using Hhash.
  intros R Hlt. unfold fr_hash_table_remove. destruct (focus _ _ _ _ _ (hash d) R (Hhash d)) as (h1 & C1 & -> & R1 & He & Hr & Hi & Hk & _). cbn [mbind option_bind]. rewrite He.
  assert (num_elements h1 = num_elements ht) as Hnum by apply (k_size _ _ _ _ _ Hk).
  destruct (find_in_bucket _ _ _ _ _ (hash d) d R1 (Hhash d) Hi) as (r & Er & Hres).
  destruct (load (Bucket (hash d mod 2 ^ K)) h1) as [h|]; [|done]. cbn [mbind option_bind] in Er |- *. rewrite Er. cbn [mbind option_bind].
  destruct r as [a|].
  - destruct Hres as (g1 & g2 & x & HM & Hx & Hf & Hch). destruct (rep_delete _ _ _ _ _ d a g1 g2 x R1 Hi HM Hx) as (h2 & x' & -> & Hx' & Hd & Hn & Hpos & C2 & M2 & R2).
    cbn [mbind option_bind]. rewrite Hn, u32_id by (unfold is_u32; lia). set (h3 := h2 <| num_elements := num_elements h1 - 1 |>) in *.
    change (mem h3) with (mem h2). rewrite Hx'. cbn [mbind option_bind]. rewrite Hd, Hf. eexists _, C2, M2. split; [reflexivity|]. split; [cbn; lia|].
    by rewrite (Hch (fun _ => [])).
  - rewrite Hres. exists h1, C1, M. split; [done|]. split; [lia|]. destruct R1. split; try done. intros k Hk'. rewrite r_dat0 by done.
    unfold with_group. case_decide as Hd; [|done]. subst k. by rewrite gchange_none.
Qed.

(** *** An element is replaced *)

Lemma rep_replace G ht K C M d a g1 g2 x :
  rep G ht K C M -> M (hash d) = g1 ++ a :: g2 -> mem ht !! a = Some x ->
  rep (with_group G (hash d) (dat (info (mem ht)) g1 ++ [d] ++ dat (info (mem ht)) g2)) (ht <| mem := <[a := x <| data := d |>]> (mem ht) |>) K C M.
Proof.
  intros R HM Hx. pose proof (r_good _ _ _ _ _ R) as HG. pose proof (g_shape _ _ _ _ HG) as S. set (I := info (mem ht)) in *. set (ht' := ht <| mem := _ |>).
  assert (a ∈ M (hash d)) as Ha by (rewrite HM; apply elem_of_app; right; by left).
  destruct (M_in _ _ _ _ _ _ _ R Ha) as (i & Hir & Hai & Hka). fold I in Hka. assert (key x = hash d) as Hkx by (rewrite <- Hka; symmetry; by apply keyof_info).
  assert (NoDup (M (hash d))) as Hnd.
  { destruct (r_groups _ _ _ _ _ R) as [_ G2]. destruct (G2 (hash d)) as (j & Hj & <-). by apply list.NoDup_filter, (s_nodup _ _ _ S). }
  rewrite HM in Hnd. apply list.NoDup_app in Hnd as (_ & Hnd2 & [Hag2 _]%list.NoDup_cons). assert (a ∉ g1) as Hag1 by (intros H; apply (Hnd2 a H); by left).
  assert (info (mem ht') = <[a := (reversed x, key x, d)]> I) as I' by (cbn; unfold info; by rewrite fmap_insert).
  assert (I !! a = Some (reversed x, key x, data x)) as HIa by (apply info_lookup; eauto).
  assert (forall b, keyof (info (mem ht')) b = keyof I b) as Hkey.
  { intros b. rewrite I'. unfold keyof. destruct (decide (b = a)) as [-> |]; [by rewrite lookup_insert_eq, HIa|by rewrite lookup_insert_ne]. }
  assert (forall l, a ∉ l -> dat (info (mem ht')) l = dat I l) as Hdat.
  { intros l Hal. rewrite I'. apply dat_ext. intros b Hb. apply lookup_insert_ne. by intros ->. }
  split; [split| | | |].
  - destruct S. split; try done.
    + intros j p Hj Hp. apply (seg_frame (mem ht)); [|by apply s_chain0]. intros b y Hb Hy. destruct (decide (b = a)) as [-> |Hne].
      * exists (x <| data := d |>). split; [apply lookup_insert_eq|]. rewrite Hx in Hy. by injection Hy as <-.
      * exists y. split; [|done]. cbn. by rewrite lookup_insert_ne.
    + intros b. cbn. rewrite lookup_insert_is_Some, <- s_dom0. split; [intros [<- |[_ ?]]; [by exists x|done]|]. intros H. destruct (decide (a = b)); [by left|by right].
  - apply HG.
  - intros b y Hy. cbn in Hy. apply lookup_insert_Some in Hy as [[<- <-]|[_ Hy]]; [|by apply (g_info _ _ _ _ HG b)]. cbn. split; [|done]. by apply (g_info _ _ _ _ HG a).
  - intros j Hj. apply (sorted_ext (fun a b => reverse (kf ht a) <= reverse (kf ht b))); [|by apply (g_sorted _ _ _ _ HG)]. intros b c _ _. unfold kf. by rewrite !Hkey.
  - intros j b Hj Hb. unfold kf. rewrite Hkey. by apply (g_own _ _ _ _ HG).
  - apply R.
  - destruct (r_groups _ _ _ _ _ R) as [G1 G2]. split.
    + intros j k Hj. rewrite (grp_ext I) by (intros; apply Hkey). by apply G1.
    + intros k. destruct (G2 k) as (j & Hj & H). exists j. rewrite (grp_ext I) by (intros; apply Hkey). done.
  - intros k Hk. unfold with_group. case_decide as Hd.
    + subst k. rewrite HM, dat_app. rewrite (dat_cons (mem ht') a (x <| data := d |>)) by apply lookup_insert_eq. by rewrite !Hdat.
    + rewrite Hdat; [by apply (r_dat _ _ _ _ _ R)|]. intros Hak. destruct (M_in _ _ _ _ _ _ _ R Hak) as (j & _ & _ & H). apply Hd. fold I in H. congruence.
  - cbn. rewrite (r_num _ _ _ _ _ R). f_equal. symmetry. apply map_size_insert_Some. by exists x.
Qed.

Lemma gfind_none_ginsert d (l : list D) : gfind cmp d l = None -> is_Some (ginsert cmp d l).
Proof.
  induction l as [|y l IH]; [by eexists|]. cbn. destruct (0 <? cmp d y); [by eexists|]. destruct (cmp d y <? 0); [|done]. intros H. destruct (IH H) as [g ->]. by eexists.
Qed.
End Spec.
End HashSpec.
