(* ===== verification/HashMap.v ===== *)
(** Any sequence of calls of a hash table (HashTable): the results are those of
    groups of elements with the same hash, and of a map where hashes do not
    collide; where they do, elements are lost. *)

From stdpp Require Import gmap sorting.
From S2P Require Import Prelude HashTable HashBits HashChain HashInv HashOps HashSpec.
Import HashTable HashBits HashChain HashInv HashOps HashSpec.

Module HashMap.

Section Run.
Context {D : Type} (hash : D -> Z) (cmp : D -> D -> Z) (has_free : bool).
(** Whether the [n]-th call finds memory for an entry and for more buckets, and the
    address of the entry. *)
Context (ok : nat -> bool) (addr : nat -> fr_hash_table_t D -> nat) (realloc : nat -> bool).
Notation table := (fr_hash_table_t D).

Inductive call := Find (d : D) | FindByKey (k : Z) (d : D) | Insert (d : D) | Replace (want : bool) (d : D) | Remove (d : D) | Delete (d : D) | Fill | Num.
Inductive result :=
| Found (o : option D) | Inserted (b : bool) | Replaced (r : Z) (old : option D) (freed : list D) | Removed (o : option D) | Deleted (b : bool) (freed : list D)
| Filled | Count (n : Z).

Definition step (n : nat) (c : call) (ht : table) : option (result * table) :=
  let alloc := if ok n then Some (addr n ht) else None in
  match c with
  | Find d => '(o, ht) ← fr_hash_table_find hash cmp ht d; Some (Found o, ht)
  | FindByKey k d => '(o, ht) ← fr_hash_table_find_by_key cmp ht k d; Some (Found o, ht)
  | Insert d => '(b, ht) ← fr_hash_table_insert hash cmp alloc (realloc n) ht d; Some (Inserted b, ht)
  | Replace want d => '(r, old, freed, ht) ← fr_hash_table_replace hash cmp has_free want alloc (realloc n) ht d; Some (Replaced r old freed, ht)
  | Remove d => '(o, ht) ← fr_hash_table_remove hash cmp ht d; Some (Removed o, ht)
  | Delete d => '(b, freed, ht) ← fr_hash_table_delete hash cmp has_free ht d; Some (Deleted b freed, ht)
  | Fill => ht ← fr_hash_table_fill ht; Some (Filled, ht)
  | Num => Some (Count (fr_hash_table_num_elements ht), ht)
  end.

Fixpoint run (n : nat) (l : list call) (ht : table) : option (list result * table) :=
  match l with
  | [] => Some ([], ht)
  | c :: l => '(r, ht) ← step n c ht; '(rs, ht) ← run (S n) l ht; Some (r :: rs, ht)
  end.

(** *** The same calls on groups *)

Definition groups_t : Type := (Z -> list D) * Z.

Definition insert_group (n : nat) (d : D) (s : groups_t) : bool * groups_t :=
  let '(G, c) := s in
  match ginsert cmp d (G (hash d)) with
  | Some g => if ok n then (true, (with_group G (hash d) g, c + 1)) else (false, s)
  | None => (false, s)
  end.

Definition remove_group (d : D) (s : groups_t) : option D * groups_t :=
  let '(G, c) := s in
  match gfind cmp d (G (hash d)) with
  | Some x => (Some x, (with_group G (hash d) (gchange cmp (fun _ => []) d (G (hash d))), c - 1))
  | None => (None, s)
  end.

Definition free_data (o : option D) : list D := match o with Some x => if has_free then [x] else [] | None => [] end.

Definition group_step (n : nat) (c : call) (s : groups_t) : result * groups_t :=
  match c with
  | Find d => (Found (gfind cmp d (fst s (hash d))), s)
  | FindByKey k d => (Found (gfind cmp d (fst s k)), s)
  | Insert d => let '(b, s) := insert_group n d s in (Inserted b, s)
  | Replace want d =>
      match gfind cmp d (fst s (hash d)) with
      | Some x => (Replaced 0 (if want then Some x else None) (if want then [] else free_data (Some x)),
                   (with_group (fst s) (hash d) (gchange cmp (fun _ => [d]) d (fst s (hash d))), snd s))
      | None => let '(b, s) := insert_group n d s in (Replaced (if b then 1 else -1) None [], s)
      end
  | Remove d => let '(o, s) := remove_group d s in (Removed o, s)
  | Delete d => let '(o, s) := remove_group d s in (Deleted (match o with Some _ => true | None => false end) (free_data o), s)
  | Fill => (Filled, s)
  | Num => (Count (snd s), s)
  end.

Fixpoint group_run (n : nat) (l : list call) (s : groups_t) : list result * groups_t :=
  match l with
  | [] => ([], s)
  | c :: l => let '(r, s) := group_step n c s in let '(rs, s) := group_run (S n) l s in (r :: rs, s)
  end.

(** ** The code refines the groups *)

Context (Hhash : forall d, is_u32 (hash d)).
Context (Haddr : forall n ht, mem ht !! addr n ht = None).

(** A hash that is given is a word. *)
Definition good_call (c : call) : Prop := match c with FindByKey k _ => is_u32 k | _ => True end.

Definition holds (s : groups_t) (ht : table) : Prop := (exists K C M, rep hash (fst s) ht K C M) /\ num_elements ht = snd s.

Lemma alloc_holds : holds (fun _ => [], 0) _fr_hash_table_alloc.
Proof.
  split; [|done]. exists 6, (fun _ => []), (fun _ => []). split; [split| | | |]; try done.
  - split; try done.
    + intros i p Hi. unfold bkt. cbn. destruct (decide (i = 0)) as [-> |]; [by intros [= <-]|]. rewrite list_lookup_insert_ne by lia. intros H. by apply lookup_replicate in H as [? _].
    + intros i Hi. constructor.
    + by intros i j a _ _ H%not_elem_of_nil.
    + intros a. cbn. split; [by intros [x Hx]|]. by intros (i & _ & H%not_elem_of_nil).
  - by exists null.
  - intros. constructor.
  - by intros i a _ H%not_elem_of_nil.
  - split; [by left|]. intros k. exists 0. by split.
Qed.

Lemma fill_ok n : forall G ht K C M, rep hash G ht K C M -> Z.of_nat n <= 2 ^ K ->
  exists ht' C', fill_loop n ht = Some ht' /\ rep hash G ht' K C' M /\ kept K C ht C' ht' /\ (forall i, 0 <= i < Z.of_nat n -> inited ht' i).
Proof using Hhash.
  induction n as [|n IH]; intros G ht K C M R Hn; cbn [fill_loop].
  - exists ht, C. split; [done|]. split; [done|]. split; [apply kept_refl|]. lia.
  - destruct (ensure_ok hash Hhash K C ht (Z.of_nat n) (r_good _ _ _ _ _ _ R)) as (h1 & C1 & -> & G1 & K1 & I1 & _); [lia|]. cbn [mbind option_bind].
    destruct (IH G h1 K C1 M) as (h2 & C2 & E2 & R2 & K2 & I2); [by eapply rep_kept|lia|].
    exists h2, C2. split; [done|]. split; [done|]. split; [by eapply kept_trans|]. intros i Hi. destruct (decide (i = Z.of_nat n)) as [-> |]; [|apply I2; lia].
    apply (k_init _ _ _ _ _ K2); [lia|done].
Qed.

Lemma find_holds s ht k d : holds s ht -> is_u32 k -> exists ht', fr_hash_table_find_by_key cmp ht k d = Some (gfind cmp d (fst s k), ht') /\ holds s ht'.
Proof using Hhash.
  intros [(K & C & M & R) Hn] Hk. destruct (find_node hash cmp Hhash _ _ _ _ _ k d R Hk) as (r & h1 & C1 & E & R1 & Hkept & _ & Hres).
  exists h1. unfold fr_hash_table_find_by_key. rewrite E. cbn [mbind option_bind]. split; [|split; [eauto|]].
  - destruct r as [a|]; [|by rewrite Hres]. destruct Hres as (g1 & g2 & x & _ & -> & -> & _). done.
  - rewrite <- Hn. apply (k_size _ _ _ _ _ Hkept).
Qed.

Lemma insert_holds s ht n d : holds s ht -> snd s < 2 ^ 31 - 1 ->
  exists ht', fr_hash_table_insert hash cmp (if ok n then Some (addr n ht) else None) (realloc n) ht d = Some (fst (insert_group n d s), ht') /\ holds (snd (insert_group n d s)) ht'.
Proof using Hhash Haddr.
  destruct s as [G c]. intros [(K & C & M & R) Hn] Hlt. cbn [fst snd] in *.
  destruct (insert_ok hash cmp Hhash G ht K C M (if ok n then Some (addr n ht) else None) (realloc n) d R) as (b & h1 & K1 & C1 & M1 & E & Hn1 & H1); [lia| |].
  { destruct (ok n); [|done]. intros a [= <-]. apply Haddr. }
  exists h1. rewrite E. unfold insert_group. destruct (ginsert cmp d (G (hash d))) as [g|], (ok n); destruct H1 as [-> R1]; cbn [fst snd];
    (split; [done|]); (split; [cbn [fst]; eauto|cbn [snd]; lia]).
Qed.

Lemma remove_holds s ht d : holds s ht -> snd s < 2 ^ 31 ->
  exists ht', fr_hash_table_remove hash cmp ht d = Some (fst (remove_group d s), ht') /\ holds (snd (remove_group d s)) ht'.
Proof using Hhash.
  destruct s as [G c]. intros [(K & C & M & R) Hn] Hlt. cbn [fst snd] in *.
  destruct (remove_ok hash cmp Hhash G ht K C M d R) as (h1 & C1 & M1 & E & Hn1 & R1); [lia|]. exists h1. rewrite E. unfold remove_group.
  destruct (gfind cmp d (G (hash d))) as [x|] eqn:Ef; cbn [fst snd]; (split; [done|]); (split; [|cbn [snd]; lia]); [cbn [fst]; eauto|].
  exists K, C1, M1. destruct R1. split; try done. intros k Hk. rewrite r_dat0 by done. unfold with_group. case_decide as Hd; [|done]. subst k.
  by rewrite gchange_none.
Qed.

Lemma replace_holds s ht n want d : holds s ht -> snd s < 2 ^ 31 - 1 ->
  exists ht', step n (Replace want d) ht = Some (fst (group_step n (Replace want d) s), ht') /\ holds (snd (group_step n (Replace want d) s)) ht'.
Proof using Hhash Haddr.
  destruct s as [G c]. intros [(K & C & M & R) Hn] Hlt. cbn [fst snd step group_step] in *. unfold fr_hash_table_replace.
  destruct (find_node hash cmp Hhash _ _ _ _ _ (hash d) d R (Hhash d)) as (r & h1 & C1 & -> & R1 & Hkept & _ & Hres). cbn [mbind option_bind].
  assert (num_elements h1 = c) as Hn1 by (rewrite <- Hn; apply (k_size _ _ _ _ _ Hkept)). destruct r as [a|].
  - destruct Hres as (g1 & g2 & x & HM & Hx & -> & Hch). rewrite Hx. cbn [mbind option_bind]. eexists. split; [unfold free_data; destruct want, has_free; reflexivity|].
    cbn [fst snd]. split; [|done]. exists K, C1, M. cbn [fst]. rewrite (Hch (fun _ => [d])). by apply rep_replace.
  - rewrite Hres. assert (holds (G, c) h1) as Hh by (split; [eauto|done]).
    assert (forall m, mem ht !! m = None -> mem h1 !! m = None) as Hfr.
    { intros m Hm. destruct (mem h1 !! m) as [y|] eqn:E; [|done]. destruct (info_eq _ _ _ _ (k_info _ _ _ _ _ Hkept) E) as (z & Hz & _). congruence. }
    destruct (insert_ok hash cmp Hhash G h1 K C1 M (if ok n then Some (addr n ht) else None) (realloc n) d R1) as (b & h2 & K2 & C2 & M2 & E & Hn2 & H2); [lia| |].
    { destruct (ok n); [|done]. intros m [= <-]. apply Hfr, Haddr. }
    rewrite E. cbn [mbind option_bind]. unfold insert_group. destruct (ginsert cmp d (G (hash d))) as [g|], (ok n); destruct H2 as [-> R2]; cbn [fst snd];
    (eexists; split; [reflexivity|]); (split; [cbn [fst]; eauto|cbn [snd]; lia]).
Qed.

Lemma step_holds s ht n c : holds s ht -> snd s < 2 ^ 31 - 1 -> good_call c ->
  exists ht', step n c ht = Some (fst (group_step n c s), ht') /\ holds (snd (group_step n c s)) ht'.
Proof using Hhash Haddr.
  intros H Hlt Hc. destruct c as [d|k d|d|want d|d|d| |].
  - destruct (find_holds s ht (hash d) d H (Hhash d)) as (h & E & H'). exists h. cbn [step]. unfold fr_hash_table_find. by rewrite E.
  - destruct (find_holds s ht k d H Hc) as (h & E & H'). exists h. cbn [step]. by rewrite E.
  - destruct (insert_holds s ht n d H Hlt) as (h & E & H'). exists h. cbn [step group_step]. rewrite E. by destruct (insert_group n d s).
  - by apply replace_holds.
  - destruct (remove_holds s ht d H ltac:(lia)) as (h & E & H'). exists h. cbn [step group_step]. rewrite E. by destruct (remove_group d s).
  - destruct (remove_holds s ht d H ltac:(lia)) as (h & E & H'). exists h. cbn [step group_step]. unfold fr_hash_table_delete. rewrite E. cbn [mbind option_bind].
    destruct (remove_group d s) as [[x|] s']; done.
  - destruct H as [(K & C & M & R) Hn]. pose proof (s_K _ _ _ (g_shape _ _ _ _ (r_good _ _ _ _ _ _ R))) as HK. pose proof (s_num _ _ _ (g_shape _ _ _ _ (r_good _ _ _ _ _ _ R))) as Hnum.
    destruct (fill_ok (Z.to_nat (2 ^ K)) _ ht K C M R) as (h & C' & E & R' & Hk & _); [lia|]. exists h. cbn [step group_step]. unfold fr_hash_table_fill. rewrite Hnum, E. split; [done|].
    split; [cbn [snd]; eauto|]. cbn [snd]. rewrite <- Hn. apply (k_size _ _ _ _ _ Hk).
  - exists ht. cbn [step group_step]. unfold fr_hash_table_num_elements. destruct H as [H Hn]. split; [by rewrite Hn|done].
Qed.

Lemma group_step_count n c s : snd (snd (group_step n c s)) <= snd s + 1.
Proof.
  assert (forall d, snd (snd (insert_group n d s)) <= snd s + 1) as Hi.
  { intros d. destruct s as [G k]. unfold insert_group. destruct (ginsert _ _ _), (ok n); cbn; lia. }
  assert (forall d, snd (snd (remove_group d s)) <= snd s) as Hr.
  { intros d. destruct s as [G k]. unfold remove_group. destruct (gfind _ _ _); cbn; lia. }
  destruct c as [d|k d|d|want d|d|d| |]; cbn [group_step snd]; try lia; try specialize (Hi d); try specialize (Hr d).
  - destruct (insert_group n d s). cbn in *. lia.
  - destruct (gfind _ _ _); [cbn; lia|]. destruct (insert_group n d s). cbn in *. lia.
  - destruct (remove_group d s). cbn in *. lia.
  - destruct (remove_group d s). cbn in *. lia.
Qed.

Lemma run_holds l : forall n s ht, holds s ht -> snd s + Z.of_nat (length l) < 2 ^ 31 -> Forall good_call l ->
  exists ht', run n l ht = Some (fst (group_run n l s), ht') /\ holds (snd (group_run n l s)) ht'.
Proof using Hhash Haddr.
  induction l as [|c l IH]; intros n s ht H Hlt Hl; [by exists ht|]. apply list.Forall_cons in Hl as [Hc Hl]. cbn [length] in Hlt. cbn [run group_run].
  destruct (step_holds s ht n c H ltac:(lia) Hc) as (h1 & -> & H1). cbn [mbind option_bind]. pose proof (group_step_count n c s). destruct (group_step n c s) as [r s1]. cbn [fst snd] in *.
  destruct (IH (S n) s1 h1 H1 ltac:(lia) Hl) as (h2 & -> & H2). cbn [mbind option_bind]. destruct (group_run (S n) l s1) as [rs s2]. by exists h2.
Qed.

(** ** The same calls on a map *)

Definition map_insert (n : nat) (d : D) (m : gmap Z D) : bool * gmap Z D :=
  match m !! hash d with
  | Some _ => (false, m)
  | None => if ok n then (true, <[hash d := d]> m) else (false, m)
  end.

Definition map_step (n : nat) (c : call) (m : gmap Z D) : result * gmap Z D :=
  match c with
  | Find d => (Found (m !! hash d), m)
  | FindByKey k d => (Found (m !! k), m)
  | Insert d => let '(b, m) := map_insert n d m in (Inserted b, m)
  | Replace want d =>
      match m !! hash d with
      | Some x => (Replaced 0 (if want then Some x else None) (if want then [] else free_data (Some x)), <[hash d := d]> m)
      | None => let '(b, m) := map_insert n d m in (Replaced (if b then 1 else -1) None [], m)
      end
  | Remove d => (Removed (m !! hash d), delete (hash d) m)
  | Delete d => (Deleted (match m !! hash d with Some _ => true | None => false end) (free_data (m !! hash d)), delete (hash d) m)
  | Fill => (Filled, m)
  | Num => (Count (Z.of_nat (size m)), m)
  end.

Fixpoint map_run (n : nat) (l : list call) (m : gmap Z D) : list result * gmap Z D :=
  match l with
  | [] => ([], m)
  | c :: l => let '(r, m) := map_step n c m in let '(rs, m) := map_run (S n) l m in (r :: rs, m)
  end.

(** The elements that calls are about; a hash that is given is that of the element. *)
Definition about (U : D -> Prop) (c : call) : Prop :=
  match c with
  | Find d | Insert d | Replace _ d | Remove d | Delete d => U d
  | FindByKey k d => U d /\ k = hash d
  | Fill | Num => True
  end.

Section NoCollision.
Context (U : D -> Prop) (Hcmp : forall x y, U x -> U y -> cmp x y = 0 <-> hash x = hash y).

Definition is_map (s : groups_t) (m : gmap Z D) : Prop :=
  (forall k, fst s k = match m !! k with Some x => [x] | None => [] end) /\ (forall k x, m !! k = Some x -> U x /\ hash x = k) /\ snd s = Z.of_nat (size m).

Lemma gfind_map s m d : is_map s m -> U d -> gfind cmp d (fst s (hash d)) = m !! hash d.
Proof using Hcmp.
  intros (H1 & H2 & _) Hd. rewrite H1. destruct (m !! hash d) as [x|] eqn:E; [|done]. destruct (H2 _ _ E) as [Hx Hh]. cbn. by rewrite (proj2 (Hcmp d x Hd Hx) (eq_sym Hh)).
Qed.

Lemma is_map_put G c m d : is_map (G, c) m -> U d ->
  is_map (with_group G (hash d) [d], Z.of_nat (size (<[hash d := d]> m))) (<[hash d := d]> m).
Proof.
  intros (H1 & H2 & _) Hd. split; [|split; [|done]].
  - intros k. cbn [fst]. unfold with_group. case_decide as E; [subst k; by rewrite lookup_insert_eq|]. rewrite lookup_insert_ne by done. apply H1.
  - intros k x [[<- <-]|[_ Hx]]%lookup_insert_Some; [done|by apply H2].
Qed.

Lemma insert_map n d s m : is_map s m -> U d -> fst (insert_group n d s) = fst (map_insert n d m) /\ is_map (snd (insert_group n d s)) (snd (map_insert n d m)).
Proof using Hcmp.
  destruct s as [G c]. intros Hm Hd. pose proof (gfind_map _ _ d Hm Hd) as Hf. pose proof Hm as (H1 & H2 & H3). unfold insert_group, map_insert. cbn [fst snd] in *. rewrite H1 in *.
  destruct (m !! hash d) as [x|] eqn:E.
  - destruct (H2 _ _ E) as [Hx Hh]. cbn. rewrite (proj2 (Hcmp d x Hd Hx) (eq_sym Hh)). cbn. done.
  - cbn [ginsert]. destruct (ok n); cbn [fst snd]; [|done]. split; [done|]. replace (c + 1) with (Z.of_nat (size (<[hash d := d]> m))); [by apply (is_map_put G c)|].
    rewrite map_size_insert_None by done. lia.
Qed.

Lemma remove_map d s m : is_map s m -> U d -> fst (remove_group d s) = m !! hash d /\ is_map (snd (remove_group d s)) (delete (hash d) m).
Proof using Hcmp.
  destruct s as [G c]. intros Hm Hd. pose proof (gfind_map _ _ d Hm Hd) as Hf. pose proof Hm as (H1 & H2 & H3). unfold remove_group. cbn [fst snd] in *. rewrite Hf.
  destruct (m !! hash d) as [x|] eqn:E; cbn [fst snd]; (split; [done|]); [|by rewrite delete_id].
  split; [|split].
  - intros k. cbn [fst]. unfold with_group. case_decide as Ek; [|rewrite lookup_delete_ne by done; apply H1]. subst k. rewrite lookup_delete_eq, H1, E.
    destruct (H2 _ _ E) as [Hx Hh]. cbn. by rewrite (proj2 (Hcmp d x Hd Hx) (eq_sym Hh)).
  - intros k y [_ Hy]%lookup_delete_Some. by apply H2.
  - cbn [snd]. rewrite map_size_delete_Some by (by exists x). assert (size m <> 0)%nat; [|lia]. intros H0%map_size_empty_inv. by rewrite H0 in E.
Qed.

Lemma step_map n c s m : is_map s m -> about U c -> fst (group_step n c s) = fst (map_step n c m) /\ is_map (snd (group_step n c s)) (snd (map_step n c m)).
Proof using Hcmp.
  intros Hm Hc. destruct c as [d|k d|d|want d|d|d| |]; cbn [about group_step map_step] in *.
  - by rewrite (gfind_map s m).
  - destruct Hc as [Hd ->]. by rewrite (gfind_map s m).
  - destruct (insert_map n d s m Hm Hc) as [H1 H2]. destruct (insert_group n d s), (map_insert n d m). cbn in *. by subst.
  - rewrite (gfind_map s m) by done. destruct (m !! hash d) as [x|] eqn:E.
    + cbn [fst snd]. split; [done|]. destruct s as [G c]. pose proof Hm as (H1 & H2 & H3). cbn [fst snd] in *. rewrite H1, E.
      destruct (H2 _ _ E) as [Hx Hh]. cbn. rewrite (proj2 (Hcmp d x Hc Hx) (eq_sym Hh)). cbn. rewrite H3.
      replace (size m) with (size (<[hash d := d]> m)) by (apply map_size_insert_Some; by exists x). by apply (is_map_put G c).
    + destruct (insert_map n d s m Hm Hc) as [H1 H2]. destruct (insert_group n d s), (map_insert n d m). cbn in *. by subst.
  - destruct (remove_map d s m Hm Hc) as [H1 H2]. destruct (remove_group d s). cbn in *. by subst.
  - destruct (remove_map d s m Hm Hc) as [H1 H2]. destruct (remove_group d s). cbn in *. by subst.
  - done.
  - destruct Hm as (H1 & H2 & H3). cbn. by rewrite H3.
Qed.

Lemma run_map l : forall n s m, is_map s m -> Forall (about U) l -> fst (group_run n l s) = fst (map_run n l m) /\ is_map (snd (group_run n l s)) (snd (map_run n l m)).
Proof using Hcmp.
  induction l as [|c l IH]; intros n s m Hm Hl; [done|]. apply list.Forall_cons in Hl as [Hc Hl]. cbn [group_run map_run].
  destruct (step_map n c s m Hm Hc) as [H1 H2]. destruct (group_step n c s) as [r s1], (map_step n c m) as [r' m1]. cbn [fst snd] in *. subst r'.
  destruct (IH (S n) s1 m1 H2 Hl) as [H3 H4]. destruct (group_run (S n) l s1), (map_run (S n) l m1). cbn [fst snd] in *. by subst.
Qed.
End NoCollision.
End Run.

Lemma about_good {D} (hash : D -> Z) U l : (forall d, is_u32 (hash d)) -> Forall (about hash U) l -> Forall good_call l.
Proof. intros Hh Hl. eapply list.Forall_impl; [exact Hl|]. intros [d|k d|d|w d|d|d| |]; cbn; try done. by intros [_ ->]. Qed.



(** C35: Two elements with the same hash: when the greater one is inserted second, the
    insertion succeeds and the element is in the table, but it is not found, and
    it can be inserted again. *)
Theorem hash_collision_lost {D} (hash : D -> Z) cmp has_free ok addr realloc (a b : D) :
  (forall d, is_u32 (hash d)) -> (forall n ht, mem ht !! addr n ht = None) -> (forall n, ok n = true) ->
  hash a = hash b -> 0 < cmp b a ->
  exists ht, run hash cmp has_free ok addr realloc 0 [Insert a; Insert b; Find b; Insert b; Remove b; Num] _fr_hash_table_alloc =
    Some ([Inserted true; Inserted true; Found None; Inserted true; Removed None; Count 3], ht).
Proof.
  intros Hh Ha Hok Hab Hc. set (l := [_; _; _; _; _; _]).
  destruct (run_holds hash cmp has_free ok addr realloc Hh Ha l 0 (fun _ => [], 0) _fr_hash_table_alloc) as (ht & E & _); [by apply alloc_holds|by vm_compute|by repeat constructor|].
  exists ht. rewrite E. f_equal. f_equal. unfold l. apply Z.ltb_lt in Hc.
  assert (forall (G : Z -> list D) k g, with_group G k g k = g) as Hw by (intros; unfold with_group; by rewrite decide_True).
  cbn [group_run group_step]. unfold insert_group at 1. cbn [ginsert]. rewrite Hok, Hab.
  unfold insert_group at 1. rewrite Hw. cbn [ginsert]. rewrite Hc, Hok. cbn [fst]. rewrite Hw. cbn [gfind]. rewrite Hc.
  unfold insert_group at 1. rewrite Hw. cbn [ginsert]. rewrite Hc, Hok.
  unfold remove_group at 1. rewrite Hw. cbn [gfind]. rewrite Hc. done.
Qed.

Lemma hash_collision_lost_witness :
  exists ht, run (fun _ : Z => 5) (fun x y => Z.sgn (x - y)) true (fun _ => true) (fun _ ht => fresh (dom (mem ht))) (fun _ => true) 0
      [Insert 1; Insert 2; Find 2; Insert 2; Remove 2; Num] _fr_hash_table_alloc =
    Some ([Inserted true; Inserted true; Found None; Inserted true; Removed None; Count 3], ht).
Proof. apply hash_collision_lost; [done|intros _ ht; apply not_elem_of_dom, is_fresh|done|done|done]. Defined.

End HashMap.
