(* ===== verification/HashIter.v ===== *)
(** Going through a hash table (HashTable): an iteration meets every element once,
    although it splits chains on its way; the table frees every element once. *)

From stdpp Require Import gmap sorting.
From S2P Require Import Prelude HashTable HashBits HashChain HashInv HashOps HashSpec HashMap.
Import HashTable HashBits HashChain HashInv HashOps HashSpec HashMap.

Module HashIter.
Section Iter.
Context {D : Type} (hash : D -> Z) (Hhash : forall d, is_u32 (hash d)).
Notation table := (fr_hash_table_t D).
Notation infos := (gmap nat (Z * Z * D)).

(** ** All chains *)

Lemma grp_app (I : infos) k l1 l2 : grp I k (l1 ++ l2) = grp I k l1 ++ grp I k l2.
Proof. apply list.filter_app. Qed.

Lemma grp_concat_nil (I : infos) k (C : Z -> list nat) l : (forall i, i ∈ l -> grp I k (C i) = []) -> grp I k (concat (map C l)) = [].
Proof. induction l as [|i l IH]; intros H; [done|]. cbn [map concat]. rewrite grp_app, (H i) by (by left). apply IH. intros j Hj. apply H. by right. Qed.

(** In the chains of all buckets, in any order, are the elements of every group. *)
Lemma all_groups G ht K C M l k : rep hash G ht K C M -> NoDup l -> (forall i, i ∈ l <-> 0 <= i < 2 ^ K) ->
  grp (info (mem ht)) k (concat (map C l)) = M k.
Proof.
  intros R Hn Hl. destruct (r_groups _ _ _ _ _ _ R) as [G1 G2]. set (I := info (mem ht)) in *. destruct (G2 k) as (i & Hi & Hg).
  assert (forall j, 0 <= j < 2 ^ K -> j <> i -> grp I k (C j) = []) as Ho.
  { intros j Hj Hne. destruct (G1 j k Hj) as [H|H]; [done|]. destruct (M k) as [|a g] eqn:E; [done|]. exfalso. apply Hne.
    assert (a ∈ C j /\ a ∈ C i) as [Ha1 Ha2] by (split; [apply (grp_sub I k); rewrite H|apply (grp_sub I k); rewrite Hg]; by left).
    apply (s_disj _ _ _ (g_shape _ _ _ _ (r_good _ _ _ _ _ _ R)) j i a); done. }
  assert (i ∈ l) as Hil by (by apply Hl). apply list_elem_of_split in Hil as (l1 & l2 & ->). apply list.NoDup_app in Hn as (_ & Hn2 & [Hn3 _]%list.NoDup_cons).
  assert (forall j, j ∈ l1 \/ j ∈ l2 -> 0 <= j < 2 ^ K) as Hr by (intros j Hj; apply Hl; apply elem_of_app; destruct Hj; [by left|right; by right]).
  rewrite map_app, concat_app, grp_app. cbn [map concat]. rewrite grp_app, Hg.
  rewrite (grp_concat_nil I k C l1) by (intros j Hj; apply Ho; [apply Hr; tauto|]; intros ->; apply (Hn2 i Hj); by left).
  rewrite (grp_concat_nil I k C l2) by (intros j Hj; apply Ho; [apply Hr; tauto|by intros ->]). by rewrite app_nil_r.
Qed.

(** The elements among some entries. *)
Lemma filter_dat (ht : table) k l : (forall a x, mem ht !! a = Some x -> key x = hash (data x)) ->
  filter (fun d => hash d = k) (dat (info (mem ht)) l) = dat (info (mem ht)) (grp (info (mem ht)) k l).
Proof.
  intros Hi. unfold grp. induction l as [|a l IH]; [done|]. rewrite list.filter_cons. destruct (mem ht !! a) as [x|] eqn:E.
  - rewrite (dat_cons _ a x), (keyof_info _ a x), (Hi a x E) by done. rewrite list.filter_cons. case_decide; [|done]. by rewrite (dat_cons _ a x), IH.
  - assert (info (mem ht) !! a = None) as E' by (unfold info; by rewrite lookup_fmap, E).
    assert (forall l, dat (info (mem ht)) (a :: l) = dat (info (mem ht)) l) as Hn by (intros l'; unfold dat; cbn; by rewrite E').
    rewrite Hn. case_decide; [by rewrite Hn|done].
Qed.

Lemma dat_length (ht : table) l : (forall a, a ∈ l -> is_Some (mem ht !! a)) -> length (dat (info (mem ht)) l) = length l.
Proof.
  induction l as [|a l IH]; intros H; [done|]. destruct (H a) as [x Hx]; [by left|]. rewrite (dat_cons _ a x) by done. cbn. rewrite IH; [done|]. intros b Hb. apply H. by right.
Qed.

Lemma chains_nodup K C (ht : table) l : shape K C ht -> NoDup l -> (forall i, i ∈ l -> 0 <= i < 2 ^ K) -> NoDup (concat (map C l)).
Proof.
  intros S. induction l as [|i l IH]; intros Hn Hl; [constructor|]. apply list.NoDup_cons in Hn as [Hi Hn]. cbn. apply list.NoDup_app. split; [apply (s_nodup _ _ _ S), Hl; by left|].
  split; [|apply IH; [done|intros j Hj; apply Hl; by right]]. intros a Ha Hc. apply list_elem_of_In, in_concat in Hc as (c & Hc & Hac). apply in_map_iff in Hc as (j & <- & Hj).
  apply list_elem_of_In in Hj, Hac. apply Hi. rewrite (s_disj _ _ _ S i j a); [done|apply Hl; by left|apply Hl; by right|done|done].
Qed.

Lemma chains_dom K C (ht : table) l a : shape K C ht -> (forall i, i ∈ l -> 0 <= i < 2 ^ K) -> a ∈ concat (map C l) -> is_Some (mem ht !! a).
Proof.
  intros S Hl Ha. apply list_elem_of_In, in_concat in Ha as (c & Hc & Hac). apply in_map_iff in Hc as (j & <- & Hj). apply list_elem_of_In in Hj, Hac.
  apply (s_dom _ _ _ S). exists j. split; [by apply Hl|done].
Qed.

Lemma chains_size K C (ht : table) l : shape K C ht -> NoDup l -> (forall i, i ∈ l <-> 0 <= i < 2 ^ K) -> length (concat (map C l)) = size (mem ht).
Proof.
  intros S Hn Hl. rewrite <- (size_list_to_set (C := gset nat)) by (apply (chains_nodup K C ht); [done|done|intros; by apply Hl]). rewrite <- size_dom. f_equal.
  apply set_eq. intros a. rewrite elem_of_list_to_set, elem_of_dom. split; [apply (chains_dom K C); [done|intros; by apply Hl]|].
  intros (i & Hi & Ha)%(s_dom _ _ _ S). apply list_elem_of_In, in_concat. exists (C i). split; [|by apply list_elem_of_In]. apply in_map, list_elem_of_In. by apply Hl.
Qed.

(** What a list of all elements is. *)
Definition all_elements (s : groups_t (D := D)) (l : list D) : Prop :=
  Z.of_nat (length l) = snd s /\ forall k, is_u32 k -> filter (fun d => hash d = k) l = fst s k.

Lemma all_chains s ht K C M l : rep hash (fst s) ht K C M -> num_elements ht = snd s -> NoDup l -> (forall i, i ∈ l <-> 0 <= i < 2 ^ K) ->
  all_elements s (dat (info (mem ht)) (concat (map C l))).
Proof.
  intros R Hn Hnd Hl. pose proof (r_good _ _ _ _ _ _ R) as HG. pose proof (g_shape _ _ _ _ HG) as S. split.
  - rewrite dat_length by (intros a Ha; apply (chains_dom K C ht l); [done|intros; by apply Hl|done]). rewrite (chains_size K C ht l) by done. rewrite <- Hn. symmetry. apply R.
  - intros k Hk. rewrite filter_dat by (intros a x Hx; by apply (g_info _ _ _ _ HG a x)). rewrite (all_groups _ _ _ _ _ l k R Hnd Hl). by apply (r_dat _ _ _ _ _ _ R).
Qed.

(** ** Freeing the table *)

Lemma chain_data_seg (ht : table) l : forall fuel p, seg (mem ht) p l null -> (length l < fuel)%nat -> chain_data fuel ht p = Some (dat (info (mem ht)) l).
Proof.
  induction l as [|a l IH]; intros fuel p Hs Hf; cbn in Hs; [subst p; by destruct fuel|]. destruct Hs as (-> & x & Hx & Hs). destruct fuel as [|fuel]; [cbn in Hf; lia|].
  cbn [chain_data]. rewrite Hx. cbn [mbind option_bind]. rewrite (IH fuel (next x) Hs) by (cbn in Hf; lia). by rewrite (dat_cons _ a x).
Qed.

Lemma mapM_index {A B} (f : A -> option B) (g : Z -> B) (l : list A) : forall i, (forall j x, l !! j = Some x -> f x = Some (g (i + Z.of_nat j))) ->
  mapM f l = Some (map g (seqZ i (Z.of_nat (length l)))).
Proof.
  induction l as [|x l IH]; intros i H; [done|]. cbn [mapM]. rewrite (H 0%nat x) by done. cbn [mbind option_bind].
  rewrite (IH (i + 1)). { cbn [mbind option_bind length]. rewrite (seqZ_cons i) by lia. cbn [map]. replace (i + Z.of_nat 0) with i by lia. replace (Z.succ i) with (i + 1) by lia.
    by replace (Z.pred (Z.of_nat (S (length l)))) with (Z.of_nat (length l)) by lia. }
  intros j y Hj. rewrite (H (S j) y) by done. f_equal. f_equal. lia.
Qed.

Lemma free_chains K C (ht : table) : shape K C ht -> _fr_hash_table_free true ht = Some (dat (info (mem ht)) (concat (map C (seqZ 0 (2 ^ K))))).
Proof.
  intros S. pose proof (s_K _ _ _ S) as HK. unfold _fr_hash_table_free. rewrite (mapM_index _ (fun i => dat (info (mem ht)) (C i)) _ 0).
  - cbn [mbind option_bind]. f_equal. rewrite (s_len _ _ _ S), Z2Nat.id by lia. unfold dat. induction (seqZ 0 (2 ^ K)) as [|i l IH]; [done|]. cbn. by rewrite omap_app, IH.
  - intros j b Hj. assert (Z.of_nat j < 2 ^ K) as Hlt by (apply lookup_lt_Some in Hj; rewrite (s_len _ _ _ S) in Hj; lia).
    assert (bkt ht (0 + Z.of_nat j) = Some b) as Hb by (unfold bkt; rewrite Z.add_0_l, Nat2Z.id; done). destruct b as [p|].
    + apply chain_data_seg; [apply (s_chain _ _ _ S); [lia|done]|]. unfold chain_fuel. pose proof (chain_length K C ht (0 + Z.of_nat j) S). lia.
    + by rewrite (s_empty _ _ _ S) by (done || lia).
Qed.

(** ** The iterator *)

(** The last [m] buckets, as the iterator meets them. *)
Definition down (K : Z) (m : nat) : list Z := map (fun j => 2 ^ K - 1 - Z.of_nat j) (seq 0 m).
Definition cat (K : Z) (C : Z -> list nat) (m : nat) : list nat := concat (map C (down K m)).

Lemma down_elem K m i : i ∈ down K m <-> 2 ^ K - Z.of_nat m <= i < 2 ^ K.
Proof.
  unfold down. rewrite list_elem_of_In, in_map_iff. split.
  - intros (j & <- & Hj%in_seq). lia.
  - intros Hi. exists (Z.to_nat (2 ^ K - 1 - i)). split; [lia|]. apply in_seq. lia.
Qed.

Lemma down_nodup K m : NoDup (down K m).
Proof. unfold down. apply NoDup_fmap_2; [intros x y; lia|apply list.NoDup_seq]. Qed.

Lemma cat_S K C m : cat K C (S m) = cat K C m ++ C (2 ^ K - 1 - Z.of_nat m).
Proof. unfold cat, down. rewrite seq_S, map_app, map_app, concat_app. cbn. by rewrite app_nil_r. Qed.

Lemma cat_ext K C C' m : (forall i, 2 ^ K - Z.of_nat m <= i < 2 ^ K -> C' i = C i) -> cat K C' m = cat K C m.
Proof. intros H. unfold cat. f_equal. apply map_ext_in. intros i Hi. apply H, down_elem. by apply list_elem_of_In. Qed.

(** The iterator has met the last [m] buckets, except for the entries [r] of the
    one it is in. *)
Record at_iter (G : Z -> list D) (ht : table) (K : Z) (C M : Z -> list nat) (m : nat) (r : list nat) (it : fr_hash_iter_t) : Prop := {
  i_rep : rep hash G ht K C M;
  i_m : Z.of_nat m <= 2 ^ K;
  i_bucket : bucket it = 2 ^ K - Z.of_nat m;
  i_seg : seg (mem ht) (inode it) r null;
  i_init i : 2 ^ K - Z.of_nat m <= i < 2 ^ K -> inited ht i }.

(** What the next step returns, where [before] was met and [r] is to come. *)
Definition next_item (G : Z -> list D) (K : Z) (M : Z -> list nat) (before : list nat) (o : option D) (ht' : table) (it' : fr_hash_iter_t) : Prop :=
  exists C' m', match o with
  | None => at_iter G ht' K C' M m' [] it' /\ Z.of_nat m' = 2 ^ K /\ cat K C' m' = before
  | Some d => exists a r x, at_iter G ht' K C' M m' r it' /\ mem ht' !! a = Some x /\ d = data x /\ cat K C' m' = before ++ a :: r
  end.

Lemma iter_loop_spec fuel : forall G ht K C M m,
  rep hash G ht K C M -> Z.of_nat m < 2 ^ K -> 2 ^ K - Z.of_nat m <= Z.of_nat fuel -> (forall i, 2 ^ K - Z.of_nat m <= i < 2 ^ K -> inited ht i) ->
  exists o ht' it', iter_loop fuel ht (2 ^ K - 1 - Z.of_nat m) = Some (o, ht', it') /\ info (mem ht') = info (mem ht) /\ num_elements ht' = num_elements ht /\
    next_item G K M (cat K C m) o ht' it'.
Proof using Hhash.
  induction fuel as [|fuel IH]; intros G ht K C M m R Hm Hf Hi; [lia|]. cbn [iter_loop]. set (i := 2 ^ K - 1 - Z.of_nat m).
  destruct (ensure_ok hash Hhash K C ht i (r_good _ _ _ _ _ _ R)) as (h1 & C1 & -> & G1 & K1 & I1 & J1); [lia|]. cbn [mbind option_bind].
  assert (rep hash G h1 K C1 M) as R1 by (by eapply rep_kept). assert (0 <= i < 2 ^ K) as Hir by lia.
  destruct (load_head K C1 h1 i (g_shape _ _ _ _ G1) Hir I1) as [-> Hs]. cbn [mbind option_bind].
  assert (cat K C1 m = cat K C m) as Hcat. { apply cat_ext. intros j Hj. apply J1; [lia|by apply Hi|lia]. }
  assert (forall j, 2 ^ K - Z.of_nat (S m) <= j < 2 ^ K -> inited h1 j) as Hin.
  { intros j Hj. destruct (decide (j = i)) as [-> |]; [done|]. apply (k_init _ _ _ _ _ K1); [lia|]. apply Hi. lia. }
  pose proof (k_info _ _ _ _ _ K1) as HI. assert (num_elements h1 = num_elements ht) as Hn by apply (k_size _ _ _ _ _ K1).
  assert (cat K C1 (S m) = cat K C m ++ C1 i) as HcS by (rewrite cat_S; by rewrite Hcat).
  destruct (C1 i) as [|a r] eqn:Ec; cbn [head_of].
  - rewrite app_nil_r in HcS. destruct (i =? 0) eqn:E0; simpl_bool.
    + eexists None, h1, _. split; [reflexivity|]. split; [done|]. split; [done|]. exists C1, (S m). split; [|split; [lia|done]]. split; [done|lia|cbn; lia|done|done].
    + destruct (IH G h1 K C1 M (S m) R1) as (o & h2 & it2 & E2 & HI2 & Hn2 & N2); [lia|lia|done|]. replace (i - 1) with (2 ^ K - 1 - Z.of_nat (S m)) by lia.
      exists o, h2, it2. split; [done|]. split; [congruence|]. split; [congruence|]. by rewrite <- HcS.
  - cbn in Hs. destruct Hs as (_ & x & Hx & Hs). rewrite Hx. cbn [mbind option_bind]. eexists (Some _), h1, _. split; [reflexivity|]. split; [done|]. split; [done|].
    exists C1, (S m), a, r, x. split; [|done]. split; [done|lia|cbn; lia|done|done].
Qed.

Lemma iter_next_spec G ht K C M m r it before :
  at_iter G ht K C M m r it -> cat K C m = before ++ r ->
  exists o ht' it', fr_hash_table_iter_next ht it = Some (o, ht', it') /\ info (mem ht') = info (mem ht) /\ num_elements ht' = num_elements ht /\ next_item G K M before o ht' it'.
Proof using Hhash.
  intros A Hc. pose proof A as [R Hm Hb Hs Hi]. pose proof (s_K _ _ _ (g_shape _ _ _ _ (r_good _ _ _ _ _ _ R))) as HK. unfold fr_hash_table_iter_next. destruct r as [|a r]; cbn in Hs.
  - rewrite Hs. rewrite app_nil_r in Hc. destruct (bucket it =? 0) eqn:E; simpl_bool.
    + exists None, ht, it. split; [done|]. split; [done|]. split; [done|]. exists C, m. split; [done|]. split; [lia|done].
    + rewrite Hb. replace (2 ^ K - Z.of_nat m - 1) with (2 ^ K - 1 - Z.of_nat m) by lia. rewrite <- Hc. apply iter_loop_spec; [done|lia|lia|done].
  - destruct Hs as (-> & x & Hx & Hs). rewrite Hx. cbn [mbind option_bind]. eexists (Some _), ht, _. split; [reflexivity|]. split; [done|]. split; [done|].
    exists C, m, a, r, x. split; [|done]. by split.
Qed.

(** ** Into an array *)

Lemma cat_size K C (ht : table) m : shape K C ht -> Z.of_nat m <= 2 ^ K -> (length (cat K C m) <= size (mem ht))%nat.
Proof.
  intros S Hm. assert (forall i, i ∈ down K m -> 0 <= i < 2 ^ K) as Hr by (intros i Hi%down_elem; lia).
  rewrite <- (size_list_to_set (C := gset nat)) by (apply (chains_nodup K C ht); [done|apply down_nodup|done]). rewrite <- size_dom. apply subseteq_size.
  intros a Ha%elem_of_list_to_set. apply elem_of_dom. by apply (chains_dom K C ht (down K m)).
Qed.

Lemma flatten_loop_spec fuel : forall G K M o ht it before,
  next_item G K M before o ht it -> (S (size (mem ht)) <= fuel + length before)%nat ->
  exists C' ht', flatten_loop fuel (num_elements ht) o ht it (dat (info (mem ht)) before) = Some (dat (info (mem ht)) (cat K C' (Z.to_nat (2 ^ K))), ht') /\
    rep hash G ht' K C' M /\ info (mem ht') = info (mem ht) /\ num_elements ht' = num_elements ht.
Proof using Hhash.
  induction fuel as [|fuel IH]; intros G K M o ht it before (C & m & H) Hf.
  - destruct o as [d|].
    + destruct H as (a & r & x & [R Hm _ _ _] & Hx & _ & Hc). exfalso.
      assert (length (before ++ a :: r) <= size (mem ht))%nat as Hlen; [|rewrite length_app in Hlen; cbn in Hlen; lia]. rewrite <- Hc.
      apply (cat_size K C); [apply (g_shape _ _ _ _ (r_good _ _ _ _ _ _ R))|done].
    + destruct H as ([R _ _ _ _] & Hm & Hc). exists C, ht. replace (Z.to_nat (2 ^ K)) with m by lia. by rewrite Hc.
  - destruct o as [d|].
    + destruct H as (a & r & x & A & Hx & -> & Hc). pose proof A as [R Hm _ _ _]. pose proof (cat_size K C ht m (g_shape _ _ _ _ (r_good _ _ _ _ _ _ R)) Hm) as Hlen.
      rewrite Hc, length_app in Hlen. cbn in Hlen.
      assert (length (dat (info (mem ht)) before) = length before) as Hd.
      { apply dat_length. intros b Hb. apply (chains_dom K C ht (down K m)); [apply (g_shape _ _ _ _ (r_good _ _ _ _ _ _ R))|intros i Hi%down_elem; lia|]. change (b ∈ cat K C m). rewrite Hc. apply elem_of_app. by left. }
      cbn [flatten_loop]. rewrite Hd. rewrite (proj2 (Z.ltb_lt _ _)) by (rewrite (r_num _ _ _ _ _ _ R); lia).
      destruct (iter_next_spec G ht K C M m r it (before ++ [a]) A) as (o & h1 & it1 & -> & HI1 & Hn1 & N1); [rewrite <- app_assoc; exact Hc|]. cbn [mbind option_bind].
      assert (size (mem h1) = size (mem ht)) as Hsz by (rewrite <- (info_size (mem h1)), HI1; apply info_size).
      destruct (IH G K M o h1 it1 (before ++ [a]) N1) as (C' & h2 & E2 & R2 & HI2 & Hn2); [rewrite length_app; cbn; lia|].
      exists C', h2. rewrite HI1, Hn1, dat_app, (dat_cons _ a x) in E2 by done. split; [exact E2|]. split; [done|]. split; congruence.
    + destruct H as ([R _ _ _ _] & Hm & Hc). exists C, ht. replace (Z.to_nat (2 ^ K)) with m by lia. by rewrite Hc.
Qed.

Lemma flatten_holds s ht : holds hash s ht -> exists out ht', fr_hash_table_flatten ht = Some (out, ht') /\ all_elements s out /\ holds hash s ht'.
Proof using Hhash.
  intros [(K & C & M & R) Hn]. pose proof (g_shape _ _ _ _ (r_good _ _ _ _ _ _ R)) as S. pose proof (s_K _ _ _ S) as HK.
  destruct (iter_next_spec (fst s) ht K C M 0 [] (MkIter (num_buckets ht) null) []) as (o & h1 & it1 & E1 & HI1 & Hn1 & N1).
  - split; [done|lia|cbn; rewrite (s_num _ _ _ S); lia|done|lia].
  - done.
  - unfold fr_hash_table_flatten, fr_hash_table_iter_init. rewrite E1. cbn [mbind option_bind]. unfold fr_hash_table_num_elements. rewrite <- Hn1.
    destruct (flatten_loop_spec (chain_fuel h1) (fst s) K M o h1 it1 [] N1) as (C' & h2 & E2 & R2 & HI2 & Hn2); [unfold chain_fuel; cbn; lia|].
    eexists _, h2. split; [exact E2|]. split; [|split; [eauto|congruence]]. rewrite <- HI2. unfold cat. apply (all_chains s h2 K C' M); [done|congruence|apply down_nodup|].
    intros i. rewrite down_elem. lia.
Qed.

Lemma free_holds s ht : holds hash s ht -> exists out, _fr_hash_table_free true ht = Some out /\ all_elements s out.
Proof.
  intros [(K & C & M & R) Hn]. eexists. split; [apply (free_chains K C), (g_shape _ _ _ _ (r_good _ _ _ _ _ _ R))|].
  apply (all_chains s ht K C M); [done|done|apply NoDup_seqZ|]. intros i. rewrite elem_of_seqZ. lia.
Qed.

(** ** Reading a table whose buckets are all in use *)

Definition filled (ht : table) : Prop := forall i, 0 <= i < num_buckets ht -> inited ht i.

Lemma ensure_inited (ht : table) i : inited ht i -> ensure ht i = Some ht.
Proof. intros [p Hp]. unfold ensure. unfold bkt in Hp. by rewrite Hp. Qed.

Lemma iter_next_filled (ht : table) it r : filled ht -> 0 <= bucket it <= num_buckets ht -> fr_hash_table_iter_next ht it = Some r ->
  snd (fst r) = ht /\ 0 <= bucket (snd r) <= num_buckets ht.
Proof.
  intros Hf Hb. unfold fr_hash_table_iter_next. destruct (inode it) as [|a].
  - destruct (bucket it =? 0) eqn:E; simpl_bool; [by intros [= <-]|].
    assert (forall fuel i, 0 <= i < num_buckets ht -> iter_loop fuel ht i = Some r -> snd (fst r) = ht /\ 0 <= bucket (snd r) <= num_buckets ht) as Hl; [|intros H; eapply Hl; [|exact H]; lia].
    induction fuel as [|fuel IH]; intros i Hi; [done|]. cbn [iter_loop]. rewrite ensure_inited by by apply Hf. cbn [mbind option_bind].
    destruct (load (Bucket i) ht) as [[|a]|]; cbn [mbind option_bind]; [|destruct (mem ht !! a) as [x|]; [|done]|done].
    + destruct (i =? 0) eqn:E0; simpl_bool; [intros [= <-]; cbn; split; [done|lia]|]. apply IH. lia.
    + intros [= <-]. cbn. split; [done|lia].
  - destruct (mem ht !! a) as [x|]; [|done]. cbn. intros [= <-]. done.
Qed.

Lemma flatten_filled (ht : table) num fuel : forall item it out l ht', filled ht -> 0 <= bucket it <= num_buckets ht -> flatten_loop fuel num item ht it out = Some (l, ht') -> ht' = ht.
Proof.
  induction fuel as [|fuel IH]; intros item it out l ht' Hf Hb; cbn [flatten_loop]; (destruct item as [d|]; [|by intros [= _ <-]]); [done|].
  destruct (_ <? _); [|done]. destruct (fr_hash_table_iter_next ht it) as [[[o h1] it1]|] eqn:E; [|done]. cbn [mbind option_bind].
  destruct (iter_next_filled ht it _ Hf Hb E) as [Hh Hb1]. cbn in Hh, Hb1. subst h1. by apply IH.
Qed.
End Iter.

Lemma nodup_of_groups {D} (hash : D -> Z) l : (forall k, (length (filter (fun d => hash d = k) l) <= 1)%nat) -> NoDup (map hash l).
Proof.
  induction l as [|x l IH]; intros H; [constructor|]. cbn [map]. apply list.NoDup_cons. split.
  - intros (y & Hy & Hyl)%list_elem_of_In%in_map_iff. specialize (H (hash x)). rewrite list.filter_cons_True in H by done. cbn in H.
    assert (y ∈ filter (fun d => hash d = hash x) l) as Hf by (apply list_elem_of_filter; split; [done|by apply list_elem_of_In]).
    destruct (filter _ l); [by apply not_elem_of_nil in Hf|cbn in H; lia].
  - apply IH. intros k. specialize (H k). rewrite list.filter_cons in H. case_decide; [cbn in H; lia|done].
Qed.

(** Every element of the map once, and nothing else. *)
Definition elements_of {D} (hash : D -> Z) (m : gmap Z D) (out : list D) : Prop :=
  NoDup (map hash out) /\ forall d, d ∈ out <-> m !! hash d = Some d.

Lemma all_elements_map {D} (hash : D -> Z) (U : D -> Prop) s m out : (forall d, is_u32 (hash d)) -> is_map hash U s m -> all_elements hash s out -> elements_of hash m out.
Proof.
  intros Hh (H1 & H2 & _) (_ & He). split.
  - apply nodup_of_groups. intros k. destruct (filter (fun d => hash d = k) out) as [|x g] eqn:E; [cbn; lia|].
    assert (x ∈ filter (fun d => hash d = k) out) as Hx by (rewrite E; by left). apply list_elem_of_filter in Hx as [<- _].
    rewrite <- E, He, H1 by apply Hh. destruct (m !! hash x); cbn; lia.
  - intros d. transitivity (d ∈ fst s (hash d)); [rewrite <- He by apply Hh; rewrite list_elem_of_filter; tauto|]. rewrite H1. destruct (m !! hash d) as [x|].
    + rewrite list_elem_of_singleton. split; [by intros ->|congruence].
    + split; [by intros H%not_elem_of_nil|done].
Qed.

(** C25: After any calls, going through the table into an array gives every element
    of the map once and fits the array, although the iterator splits chains while
    it goes; and when the table is freed, every element is freed once. *)
Theorem hash_table_iterates {D} (hash : D -> Z) cmp has_free ok addr realloc (U : D -> Prop) l :
  (forall d, is_u32 (hash d)) -> (forall n ht, mem ht !! addr n ht = None) -> (forall x y, U x -> U y -> cmp x y = 0 <-> hash x = hash y) ->
  Forall (about hash U) l -> Z.of_nat (length l) < 2 ^ 31 ->
  exists rs ht out ht' freed, run hash cmp has_free ok addr realloc 0 l _fr_hash_table_alloc = Some (rs, ht) /\
    fr_hash_table_flatten ht = Some (out, ht') /\ elements_of hash (snd (map_run hash has_free ok 0 l ∅)) out /\ Z.of_nat (length out) = fr_hash_table_num_elements ht /\
    _fr_hash_table_free true ht = Some freed /\ elements_of hash (snd (map_run hash has_free ok 0 l ∅)) freed.
Proof.
  intros Hh Ha Hc Hl Hlt. destruct (run_holds hash cmp has_free ok addr realloc Hh Ha l 0 (fun _ => [], 0) _fr_hash_table_alloc) as (ht & E & H).
  - by apply alloc_holds.
  - cbn. lia.
  - by eapply about_good.
  - destruct (run_map hash cmp has_free ok U Hc l 0 (fun _ => [], 0) ∅) as [_ Hm]; [done|done|].
    destruct (flatten_holds hash Hh _ _ H) as (out & ht' & E1 & A1 & _). destruct (free_holds hash _ _ H) as (freed & E2 & A2).
    eexists _, ht, out, ht', freed. split; [exact E|]. split; [done|]. split; [by eapply all_elements_map|]. split; [|split; [done|by eapply all_elements_map]].
    unfold fr_hash_table_num_elements. destruct H as [_ ->]. apply A1.
Qed.

Lemma hash_table_iterates_witness :
  let l := map Insert (seqZ 0 170) ++ [Remove 5] in
  exists rs ht out ht' freed, run u32 (fun x y => Z.sgn (u32 x - u32 y)) true (fun n => negb (n =? 9)%nat) (fun _ ht => fresh (dom (mem ht))) (fun _ => true) 0 l _fr_hash_table_alloc = Some (rs, ht) /\
    fr_hash_table_flatten ht = Some (out, ht') /\ elements_of u32 (snd (map_run u32 true (fun n => negb (n =? 9)%nat) 0 l ∅)) out /\ Z.of_nat (length out) = fr_hash_table_num_elements ht /\
    _fr_hash_table_free true ht = Some freed /\ elements_of u32 (snd (map_run u32 true (fun n => negb (n =? 9)%nat) 0 l ∅)) freed.
Proof.
  intros l. apply (hash_table_iterates u32 _ true (fun n => negb (n =? 9)%nat) _ _ (fun _ => True)).
  - apply u32_range.
  - intros _ ht. apply not_elem_of_dom, is_fresh.
  - intros x y _ _. rewrite Z.sgn_null_iff. lia.
  - unfold l. apply Forall_app. split; [|by repeat constructor]. apply list.Forall_forall. intros c Hc. apply list_elem_of_In, in_map_iff in Hc as (x & <- & _). done.
  - by vm_compute.
Defined.

(** After [fr_hash_table_fill], finding elements and going through the table do
    not change it, so that threads can read it at the same time. *)
Theorem hash_table_fill_read_only {D} (hash : D -> Z) cmp has_free ok addr realloc l :
  (forall d, is_u32 (hash d)) -> (forall n ht, mem ht !! addr n ht = None) -> Forall good_call l -> Z.of_nat (length l) < 2 ^ 31 ->
  exists rs ht ht', run hash cmp has_free ok addr realloc 0 l _fr_hash_table_alloc = Some (rs, ht) /\ fr_hash_table_fill ht = Some ht' /\
    (forall k d, is_u32 k -> exists o, fr_hash_table_find_by_key cmp ht' k d = Some (o, ht')) /\
    (exists out, fr_hash_table_flatten ht' = Some (out, ht')).
Proof.
  intros Hh Ha Hl Hlt. destruct (run_holds hash cmp has_free ok addr realloc Hh Ha l 0 (fun _ => [], 0) _fr_hash_table_alloc) as (ht & E & H); [by apply alloc_holds|cbn; lia|done|].
  set (s := snd _) in H. eexists _, ht. destruct H as [(K & C & M & R) Hn]. pose proof (g_shape _ _ _ _ (r_good _ _ _ _ _ _ R)) as S. pose proof (s_K _ _ _ S) as HK.
  destruct (fill_ok hash Hh (Z.to_nat (2 ^ K)) _ ht K C M R) as (h1 & C1 & E1 & R1 & K1 & I1); [lia|]. exists h1. split; [exact E|].
  split; [unfold fr_hash_table_fill; by rewrite (s_num _ _ _ S)|]. pose proof (g_shape _ _ _ _ (r_good _ _ _ _ _ _ R1)) as S1.
  assert (filled h1) as Hf by (intros i Hi; rewrite (s_num _ _ _ S1) in Hi; apply I1; lia).
  assert (holds hash s h1) as H1. { split; [eauto|]. rewrite <- Hn. apply (k_size _ _ _ _ _ K1). }
  split.
  - intros k d Hk. destruct (find_node hash cmp Hh _ _ _ _ _ k d R1 Hk) as (r & h2 & C2 & E2 & R2 & _ & _ & Hr).
    assert (h2 = h1) as ->.
    { unfold hash_table_find in E2. rewrite (s_mask _ _ _ S1), land_mask in E2 by lia. assert (0 <= k mod 2 ^ K < 2 ^ K) as Hkr by (apply Z.mod_pos_bound; lia).
      rewrite ensure_inited in E2 by (apply Hf; by rewrite (s_num _ _ _ S1)). cbn [mbind option_bind] in E2.
      destruct (load _ h1); [|done]. cbn [mbind option_bind] in E2. destruct (list_find _ _ _ _ _ _); [|done]. cbn in E2. by injection E2. }
    unfold fr_hash_table_find_by_key. rewrite E2. cbn [mbind option_bind]. destruct r as [a|]; [|by eexists]. destruct Hr as (g1 & g2 & x & _ & -> & _). by eexists.
  - destruct (flatten_holds hash Hh s h1 H1) as (out & h2 & E2 & _ & _). exists out. rewrite E2. f_equal. f_equal.
    unfold fr_hash_table_flatten, fr_hash_table_iter_init in E2. destruct (fr_hash_table_iter_next h1 _) as [[[o h3] it]|] eqn:E3; [|done]. cbn [mbind option_bind] in E2.
    assert (0 <= num_buckets h1 <= num_buckets h1) as Hb0 by (rewrite (s_num _ _ _ S1); pose proof (pow_pos K ltac:(lia)); lia).
    destruct (iter_next_filled h1 (MkIter (num_buckets h1) null) _ Hf Hb0 E3) as [Hh3 Hb]. cbn in Hh3, Hb. subst h3. by eapply flatten_filled.
Qed.

Lemma hash_table_fill_read_only_witness :
  exists rs ht ht', run u32 (fun x y => Z.sgn (u32 x - u32 y)) true (fun _ => true) (fun _ ht => fresh (dom (mem ht))) (fun _ => true) 0
      [Insert 3; Insert 67; Insert 4] _fr_hash_table_alloc = Some (rs, ht) /\ fr_hash_table_fill ht = Some ht' /\
    (forall k d, is_u32 k -> exists o, fr_hash_table_find_by_key (fun x y => Z.sgn (u32 x - u32 y)) ht' k d = Some (o, ht')) /\
    (exists out, fr_hash_table_flatten ht' = Some (out, ht')).
Proof. apply hash_table_fill_read_only; [apply u32_range|intros _ ht; apply not_elem_of_dom, is_fresh|by repeat constructor|by vm_compute]. Defined.

End HashIter.
