(* ===== verification/BaseN.v ===== *)
(** Base16, base32 and base64 (RFC 4648): src/lib/util/base16.c, base32.c and
    base64.c with their headers. A string buffer is the characters that are left
    to read, or the room that is left to write to; tables are arrays that are read
    at the index of a character, where an index past their end gives [None]. *)

From S2P Require Import Prelude.

Module BaseN.

(** ** Tables *)

(** [_val] at [_idx] and the indexes after it: the macros [F1] to [F128]. *)
Definition F (n idx : nat) (val : Z) : list (nat * Z) := map (fun i => ((idx + i)%nat, val)) (seq 0 n).

(** [[idx] = val, [idx + 1] = val + 1, ...] *)
Definition run (n idx : nat) (val : Z) : list (nat * Z) := map (fun i => ((idx + i)%nat, val + Z.of_nat i)) (seq 0 n).

(** An array of [n] elements with designated initialisers; the others are 0. *)
Definition table (n : nat) (inits : list (list (nat * Z))) : list Z :=
  fold_left (fun t e => <[fst e := snd e]> t) (concat inits) (replicate n 0).

Definition chr_0 : nat := 48.
Definition chr_A : nat := 65.
Definition chr_a : nat := 97.
Definition char_pad : Z := 61.

Definition fr_base16_alphabet_encode_lc : list Z := table 256 [run 10 0 48; run 6 10 97].
Definition fr_base16_alphabet_encode_uc : list Z := table 256 [run 10 0 48; run 6 10 65].
Definition fr_base16_alphabet_decode_mc : list Z :=
  table 256 [F 32 0 UINT8_MAX; F 16 32 UINT8_MAX; run 10 chr_0 0; F 4 58 UINT8_MAX; F 2 62 UINT8_MAX; F 1 64 UINT8_MAX;
    run 6 chr_A 10; F 16 71 UINT8_MAX; F 8 87 UINT8_MAX; F 2 95 UINT8_MAX; run 6 chr_a 10;
    F 128 103 UINT8_MAX; F 16 231 UINT8_MAX; F 8 247 UINT8_MAX; F 1 255 UINT8_MAX].

Definition fr_base32_alphabet_encode : list Z := table 255 [run 6 26 50; run 26 0 65].
Definition fr_base32_alphabet_decode : list Z :=
  table 255 [F 32 0 UINT8_MAX; F 16 32 UINT8_MAX; F 2 48 UINT8_MAX; run 6 50 26; F 8 56 UINT8_MAX; F 1 64 UINT8_MAX;
    run 26 chr_A 0; F 128 91 UINT8_MAX; F 32 219 UINT8_MAX; F 4 251 UINT8_MAX].
Definition fr_base32_hex_alphabet_encode : list Z := table 255 [run 10 0 48; run 22 10 65].
Definition fr_base32_hex_alphabet_decode : list Z :=
  table 255 [F 32 0 UINT8_MAX; F 16 32 UINT8_MAX; run 10 chr_0 0; F 4 58 UINT8_MAX; F 2 62 UINT8_MAX; F 1 64 UINT8_MAX;
    run 22 chr_A 10; F 128 87 UINT8_MAX; F 32 215 UINT8_MAX; F 8 247 UINT8_MAX].

Definition fr_base64_alphabet_encode : list Z := table 255 [[(62%nat, 43); (63%nat, 47)]; run 10 52 48; run 26 0 65; run 26 26 97].
Definition fr_base64_alphabet_decode : list Z :=
  table 255 [F 32 0 UINT8_MAX; F 8 32 UINT8_MAX; F 2 40 UINT8_MAX; [(43%nat, 62)]; F 2 44 UINT8_MAX; F 1 46 UINT8_MAX; [(47%nat, 63)];
    run 10 chr_0 52; F 4 58 UINT8_MAX; F 2 62 UINT8_MAX; F 1 64 UINT8_MAX; run 26 chr_A 0; F 4 91 UINT8_MAX; F 2 95 UINT8_MAX;
    run 26 chr_a 26; F 128 123 UINT8_MAX; F 4 251 UINT8_MAX].
Definition fr_base64_url_alphabet_encode : list Z :=
  table 255 [[(62%nat, 45)]; run 10 52 48; [(63%nat, 95)]; run 26 0 65; run 26 26 97].
Definition fr_base64_url_alphabet_decode : list Z :=
  table 255 [F 32 0 UINT8_MAX; F 8 32 UINT8_MAX; F 4 40 UINT8_MAX; [(45%nat, 62)]; F 2 46 UINT8_MAX;
    run 10 chr_0 52; F 4 58 UINT8_MAX; F 2 62 UINT8_MAX; F 1 64 UINT8_MAX; run 26 chr_A 0; F 4 91 UINT8_MAX; [(95%nat, 63)]; F 1 96 UINT8_MAX;
    run 26 chr_a 26; F 128 123 UINT8_MAX; F 4 251 UINT8_MAX].

(** [alphabet[i]] *)
Definition lookup (alphabet : list Z) (i : Z) : option Z := alphabet !! Z.to_nat i.

(** ** Writing to the output *)

(** [fr_sbuff_in_bstrncpy] and [fr_dbuff_in_bytes]: everything, or the number of
    bytes that are missing. *)
Definition put (room : nat) (out cs : bytes) : Z + bytes :=
  let remaining := (room - length out)%nat in
  if (remaining <? length cs)%nat then inl (- Z.of_nat (length cs - remaining)) else inr (out ++ cs).

(** ** Encoding

    The result is [inl] with the negative number that is returned, or the
    characters that were written. *)

(** [FR_SBUFF_IN_CHAR_RETURN] with characters of the alphabet, then [k]. *)
Definition put_values (room : nat) (alphabet : list Z) (out vs : list Z) (k : bytes -> option (Z + bytes)) : option (Z + bytes) :=
  cs ← mapM (lookup alphabet) vs;
  match put room out cs with inl e => Some (inl e) | inr out => k out end.

(** The padding, where it is asked for. *)
Definition put_padding (room : nat) (add_padding : bool) (n : nat) (out : bytes) : option (Z + bytes) :=
  if add_padding then Some (put room out (replicate n char_pad)) else Some (inr out).

Fixpoint base16_encode (room : nat) (alphabet : list Z) (input out : bytes) : option (Z + bytes) :=
  match input with
  | [] => Some (inr out)
  | a :: input => put_values room alphabet out [Z.shiftr a 4; a &z 0x0f] (base16_encode room alphabet input)
  end.
Definition fr_base16_encode_nstd (room : nat) (input : bytes) (alphabet : list Z) : option (Z + bytes) := base16_encode room alphabet input [].

Fixpoint base32_encode (room : nat) (add_padding : bool) (alphabet : list Z) (input out : bytes) : option (Z + bytes) :=
  match input with
  | a :: b :: c :: d :: e :: input =>
      put_values room alphabet out
        [Z.shiftr a 3 &z 0x1f; (Z.shiftl a 2 |z Z.shiftr b 6) &z 0x1f; Z.shiftr b 1 &z 0x1f; (Z.shiftl b 4 |z Z.shiftr c 4) &z 0x1f;
         (Z.shiftl c 1 |z Z.shiftr d 7) &z 0x1f; Z.shiftr d 2 &z 0x1f; (Z.shiftl d 3 |z Z.shiftr e 5) &z 0x1f; e &z 0x1f]
        (base32_encode room add_padding alphabet input)
  | [a; b; c; d] =>
      put_values room alphabet out
        [Z.shiftr a 3 &z 0x1f; (Z.shiftl a 2 |z Z.shiftr b 6) &z 0x1f; Z.shiftr b 1 &z 0x1f; (Z.shiftl b 4 |z Z.shiftr c 4) &z 0x1f;
         (Z.shiftl c 1 |z Z.shiftr d 7) &z 0x1f; Z.shiftr d 2 &z 0x1f; Z.shiftl d 3 &z 0x1f]
        (put_padding room add_padding 1)
  | [a; b; c] =>
      put_values room alphabet out
        [Z.shiftr a 3 &z 0x1f; (Z.shiftl a 2 |z Z.shiftr b 6) &z 0x1f; Z.shiftr b 1 &z 0x1f; (Z.shiftl b 4 |z Z.shiftr c 4) &z 0x1f;
         Z.shiftl c 1 &z 0x1f]
        (put_padding room add_padding 3)
  | [a; b] =>
      put_values room alphabet out
        [Z.shiftr a 3 &z 0x1f; (Z.shiftl a 2 |z Z.shiftr b 6) &z 0x1f; Z.shiftr b 1 &z 0x1f; Z.shiftl b 4 &z 0x1f]
        (put_padding room add_padding 4)
  | [a] => put_values room alphabet out [Z.shiftr a 3 &z 0x1f; Z.shiftl a 2 &z 0x1f] (put_padding room add_padding 6)
  | [] => Some (inr out)
  end.
Definition fr_base32_encode_nstd (room : nat) (input : bytes) (add_padding : bool) (alphabet : list Z) : option (Z + bytes) :=
  base32_encode room add_padding alphabet input [].

Fixpoint base64_encode (room : nat) (add_padding : bool) (alphabet : list Z) (input out : bytes) : option (Z + bytes) :=
  match input with
  | a :: b :: c :: input =>
      put_values room alphabet out
        [Z.shiftr a 2 &z 0x3f; (Z.shiftl a 4 |z Z.shiftr b 4) &z 0x3f; (Z.shiftl b 2 |z Z.shiftr c 6) &z 0x3f; c &z 0x3f]
        (base64_encode room add_padding alphabet input)
  | [a; b] =>
      put_values room alphabet out
        [Z.shiftr a 2 &z 0x3f; (Z.shiftl a 4 |z Z.shiftr b 4) &z 0x3f; Z.shiftl b 2 &z 0x3f]
        (put_padding room add_padding 1)
  | [a] => put_values room alphabet out [Z.shiftr a 2 &z 0x3f; Z.shiftl a 4 &z 0x3f] (put_padding room add_padding 2)
  | [] => Some (inr out)
  end.
Definition fr_base64_encode_nstd (room : nat) (input : bytes) (add_padding : bool) (alphabet : list Z) : option (Z + bytes) :=
  base64_encode room add_padding alphabet input [].

(** ** Decoding *)

Inductive fr_sbuff_parse_error_t :=
| FR_SBUFF_PARSE_OK | FR_SBUFF_PARSE_ERROR_NOT_FOUND | FR_SBUFF_PARSE_ERROR_TRAILING | FR_SBUFF_PARSE_ERROR_FORMAT
| FR_SBUFF_PARSE_ERROR_OUT_OF_SPACE | FR_SBUFF_PARSE_ERROR_NUM_OVERFLOW | FR_SBUFF_PARSE_ERROR_NUM_UNDERFLOW.

(** The bytes and what is left of the input, or what [*err] is set to and the
    negative number that is returned. *)
Inductive decoded := Decoded (out rest : bytes) | Failed (err : option fr_sbuff_parse_error_t) (slen : Z).

(** [FR_SBUFF_ERROR_RETURN] at [rest], of an input that was [input]. *)
Definition error_at (err : fr_sbuff_parse_error_t) (input rest : bytes) : decoded :=
  Failed (Some err) (- (Z.of_nat (length input - length rest) + 1)).

(** [fr_is_base16_nstd], [fr_is_base32_nstd] and [fr_is_base64_nstd]. *)
Definition fr_is_base (limit : Z) (c : Z) (alphabet : list Z) : option bool := v ← lookup alphabet c; Some (v <? limit).

(** The conjunction, which stops at the first character that is not one. *)
Fixpoint all_base (limit : Z) (alphabet : list Z) (cs : bytes) : option bool :=
  match cs with
  | [] => Some true
  | c :: cs => b ← fr_is_base limit c alphabet; if (b : bool) then all_base limit alphabet cs else Some false
  end.

(** [p[0]] and [p[1]] are both looked at. *)
Fixpoint base16_decode (room : nat) (no_trailing : bool) (alphabet : list Z) (start input out : bytes) : option decoded :=
  match input with
  | p0 :: p1 :: rest =>
      a ← fr_is_base 16 p0 alphabet;
      b ← fr_is_base 16 p1 alphabet;
      if negb a || negb b then
        Some (if a && negb b && no_trailing then error_at FR_SBUFF_PARSE_ERROR_TRAILING start input else Decoded out input)
      else
        v0 ← lookup alphabet p0;
        v1 ← lookup alphabet p1;
        match put room out [u8 (Z.shiftl v0 4 |z v1)] with
        | inl e => Some (Failed None e)
        | inr out => base16_decode room no_trailing alphabet start rest out
        end
  | _ => Some (Decoded out input)
  end.
Definition fr_base16_decode_nstd (room : nat) (input : bytes) (no_trailing : bool) (alphabet : list Z) : option decoded :=
  base16_decode room no_trailing alphabet input input [].

(** [while (... fr_is_base32_nstd(...)) fr_sbuff_advance(&our_in, 1)] *)
Fixpoint base_span (limit : Z) (alphabet : list Z) (input : bytes) : option (bytes * bytes) :=
  match input with
  | [] => Some ([], [])
  | c :: rest =>
      b ← fr_is_base limit c alphabet;
      if (b : bool) then '(cs, rest) ← base_span limit alphabet rest; Some (c :: cs, rest) else Some ([], input)
  end.

(** The characters [=]; [inl] is where one is missing. *)
Fixpoint skip_padding (pad : nat) (input : bytes) : bytes + bytes :=
  match pad with
  | O => inr input
  | S pad => match input with c :: rest => if c =? char_pad then skip_padding pad rest else inl input | [] => inl input end
  end.

(** The end of both decoders: [final] gives the bytes of the last quantum and
    the length of its padding, unless it has a wrong length. *)
Definition decode_tail (room : nat) (limit : Z) (final : list Z -> option (bytes * nat)) (expect_padding no_trailing : bool)
    (alphabet : list Z) (start input out : bytes) : option decoded :=
  '(cs, rest) ← base_span limit alphabet input;
  vs ← mapM (lookup alphabet) cs;
  match final vs with
  | None => Some (error_at FR_SBUFF_PARSE_ERROR_FORMAT start rest)
  | Some (bs, pad) =>
      match put room out bs with
      | inl _ => Some (error_at FR_SBUFF_PARSE_ERROR_OUT_OF_SPACE start rest)
      | inr out =>
          match (if expect_padding then skip_padding pad rest else inr rest) with
          | inl rest => Some (error_at FR_SBUFF_PARSE_ERROR_FORMAT start rest)
          | inr rest =>
              if no_trailing && negb (length rest =? 0)%nat then Some (error_at FR_SBUFF_PARSE_ERROR_TRAILING start rest)
              else Some (Decoded out rest)
          end
      end
  end.

(** The bytes of a quantum of eight characters. *)
Definition byte0 (v0 v1 : Z) : Z := u8 (Z.shiftl v0 3 |z Z.shiftr v1 2).
Definition byte1 (v1 v2 v3 : Z) : Z := u8 (Z.shiftl v1 6 |z Z.shiftl v2 1 |z Z.shiftr v3 4).
Definition byte2 (v3 v4 : Z) : Z := u8 (Z.shiftl v3 4 |z Z.shiftr v4 1).
Definition byte3 (v4 v5 v6 : Z) : Z := u8 (Z.shiftl v4 7 |z Z.shiftl v5 2 |z Z.shiftr v6 3).
Definition byte4 (v6 v7 : Z) : Z := u8 (Z.shiftl v6 5 |z v7).

Definition base32_final (vs : list Z) : option (bytes * nat) :=
  match vs with
  | [] => Some ([], 0%nat)
  | [v0; v1] => Some ([byte0 v0 v1], 6%nat)
  | [v0; v1; v2; v3] => Some ([byte0 v0 v1; byte1 v1 v2 v3], 4%nat)
  | [v0; v1; v2; v3; v4] => Some ([byte0 v0 v1; byte1 v1 v2 v3; byte2 v3 v4], 3%nat)
  | [v0; v1; v2; v3; v4; v5; v6] => Some ([byte0 v0 v1; byte1 v1 v2 v3; byte2 v3 v4; byte3 v4 v5 v6], 1%nat)
  | _ => None
  end.

(** Complete quanta; [inl] is where there is no room. *)
Fixpoint base32_quanta (room : nat) (alphabet : list Z) (input out : bytes) : option (bytes + bytes * bytes) :=
  match input with
  | p0 :: p1 :: p2 :: p3 :: p4 :: p5 :: p6 :: p7 :: rest =>
      ok ← all_base 32 alphabet [p0; p1; p2; p3; p4; p5; p6; p7];
      if negb ok then Some (inr (out, input))
      else
        v0 ← lookup alphabet p0; v1 ← lookup alphabet p1; v2 ← lookup alphabet p2; v3 ← lookup alphabet p3;
        v4 ← lookup alphabet p4; v5 ← lookup alphabet p5; v6 ← lookup alphabet p6; v7 ← lookup alphabet p7;
        match put room out [byte0 v0 v1; byte1 v1 v2 v3; byte2 v3 v4; byte3 v4 v5 v6; byte4 v6 v7] with
        | inl _ => Some (inl input)
        | inr out => base32_quanta room alphabet rest out
        end
  | _ => Some (inr (out, input))
  end.

Definition fr_base32_decode_nstd (room : nat) (input : bytes) (expect_padding no_trailing : bool) (alphabet : list Z) : option decoded :=
  q ← base32_quanta room alphabet input [];
  match q with
  | inl rest => Some (error_at FR_SBUFF_PARSE_ERROR_OUT_OF_SPACE input rest)
  | inr (out, rest) => decode_tail room 32 base32_final expect_padding no_trailing alphabet input rest out
  end.

(** The bytes of a quantum of four characters. *)
Definition octet0 (v0 v1 : Z) : Z := u8 (Z.shiftl v0 2 |z Z.shiftr v1 4).
Definition octet1 (v1 v2 : Z) : Z := u8 ((Z.shiftl v1 4 &z 0xf0) |z Z.shiftr v2 2).
Definition octet2 (v2 v3 : Z) : Z := u8 ((Z.shiftl v2 6 &z 0xc0) |z v3).

Definition base64_final (vs : list Z) : option (bytes * nat) :=
  match vs with
  | [] => Some ([], 0%nat)
  | [v0; v1] => Some ([octet0 v0 v1], 2%nat)
  | [v0; v1; v2] => Some ([octet0 v0 v1; octet1 v1 v2], 1%nat)
  | _ => None
  end.

Fixpoint base64_quanta (room : nat) (alphabet : list Z) (input out : bytes) : option (bytes + bytes * bytes) :=
  match input with
  | p0 :: p1 :: p2 :: p3 :: rest =>
      ok ← all_base 64 alphabet [p0; p1; p2; p3];
      if negb ok then Some (inr (out, input))
      else
        v0 ← lookup alphabet p0; v1 ← lookup alphabet p1; v2 ← lookup alphabet p2; v3 ← lookup alphabet p3;
        match put room out [octet0 v0 v1; octet1 v1 v2; octet2 v2 v3] with
        | inl _ => Some (inl input)
        | inr out => base64_quanta room alphabet rest out
        end
  | _ => Some (inr (out, input))
  end.

Definition fr_base64_decode_nstd (room : nat) (input : bytes) (expect_padding no_trailing : bool) (alphabet : list Z) : option decoded :=
  q ← base64_quanta room alphabet input [];
  match q with
  | inl rest => Some (error_at FR_SBUFF_PARSE_ERROR_OUT_OF_SPACE input rest)
  | inr (out, rest) => decode_tail room 64 base64_final expect_padding no_trailing alphabet input rest out
  end.

Definition FR_BASE64_ENC_LENGTH (inlen : nat) : nat := ((inlen + 2) / 3 * 4)%nat.

(** ** RFC 4648

    The bits of the bytes, most significant first, in groups of [w], the last one
    filled with zeros; [q] characters make up a quantum. *)

Definition byte_bits (b : Z) : list bool := map (Z.testbit b) [7; 6; 5; 4; 3; 2; 1; 0].
Definition bits (bs : bytes) : list bool := concat (map byte_bits bs).

Fixpoint of_bits (l : list bool) : Z := match l with [] => 0 | b :: l => Z.b2z b * 2 ^ Z.of_nat (length l) + of_bits l end.

Fixpoint groups (w fuel : nat) (l : list bool) : list Z :=
  match fuel, l with
  | S fuel, _ :: _ => of_bits (take w l ++ replicate (w - length l) false) :: groups w fuel (drop w l)
  | _, _ => []
  end.

Definition values (w : nat) (input : bytes) : list Z := groups w (8 * length input) (bits input).
Definition chars (alphabet vs : list Z) : bytes := map (fun v => default 0 (lookup alphabet v)) vs.

Definition rfc4648 (w q : nat) (padding : bool) (alphabet : list Z) (input : bytes) : bytes :=
  let cs := chars alphabet (values w input) in
  cs ++ (if padding then replicate ((q - length cs mod q) mod q) char_pad else []).

(** *** Numbers and their bits *)

Lemma of_bits_range l : 0 <= of_bits l < 2 ^ Z.of_nat (length l).
Proof.
  induction l as [|b l IH]; [cbn; lia|]. cbn [of_bits length]. rewrite Nat2Z.inj_succ, Z.pow_succ_r by lia. destruct b; cbn [Z.b2z]; lia.
Qed.

Lemma of_bits_testbit (w : nat) x : 0 <= x < 2 ^ Z.of_nat w -> of_bits (map (fun i => Z.testbit x (Z.of_nat i)) (rev (seq 0 w))) = x.
Proof.
  revert x. induction w as [|w IH]; intros x Hx; [cbn in *; lia|]. rewrite seq_S, rev_app_distr. cbn [rev app map of_bits].
  rewrite length_map, length_rev, length_seq. rewrite Nat2Z.inj_succ, Z.pow_succ_r in Hx by lia. cbn [Nat.add].
  set (p := 2 ^ Z.of_nat w) in *. assert (0 < p) by (apply Z.pow_pos_nonneg; lia).
  assert (map (fun i => Z.testbit x (Z.of_nat i)) (rev (seq 0 w)) = map (fun i => Z.testbit (x mod p) (Z.of_nat i)) (rev (seq 0 w))) as ->.
  { apply map_ext_in. intros i Hi%in_rev%in_seq. unfold p. rewrite Z.mod_pow2_bits_low; [done|lia]. }
  rewrite (IH (x mod p)) by (apply Z.mod_pos_bound; lia). rewrite Z.testbit_spec' by lia. fold p.
  assert (0 <= x / p < 2) by (split; [apply Z.div_pos; lia|apply Z.div_lt_upper_bound; lia]).
  rewrite (Z.mod_small (x / p)) by lia. rewrite (Z.div_mod x p) at 3 by lia. lia.
Qed.

(** A number below [2 ^ w] is what its bits say. *)
Lemma value_bits (w : nat) x l : 0 <= x < 2 ^ Z.of_nat w -> map (fun i => Z.testbit x (Z.of_nat i)) (rev (seq 0 w)) = l -> x = of_bits l.
Proof. intros Hx <-. symmetry. by apply of_bits_testbit. Qed.

(** Numbers with the same bits. *)
Lemma byte_ext x y : is_u8 x -> is_u8 y -> byte_bits x = byte_bits y -> x = y.
Proof. intros Hx Hy H. rewrite (value_bits 8 x (byte_bits x)), (value_bits 8 y (byte_bits y)), H; done. Qed.

Lemma testbit_high w x i : 0 <= x < 2 ^ w -> 0 <= w <= i -> Z.testbit x i = false.
Proof. intros Hx Hi. destruct (Z.eq_dec x 0) as [-> |]; [apply Z.bits_0|]. apply Z.bits_above_log2; [lia|]. apply Z.log2_lt_pow2; [lia|].
  apply Z.lt_le_trans with (2 ^ w); [lia|]. apply Z.pow_le_mono_r; lia. Qed.

(** Bits at known places. *)
Ltac bit_at :=
  repeat match goal with
  | |- context [Z.testbit ?x ?n] =>
      let m := eval vm_compute in n in
      first [ constr_eq n m; fail 1 | change (Z.testbit x n) with (Z.testbit x m) ]
  end;
  repeat match goal with
  | |- context [Z.testbit ?x (Zneg ?n)] => change (Z.testbit x (Zneg n)) with false
  | |- context [Z.testbit (Zpos ?x) ?n] => let b := eval vm_compute in (Z.testbit (Zpos x) n) in change (Z.testbit (Zpos x) n) with b
  | H : 0 <= ?x < 2 ^ ?w |- context [Z.testbit ?x ?n] => rewrite (testbit_high w x n) by (done || lia)
  end.
Ltac bit_specs :=
  bit_at; repeat (first [rewrite Z.land_spec | rewrite Z.lor_spec | rewrite Z.shiftr_spec by lia | rewrite Z.shiftl_spec by lia]; bit_at);
  rewrite ?andb_true_r, ?andb_false_r, ?orb_false_r, ?orb_false_l, ?orb_true_l; reflexivity.
Ltac solve_value w := symmetry; apply (value_bits w); [apply (land_range (Z.of_nat w)); rewrite ?Z.lor_nonneg, ?Z.shiftl_nonneg, ?Z.shiftr_nonneg; lia|cbn [seq rev app map]; repeat (apply (f_equal2 cons); [bit_specs|]); reflexivity].
Ltac solve_values w := unfold bits; cbn [concat groups byte_bits map app take drop length Nat.sub replicate]; repeat (apply (f_equal2 cons); [solve_value w|]); reflexivity.

Section Quanta.
Context (a b c d e : Z) (Ha : 0 <= a < 2 ^ 8) (Hb : 0 <= b < 2 ^ 8) (Hc : 0 <= c < 2 ^ 8) (Hd : 0 <= d < 2 ^ 8) (He : 0 <= e < 2 ^ 8).

Lemma values64_3 :
  groups 6 24 (bits [a; b; c]) =
  [Z.shiftr a 2 &z 0x3f; (Z.shiftl a 4 |z Z.shiftr b 4) &z 0x3f; (Z.shiftl b 2 |z Z.shiftr c 6) &z 0x3f; c &z 0x3f].
Proof using Ha Hb Hc. solve_values 6%nat. Qed.

Lemma values64_2 :
  groups 6 16 (bits [a; b]) = [Z.shiftr a 2 &z 0x3f; (Z.shiftl a 4 |z Z.shiftr b 4) &z 0x3f; Z.shiftl b 2 &z 0x3f].
Proof using Ha Hb. solve_values 6%nat. Qed.

Lemma values64_1 : groups 6 8 (bits [a]) = [Z.shiftr a 2 &z 0x3f; Z.shiftl a 4 &z 0x3f].
Proof using Ha. solve_values 6%nat. Qed.

Lemma values32_5 :
  groups 5 40 (bits [a; b; c; d; e]) =
  [Z.shiftr a 3 &z 0x1f; (Z.shiftl a 2 |z Z.shiftr b 6) &z 0x1f; Z.shiftr b 1 &z 0x1f; (Z.shiftl b 4 |z Z.shiftr c 4) &z 0x1f;
   (Z.shiftl c 1 |z Z.shiftr d 7) &z 0x1f; Z.shiftr d 2 &z 0x1f; (Z.shiftl d 3 |z Z.shiftr e 5) &z 0x1f; e &z 0x1f].
Proof using Ha Hb Hc Hd He. solve_values 5%nat. Qed.

Lemma values32_4 :
  groups 5 32 (bits [a; b; c; d]) =
  [Z.shiftr a 3 &z 0x1f; (Z.shiftl a 2 |z Z.shiftr b 6) &z 0x1f; Z.shiftr b 1 &z 0x1f; (Z.shiftl b 4 |z Z.shiftr c 4) &z 0x1f;
   (Z.shiftl c 1 |z Z.shiftr d 7) &z 0x1f; Z.shiftr d 2 &z 0x1f; Z.shiftl d 3 &z 0x1f].
Proof using Ha Hb Hc Hd. solve_values 5%nat. Qed.

Lemma values32_3 :
  groups 5 24 (bits [a; b; c]) =
  [Z.shiftr a 3 &z 0x1f; (Z.shiftl a 2 |z Z.shiftr b 6) &z 0x1f; Z.shiftr b 1 &z 0x1f; (Z.shiftl b 4 |z Z.shiftr c 4) &z 0x1f; Z.shiftl c 1 &z 0x1f].
Proof using Ha Hb Hc. solve_values 5%nat. Qed.

Lemma values32_2 :
  groups 5 16 (bits [a; b]) = [Z.shiftr a 3 &z 0x1f; (Z.shiftl a 2 |z Z.shiftr b 6) &z 0x1f; Z.shiftr b 1 &z 0x1f; Z.shiftl b 4 &z 0x1f].
Proof using Ha Hb. solve_values 5%nat. Qed.

Lemma values32_1 : groups 5 8 (bits [a]) = [Z.shiftr a 3 &z 0x1f; Z.shiftl a 2 &z 0x1f].
Proof using Ha. solve_values 5%nat. Qed.

Lemma values16_1 : groups 4 8 (bits [a]) = [Z.shiftr a 4; a &z 0x0f].
Proof using Ha.
  clear b c d e Hb Hc Hd He. unfold bits. cbn [concat groups byte_bits map app take drop length Nat.sub replicate]. apply (f_equal2 cons); [|apply (f_equal2 cons); [solve_value 4%nat|done]].
  symmetry. apply (value_bits 4); [rewrite Z.shiftr_div_pow2 by lia; change (2 ^ 4) with 16; change (2 ^ Z.of_nat 4) with 16; Z.to_euclidean_division_equations; lia|].
  cbn [seq rev app map]. repeat (apply (f_equal2 cons); [bit_specs|]). done.
Qed.

(** *** The bytes of a quantum come back *)

Ltac solve_byte := apply byte_ext; [apply u8_range|done|cbn [byte_bits map]; unfold u8; change 256 with (2 ^ 8);
  repeat (apply (f_equal2 cons); [rewrite ?(Z.mod_pow2_bits_low _ 8) by lia; bit_specs|]); reflexivity].

Lemma octet0_value : octet0 (Z.shiftr a 2 &z 0x3f) ((Z.shiftl a 4 |z Z.shiftr b 4) &z 0x3f) = a.
Proof using Ha Hb. unfold octet0. solve_byte. Qed.
Lemma octet0_last : octet0 (Z.shiftr a 2 &z 0x3f) (Z.shiftl a 4 &z 0x3f) = a.
Proof using Ha. unfold octet0. solve_byte. Qed.
Lemma octet1_value : octet1 ((Z.shiftl a 4 |z Z.shiftr b 4) &z 0x3f) ((Z.shiftl b 2 |z Z.shiftr c 6) &z 0x3f) = b.
Proof using Ha Hb Hc. unfold octet1. solve_byte. Qed.
Lemma octet1_last : octet1 ((Z.shiftl a 4 |z Z.shiftr b 4) &z 0x3f) (Z.shiftl b 2 &z 0x3f) = b.
Proof using Ha Hb. unfold octet1. solve_byte. Qed.
Lemma octet2_value : octet2 ((Z.shiftl b 2 |z Z.shiftr c 6) &z 0x3f) (c &z 0x3f) = c.
Proof using Hb Hc. unfold octet2. solve_byte. Qed.

Lemma byte0_value : byte0 (Z.shiftr a 3 &z 0x1f) ((Z.shiftl a 2 |z Z.shiftr b 6) &z 0x1f) = a.
Proof using Ha Hb. unfold byte0. solve_byte. Qed.
Lemma byte0_last : byte0 (Z.shiftr a 3 &z 0x1f) (Z.shiftl a 2 &z 0x1f) = a.
Proof using Ha. unfold byte0. solve_byte. Qed.
Lemma byte1_value :
  byte1 ((Z.shiftl a 2 |z Z.shiftr b 6) &z 0x1f) (Z.shiftr b 1 &z 0x1f) ((Z.shiftl b 4 |z Z.shiftr c 4) &z 0x1f) = b.
Proof using Ha Hb Hc. unfold byte1. solve_byte. Qed.
Lemma byte1_last : byte1 ((Z.shiftl a 2 |z Z.shiftr b 6) &z 0x1f) (Z.shiftr b 1 &z 0x1f) (Z.shiftl b 4 &z 0x1f) = b.
Proof using Ha Hb. unfold byte1. solve_byte. Qed.
Lemma byte2_value : byte2 ((Z.shiftl b 4 |z Z.shiftr c 4) &z 0x1f) ((Z.shiftl c 1 |z Z.shiftr d 7) &z 0x1f) = c.
Proof using Hb Hc Hd. unfold byte2. solve_byte. Qed.
Lemma byte2_last : byte2 ((Z.shiftl b 4 |z Z.shiftr c 4) &z 0x1f) (Z.shiftl c 1 &z 0x1f) = c.
Proof using Hb Hc. unfold byte2. solve_byte. Qed.
Lemma byte3_value :
  byte3 ((Z.shiftl c 1 |z Z.shiftr d 7) &z 0x1f) (Z.shiftr d 2 &z 0x1f) ((Z.shiftl d 3 |z Z.shiftr e 5) &z 0x1f) = d.
Proof using Hc Hd He. unfold byte3. solve_byte. Qed.
Lemma byte3_last : byte3 ((Z.shiftl c 1 |z Z.shiftr d 7) &z 0x1f) (Z.shiftr d 2 &z 0x1f) (Z.shiftl d 3 &z 0x1f) = d.
Proof using Hc Hd. unfold byte3. solve_byte. Qed.
Lemma byte4_value : byte4 ((Z.shiftl d 3 |z Z.shiftr e 5) &z 0x1f) (e &z 0x1f) = e.
Proof using Hd He. unfold byte4. solve_byte. Qed.
Lemma nibbles_value : u8 (Z.shiftl (Z.shiftr a 4) 4 |z (a &z 0x0f)) = a.
Proof using Ha. solve_byte. Qed.
End Quanta.

End BaseN.
