(* ===== verification/BaseNSpec.v ===== *)
(** Base16, base32 and base64 (BaseN) against RFC 4648: the encoders write its text,
    the decoders read it back. *)

From S2P Require Import Prelude BaseN.
Import BaseN.

Module BaseNSpec.

(** ** Groups of a whole message *)

Lemma groups_fuel w fuel l : (0 < w)%nat -> (length l <= fuel)%nat -> groups w fuel l = groups w (length l) l.
Proof.
  intros Hw. revert l. induction fuel as [fuel IH] using lt_wf_ind. intros l Hl. destruct l as [|b l]; [by destruct fuel|].
  destruct fuel as [|fuel]; [cbn in Hl; lia|]. cbn [groups length]. f_equal. cbn in Hl.
  assert (length (drop w (b :: l)) <= length l)%nat by (rewrite length_drop; cbn; lia).
  rewrite (IH fuel), (IH (length l)); lia || done.
Qed.

Lemma groups_app w k l1 l2 :
  (0 < w)%nat -> length l1 = (k * w)%nat -> groups w (length (l1 ++ l2)) (l1 ++ l2) = groups w (length l1) l1 ++ groups w (length l2) l2.
Proof.
  intros Hw. revert l1. induction k as [|k IH]; intros l1 Hl; [by destruct l1|].
  destruct l1 as [|b l1]; [cbn in Hl; lia|]. set (l := b :: l1) in *.
  assert (length (drop w l) = (k * w)%nat) as Hd by (rewrite length_drop, Hl; lia).
  assert (groups w (length (l ++ l2)) (l ++ l2) = of_bits (take w l) :: groups w (length (drop w l ++ l2)) (drop w l ++ l2)) as ->.
  { replace (drop w l ++ l2) with (drop w (l ++ l2)) by (by rewrite drop_app_le by lia). unfold l at 1 2. cbn [app length groups].
    change (b :: l1 ++ l2) with (l ++ l2). rewrite take_app_le by lia. replace (w - S (length (l1 ++ l2)))%nat with O by (unfold l in Hl; cbn [length] in Hl; rewrite length_app; lia).
    cbn [replicate]. rewrite app_nil_r. f_equal. apply groups_fuel; [done|]. rewrite length_drop, !length_app. unfold l. cbn. lia. }
  assert (groups w (length l) l = of_bits (take w l) :: groups w (length (drop w l)) (drop w l)) as ->.
  { unfold l at 1 2. cbn [length groups]. fold l. replace (w - S (length l1))%nat with O by (unfold l in Hl; cbn [length] in Hl; lia). cbn [replicate]. rewrite app_nil_r. f_equal.
    apply groups_fuel; [done|]. rewrite length_drop. unfold l. cbn. lia. }
  by rewrite (IH _ Hd).
Qed.

Lemma length_bits bs : length (bits bs) = (8 * length bs)%nat.
Proof. unfold bits. induction bs as [|b bs IH]; [done|]. cbn [map concat]. rewrite length_app, IH. cbn. lia. Qed.

Lemma bits_app l1 l2 : bits (l1 ++ l2) = bits l1 ++ bits l2.
Proof. unfold bits. by rewrite map_app, concat_app. Qed.

Lemma values_app w k l1 l2 : (0 < w)%nat -> (8 * length l1 = k * w)%nat -> values w (l1 ++ l2) = values w l1 ++ values w l2.
Proof. intros Hw Hk. unfold values. rewrite <- !length_bits, bits_app. apply (groups_app w k); [done|]. by rewrite length_bits. Qed.

(** ** Encoding is that of the RFC *)

(** An alphabet has a character for each value, other than the padding. *)
Class Encoder (w : nat) (enc : list Z) : Prop := encoder_lookup : forall v, 0 <= v < 2 ^ Z.of_nat w -> exists c, lookup enc v = Some c.

(** The text was written, or it does not fit. *)
Definition written (room : nat) (text : bytes) (r : option (Z + bytes)) : Prop :=
  match r with
  | Some (inr t) => t = text /\ (length text <= room)%nat
  | Some (inl e) => e < 0 /\ (room < length text)%nat
  | None => False
  end.

Section Encode.
Context (w : nat) (enc : list Z) `{!Encoder w enc}.

Lemma mapM_chars vs : Forall (fun v => 0 <= v < 2 ^ Z.of_nat w) vs -> mapM (lookup enc) vs = Some (chars enc vs).
Proof using Encoder0.
  induction 1 as [|v vs Hv _ IH]; [done|]. cbn [mapM chars map]. destruct (encoder_lookup v Hv) as [c Hc]. rewrite Hc. cbn. unfold chars in IH. by rewrite IH.
Qed.

Lemma put_written room (out cs text : bytes) k :
  (exists t : bytes, text = out ++ cs ++ t) -> (length out <= room)%nat ->
  ((length (out ++ cs) <= room)%nat -> written room text (k (out ++ cs))) ->
  written room text (match put room out cs with inl e => Some (inl e) | inr out => k out end).
Proof.
  intros [t ->] Ho Hk. unfold put. destruct (_ <? length cs)%nat eqn:E; simpl_bool; cbn.
  - rewrite !length_app. lia.
  - apply Hk. rewrite length_app. lia.
Qed.

Lemma put_values_written room (out : bytes) vs (text : bytes) k :
  Forall (fun v => 0 <= v < 2 ^ Z.of_nat w) vs -> (exists t : bytes, text = out ++ chars enc vs ++ t) -> (length out <= room)%nat ->
  ((length (out ++ chars enc vs) <= room)%nat -> written room text (k (out ++ chars enc vs))) ->
  written room text (put_values room enc out vs k).
Proof using Encoder0. intros Hv Ht Ho Hk. unfold put_values. rewrite mapM_chars by done. cbn [mbind option_bind]. by apply put_written. Qed.

Lemma put_padding_written room (padding : bool) n (out : bytes) :
  (length out <= room)%nat ->
  written room (out ++ (if padding then replicate n char_pad else [])) (put_padding room padding n out).
Proof.
  intros Ho. unfold put_padding, put. destruct padding; [|rewrite app_nil_r; cbn; done]. destruct (_ <? _)%nat eqn:E; simpl_bool; cbn.
  - rewrite length_app, length_replicate in *. lia.
  - rewrite length_app, length_replicate in *. split; [done|lia].
Qed.

Lemma chars_app vs vs' : chars enc (vs ++ vs') = chars enc vs ++ chars enc vs'.
Proof. apply map_app. Qed.

Lemma length_chars vs : length (chars enc vs) = length vs.
Proof. apply length_map. Qed.

(** A complete quantum comes before the text of the rest. *)
Lemma rfc4648_quantum k q padding l1 l2 :
  (0 < w)%nat -> (0 < q)%nat -> (8 * length l1 = k * w)%nat -> length (values w l1) = q ->
  rfc4648 w q padding enc (l1 ++ l2) = chars enc (values w l1) ++ rfc4648 w q padding enc l2.
Proof.
  intros Hw Hq Hk Hl. unfold rfc4648. rewrite (values_app w k) by done. rewrite chars_app, <- !app_assoc, length_app, !length_chars, Hl.
  replace (q + length (values w l2))%nat with (length (values w l2) + 1 * q)%nat by lia. by rewrite Nat.Div0.mod_add.
Qed.

Lemma groups_range fuel l : Forall (fun v => 0 <= v < 2 ^ Z.of_nat w) (groups w fuel l).
Proof.
  revert l. induction fuel as [|fuel IH]; intros [|b l]; cbn [groups]; try apply Forall_nil_2. apply list.Forall_cons. split; [|apply IH].
  set (g := take w (b :: l) ++ _). replace w with (length g); [apply of_bits_range|].
  unfold g. rewrite length_app, length_take, length_replicate. lia.
Qed.

(** The last quantum and its padding. *)
Lemma last_written room q padding (l out : bytes) vs n :
  values w l = vs -> ((q - length vs mod q) mod q)%nat = n -> (length out <= room)%nat ->
  written room (out ++ rfc4648 w q padding enc l) (put_values room enc out vs (put_padding room padding n)).
Proof using Encoder0.
  intros <- <- Ho. unfold rfc4648. rewrite length_chars. apply put_values_written; [apply groups_range|by eexists|done|].
  intros Hr. rewrite app_assoc. by apply put_padding_written.
Qed.

(** A complete quantum. *)
Lemma quantum_written k room q padding (l1 l2 out : bytes) vs f :
  (0 < w)%nat -> (8 * length l1 = k * w)%nat -> values w l1 = vs -> length vs = q -> (0 < q)%nat -> (length out <= room)%nat ->
  (forall out : bytes, (length out <= room)%nat -> written room (out ++ rfc4648 w q padding enc l2) (f out)) ->
  written room (out ++ rfc4648 w q padding enc (l1 ++ l2)) (put_values room enc out vs f).
Proof using Encoder0.
  intros Hw Hk <- Hl Hq Ho Hf. rewrite (rfc4648_quantum k) by done. apply put_values_written; [apply groups_range|by eexists|done|].
  intros Hr. rewrite app_assoc. by apply Hf.
Qed.
End Encode.

Ltac one_byte :=
  repeat match goal with
  | H : is_bytes (_ :: _) |- _ => apply list.Forall_cons in H; destruct H
  | H : Forall is_u8 (_ :: _) |- _ => apply list.Forall_cons in H; destruct H
  | H : is_u8 ?x |- _ => change (0 <= x < 2 ^ 8) in H
  end.

Lemma base16_encode_written enc `{!Encoder 4 enc} room padding input out :
  is_bytes input -> (length out <= room)%nat ->
  written room (out ++ rfc4648 4 2 padding enc input) (base16_encode room enc input out).
Proof.
  intros Hb. revert out. induction Hb as [|a rest Ha Hb IH]; intros out Ho; cbn [base16_encode].
  - cbn. destruct padding; cbn; rewrite app_nil_r; done.
  - apply (quantum_written 4 enc 2 room 2 padding [a] rest); try done || lia. by apply values16_1.
Qed.

Lemma base64_encode_written enc `{!Encoder 6 enc} room padding input out :
  is_bytes input -> (length out <= room)%nat ->
  written room (out ++ rfc4648 6 4 padding enc input) (base64_encode room padding enc input out).
Proof.
  revert out. induction input as [input IH] using (induction_ltof1 _ length). intros out Hb Ho.
  destruct input as [|a [|b [|c rest]]]; cbn [base64_encode]; one_byte.
  - cbn. destruct padding; cbn; rewrite app_nil_r; done.
  - apply (last_written 6); try done. by apply values64_1.
  - apply (last_written 6); try done. by apply values64_2.
  - apply (quantum_written 6 enc 4 room 4 padding [a; b; c] rest); try done || lia; [by apply values64_3|].
    intros. apply IH; [unfold ltof; cbn; lia|done..].
Qed.

Lemma base32_encode_written enc `{!Encoder 5 enc} room padding input out :
  is_bytes input -> (length out <= room)%nat ->
  written room (out ++ rfc4648 5 8 padding enc input) (base32_encode room padding enc input out).
Proof.
  revert out. induction input as [input IH] using (induction_ltof1 _ length). intros out Hb Ho.
  destruct input as [|a [|b [|c [|d [|e rest]]]]]; cbn [base32_encode]; one_byte.
  - cbn. destruct padding; cbn; rewrite app_nil_r; done.
  - apply (last_written 5); try done. by apply values32_1.
  - apply (last_written 5); try done. by apply values32_2.
  - apply (last_written 5); try done. by apply values32_3.
  - apply (last_written 5); try done. by apply values32_4.
  - apply (quantum_written 5 enc 8 room 8 padding [a; b; c; d; e] rest); try done || lia; [by apply values32_5|].
    intros. apply IH; [unfold ltof; cbn; lia|done..].
Qed.

(** ** Decoding gives the bytes back *)

(** The decoding table maps the character of each value to the value, and the
    padding to none. *)
Class Codec (w : nat) (enc dec : list Z) : Prop := {
  codec_char : forall v, 0 <= v < 2 ^ Z.of_nat w -> exists c, lookup enc v = Some c /\ lookup dec c = Some v;
  codec_pad : exists p, lookup dec char_pad = Some p /\ 2 ^ Z.of_nat w <= p }.

#[export] Instance codec_encoder w enc dec : Codec w enc dec -> Encoder w enc.
Proof. intros C v Hv. destruct (codec_char v Hv) as (c & H & _). by exists c. Qed.

Lemma put_fits room (out bs : bytes) : (length (out ++ bs) <= room)%nat -> put room out bs = inr (out ++ bs).
Proof. intros H. rewrite length_app in H. unfold put. destruct (_ <? _)%nat eqn:E; simpl_bool; [lia|done]. Qed.

Section Decode.
Context (w : nat) (enc dec : list Z) `{!Codec w enc dec} (limit : Z) (Hlimit : limit = 2 ^ Z.of_nat w).

Lemma char_value v : 0 <= v < limit -> lookup dec (default 0 (lookup enc v)) = Some v.
Proof using Codec0 Hlimit. rewrite Hlimit. intros Hv. destruct (codec_char v Hv) as (c & -> & H). done. Qed.

Lemma char_is_base v : 0 <= v < limit -> fr_is_base limit (default 0 (lookup enc v)) dec = Some true.
Proof using Codec0 Hlimit. intros Hv. unfold fr_is_base. rewrite char_value by done. cbn. f_equal. lia. Qed.

Lemma pad_is_base : fr_is_base limit char_pad dec = Some false.
Proof using Codec0 Hlimit. destruct codec_pad as (p & H & Hp). unfold fr_is_base. rewrite H. cbn. f_equal. lia. Qed.

Lemma base_span_chars vs (padding : bool) pad :
  Forall (fun v => 0 <= v < limit) vs ->
  base_span limit dec (chars enc vs ++ (if padding then replicate pad char_pad else [])) =
  Some (chars enc vs, if padding then replicate pad char_pad else []).
Proof using Codec0 Hlimit.
  induction 1 as [|v vs Hv _ IH]; cbn [chars map app].
  - destruct padding; [|done]. destruct pad; [done|]. cbn [replicate base_span]. rewrite pad_is_base. done.
  - cbn [base_span]. rewrite char_is_base by done. cbn [mbind option_bind]. unfold chars in IH. rewrite IH. done.
Qed.

Lemma mapM_values vs : Forall (fun v => 0 <= v < limit) vs -> mapM (lookup dec) (chars enc vs) = Some vs.
Proof using Codec0 Hlimit.
  induction 1 as [|v vs Hv _ IH]; [done|]. cbn [mapM chars map]. rewrite char_value by done. cbn [mbind option_bind].
  unfold chars in IH. by rewrite IH.
Qed.

Lemma skip_replicate pad : skip_padding pad (replicate pad char_pad) = inr [].
Proof. by induction pad. Qed.

Lemma decode_tail_last room final vs bs pad (padding no_trailing : bool) (start out : bytes) :
  Forall (fun v => 0 <= v < limit) vs -> final vs = Some (bs, pad) -> (length (out ++ bs) <= room)%nat ->
  decode_tail room limit final padding no_trailing dec start (chars enc vs ++ (if padding then replicate pad char_pad else [])) out =
  Some (Decoded (out ++ bs) []).
Proof using Codec0 Hlimit.
  intros Hv Hf Hr. unfold decode_tail. rewrite base_span_chars by done. cbn [mbind option_bind]. rewrite mapM_values by done.
  cbn [mbind option_bind]. rewrite Hf, put_fits by done. destruct padding; [rewrite skip_replicate|]; cbn; by rewrite andb_false_r.
Qed.
End Decode.

(** Where the quanta stop, the tail goes on: the two decoders from any place on. *)
Definition resume (quanta : nat -> list Z -> bytes -> bytes -> option (bytes + bytes * bytes)) (limit : Z) (final : list Z -> option (bytes * nat))
    (room : nat) (padding no_trailing : bool) (dec : list Z) (start input out : bytes) : option decoded :=
  q ← quanta room dec input out;
  match q with
  | inl rest => Some (error_at FR_SBUFF_PARSE_ERROR_OUT_OF_SPACE start rest)
  | inr (out, rest) => decode_tail room limit final padding no_trailing dec start rest out
  end.

(** The characters of a quantum, where they are given by their values. *)
Ltac read_chars w limit :=
  repeat match goal with H : Forall _ (_ :: _) |- _ => apply list.Forall_cons in H; destruct H end;
  cbn [chars map app replicate base64_quanta base32_quanta all_base];
  repeat first [ rewrite (char_is_base w _ _ limit eq_refl) by done | rewrite (pad_is_base w _ _ limit eq_refl)
               | rewrite (char_value w _ _ limit eq_refl) by done | progress cbn [mbind option_bind negb] ].

Section Decode64.
Context (enc dec : list Z) `{!Codec 6 enc dec} (room : nat) (padding no_trailing : bool) (start : bytes).

Lemma resume64_last (l out : bytes) vs pad :
  values 6 l = vs -> base64_final vs = Some (l, pad) -> ((4 - length vs mod 4) mod 4)%nat = pad -> (length (out ++ l) <= room)%nat ->
  resume base64_quanta 64 base64_final room padding no_trailing dec start (rfc4648 6 4 padding enc l) out = Some (Decoded (out ++ l) []).
Proof using Codec0.
  intros Hv Hf Hp Hr. pose proof (groups_range 6 (8 * length l) (bits l)) as Hg. fold (values 6 l) in Hg. unfold rfc4648. rewrite length_chars.
  rewrite Hv in *. rewrite Hp. assert (base64_quanta room dec (chars enc vs ++ (if padding then replicate pad char_pad else [])) out =
    Some (inr (out, chars enc vs ++ (if padding then replicate pad char_pad else [])))) as Hq.
  { clear Hv Hr Hp. destruct vs as [|v0 [|v1 [|v2 [|]]]]; inversion Hf; subst; destruct padding; try done; read_chars 6%nat 64; done. }
  unfold resume. rewrite Hq. cbn [mbind option_bind]. by apply (decode_tail_last 6).
Qed.

Lemma resume64_input (input out : bytes) :
  is_bytes input -> (length (out ++ input) <= room)%nat ->
  resume base64_quanta 64 base64_final room padding no_trailing dec start (rfc4648 6 4 padding enc input) out = Some (Decoded (out ++ input) []).
Proof using Codec0.
  revert out. induction input as [input IH] using (induction_ltof1 _ length). intros out Hb Hr.
  destruct input as [|a [|b [|c rest]]]; one_byte.
  - by apply (resume64_last [] out [] 0).
  - eapply resume64_last; [by apply values64_1| |done..]. cbn. by rewrite octet0_last.
  - eapply resume64_last; [by apply values64_2| |done..]. cbn. by rewrite octet0_value, octet1_last.
  - change (a :: b :: c :: rest) with ([a; b; c] ++ rest) in *. rewrite app_assoc in *.
    pose proof (groups_range 6 24 (bits [a; b; c])) as Hg. rewrite (rfc4648_quantum 6 enc 4) by (done || lia).
    change (values 6 [a; b; c]) with (groups 6 24 (bits [a; b; c])). rewrite values64_3 in * by done.
    unfold resume. read_chars 6%nat 64. rewrite octet0_value, octet1_value, octet2_value by done.
    rewrite put_fits by (rewrite (length_app (out ++ _)) in Hr; lia). apply IH; [unfold ltof; cbn; lia|done..].
Qed.
End Decode64.

Section Decode32.
Context (enc dec : list Z) `{!Codec 5 enc dec} (room : nat) (padding no_trailing : bool) (start : bytes).

Lemma base32_quanta_last vs bs pad (out : bytes) :
  Forall (fun v => 0 <= v < 32) vs -> base32_final vs = Some (bs, pad) ->
  let text := chars enc vs ++ (if padding then replicate pad char_pad else []) in base32_quanta room dec text out = Some (inr (out, text)).
Proof using Codec0.
  intros Hg Hf. destruct vs as [|v0 [|v1 [|v2 [|v3 [|v4 [|v5 [|v6 [|]]]]]]]]; inversion Hf; subst; destruct padding; try done; read_chars 5%nat 32; done.
Qed.

Lemma resume32_last (l out : bytes) vs pad :
  values 5 l = vs -> base32_final vs = Some (l, pad) -> ((8 - length vs mod 8) mod 8)%nat = pad -> (length (out ++ l) <= room)%nat ->
  resume base32_quanta 32 base32_final room padding no_trailing dec start (rfc4648 5 8 padding enc l) out = Some (Decoded (out ++ l) []).
Proof using Codec0.
  intros Hv Hf Hp Hr. pose proof (groups_range 5 (8 * length l) (bits l)) as Hg. fold (values 5 l) in Hg. unfold rfc4648. rewrite length_chars.
  rewrite Hv in *. rewrite Hp. unfold resume. rewrite (base32_quanta_last _ l) by done. cbn [mbind option_bind]. by apply (decode_tail_last 5).
Qed.

Lemma resume32_input (input out : bytes) :
  is_bytes input -> (length (out ++ input) <= room)%nat ->
  resume base32_quanta 32 base32_final room padding no_trailing dec start (rfc4648 5 8 padding enc input) out = Some (Decoded (out ++ input) []).
Proof using Codec0.
  revert out. induction input as [input IH] using (induction_ltof1 _ length). intros out Hb Hr.
  destruct input as [|a [|b [|c [|d [|e rest]]]]]; one_byte.
  - by apply (resume32_last [] out [] 0).
  - eapply resume32_last; [by apply values32_1| |done..]. cbn. by rewrite byte0_last.
  - eapply resume32_last; [by apply values32_2| |done..]. cbn. by rewrite byte0_value, byte1_last.
  - eapply resume32_last; [by apply values32_3| |done..]. cbn. by rewrite byte0_value, byte1_value, byte2_last.
  - eapply resume32_last; [by apply values32_4| |done..]. cbn. by rewrite byte0_value, byte1_value, byte2_value, byte3_last.
  - change (a :: b :: c :: d :: e :: rest) with ([a; b; c; d; e] ++ rest) in *. rewrite app_assoc in *.
    pose proof (groups_range 5 40 (bits [a; b; c; d; e])) as Hg. rewrite (rfc4648_quantum 5 enc 8) by (done || lia).
    change (values 5 [a; b; c; d; e]) with (groups 5 40 (bits [a; b; c; d; e])). rewrite values32_5 in * by done.
    unfold resume. read_chars 5%nat 32. rewrite byte0_value, byte1_value, byte2_value, byte3_value, byte4_value by done.
    rewrite put_fits by (rewrite (length_app (out ++ _)) in Hr; lia). apply IH; [unfold ltof; cbn; lia|done..].
Qed.
End Decode32.

Lemma base16_decode_input enc dec `{!Codec 4 enc dec} room no_trailing start (input out : bytes) padding :
  is_bytes input -> (length (out ++ input) <= room)%nat ->
  base16_decode room no_trailing dec start (rfc4648 4 2 padding enc input) out = Some (Decoded (out ++ input) []).
Proof.
  intros Hb. revert out. induction Hb as [|a rest Ha Hb IH]; intros out Hr.
  - destruct padding; cbn; by rewrite app_nil_r.
  - change (a :: rest) with ([a] ++ rest) in *. rewrite app_assoc in *.
    pose proof (groups_range 4 8 (bits [a])) as Hg. rewrite (rfc4648_quantum 4 enc 2) by (done || lia).
    change (values 4 [a]) with (groups 4 8 (bits [a])). rewrite values16_1 in * by done.
    cbn [base16_decode]. read_chars 4%nat 16. cbn [base16_decode orb andb negb].
    repeat first [ rewrite (char_is_base 4 _ _ 16 eq_refl) by done | rewrite (char_value 4 _ _ 16 eq_refl) by done | progress cbn [mbind option_bind negb orb andb] ].
    rewrite nibbles_value by done. rewrite put_fits by (rewrite (length_app (out ++ _)) in Hr; lia). by apply IH.
Qed.

(** ** The tables of the code *)

Definition codec_check (w : nat) (enc dec : list Z) : bool :=
  forallb (fun v => match lookup enc (Z.of_nat v) with Some c => bool_decide (lookup dec c = Some (Z.of_nat v)) | None => false end) (seq 0 (2 ^ w)) &&
  match lookup dec char_pad with Some p => 2 ^ Z.of_nat w <=? p | None => false end.

Lemma codec_checked w enc dec : codec_check w enc dec = true -> Codec w enc dec.
Proof.
  intros [Hv Hp]%andb_prop. split.
  - intros v H. rewrite forallb_forall in Hv. assert (In (Z.to_nat v) (seq 0 (2 ^ w))) as Hi.
    { apply in_seq. rewrite <- (Nat2Z.id (2 ^ w)), Nat2Z.inj_pow. cbn. split; [lia|]. apply Z2Nat.inj_lt; lia. }
    specialize (Hv _ Hi). rewrite Z2Nat.id in Hv by lia. destruct (lookup enc v) as [c|]; [|done].
    exists c. split; [done|]. exact (bool_decide_eq_true_1 _ Hv).
  - destruct (lookup dec char_pad) as [p|]; [|done]. exists p. split; [done|lia].
Qed.

#[export] Instance base16_lc_codec : Codec 4 fr_base16_alphabet_encode_lc fr_base16_alphabet_decode_mc.
Proof. by apply codec_checked. Qed.
#[export] Instance base16_uc_codec : Codec 4 fr_base16_alphabet_encode_uc fr_base16_alphabet_decode_mc.
Proof. by apply codec_checked. Qed.
#[export] Instance base32_codec : Codec 5 fr_base32_alphabet_encode fr_base32_alphabet_decode.
Proof. by apply codec_checked. Qed.
#[export] Instance base32_hex_codec : Codec 5 fr_base32_hex_alphabet_encode fr_base32_hex_alphabet_decode.
Proof. by apply codec_checked. Qed.
#[export] Instance base64_codec : Codec 6 fr_base64_alphabet_encode fr_base64_alphabet_decode.
Proof. by apply codec_checked. Qed.
#[export] Instance base64_url_codec : Codec 6 fr_base64_url_alphabet_encode fr_base64_url_alphabet_decode.
Proof. by apply codec_checked. Qed.

Definition base16_tables : list (list Z * list Z) :=
  [(fr_base16_alphabet_encode_lc, fr_base16_alphabet_decode_mc); (fr_base16_alphabet_encode_uc, fr_base16_alphabet_decode_mc)].
Definition base32_tables : list (list Z * list Z) :=
  [(fr_base32_alphabet_encode, fr_base32_alphabet_decode); (fr_base32_hex_alphabet_encode, fr_base32_hex_alphabet_decode)].
Definition base64_tables : list (list Z * list Z) :=
  [(fr_base64_alphabet_encode, fr_base64_alphabet_decode); (fr_base64_url_alphabet_encode, fr_base64_url_alphabet_decode)].

Ltac each_table c1 c2 := intros [H|[H|[]]]; apply pair_equal_spec in H as [<- <-]; [exact c1|exact c2].

Lemma base16_tables_codec enc dec : In (enc, dec) base16_tables -> Codec 4 enc dec.
Proof. each_table base16_lc_codec base16_uc_codec. Qed.
Lemma base32_tables_codec enc dec : In (enc, dec) base32_tables -> Codec 5 enc dec.
Proof. each_table base32_codec base32_hex_codec. Qed.
Lemma base64_tables_codec enc dec : In (enc, dec) base64_tables -> Codec 6 enc dec.
Proof. each_table base64_codec base64_url_codec. Qed.

(** ** Sizes *)

Lemma length_groups w fuel l : (0 < w)%nat -> (length l <= fuel)%nat -> length (groups w fuel l) = ((length l + w - 1) / w)%nat.
Proof.
  intros Hw. revert l. induction fuel as [|fuel IH]; intros [|b l] Hl; cbn [groups length] in *; try lia; try (symmetry; apply Nat.div_small; lia).
  rewrite IH by (rewrite length_drop; cbn [length]; lia). rewrite length_drop. cbn [length].
  destruct (le_lt_dec w (S (length l))).
  - replace (S (length l) + w - 1)%nat with (S (length l) - w + w - 1 + 1 * w)%nat by lia. rewrite Nat.div_add by lia. lia.
  - replace (S (length l) - w + w - 1)%nat with (w - 1)%nat by lia. rewrite (Nat.div_small (w - 1)) by lia.
    replace (S (length l) + w - 1)%nat with (length l + 1 * w)%nat by lia. rewrite Nat.div_add, Nat.div_small by lia. done.
Qed.

Lemma length_values w input : (0 < w)%nat -> length (values w input) = ((8 * length input + w - 1) / w)%nat.
Proof. intros Hw. unfold values. rewrite length_groups by (done || rewrite length_bits; lia). by rewrite length_bits. Qed.

Lemma length_base64 enc input : length (rfc4648 6 4 true enc input) = FR_BASE64_ENC_LENGTH (length input).
Proof.
  unfold rfc4648, FR_BASE64_ENC_LENGTH. rewrite length_app, length_replicate, length_chars, length_values by lia. generalize (length input). intros n.
  rewrite (Nat.div_mod n 3) by lia. pose proof (Nat.mod_upper_bound n 3). set (k := (n / 3)%nat). set (r := (n mod 3)%nat) in *. clearbody k r.
  replace (8 * (3 * k + r) + 6 - 1)%nat with (8 * r + 5 + (4 * k) * 6)%nat by lia. replace (3 * k + r + 2)%nat with (r + 2 + k * 3)%nat by lia.
  rewrite !Nat.div_add by lia. replace ((8 * r + 5) / 6 + 4 * k)%nat with ((8 * r + 5) / 6 + k * 4)%nat by lia. rewrite Nat.Div0.mod_add.
  assert (r = 0 \/ r = 1 \/ r = 2)%nat as [-> |[-> | ->]] by lia; cbn; lia.
Qed.

(** ** What the codecs promise *)



(** C23: What was encoded is decoded to the same bytes and nothing is left over, where
    there is room for them, for each of the alphabets, with and without padding
    and whether or not the text has to end there. *)
Theorem basen_roundtrip room room' padding no_trailing input text :
  is_bytes input -> (length input <= room')%nat ->
  (forall enc dec, In (enc, dec) base16_tables -> fr_base16_encode_nstd room input enc = Some (inr text) ->
    fr_base16_decode_nstd room' text no_trailing dec = Some (Decoded input [])) /\
  (forall enc dec, In (enc, dec) base32_tables -> fr_base32_encode_nstd room input padding enc = Some (inr text) ->
    fr_base32_decode_nstd room' text padding no_trailing dec = Some (Decoded input [])) /\
  (forall enc dec, In (enc, dec) base64_tables -> fr_base64_encode_nstd room input padding enc = Some (inr text) ->
    fr_base64_decode_nstd room' text padding no_trailing dec = Some (Decoded input [])).
Proof.
  intros Hi Hr. assert (length ([] : bytes) <= room)%nat as H0 by apply Nat.le_0_l. split; [|split]; intros enc dec Ht He.
  - pose proof (base16_tables_codec _ _ Ht). pose proof (base16_encode_written enc room false input [] Hi H0) as Hw.
    unfold fr_base16_encode_nstd in He. rewrite He in Hw. destruct Hw as [-> _]. by apply (base16_decode_input enc dec).
  - pose proof (base32_tables_codec _ _ Ht). pose proof (base32_encode_written enc room padding input [] Hi H0) as Hw.
    unfold fr_base32_encode_nstd in He. rewrite He in Hw. destruct Hw as [-> _]. by apply (resume32_input enc dec).
  - pose proof (base64_tables_codec _ _ Ht). pose proof (base64_encode_written enc room padding input [] Hi H0) as Hw.
    unfold fr_base64_encode_nstd in He. rewrite He in Hw. destruct Hw as [-> _]. by apply (resume64_input enc dec).
Qed.

Lemma basen_roundtrip_witness :
  fr_base32_decode_nstd 4 [77; 90; 88; 87; 54; 89; 81; 61] true true fr_base32_alphabet_decode = Some (Decoded [102; 111; 111; 98] []).
Proof.
  refine (proj1 (proj2 (basen_roundtrip 8 4 true true [102; 111; 111; 98] [77; 90; 88; 87; 54; 89; 81; 61] ltac:(repeat constructor; done) ltac:(cbn; lia)))
    fr_base32_alphabet_encode fr_base32_alphabet_decode _ _); [left; reflexivity|by vm_compute].
Defined.

Definition in_alphabet (n : Z) (enc : list Z) (c : Z) : bool := existsb (Z.eqb c) (chars enc (seqZ 0 n)).

Lemma each_byte (P : Z -> bool) : forallb P (seqZ 0 256) = true -> forall c, 0 <= c < 256 -> P c = true.
Proof. intros H c Hc. rewrite forallb_forall in H. apply H, list_elem_of_In, elem_of_seqZ. lia. Qed.

(** C38: The characters the decoding tables accept: the hexadecimal digits in either
    case; the characters of the two base32 alphabets; those of the base64
    alphabet and also the asterisk; those of the base64url alphabet and also the
    comma. The tables of base32 and base64 have no entry for the byte 255. *)
Theorem decode_tables_accept c :
  0 <= c < 256 ->
  fr_is_base 16 c fr_base16_alphabet_decode_mc =
    Some (in_alphabet 16 fr_base16_alphabet_encode_lc c || in_alphabet 16 fr_base16_alphabet_encode_uc c) /\
  fr_is_base 32 c fr_base32_alphabet_decode = (if c =? 255 then None else Some (in_alphabet 32 fr_base32_alphabet_encode c)) /\
  fr_is_base 32 c fr_base32_hex_alphabet_decode = (if c =? 255 then None else Some (in_alphabet 32 fr_base32_hex_alphabet_encode c)) /\
  fr_is_base 64 c fr_base64_alphabet_decode =
    (if c =? 255 then None else Some (in_alphabet 64 fr_base64_alphabet_encode c || (c =? 42))) /\
  fr_is_base 64 c fr_base64_url_alphabet_decode =
    (if c =? 255 then None else Some (in_alphabet 64 fr_base64_url_alphabet_encode c || (c =? 44))).
Proof. intros Hc. refine (bool_decide_eq_true_1 _ _). revert c Hc. apply each_byte. by vm_compute. Qed.

Lemma decode_tables_accept_witness : fr_is_base 64 42 fr_base64_alphabet_decode = Some true.
Proof. exact (proj1 (proj2 (proj2 (proj2 (decode_tables_accept 42 ltac:(lia)))))). Defined.

End BaseNSpec.
