(* ===== verification/Rb.v ===== *)
(** Red-black trees (src/lib/util/rb.c) as the code has them: nodes in memory
    that point to their children and to their parent, with a sentinel for the
    leaves. Every assignment through a pointer is an update of that memory, and
    the loops run with fuel that the number of elements bounds. RbShape and
    RbMirror relate the memory to trees, RbBalance, RbSearch, RbInsert, RbDelete
    and RbSplice prove what the parts of the code do to them, RbTree, RbIter and
    RbSpec what the functions promise. *)

From stdpp Require Import gmap.
From S2P Require Import Prelude.

Module Rb.

Inductive fr_rb_colour_t := BLACK | RED.

#[export] Instance fr_rb_colour_t_eq_dec : EqDecision fr_rb_colour_t.
Proof. solve_decision. Defined.

(** Addresses of nodes. *)
Abbreviation ptr := nat.
Definition NULL : ptr := 0.
Definition NIL : ptr := 1.

Record fr_rb_node_t {A : Type} := MkNode {
  n_left : ptr;
  n_right : ptr;
  n_parent : ptr;
  n_data : option A;
  n_colour : fr_rb_colour_t;
  n_being_freed : bool }.
Arguments fr_rb_node_t : clear implicits.

#[export] Instance eta_fr_rb_node_t A : Eta (fr_rb_node_t A) := fun n =>
  MkNode A (n_left n) (n_right n) (n_parent n) (n_data n) (n_colour n) (n_being_freed n).

Definition sentinel {A} : fr_rb_node_t A := MkNode A NIL NIL NULL None BLACK false.
Definition zero_node {A} : fr_rb_node_t A := MkNode A NULL NULL NULL None BLACK false.

(** [mem] is the memory that holds the nodes; [inline_nodes] says that they are
    part of the data ([node_alloc] is [_node_inline_alloc]), [has_free] that there
    is a callback [data_free], and [freed] is what that callback was given. *)
Record fr_rb_tree_t {A : Type} := MkTree {
  mem : gmap ptr (fr_rb_node_t A);
  root : ptr;
  num_elements : Z;
  being_freed : bool;
  inline_nodes : bool;
  has_free : bool;
  freed : list (option A) }.
Arguments fr_rb_tree_t : clear implicits.

#[export] Instance eta_fr_rb_tree_t A : Eta (fr_rb_tree_t A) := fun t =>
  MkTree A (mem t) (root t) (num_elements t) (being_freed t) (inline_nodes t) (has_free t) (freed t).

Section Operations.
Context {A : Type}.
Variable data_cmp : A -> A -> Z.
Implicit Types (t : fr_rb_tree_t A) (x y z w p : ptr).

(** [*p]; memory that was never written is zero. *)
Definition nodes t p : fr_rb_node_t A := default zero_node (mem t !! p).
Definition store t p (n : fr_rb_node_t A) : fr_rb_tree_t A := t <| mem := <[p := n]> (mem t) |>.

(** [p->left] and the like. *)
Definition left t p : ptr := n_left (nodes t p).
Definition right t p : ptr := n_right (nodes t p).
Definition parent t p : ptr := n_parent (nodes t p).
Definition data t p : option A := n_data (nodes t p).
Definition colour t p : fr_rb_colour_t := n_colour (nodes t p).

Definition set_left t p v := store t p ((nodes t p) <| n_left := v |>).
Definition set_right t p v := store t p ((nodes t p) <| n_right := v |>).
Definition set_parent t p v := store t p ((nodes t p) <| n_parent := v |>).
Definition set_data t p v := store t p ((nodes t p) <| n_data := v |>).
Definition set_colour t p v := store t p ((nodes t p) <| n_colour := v |>).

Definition is_nil p : bool := (p =? NIL)%nat.
Definition is_red t p : bool := bool_decide (colour t p = RED).

(** A call of the comparison with the data of a node. *)
Definition cmp_node t (d : A) p : Z := match data t p with Some e => data_cmp d e | None => 0 end.

(** ** Nodes *)

Definition node_data_free t p : fr_rb_tree_t A :=
  if negb (has_free t) || n_being_freed (nodes t p) then t
  else
    let t := store t p ((nodes t p) <| n_being_freed := true |>) in
    t <| freed := freed t ++ [data t p] |>.

(** The memory of a node on the heap is given back; nothing reads it again. *)
Definition node_free t p (free_data : bool) : fr_rb_tree_t A :=
  if inline_nodes t then
    if free_data && has_free t then node_data_free t p else store t p zero_node
  else
    let t := if free_data then node_data_free t p else t in
    store t p zero_node.

Definition empty_tree (inline_nodes has_free : bool) : fr_rb_tree_t A :=
  MkTree A {[NIL := sentinel]} NIL 0 false inline_nodes has_free [].

(** [offset] is where the node is in the data; nodes are on the heap where it is
    negative. *)
Definition fr_rb_init (offset : Z) (has_free : bool) : option (fr_rb_tree_t A) :=
  if 65535 <=? offset then None else Some (empty_tree (0 <=? offset) has_free).

(** ** Rotations *)

(** [if (p != NIL) p->parent = v] *)
Definition link_parent t p (v : ptr) : fr_rb_tree_t A := if negb (is_nil p) then set_parent t p v else t.

(** [x->parent] gets [y] where it had [x]; without a parent [y] is the root. The
    rotation to the left looks at the left link first, the other one at the
    right link. *)
Definition link_child_left t x y : fr_rb_tree_t A :=
  let p := parent t x in
  if negb (is_nil p) then if (x =? left t p)%nat then set_left t p y else set_right t p y
  else t <| root := y |>.

Definition link_child_right t x y : fr_rb_tree_t A :=
  let p := parent t x in
  if negb (is_nil p) then if (x =? right t p)%nat then set_right t p y else set_left t p y
  else t <| root := y |>.

Definition rotate_left t x : fr_rb_tree_t A :=
  let y := right t x in
  let t := set_right t x (left t y) in
  let t := link_parent t (left t y) x in
  let t := link_parent t y (parent t x) in
  let t := link_child_left t x y in
  let t := set_left t y x in
  link_parent t x y.

Definition rotate_right t x : fr_rb_tree_t A :=
  let y := left t x in
  let t := set_left t x (right t y) in
  let t := link_parent t (right t y) x in
  let t := link_parent t y (parent t x) in
  let t := link_child_right t x y in
  let t := set_right t y x in
  link_parent t x y.

(** ** Insertion *)

(** The body of the loop of [insert_fixup]: the tree and the new [x]. *)
Definition insert_fixup_step t x : fr_rb_tree_t A * ptr :=
  if (parent t x =? left t (parent t (parent t x)))%nat then
    let y := right t (parent t (parent t x)) in
    if is_red t y then
      let t := set_colour t (parent t x) BLACK in
      let t := set_colour t y BLACK in
      let t := set_colour t (parent t (parent t x)) RED in
      (t, parent t (parent t x))
    else
      let '(t, x) :=
        if (x =? right t (parent t x))%nat then let x := parent t x in (rotate_left t x, x) else (t, x) in
      let t := set_colour t (parent t x) BLACK in
      let t := set_colour t (parent t (parent t x)) RED in
      (rotate_right t (parent t (parent t x)), x)
  else
    let y := left t (parent t (parent t x)) in
    if is_red t y then
      let t := set_colour t (parent t x) BLACK in
      let t := set_colour t y BLACK in
      let t := set_colour t (parent t (parent t x)) RED in
      (t, parent t (parent t x))
    else
      let '(t, x) :=
        if (x =? left t (parent t x))%nat then let x := parent t x in (rotate_right t x, x) else (t, x) in
      let t := set_colour t (parent t x) BLACK in
      let t := set_colour t (parent t (parent t x)) RED in
      (rotate_left t (parent t (parent t x)), x).

Fixpoint insert_fixup (fuel : nat) t x : option (fr_rb_tree_t A) :=
  if negb (x =? root t)%nat && is_red t (parent t x) then
    match fuel with
    | O => None
    | S fuel => let '(t, x) := insert_fixup_step t x in insert_fixup fuel t x
    end
  else Some (set_colour t (root t) BLACK).

(** The search of [insert_node]: the node that is equal, or the parent of the
    new one. *)
Fixpoint insert_search (fuel : nat) t (d : A) (current parent_ : ptr) : option (ptr + ptr) :=
  if is_nil current then Some (inr parent_)
  else
    match fuel with
    | O => None
    | S fuel =>
        let result := cmp_node t d current in
        if result =? 0 then Some (inl current)
        else insert_search fuel t d (if result <? 0 then left t current else right t current) current
    end.

(** Enough for a walk from the root to a leaf. *)
Definition depth_fuel t : nat := S (Z.to_nat (num_elements t)).

Inductive insert_result := Existing (p : ptr) | Inserted | Failed.

(** [addr] is what [node_alloc] returns; [None] on the outside is a loop that
    does not end. *)
Definition insert_node t (d : A) (addr : option ptr) : option (fr_rb_tree_t A * insert_result) :=
  if being_freed t then Some (t, Failed)
  else
    match insert_search (depth_fuel t) t d (root t) NIL with
    | None => None
    | Some (inl p) => Some (t, Existing p)
    | Some (inr parent_) =>
        match addr with
        | None => Some (t, Failed)
        | Some x =>
            let t := store t x (MkNode A NIL NIL parent_ (Some d) RED false) in
            let t :=
              if negb (is_nil parent_) then
                if cmp_node t d parent_ <=? 0 then set_left t parent_ x else set_right t parent_ x
              else t <| root := x |> in
            match insert_fixup (depth_fuel t) t x with
            | None => None
            | Some t => Some (t <| num_elements := u32 (num_elements t + 1) |>, Inserted)
            end
        end
    end.

(** ** Deletion *)

(** The body of the loop of [delete_fixup]: the tree, the new [x] and [parent]. *)
Definition delete_fixup_step t x (par : ptr) : fr_rb_tree_t A * ptr * ptr :=
  if (x =? left t par)%nat then
    let w := right t par in
    let '(t, w) :=
      if is_red t w then
        let t := set_colour t w BLACK in
        let t := set_colour t par RED in
        let t := rotate_left t par in
        (t, right t par)
      else (t, w) in
    if negb (is_red t (left t w)) && negb (is_red t (right t w)) then
      let t := if negb (is_nil w) then set_colour t w RED else t in
      (t, par, parent t par)
    else
      let '(t, w) :=
        if negb (is_red t (right t w)) then
          let t := if negb (is_nil (left t w)) then set_colour t (left t w) BLACK else t in
          let t := set_colour t w RED in
          let t := rotate_right t w in
          (t, right t par)
        else (t, w) in
      let t := set_colour t w (colour t par) in
      let t := if negb (is_nil par) then set_colour t par BLACK else t in
      let t := if is_red t (right t w) then set_colour t (right t w) BLACK else t in
      let t := rotate_left t par in
      (t, root t, par)
  else
    let w := left t par in
    let '(t, w) :=
      if is_red t w then
        let t := set_colour t w BLACK in
        let t := set_colour t par RED in
        let t := rotate_right t par in
        (t, left t par)
      else (t, w) in
    if negb (is_red t (right t w)) && negb (is_red t (left t w)) then
      let t := if negb (is_nil w) then set_colour t w RED else t in
      (t, par, parent t par)
    else
      let '(t, w) :=
        if negb (is_red t (left t w)) then
          let t := if negb (is_nil (right t w)) then set_colour t (right t w) BLACK else t in
          let t := set_colour t w RED in
          let t := rotate_left t w in
          (t, left t par)
        else (t, w) in
      let t := set_colour t w (colour t par) in
      let t := if negb (is_nil par) then set_colour t par BLACK else t in
      let t := if is_red t (left t w) then set_colour t (left t w) BLACK else t in
      let t := rotate_right t par in
      (t, root t, par).

Fixpoint delete_fixup (fuel : nat) t x (par : ptr) : option (fr_rb_tree_t A) :=
  if negb (x =? root t)%nat && negb (is_red t x) then
    match fuel with
    | O => None
    | S fuel => let '(t, x, par) := delete_fixup_step t x par in delete_fixup fuel t x par
    end
  else Some (if negb (is_nil x) then set_colour t x BLACK else t).

(** [while (y->left != NIL) y = y->left] *)
Fixpoint leftmost (fuel : nat) t y : option ptr :=
  if is_nil (left t y) then Some y
  else match fuel with O => None | S fuel => leftmost fuel t (left t y) end.

Fixpoint rightmost (fuel : nat) t y : option ptr :=
  if is_nil (right t y) then Some y
  else match fuel with O => None | S fuel => rightmost fuel t (right t y) end.

(** [y] takes the place of [z]: [memcpy(y, z, sizeof( *y))] and what follows. *)
Definition replace_node t z y (y_data : option A) : fr_rb_tree_t A :=
  let t := store t y (nodes t z) in
  let t := set_data t y y_data in
  let t :=
    if is_nil (parent t y) then t <| root := y |>
    else
      let t := if (left t (parent t y) =? z)%nat then set_left t (parent t y) y else t in
      if (right t (parent t y) =? z)%nat then set_right t (parent t y) y else t in
  let t := if (parent t (left t y) =? z)%nat then set_parent t (left t y) y else t in
  if (parent t (right t y) =? z)%nat then set_parent t (right t y) y else t.

Definition delete_internal t z (free_data : bool) : option (fr_rb_tree_t A) :=
  if (z =? NULL)%nat || is_nil z then Some t
  else
    match (if is_nil (left t z) || is_nil (right t z) then Some z else leftmost (depth_fuel t) t (right t z)) with
    | None => None
    | Some y =>
        let x := if negb (is_nil (left t y)) then left t y else right t y in
        let par := parent t y in
        let t := if negb (is_nil x) then set_parent t x par else t in
        let t :=
          if negb (is_nil par) then
            if (y =? left t par)%nat then set_left t par x else set_right t par x
          else t <| root := x |> in
        let y_data := data t y in
        match (if negb (is_red t y) && ((y =? z)%nat || negb (par =? NULL)%nat)
               then delete_fixup (depth_fuel t) t x par else Some t) with
        | None => None
        | Some t =>
            let t := if negb (y =? z)%nat then replace_node t z y y_data else t in
            let t := node_free t z free_data in
            Some (t <| num_elements := u32 (num_elements t - 1) |>)
        end
    end.

(** ** The interface *)

Fixpoint find_search (fuel : nat) t (d : A) (current : ptr) : option ptr :=
  if is_nil current then Some NULL
  else
    match fuel with
    | O => None
    | S fuel =>
        let result := cmp_node t d current in
        if result =? 0 then Some current
        else find_search fuel t d (if result <? 0 then left t current else right t current)
    end.

Definition find_node t (d : A) : option ptr :=
  if being_freed t then Some NULL else find_search (depth_fuel t) t d (root t).

(** The data, or [NULL]. *)
Definition fr_rb_find t (d : A) : option (option A) :=
  if being_freed t then Some None
  else x ← find_node t d; Some (if (x =? NULL)%nat then None else data t x).

(** The number that is returned and [*found]. *)
Definition fr_rb_find_or_insert t (d : A) (addr : option ptr) : option (fr_rb_tree_t A * (Z * option A)) :=
  '(t, r) ← insert_node t d addr;
  Some (t, match r with Existing p => (1, data t p) | Inserted => (0, None) | Failed => (-1, None) end).

Definition fr_rb_insert t (d : A) (addr : option ptr) : option (fr_rb_tree_t A * bool) :=
  '(t, r) ← insert_node t d addr;
  Some (t, match r with Inserted => true | _ => false end).

(** [keep] says that there is a pointer [old], which the old data goes to. *)
Definition fr_rb_replace t (d : A) (addr : option ptr) (keep : bool) : option (fr_rb_tree_t A * (Z * option A)) :=
  '(t, r) ← insert_node t d addr;
  match r with
  | Existing node =>
      let old_data := data t node in
      t ← (if inline_nodes t then
             t ← delete_internal t node false;
             '(t, _) ← insert_node t d addr;
             Some t
           else Some (set_data t node (Some d)));
      if keep then Some (t, (1, old_data))
      else Some (if has_free t then t <| freed := freed t ++ [old_data] |> else t, (1, None))
  | Inserted => Some (t, (0, None))
  | Failed => Some (t, (-1, None))
  end.

Definition fr_rb_remove t (d : A) : option (fr_rb_tree_t A * option A) :=
  if being_freed t then Some (t, None)
  else
    node ← find_node t d;
    if (node =? NULL)%nat then Some (t, None)
    else if n_being_freed (nodes t node) then Some (t, data t node)
    else
      let node_data := data t node in
      t ← delete_internal t node false;
      Some (t, node_data).

Definition fr_rb_node_inline_in_tree t (node : ptr) : bool :=
  negb (left t node =? NULL)%nat && negb (right t node =? NULL)%nat && negb (parent t node =? NULL)%nat &&
  negb (n_being_freed (nodes t node)).

Definition fr_rb_remove_by_inline_node t (node : ptr) : option (fr_rb_tree_t A * option A) :=
  if negb (fr_rb_node_inline_in_tree t node) then Some (t, None)
  else
    let node_data := data t node in
    t ← delete_internal t node false;
    Some (t, node_data).

Definition fr_rb_delete t (d : A) : option (fr_rb_tree_t A * bool) :=
  if being_freed t then Some (t, false)
  else
    node ← find_node t d;
    if (node =? NULL)%nat then Some (t, false)
    else if n_being_freed (nodes t node) then Some (t, true)
    else
      t ← delete_internal t node (has_free t);
      Some (t, true).

Definition fr_rb_delete_by_inline_node t (node : ptr) : option (fr_rb_tree_t A * bool) :=
  if negb (fr_rb_node_inline_in_tree t node) then Some (t, false)
  else
    t ← delete_internal t node true;
    Some (t, true).

Definition fr_rb_num_elements t : Z := num_elements t.

Definition fr_rb_first t : option (option A) :=
  if is_nil (root t) then Some None
  else x ← leftmost (depth_fuel t) t (root t); Some (data t x).

Definition fr_rb_last t : option (option A) :=
  if is_nil (root t) then Some None
  else x ← rightmost (depth_fuel t) t (root t); Some (data t x).

(** ** Iterators *)

Record fr_rb_iter_inorder_t := MkIter { iter_node : ptr; iter_next : ptr }.

(** An iterator of an empty tree stays as it was. *)
Definition fr_rb_iter_init_inorder t (iter : fr_rb_iter_inorder_t) : option (fr_rb_iter_inorder_t * option A) :=
  if is_nil (root t) then Some (iter, None)
  else x ← leftmost (depth_fuel t) t (root t); Some (MkIter x NULL, data t x).

(** [while ((x != NIL) && (y == x->right))] *)
Fixpoint climb (fuel : nat) t x y : option ptr :=
  if negb (is_nil x) && (y =? right t x)%nat then
    match fuel with O => None | S fuel => climb fuel t (parent t x) x end
  else Some x.

Definition fr_rb_iter_next_inorder t (iter : fr_rb_iter_inorder_t) : option (fr_rb_iter_inorder_t * option A) :=
  let x := iter_node iter in
  if is_nil x then Some (iter, None)
  else if (x =? NULL)%nat then Some (MkIter (iter_next iter) NULL, data t (iter_next iter))
  else if negb (is_nil (right t x)) then
    x ← leftmost (depth_fuel t) t (right t x);
    Some (MkIter x (iter_next iter), data t x)
  else
    x ← climb (depth_fuel t) t (parent t x) x;
    Some (MkIter x (iter_next iter), data t x).

Definition fr_rb_iter_delete_inorder t (iter : fr_rb_iter_inorder_t) : option (fr_rb_tree_t A * fr_rb_iter_inorder_t) :=
  let x := iter_node iter in
  if is_nil x then Some (t, iter)
  else
    '(iter, _) ← fr_rb_iter_next_inorder t iter;
    t ← delete_internal t x true;
    Some (t, MkIter NULL (iter_node iter)).

Definition fr_rb_iter_init_preorder t (iter : ptr) : ptr * option A :=
  if is_nil (root t) then (iter, None) else (root t, data t (root t)).

(** The nearest ancestor with a right child that was not returned. *)
Fixpoint next_right (fuel : nat) t x : option ptr :=
  let y := parent t x in
  if is_nil y then Some NIL
  else if negb (is_nil (right t y)) && negb (right t y =? x)%nat then Some (right t y)
  else match fuel with O => None | S fuel => next_right fuel t y end.

Definition fr_rb_iter_next_preorder t (iter : ptr) : option (ptr * option A) :=
  let x := iter in
  if is_nil x then Some (iter, None)
  else if negb (is_nil (left t x)) then Some (left t x, data t (left t x))
  else if negb (is_nil (right t x)) then Some (right t x, data t (right t x))
  else
    x ← next_right (depth_fuel t) t x;
    Some (x, if is_nil x then None else data t x).

(** The deepest leaf to the left, to the right where there is no left child. *)
Fixpoint deepest (fuel : nat) t x : option ptr :=
  if negb (is_nil (left t x)) then match fuel with O => None | S fuel => deepest fuel t (left t x) end
  else if is_nil (right t x) then Some x
  else match fuel with O => None | S fuel => deepest fuel t (right t x) end.

Definition fr_rb_iter_init_postorder t (iter : ptr) : option (ptr * option A) :=
  if is_nil (root t) then Some (iter, None)
  else x ← deepest (depth_fuel t) t (root t); Some (x, data t x).

Definition fr_rb_iter_next_postorder t (iter : ptr) : option (ptr * option A) :=
  let x := iter in
  if is_nil x then Some (iter, None)
  else
    let y := parent t x in
    if is_nil y then Some (NIL, None)
    else if is_nil (right t y) || (right t y =? x)%nat then Some (y, data t y)
    else x ← deepest (depth_fuel t) t (right t y); Some (x, data t x).

(** [fr_rb_flatten_*]: the items up to the first [NULL]. *)
Fixpoint flatten {I} (next : I -> option (I * option A)) (fuel : nat) (iter : I) (item : option A) : option (list A) :=
  match item with
  | None => Some []
  | Some a =>
      match fuel with
      | O => None
      | S fuel => '(iter, item) ← next iter; rest ← flatten next fuel iter item; Some (a :: rest)
      end
  end.

(** One round for each element and one more. *)
Definition fr_rb_flatten_inorder t : option (list A) :=
  '(iter, item) ← fr_rb_iter_init_inorder t (MkIter NIL NULL);
  flatten (fr_rb_iter_next_inorder t) (depth_fuel t) iter item.

Definition fr_rb_flatten_preorder t : option (list A) :=
  let '(iter, item) := fr_rb_iter_init_preorder t NIL in
  flatten (fr_rb_iter_next_preorder t) (depth_fuel t) iter item.

Definition fr_rb_flatten_postorder t : option (list A) :=
  '(iter, item) ← fr_rb_iter_init_postorder t NIL;
  flatten (fr_rb_iter_next_postorder t) (depth_fuel t) iter item.

(** ** Freeing the tree *)

Fixpoint free_walker (fuel : nat) t x : option (fr_rb_tree_t A) :=
  match fuel with
  | O => None
  | S fuel =>
      t ← (if negb (is_nil (left t x)) then free_walker fuel t (left t x) else Some t);
      t ← (if negb (is_nil (right t x)) then free_walker fuel t (right t x) else Some t);
      Some (node_free t x true)
  end.

Definition tree_free t : option (fr_rb_tree_t A * Z) :=
  if being_freed t then Some (t, -1)
  else
    let t := t <| being_freed := true |> in
    t ← (if negb (is_nil (root t)) && has_free t then free_walker (depth_fuel t) t (root t) else Some t);
    Some (t <| root := NIL |> <| num_elements := 0 |>, 0).
End Operations.
End Rb.
