(* ===== verification/RbShape.v ===== *)
(** The memory of a red-black tree (Rb) as a tree: a pointer into the structure
    is a subtree and its context, and the rotations and recolourings of
    src/lib/util/rb.c act on them. *)

From stdpp Require Import gmap.
From S2P Require Import Prelude Rb.
Import Rb.

Module RbShape.

(** ** Trees and contexts, with the address of each node *)

Inductive tree (A : Type) := E | T (p : ptr) (c : fr_rb_colour_t) (l : tree A) (d : A) (r : tree A).
Arguments E {A}.
Arguments T {A}.

(** A step from a node to the child that is in focus: [FL] to the left, with the
    right subtree, and [FR] to the right. *)
Inductive frame (A : Type) :=
| FL (p : ptr) (c : fr_rb_colour_t) (d : A) (r : tree A)
| FR (p : ptr) (c : fr_rb_colour_t) (l : tree A) (d : A).
Arguments FL {A}.
Arguments FR {A}.

Abbreviation context A := (list (frame A)).

(** ** Tactics on addresses *)

(** Comparing the addresses that occur. *)
Ltac solve_addr :=
  unfold is_nil; repeat match goal with
  | |- context [(?a =? ?b)%nat] => destruct (Nat.eqb_spec a b); cbn [andb negb]; try done; try (exfalso; intuition congruence)
  end; try done; try congruence; try (subst; done).

(** A mark for the pairs that were already considered. *)
Definition done_with (z : ptr) (l : list ptr) : Prop := True.

(** The facts that follow from addresses being distinct. *)
Ltac addr_facts H :=
  repeat match type of H with
  | NoDup (_ :: _) => let Hx := fresh "Hfresh" in apply list.NoDup_cons in H as [Hx H]
  | NoDup (_ ++ _) => let Hx := fresh "Hdisj" in let Hl := fresh "Hnd" in apply list.NoDup_app in H as (Hl & Hx & H)
  end.

Ltac addr_atoms :=
  repeat match goal with
  | H : _ ∉ _ :: _ |- _ => apply not_elem_of_cons in H; destruct H
  | H : _ ∉ _ ++ _ |- _ => apply not_elem_of_app in H; destruct H
  | H : forall z, z ∈ ?l -> z ∉ _, H' : ?z ∈ ?l |- _ =>
      lazymatch goal with
      | _ : done_with z l |- _ => fail
      | _ => pose proof (H z H'); assert (done_with z l) by exact I
      end
  end.
Ltac addr_solve :=
  repeat match goal with
  | H : ?a = NIL \/ _ |- _ => destruct H as [H|H]
  end; addr_atoms; repeat split; try tauto; try congruence; try (left; congruence); try (right; congruence).

Section Shape.
Context {A : Type}.
Implicit Types (t : fr_rb_tree_t A) (tr : tree A) (k : context A).

Definition rootp tr : ptr := match tr with E => NIL | T p _ _ _ _ => p end.
Definition top (k : context A) : ptr := match k with [] => NIL | FL p _ _ _ :: _ | FR p _ _ _ :: _ => p end.

Fixpoint addrs tr : list ptr := match tr with E => [] | T p _ l _ r => p :: addrs l ++ addrs r end.
Fixpoint kaddrs k : list ptr :=
  match k with
  | [] => []
  | FL p _ _ r :: k => p :: addrs r ++ kaddrs k
  | FR p _ l _ :: k => p :: addrs l ++ kaddrs k
  end.

Definition plug1 tr (f : frame A) : tree A := match f with FL p c d r => T p c tr d r | FR p c l d => T p c l d tr end.
Definition plug k tr : tree A := fold_left plug1 k tr.

(** The memory holds the tree below [par]. *)
Fixpoint shape t (par : ptr) tr : Prop :=
  match tr with
  | E => True
  | T p c l d r =>
      nodes t p = MkNode A (rootp l) (rootp r) par (Some d) c false /\ shape t p l /\ shape t p r
  end.

(** The memory holds the context of the address [hole]. *)
Fixpoint kshape t k (hole : ptr) : Prop :=
  match k with
  | [] => root t = hole
  | FL p c d r :: k =>
      nodes t p = MkNode A hole (rootp r) (top k) (Some d) c false /\ shape t p r /\ kshape t k p
  | FR p c l d :: k =>
      nodes t p = MkNode A (rootp l) hole (top k) (Some d) c false /\ shape t p l /\ kshape t k p
  end.

(** The pointer to [tr] below [k]. *)
Record zipper t k tr : Prop := Zip {
  zip_nodup : NoDup (addrs tr ++ kaddrs k);
  zip_valid : Forall (fun p => NIL < p)%nat (addrs tr ++ kaddrs k);
  zip_shape : shape t (top k) tr;
  zip_kshape : kshape t k (rootp tr);
  zip_nil : nodes t NIL = sentinel }.

(** ** Frames *)

Lemma shape_frame t t' par tr :
  (forall q, q ∈ addrs tr -> nodes t' q = nodes t q) -> shape t par tr -> shape t' par tr.
Proof.
  revert par. induction tr as [|p c l IHl d r IHr]; intros par Hf; [done|]. cbn in *. intros (H1 & H2 & H3).
  split; [rewrite Hf; [done|left]|]. split; [apply IHl|apply IHr]; auto; intros q Hq; apply Hf; right; apply elem_of_app; auto.
Qed.

Lemma kshape_frame t t' k hole :
  (forall q, q ∈ kaddrs k -> nodes t' q = nodes t q) -> root t' = root t -> kshape t k hole -> kshape t' k hole.
Proof.
  intros Hf Hr. revert hole Hf. induction k as [|[p c d r|p c l d] k IH]; intros hole Hf; cbn in *; [by rewrite Hr|..];
    intros (H1 & H2 & H3); (split; [rewrite Hf; [done|left]|]); (split; [eapply shape_frame; [|exact H2]|apply IH; [|done]]);
    intros q Hq; apply Hf; right; apply elem_of_app; auto.
Qed.

(** The subtree gets another parent. *)
Lemma shape_reparent t t' par par' tr :
  NoDup (addrs tr) -> (tr <> E -> nodes t' (rootp tr) = (nodes t (rootp tr)) <| n_parent := par' |>) ->
  (forall q, q ∈ addrs tr -> q <> rootp tr -> nodes t' q = nodes t q) -> shape t par tr -> shape t' par' tr.
Proof.
  destruct tr as [|p c l d r]; [done|]. cbn. intros [Hp Hn]%list.NoDup_cons H1 Hf (H2 & H3 & H4).
  rewrite H1, H2 by done. split; [done|].
  split; (eapply shape_frame; [|done]); intros q Hq; apply Hf; [right; apply elem_of_app; auto| |right; apply elem_of_app; auto|];
    intros ->; apply Hp, elem_of_app; auto.
Qed.

(** The context gets another child in its hole. *)
Definition relink (k : context A) (n : fr_rb_node_t A) (hole : ptr) : fr_rb_node_t A :=
  match k with [] => n | FL _ _ _ _ :: _ => n <| n_left := hole |> | FR _ _ _ _ :: _ => n <| n_right := hole |> end.

Lemma kshape_relink t t' k hole hole' :
  NoDup (kaddrs k) -> (k = [] -> root t' = hole') -> (k <> [] -> root t' = root t) ->
  (k <> [] -> nodes t' (top k) = relink k (nodes t (top k)) hole') ->
  (forall q, q ∈ kaddrs k -> q <> top k -> nodes t' q = nodes t q) -> kshape t k hole -> kshape t' k hole'.
Proof.
  destruct k as [|f k]; [intros; by apply H0|]. intros Hn _ Hr Ht Hf. specialize (Hr ltac:(done)). specialize (Ht ltac:(done)).
  destruct f as [p c d r|p c l d]; cbn in *; apply list.NoDup_cons in Hn as [Hp Hn]; intros (H1 & H2 & H3); rewrite Ht, H1;
    (split; [done|]); (split; [eapply shape_frame; [|done]|eapply kshape_frame; [|done|done]]);
    intros q Hq; (apply Hf; [right; apply elem_of_app; auto|]); intros ->; apply Hp, elem_of_app; auto.
Qed.

(** ** Reading after writing *)

Lemma node_ext (n m : fr_rb_node_t A) :
  n_left n = n_left m -> n_right n = n_right m -> n_parent n = n_parent m ->
  (n_data n, n_colour n, n_being_freed n) = (n_data m, n_colour m, n_being_freed m) -> n = m.
Proof. destruct n, m. cbn. intros. by simplify_eq. Qed.

Definition rest t q := (n_data (nodes t q), n_colour (nodes t q), n_being_freed (nodes t q)).

(** The fields that no assignment to a node changes. *)
Definition meta t := (num_elements t, being_freed t, inline_nodes t, has_free t, freed t).

Lemma nodes_store t p n q : nodes (store t p n) q = if (q =? p)%nat then n else nodes t q.
Proof.
  unfold nodes, store, upd. cbn. destruct (Nat.eqb_spec q p) as [-> |]; [by rewrite lookup_insert_eq|].
  by rewrite lookup_insert_ne.
Qed.

Ltac field :=
  unfold rest, left, right, parent, set_left, set_right, set_parent; rewrite ?nodes_store; repeat case_if; cbn; by subst.


Lemma left_set_left t p v q : left (set_left t p v) q = if (q =? p)%nat then v else left t q. Proof. field. Qed.
Lemma left_set_right t p v q : left (set_right t p v) q = left t q. Proof. field. Qed.
Lemma left_set_parent t p v q : left (set_parent t p v) q = left t q. Proof. field. Qed.
Lemma right_set_left t p v q : right (set_left t p v) q = right t q. Proof. field. Qed.
Lemma right_set_right t p v q : right (set_right t p v) q = if (q =? p)%nat then v else right t q. Proof. field. Qed.
Lemma right_set_parent t p v q : right (set_parent t p v) q = right t q. Proof. field. Qed.
Lemma parent_set_left t p v q : parent (set_left t p v) q = parent t q. Proof. field. Qed.
Lemma parent_set_right t p v q : parent (set_right t p v) q = parent t q. Proof. field. Qed.
Lemma parent_set_parent t p v q : parent (set_parent t p v) q = if (q =? p)%nat then v else parent t q. Proof. field. Qed.
Lemma rest_set_left t p v q : rest (set_left t p v) q = rest t q. Proof. field. Qed.
Lemma rest_set_right t p v q : rest (set_right t p v) q = rest t q. Proof. field. Qed.
Lemma rest_set_parent t p v q : rest (set_parent t p v) q = rest t q. Proof. field. Qed.

Lemma left_link_parent t p v q : left (link_parent t p v) q = left t q.
Proof. unfold link_parent. case_if; [apply left_set_parent|done]. Qed.
Lemma right_link_parent t p v q : right (link_parent t p v) q = right t q.
Proof. unfold link_parent. case_if; [apply right_set_parent|done]. Qed.
Lemma rest_link_parent t p v q : rest (link_parent t p v) q = rest t q.
Proof. unfold link_parent. case_if; [apply rest_set_parent|done]. Qed.
Lemma parent_link_parent t p v q :
  parent (link_parent t p v) q = if (q =? p)%nat && negb (is_nil p) then v else parent t q.
Proof. unfold link_parent. case_if; [|by rewrite andb_false_r]. rewrite andb_true_r. apply parent_set_parent. Qed.
Lemma link_parent_root t p v : root (link_parent t p v) = root t /\ meta (link_parent t p v) = meta t.
Proof. unfold link_parent. by case_if. Qed.

Lemma parent_link_child_left t x y q : parent (link_child_left t x y) q = parent t q.
Proof. unfold link_child_left. cbn zeta. repeat case_if; [apply parent_set_left|apply parent_set_right|done]. Qed.
Lemma rest_link_child_left t x y q : rest (link_child_left t x y) q = rest t q.
Proof. unfold link_child_left. cbn zeta. repeat case_if; [apply rest_set_left|apply rest_set_right|done]. Qed.
Lemma left_link_child_left t x y q :
  left (link_child_left t x y) q =
  if (q =? parent t x)%nat && negb (is_nil (parent t x)) && (x =? left t (parent t x))%nat then y else left t q.
Proof.
  unfold link_child_left. cbn zeta. destruct (is_nil (parent t x)); cbn [negb]; [by rewrite andb_false_r|].
  rewrite andb_true_r. case_if; [by rewrite left_set_left, andb_true_r|]. by rewrite left_set_right, andb_false_r.
Qed.
Lemma right_link_child_left t x y q :
  right (link_child_left t x y) q =
  if (q =? parent t x)%nat && negb (is_nil (parent t x)) && negb (x =? left t (parent t x))%nat then y else right t q.
Proof.
  unfold link_child_left. cbn zeta. destruct (is_nil (parent t x)); cbn [negb]; [by rewrite andb_false_r|].
  rewrite andb_true_r. case_if; cbn [negb]; [by rewrite right_set_left, andb_false_r|]. by rewrite right_set_right, andb_true_r.
Qed.
Lemma root_link_child_left t x y :
  root (link_child_left t x y) = (if is_nil (parent t x) then y else root t) /\ meta (link_child_left t x y) = meta t.
Proof. unfold link_child_left. cbn zeta. destruct (is_nil (parent t x)); cbn [negb]; [done|]. by case_if. Qed.

(** ** Rotation to the left *)

Lemma rotate_left_nodes t x y b p q :
  right t x = y -> left t y = b -> parent t x = p ->
  x <> NIL -> y <> NIL -> x <> y -> b <> x -> b <> y -> p <> x -> p <> y -> (p = NIL \/ p <> b) ->
  nodes (rotate_left t x) q =
  if (q =? y)%nat then (nodes t y) <| n_left := x |> <| n_parent := p |>
  else if (q =? x)%nat then (nodes t x) <| n_right := b |> <| n_parent := y |>
  else if (q =? b)%nat && negb (is_nil b) then (nodes t b) <| n_parent := x |>
  else if (q =? p)%nat && negb (is_nil p) then
    if (x =? left t p)%nat then (nodes t p) <| n_left := y |> else (nodes t p) <| n_right := y |>
  else nodes t q.
Proof.
  intros Ey Eb Ep Hx Hy Hxy Hbx Hby Hpx Hpy Hpb. unfold rotate_left. cbn zeta.
  rewrite Ey, left_set_right, Eb, parent_link_parent, parent_set_right, Ep.
  assert ((x =? b)%nat = false) as Exb by (apply Nat.eqb_neq; congruence). rewrite Exb. cbn [andb].
  set (t3 := link_parent (link_parent (set_right t x b) b x) y p).
  assert (parent t3 x = p) as E3.
  { unfold t3. rewrite !parent_link_parent, parent_set_right, Ep, Exb. destruct (Nat.eqb_spec x y); [done|]. done. }
  assert (forall q, left t3 q = left t q) as L3
    by (intros; unfold t3; by rewrite !left_link_parent, left_set_right).
  assert (forall q, right t3 q = if (q =? x)%nat then b else right t q) as R3
    by (intros; unfold t3; by rewrite !right_link_parent, right_set_right).
  assert (forall (a b : ptr), a = b -> nodes t a = nodes t b) as Hn by (by intros ? ? ->).
  apply node_ext.
  - change (n_left (nodes ?u ?v)) with (left u v). rewrite left_link_parent, left_set_left, left_link_child_left, E3, !L3.
    unfold left. solve_addr.
  - change (n_right (nodes ?u ?v)) with (right u v). rewrite right_link_parent, right_set_left, right_link_child_left, E3, !L3, !R3.
    unfold left, right. solve_addr.
  - change (n_parent (nodes ?u ?v)) with (parent u v). rewrite parent_link_parent, parent_set_left, parent_link_child_left.
    unfold t3. rewrite !parent_link_parent, parent_set_right. unfold parent. solve_addr.
  - fold (rest (link_parent (set_left (link_child_left t3 x y) y x) x y) q).
    rewrite rest_link_parent, rest_set_left, rest_link_child_left. unfold t3. rewrite !rest_link_parent, rest_set_right.
    unfold rest. solve_addr.
Qed.

Lemma rotate_left_root t x y b p :
  right t x = y -> left t y = b -> parent t x = p -> x <> y -> b <> x ->
  root (rotate_left t x) = (if is_nil p then y else root t) /\ meta (rotate_left t x) = meta t.
Proof.
  intros Ey Eb Ep Hxy Hb. unfold rotate_left. cbn zeta.
  rewrite Ey, left_set_right, Eb, parent_link_parent, parent_set_right, Ep.
  assert ((x =? b)%nat = false) as -> by (apply Nat.eqb_neq; congruence). cbn [andb].
  set (t3 := link_parent (link_parent (set_right t x b) b x) y p).
  assert (parent t3 x = p) as E3.
  { unfold t3. rewrite !parent_link_parent, parent_set_right, Ep. solve_addr. }
  destruct (link_parent_root (set_left (link_child_left t3 x y) y x) x y) as [-> ->].
  change (root (set_left ?u _ _)) with (root u). change (meta (set_left ?u _ _)) with (meta u).
  destruct (root_link_child_left t3 x y) as [-> ->]. rewrite E3. unfold t3.
  destruct (link_parent_root (link_parent (set_right t x b) b x) y p) as [-> ->].
  destruct (link_parent_root (set_right t x b) b x) as [-> ->]. done.
Qed.

Lemma not_elem_NoDup_app (l k : list ptr) p : NoDup (l ++ k) -> p ∈ l -> p ∈ k -> False.
Proof. intros (_ & H & _)%list.NoDup_app Hl Hk. by apply (H p). Qed.

Lemma rootp_elem tr : tr <> E -> rootp tr ∈ addrs tr.
Proof. destruct tr; [done|]. intros _. left. Qed.

Lemma top_elem k : k <> [] -> top k ∈ kaddrs k.
Proof. destruct k as [|[] k]; [done|..]; intros _; left. Qed.

Lemma rootp_cases tr : rootp tr = NIL \/ rootp tr ∈ addrs tr.
Proof. destruct tr; [by left|right; left]. Qed.

Lemma top_cases k : top k = NIL \/ top k ∈ kaddrs k.
Proof. destruct k as [|[] k]; [by left|right; left..]. Qed.

Lemma valid_nil (l : list ptr) : Forall (fun p => NIL < p)%nat l -> NIL ∉ l.
Proof. intros H Hn. rewrite Forall_forall in H. specialize (H NIL ltac:(by apply list_elem_of_In)). lia. Qed.

Lemma top_link t k x y :
  kshape t k x -> x ∉ kaddrs k -> x <> NIL -> k <> [] ->
  (if (x =? left t (top k))%nat then (nodes t (top k)) <| n_left := y |> else (nodes t (top k)) <| n_right := y |>) =
  relink k (nodes t (top k)) y.
Proof.
  destruct k as [|[p c d r|p c l d] k]; [done|..]; cbn; unfold left; intros (Hp & _) Hx Hn _; rewrite Hp; cbn.
  - by rewrite Nat.eqb_refl.
  - destruct (Nat.eqb_spec x (rootp l)) as [-> |]; [|done]. destruct (rootp_cases l); addr_atoms; done.
Qed.

Lemma rotate_left_zipper t k x c a d y c' b d' e :
  zipper t k (T x c a d (T y c' b d' e)) -> zipper (rotate_left t x) k (T y c' (T x c a d b) d' e).
Proof.
  intros [Hnd Hv Hs Hk Hnil]. cbn in Hs. destruct Hs as (Nx & Sa & Ny & Sb & Se).
  assert (right t x = y /\ left t y = rootp b /\ parent t x = top k) as (Ey & Eb & Ep)
    by (unfold right, left, parent; by rewrite Nx, Ny).
  assert (addrs (T x c a d (T y c' b d' e)) ++ kaddrs k ≡ₚ y :: x :: addrs a ++ addrs b ++ addrs e ++ kaddrs k) as Hperm.
  { cbn. rewrite <- !app_assoc. cbn. rewrite <- !app_assoc, <- Permutation_middle. apply perm_swap. }
  rewrite Hperm in Hnd, Hv.
  assert (NoDup (addrs (T y c' (T x c a d b) d' e) ++ kaddrs k)) as Hnd' by (cbn; by rewrite <- !app_assoc).
  assert (Forall (fun p => NIL < p)%nat (addrs (T y c' (T x c a d b) d' e) ++ kaddrs k)) as Hv' by (cbn; by rewrite <- !app_assoc).
  pose proof (valid_nil _ Hv) as Hnn. addr_facts Hnd. pose proof (rootp_cases b) as Cb. pose proof (top_cases k) as Ck.
  assert (x <> NIL /\ y <> NIL /\ x <> y /\ rootp b <> x /\ rootp b <> y /\ top k <> x /\ top k <> y /\
    (top k = NIL \/ top k <> rootp b)) as (D1 & D2 & D3 & D4 & D5 & D6 & D7 & D8).
  { addr_solve. }
  pose proof (fun q => rotate_left_nodes t x y (rootp b) (top k) q Ey Eb Ep D1 D2 D3 D4 D5 D6 D7 D8) as Hn.
  destruct (rotate_left_root t x y (rootp b) (top k) Ey Eb Ep D3 D4) as [Hr _].
  split; [done|done| | |].
  - cbn. repeat split.
    + rewrite Hn, Nat.eqb_refl, Ny. done.
    + rewrite Hn, Nat.eqb_refl, Nx. by destruct (Nat.eqb_spec x y).
    + eapply shape_frame; [|exact Sa]. intros q Hq. rewrite Hn. addr_solve; solve_addr.
    + eapply shape_reparent; [done| | |exact Sb].
      * intros Hb. rewrite Hn. apply rootp_elem in Hb. addr_solve; solve_addr.
      * intros q Hq Hne. rewrite Hn. addr_solve; solve_addr.
    + eapply shape_frame; [|exact Se]. intros q Hq. rewrite Hn. addr_solve; solve_addr.
  - eapply kshape_relink; [done| | | | |exact Hk].
    + intros ->. by rewrite Hr.
    + intros Hk0. rewrite Hr. apply top_elem in Hk0. unfold is_nil. addr_solve; solve_addr.
    + intros Hk0. cbn [rootp]. rewrite <- (top_link t k x y) by (done || addr_solve). rewrite Hn. apply top_elem in Hk0. addr_solve; solve_addr.
    + intros q Hq Hne. rewrite Hn. addr_solve; solve_addr.
  - rewrite Hn. addr_solve; solve_addr.
Qed.
End Shape.
End RbShape.
