(* ===== verification/RbMirror.v ===== *)
(** Mirror images of red-black trees (Rb): the code for the right is the code for
    the left in the mirror, so that what RbShape shows of one rotation holds of
    the other. *)

From stdpp Require Import gmap.
From S2P Require Import Prelude Rb RbShape.
Import Rb RbShape.

Module RbMirror.

Section Mirror.
Context {A : Type}.
Implicit Types (t : fr_rb_tree_t A) (tr : tree A) (k : context A).

Definition swap (n : fr_rb_node_t A) : fr_rb_node_t A :=
  MkNode A (n_right n) (n_left n) (n_parent n) (n_data n) (n_colour n) (n_being_freed n).
Definition mirror t : fr_rb_tree_t A := t <| mem := swap <$> mem t |>.
Fixpoint tmirror tr : tree A := match tr with E => E | T p c l d r => T p c (tmirror r) d (tmirror l) end.
Definition fmirror (f : frame A) : frame A := match f with FL p c d r => FR p c (tmirror r) d | FR p c l d => FL p c d (tmirror l) end.
Definition kmirror k : context A := map fmirror k.

Lemma swap_swap n : swap (swap n) = n. Proof. by destruct n. Qed.
Lemma mirror_mirror t : mirror (mirror t) = t.
Proof.
  destruct t as [m ? ? ? ? ? ?]. unfold mirror, upd. cbn. f_equal. rewrite <- map_fmap_compose. transitivity (id <$> m); [|apply map_fmap_id].
  apply map_fmap_ext. intros. apply swap_swap.
Qed.
Lemma tmirror_tmirror tr : tmirror (tmirror tr) = tr.
Proof. induction tr; cbn; congruence. Qed.
Lemma kmirror_kmirror k : kmirror (kmirror k) = k.
Proof. unfold kmirror. induction k as [|[] k IH]; cbn; rewrite ?tmirror_tmirror, ?IH; done. Qed.

Lemma nodes_mirror t p : nodes (mirror t) p = swap (nodes t p).
Proof. unfold nodes, mirror, upd. cbn. rewrite lookup_fmap. by destruct (mem t !! p). Qed.
Lemma left_mirror t p : left (mirror t) p = right t p. Proof. unfold left, right. by rewrite nodes_mirror. Qed.
Lemma right_mirror t p : right (mirror t) p = left t p. Proof. unfold left, right. by rewrite nodes_mirror. Qed.
Lemma parent_mirror t p : parent (mirror t) p = parent t p. Proof. unfold parent. by rewrite nodes_mirror. Qed.
Lemma colour_mirror t p : colour (mirror t) p = colour t p. Proof. unfold colour. by rewrite nodes_mirror. Qed.
Lemma store_mirror t p n : mirror (store t p n) = store (mirror t) p (swap n).
Proof. unfold mirror, store, upd. cbn. by rewrite fmap_insert. Qed.

Lemma set_left_mirror t p v : mirror (set_left t p v) = set_right (mirror t) p v.
Proof. unfold set_left, set_right. by rewrite store_mirror, nodes_mirror. Qed.
Lemma set_right_mirror t p v : mirror (set_right t p v) = set_left (mirror t) p v.
Proof. unfold set_left, set_right. by rewrite store_mirror, nodes_mirror. Qed.
Lemma set_parent_mirror t p v : mirror (set_parent t p v) = set_parent (mirror t) p v.
Proof. unfold set_parent. by rewrite store_mirror, nodes_mirror. Qed.
Lemma set_colour_mirror t p v : mirror (set_colour t p v) = set_colour (mirror t) p v.
Proof. unfold set_colour. by rewrite store_mirror, nodes_mirror. Qed.
Lemma link_parent_mirror t p v : mirror (link_parent t p v) = link_parent (mirror t) p v.
Proof. unfold link_parent. case_if; [apply set_parent_mirror|done]. Qed.
Lemma link_child_mirror t x y : mirror (link_child_left t x y) = link_child_right (mirror t) x y.
Proof.
  unfold link_child_left, link_child_right. cbn zeta. rewrite parent_mirror, right_mirror.
  repeat case_if; [apply set_left_mirror|apply set_right_mirror|done].
Qed.

Lemma rotate_left_mirror t x : mirror (rotate_left t x) = rotate_right (mirror t) x.
Proof.
  unfold rotate_left, rotate_right. cbn zeta.
  rewrite link_parent_mirror, set_left_mirror, link_child_mirror, !link_parent_mirror, set_right_mirror, left_mirror, right_mirror.
  by rewrite !parent_link_parent, !parent_set_right, !parent_set_left, !right_set_left, !left_set_right, !right_mirror, parent_mirror.
Qed.

Lemma rotate_right_mirror t x : mirror (rotate_right t x) = rotate_left (mirror t) x.
Proof. rewrite <- (mirror_mirror (rotate_left (mirror t) x)), rotate_left_mirror, mirror_mirror. done. Qed.

(** ** Shapes in the mirror *)

Lemma rootp_mirror tr : rootp (tmirror tr) = rootp tr. Proof. by destruct tr. Qed.
Lemma top_mirror k : top (kmirror k) = top k. Proof. by destruct k as [|[] k]. Qed.
Lemma addrs_mirror tr : addrs (tmirror tr) ≡ₚ addrs tr.
Proof. induction tr as [|p c l IHl d r IHr]; cbn; [done|]. rewrite IHl, IHr. constructor. apply Permutation_app_comm. Qed.
Lemma kaddrs_mirror k : kaddrs (kmirror k) ≡ₚ kaddrs k.
Proof. unfold kmirror. induction k as [|[] k IH]; cbn; [done|..]; by rewrite IH, addrs_mirror. Qed.

Lemma shape_mirror t par tr : shape t par tr -> shape (mirror t) par (tmirror tr).
Proof.
  revert par. induction tr as [|p c l IHl d r IHr]; intros par; cbn; [done|]. intros (H1 & H2 & H3).
  rewrite nodes_mirror, H1, !rootp_mirror. auto.
Qed.

Lemma kshape_mirror t k hole : kshape t k hole -> kshape (mirror t) (kmirror k) hole.
Proof.
  revert hole. induction k as [|[p c d r|p c l d] k IH]; intros hole; cbn; [done|..]; intros (H1 & H2 & H3);
    rewrite nodes_mirror, H1, !rootp_mirror; (split; [by rewrite top_mirror|]); split; auto using shape_mirror.
Qed.

Lemma zipper_mirror t k tr : zipper t k tr -> zipper (mirror t) (kmirror k) (tmirror tr).
Proof.
  intros [H1 H2 H3 H4 H5]. split.
  - by rewrite addrs_mirror, kaddrs_mirror.
  - by rewrite addrs_mirror, kaddrs_mirror.
  - rewrite top_mirror. by apply shape_mirror.
  - rewrite rootp_mirror. by apply kshape_mirror.
  - by rewrite nodes_mirror, H5.
Qed.

Lemma zipper_unmirror t k tr : zipper (mirror t) (kmirror k) (tmirror tr) -> zipper t k tr.
Proof. intros H%zipper_mirror. by rewrite mirror_mirror, kmirror_kmirror, tmirror_tmirror in H. Qed.

Lemma rotate_right_zipper t k x c a d y c' b d' e :
  zipper t k (T x c (T y c' e d' b) d a) -> zipper (rotate_right t x) k (T y c' e d' (T x c b d a)).
Proof.
  intros H%zipper_mirror. apply zipper_unmirror. rewrite rotate_right_mirror. cbn. by apply rotate_left_zipper.
Qed.
End Mirror.
End RbMirror.
