(* ===== verification/RbBalance.v ===== *)
(** The balance of red-black trees (src/lib/util/rb.c): moving through a tree,
    recolouring, and the invariant that every insertion restores. *)

From stdpp Require Import gmap.
From S2P Require Import Prelude Rb RbShape RbMirror.
Import Rb RbShape RbMirror.

Module RbBalance.

Section Balance.
Context {A : Type}.
Implicit Types (t : fr_rb_tree_t A) (tr : tree A) (k : context A).

(** ** Moving and recolouring *)

Lemma zipper_ext t t' k tr : (forall q, nodes t' q = nodes t q) -> root t' = root t -> zipper t k tr -> zipper t' k tr.
Proof.
  intros Hn Hr [H1 H2 H3 H4 H5]. split; [done|done| | |by rewrite Hn].
  - eapply shape_frame; [|exact H3]. auto.
  - eapply kshape_frame; [| |exact H4]; auto.
Qed.

Lemma zip_up_left t k p c tr d r : zipper t (FL p c d r :: k) tr <-> zipper t k (T p c tr d r).
Proof.
  assert (addrs tr ++ p :: addrs r ++ kaddrs k ≡ₚ p :: (addrs tr ++ addrs r) ++ kaddrs k) as Hp
    by (rewrite <- app_assoc; symmetry; apply Permutation_middle).
  split; intros [H1 H2 H3 H4 H5]; cbn in *; split; cbn; try done; rewrite Hp in * || rewrite <- Hp in * || idtac; tauto.
Qed.

Lemma zip_up_right t k p c l d tr : zipper t (FR p c l d :: k) tr <-> zipper t k (T p c l d tr).
Proof.
  assert (addrs tr ++ p :: addrs l ++ kaddrs k ≡ₚ p :: (addrs l ++ addrs tr) ++ kaddrs k) as Hp
    by (rewrite <- Permutation_middle, !app_assoc; constructor; f_equiv; apply Permutation_app_comm).
  split; intros [H1 H2 H3 H4 H5]; cbn in *; split; cbn; try done; rewrite Hp in * || rewrite <- Hp in * || idtac; tauto.
Qed.

Lemma up t f k tr : zipper t (f :: k) tr -> zipper t k (plug1 tr f).
Proof. destruct f; cbn; [apply zip_up_left|apply zip_up_right]. Qed.
Lemma down_left t k p c l d r : zipper t k (T p c l d r) -> zipper t (FL p c d r :: k) l.
Proof. apply zip_up_left. Qed.
Lemma down_right t k p c l d r : zipper t k (T p c l d r) -> zipper t (FR p c l d :: k) r.
Proof. apply zip_up_right. Qed.
Lemma down t f k tr : zipper t k (plug1 tr f) -> zipper t (f :: k) tr.
Proof. destruct f; cbn; [apply zip_up_left|apply zip_up_right]. Qed.

Lemma nodes_set_colour t p c q :
  nodes (set_colour t p c) q = if (q =? p)%nat then (nodes t p) <| n_colour := c |> else nodes t q.
Proof. apply nodes_store. Qed.

Lemma recolour t k p c l d r c' : zipper t k (T p c l d r) -> zipper (set_colour t p c') k (T p c' l d r).
Proof.
  intros [H1 H2 H3 H4 H5]. cbn in *. destruct H3 as (Hp & Hl & Hr).
  pose proof (valid_nil _ H2) as Hnil. pose proof H1 as Hnd. rewrite <- app_assoc in Hnd. addr_facts Hnd.
  split; cbn; try done.
  - split; [by rewrite nodes_set_colour, Nat.eqb_refl, Hp|].
    split; (eapply shape_frame; [|done]); intros q Hq; rewrite nodes_set_colour; addr_solve; solve_addr.
  - eapply kshape_frame; [| |exact H4]; [|done]. intros q Hq. rewrite nodes_set_colour. addr_solve; solve_addr.
  - rewrite nodes_set_colour. addr_solve; solve_addr.
Qed.

Definition frecolour (f : frame A) (c : fr_rb_colour_t) : frame A :=
  match f with FL p _ d r => FL p c d r | FR p _ l d => FR p c l d end.

Lemma recolour_frame t f k tr c : zipper t (f :: k) tr -> zipper (set_colour t (top [f]) c) (frecolour f c :: k) tr.
Proof. intros H%up. apply down. destruct f; cbn in *; by eapply recolour. Qed.

(** ** Reading *)

Lemma tree_cases tr : tr = E \/ tr <> E.
Proof. destruct tr; [by left|by right]. Qed.

Definition colour_of tr : fr_rb_colour_t := match tr with E => BLACK | T _ c _ _ _ => c end.
Definition kcolour k : fr_rb_colour_t := match k with [] => BLACK | FL _ c _ _ :: _ | FR _ c _ _ :: _ => c end.

Lemma shape_colour t par tr : nodes t NIL = sentinel -> shape t par tr -> colour t (rootp tr) = colour_of tr.
Proof. intros Hn. destruct tr; cbn; unfold colour; [by rewrite Hn|]. by intros (-> & _). Qed.

Lemma zip_colour t k tr : zipper t k tr -> colour t (rootp tr) = colour_of tr.
Proof. intros [_ _ H3 _ H5]. by eapply shape_colour. Qed.

Lemma zip_node t k p c l d r :
  zipper t k (T p c l d r) -> nodes t p = MkNode A (rootp l) (rootp r) (top k) (Some d) c false.
Proof. intros [_ _ H3 _ _]. apply H3. Qed.

Lemma zip_top_colour t k tr : zipper t k tr -> colour t (top k) = kcolour k.
Proof. intros [_ _ _ H4 H5]. destruct k as [|[] k]; cbn in *; unfold colour; [by rewrite H5|by destruct H4 as (-> & _)..]. Qed.

Lemma kshape_root t k hole : kshape t k hole -> root t = hole \/ root t ∈ kaddrs k.
Proof.
  revert hole. induction k as [|[p c d r|p c l d] k IH]; intros hole; cbn; [by left|..]; intros (_ & _ & H);
    apply IH in H as [-> |H]; right; [left|right; apply elem_of_app; by right|left|right; apply elem_of_app; by right].
Qed.

(** The focus is the root of the tree exactly when nothing is around it. *)
Lemma zip_root t k tr : zipper t k tr -> (rootp tr =? root t)%nat = match k with [] => true | _ => false end.
Proof.
  intros [H1 H2 _ H4 _]. destruct k as [|f k]; [cbn in H4; by rewrite H4, Nat.eqb_refl|].
  apply Nat.eqb_neq. intros Heq. apply valid_nil in H2 as Hn.
  assert (root t ∈ kaddrs (f :: k)) as Hr.
  { destruct f as [q c d r|q c l d]; cbn in H4; destruct H4 as (_ & _ & H4); apply kshape_root in H4 as [-> |H4];
      [left|right; apply elem_of_app; by right|left|right; apply elem_of_app; by right]. }
  rewrite <- Heq in Hr. addr_facts H1. destruct (rootp_cases tr) as [Ht|Ht]; [rewrite Ht in Hr|]; addr_atoms; done.
Qed.

(** ** The invariant *)

(** Every path has [n] black nodes, and no red node a red child. *)
Fixpoint rb tr (n : nat) : Prop :=
  match tr with
  | E => n = O
  | T _ RED l _ r => rb l n /\ rb r n /\ colour_of l = BLACK /\ colour_of r = BLACK
  | T _ BLACK l _ r => match n with O => False | S n => rb l n /\ rb r n end
  end.

(** A context that a subtree of black height [n] fits in. *)
Fixpoint krb k (n : nat) : Prop :=
  match k with
  | [] => True
  | FL _ RED _ r :: k => rb r n /\ colour_of r = BLACK /\ kcolour k = BLACK /\ krb k n
  | FR _ RED l _ :: k => rb l n /\ colour_of l = BLACK /\ kcolour k = BLACK /\ krb k n
  | FL _ BLACK _ r :: k => rb r n /\ krb k (S n)
  | FR _ BLACK l _ :: k => rb l n /\ krb k (S n)
  end.

(** The outermost node is black. *)
Fixpoint kroot_black k : Prop :=
  match k with [] => True | [FL _ c _ _] | [FR _ c _ _] => c = BLACK | _ :: k => kroot_black k end.

Definition rbtree tr : Prop := colour_of tr = BLACK /\ exists n, rb tr n.

(** The nodes in order. *)
Fixpoint elems tr : list (ptr * A) := match tr with E => [] | T p _ l d r => elems l ++ (p, d) :: elems r end.
Fixpoint kelems k (m : list (ptr * A)) : list (ptr * A) :=
  match k with
  | [] => m
  | FL p _ d r :: k => kelems k (m ++ (p, d) :: elems r)
  | FR p _ l d :: k => kelems k (elems l ++ (p, d) :: m)
  end.

(** *** Reaching the root *)

Lemma zip_plug t k tr : zipper t k tr <-> zipper t [] (plug k tr).
Proof.
  revert tr. induction k as [|[p c d r|p c l d] k IH]; intros tr; [done|..];
    (etransitivity; [apply zip_up_left || apply zip_up_right|apply IH]).
Qed.

Lemma to_root t k tr : zipper t k tr -> zipper t [] (plug k tr).
Proof. apply zip_plug. Qed.

Lemma elems_plug k tr : elems (plug k tr) = kelems k (elems tr).
Proof. revert tr. induction k as [|[] k IH]; intros tr; [done|..]; cbn [plug fold_left plug1]; apply (IH (T _ _ _ _ _)). Qed.

Lemma addrs_plug k tr : addrs (plug k tr) ≡ₚ addrs tr ++ kaddrs k.
Proof.
  revert tr. induction k as [|[p c d r|p c l d] k IH]; intros tr; cbn [kaddrs]; [by rewrite app_nil_r|..];
    (etransitivity; [apply (IH (T _ _ _ _ _))|]); cbn [addrs app]; rewrite <- ?app_assoc.
  - apply Permutation_middle.
  - rewrite <- Permutation_middle. constructor. rewrite !app_assoc. f_equiv. apply Permutation_app_comm.
Qed.

Lemma plug_E k tr : plug k tr = E -> tr = E.
Proof. revert tr. induction k as [|[] k IH]; intros tr; [done|..]; intros H%(IH (T _ _ _ _ _)); done. Qed.

Lemma rb_plug k tr n : rb tr n -> krb k n -> (kcolour k = RED -> colour_of tr = BLACK) -> exists m, rb (plug k tr) m.
Proof.
  revert tr n. induction k as [|[p [] d r|p [] l d] k IH]; intros tr n Ht Hk Hc; [eauto|..]; cbn in Hk; cbn [plug fold_left plug1].
  - destruct Hk as [H1 H2]. apply (IH (T _ _ _ _ _) (S n)); [done|done|done].
  - destruct Hk as (H1 & H2 & H3 & H4). apply (IH (T _ _ _ _ _) n); [cbn; auto|done|congruence].
  - destruct Hk as [H1 H2]. apply (IH (T _ _ _ _ _) (S n)); [done|done|done].
  - destruct Hk as (H1 & H2 & H3 & H4). apply (IH (T _ _ _ _ _) n); [cbn; auto|done|congruence].
Qed.

Lemma kroot_cons f k : kroot_black (f :: k) <-> match k with [] => kcolour [f] = BLACK | _ => kroot_black k end.
Proof. by destruct f, k. Qed.

Lemma colour_plug k tr : kroot_black k -> k <> [] -> colour_of (plug k tr) = BLACK.
Proof.
  revert tr. induction k as [|f k IH]; intros tr Hk Hn; [done|]. rewrite kroot_cons in Hk. cbn [plug fold_left].
  destruct k as [|f' k]; [by destruct f|]. by apply IH.
Qed.

(** *** Fields under recolouring *)

Lemma left_set_colour t p c q : left (set_colour t p c) q = left t q.
Proof. unfold left. rewrite nodes_set_colour. destruct (Nat.eqb_spec q p) as [-> |]; done. Qed.
Lemma right_set_colour t p c q : right (set_colour t p c) q = right t q.
Proof. unfold right. rewrite nodes_set_colour. destruct (Nat.eqb_spec q p) as [-> |]; done. Qed.
Lemma parent_set_colour t p c q : parent (set_colour t p c) q = parent t q.
Proof. unfold parent. rewrite nodes_set_colour. destruct (Nat.eqb_spec q p) as [-> |]; done. Qed.

Lemma rotate_left_meta t x : meta (rotate_left t x) = meta t.
Proof.
  unfold rotate_left. cbn zeta. rewrite (proj2 (link_parent_root _ _ _)). change (meta (set_left ?u _ _)) with (meta u).
  rewrite (proj2 (root_link_child_left _ _ _)), !(proj2 (link_parent_root _ _ _)). done.
Qed.

Lemma meta_mirror t : meta (mirror t) = meta t. Proof. done. Qed.

Lemma rotate_right_meta t x : meta (rotate_right t x) = meta t.
Proof. rewrite <- (meta_mirror (rotate_right t x)), rotate_right_mirror, rotate_left_meta. done. Qed.

(** *** The invariant in the mirror *)

Lemma colour_of_mirror tr : colour_of (tmirror tr) = colour_of tr. Proof. by destruct tr. Qed.
Lemma kcolour_mirror k : kcolour (kmirror k) = kcolour k. Proof. by destruct k as [|[] k]. Qed.
Lemma rb_mirror tr n : rb tr n -> rb (tmirror tr) n.
Proof.
  revert n. induction tr as [|p [] l IHl d r IHr]; intros n; cbn; [done| |].
  - destruct n; [done|]. intros []; auto.
  - rewrite !colour_of_mirror. intros (? & ? & ? & ?). auto.
Qed.
Lemma krb_mirror k n : krb k n -> krb (kmirror k) n.
Proof.
  revert n. induction k as [|[p [] d r|p [] l d] k IH]; intros n; cbn; [done|..].
  - intros []; auto using rb_mirror.
  - fold (kmirror k). rewrite colour_of_mirror, kcolour_mirror. intros (? & ? & ? & ?). auto using rb_mirror.
  - intros []; auto using rb_mirror.
  - fold (kmirror k). rewrite colour_of_mirror, kcolour_mirror. intros (? & ? & ? & ?). auto using rb_mirror.
Qed.
Lemma kroot_mirror k : kroot_black k -> kroot_black (kmirror k).
Proof.
  induction k as [|f k IH]; [done|]. rewrite kroot_cons. cbn [kmirror map]. rewrite kroot_cons. fold (kmirror k).
  destruct k as [|f' k]; [by destruct f|]. exact IH.
Qed.
Lemma elems_mirror tr : elems (tmirror tr) = reverse (elems tr).
Proof. induction tr as [|p c l IHl d r IHr]; cbn [elems tmirror]; [done|]. by rewrite reverse_app, reverse_cons, IHl, IHr, <- app_assoc. Qed.
Lemma kelems_mirror k m : kelems (kmirror k) (reverse m) = reverse (kelems k m).
Proof.
  revert m. induction k as [|[] k IH]; intros m; cbn [kmirror map fmirror kelems]; [done|..]; fold (kmirror k); rewrite <- IH; f_equal;
    by rewrite reverse_app, reverse_cons, elems_mirror, <- app_assoc.
Qed.
End Balance.
End RbBalance.
