(* ===== verification/RbSearch.v ===== *)
(** Searching red-black trees (src/lib/util/rb.c): trees that are sorted by the
    comparison of their data, and where the loops of [find_node] and
    [insert_node] end. *)

From Stdlib Require Import Sorted.
From stdpp Require Import gmap.
From S2P Require Import Prelude Rb RbShape RbMirror RbBalance.
Import Rb RbShape RbMirror RbBalance.

Module RbSearch.

(** What a comparison ([fr_cmp_t]) has to be: a strict order on the classes of
    data that compare as equal. *)
Class CmpLaws {A} (cmp : A -> A -> Z) : Prop := {
  cmp_sym : forall a b, cmp a b < 0 <-> 0 < cmp b a;
  cmp_trans : forall a b c, cmp a b < 0 -> cmp b c < 0 -> cmp a c < 0;
  cmp_equal : forall a b c, cmp a b = 0 -> Z.sgn (cmp a c) = Z.sgn (cmp b c) }.

Section Search.
Context {A : Type} (cmp : A -> A -> Z) `{!CmpLaws cmp}.
Implicit Types (t : fr_rb_tree_t A) (tr : tree A) (k : context A) (m : list (ptr * A)).

(** ** Sorted lists of nodes *)

Definition below (a b : ptr * A) : Prop := cmp (snd a) (snd b) < 0.
Definition sorted m : Prop := StronglySorted below m.

(** The node with data that is equal to [d]. *)
Definition sfind (d : A) m : option (ptr * A) := List.find (fun e => cmp d (snd e) =? 0) m.

Fixpoint sinsert (x : ptr) (d : A) m : list (ptr * A) :=
  match m with
  | [] => [(x, d)]
  | e :: m => if cmp d (snd e) <? 0 then (x, d) :: e :: m else e :: sinsert x d m
  end.

Definition sdelete (x : ptr) m : list (ptr * A) := filter (fun e => fst e <> x) m.

Definition lt_all (d : A) m : Prop := Forall (fun e => cmp d (snd e) < 0) m.
Definition gt_all (d : A) m : Prop := Forall (fun e => 0 < cmp d (snd e)) m.

Lemma sorted_app m1 m2 : sorted (m1 ++ m2) <-> sorted m1 /\ sorted m2 /\ (forall a b, a ∈ m1 -> b ∈ m2 -> below a b).
Proof.
  unfold sorted. induction m1 as [|a m1 IH]; cbn.
  - split; [intros H; split; [constructor|split; [done|]]|tauto]. intros ? ? Ha. by apply not_elem_of_nil in Ha.
  - split.
    + inversion_clear 1 as [|? ? H1 H2]. apply IH in H1 as (H3 & H4 & H5). rewrite Forall_app in H2. destruct H2 as [H2 H6].
      split; [by constructor|]. split; [done|]. intros a' b [-> |Ha]%elem_of_cons Hb; [|by apply H5].
      rewrite Forall_forall in H6. by apply H6, list_elem_of_In.
    + intros (H1 & H2 & H3). inversion_clear H1 as [|? ? H4 H5]. constructor.
      * apply IH. split_and!; try done. intros a' b Ha Hb. apply H3; [by right|done].
      * apply Forall_app. split; [done|]. rewrite Forall_forall. intros b Hb. apply H3; [left|by apply list_elem_of_In].
Qed.

Lemma sfind_app_gt d m1 m2 : gt_all d m1 -> sfind d (m1 ++ m2) = sfind d m2.
Proof. induction 1 as [|e m1 He _ IH]; cbn; [done|]. destruct (Z.eqb_spec (cmp d (snd e)) 0); [lia|done]. Qed.

Lemma sfind_lt d m : lt_all d m -> sfind d m = None.
Proof. induction 1 as [|e m He _ IH]; cbn; [done|]. destruct (Z.eqb_spec (cmp d (snd e)) 0); [lia|done]. Qed.

Lemma sinsert_app x d m1 m2 : gt_all d m1 -> lt_all d m2 -> sinsert x d (m1 ++ m2) = m1 ++ (x, d) :: m2.
Proof.
  intros H H2. induction H as [|e m1 He _ IH]; cbn.
  - destruct H2 as [|e m2 He]; cbn; [done|]. by destruct (Z.ltb_spec (cmp d (snd e)) 0); [|lia].
  - destruct (Z.ltb_spec (cmp d (snd e)) 0); [lia|]. by rewrite IH.
Qed.

Lemma sorted_insert x d m1 m2 : sorted (m1 ++ m2) -> gt_all d m1 -> lt_all d m2 -> sorted (m1 ++ (x, d) :: m2).
Proof using CmpLaws0.
  intros (H1 & H2 & H3)%sorted_app Hg Hl. apply sorted_app. split; [done|]. split; [constructor; done|].
  intros a b Ha [-> |Hb]%elem_of_cons; [|by apply H3]. unfold below. cbn. apply cmp_sym.
  unfold gt_all in Hg. rewrite Forall_forall in Hg. by apply Hg, list_elem_of_In.
Qed.

(** ** What is before and after the hole of a context *)

Fixpoint kpre k : list (ptr * A) := match k with [] => [] | FL _ _ _ _ :: k => kpre k | FR p _ l d :: k => kpre k ++ elems l ++ [(p, d)] end.
Fixpoint kpost k : list (ptr * A) := match k with [] => [] | FR _ _ _ _ :: k => kpost k | FL p _ d r :: k => (p, d) :: elems r ++ kpost k end.

Lemma kelems_split k m : kelems k m = kpre k ++ m ++ kpost k.
Proof.
  revert m. induction k as [|[p c d r|p c l d] k IH]; intros m; cbn; [by rewrite app_nil_r|..]; rewrite IH, <- !app_assoc; [done|].
  cbn. by rewrite <- ?app_assoc.
Qed.

(** ** The loops *)

Fixpoint height tr : nat := match tr with E => O | T _ _ l _ r => S (max (height l) (height r)) end.

Lemma height_elems tr : (height tr <= length (elems tr))%nat.
Proof. induction tr as [|p c l IHl d r IHr]; cbn; [lia|]. rewrite length_app. cbn. lia. Qed.

(** The path that a search for [d] takes from [tr]. *)
Fixpoint locate (d : A) k tr : context A + (ptr * A) :=
  match tr with
  | E => inl k
  | T p c l e r =>
      if cmp d e =? 0 then inr (p, e)
      else if cmp d e <? 0 then locate d (FL p c e r :: k) l else locate d (FR p c l e :: k) r
  end.

Lemma insert_search_locate fuel t d k tr :
  zipper t k tr -> (height tr <= fuel)%nat ->
  insert_search cmp fuel t d (rootp tr) (top k) =
  Some (match locate d k tr with inl k' => inr (top k') | inr (p, _) => inl p end).
Proof.
  revert fuel k. induction tr as [|p c l IHl e r IHr]; intros fuel k H Hf; [by destruct fuel|].
  pose proof (zip_node _ _ _ _ _ _ _ H) as Hn. assert (is_nil p = false) as Hp.
  { apply zip_valid in H. apply Nat.eqb_neq. intros ->. inversion_clear H. lia. }
  destruct fuel as [|fuel]; cbn in Hf; [lia|]. cbn [insert_search rootp locate]. rewrite Hp.
  unfold cmp_node, data, left, right. rewrite Hn. cbn.
  destruct (cmp d e =? 0); [done|]. destruct (cmp d e <? 0).
  - apply (IHl fuel (FL p c e r :: k)); [by apply down_left|lia].
  - apply (IHr fuel (FR p c l e :: k)); [by apply down_right|lia].
Qed.

Lemma find_search_locate fuel t d k tr :
  zipper t k tr -> (height tr <= fuel)%nat ->
  find_search cmp fuel t d (rootp tr) = Some (match locate d k tr with inl _ => NULL | inr (p, _) => p end).
Proof.
  revert fuel k. induction tr as [|p c l IHl e r IHr]; intros fuel k H Hf; [by destruct fuel|].
  pose proof (zip_node _ _ _ _ _ _ _ H) as Hn. assert (is_nil p = false) as Hp.
  { apply zip_valid in H. apply Nat.eqb_neq. intros ->. inversion_clear H. lia. }
  destruct fuel as [|fuel]; cbn in Hf; [lia|]. cbn [find_search rootp locate]. rewrite Hp.
  unfold cmp_node, data, left, right. rewrite Hn. cbn.
  destruct (cmp d e =? 0); [done|]. destruct (cmp d e <? 0).
  - apply (IHl fuel (FL p c e r :: k)); [by apply down_left|lia].
  - apply (IHr fuel (FR p c l e :: k)); [by apply down_right|lia].
Qed.


Lemma lt_all_above d p e m : cmp d e <= 0 -> (forall b, b ∈ m -> below (p, e) b) -> lt_all d m.
Proof using CmpLaws0.
  intros Hd H. apply Forall_forall. intros b Hb%list_elem_of_In. apply H in Hb. unfold below in Hb. cbn in Hb.
  destruct (Z.eq_dec (cmp d e) 0) as [Hz|]; [|apply cmp_trans with e; [lia|done]]. apply (cmp_equal _ _ (snd b)) in Hz. lia.
Qed.

Lemma gt_all_below d p e m : 0 <= cmp d e -> (forall b, b ∈ m -> below b (p, e)) -> gt_all d m.
Proof using CmpLaws0.
  intros Hd H. apply Forall_forall. intros b Hb%list_elem_of_In. apply H in Hb. unfold below in Hb. cbn in Hb.
  destruct (Z.eq_dec (cmp d e) 0) as [Hz|].
  - apply (cmp_equal _ _ (snd b)) in Hz. apply cmp_sym in Hb. lia.
  - apply cmp_sym, cmp_trans with e; [done|]. apply cmp_sym. lia.
Qed.

Lemma sorted_node k p c l e r d :
  sorted (kelems k (elems (T p c l e r))) ->
  (cmp d e <= 0 -> lt_all d (elems r)) /\ (0 <= cmp d e -> gt_all d (elems l)).
Proof using CmpLaws0.
  rewrite kelems_split. cbn. intros (_ & (H & _ & _)%sorted_app & _)%sorted_app.
  apply sorted_app in H as (_ & H1 & H2). split; intros Hd.
  - eapply lt_all_above with (p := p); [exact Hd|]. intros b Hb. inversion_clear H1 as [|? ? _ H3].
    rewrite Forall_forall in H3. by apply H3, list_elem_of_In.
  - eapply gt_all_below with (p := p); [exact Hd|]. intros b Hb. apply H2; [done|left].
Qed.

(** A search that ends in a leaf has the smaller nodes before it and the greater
    ones after it; one that ends in a node has found the only one. *)
Lemma locate_spec d k tr :
  sorted (kelems k (elems tr)) -> gt_all d (kpre k) -> lt_all d (kpost k) ->
  match locate d k tr with
  | inl k' => plug k' E = plug k tr /\ gt_all d (kpre k') /\ lt_all d (kpost k') /\ sfind d (kelems k (elems tr)) = None
  | inr (p, e) => (exists k' c l r, plug k' (T p c l e r) = plug k tr) /\ sfind d (kelems k (elems tr)) = Some (p, e)
  end.
Proof using CmpLaws0.
  revert k. induction tr as [|p c l IHl e r IHr]; intros k Hs Hg Hl; cbn [locate].
  - split_and!; try done. rewrite kelems_split. cbn. by rewrite sfind_app_gt, sfind_lt.
  - destruct (sorted_node k p c l e r d Hs) as [Hr Hle].
    destruct (Z.eqb_spec (cmp d e) 0) as [Hz|Hz]; [|destruct (Z.ltb_spec (cmp d e) 0)].
    + split; [by exists k, c, l, r|]. rewrite kelems_split. cbn.
      rewrite sfind_app_gt, <- app_assoc, sfind_app_gt by (done || (apply Hle; lia)). cbn. by rewrite Hz.
    + apply (IHl (FL p c e r :: k)); [done|done|]. cbn. constructor; [done|]. apply Forall_app. split; [apply Hr; lia|done].
    + apply (IHr (FR p c l e :: k)); [done| |done]. cbn. repeat (apply Forall_app; split); [done|apply Hle; lia|].
      constructor; [cbn; lia|constructor].
Qed.

(** ** The invariant of a tree *)

(** [t] is a red-black tree with the nodes [m], sorted, and counts them. *)
Record tree_ok t m : Prop := TreeOk {
  ok_tree : exists tr, zipper t [] tr /\ rbtree tr /\ elems tr = m;
  ok_sorted : sorted m;
  ok_count : num_elements t = Z.of_nat (length m);
  ok_bound : Z.of_nat (length m) < 2 ^ 32 }.

Lemma init_ok inline free : tree_ok (empty_tree inline free) [].
Proof.
  split; [|constructor|done|done]. exists E. split; [|split; [split; [done|by exists O]|done]].
  split; cbn; try done; constructor.
Qed.

Lemma elems_addrs tr : map fst (elems tr) ≡ₚ addrs tr.
Proof.
  induction tr as [|p c l IHl d r IHr]; cbn; [done|]. rewrite map_app. cbn. rewrite IHl, IHr. symmetry. apply Permutation_middle.
Qed.

Lemma depth_fuel_enough t m tr : tree_ok t m -> elems tr = m -> (height tr <= depth_fuel t)%nat.
Proof. intros [_ _ Hc _] <-. unfold depth_fuel. rewrite Hc, Nat2Z.id. pose proof (height_elems tr). lia. Qed.
End Search.
End RbSearch.
