(* ===== verification/RbInsert.v ===== *)
(** Insertion into red-black trees (src/lib/util/rb.c, [insert_fixup] and
    [insert_node]). *)

From stdpp Require Import gmap.
From S2P Require Import Prelude Rb RbShape RbMirror RbBalance RbSearch.
Import Rb RbShape RbMirror RbBalance RbSearch.

Module RbInsert.

Section Fixup.
Context {A : Type}.
Implicit Types (t : fr_rb_tree_t A) (tr : tree A) (k : context A).

(** ** Around the focus *)

Lemma zip_top_left t k p c tr d r :
  zipper t (FL p c d r :: k) tr -> nodes t p = MkNode A (rootp tr) (rootp r) (top k) (Some d) c false.
Proof. intros H%zip_up_left. by eapply zip_node. Qed.

Lemma zip_top_right t k p c tr d l :
  zipper t (FR p c l d :: k) tr -> nodes t p = MkNode A (rootp l) (rootp tr) (top k) (Some d) c false.
Proof. intros H%zip_up_right. by eapply zip_node. Qed.

(** Two children are at different addresses, unless both are leaves. *)
Lemma zip_siblings t k p c l d r :
  zipper t k (T p c l d r) -> l <> E \/ r <> E -> (rootp l =? rootp r)%nat = false /\ (rootp r =? rootp l)%nat = false.
Proof.
  intros [H1 H2 _ _ _] Hn. cbn in *. pose proof (valid_nil _ H2) as Hnil. rewrite <- app_assoc in *. addr_facts H1.
  rewrite !Nat.eqb_neq. enough (rootp l <> rootp r) by done. intros Heq.
  destruct Hn as [Hn%rootp_elem|Hn%rootp_elem]; [destruct (rootp_cases r)|destruct (rootp_cases l)];
    rewrite Heq in * || rewrite <- Heq in *; addr_atoms; congruence.
Qed.

Lemma zip_red t k tr : zipper t k tr -> is_red t (rootp tr) = bool_decide (colour_of tr = RED).
Proof. intros H. unfold is_red. by rewrite (zip_colour _ _ _ H). Qed.

(** The tree that is left when the node in focus may be red below a red one:
    [m] are the nodes in order, [len] the length of the way to the root. *)
Record insert_inv t (x : ptr) (m : list (ptr * A)) (len : nat) : Prop := InsertInv {
  ii_exists : exists k tr n, zipper t k tr /\ rootp tr = x /\ colour_of tr = RED /\ rb tr n /\ krb k n /\
    kroot_black k /\ kelems k (elems tr) = m /\ length k = len }.

Lemma insert_inv_mirror t x m len : insert_inv t x m len -> insert_inv (mirror t) x (reverse m) len.
Proof.
  intros [(k & tr & n & H1 & H2 & H3 & H4 & H5 & H6 & H7 & H8)]. constructor. exists (kmirror k), (tmirror tr), n.
  rewrite rootp_mirror, colour_of_mirror, elems_mirror, kelems_mirror, H7.
  split_and!; auto using zipper_mirror, rb_mirror, krb_mirror, kroot_mirror. unfold kmirror. by rewrite length_map.
Qed.

(** ** One round, where the parent is a left child *)

Ltac fields := rewrite ?parent_set_colour, ?left_set_colour, ?right_set_colour.

(** The uncle is red: it and the parent become black, the grandparent red. *)
Lemma insert_step_red t k f g dg y ul du ur x l d r :
  zipper t (f :: FL g BLACK dg (T y RED ul du ur) :: k) (T x RED l d r) ->
  exists t', insert_fixup_step t x = (t', g) /\ meta t' = meta t /\
    zipper t' k (T g RED (plug1 (T x RED l d r) (frecolour f BLACK)) dg (T y BLACK ul du ur)).
Proof.
  intros H. set (p := top [f]). pose proof (up _ _ _ _ H) as Hp. pose proof (up _ _ _ _ Hp) as Hg. cbn in Hg.
  assert (parent t x = p /\ parent t p = g /\ left t g = p /\ right t g = y) as (E1 & E2 & E3 & E4).
  { unfold parent, left, right. rewrite (zip_node _ _ _ _ _ _ _ H), (zip_node _ _ _ _ _ _ _ Hg).
    destruct f; cbn in *; by rewrite (zip_node _ _ _ _ _ _ _ Hp). }
  assert (is_red t y = true) as E5 by exact (zip_red _ _ _ (down_right _ _ _ _ _ _ _ Hg)).
  unfold insert_fixup_step. rewrite E1, E2, E3, E4, Nat.eqb_refl, E5. cbn zeta. fields. rewrite E1, E2. eexists. split; [done|]. split; [done|].
  apply recolour_frame with (c := BLACK), up, up, down_right, recolour with (c' := BLACK), up, recolour with (c' := RED) in H. done.
Qed.

(** The uncle is black: at most two rotations. *)
Lemma insert_step_outer t k p dp s g dg u x l d r :
  colour_of u = BLACK -> zipper t (FL p RED dp s :: FL g BLACK dg u :: k) (T x RED l d r) ->
  exists t', insert_fixup_step t x = (t', x) /\ meta t' = meta t /\
    zipper t' k (T p BLACK (T x RED l d r) dp (T g RED s dg u)).
Proof.
  intros Hu H. pose proof (up _ _ _ _ H) as Hp. pose proof (up _ _ _ _ Hp) as Hg. cbn in Hp, Hg.
  assert (parent t x = p /\ parent t p = g /\ left t g = p /\ right t g = rootp u /\ right t p = rootp s)
    as (E1 & E2 & E3 & E4 & E6).
  { unfold parent, left, right. rewrite (zip_node _ _ _ _ _ _ _ H), (zip_node _ _ _ _ _ _ _ Hg).
    by rewrite (zip_node _ _ _ _ _ _ _ Hp). }
  pose proof (zip_red _ _ _ (down_right _ _ _ _ _ _ _ Hg)) as E5. rewrite Hu in E5.
  destruct (zip_siblings _ _ _ _ _ _ _ Hp) as [E7 _]; [by left|]. cbn in E7.
  unfold insert_fixup_step. rewrite E1, E2, E3, E4, Nat.eqb_refl, E5, E6, E7. cbn [bool_decide]. cbn zeta.
  fields. rewrite E1, E2. eexists. split; [done|]. split; [by rewrite rotate_right_meta|].
  apply recolour_frame with (c := BLACK), up, up, recolour with (c' := RED), rotate_right_zipper in H. done.
Qed.

Lemma insert_step_inner t k p dp s g dg u x l d r :
  colour_of u = BLACK -> zipper t (FR p RED s dp :: FL g BLACK dg u :: k) (T x RED l d r) ->
  exists t', insert_fixup_step t x = (t', p) /\ meta t' = meta t /\
    zipper t' k (T x BLACK (T p RED s dp l) d (T g RED r dg u)).
Proof.
  intros Hu H. pose proof (up _ _ _ _ H) as Hp. pose proof (up _ _ _ _ Hp) as Hg. cbn in Hp, Hg.
  assert (parent t x = p /\ parent t p = g /\ left t g = p /\ right t g = rootp u /\ right t p = x)
    as (E1 & E2 & E3 & E4 & E6).
  { unfold parent, left, right. rewrite (zip_node _ _ _ _ _ _ _ H), (zip_node _ _ _ _ _ _ _ Hg).
    by rewrite (zip_node _ _ _ _ _ _ _ Hp). }
  pose proof (zip_red _ _ _ (down_right _ _ _ _ _ _ _ Hg)) as E5. rewrite Hu in E5.
  unfold insert_fixup_step. rewrite E1, E2, E3, E4, !Nat.eqb_refl, E5, E6, Nat.eqb_refl. cbn [bool_decide]. cbn zeta.
  apply rotate_left_zipper in Hp. pose proof (up _ _ _ _ Hp) as Hg'. cbn in Hg'.
  assert (parent (rotate_left t p) p = x /\ parent (rotate_left t p) x = g) as (E7 & E8).
  { unfold parent. rewrite (zip_node _ _ _ _ _ _ _ Hp), (zip_node _ _ _ _ _ _ _ (down_left _ _ _ _ _ _ _ Hp)). done. }
  fields. rewrite E7, E8. eexists. split; [done|]. split; [by rewrite rotate_right_meta; apply rotate_left_meta|].
  apply recolour with (c' := BLACK), up, recolour with (c' := RED), rotate_right_zipper in Hp. done.
Qed.

(** ** The mirror of a round *)

Definition pmirror (q : fr_rb_tree_t A * ptr) : fr_rb_tree_t A * ptr := (mirror (fst q), snd q).

Lemma is_red_mirror t p : is_red (mirror t) p = is_red t p.
Proof. unfold is_red, colour. by rewrite nodes_mirror. Qed.

Lemma insert_step_mirror t x :
  (parent t x =? left t (parent t (parent t x)))%nat = false -> (parent t x =? right t (parent t (parent t x)))%nat = true ->
  insert_fixup_step (mirror t) x = pmirror (insert_fixup_step t x).
Proof.
  intros H1 H2. unfold insert_fixup_step. rewrite !parent_mirror, !left_mirror, !right_mirror, H1, H2, is_red_mirror. cbn zeta.
  case_if; cbn [pmirror fst snd]; [|case_if; cbn [pmirror fst snd]];
    repeat (rewrite <- set_colour_mirror || rewrite parent_mirror || rewrite <- rotate_right_mirror || rewrite <- rotate_left_mirror); done.
Qed.

(** ** The loop *)

Lemma insert_step_left t f g dg u k x l d r n :
  let k' := f :: FL g BLACK dg u :: k in
  kcolour [f] = RED -> zipper t k' (T x RED l d r) -> rb (T x RED l d r) n -> krb k' n -> kroot_black k' ->
  exists t' x' len, insert_fixup_step t x = (t', x') /\ meta t' = meta t /\ (len < length k')%nat /\
    insert_inv t' x' (kelems k' (elems (T x RED l d r))) len.
Proof.
  intros k' Hf H Hx Hk Hb. assert (kroot_black k) as Hb'.
  { unfold k' in Hb. rewrite !kroot_cons in Hb. by destruct k. }
  destruct (decide (colour_of u = BLACK)) as [Hu|Hu].
  - destruct f as [p c dp s|p c s dp]; cbn in Hf; subst c; cbn in Hk, Hx; destruct Hk as (K1 & K2 & _ & K3 & K4), Hx as (X1 & X2 & X3 & X4);
      [destruct (insert_step_outer _ _ _ _ _ _ _ _ _ _ _ _ Hu H) as (t' & H1 & H2 & H3)
      |destruct (insert_step_inner _ _ _ _ _ _ _ _ _ _ _ _ Hu H) as (t' & H1 & H2 & H3)];
      (eexists t', _, (S (length k)); split; [done|]; split; [done|]; split; [cbn; lia|]; constructor;
      apply down_left in H3; eexists _, _, n; split; [exact H3|]; rewrite kroot_cons; cbn;
      split_and!; try done; try (by destruct k); f_equal; rewrite <- !app_assoc; cbn; by rewrite <- ?app_assoc).
  - destruct u as [|y [] ul du ur]; try done. destruct (insert_step_red _ _ _ _ _ _ _ _ _ _ _ _ _ H) as (t' & H1 & H2 & H3).
    exists t', g, (length k). split; [done|]. split; [done|]. split; [cbn; lia|]. constructor. eexists _, _, (S n). split; [exact H3|].
    destruct f as [p c dp s|p c s dp]; cbn in *; subst c; destruct Hk as (K1 & K2 & _ & K3 & K4); split_and!; try tauto.
Qed.

Lemma insert_step_inv t k tr n :
  zipper t k tr -> colour_of tr = RED -> rb tr n -> krb k n -> kroot_black k -> kcolour k = RED ->
  exists t' x' len, insert_fixup_step t (rootp tr) = (t', x') /\ meta t' = meta t /\ (len < length k)%nat /\
    insert_inv t' x' (kelems k (elems tr)) len.
Proof.
  destruct tr as [|x [] l d r]; try done. intros H _ Hx Hk Hb Hc. destruct k as [|f [|f2 k]]; [done|by destruct f; cbn in *; congruence|].
  assert (kcolour [f2] = BLACK) as H2 by (destruct f as [? [] ? ?|? [] ? ?], f2; cbn in *; intuition congruence).
  destruct f2 as [g c dg u|g c u dg]; cbn in H2; subst c; [eapply insert_step_left; try done; by destruct f|].
  destruct (insert_step_left (mirror t) (fmirror f) g dg (tmirror u) (kmirror k) x (tmirror r) d (tmirror l) n) as (t' & x' & len & S1 & S2 & S3 & S4);
    [by destruct f|exact (zipper_mirror _ _ _ H)|exact (rb_mirror _ _ Hx)|exact (krb_mirror _ _ Hk)|exact (kroot_mirror _ Hb)|].
  change (fmirror f :: FL g BLACK dg (tmirror u) :: kmirror k) with (kmirror (f :: FR g BLACK u dg :: k)) in S3, S4.
  change (T x RED (tmirror r) d (tmirror l)) with (tmirror (T x RED l d r)) in S4.
  apply insert_inv_mirror in S4. rewrite elems_mirror, kelems_mirror, reverse_involutive in S4. unfold kmirror in S3. rewrite length_map in S3.
  pose proof (up _ _ _ _ H) as Hp. pose proof (up _ _ _ _ Hp) as Hg. cbn in Hg.
  assert (parent t x = top [f] /\ parent t (top [f]) = g /\ left t g = rootp u /\ right t g = top [f]) as (E1 & E2 & E3 & E4).
  { unfold parent, left, right. rewrite (zip_node _ _ _ _ _ _ _ H), (zip_node _ _ _ _ _ _ _ Hg).
    destruct f; cbn in *; by rewrite (zip_node _ _ _ _ _ _ _ Hp). }
  destruct (zip_siblings _ _ _ _ _ _ _ Hg) as [_ E5]; [right; by destruct f|].
  replace (rootp (plug1 (T x RED l d r) f)) with (top [f]) in E5 by (by destruct f).
  rewrite insert_step_mirror in S1; rewrite ?E1, ?E2, ?E3, ?E4, ?Nat.eqb_refl; try done.
  unfold pmirror in S1. injection S1 as <- <-. rewrite mirror_mirror in S4.
  exists (fst (insert_fixup_step t x)), (snd (insert_fixup_step t x)), len. split; [apply surjective_pairing|].
  split; [exact S2|]. split; [exact S3|exact S4].
Qed.

Lemma insert_inv_root t x m len :
  insert_inv t x m len -> negb (x =? root t)%nat && is_red t (parent t x) = false ->
  exists tr, zipper (set_colour t (root t) BLACK) [] tr /\ rbtree tr /\ elems tr = m.
Proof.
  intros [(k & tr & n & H1 & <- & H3 & H4 & H5 & H6 & <- & _)] Hend. destruct tr as [|x [] l d r]; try done.
  assert (is_red t (top k) = bool_decide (kcolour k = RED)) as Hp by (unfold is_red; by rewrite (zip_top_colour _ _ _ H1)).
  cbn [rootp] in Hend. unfold parent in Hend. rewrite (zip_node _ _ _ _ _ _ _ H1) in Hend. cbn [n_parent rootp] in Hend.
  pose proof (zip_root _ _ _ H1) as Hroot. cbn [rootp] in Hroot. rewrite Hroot, Hp in Hend. rewrite <- elems_plug.
  destruct (rb_plug k (T x RED l d r) n) as [m Hm]; [done|done|intros Hk; rewrite Hk in Hend; by destruct k|].
  apply zip_plug in H1. destruct (plug k (T x RED l d r)) as [|p c l' d' r'] eqn:E1.
  { by apply plug_E in E1. }
  pose proof (zip_kshape _ _ _ H1) as Hr. cbn in Hr. rewrite Hr.
  exists (T p BLACK l' d' r'). split; [by eapply recolour|]. split; [|done]. split; [done|].
  destruct c; [eauto|]. exists (S m). cbn in *. tauto.
Qed.

(** [insert_fixup] ends after at most as many rounds as there are nodes above the
    new one, with a red-black tree of the same nodes in the same order. *)
Lemma insert_fixup_ok fuel t x m len :
  insert_inv t x m len -> (len <= fuel)%nat ->
  exists t' tr, insert_fixup fuel t x = Some t' /\ zipper t' [] tr /\ rbtree tr /\ elems tr = m /\ meta t' = meta t.
Proof.
  revert t x len. induction fuel as [fuel IH] using lt_wf_ind. intros t x len H Hl.
  destruct (negb (x =? root t)%nat && is_red t (parent t x)) eqn:Ec.
  - destruct H as [(k & tr & n & H1 & <- & H3 & H4 & H5 & H6 & <- & Hlen)].
    destruct tr as [|x [] l d r]; try done. cbn [rootp] in Ec. unfold parent in Ec. rewrite (zip_node _ _ _ _ _ _ _ H1) in Ec. cbn [n_parent rootp] in Ec.
    unfold is_red in Ec. rewrite (zip_top_colour _ _ _ H1), andb_true_iff, bool_decide_eq_true in Ec. destruct Ec as [Ec1 Ec2].
    destruct (insert_step_inv t k _ n H1) as (t' & x' & len' & S1 & S2 & S3 & S4); try done.
    destruct fuel as [|fuel]; [lia|]. destruct (IH fuel ltac:(lia) t' x' len' S4 ltac:(lia)) as (t2 & tr2 & F1 & F2 & F3 & F4 & F5).
    exists t2, tr2. split; [|by rewrite F5]. cbn [insert_fixup rootp].
    unfold parent, is_red. rewrite (zip_node _ _ _ _ _ _ _ H1). cbn [n_parent rootp]. cbn [rootp] in Ec1.
    rewrite Ec1, (zip_top_colour _ _ _ H1), Ec2. cbn. cbn in S1. by rewrite S1.
  - destruct (insert_inv_root _ _ _ _ H Ec) as (tr & H1 & H2 & H3). eexists _, tr.
    split; [destruct fuel; cbn [insert_fixup]; rewrite Ec; done|]. split_and!; done.
Qed.
End Fixup.

Section Insert.
Context {A : Type} (cmp : A -> A -> Z) `{!CmpLaws cmp}.
Implicit Types (t : fr_rb_tree_t A) (tr : tree A) (k : context A) (m : list (ptr * A)).

(** ** A new leaf *)

Lemma rb_unplug k tr (m : nat) :
  rb (plug k tr) m -> exists n, rb tr n /\ krb k n /\ (kcolour k = RED -> colour_of tr = BLACK).
Proof.
  revert tr m. induction k as [|[p c d r|p c l d] k IH]; intros tr m H; [by exists m|..];
    destruct (IH (T _ _ _ _ _) m H) as (n & H1 & H2 & H3); destruct c; cbn in H1;
    [destruct n; [done|]|..|destruct n; [done|]|]; exists n; cbn; intuition; destruct (kcolour k); by intuition.
Qed.

Lemma kroot_unplug k tr : colour_of (plug k tr) = BLACK -> kroot_black k.
Proof.
  revert tr. induction k as [|f k IH]; intros tr H; [done|]. rewrite kroot_cons. destruct k as [|f' k]; [by destruct f|].
  by apply IH with (plug1 tr f).
Qed.

(** [insert_node] after the search. *)
Definition link_new t (d : A) (parent_ x : ptr) : fr_rb_tree_t A :=
  let t := store t x (MkNode A NIL NIL parent_ (Some d) RED false) in
  if negb (is_nil parent_) then
    if cmp_node cmp t d parent_ <=? 0 then set_left t parent_ x else set_right t parent_ x
  else t <| root := x |>.

Lemma link_new_nodes t d k x q :
  zipper t k E -> (NIL < x)%nat -> x ∉ kaddrs k -> gt_all cmp d (kpre k) -> lt_all cmp d (kpost k) ->
  nodes (link_new t d (top k) x) q =
    (if (q =? x)%nat then MkNode A NIL NIL (top k) (Some d) RED false
     else if (q =? top k)%nat then match k with [] => nodes t q | _ => relink k (nodes t q) x end else nodes t q) /\
  root (link_new t d (top k) x) = match k with [] => x | _ => root t end /\ meta (link_new t d (top k) x) = meta t.
Proof.
  intros H Hx Hxk Hg Hl. unfold link_new. cbn zeta.
  destruct k as [|[p c e r|p c l e] k]; cbn [top].
  - change (is_nil NIL) with true. cbn [negb]. split; [|done]. change (nodes (?u <| root := x |>) q) with (nodes u q). rewrite nodes_store. by repeat case_if.
  - pose proof (zip_top_left _ _ _ _ _ _ _ H) as Hn. cbn in Hxk, Hl. apply not_elem_of_cons in Hxk as [Hxp _].
    assert (is_nil p = false) as -> by (apply zip_valid in H; cbn in H; inversion H; apply Nat.eqb_neq; lia). cbn [negb].
    unfold cmp_node, data. rewrite nodes_store. destruct (Nat.eqb_spec p x) as [|_]; [congruence|]. rewrite Hn. cbn [n_data].
    inversion Hl as [|? ? Hd _]; subst. cbn in Hd. destruct (Z.leb_spec (cmp d e) 0); [|lia]. split; [|done].
    unfold set_left. rewrite !nodes_store. solve_addr.
  - pose proof (zip_top_right _ _ _ _ _ _ _ H) as Hn. cbn in Hxk, Hg. apply not_elem_of_cons in Hxk as [Hxp _].
    assert (is_nil p = false) as -> by (apply zip_valid in H; cbn in H; inversion H; apply Nat.eqb_neq; lia). cbn [negb].
    unfold cmp_node, data. rewrite nodes_store. destruct (Nat.eqb_spec p x) as [|_]; [congruence|]. rewrite Hn. cbn [n_data].
    unfold gt_all in Hg. rewrite !Forall_app in Hg. destruct Hg as (_ & _ & Hg). inversion Hg as [|? ? Hd _]; subst. cbn in Hd.
    destruct (Z.leb_spec (cmp d e) 0); [lia|]. split; [|done]. unfold set_right. rewrite !nodes_store. solve_addr.
Qed.

Lemma link_new_zipper t d k x :
  zipper t k E -> (NIL < x)%nat -> x ∉ kaddrs k -> gt_all cmp d (kpre k) -> lt_all cmp d (kpost k) ->
  zipper (link_new t d (top k) x) k (T x RED E d E).
Proof.
  intros H Hx Hxk Hg Hl. pose proof (fun q => proj1 (link_new_nodes t d k x q H Hx Hxk Hg Hl)) as Hn.
  destruct (link_new_nodes t d k x x H Hx Hxk Hg Hl) as (_ & Hr & _). destruct H as [H1 H2 H3 H4 H5]. cbn in H1, H2, H4.
  pose proof (valid_nil _ H2) as Hnil. split; cbn.
  - by constructor.
  - by constructor.
  - by rewrite Hn, Nat.eqb_refl.
  - eapply kshape_relink; [done| | | | |exact H4].
    + intros ->. done.
    + intros Hk. rewrite Hr. by destruct k.
    + intros Hk. rewrite Hn, Nat.eqb_refl. pose proof (top_elem k Hk). destruct k; [done|]. solve_addr.
    + intros q Hq Hne. rewrite Hn. solve_addr.
  - rewrite Hn. destruct (Nat.eqb_spec NIL x); [lia|]. destruct (Nat.eqb_spec NIL (top k)) as [Hk|]; [|done].
    destruct k as [|f k]; [done|]. exfalso. apply Hnil. rewrite Hk. by apply top_elem.
Qed.

(** ** [insert_node] *)

Lemma length_context k m : (length k + length m <= length (kelems k m))%nat.
Proof.
  revert m. induction k as [|[p c d r|p c l d] k IH]; intros m; cbn; [lia|..];
    (etransitivity; [|apply IH]); rewrite length_app; cbn; lia.
Qed.

(** What operations on the nodes leave alone. *)
Definition env t := (being_freed t, inline_nodes t, has_free t, freed t).

Lemma env_meta t t' : meta t' = meta t -> env t' = env t /\ num_elements t' = num_elements t.
Proof. unfold meta, env. intros [= -> -> -> -> ->]. done. Qed.

Lemma insert_search_root t d m tr :
  tree_ok cmp t m -> zipper t [] tr -> elems tr = m ->
  insert_search cmp (depth_fuel t) t d (root t) NIL =
  Some (match locate cmp d [] tr with inl k' => inr (top k') | inr (p, _) => inl p end).
Proof using CmpLaws0.
  intros Hok H He. pose proof (zip_kshape _ _ _ H) as Hr. cbn in Hr. rewrite Hr.
  apply (insert_search_locate cmp _ t d [] tr H). by eapply depth_fuel_enough.
Qed.

Lemma insert_node_existing t d addr m p e :
  tree_ok cmp t m -> being_freed t = false -> sfind cmp d m = Some (p, e) ->
  insert_node cmp t d addr = Some (t, Existing p) /\ data t p = Some e.
Proof using CmpLaws0.
  intros Hok Hb Hf. pose proof (ok_sorted _ _ _ Hok) as Hs. destruct (ok_tree _ _ _ Hok) as (tr & H & _ & He).
  unfold insert_node. rewrite Hb, (insert_search_root _ _ _ _ Hok H He). subst m.
  pose proof (locate_spec cmp d [] tr Hs ltac:(constructor) ltac:(constructor)) as Hl.
  destruct (locate cmp d [] tr) as [k'|[p' e']]; cbn [kelems] in Hl; [intuition congruence|].
  destruct Hl as ((k' & c & l & r & Hk) & Hf'). rewrite Hf in Hf'. injection Hf' as <- <-. split; [done|].
  cbn in Hk. rewrite <- Hk in H. apply zip_plug in H. unfold data. by rewrite (zip_node _ _ _ _ _ _ _ H).
Qed.

Lemma insert_node_new t d m :
  tree_ok cmp t m -> being_freed t = false -> sfind cmp d m = None ->
  insert_node cmp t d None = Some (t, Failed) /\
  forall x, (NIL < x)%nat -> x ∉ map fst m -> Z.of_nat (length m) + 1 < 2 ^ 32 ->
  exists t', insert_node cmp t d (Some x) = Some (t', Inserted) /\ tree_ok cmp t' (sinsert cmp x d m) /\ env t' = env t.
Proof using CmpLaws0.
  intros Hok Hb Hf. pose proof (ok_sorted _ _ _ Hok) as Hs. destruct (ok_tree _ _ _ Hok) as (tr & H & (Hc & n & Hrb) & He).
  unfold insert_node. rewrite Hb, (insert_search_root _ _ _ _ Hok H He).
  subst m. pose proof (locate_spec cmp d [] tr Hs ltac:(constructor) ltac:(constructor)) as Hl.
  destruct (locate cmp d [] tr) as [k|[p' e']]; cbn [kelems] in Hl; [|intuition congruence]. split; [done|].
  intros x Hx Hxm Hlen. destruct Hl as (Hk & Hg & Hlt & _). cbn in Hk. subst tr. apply zip_plug in H.
  rewrite elems_plug in *. cbn [elems] in *. assert (x ∉ kaddrs k) as Hxk.
  { intros Hin. apply Hxm. change [] with (elems (@E A)). rewrite <- elems_plug, elems_addrs, addrs_plug. by apply elem_of_app; right. }
  pose proof (link_new_zipper t d k x H Hx Hxk Hg Hlt) as Hz.
  destruct (link_new_nodes t d k x x H Hx Hxk Hg Hlt) as (_ & _ & Hm). fold (link_new t d (top k) x).
  destruct (rb_unplug k E n Hrb) as (n' & Hn' & Hkrb & _). cbn in Hn'. subst n'.
  assert (insert_inv (link_new t d (top k) x) x (kelems k [(x, d)]) (length k)) as Hinv.
  { constructor. exists k, (T x RED E d E), O. split; [done|]. cbn. split_and!; try done. by eapply kroot_unplug. }
  apply env_meta in Hm as [Hm Hnum]. pose proof (ok_count _ _ _ Hok) as Hcount.
  destruct (insert_fixup_ok (depth_fuel (link_new t d (top k) x)) _ _ _ _ Hinv) as (t' & tr & F1 & F2 & F3 & F4 & F5).
  { unfold depth_fuel. rewrite Hnum, Hcount, Nat2Z.id. pose proof (length_context k []). cbn in *. lia. }
  rewrite F1. apply env_meta in F5 as [F5 F6]. eexists. split; [done|]. split; [|by rewrite <- Hm, <- F5].
  assert (kelems k [(x, d)] = sinsert cmp x d (kelems k [])) as Hins by (rewrite !kelems_split; cbn; by rewrite sinsert_app).
  rewrite <- Hins. split.
  - exists tr. split_and!; try done. by eapply zipper_ext; [| |exact F2].
  - rewrite kelems_split in *. by apply sorted_insert.
  - change (num_elements (?u <| num_elements := ?v |>)) with v. rewrite F6, Hnum, Hcount, !kelems_split, !length_app. cbn.
    rewrite kelems_split, length_app in Hlen. cbn in Hlen. unfold u32. rewrite Z.mod_small; lia.
  - rewrite kelems_split, length_app in *. cbn in *. lia.
Qed.
End Insert.
End RbInsert.
