(* ===== verification/RbDelete.v ===== *)
(** Deletion from red-black trees (src/lib/util/rb.c): [delete_fixup] restores the
    balance after a black node was taken out. *)

From stdpp Require Import gmap.
From S2P Require Import Prelude Rb RbShape RbMirror RbBalance RbSearch RbInsert.
Import Rb RbShape RbMirror RbBalance RbSearch RbInsert.

Module RbDelete.

Section Fixup.
Context {A : Type}.
Implicit Types (t : fr_rb_tree_t A) (tr : tree A) (k : context A).

(** A tree that has black height [n], or [n + 1] when its root becomes black. *)
Definition rb_short tr (n : nat) : Prop := match tr with T _ RED l _ r => rb l n /\ rb r n | _ => rb tr n end.

(** The tree that lacks a black node on the paths through the focus; [len] bounds
    the way to the root where the focus is black. *)
Definition delete_inv t (x par : ptr) (m : list (ptr * A)) (len : nat) : Prop :=
  exists k tr n, zipper t k tr /\ rootp tr = x /\ (k = [] \/ top k = par) /\ rb_short tr n /\ krb k (S n) /\
    kroot_black k /\ kelems k (elems tr) = m /\ (colour_of tr = RED \/ length k <= len)%nat.

Lemma delete_inv_mirror t x par m len : delete_inv t x par m len -> delete_inv (mirror t) x par (reverse m) len.
Proof.
  intros (k & tr & n & H1 & H2 & H3 & H4 & H5 & H6 & H7 & H8). exists (kmirror k), (tmirror tr), n.
  rewrite rootp_mirror, colour_of_mirror, elems_mirror, kelems_mirror, top_mirror, H7.
  split_and!; auto using zipper_mirror, krb_mirror, kroot_mirror.
  - destruct H3 as [-> |]; auto.
  - destruct tr as [|p [] l d r]; [done|apply (rb_mirror (T p BLACK l d r) n H4)|]. cbn in *. destruct H4. auto using rb_mirror.
  - unfold kmirror. by rewrite length_map.
Qed.

(** ** One round, where the focus is a left child *)

(** The sibling is red: it is rotated above the parent. *)
Definition delete_sibling t (par w : ptr) : fr_rb_tree_t A * ptr :=
  if is_red t w then
    let t := set_colour t w BLACK in
    let t := set_colour t par RED in
    let t := rotate_left t par in
    (t, right t par)
  else (t, w).

Definition delete_near t (par w : ptr) : fr_rb_tree_t A * ptr :=
  if negb (is_red t (right t w)) then
    let t := if negb (is_nil (left t w)) then set_colour t (left t w) BLACK else t in
    let t := set_colour t w RED in
    let t := rotate_right t w in
    (t, right t par)
  else (t, w).

Definition delete_far t (par w : ptr) : fr_rb_tree_t A * ptr * ptr :=
  let t := set_colour t w (colour t par) in
  let t := if negb (is_nil par) then set_colour t par BLACK else t in
  let t := if is_red t (right t w) then set_colour t (right t w) BLACK else t in
  let t := rotate_left t par in
  (t, root t, par).

Definition delete_black t (par w : ptr) : fr_rb_tree_t A * ptr * ptr :=
  if negb (is_red t (left t w)) && negb (is_red t (right t w)) then
    let t := if negb (is_nil w) then set_colour t w RED else t in
    (t, par, parent t par)
  else let '(t, w) := delete_near t par w in delete_far t par w.

Lemma delete_fixup_step_left t x par :
  (x =? left t par)%nat = true ->
  delete_fixup_step t x par = let '(t, w) := delete_sibling t par (right t par) in delete_black t par w.
Proof. intros H. unfold delete_fixup_step. rewrite H. done. Qed.

Lemma zip_nil_false t k p c l d r : zipper t k (T p c l d r) -> is_nil p = false.
Proof. intros H%zip_valid. inversion H. apply Nat.eqb_neq. lia. Qed.

Lemma delete_far_zipper t k p c d tr wp wl wd q a e b :
  zipper t k (T p c tr d (T wp BLACK wl wd (T q RED a e b))) ->
  exists t', delete_far t p wp = (t', root t', p) /\ meta t' = meta t /\
    zipper t' k (T wp c (T p BLACK tr d wl) wd (T q BLACK a e b)).
Proof.
  intros H. pose proof (down_right _ _ _ _ _ _ _ H) as Hw. pose proof (down_right _ _ _ _ _ _ _ Hw) as Hq.
  assert (right t wp = q) as E1 by (unfold right; by rewrite (zip_node _ _ _ _ _ _ _ Hw)).
  assert (colour t p = c) as E2 by (unfold colour; by rewrite (zip_node _ _ _ _ _ _ _ H)).
  unfold delete_far. cbn zeta. rewrite (zip_nil_false _ _ _ _ _ _ _ H). cbn [negb].
  rewrite !right_set_colour, E1, E2.
  apply recolour with (c' := c), up, recolour with (c' := BLACK), down_right, down_right in Hw.
  assert (is_red (set_colour (set_colour t wp c) p BLACK) q = true) as E3 by exact (zip_red _ _ _ Hw). rewrite E3.
  apply recolour with (c' := BLACK), up, up, rotate_left_zipper in Hw. cbn in Hw.
  eexists. split; [done|]. split; [by rewrite rotate_left_meta|done].
Qed.

Lemma delete_near_zipper t k p c d tr wp q a e b wd wr :
  colour_of wr = BLACK -> zipper t k (T p c tr d (T wp BLACK (T q RED a e b) wd wr)) ->
  exists t', delete_near t p wp = (t', q) /\ meta t' = meta t /\
    zipper t' k (T p c tr d (T q BLACK a e (T wp RED b wd wr))).
Proof.
  intros Hwr H. pose proof (down_right _ _ _ _ _ _ _ H) as Hw. pose proof (down_left _ _ _ _ _ _ _ Hw) as Hq.
  assert (right t wp = rootp wr /\ left t wp = q) as [E1 E2] by (unfold left, right; by rewrite (zip_node _ _ _ _ _ _ _ Hw)).
  pose proof (zip_red _ _ _ (down_right _ _ _ _ _ _ _ Hw)) as E3. rewrite Hwr in E3. cbn in E3.
  unfold delete_near. rewrite E1, E3, E2, (zip_nil_false _ _ _ _ _ _ _ Hq). cbn [negb bool_decide]. cbn zeta.
  apply recolour with (c' := BLACK), up, recolour with (c' := RED), rotate_right_zipper in Hq.
  pose proof (up _ _ _ _ Hq) as Hp. cbn in Hp. unfold right at 1. rewrite (zip_node _ _ _ _ _ _ _ Hp). cbn [n_right rootp].
  eexists. split; [done|]. split; [by rewrite rotate_right_meta|done].
Qed.

Lemma kroot_tail (f : frame A) k : kroot_black (f :: k) -> kroot_black k.
Proof. rewrite kroot_cons. by destruct k. Qed.

Lemma rb_is_short tr n : rb tr n -> rb_short tr n.
Proof. destruct tr as [|p [] l d r]; cbn; tauto. Qed.

(** A tree that is in order again ends the loop. *)
Lemma delete_inv_done t k tr n par m :
  zipper t k tr -> rb tr n -> krb k n -> (kcolour k = RED -> colour_of tr = BLACK) -> kelems k (elems tr) = m ->
  delete_inv t (root t) par m 0.
Proof.
  intros H Hr Hk Hc <-. destruct (rb_plug k tr n Hr Hk Hc) as [h Hh]. apply zip_plug in H.
  exists [], (plug k tr), h. pose proof (zip_kshape _ _ _ H) as Hroot. cbn in Hroot.
  split_and!; try done; [by left|by apply rb_is_short|by rewrite elems_plug|right; cbn; lia].
Qed.

Definition left_over (c : fr_rb_colour_t) k : nat := match c with RED => O | BLACK => length k end.

(** The children of the sibling are black: the sibling becomes red. *)
Lemma delete_black_up t k p c d tr wp wl wd wr n :
  colour_of wl = BLACK -> colour_of wr = BLACK -> rb tr n ->
  let k' := FL p c d (T wp BLACK wl wd wr) :: k in
  krb k' (S n) -> kroot_black k' -> zipper t k' tr ->
  exists t', delete_black t p wp = (t', p, parent t p) /\ meta t' = meta t /\
    delete_inv t' p (parent t p) (kelems k' (elems tr)) (left_over c k).
Proof.
  intros Hl Hr Ht k' Hk Hb H. pose proof (up _ _ _ _ H) as Hp. cbn in Hp. pose proof (down_right _ _ _ _ _ _ _ Hp) as Hw.
  assert (left t wp = rootp wl /\ right t wp = rootp wr) as [E1 E2] by (unfold left, right; by rewrite (zip_node _ _ _ _ _ _ _ Hw)).
  pose proof (zip_red _ _ _ (down_left _ _ _ _ _ _ _ Hw)) as E3. pose proof (zip_red _ _ _ (down_right _ _ _ _ _ _ _ Hw)) as E4.
  rewrite Hl in E3. rewrite Hr in E4. unfold delete_black. rewrite E1, E2, E3, E4, (zip_nil_false _ _ _ _ _ _ _ Hw).
  cbn [bool_decide negb andb]. cbn. eexists. split; [by rewrite parent_set_colour|]. split; [done|].
  assert (parent t p = top k) as E5 by (unfold parent; by rewrite (zip_node _ _ _ _ _ _ _ Hp)).
  apply recolour with (c' := RED), up in Hw. cbn in Hw. eexists k, _. unfold k' in *. destruct c; cbn in Hk.
  - exists (S n). split; [exact Hw|]. cbn. split_and!; try tauto; [by right|by eapply kroot_tail|right; lia].
  - exists n. split; [exact Hw|]. cbn. split_and!; try tauto; [by right|by eapply kroot_tail].
Qed.

Lemma delete_far_inv t k p c d tr wp wl wd q a e b n :
  zipper t k (T p c tr d (T wp BLACK wl wd (T q RED a e b))) ->
  rb tr n -> rb wl n -> rb (T q RED a e b) n ->
  match c with RED => kcolour k = BLACK /\ krb k (S n) | BLACK => krb k (S (S n)) end ->
  exists t', delete_far t p wp = (t', root t', p) /\ meta t' = meta t /\
    delete_inv t' (root t') p (kelems k (elems tr ++ (p, d) :: elems wl ++ (wp, wd) :: elems (T q RED a e b))) 0.
Proof.
  intros H Ht Hwl (Ha & Hb & _ & _) Hk. destruct (delete_far_zipper _ _ _ _ _ _ _ _ _ _ _ _ _ H) as (t' & H1 & H2 & H3).
  exists t'. split; [done|]. split; [done|]. eapply delete_inv_done with (n := match c with RED => S n | BLACK => S (S n) end); [exact H3|..].
  - destruct c; cbn; tauto.
  - destruct c; cbn; tauto.
  - destruct c; cbn; [done|]. intros. destruct Hk. congruence.
  - cbn. by rewrite <- app_assoc.
Qed.

Lemma delete_inv_weaken t x par m len len' : (len <= len')%nat -> delete_inv t x par m len -> delete_inv t x par m len'.
Proof.
  intros Hl (k & tr & n & H1 & H2 & H3 & H4 & H5 & H6 & H7 & H8). exists k, tr, n. split_and!; try done.
  destruct H8; [by left|right; lia].
Qed.

Lemma delete_black_inv t k p c d w tr n :
  colour_of w = BLACK -> rb tr n -> let k' := FL p c d w :: k in
  krb k' (S n) -> kroot_black k' -> zipper t k' tr ->
  exists t' x' par', delete_black t p (rootp w) = (t', x', par') /\ meta t' = meta t /\
    delete_inv t' x' par' (kelems k' (elems tr)) (left_over c k).
Proof.
  intros Hwc Ht k' Hk Hb H. assert (rb w (S n)) as Hw by (destruct c; cbn in Hk; tauto).
  destruct w as [|wp [] wl wd wr]; try done. destruct Hw as [Hwl Hwr].
  destruct (decide (colour_of wl = BLACK /\ colour_of wr = BLACK)) as [[Hl Hr]|Hlr].
  { destruct (delete_black_up t k p c d tr wp wl wd wr n Hl Hr Ht Hk Hb H) as (t' & H1 & H2 & H3). by exists t', p, (parent t p). }
  assert (match c with RED => kcolour k = BLACK /\ krb k (S n) | BLACK => krb k (S (S n)) end) as Hkc by (destruct c; cbn in Hk; tauto).
  pose proof (up _ _ _ _ H) as Hp. cbn in Hp. pose proof (down_right _ _ _ _ _ _ _ Hp) as Hw.
  assert (left t wp = rootp wl /\ right t wp = rootp wr) as [E1 E2] by (unfold left, right; by rewrite (zip_node _ _ _ _ _ _ _ Hw)).
  pose proof (zip_red _ _ _ (down_left _ _ _ _ _ _ _ Hw)) as E3. pose proof (zip_red _ _ _ (down_right _ _ _ _ _ _ _ Hw)) as E4.
  unfold delete_black. cbn [rootp]. rewrite E1, E2, E3, E4. destruct (decide (colour_of wr = BLACK)) as [Hr|Hr].
  - destruct wl as [|q [] a e b]; [naive_solver..|]. rewrite Hr. cbn [bool_decide colour_of negb andb].
    destruct (delete_near_zipper _ _ _ _ _ _ _ _ _ _ _ _ _ Hr Hp) as (t1 & N1 & N2 & N3). rewrite N1. destruct Hwl as (Ha & Hb' & _ & Hbc).
    destruct (delete_far_inv _ _ _ _ _ _ _ _ _ _ _ _ _ n N3) as (t2 & F1 & F2 & F3); [done|done|cbn; tauto|done|].
    exists t2, (root t2), p. split; [done|]. split; [congruence|]. eapply delete_inv_weaken with O; [lia|].
    unfold k'. cbn in *. rewrite <- app_assoc. exact F3.
  - destruct wr as [|q [] a e b]; try done. rewrite andb_false_r. cbn [colour_of bool_decide negb andb]. unfold delete_near. rewrite E2, E4.
    cbn [colour_of bool_decide negb].
    destruct (delete_far_inv _ _ _ _ _ _ _ _ _ _ _ _ _ n Hp) as (t2 & F1 & F2 & F3); [done..|].
    exists t2, (root t2), p. split; [done|]. split; [done|]. eapply delete_inv_weaken with O; [lia|]. exact F3.
Qed.

Lemma delete_step_left t k p c d w tr n :
  rb tr n -> let k' := FL p c d w :: k in krb k' (S n) -> kroot_black k' -> zipper t k' tr ->
  exists t' x' par' len, delete_fixup_step t (rootp tr) p = (t', x', par') /\ meta t' = meta t /\ (len < length k')%nat /\
    delete_inv t' x' par' (kelems k' (elems tr)) len.
Proof.
  intros Ht k' Hk Hb H. pose proof (up _ _ _ _ H) as Hp. cbn in Hp. pose proof (down_right _ _ _ _ _ _ _ Hp) as Hw.
  assert (left t p = rootp tr /\ right t p = rootp w) as [E1 E2] by (unfold left, right; by rewrite (zip_node _ _ _ _ _ _ _ Hp)).
  rewrite delete_fixup_step_left by (rewrite E1; apply Nat.eqb_refl). rewrite E2. unfold delete_sibling. rewrite (zip_red _ _ _ Hw).
  destruct (decide (colour_of w = BLACK)) as [Hwc|Hwc].
  - rewrite bool_decide_eq_false_2 by congruence. destruct (delete_black_inv t k p c d w tr n Hwc Ht Hk Hb H) as (t' & x' & par' & S1 & S2 & S3).
    exists t', x', par', (left_over c k). rewrite S1. split_and!; try done. unfold left_over. cbn. destruct c; lia.
  - destruct w as [|wp [] wl wd wr]; try done. cbn [colour_of bool_decide]. unfold k' in *. cbn [rootp] in *.
    destruct c; [|by destruct Hk as (_ & Hk & _)]. cbn in Hk. destruct Hk as ((Hwl & Hwr & Hlc & Hrc) & Hk).
    apply recolour with (c' := BLACK), up, recolour with (c' := RED), rotate_left_zipper in Hw.
    pose proof (down_left _ _ _ _ _ _ _ Hw) as Hp'. cbn zeta. unfold right at 1.
    rewrite (zip_node _ _ _ _ _ _ _ Hp'). cbn [n_right]. apply down_left in Hp'.
    assert (kroot_black (FL p RED d wl :: FL wp BLACK wd wr :: k)) as Hb' by (apply kroot_tail in Hb; rewrite !kroot_cons; by destruct k).
    edestruct (fun H1 => delete_black_inv _ _ p RED d wl tr n Hlc Ht H1 Hb' Hp') as (t' & x' & par' & S1 & S2 & S3); [cbn; tauto|].
    exists t', x', par', O. split; [exact S1|]. split; [by rewrite S2, rotate_left_meta|]. split; [cbn; lia|].
    cbn in *. by rewrite <- app_assoc in S3.
Qed.

(** ** The mirror of a round, and the loop *)

Definition pmirror3 (q : fr_rb_tree_t A * ptr * ptr) : fr_rb_tree_t A * ptr * ptr := (mirror (fst (fst q)), snd (fst q), snd q).

Ltac pull := repeat (rewrite <- set_colour_mirror || rewrite parent_mirror || rewrite left_mirror || rewrite right_mirror ||
  rewrite is_red_mirror || rewrite colour_mirror || rewrite <- rotate_right_mirror || rewrite <- rotate_left_mirror).

(** The other half of [delete_fixup_step]. *)
Definition delete_sibling' t (par w : ptr) : fr_rb_tree_t A * ptr :=
  if is_red t w then
    let t := set_colour t w BLACK in
    let t := set_colour t par RED in
    let t := rotate_right t par in
    (t, left t par)
  else (t, w).

Definition delete_near' t (par w : ptr) : fr_rb_tree_t A * ptr :=
  if negb (is_red t (left t w)) then
    let t := if negb (is_nil (right t w)) then set_colour t (right t w) BLACK else t in
    let t := set_colour t w RED in
    let t := rotate_left t w in
    (t, left t par)
  else (t, w).

Definition delete_far' t (par w : ptr) : fr_rb_tree_t A * ptr * ptr :=
  let t := set_colour t w (colour t par) in
  let t := if negb (is_nil par) then set_colour t par BLACK else t in
  let t := if is_red t (left t w) then set_colour t (left t w) BLACK else t in
  let t := rotate_right t par in
  (t, root t, par).

Definition delete_black' t (par w : ptr) : fr_rb_tree_t A * ptr * ptr :=
  if negb (is_red t (right t w)) && negb (is_red t (left t w)) then
    let t := if negb (is_nil w) then set_colour t w RED else t in
    (t, par, parent t par)
  else let '(t, w) := delete_near' t par w in delete_far' t par w.

Lemma delete_fixup_step_right t x par :
  (x =? left t par)%nat = false ->
  delete_fixup_step t x par = let '(t, w) := delete_sibling' t par (left t par) in delete_black' t par w.
Proof. intros H. unfold delete_fixup_step. rewrite H. done. Qed.

Lemma delete_sibling_mirror t par w : delete_sibling (mirror t) par w = pmirror (delete_sibling' t par w).
Proof. unfold delete_sibling, delete_sibling'. pull. case_if; [|done]. cbn zeta. pull. done. Qed.

Lemma delete_near_mirror t par w : delete_near (mirror t) par w = pmirror (delete_near' t par w).
Proof. unfold delete_near, delete_near'. pull. case_if; [|done]. cbn zeta. pull. case_if; pull; done. Qed.

Lemma delete_far_mirror t par w : delete_far (mirror t) par w = pmirror3 (delete_far' t par w).
Proof. unfold delete_far, delete_far'. cbn zeta. destruct (negb (is_nil par)); pull; case_if; pull; done. Qed.

Lemma delete_black_mirror t par w : delete_black (mirror t) par w = pmirror3 (delete_black' t par w).
Proof.
  unfold delete_black, delete_black'. pull. case_if; [case_if; cbn zeta; pull; done|].
  rewrite delete_near_mirror. destruct (delete_near' t par w) as [t1 w1]. apply delete_far_mirror.
Qed.

Lemma delete_step_mirror t x par :
  (x =? left t par)%nat = false -> (x =? right t par)%nat = true ->
  delete_fixup_step (mirror t) x par = pmirror3 (delete_fixup_step t x par).
Proof.
  intros H1 H2. rewrite (delete_fixup_step_right t), (delete_fixup_step_left (mirror t)) by (rewrite ?left_mirror; done).
  rewrite right_mirror, delete_sibling_mirror. destruct (delete_sibling' t par (left t par)) as [t1 w1]. apply delete_black_mirror.
Qed.

Lemma delete_step_inv t k tr n :
  rb tr n -> krb k (S n) -> kroot_black k -> zipper t k tr -> k <> [] ->
  exists t' x' par' len, delete_fixup_step t (rootp tr) (top k) = (t', x', par') /\ meta t' = meta t /\ (len < length k)%nat /\
    delete_inv t' x' par' (kelems k (elems tr)) len.
Proof.
  intros Ht Hk Hb H Hn. destruct k as [|[p c d w|p c w d] k]; [done|by eapply delete_step_left|].
  destruct (delete_step_left (mirror t) (kmirror k) p c d (tmirror w) (tmirror tr) n) as (t' & x' & par' & len & S1 & S2 & S3 & S4);
    [by apply rb_mirror|exact (krb_mirror _ _ Hk)|exact (kroot_mirror _ Hb)|exact (zipper_mirror _ _ _ H)|].
  change (FL p c d (tmirror w) :: kmirror k) with (kmirror (FR p c w d :: k)) in S3, S4.
  apply delete_inv_mirror in S4. rewrite elems_mirror, kelems_mirror, reverse_involutive in S4. unfold kmirror in S3. rewrite length_map in S3.
  pose proof (up _ _ _ _ H) as Hp. cbn in Hp.
  assert (left t p = rootp w /\ right t p = rootp tr) as [E1 E2] by (unfold left, right; by rewrite (zip_node _ _ _ _ _ _ _ Hp)).
  destruct (zip_siblings _ _ _ _ _ _ _ Hp) as [_ E3]; [left; destruct w; [destruct c; by destruct Hk|done]|].
  rewrite rootp_mirror, delete_step_mirror in S1 by (rewrite ?E1, ?E2, ?Nat.eqb_refl; done).
  unfold pmirror3 in S1. injection S1 as <- <- <-. rewrite mirror_mirror in S4.
  exists (fst (fst (delete_fixup_step t (rootp tr) p))), (snd (fst (delete_fixup_step t (rootp tr) p))), (snd (delete_fixup_step t (rootp tr) p)), len.
  split; [cbn [top]; by destruct (delete_fixup_step t (rootp tr) p) as [[? ?] ?]|]. split; [exact S2|]. split; [exact S3|exact S4].
Qed.

Definition blacken tr : tree A := match tr with E => E | T p _ l d r => T p BLACK l d r end.

Lemma blacken_zipper t k tr : zipper t k tr ->
  zipper (if negb (is_nil (rootp tr)) then set_colour t (rootp tr) BLACK else t) k (blacken tr).
Proof. destruct tr as [|p c l d r]; intros H; [done|]. cbn [rootp blacken]. rewrite (zip_nil_false _ _ _ _ _ _ _ H). by eapply recolour. Qed.

(** The loop ends with a red-black tree of the same nodes. *)
Lemma delete_fixup_ok fuel t x par m len :
  delete_inv t x par m len -> (len <= fuel)%nat ->
  exists t' tr, delete_fixup fuel t x par = Some t' /\ zipper t' [] tr /\ rbtree tr /\ elems tr = m /\ meta t' = meta t.
Proof.
  revert t x par len. induction fuel as [fuel IH] using lt_wf_ind.
  intros t x par len (k & tr & n & H1 & <- & H3 & H4 & H5 & H6 & <- & H8) Hl.
  destruct (negb (rootp tr =? root t)%nat && negb (is_red t (rootp tr))) eqn:Ec.
  - pose proof Ec as Ec'. rewrite (zip_root _ _ _ H1), (zip_red _ _ _ H1), andb_true_iff, !negb_true_iff, bool_decide_eq_false in Ec'.
    destruct Ec' as [Hk Hc]. assert (k <> []) as Hk' by (by destruct k). destruct H3 as [|<-]; [done|]. destruct H8 as [|H8]; [done|].
    destruct (delete_step_inv t k tr n) as (t' & x' & par' & len' & S1 & S2 & S3 & S4); try done; [by destruct tr as [|? [] ? ? ?]|].
    destruct fuel as [|fuel]; [lia|]. destruct (IH fuel ltac:(lia) t' x' par' len' S4 ltac:(lia)) as (t2 & tr2 & F1 & F2 & F3 & F4 & F5).
    exists t2, tr2. split; [|by rewrite F5]. cbn [delete_fixup]. rewrite Ec, S1. done.
  - eexists _, (plug k (blacken tr)). split; [destruct fuel; cbn [delete_fixup]; rewrite Ec; done|].
    split; [apply to_root, blacken_zipper, H1|]. split; [|split; [rewrite elems_plug; by destruct tr|by case_if]].
    rewrite (zip_root _ _ _ H1), (zip_red _ _ _ H1) in Ec. destruct k as [|f k].
    + split; [by destruct tr as [|p [] l d r]|]. destruct tr as [|p [] l d r]; cbn in *; [by exists n|by exists n|by exists (S n)].
    + cbn in Ec. apply negb_false_iff, bool_decide_eq_true in Ec. destruct tr as [|p [] l d r]; try done.
      split; [by apply colour_plug|]. by eapply rb_plug with (n := S n).
Qed.

(** ** What the loop leaves alone *)

Definition payload t (q : ptr) := (n_data (nodes t q), n_being_freed (nodes t q)).

Lemma payload_rest t t' q : rest t' q = rest t q -> payload t' q = payload t q.
Proof. unfold rest, payload. congruence. Qed.

Lemma payload_set_colour t p c q : payload (set_colour t p c) q = payload t q.
Proof. unfold payload. rewrite nodes_set_colour. destruct (Nat.eqb_spec q p) as [-> |]; done. Qed.

Lemma payload_rotate_left t x q : payload (rotate_left t x) q = payload t q.
Proof.
  apply payload_rest. unfold rotate_left. cbn zeta.
  by rewrite !rest_link_parent, rest_set_left, rest_link_child_left, !rest_link_parent, rest_set_right.
Qed.

Lemma payload_mirror t q : payload (mirror t) q = payload t q.
Proof. unfold payload. by rewrite nodes_mirror. Qed.

Lemma payload_rotate_right t x q : payload (rotate_right t x) q = payload t q.
Proof. by rewrite <- (payload_mirror (rotate_right t x)), rotate_right_mirror, payload_rotate_left, payload_mirror. Qed.

Ltac payload := repeat (rewrite payload_set_colour || rewrite payload_rotate_left || rewrite payload_rotate_right).

Lemma payload_delete_step t x par q : payload (fst (fst (delete_fixup_step t x par))) q = payload t q.
Proof.
  destruct (x =? left t par)%nat eqn:E1; [rewrite delete_fixup_step_left by done|rewrite delete_fixup_step_right by done].
  - destruct (delete_sibling t par (right t par)) as [t1 w] eqn:E2. unfold delete_sibling in E2.
    transitivity (payload t1 q); [|by repeat case_match; simplify_eq; payload]. unfold delete_black. case_if; [by case_if; cbn; payload|].
    destruct (delete_near t1 par w) as [t2 w'] eqn:E3. unfold delete_near in E3.
    transitivity (payload t2 q); [|by repeat case_match; simplify_eq; payload]. unfold delete_far. cbn. by repeat case_if; payload.
  - destruct (delete_sibling' t par (left t par)) as [t1 w] eqn:E2. unfold delete_sibling' in E2.
    transitivity (payload t1 q); [|by repeat case_match; simplify_eq; payload]. unfold delete_black'. case_if; [by case_if; cbn; payload|].
    destruct (delete_near' t1 par w) as [t2 w'] eqn:E3. unfold delete_near' in E3.
    transitivity (payload t2 q); [|by repeat case_match; simplify_eq; payload]. unfold delete_far'. cbn. by repeat case_if; payload.
Qed.

Lemma payload_delete_fixup fuel t x par t' q : delete_fixup fuel t x par = Some t' -> payload t' q = payload t q.
Proof.
  revert t x par. induction fuel as [|fuel IH]; intros t x par; cbn [delete_fixup]; case_if; try done.
  - intros [= <-]. by case_if; payload.
  - pose proof (payload_delete_step t x par q) as Hs. destruct (delete_fixup_step t x par) as [[t1 x1] par1]. intros Hf.
    by rewrite (IH _ _ _ Hf).
  - intros [= <-]. by case_if; payload.
Qed.
End Fixup.
End RbDelete.
