(* ===== verification/RbSplice.v ===== *)
(** Deletion from red-black trees (src/lib/util/rb.c): taking a node out of the
    memory, putting one in the place of another, and [delete_internal]. *)

From Stdlib Require Import Sorted.
From stdpp Require Import gmap.
From S2P Require Import Prelude Rb RbShape RbMirror RbBalance RbSearch RbInsert RbDelete.
Import Rb RbShape RbMirror RbBalance RbSearch RbInsert RbDelete.

Module RbSplice.

Section Splice.
Context {A : Type}.
Implicit Types (t : fr_rb_tree_t A) (tr : tree A) (k : context A).

(** ** Taking a node out *)

(** [x], the only child of [y], gets its place below [par]. *)
Definition splice t (y x par : ptr) : fr_rb_tree_t A :=
  let t := if negb (is_nil x) then set_parent t x par else t in
  if negb (is_nil par) then if (y =? left t par)%nat then set_left t par x else set_right t par x
  else t <| root := x |>.

Lemma rest_splice t y x par q : rest (splice t y x par) q = rest t q.
Proof.
  unfold splice. cbn zeta. repeat case_if; rewrite ?rest_set_left, ?rest_set_right; try (by rewrite rest_set_parent); try done;
    change (rest (?u <| root := x |>) q) with (rest u q); by rewrite ?rest_set_parent.
Qed.

Lemma splice_meta t y x par : meta (splice t y x par) = meta t.
Proof. unfold splice. cbn zeta. by repeat case_if. Qed.

Lemma splice_nodes t k y c l d r s q :
  zipper t k (T y c l d r) -> (l = E /\ s = r \/ r = E /\ s = l) ->
  nodes (splice t y (rootp s) (top k)) q =
    (if (q =? top k)%nat && negb (is_nil (top k)) then relink k (nodes t (top k)) (rootp s)
     else if (q =? rootp s)%nat && negb (is_nil (rootp s)) then (nodes t (rootp s)) <| n_parent := top k |> else nodes t q) /\
  root (splice t y (rootp s) (top k)) = match k with [] => rootp s | _ => root t end.
Proof.
  intros [H1 H2 H3 H4 H5] Hs. cbn in *.
  assert (addrs l ++ addrs r = addrs s) as Ha by (destruct Hs as [[-> ->]|[-> ->]]; cbn; by rewrite ?app_nil_r).
  rewrite Ha in *. pose proof (valid_nil _ H2) as Hnil. pose proof (rootp_cases s) as Cs. addr_facts H1.
  unfold splice. cbn zeta. destruct k as [|f k].
  - cbn [top]. change (is_nil NIL) with true. cbn [negb]. rewrite andb_false_r. split; [|by case_if].
    change (nodes (?u <| root := ?v |>) q) with (nodes u q). destruct (is_nil (rootp s)); cbn [negb]; [by rewrite andb_false_r|].
    rewrite andb_true_r. apply nodes_store.
  - pose proof (top_elem (f :: k) ltac:(done)) as Ht. assert (is_nil (top (f :: k)) = false) as Hn.
    { apply Nat.eqb_neq. intros Heq. rewrite Heq in Ht. addr_atoms. done. }
    rewrite Hn. cbn [negb]. rewrite andb_true_r. split; [|by repeat case_if].
    rewrite <- (top_link t (f :: k) y (rootp s)) by (done || addr_solve).
    set (par := top (f :: k)) in *. assert (par <> rootp s) as Hps by (intros Heq; rewrite Heq in *; addr_solve).
    destruct (is_nil (rootp s)) eqn:Es; cbn [negb].
    + rewrite andb_false_r. case_if; unfold set_left, set_right; rewrite nodes_store; by destruct (Nat.eqb_spec q par) as [-> |].
    + rewrite andb_true_r, left_set_parent. case_if; unfold set_left, set_right, set_parent; rewrite !nodes_store;
        (destruct (Nat.eqb_spec par (rootp s)) as [|_]; [done|]); by destruct (Nat.eqb_spec q par) as [-> |].
Qed.

Lemma splice_zipper t k y c l d r s :
  zipper t k (T y c l d r) -> (l = E /\ s = r \/ r = E /\ s = l) ->
  zipper (splice t y (rootp s) (top k)) k s /\ y ∉ addrs s ++ kaddrs k.
Proof.
  intros H Hs. pose proof (fun q => proj1 (splice_nodes t k y c l d r s q H Hs)) as Hn.
  pose proof (proj2 (splice_nodes t k y c l d r s y H Hs)) as Hr. destruct H as [H1 H2 H3 H4 H5]. cbn in *.
  assert (addrs l ++ addrs r = addrs s) as Ha by (destruct Hs as [[-> ->]|[-> ->]]; cbn; by rewrite ?app_nil_r).
  assert (shape t y s) as Hsh by (destruct Hs as [[-> ->]|[-> ->]]; tauto). rewrite Ha in *.
  pose proof (valid_nil _ H2) as Hnil. apply list.NoDup_cons in H1 as [Hy H1]. split; [|done]. inversion H2 as [|? ? _ H2']; subst.
  pose proof H1 as Hnd. addr_facts Hnd. pose proof (top_cases k) as Ck. pose proof (rootp_cases s) as Cs. split; try done.
  - eapply shape_reparent; [done| | |exact Hsh].
    + intros He%rootp_elem. rewrite Hn. addr_solve; solve_addr.
    + intros q Hq Hne. rewrite Hn. addr_solve; solve_addr.
  - eapply kshape_relink; [done| | | | |exact H4].
    + intros ->. done.
    + intros Hk. rewrite Hr. by destruct k.
    + intros Hk%top_elem. rewrite Hn. addr_solve; solve_addr.
    + intros q Hq Hne. rewrite Hn. addr_solve; solve_addr.
  - rewrite Hn. addr_solve; solve_addr.
Qed.

(** ** One node in the place of another *)

Definition replace_parent t (z y : ptr) : fr_rb_tree_t A :=
  if is_nil (parent t y) then t <| root := y |>
  else
    let t := if (left t (parent t y) =? z)%nat then set_left t (parent t y) y else t in
    if (right t (parent t y) =? z)%nat then set_right t (parent t y) y else t.

Lemma replace_parent_nodes t k z y q :
  parent t y = top k -> kshape t k z -> z ∉ kaddrs k -> y ∉ kaddrs k -> NIL ∉ kaddrs k -> z <> NIL ->
  nodes (replace_parent t z y) q =
    (if (q =? top k)%nat && negb (is_nil (top k)) then relink k (nodes t (top k)) y else nodes t q) /\
  root (replace_parent t z y) = match k with [] => y | _ => root t end /\ meta (replace_parent t z y) = meta t.
Proof.
  intros Hp Hk Hz Hy Hnil Hzn. unfold replace_parent. rewrite Hp. destruct k as [|f k].
  { cbn [top]. change (is_nil NIL) with true. by rewrite andb_false_r. }
  pose proof (top_elem (f :: k) ltac:(done)) as Ht. assert (is_nil (top (f :: k)) = false) as Hn.
  { apply Nat.eqb_neq. intros Heq. by rewrite Heq in Ht. }
  rewrite Hn. cbn [negb]. rewrite andb_true_r. destruct f as [p c d r|p c l d]; cbn [top kshape relink] in *; destruct Hk as (Np & _ & _).
  - assert (left t p = z) as -> by (unfold left; by rewrite Np). rewrite Nat.eqb_refl. cbn zeta. rewrite parent_set_left, Hp, right_set_left.
    assert (right t p = rootp r) as -> by (unfold right; by rewrite Np).
    destruct (Nat.eqb_spec (rootp r) z) as [Hr|_]; [destruct (rootp_cases r); rewrite Hr in *; cbn in Hz; addr_atoms; done|].
    split; [|done]. unfold set_left. rewrite nodes_store. by destruct (Nat.eqb_spec q p) as [-> |].
  - assert (left t p = rootp l) as -> by (unfold left; by rewrite Np).
    destruct (Nat.eqb_spec (rootp l) z) as [Hr|_]; [destruct (rootp_cases l); rewrite Hr in *; cbn in Hz; addr_atoms; done|].
    cbn zeta. rewrite Hp. assert (right t p = z) as -> by (unfold right; by rewrite Np). rewrite Nat.eqb_refl.
    split; [|done]. unfold set_right. rewrite nodes_store. by destruct (Nat.eqb_spec q p) as [-> |].
Qed.

(** [if (c->parent == z) c->parent = y] *)
Definition adopt t (c z y : ptr) : fr_rb_tree_t A := if (parent t c =? z)%nat then set_parent t c y else t.

Lemma adopt_nodes t z y tr q :
  nodes t NIL = sentinel -> (NIL < z)%nat -> (tr <> E -> rootp tr <> NIL /\ parent t (rootp tr) = z) ->
  nodes (adopt t (rootp tr) z y) q =
    (if (q =? rootp tr)%nat && negb (is_nil (rootp tr)) then (nodes t (rootp tr)) <| n_parent := y |> else nodes t q) /\
  root (adopt t (rootp tr) z y) = root t /\ meta (adopt t (rootp tr) z y) = meta t.
Proof.
  intros Hn Hz Hp. unfold adopt. destruct tr as [|p c l d r]; cbn [rootp].
  - assert (parent t NIL = NULL) as -> by (unfold parent; by rewrite Hn). destruct (Nat.eqb_spec NULL z); [unfold NULL, NIL in *; lia|].
    by rewrite andb_false_r.
  - cbn in Hp. destruct Hp as [Hp1 Hp2]; [done|]. rewrite Hp2, Nat.eqb_refl. split; [|done].
    unfold is_nil. destruct (Nat.eqb_spec p NIL); [done|]. rewrite andb_true_r. apply nodes_store.
Qed.

Lemma replace_node_nodes t k z c l d r y dy q :
  zipper t k (T z c l d r) -> (NIL < y)%nat -> y ∉ addrs (T z c l d r) ++ kaddrs k ->
  nodes (replace_node t z y (Some dy)) q =
    (if (q =? rootp r)%nat && negb (is_nil (rootp r)) then (nodes t (rootp r)) <| n_parent := y |>
     else if (q =? rootp l)%nat && negb (is_nil (rootp l)) then (nodes t (rootp l)) <| n_parent := y |>
     else if (q =? top k)%nat && negb (is_nil (top k)) then relink k (nodes t (top k)) y
     else if (q =? y)%nat then (nodes t z) <| n_data := Some dy |> else nodes t q) /\
  root (replace_node t z y (Some dy)) = match k with [] => y | _ => root t end /\ meta (replace_node t z y (Some dy)) = meta t.
Proof.
  intros H Hy Hyt. pose proof H as [H1 H2 H3 H4 H5]. cbn in H1, H2, H3, H4, Hyt. destruct H3 as (Nz & Sl & Sr).
  pose proof (valid_nil _ H2) as Hnil. inversion H2 as [|? ? Hz _]; subst. rewrite <- app_assoc in *. addr_facts H1.
  set (t1 := set_data (store t y (nodes t z)) y (Some dy)).
  assert (forall q, nodes t1 q = if (q =? y)%nat then (nodes t z) <| n_data := Some dy |> else nodes t q) as N1.
  { intros q'. unfold t1, set_data. rewrite !nodes_store, Nat.eqb_refl. by destruct (q' =? y)%nat. }
  assert (parent t1 y = top k) as P1 by (unfold parent; rewrite N1, Nat.eqb_refl, Nz; done).
  assert (kshape t1 k z) as K1 by (apply (kshape_frame t); [|done|exact H4]; intros q' Hq'; rewrite N1; addr_solve; solve_addr).
  pose proof (fun q => replace_parent_nodes t1 k z y q P1 K1 ltac:(addr_solve) ltac:(addr_solve) ltac:(addr_solve) ltac:(lia)) as N2.
  set (t2 := replace_parent t1 z y) in *. pose proof (top_cases k) as Ck. pose proof (rootp_cases l) as Cl. pose proof (rootp_cases r) as Cr.
  assert (y <> NIL /\ top k <> y /\ rootp l <> y /\ rootp r <> y /\ (rootp l = NIL \/ rootp l <> rootp r /\ rootp l <> top k) /\
    (rootp r = NIL \/ rootp r <> rootp l /\ rootp r <> top k)) as (D1 & D2 & D3 & D4 & D5 & D6).
  { assert (y <> NIL) by lia. addr_solve; right; split; congruence. }
  assert (left t2 y = rootp l) as L2 by (unfold left; rewrite (proj1 (N2 _)), !N1, Nat.eqb_refl, Nz; solve_addr).
  assert (right t2 y = rootp r) as R2 by (unfold right; rewrite (proj1 (N2 _)), !N1, Nat.eqb_refl, Nz; solve_addr).
  assert (nodes t2 NIL = sentinel) as Z2 by (rewrite (proj1 (N2 _)), !N1, <- H5; solve_addr).
  assert (l <> E -> rootp l <> NIL /\ parent t2 (rootp l) = z) as P2.
  { intros He. pose proof (rootp_elem _ He). assert (rootp l <> NIL) as Hln by (intros Heq; rewrite Heq in *; addr_atoms; done).
    split; [done|]. unfold parent. rewrite (proj1 (N2 _)), !N1. destruct l; [done|]. cbn in Sl, D3, D5, Hln |- *. destruct Sl as (-> & _). solve_addr. }
  pose proof (fun q => adopt_nodes t2 z y l q Z2 Hz P2) as N3. set (t3 := adopt t2 (rootp l) z y) in *.
  assert (right t3 y = rootp r) as R3 by (unfold right; rewrite (proj1 (N3 _)); fold (right t2 y); solve_addr).
  assert (nodes t3 NIL = sentinel) as Z3 by (rewrite (proj1 (N3 _)), Z2; solve_addr).
  assert (r <> E -> rootp r <> NIL /\ parent t3 (rootp r) = z) as P3.
  { intros He. pose proof (rootp_elem _ He). assert (rootp r <> NIL) as Hrn by (intros Heq; rewrite Heq in *; addr_atoms; done).
    split; [done|]. unfold parent. rewrite (proj1 (N3 _)), !(proj1 (N2 _)), !N1. destruct r; [done|]. cbn in Sr, D4, D5, D6, Hrn |- *. destruct Sr as (-> & _).
    solve_addr. }
  pose proof (fun q => adopt_nodes t3 z y r q Z3 Hz P3) as N4.
  assert (replace_node t z y (Some dy) = adopt t3 (rootp r) z y) as ->.
  { unfold replace_node, t3, t2. fold t1. cbn zeta. fold (replace_parent t1 z y). fold t2. fold (adopt t2 (left t2 y) z y). rewrite L2. fold t3.
    fold (adopt t3 (right t3 y) z y). by rewrite R3. }
  split; [|destruct (N4 q) as (_ & -> & ->), (N3 q) as (_ & -> & ->), (N2 q) as (_ & -> & ->); done].
  rewrite (proj1 (N4 q)), !(proj1 (N3 _)), !(proj1 (N2 _)), !N1. solve_addr.
Qed.

Lemma replace_node_zipper t k z c l d r y dy :
  zipper t k (T z c l d r) -> (NIL < y)%nat -> y ∉ addrs (T z c l d r) ++ kaddrs k ->
  zipper (replace_node t z y (Some dy)) k (T y c l dy r).
Proof.
  intros H Hy Hyt. pose proof (fun q => proj1 (replace_node_nodes t k z c l d r y dy q H Hy Hyt)) as Hn.
  destruct (replace_node_nodes t k z c l d r y dy y H Hy Hyt) as (_ & Hr & _).
  destruct H as [H1 H2 H3 H4 H5]. cbn in H1, H2, H3, H4, Hyt. destruct H3 as (Nz & Sl & Sr).
  pose proof (valid_nil _ H2) as Hnil. rewrite <- app_assoc in *. inversion H2 as [|? ? _ H2']; subst.
  assert (NoDup (y :: addrs l ++ addrs r ++ kaddrs k)) as H1'.
  { apply list.NoDup_cons. apply list.NoDup_cons in H1 as [_ H1]. split; [|done]. addr_atoms. rewrite !not_elem_of_app. done. }
  addr_facts H1. pose proof (top_cases k) as Ck. pose proof (rootp_cases l) as Cl. pose proof (rootp_cases r) as Cr.
  split; cbn [addrs rootp shape app]; rewrite <- ?app_assoc; try done; [by constructor|..].
  - split; [|split].
    + rewrite Hn, Nat.eqb_refl, Nz. assert (y <> NIL) by lia. addr_solve; solve_addr.
    + eapply shape_reparent; [done| | |exact Sl].
      * intros He%rootp_elem. rewrite Hn. addr_solve; solve_addr.
      * intros q Hq Hne. rewrite Hn. addr_solve; solve_addr.
    + eapply shape_reparent; [done| | |exact Sr].
      * intros He%rootp_elem. rewrite Hn. addr_solve; solve_addr.
      * intros q Hq Hne. rewrite Hn. addr_solve; solve_addr.
  - eapply kshape_relink; [done| | | | |exact H4].
    + intros ->. done.
    + intros Hk. rewrite Hr. by destruct k.
    + intros Hk%top_elem. rewrite Hn. addr_solve; solve_addr.
    + intros q Hq Hne. rewrite Hn. addr_solve; solve_addr.
  - rewrite Hn. assert (y <> NIL) by lia. addr_solve; solve_addr.
Qed.

(** ** Giving a node back *)

Lemma zipper_frame t t' k tr z :
  zipper t k tr -> z ∉ addrs tr ++ kaddrs k -> z <> NIL -> root t' = root t -> (forall q, q <> z -> nodes t' q = nodes t q) ->
  zipper t' k tr.
Proof.
  intros [H1 H2 H3 H4 H5] Hz Hzn Hr Hn. apply not_elem_of_app in Hz as [Hz1 Hz2]. split; [done|done|..].
  - apply (shape_frame t); [|done]. intros q Hq. apply Hn. by intros ->.
  - apply (kshape_frame t); [|done|done]. intros q Hq. apply Hn. by intros ->.
  - by rewrite Hn.
Qed.

(** What [node_free] hands to the callback. *)
Definition given_free t (z : ptr) (free_data : bool) : list (option A) :=
  if free_data && has_free t && negb (n_being_freed (nodes t z)) then [data t z] else [].

Lemma node_free_frame t z free_data :
  (forall q, q <> z -> nodes (node_free t z free_data) q = nodes t q) /\ root (node_free t z free_data) = root t /\
  (num_elements (node_free t z free_data) = num_elements t /\ being_freed (node_free t z free_data) = being_freed t /\
   inline_nodes (node_free t z free_data) = inline_nodes t /\ has_free (node_free t z free_data) = has_free t) /\
  freed (node_free t z free_data) = freed t ++ given_free t z free_data.
Proof.
  unfold node_free, given_free, node_data_free.
  assert (forall t n q, q <> z -> nodes (store t z n) q = nodes t q) as Hs.
  { intros t0 n q Hq. rewrite nodes_store. by destruct (Nat.eqb_spec q z). }
  assert (data (store t z ((nodes t z) <| n_being_freed := true |>)) z = data t z) as Hd.
  { unfold data. by rewrite nodes_store, Nat.eqb_refl. }
  destruct (inline_nodes t) eqn:Ei, (has_free t) eqn:Eh, free_data, (n_being_freed (nodes t z)) eqn:Eb; cbn [andb orb negb];
    cbn zeta; rewrite ?Hd; (split; [intros q Hq|split; [done|split; [done|]]]); rewrite ?Hs by done; try done; try (by rewrite app_nil_r); by apply Hs.
Qed.

(** ** A node with at most one child *)

(** [delete_internal] once the node [y] to take out is known. *)
Definition delete_y fuel t (y x par : ptr) : option (fr_rb_tree_t A) :=
  let t := splice t y x par in
  if negb (is_red t y) then delete_fixup fuel t x par else Some t.

Lemma delete_y_ok fuel t k y c l d r s :
  zipper t k (T y c l d r) -> (l = E /\ s = r \/ r = E /\ s = l) -> rbtree (plug k (T y c l d r)) -> (length k <= fuel)%nat ->
  exists t' tr, delete_y fuel t y (rootp s) (top k) = Some t' /\ zipper t' [] tr /\ rbtree tr /\ elems tr = kelems k (elems s) /\
    meta t' = meta t /\ forall q, payload t' q = payload t q.
Proof.
  intros H Hs [Hc [h Hh]] Hf. destruct (splice_zipper t k y c l d r s H Hs) as [Hz _].
  assert (is_red (splice t y (rootp s) (top k)) y = bool_decide (c = RED)) as Hred.
  { unfold is_red, colour. pose proof (rest_splice t y (rootp s) (top k) y) as Hr. unfold rest in Hr.
    rewrite (zip_node _ _ _ _ _ _ _ H) in Hr. cbn in Hr. by injection Hr as _ -> _. }
  assert (forall q, payload (splice t y (rootp s) (top k)) q = payload t q) as Hpay by (intros; apply payload_rest, rest_splice).
  pose proof (kroot_unplug _ _ Hc) as Hroot. destruct (rb_unplug k _ h Hh) as (n & Hn & Hkn & Hkc).
  unfold delete_y. cbn zeta. rewrite Hred. destruct c; cbn in Hn.
  - destruct n as [|n]; [done|]. rewrite bool_decide_eq_false_2 by done. cbn [negb].
    assert (rb s n) as Hsn by (destruct Hs as [[-> ->]|[-> ->]]; tauto).
    destruct (delete_fixup_ok fuel (splice t y (rootp s) (top k)) (rootp s) (top k) (kelems k (elems s)) (length k)) as (t' & tr & F1 & F2 & F3 & F4 & F5);
      [exists k, s, n; split_and!; auto using rb_is_short|done|].
    exists t', tr. split; [done|]. split_and!; try done; [by rewrite F5, splice_meta|]. intros q. by rewrite (payload_delete_fixup _ _ _ _ _ q F1).
  - rewrite bool_decide_eq_true_2 by done. cbn [negb]. assert (rb s n) as Hsn by (destruct Hs as [[-> ->]|[-> ->]]; tauto).
    destruct (rb_plug k s n Hsn Hkn) as [h' Hh']; [intros Hk; by specialize (Hkc Hk)|].
    eexists _, (plug k s). split; [done|]. split; [by apply to_root|]. split; [split; [|by exists h']|].
    + destruct k as [|f k]; [done|]. by apply colour_plug.
    + split; [apply elems_plug|]. split; [apply splice_meta|done].
Qed.

(** [while (y->left != NIL) y = y->left] *)
Lemma leftmost_ok fuel t k tr :
  zipper t k tr -> tr <> E -> (height tr <= fuel)%nat ->
  exists y c d r k', leftmost fuel t (rootp tr) = Some y /\ zipper t (k' ++ k) (T y c E d r) /\
    (forall m, kelems k' m = m ++ kpost k') /\ plug k' (T y c E d r) = tr.
Proof.
  revert fuel k. induction tr as [|p c l IHl d r _]; intros fuel k H Hn Hf; [done|].
  pose proof (zip_node _ _ _ _ _ _ _ H) as Hnode. destruct (tree_cases l) as [-> |Hl].
  - exists p, c, d, r, []. split; [|by split_and!; [|intros; rewrite app_nil_r|]].
    destruct fuel; cbn [leftmost rootp]; unfold left; rewrite Hnode; done.
  - apply down_left in H. destruct fuel as [|fuel]; cbn [height] in Hf; [lia|].
    destruct (IHl fuel _ H Hl ltac:(lia)) as (y & c' & d' & r' & k' & H1 & H2 & H3 & H4).
    exists y, c', d', r', (k' ++ [FL p c d r]). cbn [leftmost rootp]. unfold left. rewrite Hnode. cbn [n_left].
    split; [|split; [by rewrite <- app_assoc|split]].
    + destruct l as [|lp lc ll ld lr]; [done|]. cbn [rootp]. by rewrite (zip_nil_false _ _ _ _ _ _ _ H).
    + intros m. assert (forall k1 k2 (m : list (ptr * A)), kelems (k1 ++ k2) m = kelems k2 (kelems k1 m)) as Happ.
      { intros k1. induction k1 as [|[] k1 IH]; intros k2 m0; cbn; [done|apply IH..]. }
      assert (forall k1 k2, kpost (k1 ++ k2) = kpost k1 ++ @kpost A k2) as Hpost.
      { intros k1. induction k1 as [|[] k1 IH]; intros k2; cbn; [done|by rewrite IH, <- app_assoc|apply IH]. }
      rewrite Happ, Hpost, H3. cbn. by rewrite app_nil_r, <- app_assoc.
    + unfold plug in *. rewrite fold_left_app, H4. done.
Qed.
End Splice.
End RbSplice.
