(* ===== verification/RbTree.v ===== *)
(** The functions of src/lib/util/rb.c on trees that hold the invariant: what each
    returns, and the tree that it leaves. *)

From Stdlib Require Import Sorted.
From stdpp Require Import gmap.
From S2P Require Import Prelude Rb RbShape RbMirror RbBalance RbSearch RbInsert RbDelete RbSplice.
Import Rb RbShape RbMirror RbBalance RbSearch RbInsert RbDelete RbSplice.

Module RbTree.

(** ** Lists of nodes *)

Section Lists.
Context {A : Type}.
Implicit Types (m : list (ptr * A)).

Lemma sdelete_absent z m : z ∉ map fst m -> sdelete z m = m.
Proof.
  unfold sdelete. induction m as [|[p e] m IH]; [done|]. cbn [map fst]. intros [Hp Hm]%not_elem_of_cons.
  rewrite list.filter_cons_True by (cbn; congruence). by rewrite IH.
Qed.

Lemma sdelete_split z d m1 m2 : NoDup (map fst (m1 ++ (z, d) :: m2)) -> sdelete z (m1 ++ (z, d) :: m2) = m1 ++ m2.
Proof.
  rewrite map_app. cbn. intros (H1 & H2 & [H3 H4]%list.NoDup_cons)%list.NoDup_app. unfold sdelete.
  rewrite list.filter_app, list.filter_cons_False by (cbn; by intros []). fold (sdelete z m1) (sdelete z m2).
  rewrite !sdelete_absent; [done|done|]. intros Hz. apply (H2 z Hz). left.
Qed.

Lemma nodup_next z d y e m1 m2 :
  NoDup (map fst (m1 ++ (z, d) :: (y, e) :: m2)) -> y <> z /\ y ∉ map fst (m1 ++ (z, d) :: m2).
Proof.
  rewrite !map_app. cbn. intros (H1 & H2 & [[H3 H3']%not_elem_of_cons [H4 H5]%list.NoDup_cons]%list.NoDup_cons)%list.NoDup_app.
  split; [congruence|]. intros [Hy|[Hy|Hy]%elem_of_cons]%elem_of_app; [|congruence|done]. apply (H2 y Hy). right. left.
Qed.

(** [y] in the place of [z]. *)
Definition substitute (z : ptr) (y : ptr * A) m : list (ptr * A) := map (fun e => if (fst e =? z)%nat then y else e) m.

Lemma substitute_absent z y m : z ∉ map fst m -> substitute z y m = m.
Proof.
  unfold substitute. induction m as [|[p e] m IH]; [done|]. cbn. intros [Hp Hm]%not_elem_of_cons. rewrite IH by done.
  by destruct (Nat.eqb_spec p z); [congruence|].
Qed.

Lemma substitute_split z y d m1 m2 :
  NoDup (map fst (m1 ++ (z, d) :: m2)) -> substitute z y (m1 ++ (z, d) :: m2) = m1 ++ y :: m2.
Proof.
  rewrite map_app. cbn. intros (H1 & H2 & [H3 H4]%list.NoDup_cons)%list.NoDup_app. unfold substitute.
  rewrite map_app. cbn. rewrite Nat.eqb_refl. fold (substitute z y m1) (substitute z y m2).
  rewrite !substitute_absent; [done|done|]. intros Hz. apply (H2 z Hz). left.
Qed.

Lemma elems_in_tree (tr : tree A) z d : (z, d) ∈ elems tr -> exists k c l r, tr = plug k (T z c l d r).
Proof.
  induction tr as [|p c l IHl e r IHr]; cbn; [by intros ?%not_elem_of_nil|].
  intros [H|[H|H]%elem_of_cons]%elem_of_app.
  - destruct (IHl H) as (k & c' & l' & r' & ->). exists (k ++ [FL p c e r]), c', l', r'. unfold plug. by rewrite fold_left_app.
  - simplify_eq. by exists [], c, l, r.
  - destruct (IHr H) as (k & c' & l' & r' & ->). exists (k ++ [FR p c l e]), c', l', r'. unfold plug. by rewrite fold_left_app.
Qed.

Lemma zip_elems_nodup (t : fr_rb_tree_t A) tr : zipper t [] tr -> NoDup (map fst (elems tr)).
Proof. intros [H _ _ _ _]. rewrite elems_addrs. cbn in H. by rewrite app_nil_r in H. Qed.
End Lists.

Section Delete.
Context {A : Type} (cmp : A -> A -> Z) `{!CmpLaws cmp}.
Implicit Types (t : fr_rb_tree_t A) (tr : tree A) (k : context A) (m : list (ptr * A)).

(** ** [delete_internal] *)

(** What deletion leaves: the other nodes, with the data given to the callback
    where that is asked for. *)
Record deleted t t' m (z : ptr) (d : A) (free_data : bool) : Prop := Deleted {
  del_ok : tree_ok cmp t' (sdelete z m);
  del_env : (being_freed t', inline_nodes t', has_free t') = (being_freed t, inline_nodes t, has_free t);
  del_freed : freed t' = freed t ++ (if free_data && has_free t then [Some d] else []);
  del_out : fr_rb_node_inline_in_tree t' z = false }.

(** A node that was given back is not in a tree. *)
Lemma node_free_out t z free_data n :
  fr_rb_node_inline_in_tree ((node_free t z free_data) <| num_elements := n |>) z = false.
Proof.
  unfold fr_rb_node_inline_in_tree, left, right, parent, node_free, node_data_free.
  assert (forall t n, nodes (t <| num_elements := n |>) z = nodes t z) as Hn by done. rewrite Hn.
  assert (forall t f, nodes (t <| freed := f |>) z = nodes t z) as Hf by done.
  destruct (inline_nodes t), (has_free t), free_data, (n_being_freed (nodes t z)) eqn:Eb; cbn [andb orb negb]; cbn zeta;
    rewrite ?Hf, ?nodes_store, ?Nat.eqb_refl, ?Eb, ?andb_false_r; done.
Qed.

(** The end of [delete_internal]. *)
Lemma delete_finish t t1 m tr z d free_data :
  tree_ok cmp t m -> (z, d) ∈ m -> (NIL < z)%nat ->
  zipper t1 [] tr -> rbtree tr -> elems tr = sdelete z m -> meta t1 = meta t -> payload t1 z = (Some d, false) ->
  let t2 := node_free t1 z free_data in
  deleted t (t2 <| num_elements := u32 (num_elements t2 - 1) |>) m z d free_data.
Proof using CmpLaws0.
  intros Hok Hin Hz H Hrb He Hm Hp t2. destruct (node_free_frame t1 z free_data) as (N1 & N2 & (N3 & N4 & N5 & N6) & N7). fold t2 in N1, N2, N3, N4, N5, N6, N7.
  unfold meta in Hm. injection Hm as M1 M2 M3 M4 M5. unfold payload in Hp. injection Hp as P1 P2.
  pose proof (ok_tree _ _ _ Hok) as (tr0 & Hz0 & _ & He0). pose proof (zip_elems_nodup _ _ Hz0) as Hnd. rewrite He0 in Hnd.
  apply list_elem_of_split in Hin as (m1 & m2 & Hsplit). pose proof (ok_sorted _ _ _ Hok) as Hs. pose proof (ok_count _ _ _ Hok) as Hc.
  pose proof (ok_bound _ _ _ Hok) as Hb. rewrite Hsplit in Hnd, Hs, Hc, Hb.
  assert (sdelete z m = m1 ++ m2) as Hd by (rewrite Hsplit; by apply sdelete_split). rewrite Hd in *.
  rewrite length_app in Hc, Hb. cbn in Hc, Hb. split; [|cbn; by rewrite N4, N5, N6, M2, M3, M4|cbn|apply node_free_out].
  - rewrite Hd. split.
    + exists tr. split; [|done]. apply (zipper_ext t2); [done|done|]. apply (zipper_frame t1 _ _ _ z); try done; [|lia].
      cbn. rewrite app_nil_r, <- elems_addrs, He. rewrite map_app in Hnd |- *. cbn in Hnd.
      apply list.NoDup_app in Hnd as (_ & Hnd1 & [Hnd2 _]%list.NoDup_cons). intros [Hz1|Hz1]%elem_of_app; [|done]. apply (Hnd1 z Hz1). left.
    + apply sorted_app in Hs as (S1 & S2 & S3). apply sorted_app. inversion S2. split; [done|]. split; [done|].
      intros e1 e2 He1 He2. apply S3; [done|by right].
    + cbn. rewrite N3, M1, Hc, length_app. unfold u32. rewrite Z.mod_small; lia.
    + rewrite length_app. lia.
  - rewrite N7, M5. unfold given_free, data. rewrite P1, P2, M4, andb_true_r. done.
Qed.

Lemma is_nil_rootp t k p c l d r s : zipper t k (T p c l d r) -> (s = l \/ s = r) -> is_nil (rootp s) = true <-> s = E.
Proof.
  intros H Hs. split; [|by intros ->]. intros Hn. destruct s as [|sp sc sl sd sr]; [done|]. exfalso. cbn [rootp] in Hn.
  destruct Hs as [<- |<-]; [apply down_left in H|apply down_right in H]; apply zip_nil_false in H; congruence.
Qed.

Lemma delete_internal_unfold t z y x par free_data :
  (z =? NULL)%nat || is_nil z = false ->
  (if is_nil (left t z) || is_nil (right t z) then Some z else leftmost (depth_fuel t) t (right t z)) = Some y ->
  x = (if negb (is_nil (left t y)) then left t y else right t y) -> par = parent t y -> (par =? NULL)%nat = false ->
  delete_internal t z free_data =
  t1 ← delete_y (depth_fuel t) t y x par;
  let t2 := if negb (y =? z)%nat then replace_node t1 z y (data t y) else t1 in
  let t3 := node_free t2 z free_data in
  Some (t3 <| num_elements := u32 (num_elements t3 - 1) |>).
Proof.
  intros Hz Hy -> -> Hp. unfold delete_internal. rewrite Hz, Hy. cbn zeta.
  fold (splice t y (if negb (is_nil (left t y)) then left t y else right t y) (parent t y)).
  unfold delete_y. cbn zeta. rewrite Hp. cbn [negb]. rewrite orb_true_r, andb_true_r.
  assert (forall u, depth_fuel (splice t y u (parent t y)) = depth_fuel t) as Hd.
  { intros u. unfold depth_fuel. pose proof (splice_meta t y u (parent t y)) as Hm. unfold meta in Hm. by injection Hm as -> _ _ _ _. }
  assert (forall u, data (splice t y u (parent t y)) y = data t y) as Hdata.
  { intros u. pose proof (rest_splice t y u (parent t y) y) as Hr. unfold rest in Hr. unfold data. by injection Hr as -> _ _. }
  rewrite Hd, Hdata. case_if; [destruct (delete_fixup _ _ _ _)|]; done.
Qed.

Lemma top_not_null t k tr : zipper t k tr -> (top k =? NULL)%nat = false.
Proof.
  intros H. apply Nat.eqb_neq. destruct (top_cases k) as [-> |Ht]; [done|]. pose proof (zip_valid _ _ _ H) as Hv. rewrite Forall_forall in Hv.
  specialize (Hv (top k)). rewrite <- list_elem_of_In, elem_of_app in Hv. specialize (Hv (or_intror Ht)). unfold NULL, NIL in *. lia.
Qed.

Lemma delete_internal_near t k z c l d r m free_data :
  tree_ok cmp t m -> zipper t k (T z c l d r) -> rbtree (plug k (T z c l d r)) -> kelems k (elems (T z c l d r)) = m -> l = E \/ r = E ->
  exists t', delete_internal t z free_data = Some t' /\ deleted t t' m z d free_data.
Proof using CmpLaws0.
  intros Hok H Hrb Hm Hlr. pose proof (zip_node _ _ _ _ _ _ _ H) as Hn. pose proof (zip_nil_false _ _ _ _ _ _ _ H) as Hz.
  assert (NIL < z)%nat as Hz' by (apply zip_valid in H; by inversion H).
  pose proof (is_nil_rootp t k z c l d r l H (or_introl eq_refl)) as Nl. pose proof (is_nil_rootp t k z c l d r r H (or_intror eq_refl)) as Nr.
  set (s := match l with E => r | _ => l end).
  assert (l = E /\ s = r \/ r = E /\ s = l) as Hs by (unfold s; destruct l; [by left|right; by destruct Hlr]).
  erewrite (delete_internal_unfold t z z (rootp s) (top k)).
  - destruct (delete_y_ok (depth_fuel t) t k z c l d r s H Hs Hrb) as (t1 & tr & D1 & D2 & D3 & D4 & D5 & D6).
    { unfold depth_fuel. rewrite (ok_count _ _ _ Hok), Nat2Z.id, <- Hm. pose proof (length_context k (elems (T z c l d r))). lia. }
    rewrite D1. cbn [mbind option_bind]. rewrite Nat.eqb_refl. cbn [negb]. cbn zeta. eexists. split; [done|].
    assert (m = (kpre k ++ elems l) ++ (z, d) :: elems r ++ kpost k) as Hm' by (rewrite <- Hm, kelems_split; cbn; by rewrite <- !app_assoc).
    assert (NoDup (map fst m)) as Hnd by (rewrite <- Hm, <- elems_plug; apply (zip_elems_nodup t), to_root, H).
    apply delete_finish with (tr := tr); try done.
    + rewrite Hm', elem_of_app, elem_of_cons. auto.
    + rewrite Hm' in Hnd. rewrite D4, Hm', (sdelete_split _ _ _ _ Hnd), kelems_split.
      destruct Hs as [[-> ->]|[-> ->]]; cbn; by rewrite ?app_nil_r, <- ?app_assoc.
    + rewrite D6. unfold payload. by rewrite Hn.
  - apply orb_false_iff. split; [apply Nat.eqb_neq; unfold NULL, NIL in *; lia|done].
  - unfold left, right. rewrite Hn. cbn [n_left n_right]. destruct Hlr as [Hl|Hr]; [rewrite (proj2 Nl Hl)|rewrite (proj2 Nr Hr), orb_true_r]; done.
  - unfold left, right. rewrite Hn. cbn [n_left n_right]. unfold s. destruct (is_nil (rootp l)) eqn:El; cbn [negb].
    + by rewrite (proj1 Nl eq_refl).
    + by destruct l.
  - unfold parent. by rewrite Hn.
  - by eapply top_not_null.
Qed.

Lemma rbtree_rename k z d y dy c l r : rbtree (plug k (T z c l d r)) -> rbtree (plug k (T (A:=A) y c l dy r)).
Proof.
  intros [Hc [h Hh]]. pose proof (kroot_unplug _ _ Hc) as Hk. destruct (rb_unplug k _ h Hh) as (n & H1 & H2 & H3). split.
  - destruct k as [|f k]; [done|]. by apply colour_plug.
  - apply rb_plug with n; [by destruct c|done|done].
Qed.

Lemma replace_node_payload t k z c l d r y dy :
  zipper t k (T z c l d r) -> (NIL < y)%nat -> y ∉ addrs (T z c l d r) ++ kaddrs k ->
  payload (replace_node t z y (Some dy)) z = payload t z.
Proof.
  intros H Hy Hyt. unfold payload. rewrite !(proj1 (replace_node_nodes t k z c l d r y dy z H Hy Hyt)).
  destruct H as [H1 H2 _ _ _]. cbn in H1, H2, Hyt. pose proof (valid_nil _ H2) as Hnil. rewrite <- app_assoc in *. addr_facts H1.
  pose proof (top_cases k) as Ck. pose proof (rootp_cases l) as Cl. pose proof (rootp_cases r) as Cr. addr_solve; solve_addr.
Qed.

(** The node [y] that was taken out comes in the place of [z]. *)
Lemma replace_node_ok t tr z d y dy m1 m2 :
  zipper t [] tr -> rbtree tr -> elems tr = m1 ++ (z, d) :: m2 -> (NIL < y)%nat -> y ∉ map fst (m1 ++ (z, d) :: m2) ->
  exists tr', let t' := replace_node t z y (Some dy) in
    zipper t' [] tr' /\ rbtree tr' /\ elems tr' = m1 ++ (y, dy) :: m2 /\ meta t' = meta t /\ payload t' z = payload t z.
Proof.
  intros H Hrb He Hy Hym. pose proof (zip_elems_nodup _ _ H) as Hnd.
  destruct (elems_in_tree tr z d) as (k & c & l & r & ->); [rewrite He, elem_of_app, elem_of_cons; auto|].
  assert (y ∉ addrs (T z c l d r) ++ kaddrs k) as Hya by (by rewrite <- addrs_plug, <- elems_addrs, He).
  apply zip_plug in H. exists (plug k (T y c l dy r)). cbn zeta. split; [by eapply to_root, replace_node_zipper|].
  split; [by eapply rbtree_rename|]. split; [|split; [apply (replace_node_nodes t k z c l d r y dy y H Hy Hya)|by eapply replace_node_payload]].
  assert (elems (plug k (T z c l d r)) = (kpre k ++ elems l) ++ (z, d) :: elems r ++ kpost k) as He'.
  { rewrite elems_plug, kelems_split. cbn. by rewrite <- !app_assoc. }
  rewrite elems_plug, kelems_split. cbn [elems]. rewrite <- !app_assoc, app_assoc. cbn [app].
  rewrite <- (substitute_split z (y, dy) d (kpre k ++ elems l)), <- He', He by (by rewrite <- He').
  apply substitute_split. by rewrite <- He.
Qed.

Lemma plug_app k1 k2 tr : plug (k1 ++ k2) tr = plug k2 (plug k1 tr).
Proof. apply fold_left_app. Qed.

Lemma kelems_app k1 k2 m : kelems (k1 ++ k2) m = kelems k2 (kelems k1 m).
Proof. revert m. induction k1 as [|[] k1 IH]; intros m0; cbn; [done|apply IH..]. Qed.

Lemma delete_internal_far t k z c l d r m free_data :
  tree_ok cmp t m -> zipper t k (T z c l d r) -> rbtree (plug k (T z c l d r)) -> kelems k (elems (T z c l d r)) = m -> l <> E -> r <> E ->
  exists t', delete_internal t z free_data = Some t' /\ deleted t t' m z d free_data.
Proof using CmpLaws0.
  intros Hok H Hrb Hm Hl Hr. pose proof (zip_node _ _ _ _ _ _ _ H) as Hn. pose proof (zip_nil_false _ _ _ _ _ _ _ H) as Hz.
  assert (NIL < z)%nat as Hz' by (apply zip_valid in H; by inversion H).
  pose proof (is_nil_rootp t k z c l d r l H (or_introl eq_refl)) as Nl. pose proof (is_nil_rootp t k z c l d r r H (or_intror eq_refl)) as Nr.
  assert (height r <= depth_fuel t)%nat as Hh.
  { unfold depth_fuel. rewrite (ok_count _ _ _ Hok), Nat2Z.id, <- Hm, kelems_split. cbn. rewrite !length_app. cbn. pose proof (height_elems r). lia. }
  destruct (leftmost_ok (depth_fuel t) t _ r (down_right _ _ _ _ _ _ _ H) Hr Hh) as (y & cy & dy & ry & kr & L1 & L2 & L3 & L4).
  set (k' := kr ++ FR z c l d :: k) in *. pose proof (zip_node _ _ _ _ _ _ _ L2) as Hny.
  assert (plug k' (T y cy E dy ry) = plug k (T z c l d r)) as Hplug by (unfold k'; rewrite plug_app, L4; done).
  assert (kelems k' (elems ry) = (kpre k ++ elems l) ++ (z, d) :: elems ry ++ kpost kr ++ kpost k) as Hk'.
  { unfold k'. rewrite kelems_app, L3. cbn. rewrite kelems_split, <- !app_assoc. cbn. by rewrite <- !app_assoc. }
  assert (m = (kpre k ++ elems l) ++ (z, d) :: (y, dy) :: elems ry ++ kpost kr ++ kpost k) as Hm'.
  { rewrite <- Hm, <- L4, kelems_split. cbn. rewrite elems_plug, L3. cbn. by rewrite <- !app_assoc; cbn; rewrite <- !app_assoc. }
  assert (NoDup (map fst m)) as Hnd by (rewrite <- Hm, <- elems_plug; apply (zip_elems_nodup t), to_root, H).
  rewrite (delete_internal_unfold t z y (rootp ry) (top k')); [| | | | |].
  - destruct (delete_y_ok (depth_fuel t) t k' y cy E dy ry ry L2) as (t1 & tr & D1 & D2 & D3 & D4 & D5 & D6); [by left|by rewrite Hplug| |].
    { unfold depth_fuel. rewrite (ok_count _ _ _ Hok), Nat2Z.id, <- Hm, <- elems_plug, <- Hplug, elems_plug.
      pose proof (length_context k' (elems (T y cy E dy ry))). lia. }
    rewrite D1. cbn [mbind option_bind]. rewrite Hk' in D4. rewrite Hm' in Hnd.
    assert (y <> z /\ y ∉ map fst ((kpre k ++ elems l) ++ (z, d) :: elems ry ++ kpost kr ++ kpost k)) as [Hyz Hym].
    { by apply nodup_next in Hnd. }
    assert (NIL < y)%nat as Hy by (apply zip_valid in L2; by inversion L2).
    destruct (replace_node_ok t1 tr z d y dy _ _ D2 D3 D4 Hy Hym) as (tr' & R1 & R2 & R3 & R4 & R5).
    unfold data. rewrite Hny. cbn [n_data]. destruct (Nat.eqb_spec y z); [done|]. cbn [negb]. cbn zeta. eexists. split; [done|].
    apply delete_finish with (tr := tr'); try done.
    + rewrite Hm', elem_of_app, elem_of_cons. auto.
    + by rewrite R3, Hm', sdelete_split.
    + by rewrite R4.
    + rewrite R5, D6. unfold payload. by rewrite Hn.
  - apply orb_false_iff. split; [apply Nat.eqb_neq; unfold NULL, NIL in *; lia|done].
  - unfold left, right. rewrite Hn. cbn [n_left n_right].
    destruct (is_nil (rootp l)); [by destruct Hl; apply Nl|]. destruct (is_nil (rootp r)); [by destruct Hr; apply Nr|]. done.
  - unfold left, right. rewrite Hny. done.
  - unfold parent. by rewrite Hny.
  - by eapply top_not_null.
Qed.

(** Deletion of a node of the tree. *)
Lemma delete_internal_ok t m z d free_data :
  tree_ok cmp t m -> (z, d) ∈ m -> exists t', delete_internal t z free_data = Some t' /\ deleted t t' m z d free_data.
Proof using CmpLaws0.
  intros Hok Hin. destruct (ok_tree _ _ _ Hok) as (tr & H & Hrb & He). rewrite <- He in Hin.
  destruct (elems_in_tree tr z d Hin) as (k & c & l & r & ->). apply zip_plug in H. rewrite elems_plug in He.
  destruct (tree_cases l) as [Hl|Hl]; [by eapply delete_internal_near; eauto|].
  destruct (tree_cases r) as [Hr|Hr]; [by eapply delete_internal_near; eauto|by eapply delete_internal_far; eauto].
Qed.

(** ** [find_node] *)

Lemma find_node_ok t d m :
  tree_ok cmp t m -> being_freed t = false ->
  find_node cmp t d = Some (match sfind cmp d m with Some (p, _) => p | None => NULL end).
Proof using CmpLaws0.
  intros Hok Hb. destruct (ok_tree _ _ _ Hok) as (tr & H & _ & He). pose proof (ok_sorted _ _ _ Hok) as Hs.
  pose proof (zip_kshape _ _ _ H) as Hr. cbn in Hr. unfold find_node. rewrite Hb, Hr.
  rewrite (find_search_locate cmp _ t d [] tr H) by (by eapply depth_fuel_enough). subst m.
  pose proof (locate_spec cmp d [] tr Hs ltac:(constructor) ltac:(constructor)) as Hl. cbn [kelems] in Hl.
  destruct (locate cmp d [] tr) as [k|[p e]]; [by destruct Hl as (_ & _ & _ & ->)|by destruct Hl as (_ & ->)].
Qed.

(** The nodes that are in the tree, as memory has them. *)
Lemma tree_ok_node t m p e :
  tree_ok cmp t m -> (p, e) ∈ m ->
  (NIL < p)%nat /\ data t p = Some e /\ n_being_freed (nodes t p) = false /\ fr_rb_node_inline_in_tree t p = true.
Proof.
  intros Hok Hin. destruct (ok_tree _ _ _ Hok) as (tr & H & _ & He). rewrite <- He in Hin.
  destruct (elems_in_tree tr p e Hin) as (k & c & l & r & ->). apply zip_plug in H. pose proof (zip_node _ _ _ _ _ _ _ H) as Hn.
  split; [apply zip_valid in H; by inversion H|]. unfold fr_rb_node_inline_in_tree, data, left, right, parent. rewrite Hn. cbn.
  split_and!; try done. rewrite (top_not_null _ _ _ H). unfold NULL.
  assert (forall s, (rootp s =? 0)%nat = false \/ exists sp sc sl sd sr, s = T (A:=A) sp sc sl sd sr) as Hc.
  { intros [|sp sc sl sd sr]; [by left|right; by eauto 10]. }
  destruct (Hc l) as [-> |(? & ? & ? & ? & ? & ->)]; [|apply down_left in H as Hl; apply zip_valid in Hl; inversion Hl as [|? ? Hp _]; subst; cbn;
    destruct (Nat.eqb_spec x 0); [unfold NIL in Hp; lia|]];
  (destruct (Hc r) as [-> |(? & ? & ? & ? & ? & ->)]; [done|apply down_right in H as Hr; apply zip_valid in Hr; inversion Hr as [|? ? Hq _]; subst; cbn]);
    match goal with |- context [(?a =? 0)%nat] => destruct (Nat.eqb_spec a 0) end; unfold NIL in Hq; done || lia.
Qed.

Lemma sfind_elem d m p e : sfind cmp d m = Some (p, e) -> (p, e) ∈ m /\ cmp d e = 0.
Proof. intros H. apply List.find_some in H as [H1 H2%Z.eqb_eq]. split; [by apply list_elem_of_In|done]. Qed.

(** ** Other data in a node *)

Lemma set_data_zipper t k p c l e r d : zipper t k (T p c l e r) -> zipper (set_data t p (Some d)) k (T p c l d r).
Proof.
  intros [H1 H2 H3 H4 H5]. cbn in *. destruct H3 as (Hp & Hl & Hr).
  assert (forall q, nodes (set_data t p (Some d)) q = if (q =? p)%nat then (nodes t p) <| n_data := Some d |> else nodes t q) as Hn by (intros; apply nodes_store).
  pose proof (valid_nil _ H2) as Hnil. pose proof H1 as Hnd. rewrite <- app_assoc in Hnd. addr_facts Hnd.
  split; cbn; try done.
  - split; [by rewrite Hn, Nat.eqb_refl, Hp|].
    split; (eapply shape_frame; [|done]); intros q Hq; rewrite Hn; addr_solve; solve_addr.
  - apply (kshape_frame t); [|done|done]. intros q Hq. rewrite Hn. addr_solve; solve_addr.
  - rewrite Hn. addr_solve; solve_addr.
Qed.

Lemma sorted_equal m1 m2 p e d : cmp d e = 0 -> sorted cmp (m1 ++ (p, e) :: m2) -> sorted cmp (m1 ++ (p, d) :: m2).
Proof using CmpLaws0.
  intros Hd Hs. apply sorted_app in Hs as (S1 & S2 & S3). inversion_clear S2 as [|? ? S4 S5]. apply sorted_app.
  split; [done|]. split; [constructor; [done|]|].
  - eapply Forall_impl; [|exact S5]. intros [q a]. unfold below. cbn. intros Ha. apply (cmp_equal _ _ a) in Hd. lia.
  - intros [q a] b Ha [-> |Hb]%elem_of_cons; [|apply S3; [done|by right]].
    specialize (S3 _ (p, e) Ha ltac:(left)). unfold below in *. cbn in *. apply (cmp_equal _ _ a) in Hd. rewrite cmp_sym in *. lia.
Qed.

Lemma set_data_ok t m p e d :
  tree_ok cmp t m -> (p, e) ∈ m -> cmp d e = 0 -> tree_ok cmp (set_data t p (Some d)) (substitute p (p, d) m).
Proof using CmpLaws0.
  intros Hok Hin Hd. destruct (ok_tree _ _ _ Hok) as (tr & H & Hrb & He). pose proof (zip_elems_nodup _ _ H) as Hnd.
  pose proof Hin as Hin'. rewrite <- He in Hin'. destruct (elems_in_tree tr p e Hin') as (k & c & l & r & ->). apply zip_plug in H.
  assert (m = (kpre k ++ elems l) ++ (p, e) :: elems r ++ kpost k) as Hm by (rewrite <- He, elems_plug, kelems_split; cbn; by rewrite <- !app_assoc).
  rewrite He, Hm in Hnd. assert (substitute p (p, d) m = (kpre k ++ elems l) ++ (p, d) :: elems r ++ kpost k) as Hsub.
  { rewrite Hm. by apply substitute_split. }
  pose proof (ok_count _ _ _ Hok) as Hc. pose proof (ok_bound _ _ _ Hok) as Hb.
  assert (length (substitute p (p, d) m) = length m) as Hlen by apply length_map. split.
  - exists (plug k (T p c l d r)). split; [by eapply to_root, set_data_zipper|]. split; [by eapply rbtree_rename|].
    rewrite Hsub, elems_plug, kelems_split. cbn. by rewrite <- !app_assoc.
  - rewrite Hsub. eapply sorted_equal; [exact Hd|]. rewrite <- Hm. apply Hok.
  - by rewrite Hlen.
  - by rewrite Hlen.
Qed.
End Delete.
End RbTree.
