(* ===== verification/RbIter.v ===== *)
(** Walking red-black trees (src/lib/util/rb.c): the three iterators, deletion
    during a walk, and the destructor of a tree. *)

From stdpp Require Import gmap.
From S2P Require Import Prelude Rb RbShape RbMirror RbBalance RbSearch RbInsert RbDelete RbSplice RbTree.
Import Rb RbShape RbMirror RbBalance RbSearch RbInsert RbDelete RbSplice RbTree.

Module RbIter.

Section Inorder.
Context {A : Type} (cmp : A -> A -> Z) `{!CmpLaws cmp}.
Implicit Types (t : fr_rb_tree_t A) (tr : tree A) (k : context A) (m : list (ptr * A)).

(** ** In order *)

(** The position of an iterator before the nodes [m]. *)
Definition hd_ptr m : ptr := match m with [] => NIL | (p, _) :: _ => p end.
Definition hd_data m : option A := match m with [] => None | (_, e) :: _ => Some e end.

Lemma zip_data t k p c l d r : zipper t k (T p c l d r) -> data t p = Some d.
Proof. intros H. unfold data. by rewrite (zip_node _ _ _ _ _ _ _ H). Qed.

Lemma split_unique m1 m2 n1 n2 x d e :
  NoDup (map fst (m1 ++ (x, d) :: m2)) -> m1 ++ (x, d) :: m2 = n1 ++ (x, e) :: n2 -> m2 = n2.
Proof.
  revert n1. induction m1 as [|a m1 IH]; intros [|b n1]; cbn; intros [Hx Hnd]%list.NoDup_cons Heq.
  - by injection Heq as _ ->.
  - injection Heq as <- ->. destruct Hx. cbn. rewrite map_app, elem_of_app. right. left.
  - injection Heq as -> _. destruct Hx. cbn. rewrite map_app, elem_of_app. right. left.
  - injection Heq as _ Heq. by apply (IH n1).
Qed.

Lemma tree_position t m m1 x d m2 :
  tree_ok cmp t m -> m = m1 ++ (x, d) :: m2 ->
  exists k c l r, zipper t k (T x c l d r) /\ elems r ++ kpost k = m2 /\ (length k + height (T x c l d r) <= depth_fuel t)%nat.
Proof.
  intros Hok Hm. destruct (ok_tree _ _ _ Hok) as (tr & H & _ & He). pose proof (zip_elems_nodup _ _ H) as Hnd.
  destruct (elems_in_tree tr x d) as (k & c & l & r & ->); [rewrite He, Hm, elem_of_app, elem_of_cons; auto|].
  exists k, c, l, r. apply zip_plug in H. split; [done|].
  assert (m = (kpre k ++ elems l) ++ (x, d) :: elems r ++ kpost k) as Hm' by (rewrite <- He, elems_plug, kelems_split; cbn; by rewrite <- !app_assoc).
  rewrite He in Hnd. split.
  - rewrite Hm in Hm', Hnd. symmetry. by eapply split_unique.
  - unfold depth_fuel. rewrite (ok_count _ _ _ Hok), Nat2Z.id, <- He, elems_plug.
    pose proof (length_context k (elems (T x c l d r))). pose proof (height_elems (T x c l d r)). lia.
Qed.

(** Up to the first ancestor that the way comes to from the left. *)
Lemma climb_ok fuel t k tr :
  zipper t k tr -> tr <> E -> (length k <= fuel)%nat ->
  climb fuel t (top k) (rootp tr) = Some (hd_ptr (kpost k)) /\ data t (hd_ptr (kpost k)) = hd_data (kpost k).
Proof.
  revert fuel tr. induction k as [|[p c d r|p c l d] k IH]; intros fuel tr H Hn Hf.
  - split; [by destruct fuel|]. cbn. unfold data. by rewrite (zip_nil _ _ _ H).
  - apply up in H. cbn [plug1] in H. pose proof (zip_node _ _ _ _ _ _ _ H) as Hnode. cbn [top kpost hd_ptr hd_data].
    destruct (zip_siblings _ _ _ _ _ _ _ H (or_introl Hn)) as [Hs _]. split; [|unfold data; by rewrite Hnode].
    destruct fuel; cbn [climb]; unfold right; rewrite Hnode; cbn [n_right]; rewrite Hs, andb_false_r; done.
  - apply up in H. cbn [plug1] in H. pose proof (zip_node _ _ _ _ _ _ _ H) as Hnode. cbn [top kpost].
    destruct fuel as [|fuel]; cbn in Hf; [lia|]. destruct (IH fuel _ H ltac:(done) ltac:(lia)) as [H1 H2]. split; [|done].
    cbn [climb]. unfold right, parent. rewrite Hnode, (zip_nil_false _ _ _ _ _ _ _ H). cbn [n_right n_parent negb].
    rewrite Nat.eqb_refl. cbn [andb]. exact H1.
Qed.

Lemma iter_next_ok t m m1 x d m2 n :
  tree_ok cmp t m -> m = m1 ++ (x, d) :: m2 ->
  fr_rb_iter_next_inorder t (MkIter x n) = Some (MkIter (hd_ptr m2) n, hd_data m2).
Proof.
  intros Hok Hm. destruct (tree_position t m m1 x d m2 Hok Hm) as (k & c & l & r & H & <- & Hf). pose proof (zip_node _ _ _ _ _ _ _ H) as Hn.
  unfold fr_rb_iter_next_inorder. cbn [iter_node iter_next]. rewrite (zip_nil_false _ _ _ _ _ _ _ H).
  assert ((x =? NULL)%nat = false) as -> by (apply Nat.eqb_neq; apply zip_valid in H; inversion H; unfold NULL, NIL in *; lia).
  unfold right. rewrite Hn. cbn [n_right]. destruct (tree_cases r) as [-> |Hr].
  - change (is_nil (rootp E)) with true. cbn [negb]. unfold parent. rewrite Hn. cbn [n_parent].
    destruct (climb_ok (depth_fuel t) t k _ H ltac:(done) ltac:(lia)) as [H1 H2]. cbn [rootp] in H1. rewrite H1. cbn. by rewrite H2.
  - assert (is_nil (rootp r) = false) as -> by (destruct r; [done|]; apply down_right in H; by eapply zip_nil_false).
    cbn [negb]. cbn [height] in Hf.
    destruct (leftmost_ok (depth_fuel t) t _ r (down_right _ _ _ _ _ _ _ H) Hr ltac:(lia)) as (y & cy & dy & ry & kr & L1 & L2 & L3 & L4).
    rewrite L1. cbn [mbind option_bind]. rewrite (zip_data _ _ _ _ _ _ _ L2), <- L4, elems_plug, L3. done.
Qed.

Lemma iter_init_ok t m iter :
  tree_ok cmp t m ->
  fr_rb_iter_init_inorder t iter = Some (match m with [] => iter | _ => MkIter (hd_ptr m) NULL end, hd_data m).
Proof.
  intros Hok. destruct (ok_tree _ _ _ Hok) as (tr & H & _ & He). pose proof (zip_kshape _ _ _ H) as Hr. cbn in Hr.
  unfold fr_rb_iter_init_inorder. rewrite Hr. destruct (tree_cases tr) as [-> |Hn]; [by subst m|].
  assert (is_nil (rootp tr) = false) as -> by (destruct tr; [done|]; by eapply zip_nil_false).
  destruct (leftmost_ok (depth_fuel t) t _ tr H Hn) as (y & cy & dy & ry & kr & L1 & L2 & L3 & L4); [by eapply depth_fuel_enough|].
  rewrite L1. cbn [mbind option_bind]. rewrite (zip_data _ _ _ _ _ _ _ L2), <- He, <- L4, elems_plug, L3. done.
Qed.

Lemma flatten_next_ok t m m1 x d m2 fuel n :
  tree_ok cmp t m -> m = m1 ++ (x, d) :: m2 -> (length m2 < fuel)%nat ->
  flatten (fr_rb_iter_next_inorder t) fuel (MkIter x n) (Some d) = Some (d :: map snd m2).
Proof.
  intros Hok. revert m1 x d m2. induction fuel as [|fuel IH]; intros m1 x d m2 Hm Hf; [lia|]. cbn [flatten].
  rewrite (iter_next_ok t m m1 x d m2 n Hok Hm). cbn [mbind option_bind]. destruct m2 as [|[y e] m2]; [by destruct fuel|].
  cbn [hd_ptr hd_data]. rewrite (IH (m1 ++ [(x, d)]) y e m2); [done|by rewrite <- app_assoc|]. cbn in Hf. lia.
Qed.

Lemma flatten_inorder_ok t m : tree_ok cmp t m -> fr_rb_flatten_inorder t = Some (map snd m).
Proof.
  intros Hok. unfold fr_rb_flatten_inorder. rewrite (iter_init_ok t m _ Hok). cbn [mbind option_bind].
  destruct m as [|[x d] m]; [done|]. cbn [hd_ptr hd_data].
  rewrite (flatten_next_ok t ((x, d) :: m) [] x d m); [done|done|done|]. unfold depth_fuel. rewrite (ok_count _ _ _ Hok), Nat2Z.id. cbn. lia.
Qed.

(** ** Deletion during a walk *)

Lemma data_nil t m : tree_ok cmp t m -> data t NIL = None.
Proof. intros Hok. destruct (ok_tree _ _ _ Hok) as (tr & H & _). unfold data. by rewrite (zip_nil _ _ _ H). Qed.

Lemma iter_delete_ok t m m1 x d m2 n :
  tree_ok cmp t m -> m = m1 ++ (x, d) :: m2 ->
  exists t', fr_rb_iter_delete_inorder t (MkIter x n) = Some (t', MkIter NULL (hd_ptr m2)) /\ tree_ok cmp t' (m1 ++ m2) /\
    deleted cmp t t' m x d true.
Proof using CmpLaws0.
  intros Hok Hm. unfold fr_rb_iter_delete_inorder. rewrite (iter_next_ok t m m1 x d m2 n Hok Hm). cbn [iter_node].
  assert ((x, d) ∈ m) as Hin by (rewrite Hm, elem_of_app, elem_of_cons; auto).
  destruct (tree_ok_node _ _ _ _ _ Hok Hin) as (Hx & _). unfold is_nil. destruct (Nat.eqb_spec x NIL); [lia|].
  destruct (delete_internal_ok cmp t m x d true Hok Hin) as (t' & D1 & D2). cbn [mbind option_bind]. rewrite D1. cbn.
  exists t'. split; [done|]. split; [|done]. destruct D2 as [D2 _ _ _]. destruct (ok_tree _ _ _ Hok) as (tr & H & _ & He).
  pose proof (zip_elems_nodup _ _ H) as Hnd. rewrite He, Hm in Hnd. by rewrite Hm, sdelete_split in D2.
Qed.

Lemma iter_next_deleted t m1 m2 :
  tree_ok cmp t (m1 ++ m2) ->
  fr_rb_iter_next_inorder t (MkIter NULL (hd_ptr m2)) = Some (MkIter (hd_ptr m2) NULL, hd_data m2).
Proof.
  intros Hok. unfold fr_rb_iter_next_inorder. cbn [iter_node iter_next]. change (is_nil NULL) with false. cbn. repeat f_equal.
  destruct m2 as [|[p e] m2]; [by eapply data_nil|]. cbn. eapply tree_ok_node; [exact Hok|]. rewrite elem_of_app, elem_of_cons. auto.
Qed.

(** A caller that walks the tree and deletes the items that it wants to. *)
Fixpoint walk (want : A -> bool) (fuel : nat) t (iter : fr_rb_iter_inorder_t) (item : option A) : option (fr_rb_tree_t A * list A) :=
  match item with
  | None => Some (t, [])
  | Some a =>
      match fuel with
      | O => None
      | S fuel =>
          '(t, iter) ← (if want a then fr_rb_iter_delete_inorder t iter else Some (t, iter));
          '(iter, item) ← fr_rb_iter_next_inorder t iter;
          '(t, seen) ← walk want fuel t iter item;
          Some (t, a :: seen)
      end
  end.

Definition walk_tree (want : A -> bool) t : option (fr_rb_tree_t A * list A) :=
  '(iter, item) ← fr_rb_iter_init_inorder t (MkIter NIL NULL);
  walk want (depth_fuel t) t iter item.

Lemma walk_ok want fuel t m1 m2 n :
  tree_ok cmp t (m1 ++ m2) -> (length m2 <= fuel)%nat ->
  exists t', walk want fuel t (MkIter (hd_ptr m2) n) (hd_data m2) = Some (t', map snd m2) /\
    tree_ok cmp t' (m1 ++ List.filter (fun e => negb (want (snd e))) m2) /\
    has_free t' = has_free t /\ freed t' = freed t ++ (if has_free t then map Some (List.filter want (map snd m2)) else []).
Proof using CmpLaws0.
  revert t m1 m2 n. induction fuel as [|fuel IH]; intros t m1 [|[x d] m2] n Hok Hf; cbn in Hf; try lia.
  1, 2: exists t; split; [done|]; cbn; by destruct (has_free t); rewrite !app_nil_r in *.
  cbn [walk hd_ptr hd_data map snd List.filter]. destruct (want d) eqn:Ew.
  - destruct (iter_delete_ok t _ m1 x d m2 n Hok eq_refl) as (t1 & D1 & D2 & [_ D3 D4 _]). rewrite D1. cbn [mbind option_bind].
    rewrite (iter_next_deleted t1 m1 m2 D2). cbn [mbind option_bind].
    destruct (IH t1 m1 m2 NULL D2 ltac:(lia)) as (t' & W1 & W2 & W3 & W4). rewrite W1. cbn. exists t'. split; [done|].
    injection D3 as _ _ D3. cbn in D4. rewrite W4, D4, W3, D3. split_and!; try done. rewrite <- app_assoc. by destruct (has_free t).
  - cbn [mbind option_bind]. rewrite (iter_next_ok t _ m1 x d m2 n Hok eq_refl). cbn [mbind option_bind].
    assert (m1 ++ (x, d) :: m2 = (m1 ++ [(x, d)]) ++ m2) as Hm by (by rewrite <- app_assoc). rewrite Hm in Hok.
    destruct (IH t _ m2 n Hok ltac:(lia)) as (t' & W1 & W2 & W3 & W4). rewrite W1. cbn. exists t'. split; [done|].
    rewrite <- app_assoc in W2. done.
Qed.
End Inorder.

(** ** The other orders *)

Section Orders.
Context {A : Type}.
Implicit Types (t : fr_rb_tree_t A) (tr : tree A) (k : context A) (m : list (ptr * A)).

Fixpoint preorder tr : list (ptr * A) := match tr with E => [] | T p _ l d r => (p, d) :: preorder l ++ preorder r end.
Fixpoint postorder tr : list (ptr * A) := match tr with E => [] | T p _ l d r => postorder l ++ postorder r ++ [(p, d)] end.

(** What is left to visit after the focus. *)
Fixpoint kpreorder k : list (ptr * A) :=
  match k with [] => [] | FL _ _ _ r :: k => preorder r ++ kpreorder k | FR _ _ _ _ :: k => kpreorder k end.
Fixpoint kpostorder k : list (ptr * A) :=
  match k with [] => [] | FL p _ d r :: k => postorder r ++ (p, d) :: kpostorder k | FR p _ _ d :: k => (p, d) :: kpostorder k end.

Lemma rootp_nil t k tr : zipper t k tr -> is_nil (rootp tr) = match tr with E => true | _ => false end.
Proof. destruct tr; intros H; [done|]. by eapply zip_nil_false. Qed.

(** The focus on a node of the tree [w]. *)
Record position t (w : tree A) k (x : ptr) tr : Prop := Position {
  pos_zip : zipper t k tr; pos_plug : plug k tr = w; pos_ptr : rootp tr = x; pos_node : tr <> E }.

Lemma position_bound t w k x tr : position t w k x tr -> (length k + height tr <= length (elems w))%nat.
Proof. intros [_ <- _ _]. rewrite elems_plug. pose proof (length_context k (elems tr)). pose proof (height_elems tr). lia. Qed.

Lemma position_data t w k x c l d r y : position t w k y (T x c l d r) -> x = y /\ data t y = Some d /\ is_nil y = false.
Proof. intros [H _ <- _]. split; [done|]. split; [by eapply zip_data|by eapply zip_nil_false]. Qed.

(** [iter] is before the nodes [m], where [rest] gives what is left at a node. *)
Definition before (rest : context A -> tree A -> list (ptr * A)) t w (x : ptr) m : Prop :=
  match m with [] => x = NIL | _ => exists k tr, position t w k x tr /\ rest k tr = m end.

Definition rest_pre k tr : list (ptr * A) := preorder tr ++ kpreorder k.

Lemma next_right_ok fuel t w k x tr :
  position t w k x tr -> (length k <= fuel)%nat ->
  exists y, next_right fuel t x = Some y /\ before rest_pre t w y (kpreorder k).
Proof.
  revert fuel x tr. induction k as [|[p c d r|p c l d] k IH]; intros fuel x tr [H Hw <- Hn] Hf.
  - exists NIL. destruct tr as [|p c l d r]; [done|]. pose proof (zip_node _ _ _ _ _ _ _ H) as Hnode. split; [|done].
    destruct fuel; cbn [next_right rootp]; unfold parent; rewrite Hnode; done.
  - assert (parent t (rootp tr) = p) as Hp by (destruct tr; [done|]; cbn [rootp]; unfold parent; by rewrite (zip_node _ _ _ _ _ _ _ H)).
    apply up in H. cbn [plug1] in H. pose proof (zip_node _ _ _ _ _ _ _ H) as Hnode.
    assert (right t p = rootp r) as Hr by (unfold right; by rewrite Hnode). pose proof (down_right _ _ _ _ _ _ _ H) as Hz.
    destruct (zip_siblings _ _ _ _ _ _ _ H (or_introl Hn)) as [_ Hs]. destruct fuel as [|fuel]; cbn in Hf; [lia|]. cbn [next_right].
    rewrite Hp, (zip_nil_false _ _ _ _ _ _ _ H), Hr, Hs, (rootp_nil _ _ _ Hz). destruct r as [|rp rc rl rd rr]; cbn [negb andb].
    + destruct (IH fuel p (T p c tr d E)) as (y & H1 & H2); [by split|lia|]. by exists y.
    + exists rp. split; [done|]. cbn. eexists _, _. split; [split; [exact Hz|done|done|done]|done].
  - assert (parent t (rootp tr) = p) as Hp by (destruct tr; [done|]; cbn [rootp]; unfold parent; by rewrite (zip_node _ _ _ _ _ _ _ H)).
    apply up in H. cbn [plug1] in H. pose proof (zip_node _ _ _ _ _ _ _ H) as Hnode.
    assert (right t p = rootp tr) as Hr by (unfold right; by rewrite Hnode). destruct fuel as [|fuel]; cbn in Hf; [lia|]. cbn [next_right].
    rewrite Hp, (zip_nil_false _ _ _ _ _ _ _ H), Hr, Nat.eqb_refl, andb_false_r.
    destruct (IH fuel p (T p c l d tr)) as (y & H1 & H2); [by split|lia|]. by exists y.
Qed.

Lemma before_data rest t w x m : nodes t NIL = sentinel -> (forall k p c l d r, exists m', rest k (T p c l d r) = (p, d) :: m') ->
  before rest t w x m -> x = hd_ptr m /\ (if is_nil x then None else data t x) = hd_data m.
Proof.
  intros Hnil Hr. destruct m as [|[p e] m]; cbn; [by intros ->|]. intros (k & tr & Hpos & He).
  destruct tr as [|q c l d r]; [by destruct Hpos|]. destruct (position_data _ _ _ _ _ _ _ _ _ Hpos) as (<- & -> & ->).
  destruct (Hr k q c l d r) as [m' Hm']. rewrite Hm' in He. injection He as -> -> _. done.
Qed.

Lemma next_preorder_ok t w x p m :
  nodes t NIL = sentinel -> (length (elems w) <= depth_fuel t)%nat -> before rest_pre t w x (p :: m) ->
  exists y, fr_rb_iter_next_preorder t x = Some (y, hd_data m) /\ before rest_pre t w y m.
Proof.
  intros Hnil Hf (k & tr & Hpos & He). pose proof (position_bound _ _ _ _ _ Hpos) as Hb. destruct tr as [|q c l d r]; [by destruct Hpos|].
  destruct (position_data _ _ _ _ _ _ _ _ _ Hpos) as (<- & _ & Hx). pose proof Hpos as [H Hw _ _].
  pose proof (zip_node _ _ _ _ _ _ _ H) as Hnode. injection He as <- He. unfold fr_rb_iter_next_preorder. rewrite Hx.
  assert (left t q = rootp l /\ right t q = rootp r) as [-> ->] by (unfold left, right; by rewrite Hnode).
  pose proof (down_left _ _ _ _ _ _ _ H) as Hl. pose proof (down_right _ _ _ _ _ _ _ H) as Hr.
  rewrite (rootp_nil _ _ _ Hl), (rootp_nil _ _ _ Hr).
  assert (forall y m, before rest_pre t w y m -> (if is_nil y then None else data t y) = hd_data m) as Hd
    by (intros y m0 Hy; eapply before_data; [done| |exact Hy]; cbn; eauto).
  destruct l as [|lp lc ll ld lr]; cbn [negb].
  - destruct r as [|rp rc rl rd rr]; cbn [negb].
    + destruct (next_right_ok (depth_fuel t) t w k q _ Hpos ltac:(lia)) as (y & N1 & N2). cbn in He. rewrite He in N2.
      rewrite N1. cbn. exists y. by rewrite (Hd _ _ N2).
    + exists rp. cbn in He. rewrite <- He. cbn. rewrite (zip_data _ _ _ _ _ _ _ Hr). split; [done|].
      eexists _, _. split; [split; [exact Hr|done|done|done]|done].
  - exists lp. cbn in He. rewrite <- He. cbn. rewrite (zip_data _ _ _ _ _ _ _ Hl). split; [done|].
    eexists _, _. split; [split; [exact Hl|done|done|done]|]. unfold rest_pre. cbn. by rewrite <- !app_assoc.
Qed.

Lemma flatten_before rest next t w fuel x m :
  (forall x p m, before rest t w x (p :: m) -> exists y, next x = Some (y, hd_data m) /\ before rest t w y m) ->
  before rest t w x m -> (length m <= fuel)%nat ->
  flatten next fuel x (hd_data m) = Some (map snd m).
Proof.
  intros Hnext. revert x m. induction fuel as [|fuel IH]; intros x [|[p e] m] H Hf; cbn in Hf; try lia; try done.
  cbn [hd_data flatten]. destruct (Hnext _ _ _ H) as (y & -> & Hy). cbn [mbind option_bind]. by rewrite (IH y m Hy ltac:(lia)).
Qed.

Definition rest_post k tr : list (ptr * A) := match tr with E => [] | T p _ _ d _ => (p, d) :: kpostorder k end.

Lemma deepest_ok fuel t w k x tr :
  position t w k x tr -> (height tr <= fuel)%nat ->
  exists y k' tr', deepest fuel t x = Some y /\ position t w k' y tr' /\ rest_post k' tr' = postorder tr ++ kpostorder k.
Proof.
  revert fuel k x. induction tr as [|p c l IHl d r IHr]; intros fuel k x Hpos Hf; [by destruct Hpos|].
  pose proof Hpos as [H Hw <- _]. pose proof (zip_node _ _ _ _ _ _ _ H) as Hnode. cbn [rootp].
  pose proof (down_left _ _ _ _ _ _ _ H) as Hl. pose proof (down_right _ _ _ _ _ _ _ H) as Hr. cbn [height] in Hf.
  assert (left t p = rootp l /\ right t p = rootp r) as [E1 E2] by (unfold left, right; by rewrite Hnode).
  pose proof (rootp_nil _ _ _ Hl) as N1. pose proof (rootp_nil _ _ _ Hr) as N2.
  assert (deepest fuel t p = if negb (is_nil (left t p)) then match fuel with O => None | S fuel => deepest fuel t (left t p) end
    else if is_nil (right t p) then Some p else match fuel with O => None | S fuel => deepest fuel t (right t p) end) as -> by (by destruct fuel).
  rewrite E1, E2, N1, N2. destruct fuel as [|fuel]; [lia|]. destruct l as [|lp lc ll ld lr]; cbn [negb].
  - destruct r as [|rp rc rl rd rr].
    + exists p, k, (T p c E d E). split; [done|]. split; [done|]. cbn. done.
    + destruct (IHr fuel _ rp ltac:(split; [exact Hr|exact Hw|done|done]) ltac:(lia)) as (y & k' & tr' & H1 & H2 & H3).
      exists y, k', tr'. split; [done|]. split; [done|]. rewrite H3. cbn. by rewrite <- !app_assoc.
  - destruct (IHl fuel _ lp ltac:(split; [exact Hl|exact Hw|done|done]) ltac:(lia)) as (y & k' & tr' & H1 & H2 & H3).
    exists y, k', tr'. split; [done|]. split; [done|]. rewrite H3. cbn. by rewrite <- !app_assoc.
Qed.

Lemma position_up t w f k x tr : position t w (f :: k) x tr -> position t w k (top [f]) (plug1 tr f).
Proof. intros [H Hw _ _]. split; [by apply up|done|by destruct f|by destruct f]. Qed.

Lemma position_before t w k x tr : position t w k x tr -> before rest_post t w x (rest_post k tr) /\ data t x = hd_data (rest_post k tr).
Proof.
  intros Hpos. destruct tr as [|p c l d r]; [by destruct Hpos|]. destruct (position_data _ _ _ _ _ _ _ _ _ Hpos) as (<- & Hd & _). cbn. eauto.
Qed.

Lemma next_postorder_ok t w x p m :
  (length (elems w) <= depth_fuel t)%nat -> before rest_post t w x (p :: m) ->
  exists y, fr_rb_iter_next_postorder t x = Some (y, hd_data m) /\ before rest_post t w y m.
Proof.
  intros Hf (k & tr & Hpos & He). destruct tr as [|q c l d r]; [by destruct Hpos|].
  destruct (position_data _ _ _ _ _ _ _ _ _ Hpos) as (<- & _ & Hx). cbn in He. injection He as <- He.
  unfold fr_rb_iter_next_postorder. rewrite Hx.
  assert (parent t q = top k) as -> by (destruct Hpos as [H _ _ _]; unfold parent; by rewrite (zip_node _ _ _ _ _ _ _ H)).
  destruct k as [|f k]; [exists NIL; by rewrite <- He|]. pose proof (position_up _ _ _ _ _ _ Hpos) as Hup.
  pose proof (position_before _ _ _ _ _ Hup) as [Hb Hd]. destruct f as [p c' d' s|p c' s d']; cbn [plug1 top] in *.
  - destruct (position_data _ _ _ _ _ _ _ _ _ Hup) as (_ & _ & ->). destruct Hup as [H Hw _ _]. pose proof (zip_node _ _ _ _ _ _ _ H) as Hnode.
    assert (right t p = rootp s) as -> by (unfold right; by rewrite Hnode). pose proof (down_right _ _ _ _ _ _ _ H) as Hs. rewrite (rootp_nil _ _ _ Hs).
    destruct (zip_siblings _ _ _ _ _ _ _ H (or_introl (ltac:(done) : T q c l d r <> E))) as [_ Hsib]. cbn [rootp] in Hsib. rewrite Hsib.
    destruct s as [|sp sc sl sd sr]; cbn [orb].
    + exists p. cbn in He. subst m. by rewrite Hd.
    + assert (position t w (FR p c' (T q c l d r) d' :: k) sp (T sp sc sl sd sr)) as Hp by (split; done).
      pose proof (position_bound _ _ _ _ _ Hp) as Hbd. destruct (deepest_ok (depth_fuel t) t w _ _ _ Hp ltac:(lia)) as (y & k' & tr' & D1 & D2 & D3).
      cbn [rootp]. rewrite D1. cbn [mbind option_bind]. destruct (position_before _ _ _ _ _ D2) as [B1 B2]. rewrite D3 in B1, B2.
      exists y. rewrite B2. cbn in He, B1 |- *. subst m. done.
  - destruct (position_data _ _ _ _ _ _ _ _ _ Hup) as (_ & _ & ->). destruct Hup as [H Hw _ _]. pose proof (zip_node _ _ _ _ _ _ _ H) as Hnode.
    assert (right t p = q) as -> by (unfold right; by rewrite Hnode). rewrite Nat.eqb_refl, orb_true_r. exists p. cbn in He. subst m. by rewrite Hd.
Qed.

Lemma length_preorder tr : length (preorder tr) = length (elems tr).
Proof. induction tr as [|p c l IHl d r IHr]; cbn; [done|]. rewrite !length_app. cbn. lia. Qed.

Lemma length_postorder tr : length (postorder tr) = length (elems tr).
Proof. induction tr as [|p c l IHl d r IHr]; cbn; [done|]. rewrite !length_app. cbn. lia. Qed.

Lemma flatten_preorder_ok t tr :
  zipper t [] tr -> num_elements t = Z.of_nat (length (elems tr)) -> fr_rb_flatten_preorder t = Some (map snd (preorder tr)).
Proof.
  intros H Hc. pose proof (zip_kshape _ _ _ H) as Hr. cbn in Hr. unfold fr_rb_flatten_preorder, fr_rb_iter_init_preorder.
  assert (depth_fuel t = S (length (elems tr))) as Hf by (unfold depth_fuel; by rewrite Hc, Nat2Z.id). rewrite Hr, (rootp_nil _ _ _ H).
  destruct tr as [|p c l d r]; [by destruct (depth_fuel t)|]. cbn [rootp]. rewrite (zip_data _ _ _ _ _ _ _ H).
  apply (flatten_before rest_pre _ t (T p c l d r) _ p (preorder (T p c l d r))).
  - intros x e m. apply next_preorder_ok; [apply (zip_nil _ _ _ H)|]. rewrite Hf. lia.
  - cbn. exists [], (T p c l d r). split; [done|]. unfold rest_pre. cbn. by rewrite app_nil_r.
  - rewrite length_preorder, Hf. lia.
Qed.

Lemma flatten_postorder_ok t tr :
  zipper t [] tr -> num_elements t = Z.of_nat (length (elems tr)) -> fr_rb_flatten_postorder t = Some (map snd (postorder tr)).
Proof.
  intros H Hc. pose proof (zip_kshape _ _ _ H) as Hr. cbn in Hr. unfold fr_rb_flatten_postorder, fr_rb_iter_init_postorder.
  assert (depth_fuel t = S (length (elems tr))) as Hf by (unfold depth_fuel; by rewrite Hc, Nat2Z.id). rewrite Hr, (rootp_nil _ _ _ H).
  destruct tr as [|p c l d r]; [by destruct (depth_fuel t)|]. set (tr := T p c l d r) in *.
  assert (position t tr [] p tr) as Hp by (split; done). pose proof (position_bound _ _ _ _ _ Hp) as Hb.
  destruct (deepest_ok (depth_fuel t) t tr [] p tr Hp ltac:(lia)) as (y & k' & tr' & D1 & D2 & D3).
  change (rootp tr) with p. rewrite D1. cbn [mbind option_bind].
  destruct (position_before _ _ _ _ _ D2) as [B1 B2]. rewrite D3 in B1, B2. cbn [kpostorder] in B1, B2. rewrite app_nil_r in B1, B2. rewrite B2.
  apply (flatten_before rest_post _ t tr _ y (postorder tr)); [|done|rewrite length_postorder, Hf; lia].
  intros x e m. apply next_postorder_ok. rewrite Hf. lia.
Qed.

(** ** Freeing *)

Definition freed_by t t' (ps : list ptr) m : Prop :=
  (forall q, q ∉ ps -> nodes t' q = nodes t q) /\
  (being_freed t', inline_nodes t', has_free t') = (being_freed t, inline_nodes t, has_free t) /\
  freed t' = freed t ++ (if has_free t then map (fun e => Some (snd e)) m else []).

Lemma freed_by_app t1 t2 t3 ps qs m n :
  freed_by t1 t2 ps m -> freed_by t2 t3 qs n -> freed_by t1 t3 (ps ++ qs) (m ++ n).
Proof.
  intros (H1 & H2 & H3) (G1 & G2 & G3). split; [|split; [congruence|]].
  - intros q [Hp Hq]%not_elem_of_app. rewrite G1, H1; done.
  - injection H2 as _ _ H2. rewrite G3, H3, H2, <- app_assoc. destruct (has_free t1); [by rewrite map_app|done].
Qed.

Lemma freed_by_node t p e :
  nodes t p = e -> n_being_freed e = false ->
  (forall q, q ∉ [p] -> nodes (node_free t p true) q = nodes t q) /\
  (being_freed (node_free t p true), inline_nodes (node_free t p true), has_free (node_free t p true)) = (being_freed t, inline_nodes t, has_free t) /\
  freed (node_free t p true) = freed t ++ (if has_free t then [n_data e] else []).
Proof.
  intros <- Hb. destruct (node_free_frame t p true) as (H1 & _ & (_ & H2 & H3 & H4) & H5). rewrite H2, H3, H4, H5. unfold given_free.
  rewrite Hb. cbn [negb]. rewrite andb_true_r. split; [|done]. intros q Hq%not_elem_of_cons. apply H1, Hq.
Qed.

(** A walk gives the data of each node to the callback, children first. *)
Lemma free_walker_ok fuel t par tr :
  shape t par tr -> NoDup (addrs tr) -> Forall (fun p => NIL < p)%nat (addrs tr) -> (height tr <= fuel)%nat ->
  exists t', (if negb (is_nil (rootp tr)) then free_walker fuel t (rootp tr) else Some t) = Some t' /\ freed_by t t' (addrs tr) (postorder tr).
Proof.
  revert fuel t par. induction tr as [|p c l IHl d r IHr]; intros fuel t par Hs Hnd Hv Hf.
  { exists t. split; [done|]. split; [done|]. split; [done|]. cbn. destruct (has_free t); by rewrite app_nil_r. }
  destruct fuel as [|fuel]; cbn [height] in Hf; [lia|]. cbn [shape addrs] in Hs, Hnd, Hv. destruct Hs as (Hp & Hl & Hr).
  apply list.NoDup_cons in Hnd as [Hpn Hnd]. apply list.NoDup_app in Hnd as (Hnl & Hdis & Hnr).
  inversion Hv as [|? ? Hp0 Hv']; subst. apply Forall_app in Hv' as [Hvl Hvr]. apply not_elem_of_app in Hpn as [Hpl Hpr].
  cbn [free_walker rootp]. unfold is_nil at 1. destruct (Nat.eqb_spec p NIL); [lia|]. cbn [negb].
  destruct (IHl fuel t p Hl Hnl Hvl ltac:(lia)) as (t1 & W1 & F1). pose proof F1 as (N1 & _ & _).
  destruct (IHr fuel t1 p) as (t2 & W2 & F2); [|done|done|lia|].
  { apply (shape_frame t); [|done]. intros q Hq. apply N1. intros Hql. by apply (Hdis q). }
  pose proof F2 as (N2 & _ & _). unfold left at 1 2, right at 1. rewrite Hp. cbn [n_left n_right]. rewrite W1. cbn [mbind option_bind].
  unfold right at 1. rewrite (N1 p Hpl), Hp. cbn [n_right]. rewrite W2. cbn [mbind option_bind]. eexists. split; [done|].
  destruct (freed_by_node t2 p _ (eq_trans (N2 p Hpr) (eq_trans (N1 p Hpl) Hp)) eq_refl) as (G1 & G2 & G3).
  assert (freed_by t2 (node_free t2 p true) [p] [(p, d)]) as F3 by (split; [done|]; split; [done|]; rewrite G3; by destruct (has_free t2)).
  pose proof (freed_by_app _ _ _ _ _ _ _ F1 (freed_by_app _ _ _ _ _ _ _ F2 F3)) as (X1 & X2 & X3). split; [|split; [done|exact X3]].
  intros q Hq. apply X1. cbn in Hq. addr_atoms. rewrite !not_elem_of_app, not_elem_of_cons. repeat split; try done. apply not_elem_of_nil.
Qed.

Lemma tree_free_ok t tr :
  zipper t [] tr -> num_elements t = Z.of_nat (length (elems tr)) -> being_freed t = false ->
  exists t', tree_free t = Some (t', 0) /\ root t' = NIL /\ num_elements t' = 0 /\ being_freed t' = true /\
    freed t' = freed t ++ (if has_free t then map (fun e => Some (snd e)) (postorder tr) else []).
Proof.
  intros H Hc Hb. unfold tree_free. rewrite Hb. cbn zeta. set (t1 := t <| being_freed := true |>).
  pose proof (zip_kshape _ _ _ H) as Hr. cbn in Hr. change (root t1) with (root t). change (has_free t1) with (has_free t). rewrite Hr.
  destruct H as [H1 H2 H3 H4 H5]. cbn in H1, H2, H3. rewrite app_nil_r in H1, H2.
  destruct (free_walker_ok (depth_fuel t1) t1 NIL tr) as (t2 & W & F1 & F2 & F3); [|done|done| |].
  - apply (shape_frame t); [|done]. done.
  - unfold depth_fuel. change (num_elements t1) with (num_elements t). rewrite Hc, Nat2Z.id. pose proof (height_elems tr). lia.
  - change (has_free t1) with (has_free t) in F3. change (freed t1) with (freed t) in F3.
    destruct (has_free t); rewrite ?andb_true_r, ?andb_false_r.
    + rewrite W. cbn [mbind option_bind]. eexists. split; [done|]. injection F2 as F2 _ _. done.
    + cbn [mbind option_bind]. eexists. split; [done|]. by rewrite app_nil_r.
Qed.
End Orders.
End RbIter.
