(* ===== verification/RbSpec.v ===== *)
(** What src/lib/util/rb.c promises: its functions are those of an ordered set of
    data, with an address for each node; a search takes a number of steps that is
    logarithmic in the size. *)

From Stdlib Require Import Sorted.
From stdpp Require Import gmap.
From S2P Require Import Prelude Rb RbShape RbMirror RbBalance RbSearch RbInsert RbDelete RbSplice RbTree RbIter.
Import Rb RbShape RbMirror RbBalance RbSearch RbInsert RbDelete RbSplice RbTree RbIter.

Module RbSpec.

(** ** Operations and their results *)

(** A call; the address is what [node_alloc] returns. *)
Inductive op {A : Type} :=
| Find (d : A)
| Insert (d : A) (addr : option ptr)
| FindOrInsert (d : A) (addr : option ptr)
| Replace (d : A) (addr : option ptr) (keep : bool)
| Remove (d : A)
| RemoveByInlineNode (p : ptr)
| Delete (d : A)
| DeleteByInlineNode (p : ptr)
| NumElements
| First
| Last
| Flatten.
Arguments op : clear implicits.

Inductive result {A : Type} := Data (a : option A) | Bool (b : bool) | Found (n : Z) (a : option A) | Number (n : Z) | List (l : list A).
Arguments result : clear implicits.

Section Spec.
Context {A : Type} (cmp : A -> A -> Z).
Implicit Types (t : fr_rb_tree_t A) (m : list (ptr * A)).

Definition step t (o : op A) : option (fr_rb_tree_t A * result A) :=
  match o with
  | Find d => a ← fr_rb_find cmp t d; Some (t, Data a)
  | Insert d addr => '(t, b) ← fr_rb_insert cmp t d addr; Some (t, Bool b)
  | FindOrInsert d addr => '(t, (n, a)) ← fr_rb_find_or_insert cmp t d addr; Some (t, Found n a)
  | Replace d addr keep => '(t, (n, a)) ← fr_rb_replace cmp t d addr keep; Some (t, Found n a)
  | Remove d => '(t, a) ← fr_rb_remove cmp t d; Some (t, Data a)
  | RemoveByInlineNode p => '(t, a) ← fr_rb_remove_by_inline_node t p; Some (t, Data a)
  | Delete d => '(t, b) ← fr_rb_delete cmp t d; Some (t, Bool b)
  | DeleteByInlineNode p => '(t, b) ← fr_rb_delete_by_inline_node t p; Some (t, Bool b)
  | NumElements => Some (t, Number (fr_rb_num_elements t))
  | First => a ← fr_rb_first t; Some (t, Data a)
  | Last => a ← fr_rb_last t; Some (t, Data a)
  | Flatten => l ← fr_rb_flatten_inorder t; Some (t, List l)
  end.

(** ** The ordered set *)

(** The nodes in order, and the data that was given to the callback. *)
Record set := MkSet { s_nodes : list (ptr * A); s_freed : list (option A) }.

(** [inline] and [free] are how the tree was set up. *)
Context (inline free : bool).

(** The address of a new node is not one of a node in the tree, and the count
    does not overflow. *)
Definition fresh (x : ptr) m : bool :=
  bool_decide (NIL < x)%nat && bool_decide (x ∉ map fst m) && (Z.of_nat (length m) + 1 <? 2 ^ 32).

Definition spec_insert (s : set) (d : A) (addr : option ptr) : option (set * Z) :=
  match sfind cmp d (s_nodes s), addr with
  | Some _, _ => Some (s, 1)
  | None, None => Some (s, -1)
  | None, Some x => if fresh x (s_nodes s) then Some (MkSet (sinsert cmp x d (s_nodes s)) (s_freed s), 0) else None
  end.

Definition spec_delete (s : set) (p : ptr) (e : A) (free_data : bool) : set :=
  MkSet (sdelete p (s_nodes s)) (s_freed s ++ (if free_data && free then [Some e] else [])).

Definition find_ptr (p : ptr) m : option A := snd <$> List.find (fun e => (fst e =? p)%nat) m.

(** [None] is a call that the caller must not make. *)
Definition spec_step (s : set) (o : op A) : option (set * result A) :=
  let m := s_nodes s in
  match o with
  | Find d => Some (s, Data (snd <$> sfind cmp d m))
  | Insert d addr => '(s', n) ← spec_insert s d addr; Some (s', Bool (n =? 0))
  | FindOrInsert d addr => '(s', n) ← spec_insert s d addr; Some (s', Found n (if n =? 1 then snd <$> sfind cmp d m else None))
  | Replace d addr keep =>
      match sfind cmp d m with
      | Some (p, e) =>
          m' ← (if inline then
                  x ← addr;
                  if fresh x (sdelete p m) then Some (sinsert cmp x d (sdelete p m)) else None
                else Some (substitute p (p, d) m));
          Some (MkSet m' (s_freed s ++ (if negb keep && free then [Some e] else [])), Found 1 (if keep then Some e else None))
      | None => '(s', n) ← spec_insert s d addr; Some (s', Found n None)
      end
  | Remove d =>
      match sfind cmp d m with
      | Some (p, e) => Some (spec_delete s p e false, Data (Some e))
      | None => Some (s, Data None)
      end
  | RemoveByInlineNode p => e ← find_ptr p m; Some (spec_delete s p e false, Data (Some e))
  | Delete d =>
      match sfind cmp d m with
      | Some (p, e) => Some (spec_delete s p e true, Bool true)
      | None => Some (s, Bool false)
      end
  | DeleteByInlineNode p => e ← find_ptr p m; Some (spec_delete s p e true, Bool true)
  | NumElements => Some (s, Number (Z.of_nat (length m)))
  | First => Some (s, Data (snd <$> head m))
  | Last => Some (s, Data (snd <$> list.last m))
  | Flatten => Some (s, List (map snd m))
  end.

(** A sequence of calls and their results. *)
Fixpoint run {S : Type} (next : S -> op A -> option (S * result A)) (s : S) (os : list (op A)) : option (S * list (result A)) :=
  match os with
  | [] => Some (s, [])
  | o :: os => '(s, r) ← next s o; '(s, rs) ← run next s os; Some (s, r :: rs)
  end.

(** ** The tree implements the set *)

Record implements t (s : set) : Prop := Implements {
  im_ok : tree_ok cmp t (s_nodes s);
  im_env : (being_freed t, inline_nodes t, has_free t) = (false, inline, free);
  im_freed : freed t = s_freed s }.
End Spec.

Section Refinement.
Context {A : Type} (cmp : A -> A -> Z) `{!CmpLaws cmp} (inline free : bool).
Implicit Types (t : fr_rb_tree_t A) (m : list (ptr * A)) (s : set (A:=A)).

Abbreviation implements := (implements cmp inline free).
Abbreviation spec_step := (spec_step cmp inline free).

Lemma im_flags t s : implements t s -> being_freed t = false /\ inline_nodes t = inline /\ has_free t = free.
Proof. intros [_ H _]. by injection H as -> -> ->. Qed.

Lemma fresh_spec x m : fresh x m = true -> (NIL < x)%nat /\ (x ∉ map fst m) /\ Z.of_nat (length m) + 1 < 2 ^ 32.
Proof. unfold fresh. rewrite !andb_true_iff, !bool_decide_eq_true, Z.ltb_lt. tauto. Qed.

(** *** Insertion *)

Lemma insert_implements t s d addr s' n :
  implements t s -> spec_insert cmp s d addr = Some (s', n) ->
  exists t' r, insert_node cmp t d addr = Some (t', r) /\ implements t' s' /\
    match r with
    | Existing p => n = 1 /\ t' = t /\ exists e, data t p = Some e /\ sfind cmp d (s_nodes s) = Some (p, e)
    | Inserted => n = 0
    | Failed => n = -1
    end.
Proof using CmpLaws0.
  intros Him Hs. pose proof Him as [Hok _ Hfreed]. destruct (im_flags _ _ Him) as (Hb & Hi & Hf). unfold spec_insert in Hs.
  destruct (sfind cmp d (s_nodes s)) as [[p e]|] eqn:Ef.
  - injection Hs as <- <-. destruct (insert_node_existing cmp t d addr _ p e Hok Hb Ef) as [H1 H2]. exists t, (Existing p).
    split_and!; try done. by exists e.
  - destruct (insert_node_new cmp t d _ Hok Hb Ef) as [H1 H2]. destruct addr as [x|].
    + destruct (fresh x (s_nodes s)) eqn:Ex; [|done]. injection Hs as <- <-. apply fresh_spec in Ex as (X1 & X2 & X3).
      destruct (H2 x X1 X2 X3) as (t' & I1 & I2 & I3). exists t', Inserted. split; [done|]. split; [|done].
      unfold env in I3. injection I3 as J1 J2 J3 J4. split; cbn; [done|by rewrite J1, J2, J3, Hb, Hi, Hf|by rewrite J4].
    + injection Hs as <- <-. exists t, Failed. done.
Qed.

(** *** Deletion *)

Lemma delete_implements t s p e free_data :
  implements t s -> (p, e) ∈ s_nodes s ->
  exists t', delete_internal t p free_data = Some t' /\ implements t' (spec_delete free s p e free_data).
Proof using CmpLaws0.
  intros Him Hin. pose proof Him as [Hok He Hfreed]. destruct (im_flags _ _ Him) as (Hb & Hi & Hf).
  destruct (delete_internal_ok cmp t _ p e free_data Hok Hin) as (t' & D1 & [D2 D3 D4 _]). exists t'. split; [done|].
  split; cbn; [done|by rewrite D3|by rewrite D4, Hfreed, Hf].
Qed.

Lemma sfind_deleted d m p e t : tree_ok cmp t m -> sfind cmp d m = Some (p, e) -> sfind cmp d (sdelete p m) = None.
Proof using CmpLaws0.
  intros Hok Hf. apply sfind_elem in Hf as [Hin Hd]. destruct (ok_tree _ _ _ Hok) as (tr & H & _ & He). pose proof (zip_elems_nodup _ _ H) as Hnd.
  rewrite He in Hnd. pose proof (ok_sorted _ _ _ Hok) as Hs. apply list_elem_of_split in Hin as (m1 & m2 & ->).
  rewrite sdelete_split by done. apply sorted_app in Hs as (_ & S2 & S3). inversion_clear S2 as [|? ? _ S4]. rewrite sfind_app_gt.
  - apply sfind_lt. apply (lt_all_above cmp d p e); [lia|]. intros b Hb. rewrite Forall_forall in S4. by apply S4, list_elem_of_In.
  - apply (gt_all_below cmp d p e); [lia|]. intros b Hb. apply S3; [done|left].
Qed.

Lemma find_ptr_elem p m e : find_ptr p m = Some e -> (p, e) ∈ m.
Proof.
  unfold find_ptr. destruct (List.find _ m) as [[q a]|] eqn:Ef; [|done]. intros [= <-].
  apply List.find_some in Ef as [H1 H2%Nat.eqb_eq]. cbn in H2. subst q. by apply list_elem_of_In.
Qed.

(** *** Each function *)

Lemma find_step t s d : implements t s -> fr_rb_find cmp t d = Some (snd <$> sfind cmp d (s_nodes s)).
Proof using CmpLaws0.
  intros Him. pose proof Him as [Hok _ _]. destruct (im_flags _ _ Him) as (Hb & _ & _). unfold fr_rb_find. rewrite Hb, (find_node_ok cmp t d _ Hok Hb).
  cbn [mbind option_bind]. destruct (sfind cmp d (s_nodes s)) as [[p e]|] eqn:Ef; [|done]. apply sfind_elem in Ef as [Hin _].
  destruct (tree_ok_node cmp _ _ _ _ Hok Hin) as (Hp & Hd & _). destruct (Nat.eqb_spec p NULL); [unfold NULL, NIL in *; lia|]. by rewrite Hd.
Qed.

(** What [fr_rb_remove] and [fr_rb_delete] do before they delete a node. *)
Lemma found_node t s d p e : implements t s -> sfind cmp d (s_nodes s) = Some (p, e) ->
  find_node cmp t d = Some p /\ (p =? NULL)%nat = false /\ n_being_freed (nodes t p) = false /\ data t p = Some e /\ (p, e) ∈ s_nodes s.
Proof using CmpLaws0.
  intros Him Hf. pose proof Him as [Hok _ _]. destruct (im_flags _ _ Him) as (Hb & _ & _). pose proof (find_node_ok cmp t d _ Hok Hb) as Hn.
  rewrite Hf in Hn. apply sfind_elem in Hf as [Hin _]. destruct (tree_ok_node cmp _ _ _ _ Hok Hin) as (Hp & Hd & Hbf & _).
  split_and!; try done. apply Nat.eqb_neq. unfold NULL, NIL in *. lia.
Qed.

Lemma remove_step t s d s' r :
  implements t s -> spec_step s (Remove d) = Some (s', r) -> exists t', step cmp t (Remove d) = Some (t', r) /\ implements t' s'.
Proof using CmpLaws0.
  intros Him. pose proof Him as [Hok _ _]. destruct (im_flags _ _ Him) as (Hb & _ & _). cbn [RbSpec.spec_step step]. unfold fr_rb_remove. rewrite Hb.
  destruct (sfind cmp d (s_nodes s)) as [[p e]|] eqn:Ef; intros [= <- <-].
  - destruct (found_node t s d p e Him Ef) as (-> & H1 & H2 & H3 & Hin). cbn [mbind option_bind]. rewrite H1, H2, H3.
    destruct (delete_implements t s p e false Him Hin) as (t' & -> & D2). by exists t'.
  - rewrite (find_node_ok cmp t d _ Hok Hb), Ef. cbn. by exists t.
Qed.

Lemma delete_step t s d s' r :
  implements t s -> spec_step s (Delete d) = Some (s', r) -> exists t', step cmp t (Delete d) = Some (t', r) /\ implements t' s'.
Proof using CmpLaws0.
  intros Him. pose proof Him as [Hok _ _]. destruct (im_flags _ _ Him) as (Hb & _ & Hf). cbn [RbSpec.spec_step step]. unfold fr_rb_delete. rewrite Hb.
  destruct (sfind cmp d (s_nodes s)) as [[p e]|] eqn:Ef; intros [= <- <-].
  - destruct (found_node t s d p e Him Ef) as (-> & H1 & H2 & H3 & Hin). cbn [mbind option_bind]. rewrite H1, H2, Hf.
    destruct (delete_implements t s p e free Him Hin) as (t' & -> & D2). exists t'. split; [done|].
    unfold spec_delete in *. by rewrite andb_diag in D2.
  - rewrite (find_node_ok cmp t d _ Hok Hb), Ef. cbn. by exists t.
Qed.

Lemma by_node_step t s p e : implements t s -> find_ptr p (s_nodes s) = Some e ->
  fr_rb_node_inline_in_tree t p = true /\ data t p = Some e /\ (p, e) ∈ s_nodes s.
Proof. intros [Hok _ _] Hin%find_ptr_elem. destruct (tree_ok_node cmp _ _ _ _ Hok Hin) as (_ & Hd & _ & Ht). done. Qed.

(** *** The ends of the tree *)

Lemma rightmost_mirror fuel t y : rightmost fuel t y = leftmost fuel (mirror t) y.
Proof. revert y. induction fuel as [|fuel IH]; intros y; cbn [rightmost leftmost]; rewrite left_mirror; [done|]. case_if; [done|apply IH]. Qed.

Lemma leftmost_data t tr :
  zipper t [] tr -> tr <> E -> (height tr <= depth_fuel t)%nat ->
  exists y, leftmost (depth_fuel t) t (rootp tr) = Some y /\ data t y = hd_data (elems tr).
Proof.
  intros H Hn Hf. destruct (leftmost_ok (depth_fuel t) t [] tr H Hn Hf) as (y & c & d & r & k & L1 & L2 & L3 & L4).
  exists y. split; [done|]. by rewrite (zip_data _ _ _ _ _ _ _ L2), <- L4, elems_plug, L3.
Qed.

Lemma hd_data_head m : hd_data m = (snd <$> head m).
Proof. by destruct m as [|[p e] m]. Qed.

Lemma height_mirror (tr : tree A) : height (tmirror tr) = height tr.
Proof. induction tr as [|p c l IHl d r IHr]; cbn; [done|]. rewrite IHl, IHr. f_equal. apply Nat.max_comm. Qed.

Lemma ends_ok t m : tree_ok cmp t m -> fr_rb_first t = Some (snd <$> head m) /\ fr_rb_last t = Some (snd <$> list.last m).
Proof.
  intros Hok. destruct (ok_tree _ _ _ Hok) as (tr & H & _ & He). pose proof (zip_kshape _ _ _ H) as Hr. cbn in Hr.
  pose proof (depth_fuel_enough cmp t m tr Hok He) as Hf. unfold fr_rb_first, fr_rb_last. rewrite Hr, (rootp_nil _ _ _ H).
  destruct (tree_cases tr) as [-> |Hn]; [by subst m|]. replace (match tr with E => true | _ => false end) with false by (by destruct tr).
  split.
  - destruct (leftmost_data t tr H Hn Hf) as (y & -> & Hd). cbn. by rewrite Hd, He, hd_data_head.
  - apply zipper_mirror in H as Hm. destruct (leftmost_data (mirror t) (tmirror tr) Hm) as (y & L1 & Hd); [by destruct tr|by rewrite height_mirror|].
    rewrite rightmost_mirror. rewrite rootp_mirror in L1. change (depth_fuel (mirror t)) with (depth_fuel t) in L1. rewrite L1. cbn [mbind option_bind].
    assert (data t y = data (mirror t) y) as -> by (unfold data; by rewrite nodes_mirror).
    rewrite Hd, elems_mirror, hd_data_head, He, head_reverse. done.
Qed.

(** *** Replacement *)

(** The node with equal data gives way to the new data. *)
Lemma replace_found t s d addr p e m' :
  implements t s -> sfind cmp d (s_nodes s) = Some (p, e) ->
  (if inline then x ← addr; if fresh x (sdelete p (s_nodes s)) then Some (sinsert cmp x d (sdelete p (s_nodes s))) else None
   else Some (substitute p (p, d) (s_nodes s))) = Some m' ->
  exists t', (if inline then t ← delete_internal t p false; '(t, _) ← insert_node cmp t d addr; Some t else Some (set_data t p (Some d))) = Some t' /\
    implements t' (MkSet m' (s_freed s)).
Proof using CmpLaws0.
  intros Him Ef Hm. pose proof Him as [Hok Henv Hfreed]. destruct (im_flags _ _ Him) as (Hb & Hi & Hf).
  pose proof (sfind_elem cmp _ _ _ _ Ef) as [Hin Hd]. destruct inline eqn:Einl in Hm |- *.
  - destruct addr as [x|]; [|done]. cbn [mbind option_bind] in Hm. destruct (fresh x _) eqn:Ex; [|done]. injection Hm as <-.
    destruct (delete_implements t s p e false Him Hin) as (t1 & -> & D2). cbn [mbind option_bind].
    destruct (insert_implements t1 _ d (Some x) (MkSet (sinsert cmp x d (sdelete p (s_nodes s))) (s_freed s)) 0 D2) as (t2 & r & -> & I2 & _).
    { unfold spec_insert, spec_delete. cbn [s_nodes s_freed andb]. by rewrite (sfind_deleted _ _ _ _ _ Hok Ef), Ex, app_nil_r. }
    cbn [mbind option_bind]. exists t2. split; [done|]. rewrite Einl in I2. exact I2.
  - injection Hm as <-. eexists. split; [done|]. split; cbn; [by eapply set_data_ok|by rewrite Hb, Hi, Hf, Einl|done].
Qed.

Lemma replace_step t s d addr keep s' r :
  implements t s -> spec_step s (Replace d addr keep) = Some (s', r) ->
  exists t', step cmp t (Replace d addr keep) = Some (t', r) /\ implements t' s'.
Proof using CmpLaws0.
  intros Him Hs. pose proof Him as [Hok Henv Hfreed]. destruct (im_flags _ _ Him) as (Hb & Hi & Hf). cbn [RbSpec.spec_step step] in *. unfold fr_rb_replace.
  destruct (sfind cmp d (s_nodes s)) as [[p e]|] eqn:Ef.
  - destruct (insert_node_existing cmp t d addr _ p e Hok Hb Ef) as [-> H2]. cbn [mbind option_bind]. cbn zeta. rewrite H2, Hi.
    apply bind_Some in Hs as (m' & Hm & [= <- <-]). destruct (replace_found t s d addr p e m' Him Ef Hm) as (t1 & R1 & R2).
    apply im_flags in R2 as Hfl. destruct Hfl as (Hb1 & Hi1 & Hf1). destruct R2 as [R3 R4 R5]. rewrite R1. cbn [mbind option_bind]. rewrite Hf1.
    destruct keep; cbn [negb andb].
    + exists t1. split; [done|]. split; cbn; [done|done|by rewrite R5, app_nil_r].
    + destruct free; eexists; (split; [done|]); split; cbn; try done; try (by rewrite R5, ?app_nil_r).
      destruct R3 as [(tr & Z1 & Z2) Z3 Z4 Z5]. split; try done. exists tr. split; [|done]. by apply (zipper_ext t1).
  - destruct (spec_insert cmp s d addr) as [[s1 n]|] eqn:Ei; [|done]. injection Hs as <- <-.
    destruct (insert_implements t s d addr s1 n Him Ei) as (t1 & r1 & -> & I2 & I3). cbn [mbind option_bind]. exists t1. split; [|done].
    destruct r1 as [p| |]; [|by subst n..]. destruct I3 as (_ & _ & e & _ & I3). congruence.
Qed.

(** *** Every function *)

Lemma step_implements t s o s' r :
  implements t s -> spec_step s o = Some (s', r) -> exists t', step cmp t o = Some (t', r) /\ implements t' s'.
Proof using CmpLaws0.
  intros Him Hs. pose proof Him as [Hok _ _]. destruct o as [d|d addr|d addr|d addr keep|d|p|d|p| | | |];
    try (by eapply replace_step); try (by eapply remove_step); try (by eapply delete_step); cbn [RbSpec.spec_step step] in Hs |- *.
  - injection Hs as <- <-. rewrite (find_step t s d Him). by exists t.
  - apply bind_Some in Hs as ([s1 n] & Hi & [= <- <-]). destruct (insert_implements t s d addr s1 n Him Hi) as (t1 & r & I1 & I2 & I3).
    exists t1. unfold fr_rb_insert. rewrite I1. cbn. split; [|done]. destruct r; [by destruct I3 as [-> _]|by subst n..].
  - apply bind_Some in Hs as ([s1 n] & Hi & [= <- <-]). destruct (insert_implements t s d addr s1 n Him Hi) as (t1 & r & I1 & I2 & I3).
    exists t1. unfold fr_rb_find_or_insert. rewrite I1. cbn. split; [|done].
    destruct r as [p| |]; [destruct I3 as (-> & -> & e & -> & ->); done|by subst n..].
  - apply bind_Some in Hs as (e & Hf & [= <- <-]). destruct (by_node_step t s p e Him Hf) as (H1 & H2 & Hin). unfold fr_rb_remove_by_inline_node.
    rewrite H1, H2. cbn [negb]. destruct (delete_implements t s p e false Him Hin) as (t1 & -> & D2). by exists t1.
  - apply bind_Some in Hs as (e & Hf & [= <- <-]). destruct (by_node_step t s p e Him Hf) as (H1 & H2 & Hin). unfold fr_rb_delete_by_inline_node.
    rewrite H1. cbn [negb]. destruct (delete_implements t s p e true Him Hin) as (t1 & -> & D2). by exists t1.
  - injection Hs as <- <-. unfold fr_rb_num_elements. rewrite (ok_count _ _ _ Hok). by exists t.
  - injection Hs as <- <-. rewrite (proj1 (ends_ok t _ Hok)). by exists t.
  - injection Hs as <- <-. rewrite (proj2 (ends_ok t _ Hok)). by exists t.
  - injection Hs as <- <-. rewrite (flatten_inorder_ok cmp t _ Hok). by exists t.
Qed.

Lemma run_implements t s os s' rs :
  implements t s -> run spec_step s os = Some (s', rs) -> exists t', run (step cmp) t os = Some (t', rs) /\ implements t' s'.
Proof using CmpLaws0.
  revert t s s' rs. induction os as [|o os IH]; intros t s s' rs Him; cbn [run]; [intros [= <- <-]; by exists t|].
  intros ([s1 r] & H1 & ([s2 rs2] & H2 & [= <- <-])%bind_Some)%bind_Some.
  destruct (step_implements t s o s1 r Him H1) as (t1 & -> & I1). destruct (IH t1 s1 s2 rs2 I1 H2) as (t2 & R1 & R2).
  cbn [mbind option_bind]. rewrite R1. by exists t2.
Qed.

Lemma init_implements : implements (empty_tree inline free) (MkSet [] []).
Proof. split; [apply init_ok|done|done]. Qed.

(** *** Balance *)

Lemma rb_size (tr : tree A) n : rb tr n -> (2 ^ n <= length (elems tr) + 1)%nat.
Proof.
  revert n. induction tr as [|p [] l IHl d r IHr]; intros n; cbn [rb elems]; rewrite ?length_app; cbn [length].
  - intros ->. cbn. lia.
  - destruct n as [|n]; [done|]. intros [Hl%IHl Hr%IHr]. cbn [Nat.pow]. lia.
  - intros (Hl%IHl & Hr%IHr & _). lia.
Qed.

Lemma rb_height (tr : tree A) n : rb tr n -> (height tr <= 2 * n + match colour_of tr with RED => 1 | BLACK => 0 end)%nat.
Proof.
  revert n. induction tr as [|p [] l IHl d r IHr]; intros n; cbn [rb height colour_of].
  - lia.
  - destruct n as [|n]; [done|]. intros [Hl%IHl Hr%IHr]. destruct (colour_of l), (colour_of r); lia.
  - intros (Hl%IHl & Hr%IHr & Hcl & Hcr). rewrite Hcl in Hl. rewrite Hcr in Hr. lia.
Qed.

Lemma rbtree_height (tr : tree A) : rbtree tr -> (height tr <= 2 * Nat.log2 (length (elems tr) + 1))%nat.
Proof.
  intros [Hc [n Hn]]. pose proof (rb_size _ _ Hn) as Hs. pose proof (rb_height _ _ Hn) as Hh. rewrite Hc in Hh.
  apply Nat.log2_le_mono in Hs. rewrite Nat.log2_pow2 in Hs by lia. lia.
Qed.
End Refinement.

(** ** The promises *)

(** C2: The functions of a red-black tree are those of an ordered set: whatever
    sequence of calls follows the creation of a tree, each returns what it would
    return on the sorted list of the data, no loop runs forever, and the tree that
    is left is a red-black tree of those data; what was given to the callback
    [data_free] is what the list says. *)
Theorem rb_refines_ordered_set {A} (cmp : A -> A -> Z) (Hcmp : CmpLaws cmp) offset (free : bool) t0 os s rs :
  fr_rb_init offset free = Some t0 ->
  run (spec_step cmp (0 <=? offset) free) (MkSet [] []) os = Some (s, rs) ->
  exists t, run (step cmp) t0 os = Some (t, rs) /\ implements cmp (0 <=? offset) free t s.
Proof.
  unfold fr_rb_init. destruct (65535 <=? offset); [done|]. intros [= <-]. apply run_implements; [done|apply init_implements].
Qed.

(** C24: A search in a tree of [n] elements makes at most [2 log2 (n + 1)] steps. *)
Theorem rb_search_logarithmic {A} (cmp : A -> A -> Z) (Hcmp : CmpLaws cmp) t m d :
  tree_ok cmp t m ->
  find_search cmp (2 * Nat.log2 (length m + 1)) t d (root t) =
  Some (match sfind cmp d m with Some (p, _) => p | None => NULL end).
Proof.
  intros Hok. destruct (ok_tree _ _ _ Hok) as (tr & H & Hrb & He). pose proof (ok_sorted _ _ _ Hok) as Hs.
  pose proof (zip_kshape _ _ _ H) as Hr. cbn in Hr. rewrite Hr, <- He in *.
  rewrite (find_search_locate cmp _ t d [] tr H) by (by apply rbtree_height).
  pose proof (locate_spec cmp d [] tr Hs ltac:(constructor) ltac:(constructor)) as Hl. cbn [kelems] in Hl.
  destruct (locate cmp d [] tr) as [k|[p e]]; [by destruct Hl as (_ & _ & _ & ->)|by destruct Hl as (_ & ->)].
Qed.

(** C26: A walk in order may delete the element that it is at: it still comes to
    every element once and in order, the elements that are left are those that
    were not deleted, and each deleted one was given to the callback once. *)
Theorem rb_walk_deletes {A} (cmp : A -> A -> Z) (Hcmp : CmpLaws cmp) want t m :
  tree_ok cmp t m ->
  exists t', walk_tree want t = Some (t', map snd m) /\ tree_ok cmp t' (List.filter (fun e => negb (want (snd e))) m) /\
    freed t' = freed t ++ (if has_free t then map Some (List.filter want (map snd m)) else []).
Proof.
  intros Hok. unfold walk_tree. rewrite (iter_init_ok cmp t m _ Hok). cbn [mbind option_bind].
  replace (match m with [] => MkIter NIL NULL | _ => MkIter (hd_ptr m) NULL end) with (MkIter (hd_ptr m) NULL) by (by destruct m).
  destruct (walk_ok cmp want (depth_fuel t) t [] m NULL Hok) as (t' & W1 & W2 & W3 & W4).
  { unfold depth_fuel. rewrite (ok_count _ _ _ Hok), Nat2Z.id. lia. }
  exists t'. done.
Qed.

(** C27: The three kinds of iterator come to every element exactly once: in order,
    each node before the nodes below it, and each node after the nodes below it.
    Freeing the tree gives every element to the callback in the last of these
    orders, once, and leaves a tree that nothing can be found in or added to. *)
Theorem rb_orders_and_free {A} (cmp : A -> A -> Z) t m :
  tree_ok cmp t m -> being_freed t = false ->
  exists tr, zipper t [] tr /\ elems tr = m /\
    fr_rb_flatten_inorder t = Some (map snd (elems tr)) /\
    fr_rb_flatten_preorder t = Some (map snd (preorder tr)) /\
    fr_rb_flatten_postorder t = Some (map snd (postorder tr)) /\
    exists t', tree_free t = Some (t', 0) /\
      freed t' = freed t ++ (if has_free t then map (fun e => Some (snd e)) (postorder tr) else []) /\
      tree_free t' = Some (t', -1) /\
      forall d addr, fr_rb_find cmp t' d = Some None /\ fr_rb_insert cmp t' d addr = Some (t', false) /\
        fr_rb_remove cmp t' d = Some (t', None) /\ fr_rb_delete cmp t' d = Some (t', false).
Proof.
  intros Hok Hb. destruct (ok_tree _ _ _ Hok) as (tr & H & _ & He). pose proof (ok_count _ _ _ Hok) as Hc. rewrite <- He in Hc.
  exists tr. split; [done|]. split; [done|]. rewrite (flatten_inorder_ok cmp t m Hok), He. split; [done|].
  split; [by apply flatten_preorder_ok|]. split; [by apply flatten_postorder_ok|].
  destruct (tree_free_ok t tr H Hc Hb) as (t' & F1 & F2 & F3 & F4 & F5). exists t'. split; [done|]. split; [done|].
  split; [unfold tree_free; by rewrite F4|]. intros d addr. unfold fr_rb_find, fr_rb_insert, fr_rb_remove, fr_rb_delete, insert_node. rewrite F4. done.
Qed.

(** ** Examples *)

(** [CMP(a, b)] on numbers. *)
Definition number_cmp (a b : Z) : Z := Z.sgn (a - b).

#[local] Instance number_cmp_laws : CmpLaws number_cmp.
Proof. unfold number_cmp. split; intros; lia. Qed.

Definition example_ops : list (op Z) :=
  [Insert 50 (Some 2%nat); Insert 30 (Some 3%nat); Insert 70 (Some 4%nat); Insert 20 (Some 5%nat); Insert 40 (Some 6%nat); Insert 60 (Some 7%nat);
   Insert 80 (Some 8%nat); Insert 10 (Some 9%nat); Insert 30 (Some 10%nat); Delete 50; Remove 20; Find 70; Replace 60 (Some 11%nat) true;
   RemoveByInlineNode 4%nat; First; Last; NumElements; Flatten].

Definition example_results : list (result Z) :=
  [Bool true; Bool true; Bool true; Bool true; Bool true; Bool true; Bool true; Bool true; Bool false; Bool true;
   Data (Some 20); Data (Some 70); Found 1 (Some 60); Data (Some 70); Data (Some 10); Data (Some 80); Number 5;
   List [10; 30; 40; 60; 80]].

Definition example_nodes : list (ptr * Z) := [(9%nat, 10); (3%nat, 30); (6%nat, 40); (11%nat, 60); (8%nat, 80)].

Lemma rb_refines_ordered_set_witness :
  exists t, run (step number_cmp) (empty_tree true true) example_ops = Some (t, example_results) /\
    implements number_cmp true true t (MkSet example_nodes [Some 50]).
Proof. apply (rb_refines_ordered_set number_cmp number_cmp_laws 16 true _ example_ops); [reflexivity|vm_compute; reflexivity]. Defined.

Definition example_tree : fr_rb_tree_t Z :=
  match run (step number_cmp) (empty_tree true true) example_ops with Some (t, _) => t | None => empty_tree true true end.

Lemma example_tree_ok : tree_ok number_cmp example_tree example_nodes.
Proof.
  destruct (run_implements number_cmp true true _ _ example_ops (MkSet example_nodes [Some 50]) example_results
    (init_implements number_cmp true true)) as (t & H1 & [H2 _ _]); [vm_compute; reflexivity|].
  unfold example_tree. by rewrite H1.
Qed.

Lemma rb_search_logarithmic_witness : find_search number_cmp 4 example_tree 60 (root example_tree) = Some 11%nat.
Proof. exact (rb_search_logarithmic number_cmp number_cmp_laws example_tree example_nodes 60 example_tree_ok). Defined.

Lemma rb_walk_deletes_witness :
  exists t', walk_tree (fun a => a <=? 40) example_tree = Some (t', [10; 30; 40; 60; 80]) /\
    tree_ok number_cmp t' [(11%nat, 60); (8%nat, 80)] /\ freed t' = freed example_tree ++ [Some 10; Some 30; Some 40].
Proof. exact (rb_walk_deletes number_cmp number_cmp_laws (fun a => a <=? 40) example_tree example_nodes example_tree_ok). Defined.

Lemma rb_orders_and_free_witness :
  exists tr, zipper example_tree [] tr /\ elems tr = example_nodes /\
    fr_rb_flatten_inorder example_tree = Some (map snd (elems tr)) /\
    fr_rb_flatten_preorder example_tree = Some (map snd (preorder tr)) /\
    fr_rb_flatten_postorder example_tree = Some (map snd (postorder tr)) /\
    exists t', tree_free example_tree = Some (t', 0) /\
      freed t' = freed example_tree ++ map (fun e => Some (snd e)) (postorder tr) /\
      tree_free t' = Some (t', -1) /\
      forall d addr, fr_rb_find number_cmp t' d = Some None /\ fr_rb_insert number_cmp t' d addr = Some (t', false) /\
        fr_rb_remove number_cmp t' d = Some (t', None) /\ fr_rb_delete number_cmp t' d = Some (t', false).
Proof. exact (rb_orders_and_free number_cmp example_tree example_nodes example_tree_ok eq_refl). Defined.
End RbSpec.
